(* ===== verification/_CoqProject ===== *)
-Q . S2P
Prelude.v
Utf8.v
Strbuffer.v
Memory.v
Version.v
Lookup3.v
Dlist.v
Hashtable.v
Value.v
Arrays.v
Refcount.v
ValueSpec.v
Iterate.v
Client.v
Error.v
Strconv.v
Load.v
Dump.v
Pack.v
Grammar.v
Numbers.v
GrammarFacts.v
Stream.v
Lexer.v
Scan.v
Tree.v
Building.v
Update.v
Parser.v
Decode.v
Print.v
Views.v
Sinks.v
DumpText.v
Encode.v
Dumps.v
Escapes.v
Reals.v
RoundTrip.v
Rounding.v
Doubles.v
Codec.v
Equal.v
Exact.v
Copy.v
Api.v
PackFacts.v
UnpackFacts.v
Natives.v
Plugin.v
Sessions.v
Requests.v
EventLoop.v
SocketFacts.v
Seed.v
Heap.v
HeapFacts.v
Timers.v
TimerFacts.v
Timeout.v
Lifecycle.v
Curl.v
Http.v
Setopt.v
HttpFacts.v
HttpNatives.v
HttpSafe.v
HttpSessions.v
Keys.v
Transfer.v
