(* ===== verification/Prelude.v ===== *)
(** * Verification of sm-ripext (REST in Pawn)

    sm-ripext is a SourceMod extension that gives plugins JSON values and HTTP
    requests.  Its C code is the JSON library under src/jansson/src/, which
    every native of src/json_natives.cpp and every request body and response
    of src/http*.cpp goes through; the rest is C++ that connects plugins, the
    JSON library, libcurl and libuv.  This development models the JSON library
    down to the level of the linked cells, the reference counts, the bytes of
    the buffers and the allocation failures, and on top of it the natives of
    both tables, the classes and contexts of HTTP requests, the two queues
    between the game's thread and the event loop, the sockets of the event
    loop, and the helpers of libcurl the extension calls itself.

    ** The parts, and the files that model them

    The machine has 64-bit [size_t], 32-bit [int] and signed [char].  C code
    that touches memory is a function of a state/error monad [ST] (this
    file): undefined behaviour, a failed assert and an exhausted loop bound of
    the model are the three errors of type [err], and [wp] (weakest
    precondition) excludes all of them.  The allocator is a stream of outcomes
    ([oracle]); the empty stream is an allocator that never fails.

    - Prelude: the monad, [wp] with its tactics, machine integers, bytes and
      C strings, memory blocks, digits.
    - Utf8 (utf.c): [utf8_encode], [utf8_check_first], [utf8_check_full],
      [utf8_iterate], [utf8_check_string].
    - Strbuffer (strbuffer.c, memory.c): the growing buffer and the allocator.
    - Memory (memory.c): the allocator functions as the pointers they are,
      with the blocks each allocator owns; Version (version.c).
    - Lookup3 (lookup3.h): the hash function on its three alignment paths.
    - Dlist, Hashtable (hashtable.c, hashtable_seed.c): circular doubly linked
      lists with explicit cells; buckets as segments of one list, the order of
      insertion as another; set, get, delete, rehash, clear, iteration.
    - Value (value.c, jansson.h): all values in one heap of counted nodes;
      constructors, accessors, mutators, iterators, update, equality, copies,
      [json_incref], [json_decref], [json_delete], the loop check.
    - Error (error.c), Strconv (strconv.c), Load (load.c), Dump (dump.c), Pack
      (pack_unpack.c): error reports, number conversion, the decoder (stream,
      lexer, parser, entry points), the encoder, and the format-driven
      constructor and destructor with their variadic arguments as a list.
    - Natives (json_natives.cpp, the destructors of extension.cpp): every
      native of the table [json_natives], the state being the JSON world, the
      handles, the open [JSONObjectKeys] and what plugins were told.
      SourceMod's handle system is the interface [HandleSystem] with its laws
      [HandleLaws]; a call is an [env] (parameters, strings, files).
    - Requests (queue.h and the queue handling of extension.cpp): the two
      threads as a step relation between their program points, over the two
      locked queues and the multi handle.
    - EventLoop (the socket and timer callbacks of extension.cpp, CurlContext of
      extension.h): with the table of sockets of src/curl/lib/multi.c and the
      poll handles of src/libuv/src/unix/poll.c, between which they connect.
    - Seed (hashtable_seed.c): the sources of entropy, and [json_object_seed]
      as the accesses of any number of threads in its three variants (the one
      for a single thread is in Value).
    - Heap (src/libuv/src/heap-inl.h), Timers (src/libuv/src/timer.c and
      CurlTimeoutCallback of extension.cpp): the linked heap with its nodes in
      memory, the timers in it, their callbacks as a finite script of calls, and
      the timer [g_Timeout] of the extension.
    - Lifecycle (SDK_OnLoad and SDK_OnUnload): the sequence of their calls on
      what these leave in SourceMod, libcurl and libuv.
    - Curl (src/curl/lib/dynbuf.c, escape.c, slist.c): dynamic buffers,
      percent-encoding, string lists in cells of their own, formatted appends.
    - Http (httprequest.cpp, httpclient.cpp, http*context.cpp): the classes,
      the callbacks libcurl is given, the options of each transfer.  The
      header map is the interface [HeaderMap] with its laws.
    - Setopt (src/curl/lib/setopt.c, with pieces of url.c, http.c, transfer.c):
      [curl_easy_setopt] for the options that Http sets, with the values it
      rejects, and the method and body size libcurl takes from them.
    - HttpNatives (http_natives.cpp, OnCompleted and the destructors of the
      contexts, the start of requests): every native of [http_natives]; the
      state [hstate] adds clients, requests, contexts, forwards, sessions and
      open files to that of Natives.

    ** What the theorems show

    - Text and memory: Utf8 (validation is exactly UTF-8; encode/iterate round
      trip), Strbuffer (appends are exact or change nothing, sizes never
      wrap), Lookup3 (one function on three paths), Error (fixed arrays are
      never overrun).
    - Hash tables: Dlist and Hashtable prove that the table implements an
      insertion-ordered map ([ht_rep]) under every operation, across rehashes
      and allocation failures.
    - Values: Arrays ([array_ok]), Refcount (the heap invariant [Inv]: every
      count is the number of references from the heap and from the client,
      and [json_decref] frees exactly what nobody references any more),
      ValueSpec (each operation on the heap, every branch), Iterate (loops
      over objects; the loop check recognises exactly the containers of the
      path), Client (the basic calls of a client that follows the ownership
      rules), Update (updates, extensions, shallow copies, changes in place) and
      Api (such a client is safe after every sequence of all these calls and
      deep copies, with any allocation failures; the recursive update is safe
      where it merges no object into an object, and elsewhere not always,
      [update_recursive_dangling]).  Memory shows that blocks go back to
      the allocator they came from if it is replaced while there are none.
    - The decoder: Grammar is a reference decoder, a pure function from text
      to [option json]; Numbers, GrammarFacts, Stream, Lexer, Scan, Tree,
      Building, Parser and Decode show that load.c refines it: it accepts the
      same texts and builds the same tree in fresh nodes.
    - The encoder: Print is a reference encoder on views of the heap (a view
      is a tree with marks where a path comes back to one of its nodes);
      Views, Sinks (the class [Sink]: what an output promises to the encoder,
      with the string buffer, the caller's buffer and the file as instances),
      DumpText, Encode and Dumps show that dump.c refines it, and what it does
      when allocations or writes fail.
    - Both together: Escapes, Reals, RoundTrip and Codec show that what
      [json_dumps] writes [json_loads] reads back, for every flag, every
      locale and every tree.  The precision of reals is a flag of the encoder
      and the result is stated with the real that the chosen number of digits
      denotes ([reread]).  Rounding, Doubles and Exact show that with the
      default precision, or 17 digits and more, this is the same double, so
      that the value that comes back is [json_equal] to the first one, and
      the same tree unless keys are sorted.
    - Equal and Copy: [json_equal] decides structural equality and is an
      equivalence; [json_deep_copy] gives an equal tree of new nodes, or NULL
      for a value that contains itself or for lack of memory.
    - PackFacts and UnpackFacts: a description [fspec] of a value stands for a
      format and two argument lists; [json_pack] builds exactly the described
      tree, and [json_unpack] stores its arguments again, for any spacing.
    - Plugins: Plugin and Sessions show that every session of JSON natives is
      safe and that each handle owns one reference, whatever is closed when,
      with one exception, ReadKey on keys whose object or pair is gone
      ([stale_keys]), which is always undefined behaviour; Keys, that closing
      an object's last handle leads there; what SetInt stores GetInt returns;
      ReadKey enumerates the keys; GetInt64 loses a digit of the smallest
      integers ([get_int64_text]).
    - Threads: Requests shows for every interleaving that no queue is popped
      empty, no context is used after its end and each callback runs at most
      once, that the threads come to rest, and that every request can
      complete.  SocketFacts shows that every socket libcurl waits for is
      watched by libuv, for all that any transfer waits for on it, and that
      contexts of sockets are neither leaked nor used after their end;
      Seed, that the hash seed is set once and nobody waits for ever;
      Lifecycle, what loading sets up and what unloading leaves behind.
    - Timers: HeapFacts shows that the linked heap is a priority queue for any
      strict weak order; TimerFacts ([loop_ok]), that the timers run when they
      are due, in order, whatever the callbacks change; Timeout, that seen from
      the extension all this is one alarm: what EventLoop assumes of the timer.
      A timer started with 0 inside a callback fires in the same run, not in
      the next iteration as libuv's documentation says
      ([zero_timeout_same_run]).
    - HTTP: Curl and HttpFacts treat the parts (escaping loses nothing, lists
      own their cells, parameters can be read back, bodies and headers arrive);
      HttpSafe states the invariant [http_ok] of the whole state and
      proves the natives against the interface [HandleTable]; HttpSessions
      adds transfers and completions: whatever plugins and the two threads do
      is safe, but for ReadKey as above, and the data of a response is the tree
      of the received text.  Transfer follows a request from [Perform] through
      the queue to libcurl's options: they are those of the request, but for
      the values that [curl_easy_setopt] rejects and [InitCurl] does not notice.
    - The claims of the manifest carry their numbers in the doc comments of
      their theorems; each is followed by a witness on a concrete state.

    ** Fuel and bounds

    Loops that are not structural take fuel computed from the state: the
    number of nodes for [json_decref], [do_dump], [do_deep_copy] and
    [json_equal] (the nodes bound the length of a path without repetitions,
    and the loop check or the acyclicity of the value excludes others), the
    number of pairs for loops over objects, the bytes left for the lexer, the
    depth limit of the parser for the parser, 32 for the walks through the heap
    of timers (the halvings of an [unsigned int]), the rest of the script and
    the number of handles for the timers that run.  The theorems show that the fuel
    is enough: [OutOfFuel] is never the result.  Sizes are bounded where the
    code relies on it: texts below 2 GiB for the decoder ([int] positions),
    heaps of at most 2^31 values (hash tables of at most 2^31 pairs), output
    below 2^60 bytes.  The theorems hold for any allocation failures, but for
    those on the decoder, which is not safe without memory
    ([lex_save_lossy], [json_loads_starved]), on [json_pack], on [Perform] in
    Transfer and on [waits_are_watched]; the natives that decode have the same
    condition ([load_fits]).

    ** Modelling decisions

    The C library is modelled where the code uses it: [strtoll], [strtod] and
    [printf] with [%.*g] by exact decimal arithmetic and correct rounding
    ([SpecFloat] of the Standard Library), [localeconv] by its decimal point,
    an argument of the functions.  The formatted text of an error message is
    an argument of the functions that store it.  Files and descriptors are the
    list of results of the reads or writes.  Objects that C++ creates with
    [new] are addresses that are never used again; [new] does not fail.  The
    steps of Requests are the accesses to shared data; reading whether a queue
    is empty is one step, which C++ does not promise for the unlocked reads of
    [FrameHook]; those of Seed are sequentially consistent.  HttpSessions takes the natives, the callbacks of libcurl and
    the two halves of a completion as atomic: a transfer touches only contexts
    that no native can reach.  What libcurl does between the callbacks is
    free: the theorems hold for any chunks, header lines of at least their
    line end, buffer sizes and results.  Handles are not cloned by plugins
    ([HandleTable]).  The error that libuv reports on a descriptor is remembered
    for the number of the descriptor ([e_failed]), also when it is used again.
    [curl_multi_add_handle] succeeds.  The number text that [to_locale] changes
    in place is a copy in Strconv, a difference only the text of a later error
    could show; a replaced value of a hash table is released by its caller.

    ** Not modelled

    Failures of C++'s [new], the callbacks of closed handles, the fate of
    requests that are still queued when the extension is unloaded.  The
    libraries under src/curl and src/libuv (but for the functions named
    above), src/nghttp2, src/mbedtls and src/zlib are third-party code that
    the extension only calls.

    ** Next

    The decoder's text positions beyond 2 GiB, [json_pack] under allocation
    failures, formats that take values ([o], [O]) or optional arguments. *)

From stdpp Require Export base tactics option list list_numbers numbers gmap.
From Stdlib Require Export ZArith Lia Bool.
From Stdlib Require Export Ascii.
From Stdlib Require Export String.

#[export] Set Default Proof Using "Type".
#[export] Set Warnings "-notation-overridden,-clear-no-such-hyp,-level-tolerance".
(** [length] and [++] are those of lists *)
Abbreviation length := List.length.
Abbreviation app := List.app.
Open Scope list_scope.
Open Scope Z_scope.

(* ------------------------------------------------------------------ *)
(** ** Outcomes of C code and the state/error monad *)

(** How a C computation can go wrong: undefined behaviour (an out-of-bounds
    or dangling access), a failed [assert], or, for a fuelled loop of the
    model, not enough fuel.  The theorems show that none of them happens. *)
Inductive err : Type :=
| UndefinedBehaviour
| AssertFailure
| OutOfFuel.

#[export] Instance err_eq_dec : EqDecision err.
Proof. solve_decision. Defined.

Definition res (A : Type) : Type := (err + A)%type.

(** [ST S A] is C code that reads and writes a state [S] and returns an [A]. *)
Definition ST (S A : Type) : Type := S -> (err + (A * S))%type.

Section monad.
Context {S : Type}.

Definition ret {A} (a : A) : ST S A := fun s => inr (a, s).
Definition fail {A} (e : err) : ST S A := fun _ => inl e.
Definition bind {A B} (m : ST S A) (k : A -> ST S B) : ST S B :=
  fun s => match m s with
           | inl e => inl e
           | inr (a, s') => k a s'
           end.
Definition get_state : ST S S := fun s => inr (s, s).
Definition put_state (s : S) : ST S unit := fun _ => inr (tt, s).
Definition gets {A} (f : S -> A) : ST S A := fun s => inr (f s, s).
Definition modify (f : S -> S) : ST S unit := fun s => inr (tt, f s).

(** Access through a pointer that must be valid. *)
Definition require {A} (o : option A) : ST S A :=
  match o with Some a => ret a | None => fail UndefinedBehaviour end.
Definition lift_res {A} (r : res A) : ST S A :=
  fun s => match r with inl e => inl e | inr a => inr (a, s) end.
(** [assert(b)] *)
Definition assert_ (b : bool) : ST S unit :=
  if b then ret tt else fail AssertFailure.

(** A loop over a list of items, for its effects. *)
Fixpoint iterM {A} (f : A -> ST S unit) (l : list A) : ST S unit :=
  match l with
  | [] => ret tt
  | x :: l' => bind (f x) (fun _ => iterM f l')
  end.
End monad.

(** Run code on a component [T] of the state [S]. *)
Definition zoom {S T A} (get : S -> T) (put : T -> S -> S) (m : ST T A) : ST S A :=
  fun s => match m (get s) with
           | inl e => inl e
           | inr (a, t) => inr (a, put t s)
           end.

Declare Scope c_scope.
Delimit Scope c_scope with C.
Notation "'let*' x ':=' c 'in' k" := (bind c (fun x => k))
  (at level 10, x pattern, c at level 100, k at level 200) : c_scope.
Notation "c ';;;' k" := (bind c (fun _ => k))
  (at level 100, k at level 200, right associativity) : c_scope.
Open Scope c_scope.

(** The weakest precondition of total correctness: the code returns. *)
Definition wp {S A} (m : ST S A) (s : S) (Q : A -> S -> Prop) : Prop :=
  match m s with
  | inl _ => False
  | inr (a, s') => Q a s'
  end.

Section wp.
Context {S : Type}.
Implicit Types s : S.

Lemma wp_ret {A} (a : A) s (Q : A -> S -> Prop) : wp (ret a) s Q <-> Q a s.
Proof. reflexivity. Qed.

Lemma wp_bind {A B} (m : ST S A) (k : A -> ST S B) s Q :
  wp (bind m k) s Q <-> wp m s (fun a s' => wp (k a) s' Q).
Proof. unfold wp, bind. destruct (m s) as [|[]]; reflexivity. Qed.

Lemma wp_mono {A} (m : ST S A) s (Q Q' : A -> S -> Prop) :
  wp m s Q -> (forall a s', Q a s' -> Q' a s') -> wp m s Q'.
Proof. unfold wp. destruct (m s) as [|[]]; auto. Qed.

Lemma wp_eq {A} (m : ST S A) s a s' (Q : A -> S -> Prop) :
  m s = inr (a, s') -> Q a s' -> wp m s Q.
Proof. unfold wp. intros ->. auto. Qed.

Lemma wp_inv {A} (m : ST S A) s (Q : A -> S -> Prop) :
  wp m s Q -> exists a s', m s = inr (a, s') /\ Q a s'.
Proof. unfold wp. destruct (m s) as [|[a s']]; [done|eauto]. Qed.

Lemma wp_conj {A} (m : ST S A) s (Q Q' : A -> S -> Prop) :
  wp m s Q -> wp m s Q' -> wp m s (fun a s' => Q a s' /\ Q' a s').
Proof. unfold wp. destruct (m s) as [|[]]; auto. Qed.

Lemma wp_require {A} (o : option A) s (Q : A -> S -> Prop) a :
  o = Some a -> Q a s -> wp (require o) s Q.
Proof. intros ->. auto. Qed.

Lemma wp_gets {A} (f : S -> A) s (Q : A -> S -> Prop) : wp (gets f) s Q <-> Q (f s) s.
Proof. reflexivity. Qed.

Lemma wp_modify (f : S -> S) s (Q : unit -> S -> Prop) : wp (modify f) s Q <-> Q tt (f s).
Proof. reflexivity. Qed.

Lemma wp_assert b s (Q : unit -> S -> Prop) : b = true -> Q tt s -> wp (assert_ b) s Q.
Proof. intros ->. auto. Qed.
End wp.

Lemma wp_zoom {S T A} get put (m : ST T A) (s : S) (Q : A -> S -> Prop) :
  wp (zoom get put m) s Q <-> wp m (get s) (fun a t => Q a (put t s)).
Proof. unfold wp, zoom. destruct (m (get s)) as [|[]]; reflexivity. Qed.

Lemma wp_lift_res {S A} (r : res A) a (s : S) (Q : A -> S -> Prop) :
  r = inr a -> Q a s -> wp (lift_res r) s Q.
Proof. intros -> HQ. done. Qed.

Lemma bind_inr {S A B} (m : ST S A) (k : A -> ST S B) s a s' :
  m s = inr (a, s') -> bind m k s = k a s'.
Proof. unfold bind. by intros ->. Qed.

Lemma bind_ret {S A B} (a : A) (k : A -> ST S B) s : bind (ret a) k s = k a s.
Proof. reflexivity. Qed.

(** Step through the code of a goal [wp m s Q]. *)
Ltac wp_step :=
  lazymatch goal with
  | |- wp (bind _ _) _ _ => rewrite wp_bind
  | |- wp (ret _) _ _ => rewrite wp_ret
  | |- wp (gets _) _ _ => rewrite wp_gets
  | |- wp (modify _) _ _ => rewrite wp_modify
  | |- wp (zoom _ _ _) _ _ => rewrite wp_zoom
  end.
Ltac wp_steps := repeat (wp_step; cbv beta).

(* ------------------------------------------------------------------ *)
(** ** Machine integers (x86-64, LP64) *)

Definition SIZE_MAX : Z := 2 ^ 64 - 1.
(** conversion to [size_t], [uint32_t], [unsigned char] *)
Definition size_t (z : Z) : Z := z mod 2 ^ 64.
Definition uint32 (z : Z) : Z := z mod 2 ^ 32.
Definition uchar (z : Z) : Z := z mod 2 ^ 8.
(** conversion to the signed types [int] / [int32_t], [long long] and [char] *)
Definition int32 (z : Z) : Z := (z + 2 ^ 31) mod 2 ^ 32 - 2 ^ 31.
Definition int64 (z : Z) : Z := (z + 2 ^ 63) mod 2 ^ 64 - 2 ^ 63.
Definition schar (z : Z) : Z := (z + 2 ^ 7) mod 2 ^ 8 - 2 ^ 7.

Definition INT64_MIN : Z := - 2 ^ 63.
Definition INT64_MAX : Z := 2 ^ 63 - 1.

Lemma size_t_small z : 0 <= z <= SIZE_MAX -> size_t z = z.
Proof. unfold size_t, SIZE_MAX. intros. apply Z.mod_small. lia. Qed.

Lemma size_t_range z : 0 <= size_t z <= SIZE_MAX.
Proof.
  unfold size_t, SIZE_MAX. pose proof (Z.mod_pos_bound z (2 ^ 64) ltac:(lia)). lia.
Qed.

Lemma uchar_small z : 0 <= z < 256 -> uchar z = z.
Proof. unfold uchar. intros. apply Z.mod_small. lia. Qed.

Lemma uchar_schar z : 0 <= z < 256 -> uchar (schar z) = z.
Proof.
  intros. unfold uchar, schar. change (2 ^ 7) with 128. change (2 ^ 8) with 256.
  destruct (Z_lt_le_dec z 128).
  - rewrite (Z.mod_small (z + 128)) by lia. rewrite Z.mod_small; lia.
  - replace (z + 128) with ((z - 128) + 1 * 256) by lia.
    rewrite Z.mod_add by lia. rewrite (Z.mod_small (z - 128)) by lia.
    replace (z - 128 - 128) with (z + (-1) * 256) by lia.
    rewrite Z.mod_add by lia. rewrite Z.mod_small; lia.
Qed.

Lemma schar_ascii z : 0 <= z < 128 -> schar z = z.
Proof.
  intros. unfold schar. change (2 ^ 7) with 128. change (2 ^ 8) with 256.
  rewrite Z.mod_small by lia. lia.
Qed.

Lemma schar_high z : 128 <= z < 256 -> schar z = z - 256.
Proof.
  intros. unfold schar. change (2 ^ 7) with 128. change (2 ^ 8) with 256.
  replace (z + 128) with ((z - 128) + 1 * 256) by lia.
  rewrite Z.mod_add by lia. rewrite Z.mod_small by lia. lia.
Qed.

Lemma schar_inj a b : 0 <= a < 256 -> 0 <= b < 256 -> schar a = schar b -> a = b.
Proof. intros Ha Hb E. rewrite <- (uchar_schar a), <- (uchar_schar b) by done. by rewrite E. Qed.

Lemma int64_small z : INT64_MIN <= z <= INT64_MAX -> int64 z = z.
Proof. unfold int64, INT64_MIN, INT64_MAX. intros. rewrite Z.mod_small by lia. lia. Qed.

Lemma int32_small z : - 2 ^ 31 <= z < 2 ^ 31 -> int32 z = z.
Proof. unfold int32. intros. rewrite Z.mod_small by lia. lia. Qed.

(* ------------------------------------------------------------------ *)
(** ** Byte strings *)

Abbreviation bytes := (list Z).

(** The bytes of a literal. *)
Fixpoint lit (s : string) : bytes :=
  match s with
  | EmptyString => []
  | String c s' => Z.of_N (N_of_ascii c) :: lit s'
  end.

#[global] Arguments lit _%_string_scope.

(** The code of a character literal. *)
Definition chr (c : ascii) : Z := Z.of_N (N_of_ascii c).
#[global] Arguments chr _%_char_scope.

Definition is_byte (b : Z) : Prop := 0 <= b < 256.
(** A C string: bytes without the terminating NUL. *)
Definition is_cstr (s : bytes) : Prop := Forall (fun b => 0 < b < 256) s.

Lemma is_cstr_bytes s : is_cstr s -> Forall is_byte s.
Proof. intros H. eapply Forall_impl; [exact H|]. unfold is_byte. simpl. lia. Qed.

Definition bytes_eqb (a b : bytes) : bool := bool_decide (a = b).

(** [strcmp(a, b)], its sign. *)
Fixpoint strcmp (a b : bytes) : Z :=
  match a, b with
  | [], [] => 0
  | [], _ :: _ => -1
  | _ :: _, [] => 1
  | x :: a', y :: b' => if x =? y then strcmp a' b' else if x <? y then -1 else 1
  end.

Lemma strcmp_eq a b : strcmp a b = 0 <-> a = b.
Proof.
  revert b. induction a as [|x a IH]; intros b; destruct b as [|y b]; simpl; try done.
  destruct (Z.eqb_spec x y) as [->|Hne].
  - rewrite IH. split; congruence.
  - destruct (x <? y); split; congruence.
Qed.

(** [memchr(s, '\0', len)] finds a NUL. *)
Definition has_nul (s : bytes) : bool := existsb (fun b => b =? 0) s.

(** The C string that starts a NUL-terminated byte buffer. *)
Fixpoint until_nul (s : bytes) : bytes :=
  match s with
  | [] => []
  | b :: s' => if b =? 0 then [] else b :: until_nul s'
  end.

Lemma until_nul_cstr s : is_cstr s -> until_nul s = s.
Proof.
  induction 1 as [|b s Hb Hs IH]; simpl; [done|].
  destruct (Z.eqb_spec b 0); [lia|]. by rewrite IH.
Qed.

Lemma until_nul_is_cstr s : Forall is_byte s -> is_cstr (until_nul s).
Proof.
  induction 1 as [|b s Hb Hs IH]; simpl; [constructor|].
  destruct (Z.eqb_spec b 0); [constructor|]. constructor; [|done]. unfold is_byte in Hb. lia.
Qed.

(* ------------------------------------------------------------------ *)
(** ** Blocks of memory

    A block is the list of its cells; [None] is an indeterminate cell, and a
    store or load outside the block or of an indeterminate cell fails. *)

Abbreviation memblock A := (list (option A)).

Section memblock.
Context {A : Type}.
Implicit Types blk : memblock A.

Definition mem_alloc (n : nat) : memblock A := replicate n None.

Definition mem_store blk (off : nat) (xs : list A) : option (memblock A) :=
  if decide (off + length xs <= length blk)%nat
  then Some (take off blk ++ (Some <$> xs) ++ drop (off + length xs) blk)
  else None.

Definition mem_load blk (off n : nat) : option (list A) :=
  if decide (off + n <= length blk)%nat
  then mapM id (take n (drop off blk))
  else None.

Lemma length_mem_alloc n : length (mem_alloc n) = n.
Proof. apply length_replicate. Qed.

Lemma mem_store_inv blk off xs blk' :
  mem_store blk off xs = Some blk' ->
  (off + length xs <= length blk)%nat /\
  blk' = take off blk ++ (Some <$> xs) ++ drop (off + length xs) blk.
Proof. unfold mem_store. case_decide; naive_solver. Qed.

Lemma length_mem_store blk off xs blk' :
  mem_store blk off xs = Some blk' -> length blk' = length blk.
Proof.
  intros (Hle & ->)%mem_store_inv.
  rewrite !length_app, length_take, length_fmap, length_drop. lia.
Qed.

Lemma mem_store_ok blk off xs :
  (off + length xs <= length blk)%nat ->
  mem_store blk off xs = Some (take off blk ++ (Some <$> xs) ++ drop (off + length xs) blk).
Proof. intros. unfold mem_store. by rewrite decide_True. Qed.

(** Everything up to [off] is kept and [xs] follows. *)
Lemma mem_store_prefix blk off xs blk' :
  mem_store blk off xs = Some blk' ->
  take (off + length xs) blk' = take off blk ++ (Some <$> xs).
Proof.
  intros (Hle & ->)%mem_store_inv. rewrite app_assoc.
  rewrite take_app_length'; [done|].
  rewrite length_app, length_take, length_fmap. lia.
Qed.

Lemma mapM_id_Some (xs : list A) : mapM id (Some <$> xs) = Some xs.
Proof. apply mapM_Some. induction xs; constructor; auto. Qed.

Lemma mem_load_prefix blk (xs : list A) n :
  (length xs <= n)%nat -> take n blk = (Some <$> xs) ++ drop (length xs) (take n blk) ->
  mem_load blk 0 (length xs) = Some xs.
Proof.
  intros Hn E. unfold mem_load.
  assert (length (take n blk) >= length xs)%nat as Hlen.
  { rewrite E, length_app, length_fmap. lia. }
  rewrite length_take in Hlen.
  rewrite decide_True by lia. rewrite drop_0.
  replace (take (length xs) blk) with (take (length xs) (take n blk)).
  2:{ rewrite take_take. f_equal. lia. }
  rewrite E, take_app_length' by (by rewrite length_fmap). apply mapM_id_Some.
Qed.
End memblock.

(* ------------------------------------------------------------------ *)
(** ** Digits: the integer conversions of [snprintf] and [strtoll] *)

(** Digits of [n >= 0], most significant first, as [%d] / [%x] write them. *)
Fixpoint digits_aux (base : Z) (fuel : nat) (n : Z) (acc : list Z) : list Z :=
  let acc' := (n mod base) :: acc in
  match fuel with
  | O => acc'
  | S fuel' => if n <? base then acc' else digits_aux base fuel' (n / base) acc'
  end.
Definition digits (base n : Z) : list Z := digits_aux base (Z.to_nat (Z.log2 n)) n [].

(** The value of a list of digits, as [strtoll] accumulates it. *)
Definition of_digits (base : Z) (ds : list Z) : Z := fold_left (fun a d => a * base + d) ds 0.

Lemma of_digits_snoc base ds d : of_digits base (ds ++ [d]) = of_digits base ds * base + d.
Proof. unfold of_digits. by rewrite fold_left_app. Qed.

Lemma fold_digits_acc base ds a :
  fold_left (fun a d => a * base + d) ds a =
  a * base ^ Z.of_nat (length ds) + of_digits base ds.
Proof.
  unfold of_digits. revert a. induction ds as [|d ds IH]; intros a; simpl fold_left.
  - simpl. lia.
  - rewrite IH, (IH (0 * base + d)). change (length (d :: ds)) with (S (length ds)).
    rewrite Nat2Z.inj_succ, Z.pow_succ_r by lia. ring.
Qed.

Lemma of_digits_cons base d ds :
  of_digits base (d :: ds) = d * base ^ Z.of_nat (length ds) + of_digits base ds.
Proof. unfold of_digits at 1. simpl fold_left. by rewrite fold_digits_acc. Qed.

Lemma of_digits_lt base ds :
  2 <= base -> Forall (fun d => 0 <= d < base) ds -> of_digits base ds < base ^ Z.of_nat (length ds).
Proof.
  intros Hb Hds. induction Hds as [|d ds Hd _ IH]; [reflexivity|]. rewrite of_digits_cons. cbn [length].
  rewrite Nat2Z.inj_succ, Z.pow_succ_r by lia. nia.
Qed.

Lemma of_digits_app base ds es :
  of_digits base (ds ++ es) = of_digits base ds * base ^ Z.of_nat (length es) + of_digits base es.
Proof. unfold of_digits at 1. by rewrite fold_left_app, fold_digits_acc. Qed.

Lemma digits_aux_spec base fuel n acc :
  2 <= base -> 0 <= n -> n < 2 ^ (Z.of_nat fuel + 1) ->
  Forall (fun d => 0 <= d < base) acc ->
  let ds := digits_aux base fuel n acc in
  Forall (fun d => 0 <= d < base) ds /\
  of_digits base ds = n * base ^ Z.of_nat (length acc) + of_digits base acc /\
  (exists d ds', ds = d :: ds' /\ (n = 0 \/ 0 < d)).
Proof.
  intros Hb. revert n acc. induction fuel as [|fuel IH]; intros n acc Hn Hlt Hacc; simpl.
  - change (2 ^ (Z.of_nat 0 + 1)) with 2 in Hlt. rewrite Z.mod_small by lia.
    split; [constructor; [lia|done]|]. split; [apply of_digits_cons|]. eexists _, _. split; [done|lia].
  - destruct (Z.ltb_spec n base).
    + rewrite Z.mod_small by lia. split; [constructor; [lia|done]|].
      split; [apply of_digits_cons|]. eexists _, _. split; [done|lia].
    + assert (Hq : 0 < n / base) by (apply Z.div_str_pos; lia).
      destruct (IH (n / base) (n mod base :: acc)) as (H1 & H2 & d & ds' & H3 & H4).
      * lia.
      * replace (Z.of_nat (S fuel) + 1) with (Z.succ (Z.of_nat fuel + 1)) in Hlt by lia.
        rewrite Z.pow_succ_r in Hlt by lia.
        apply Z.div_lt_upper_bound; [lia|]. nia.
      * constructor; [apply Z.mod_pos_bound; lia|done].
      * split; [done|]. split; [|exists d, ds'; split; [done|lia]].
        rewrite H2, of_digits_cons. change (length (n mod base :: acc)) with (S (length acc)).
        rewrite Nat2Z.inj_succ, Z.pow_succ_r by lia.
        rewrite (Z.div_mod n base) at 3 by lia. ring.
Qed.

Lemma digits_spec base n :
  2 <= base -> 0 <= n ->
  Forall (fun d => 0 <= d < base) (digits base n) /\
  of_digits base (digits base n) = n /\
  (exists d ds, digits base n = d :: ds /\ (n = 0 \/ 0 < d)).
Proof.
  intros Hb Hn. unfold digits.
  destruct (digits_aux_spec base (Z.to_nat (Z.log2 n)) n []) as (H1 & H2 & H3); try done.
  - rewrite Z2Nat.id by apply Z.log2_nonneg.
    destruct (Z.eq_dec n 0) as [->|]; [done|].
    pose proof (Z.log2_spec n ltac:(lia)).
    replace (Z.log2 n + 1) with (Z.succ (Z.log2 n)) by lia. lia.
  - split; [done|]. split; [|done]. rewrite H2. unfold of_digits. simpl. lia.
Qed.

Lemma digits_inj base a b :
  2 <= base -> 0 <= a -> 0 <= b -> digits base a = digits base b -> a = b.
Proof.
  intros Hb Ha Hb' E.
  destruct (digits_spec base a Hb Ha) as (_ & <- & _).
  destruct (digits_spec base b Hb Hb') as (_ & <- & _). by rewrite E.
Qed.

Lemma digits_zero base : 2 <= base -> digits base 0 = [0].
Proof. intros. unfold digits. simpl. by rewrite Z.mod_0_l by lia. Qed.

(** The digits of a number below [base ^ n] are at most [n]. *)
Lemma length_digits base n k :
  2 <= base -> 0 <= n < base ^ Z.of_nat k -> (0 < k)%nat -> (length (digits base n) <= k)%nat.
Proof.
  intros Hb [Hn Hlt] Hk. destruct (digits_spec base n Hb Hn) as (Hd & Hv & d & ds & E & Hpos).
  destruct Hpos as [->|Hpos]; [rewrite digits_zero by done; simpl; lia|].
  destruct (decide (length (digits base n) <= k)%nat) as [|Hgt]; [done|]. exfalso.
  assert (base ^ Z.of_nat k <= n); [|lia].
  rewrite <- Hv, E, of_digits_cons. rewrite E in Hgt, Hd. simpl in Hgt.
  assert (0 <= of_digits base ds).
  { clear - Hd Hb. apply Forall_inv_tail in Hd. induction Hd as [|x ds Hx _ IH]; [done|].
    rewrite of_digits_cons. pose proof (Z.pow_nonneg base (Z.of_nat (length ds)) ltac:(lia)). nia. }
  assert (base ^ Z.of_nat k <= base ^ Z.of_nat (length ds)) by (apply Z.pow_le_mono_r; lia).
  pose proof (Z.pow_nonneg base (Z.of_nat (length ds)) ltac:(lia)). nia.
Qed.

(** A number is its last digit behind the digits of the rest. *)
Lemma digits_aux_fuel base f f' n acc :
  2 <= base -> 0 <= n < 2 ^ (Z.of_nat f + 1) -> n < 2 ^ (Z.of_nat f' + 1) ->
  digits_aux base f n acc = digits_aux base f' n acc.
Proof.
  intros Hb. revert f' n acc. induction f as [|f IH]; intros f' n acc Hn Hn'.
  - change (2 ^ (Z.of_nat 0 + 1)) with 2 in Hn. destruct f' as [|f']; cbn [digits_aux]; [done|].
    by rewrite (proj2 (Z.ltb_lt _ _)) by lia.
  - destruct f' as [|f']; cbn [digits_aux].
    + change (2 ^ (Z.of_nat 0 + 1)) with 2 in Hn'. by rewrite (proj2 (Z.ltb_lt _ _)) by lia.
    + destruct (Z.ltb_spec n base) as [|Hge]; [done|].
      assert (Hd : forall g, n < 2 ^ (Z.of_nat (S g) + 1) -> n / base < 2 ^ (Z.of_nat g + 1)).
      { intros g Hg. apply Z.div_lt_upper_bound; [lia|].
        replace (Z.of_nat (S g) + 1) with (Z.succ (Z.of_nat g + 1)) in Hg by lia.
        rewrite Z.pow_succ_r in Hg by lia. nia. }
      apply IH; [split; [apply Z.div_pos; lia|]|]; apply Hd; lia.
Qed.

Lemma digits_aux_acc base f n acc : digits_aux base f n acc = digits_aux base f n [] ++ acc.
Proof.
  revert n acc. induction f as [|f IH]; intros n acc; cbn [digits_aux]; [done|].
  case_match; [done|]. rewrite IH, (IH _ [_]). by rewrite <- app_assoc.
Qed.

Lemma digits_small base n : 0 <= n < base -> digits base n = [n].
Proof.
  intros Hn. unfold digits. rewrite <- (Z.mod_small n base Hn) at 3.
  destruct (Z.to_nat (Z.log2 n)); cbn [digits_aux]; [done|]. by rewrite (proj2 (Z.ltb_lt _ _)) by lia.
Qed.
Lemma digits_step base n : 2 <= base <= n -> digits base n = digits base (n / base) ++ [n mod base].
Proof.
  intros Hb. unfold digits. pose proof (Z.log2_spec n ltac:(lia)) as Hl.
  assert (Hpos : 0 < Z.log2 n) by (apply Z.log2_pos; lia).
  destruct (Z.to_nat (Z.log2 n)) as [|f] eqn:Ef; [lia|]. cbn [digits_aux].
  rewrite (proj2 (Z.ltb_ge _ _)) by lia. rewrite digits_aux_acc. f_equal.
  assert (Hq : 0 < n / base) by (apply Z.div_str_pos; lia).
  pose proof (Z.log2_spec (n / base) Hq) as Hl'. apply digits_aux_fuel; [lia| |].
  - split; [lia|]. apply Z.div_lt_upper_bound; [lia|].
    replace (Z.of_nat f + 1) with (Z.log2 n) by lia. rewrite Z.pow_succ_r in Hl by lia. nia.
  - rewrite Z2Nat.id by apply Z.log2_nonneg. replace (Z.log2 (n / base) + 1) with (Z.succ (Z.log2 (n / base))) by lia. lia.
Qed.

(* ------------------------------------------------------------------ *)
(** ** Shared automation *)

Create HintDb ripext.
#[export] Hint Resolve is_cstr_bytes : ripext.
Create Rewrite HintDb ripext.
#[export] Hint Rewrite @length_app @length_take @length_drop @length_fmap : ripext.

(** Turn boolean comparisons of [Z] in the context or the goal into facts. *)
Ltac zbool :=
  repeat match goal with
  | H : (_ =? _) = true |- _ => apply Z.eqb_eq in H
  | H : (_ =? _) = false |- _ => apply Z.eqb_neq in H
  | H : (_ <? _) = true |- _ => apply Z.ltb_lt in H
  | H : (_ <? _) = false |- _ => apply Z.ltb_ge in H
  | H : (_ <=? _) = true |- _ => apply Z.leb_le in H
  | H : (_ <=? _) = false |- _ => apply Z.leb_gt in H
  | H : _ && _ = true |- _ => apply andb_true_iff in H; destruct H
  | H : _ || _ = false |- _ => apply orb_false_iff in H; destruct H
  | H : negb _ = true |- _ => apply negb_true_iff in H
  | H : negb _ = false |- _ => apply negb_false_iff in H
  end.

(** Case analysis on the scrutinee of the first [if] of the goal. *)
Ltac case_if :=
  match goal with
  | |- context [if ?b then _ else _] => destruct b eqn:?; zbool
  end.
