(* ===== verification/Utf8.v ===== *)
(** * UTF-8 (jansson/src/utf.c)

    The encoder, the incremental decoder and the string validator, and their
    relation to RFC 3629: [enc] is the encoding of a Unicode scalar value by
    division and remainder, and a byte string is UTF-8 when it is the
    concatenation of such encodings. *)

From S2P Require Import Prelude.

(* ------------------------------------------------------------------ *)
(** ** The code *)

(** [utf8_encode]: the bytes written to [buffer], or [None] for [-1]. *)
Definition utf8_encode (codepoint : Z) : option bytes :=
  if codepoint <? 0 then None
  else if codepoint <? 0x80 then Some [uchar codepoint]
  else if codepoint <? 0x800 then
    Some [uchar (0xC0 + Z.shiftr (Z.land codepoint 0x7C0) 6);
          uchar (0x80 + Z.land codepoint 0x03F)]
  else if codepoint <? 0x10000 then
    Some [uchar (0xE0 + Z.shiftr (Z.land codepoint 0xF000) 12);
          uchar (0x80 + Z.shiftr (Z.land codepoint 0x0FC0) 6);
          uchar (0x80 + Z.land codepoint 0x003F)]
  else if codepoint <=? 0x10FFFF then
    Some [uchar (0xF0 + Z.shiftr (Z.land codepoint 0x1C0000) 18);
          uchar (0x80 + Z.shiftr (Z.land codepoint 0x03F000) 12);
          uchar (0x80 + Z.shiftr (Z.land codepoint 0x000FC0) 6);
          uchar (0x80 + Z.land codepoint 0x00003F)]
  else None.

(** [utf8_check_first]: the length of the sequence a byte starts, 0 if none. *)
Definition utf8_check_first (byte : Z) : Z :=
  let u := uchar byte in
  if u <? 0x80 then 1
  else if (0x80 <=? u) && (u <=? 0xBF) then 0
  else if (u =? 0xC0) || (u =? 0xC1) then 0
  else if (0xC2 <=? u) && (u <=? 0xDF) then 2
  else if (0xE0 <=? u) && (u <=? 0xEF) then 3
  else if (0xF0 <=? u) && (u <=? 0xF4) then 4
  else 0.

(** The loop of [utf8_check_full] over the continuation bytes. *)
Fixpoint utf8_cont (value : Z) (us : bytes) : option Z :=
  match us with
  | [] => Some value
  | u :: us' =>
      if (u <? 0x80) || (0xBF <? u) then None
      else utf8_cont (Z.shiftl value 6 + Z.land u 0x3F) us'
  end.

(** The tests of [utf8_check_full] on the decoded value: Unicode range,
    surrogates, overlong encodings. *)
Definition utf8_check_value (size value : Z) : option Z :=
  if 0x10FFFF <? value then None
  else if (0xD800 <=? value) && (value <=? 0xDFFF) then None
  else if ((size =? 2) && (value <? 0x80)) || ((size =? 3) && (value <? 0x800))
          || ((size =? 4) && (value <? 0x10000)) then None
  else Some value.

(** [utf8_check_full]: the code point of the [size]-byte sequence at [buffer],
    or [None] for the result 0.  A byte past the end reads as the NUL that
    terminates the string. *)
Definition utf8_check_full (buffer : bytes) (size : Z) : option Z :=
  let u := nth 0 buffer 0 in
  let start := if size =? 2 then Some (Z.land u 0x1F)
               else if size =? 3 then Some (Z.land u 0xF)
               else if size =? 4 then Some (Z.land u 0x7)
               else None in
  match start with
  | None => None
  | Some v =>
      match utf8_cont v (map (fun i => nth i buffer 0) (seq 1 (Z.to_nat size - 1))) with
      | None => None
      | Some value => utf8_check_value size value
      end
  end.

(** [utf8_iterate]: the rest of the buffer and the code point stored, [None]
    for a NULL result; at the end of the buffer no code point is stored. *)
Definition utf8_iterate (buffer : bytes) : option (bytes * option Z) :=
  match buffer with
  | [] => Some ([], None)
  | b :: rest =>
      let count := utf8_check_first b in
      if count <=? 0 then None
      else if count =? 1 then Some (rest, Some (uchar b))
      else if Z.of_nat (length buffer) <? count then None
      else match utf8_check_full buffer count with
           | None => None
           | Some value => Some (drop (Z.to_nat count) buffer, Some value)
           end
  end.

(** [utf8_check_string]: the loop, over the bytes that are left. *)
Fixpoint utf8_check_loop (fuel : nat) (s : bytes) : bool :=
  match fuel, s with
  | _, [] => true
  | O, _ :: _ => false
  | S fuel', b :: rest =>
      let count := utf8_check_first b in
      if count =? 0 then false
      else if 1 <? count then
        if Z.of_nat (length s) <? count then false
        else match utf8_check_full s count with
             | None => false
             | Some _ => utf8_check_loop fuel' (drop (Z.to_nat count) s)
             end
      else utf8_check_loop fuel' rest
  end.
Definition utf8_check_string (s : bytes) : bool := utf8_check_loop (length s) s.

(* ------------------------------------------------------------------ *)
(** ** The specification: RFC 3629 *)

Definition is_scalar (cp : Z) : Prop :=
  0 <= cp < 0xD800 \/ 0xDFFF < cp <= 0x10FFFF.

Definition enc (cp : Z) : bytes :=
  if cp <? 0x80 then [cp]
  else if cp <? 0x800 then [0xC0 + cp / 64; 0x80 + cp mod 64]
  else if cp <? 0x10000 then
    [0xE0 + cp / 4096; 0x80 + (cp / 64) mod 64; 0x80 + cp mod 64]
  else [0xF0 + cp / 262144; 0x80 + (cp / 4096) mod 64; 0x80 + (cp / 64) mod 64;
        0x80 + cp mod 64].

(** The UTF-8 text of a list of code points. *)
Definition encode (cps : list Z) : bytes := mjoin (enc <$> cps).

Definition utf8 (s : bytes) : Prop := exists cps, Forall is_scalar cps /\ s = encode cps.

(* ------------------------------------------------------------------ *)
(** ** Bit fields *)

Lemma field_div a n k :
  0 <= n -> 0 <= k ->
  Z.shiftr (Z.land a (Z.shiftl (Z.ones n) k)) k = (a / 2 ^ k) mod 2 ^ n.
Proof.
  intros. rewrite Z.shiftr_land, Z.shiftr_shiftl_l, Z.sub_diag by lia.
  by rewrite Z.shiftl_0_r, Z.land_ones, Z.shiftr_div_pow2 by lia.
Qed.

Ltac bits_to_div :=
  repeat first
    [ rewrite (field_div _ 5 6 : forall H H', Z.shiftr (Z.land _ 0x7C0) 6 = _) by lia
    | rewrite (field_div _ 4 12 : forall H H', Z.shiftr (Z.land _ 0xF000) 12 = _) by lia
    | rewrite (field_div _ 6 6 : forall H H', Z.shiftr (Z.land _ 0x0FC0) 6 = _) by lia
    | rewrite (field_div _ 3 18 : forall H H', Z.shiftr (Z.land _ 0x1C0000) 18 = _) by lia
    | rewrite (field_div _ 6 12 : forall H H', Z.shiftr (Z.land _ 0x3F000) 12 = _) by lia
    | rewrite (Z.land_ones _ 6 : forall H, Z.land _ 0x3F = _) by lia
    | rewrite (Z.land_ones _ 5 : forall H, Z.land _ 0x1F = _) by lia
    | rewrite (Z.land_ones _ 4 : forall H, Z.land _ 0xF = _) by lia
    | rewrite (Z.land_ones _ 3 : forall H, Z.land _ 0x7 = _) by lia
    | rewrite Z.shiftl_mul_pow2 by lia ].

(** Linear arithmetic with the quotients and remainders by constants. *)
Ltac zdiv := Z.to_euclidean_division_equations; lia.

(** The encoder computes [enc]. *)
Lemma utf8_encode_enc cp : 0 <= cp <= 0x10FFFF -> utf8_encode cp = Some (enc cp).
Proof.
  intros Hcp. unfold utf8_encode, enc, uchar.
  repeat (case_if; try lia); bits_to_div; repeat f_equal; try zdiv.
Qed.

Lemma length_enc_pos cp : (1 <= length (enc cp) <= 4)%nat.
Proof. unfold enc. repeat case_if; simpl; lia. Qed.

Lemma enc_bytes cp : is_scalar cp -> Forall is_byte (enc cp).
Proof.
  unfold is_scalar, is_byte. intros. unfold enc.
  repeat case_if; repeat constructor; zdiv.
Qed.

(** ** Decoding an encoding *)

Lemma enc_first cp :
  is_scalar cp -> utf8_check_first (nth 0 (enc cp) 0) = Z.of_nat (length (enc cp)).
Proof.
  unfold is_scalar. intros Hcp.
  unfold enc; repeat case_if; simpl nth; simpl length; unfold utf8_check_first;
    rewrite uchar_small by zdiv; repeat (case_if; try done); zdiv.
Qed.

(** [utf8_check_full] on the three sizes, with the bytes named. *)
Lemma check_full_2 a b s :
  utf8_check_full (a :: b :: s) 2 = utf8_cont (Z.land a 0x1F) [b] ≫= utf8_check_value 2.
Proof. reflexivity. Qed.
Lemma check_full_3 a b c s :
  utf8_check_full (a :: b :: c :: s) 3 = utf8_cont (Z.land a 0xF) [b; c] ≫= utf8_check_value 3.
Proof. reflexivity. Qed.
Lemma check_full_4 a b c d s :
  utf8_check_full (a :: b :: c :: d :: s) 4 =
  utf8_cont (Z.land a 0x7) [b; c; d] ≫= utf8_check_value 4.
Proof. reflexivity. Qed.

Lemma enc_check_full cp s :
  is_scalar cp -> (2 <= length (enc cp))%nat ->
  utf8_check_full (enc cp ++ s) (Z.of_nat (length (enc cp))) = Some cp.
Proof.
  unfold is_scalar. intros Hcp Hlen.
  unfold enc in *; repeat case_if; simpl length in *; try lia;
    [change (Z.of_nat 2) with 2 | change (Z.of_nat 3) with 3 | change (Z.of_nat 4) with 4];
    cbn [app]; rewrite ?check_full_2, ?check_full_3, ?check_full_4; cbn [utf8_cont];
    bits_to_div; repeat (case_if; try zdiv); cbn [mbind option_bind]; unfold utf8_check_value;
    repeat (case_if; try zdiv); f_equal; zdiv.
Qed.

Lemma enc_ascii cp : is_scalar cp -> length (enc cp) = 1%nat -> enc cp = [cp] /\ cp < 0x80.
Proof. unfold enc. intros _. repeat case_if; simpl; try lia; auto. Qed.

(** ** What the decoder accepts is an encoding *)

Lemma check_first_ascii b : is_byte b -> utf8_check_first b = 1 -> enc b = [b] /\ is_scalar b.
Proof.
  unfold is_byte, utf8_check_first, enc, is_scalar. intros Hb. rewrite uchar_small by lia.
  repeat (case_if; try lia); intros; split; auto; lia.
Qed.

Lemma check_first_range b : 0 <= utf8_check_first b <= 4.
Proof. unfold utf8_check_first. repeat case_if; lia. Qed.

Lemma check_first_lead b :
  is_byte b ->
  match utf8_check_first b with
  | 2 => 0xC2 <= b <= 0xDF | 3 => 0xE0 <= b <= 0xEF | 4 => 0xF0 <= b <= 0xF4 | _ => True
  end.
Proof.
  unfold is_byte, utf8_check_first. intros Hb. rewrite uchar_small by lia.
  repeat (case_if; try lia); exact I.
Qed.

Lemma check_full_sound s n v :
  Forall is_byte s -> (n <= length s)%nat -> utf8_check_first (nth 0 s 0) = Z.of_nat n ->
  utf8_check_full s (Z.of_nat n) = Some v ->
  is_scalar v /\ take n s = enc v.
Proof.
  intros Hs Hn Hf. pose proof (check_first_range (nth 0 s 0)).
  destruct n as [|[|[|[|[|n]]]]]; try done; try lia;
    repeat (destruct s as [|?b s]; simpl in Hn; [lia|]);
    repeat match goal with H : Forall is_byte (_ :: _) |- _ => apply Forall_cons in H as [? ?] end;
    simpl nth in Hf;
    match type of Hf with utf8_check_first ?b = _ => pose proof (check_first_lead b ltac:(done)) as Hl end;
    rewrite Hf in Hl; unfold is_byte in *;
    [change (Z.of_nat 2) with 2 in * | change (Z.of_nat 3) with 3 in *
    | change (Z.of_nat 4) with 4 in * ]; cbv iota beta in Hl;
    rewrite ?check_full_2, ?check_full_3, ?check_full_4; cbn [utf8_cont];
    bits_to_div; repeat (case_if; try discriminate); cbn [mbind option_bind];
    unfold utf8_check_value;
    repeat (case_if; try discriminate); intros [= <-]; unfold is_scalar;
    (split; [zdiv|]); simpl take; unfold enc; repeat (case_if; try zdiv); repeat f_equal; zdiv.
Qed.

(* ------------------------------------------------------------------ *)
(** ** The validator decides UTF-8 *)

Lemma encode_cons cp cps : encode (cp :: cps) = enc cp ++ encode cps.
Proof. reflexivity. Qed.

Lemma encode_bytes cps : Forall is_scalar cps -> Forall is_byte (encode cps).
Proof.
  induction 1; [constructor|]. rewrite encode_cons. apply Forall_app. auto using enc_bytes.
Qed.

Lemma utf8_bytes s : utf8 s -> Forall is_byte s.
Proof. intros (cps & H & ->). by apply encode_bytes. Qed.

Lemma utf8_nil : utf8 [].
Proof. by exists []. Qed.

Lemma utf8_enc_app cp s : is_scalar cp -> utf8 s -> utf8 (enc cp ++ s).
Proof. intros Hcp (cps & Hcps & ->). exists (cp :: cps). auto. Qed.

Lemma utf8_app s t : utf8 s -> utf8 t -> utf8 (s ++ t).
Proof.
  intros (cps & Hcps & ->) Ht. induction Hcps; simpl; [done|].
  rewrite encode_cons, <- (assoc_L app). auto using utf8_enc_app.
Qed.

Lemma utf8_ascii b : 0 <= b < 128 -> utf8 [b].
Proof.
  intros. exists [b]. split; [constructor; [left; lia|constructor]|].
  unfold encode, enc. simpl. by rewrite (proj2 (Z.ltb_lt b 0x80)) by lia.
Qed.

(** The first sequence of a non-empty text. *)
Lemma utf8_inv b s :
  utf8 (b :: s) ->
  exists cp s', is_scalar cp /\ b :: s = enc cp ++ s' /\ utf8 s' /\
    nth 0 (enc cp) 0 = b.
Proof.
  intros (cps & Hcps & E). destruct Hcps as [|cp cps Hcp Hcps]; [done|].
  rewrite encode_cons in E. exists cp, (encode cps). repeat split; try done; [by exists cps|].
  pose proof (length_enc_pos cp). destruct (enc cp); simpl in *; [lia|congruence].
Qed.

Lemma utf8_check_loop_encode fuel cps :
  Forall is_scalar cps -> (length (encode cps) <= fuel)%nat ->
  utf8_check_loop fuel (encode cps) = true.
Proof.
  intros Hcps. revert fuel. induction Hcps as [|cp cps Hcp Hcps IH]; intros fuel Hf.
  { by destruct fuel. }
  rewrite encode_cons in *. pose proof (length_enc_pos cp) as Hl.
  pose proof (enc_first cp Hcp) as Hfst.
  rewrite length_app in Hf. destruct fuel as [|fuel]; [lia|].
  destruct (decide (2 <= length (enc cp))%nat) as [H2|H2].
  - pose proof (enc_check_full cp (encode cps) Hcp H2) as Hfull.
    assert (Hd : drop (length (enc cp)) (enc cp ++ encode cps) = encode cps)
      by apply drop_app_length.
    assert (Hlen : length (enc cp ++ encode cps) = (length (enc cp) + length (encode cps))%nat)
      by apply length_app.
    destruct (enc cp) as [|b e] eqn:E; [simpl in *; lia|].
    change ((b :: e) ++ encode cps) with (b :: (e ++ encode cps)) in *. cbn [utf8_check_loop].
    simpl nth in Hfst. rewrite Hfst.
    rewrite (proj2 (Z.eqb_neq _ 0)) by lia. rewrite (proj2 (Z.ltb_lt 1 _)) by lia.
    rewrite (proj2 (Z.ltb_ge _ _)) by (rewrite Hlen; lia).
    rewrite Hfull, Nat2Z.id, Hd. apply IH. lia.
  - destruct (enc_ascii cp Hcp) as [E _]; [lia|]. rewrite E in *. simpl in Hfst |- *.
    rewrite Hfst. simpl. apply IH. simpl in Hf. lia.
Qed.

Lemma utf8_check_loop_sound fuel s :
  Forall is_byte s -> utf8_check_loop fuel s = true -> utf8 s.
Proof.
  revert s. induction fuel as [|fuel IH]; intros [|b s] Hs; cbn [utf8_check_loop];
    try done; try (intros; apply utf8_nil).
  destruct (Z.eqb_spec (utf8_check_first b) 0) as [_|Hne]; [done|].
  pose proof (check_first_range b).
  destruct (Z.ltb_spec 1 (utf8_check_first b)) as [H1|H1].
  - destruct (Z.ltb_spec (Z.of_nat (length (b :: s))) (utf8_check_first b)); [done|].
    destruct (utf8_check_full (b :: s) (utf8_check_first b)) as [v|] eqn:E; [|done].
    intros Hrec. set (n := Z.to_nat (utf8_check_first b)) in *.
    assert (Hn : utf8_check_first b = Z.of_nat n) by lia. rewrite Hn in E.
    destruct (check_full_sound (b :: s) n v Hs) as [Hv Ht]; [lia|done|done|].
    rewrite <- (take_drop n (b :: s)), Ht. apply utf8_enc_app; [done|].
    apply IH; [by apply Forall_drop|done].
  - intros Hrec. apply Forall_cons in Hs as [Hb Hs].
    destruct (check_first_ascii b Hb) as [E Hsc]; [lia|].
    change (b :: s) with ([b] ++ s). rewrite <- E. apply utf8_enc_app; auto.
Qed.

Lemma utf8_check_string_spec s : Forall is_byte s -> utf8_check_string s = true <-> utf8 s.
Proof.
  intros Hs. split; [by apply utf8_check_loop_sound|].
  intros (cps & Hcps & ->). by apply utf8_check_loop_encode.
Qed.

#[export] Hint Resolve utf8_bytes utf8_nil utf8_app utf8_enc_app : ripext.

#[export] Instance utf8_dec s : Forall is_byte s -> Decision (utf8 s).
Proof.
  intros Hs. destruct (utf8_check_string s) eqn:E.
  - left. by apply utf8_check_string_spec.
  - right. intros H. apply utf8_check_string_spec in H; [congruence|done].
Defined.

(** The iterator of the dumper reads back one encoded code point. *)
Lemma utf8_iterate_enc cp s :
  is_scalar cp -> utf8_iterate (enc cp ++ s) = Some (s, Some cp).
Proof.
  intros Hcp. pose proof (length_enc_pos cp) as Hl. pose proof (enc_first cp Hcp) as Hfst.
  destruct (decide (2 <= length (enc cp))%nat) as [H2|H2].
  - pose proof (enc_check_full cp s Hcp H2) as Hfull.
    assert (Hd : drop (length (enc cp)) (enc cp ++ s) = s) by apply drop_app_length.
    assert (Hlen : length (enc cp ++ s) = (length (enc cp) + length s)%nat) by apply length_app.
    destruct (enc cp) as [|b e] eqn:E; [simpl in *; lia|].
    change ((b :: e) ++ s) with (b :: (e ++ s)) in *. unfold utf8_iterate.
    simpl nth in Hfst. rewrite Hfst.
    rewrite (proj2 (Z.leb_gt _ _)) by lia. rewrite (proj2 (Z.eqb_neq _ 1)) by lia.
    rewrite (proj2 (Z.ltb_ge _ _)) by (rewrite Hlen; lia).
    by rewrite Hfull, Nat2Z.id, Hd.
  - destruct (enc_ascii cp Hcp) as [E Hlt]; [lia|]. rewrite E in *. simpl in Hfst |- *.
    rewrite Hfst. simpl. rewrite uchar_small; [done|]. unfold is_scalar in Hcp. lia.
Qed.

(* ------------------------------------------------------------------ *)
(** ** Properties *)

(** C25. The validator is exact: [utf8_check_string] accepts a byte string
    precisely when it is the UTF-8 encoding (RFC 3629) of a sequence of Unicode
    scalar values, so no overlong form, surrogate, truncated sequence or value
    above U+10FFFF ever enters a JSON string. *)
Theorem utf8_check_string_exact s : Forall is_byte s -> utf8_check_string s = true <-> utf8 s.
Proof. apply utf8_check_string_spec. Qed.

Lemma utf8_check_string_exact_witness :
  utf8_check_string [0xE2; 0x82; 0xAC] = true <-> utf8 [0xE2; 0x82; 0xAC].
Proof. apply utf8_check_string_exact. repeat constructor; vm_compute; discriminate. Defined.

(** Encoding and decoding are inverse: the bytes [utf8_encode] writes for a
    scalar value are read back by [utf8_iterate] as that value, whatever
    follows, and the iterator stops right behind them. *)
Theorem utf8_encode_iterate cp s :
  is_scalar cp -> exists e, utf8_encode cp = Some e /\ utf8_iterate (e ++ s) = Some (s, Some cp).
Proof.
  intros H. exists (enc cp). split; [|by apply utf8_iterate_enc].
  apply utf8_encode_enc. unfold is_scalar in H. lia.
Qed.
