(* ===== verification/Strbuffer.v ===== *)
(** * Allocation (jansson/src/memory.c) and string buffers (strbuffer.c)

    The allocator is the oracle [oom]: the outcomes of the next calls of
    [malloc], after which every call succeeds; the empty list is an allocator
    that never fails.  A string buffer owns a block of [sb_size] cells; stores
    outside of it are undefined behaviour, so the lemmas below are also its
    memory safety. *)

From S2P Require Import Prelude.

(* ------------------------------------------------------------------ *)
(** ** memory.c *)

Abbreviation oracle := (list bool).
Definition AM (A : Type) : Type := ST oracle A.

(** [do_malloc(size)]: whether the block is obtained. *)
Definition do_malloc (size : Z) : AM bool := fun o =>
  match o with
  | [] => inr (true, [])
  | b :: o' => inr (b, o')
  end.

(** [jsonp_malloc]: [true] for a non-NULL result. *)
Definition jsonp_malloc (size : Z) : AM bool :=
  if size =? 0 then ret false else do_malloc size.

(** [jsonp_strndup]: a copy of the first [len] bytes, NUL-terminated. *)
Definition jsonp_strndup (str : bytes) (len : nat) : AM (option bytes) :=
  let* ok := jsonp_malloc (size_t (Z.of_nat len + 1)) in
  if ok then ret (Some (take len str)) else ret None.

(** [jsonp_strdup] of a C string *)
Definition jsonp_strdup (str : bytes) : AM (option bytes) := jsonp_strndup str (length str).

(* ------------------------------------------------------------------ *)
(** ** strbuffer.c *)

Record strbuffer_t := {
  sb_value : option (memblock Z);    (* char *value *)
  sb_length : Z;                     (* bytes used *)
  sb_size : Z                        (* bytes allocated *)
}.

Definition STRBUFFER_MIN_SIZE : Z := 16.
Definition STRBUFFER_FACTOR : Z := 2.
Definition STRBUFFER_SIZE_MAX : Z := SIZE_MAX.

Definition strbuffer_init : AM (Z * strbuffer_t) :=
  let* ok := jsonp_malloc STRBUFFER_MIN_SIZE in
  if ok then
    let* v := require (mem_store (mem_alloc (Z.to_nat STRBUFFER_MIN_SIZE)) 0 [0]) in
    ret (0, {| sb_value := Some v; sb_length := 0; sb_size := STRBUFFER_MIN_SIZE |})
  else ret (-1, {| sb_value := None; sb_length := 0; sb_size := STRBUFFER_MIN_SIZE |}).

Definition strbuffer_close (sb : strbuffer_t) : strbuffer_t :=
  {| sb_value := None; sb_length := 0; sb_size := 0 |}.

Definition strbuffer_clear (sb : strbuffer_t) : AM strbuffer_t :=
  let* blk := require (sb_value sb) in
  let* v := require (mem_store blk 0 [0]) in
  ret {| sb_value := Some v; sb_length := 0; sb_size := sb_size sb |}.

(** [strbuffer_value]: the C string at [value]; [None] for a NULL pointer. *)
Fixpoint read_cstr (blk : memblock Z) : res bytes :=
  match blk with
  | [] | None :: _ => inl UndefinedBehaviour
  | Some b :: blk' =>
      if b =? 0 then inr []
      else match read_cstr blk' with inl e => inl e | inr s => inr (b :: s) end
  end.
Definition strbuffer_value (sb : strbuffer_t) : res (option bytes) :=
  match sb_value sb with
  | None => inr None
  | Some blk => match read_cstr blk with inl e => inl e | inr s => inr (Some s) end
  end.

Definition strbuffer_steal_value (sb : strbuffer_t) : option (memblock Z) * strbuffer_t :=
  (sb_value sb, {| sb_value := None; sb_length := sb_length sb; sb_size := sb_size sb |}).

Definition strbuffer_append_bytes (sb : strbuffer_t) (data : bytes) : AM (Z * strbuffer_t) :=
  let size := Z.of_nat (length data) in
  (* store the bytes and the terminator in a buffer that is large enough *)
  let finish (sb : strbuffer_t) : AM (Z * strbuffer_t) :=
    let* blk := require (sb_value sb) in
    let* v := require (mem_store blk (Z.to_nat (sb_length sb)) data) in
    let len := size_t (sb_length sb + size) in
    let* v' := require (mem_store v (Z.to_nat len) [0]) in
    ret (0, {| sb_value := Some v'; sb_length := len; sb_size := sb_size sb |}) in
  if size_t (sb_size sb - sb_length sb) <=? size then
    (* avoid integer overflow *)
    if (STRBUFFER_SIZE_MAX / STRBUFFER_FACTOR <? sb_size sb)
       || (STRBUFFER_SIZE_MAX - 1 <? size)
       || (size_t (STRBUFFER_SIZE_MAX - 1 - size) <? sb_length sb)
    then ret (-1, sb)
    else
      let new_size := Z.max (size_t (sb_size sb * STRBUFFER_FACTOR))
                            (size_t (sb_length sb + size + 1)) in
      let* ok := jsonp_malloc new_size in
      if ok then
        let* blk := require (sb_value sb) in
        (* memcpy(new_value, strbuff->value, strbuff->length) *)
        let n := Z.to_nat (sb_length sb) in
        if decide (n <= length blk)%nat then
          finish {| sb_value := Some (take n blk ++ mem_alloc (Z.to_nat new_size - n));
                    sb_length := sb_length sb; sb_size := new_size |}
        else fail UndefinedBehaviour
      else ret (-1, sb)
  else finish sb.

Definition strbuffer_append_byte (sb : strbuffer_t) (byte : Z) : AM (Z * strbuffer_t) :=
  strbuffer_append_bytes sb [uchar byte].

(** [strbuffer_pop]: the character removed, as a [char]. *)
Definition strbuffer_pop (sb : strbuffer_t) : AM (Z * strbuffer_t) :=
  if 0 <? sb_length sb then
    let len := sb_length sb - 1 in
    let* blk := require (sb_value sb) in
    let* c := require (mem_load blk (Z.to_nat len) 1) in
    let* v := require (mem_store blk (Z.to_nat len) [0]) in
    ret (schar (default 0 (head c)), {| sb_value := Some v; sb_length := len; sb_size := sb_size sb |})
  else ret (0, sb).

(* ------------------------------------------------------------------ *)
(** ** The contract: a buffer holds a byte string *)

(** [sb] holds the bytes [s], NUL-terminated, inside its block. *)
Definition sb_rep (sb : strbuffer_t) (s : bytes) : Prop :=
  exists blk, sb_value sb = Some blk /\ length blk = Z.to_nat (sb_size sb) /\
    sb_size sb <= SIZE_MAX /\ sb_length sb = Z.of_nat (length s) /\
    sb_length sb < sb_size sb /\ take (length s) blk = Some <$> s /\
    blk !! length s = Some (Some 0).

(** Buffers up to this size never meet the overflow guard. *)
Definition SB_LIMIT : Z := 2 ^ 62.

Lemma lookup_mem_store {A} (blk : memblock A) off x blk' :
  mem_store blk off [x] = Some blk' -> blk' !! off = Some (Some x).
Proof.
  intros (Hle & ->)%mem_store_inv. simpl in *.
  rewrite lookup_app_r by (rewrite length_take; lia).
  rewrite length_take. replace (off - off `min` length blk)%nat with 0%nat by lia. done.
Qed.

Lemma take_mem_store {A} (blk : memblock A) off xs blk' n :
  mem_store blk off xs = Some blk' -> (n <= off)%nat -> take n blk' = take n blk.
Proof.
  intros (Hle & ->)%mem_store_inv Hn.
  rewrite take_app_le by (rewrite length_take; lia). rewrite take_take. f_equal. lia.
Qed.

(** Storing the bytes and their terminator. *)
Lemma sb_store blk s data :
  take (length s) blk = Some <$> s ->
  (length s + length data < length blk)%nat ->
  exists v v', mem_store blk (length s) data = Some v /\
    mem_store v (length s + length data) [0] = Some v' /\
    length v' = length blk /\ take (length (s ++ data)) v' = Some <$> (s ++ data) /\
    v' !! length (s ++ data) = Some (Some 0).
Proof.
  intros Hs Hlen.
  destruct (mem_store blk (length s) data) as [v|] eqn:E1;
    [|rewrite mem_store_ok in E1 by lia; done].
  pose proof (length_mem_store _ _ _ _ E1) as Hv.
  destruct (mem_store v (length s + length data) [0]) as [v'|] eqn:E2;
    [|rewrite mem_store_ok in E2 by (simpl; lia); done].
  exists v, v'. rewrite length_app. repeat split; try done.
  - rewrite (length_mem_store _ _ _ _ E2). done.
  - rewrite (take_mem_store _ _ _ _ _ E2) by lia.
    by rewrite (mem_store_prefix _ _ _ _ E1), Hs, fmap_app.
  - by apply (lookup_mem_store _ _ _ _ E2).
Qed.

Lemma jsonp_malloc_cases size o :
  (exists o', jsonp_malloc size o = inr (true, o') /\ size <> 0 /\ (o = [] -> o' = [])) \/
  (exists o', jsonp_malloc size o = inr (false, o') /\ (size = 0 \/ o <> []) /\ (o = [] -> o' = [])).
Proof.
  unfold jsonp_malloc, do_malloc, ret. destruct (Z.eqb_spec size 0).
  - right. exists o. auto.
  - destruct o as [|[] o]; naive_solver.
Qed.

Lemma jsonp_malloc_nil size : size <> 0 -> jsonp_malloc size [] = inr (true, []).
Proof. intros. unfold jsonp_malloc. by rewrite (proj2 (Z.eqb_neq _ _)). Qed.

Lemma strbuffer_init_rep o :
  wp strbuffer_init o (fun '(r, sb) o' =>
    (o = [] -> o' = []) /\ (r = 0 /\ sb_rep sb [] \/ r = -1 /\ o <> [])).
Proof.
  unfold strbuffer_init. rewrite wp_bind.
  destruct (jsonp_malloc_cases STRBUFFER_MIN_SIZE o) as [(o' & E & _ & Ho)|(o' & E & [H|H] & Ho)];
    (eapply wp_eq; [exact E|]); [|done|].
  - split; [done|]. left. split; [done|].
    eexists. unfold STRBUFFER_MIN_SIZE, SIZE_MAX. repeat split; simpl; lia.
  - split; [done|]. by right.
Qed.

Lemma sb_rep_clear sb s o :
  sb_rep sb s -> exists sb', strbuffer_clear sb o = inr (sb', o) /\ sb_rep sb' [] /\
    sb_size sb' = sb_size sb.
Proof.
  intros (blk & Hv & Hl & Hm & Hlen & Hlt & _). unfold strbuffer_clear, bind. rewrite Hv. simpl.
  destruct (mem_store blk 0 [0]) as [v|] eqn:E; [|rewrite mem_store_ok in E by (simpl; lia); done].
  eexists. split; [reflexivity|]. split; [|done]. exists v. simpl. split_and!; try done.
  - by rewrite (length_mem_store _ _ _ _ E).
  - lia.
  - by apply (lookup_mem_store _ _ _ _ E).
Qed.

Lemma read_cstr_spec s blk :
  is_cstr s -> take (length s) blk = Some <$> s -> blk !! length s = Some (Some 0) ->
  read_cstr blk = inr s.
Proof.
  intros Hs. revert blk. induction Hs as [|b s Hb Hs IH]; intros [|c blk]; simpl; try done.
  - by intros _ [= ->].
  - intros [= -> Ht] Hn. rewrite (proj2 (Z.eqb_neq _ _)) by lia. by rewrite (IH blk).
Qed.

(** With bytes that may contain NUL, the value is what precedes the first. *)
Lemma read_cstr_until s blk :
  take (length s) blk = Some <$> s -> blk !! length s = Some (Some 0) ->
  read_cstr blk = inr (until_nul s).
Proof.
  revert blk. induction s as [|b s IH]; intros [|c blk]; simpl; try done.
  - by intros _ [= ->].
  - intros [= -> Ht] Hn. destruct (b =? 0); [done|]. by rewrite (IH blk).
Qed.

Lemma strbuffer_value_rep sb s :
  sb_rep sb s -> strbuffer_value sb = inr (Some (until_nul s)).
Proof.
  intros (blk & Hv & Hl & Hm & Hlen & Hlt & Hc & Hn). unfold strbuffer_value.
  by rewrite Hv, (read_cstr_until s).
Qed.

Lemma sb_rep_append sb s data o :
  sb_rep sb s ->
  wp (strbuffer_append_bytes sb data) o (fun '(r, sb') o' =>
    (o = [] -> o' = []) /\
    (r = 0 /\ sb_rep sb' (s ++ data) /\
       sb_size sb' <= Z.max (sb_size sb) (2 * Z.of_nat (length s + length data) + 1) \/
     r = -1 /\ sb' = sb /\
       (o <> [] \/ SB_LIMIT <= Z.of_nat (length s + length data) \/ SB_LIMIT <= sb_size sb))).
Proof.
  intros (blk & Hv & Hl & Hm & Hlen & Hlt & Hc & Hn).
  unfold strbuffer_append_bytes, STRBUFFER_SIZE_MAX, STRBUFFER_FACTOR, SB_LIMIT.
  unfold SIZE_MAX in *. rewrite Hlen in *.
  rewrite size_t_small by (unfold SIZE_MAX; lia).
  destruct (Z.leb_spec (sb_size sb - Z.of_nat (length s)) (Z.of_nat (length data))) as [Hg|Hg].
  - case_if.
    { wp_steps. split; [done|]. right. split; [done|]. split; [done|]. right.
      apply orb_true_iff in Heqb as [Heqb|Heqb]; [apply orb_true_iff in Heqb as [Heqb|Heqb]|]; zbool.
      - right. change ((2 ^ 64 - 1) / 2) with (2 ^ 63 - 1) in Heqb. lia.
      - left. lia.
      - left. destruct (Z_lt_le_dec (2 ^ 64 - 1 - 1) (Z.of_nat (length data))); [lia|].
        rewrite size_t_small in Heqb by (unfold SIZE_MAX; lia). lia. }
    change ((2 ^ 64 - 1) / 2) with (2 ^ 63 - 1) in *.
    assert (Hsz1 : size_t (sb_size sb * 2) = sb_size sb * 2).
    { apply size_t_small. unfold SIZE_MAX. lia. }
    match goal with H : _ <= size_t _ |- _ =>
      rewrite size_t_small in H by (unfold SIZE_MAX; lia) end.
    assert (Hsz2 : size_t (Z.of_nat (length s) + Z.of_nat (length data) + 1)
                   = Z.of_nat (length s) + Z.of_nat (length data) + 1).
    { apply size_t_small. unfold SIZE_MAX. lia. }
    rewrite Hsz1, Hsz2. set (ns := Z.max _ _).
    rewrite wp_bind.
    destruct (jsonp_malloc_cases ns o) as [(o' & E & _ & Ho)|(o' & E & Hf & Ho)];
      (eapply wp_eq; [exact E|]); cbv iota.
    2:{ split; [done|]. right. destruct Hf as [Hf|Hf]; [unfold ns in Hf; lia|]. auto. }
    rewrite Hv. rewrite wp_bind. cbn [require]. rewrite wp_ret, Nat2Z.id.
    rewrite decide_True by lia.
    destruct (sb_store (take (length s) blk ++ mem_alloc (Z.to_nat ns - length s)) s data)
      as (v & v' & E1 & E2 & L & C1 & C2).
    { rewrite take_app_le by (rewrite length_take; lia). by rewrite take_take, Nat.min_id, Hc. }
    { rewrite length_app, length_take, length_mem_alloc. unfold ns. lia. }
    cbn [sb_value sb_length sb_size]. rewrite wp_bind. cbn [require]. rewrite wp_ret, Nat2Z.id, E1.
    rewrite wp_bind. cbn [require]. rewrite wp_ret.
    rewrite (size_t_small (_ + _)) by (unfold SIZE_MAX; lia).
    rewrite <- Nat2Z.inj_add, Nat2Z.id, E2. rewrite wp_bind. cbn [require]. rewrite !wp_ret.
    split; [done|]. left. split; [done|]. split; [|cbn [sb_size]; unfold ns; lia].
    exists v'. cbn [sb_value sb_length sb_size]. split_and!; try done.
    + rewrite L, length_app, length_take, length_mem_alloc. unfold ns. lia.
    + unfold ns, SIZE_MAX. lia.
    + by rewrite length_app.
    + unfold ns. lia.
  - destruct (sb_store blk s data) as (v & v' & E1 & E2 & L & C1 & C2); [done|lia|].
    rewrite wp_bind, Hv. cbn [require]. rewrite wp_ret, Nat2Z.id, E1.
    rewrite wp_bind. cbn [require]. rewrite wp_ret.
    rewrite (size_t_small (_ + _)) by (unfold SIZE_MAX; lia).
    rewrite <- Nat2Z.inj_add, Nat2Z.id, E2. rewrite wp_bind. cbn [require]. rewrite !wp_ret.
    split; [done|]. left. split; [done|]. split; [|cbn [sb_size]; lia].
    exists v'. cbn [sb_value sb_length sb_size]. split_and!; try done.
    + by rewrite L.
    + by rewrite length_app.
    + lia.
Qed.

(** ** Buffers under an allocator that does not fail *)

(** A buffer that holds [s] and whose block stays below [2 * n + 16]: what a
    client that never stores more than [n] bytes keeps. *)
Definition sb_ok (n : nat) (sb : strbuffer_t) (s : bytes) : Prop :=
  sb_rep sb s /\ sb_size sb <= 2 * Z.of_nat n + 16.

Lemma sb_ok_init_any n o :
  wp strbuffer_init o (fun '(r, sb) o' => (o = [] -> o' = []) /\ ((r = 0 /\ sb_ok n sb []) \/ (r = -1 /\ o <> []))).
Proof.
  pose proof (strbuffer_init_rep o) as H. apply wp_inv in H as ([r sb] & o' & E & Ho & H). eapply wp_eq; [exact E|]. split; [done|].
  destruct H as [[-> H]|H]; [left|by right]. split; [done|]. split; [done|]. unfold strbuffer_init, jsonp_malloc, do_malloc in E.
  destruct o as [|[] o]; vm_compute in E; simplify_eq; cbn; lia.
Qed.
Lemma sb_ok_init n : exists sb, strbuffer_init [] = inr ((0, sb), []) /\ sb_ok n sb [].
Proof.
  pose proof (sb_ok_init_any n []) as H. apply wp_inv in H as ([r sb] & o & E & Ho & [[-> H]|[_ H]]); [|done].
  exists sb. by rewrite E, Ho.
Qed.

Lemma sb_ok_clear n sb s :
  sb_ok n sb s -> exists sb', strbuffer_clear sb [] = inr (sb', []) /\ sb_ok n sb' [].
Proof.
  intros [H Hs]. destruct (sb_rep_clear sb s [] H) as (sb' & E & H' & Hs').
  exists sb'. rewrite E. split; [done|]. split; [done|]. lia.
Qed.

(** Whatever the allocator does, an append happens or changes nothing. *)
Lemma sb_ok_append_any n sb s data o :
  sb_ok n sb s -> (length s + length data <= n)%nat -> Z.of_nat n < 2 ^ 60 ->
  exists r sb' o', strbuffer_append_bytes sb data o = inr ((r, sb'), o') /\ (o = [] -> o' = []) /\
    ((r = 0 /\ sb_ok n sb' (s ++ data)) \/ (r = -1 /\ sb_ok n sb' s /\ o <> [])).
Proof.
  intros [H Hs] Hn Hlim. pose proof (sb_rep_append sb s data o H) as Hw.
  apply wp_inv in Hw as ([r sb'] & o' & E & Ho & Hw). exists r, sb', o'. split; [done|]. split; [done|].
  unfold SB_LIMIT in Hw. destruct Hw as [(-> & Hr & Hsz)|(-> & -> & [H'|[H'|H']])]; [left|right|lia|lia].
  - split; [done|]. split; [done|]. lia.
  - done.
Qed.

Lemma sb_ok_append n sb s data :
  sb_ok n sb s -> (length s + length data <= n)%nat -> Z.of_nat n < 2 ^ 60 ->
  exists sb', strbuffer_append_bytes sb data [] = inr ((0, sb'), []) /\ sb_ok n sb' (s ++ data).
Proof.
  intros H Hn Hlim. destruct (sb_ok_append_any n sb s data [] H Hn Hlim) as (r & sb' & o' & E & Ho & [[-> Hr]|(_ & _ & ?)]); [|done].
  rewrite Ho in E by done. by exists sb'.
Qed.

Lemma sb_ok_append_byte n sb s b :
  sb_ok n sb s -> is_byte b -> (length s < n)%nat -> Z.of_nat n < 2 ^ 60 ->
  exists sb', strbuffer_append_byte sb (schar b) [] = inr ((0, sb'), []) /\ sb_ok n sb' (s ++ [b]).
Proof.
  intros H Hb Hn Hlim. unfold strbuffer_append_byte. rewrite uchar_schar by done.
  apply sb_ok_append; [done|simpl; lia|done].
Qed.

Lemma sb_ok_pop n sb s b :
  sb_ok n sb (s ++ [b]) -> is_byte b ->
  exists sb', strbuffer_pop sb [] = inr ((schar b, sb'), []) /\ sb_ok n sb' s.
Proof.
  intros [(blk & Hv & Hl & Hm & Hlen & Hlt & Hc & Hn) Hs] Hb.
  rewrite length_app in *. simpl in *. unfold strbuffer_pop.
  rewrite Hlen in *. rewrite (proj2 (Z.ltb_lt 0 _)) by lia.
  replace (Z.to_nat (Z.of_nat (length s + 1) - 1)) with (length s) by lia.
  unfold bind. rewrite Hv. simpl.
  assert (Hb' : blk !! length s = Some (Some b)).
  { rewrite <- (lookup_take_lt _ (length s + 1)) by lia. rewrite Hc, fmap_app.
    rewrite lookup_app_r by (by rewrite length_fmap). by rewrite length_fmap, Nat.sub_diag. }
  unfold mem_load. rewrite decide_True by lia.
  rewrite (drop_S _ _ _ Hb'). simpl.
  destruct (mem_store blk (length s) [0]) as [v|] eqn:E;
    [|rewrite mem_store_ok in E by (simpl; lia); done].
  simpl. eexists. split; [reflexivity|]. split; [|simpl; lia].
  exists v. simpl. split_and!; try done; try lia.
  - by rewrite (length_mem_store _ _ _ _ E).
  - rewrite (take_mem_store _ _ _ _ _ E) by lia.
    rewrite <- (take_app_length' s [b] (length s)) by done.
    rewrite fmap_take, <- Hc, take_take. f_equal. rewrite length_take, length_app. simpl. lia.
  - by apply (lookup_mem_store _ _ _ _ E).
Qed.

(* ------------------------------------------------------------------ *)
(** ** Properties *)

(** Appending to a string buffer is safe and exact whether or not memory
    runs out: on success the buffer holds the old contents followed by the new
    bytes, NUL-terminated inside its block, on failure it is unchanged, and it
    fails only when the allocator does or a size of at least 2^62 bytes is
    involved.  In particular the size computation never wraps around. *)
Theorem strbuffer_append_safe sb s data o :
  sb_rep sb s ->
  exists r sb' o', strbuffer_append_bytes sb data o = inr ((r, sb'), o') /\
    (r = 0 /\ sb_rep sb' (s ++ data) \/
     r = -1 /\ sb_rep sb' s /\
       (o <> [] \/ SB_LIMIT <= Z.of_nat (length s + length data) \/ SB_LIMIT <= sb_size sb)).
Proof.
  intros H. pose proof (sb_rep_append sb s data o H) as Hw.
  apply wp_inv in Hw as ([r sb'] & o' & E & _ & Hw). exists r, sb', o'. split; [done|].
  destruct Hw as [(-> & ? & _)|(-> & -> & ?)]; auto.
Qed.
