(* ===== verification/Memory.v ===== *)
(** * The replaceable allocator (jansson/src/memory.c)

    The library allocates through two function pointers that
    [json_set_alloc_funcs] replaces.  Functions are named by numbers; a block
    remembers the function that gave it, and [takes f m] says that the
    function [f] frees what [m] allocates, as [free] does for [malloc].  The
    rest of the development calls one allocator throughout: [jsonp_malloc] of
    Strbuffer is what this one does when blocks are forgotten. *)

From S2P Require Import Prelude Strbuffer.

Abbreviation fn := positive.
Abbreviation ptr := (option positive).

Record block : Type := { b_owner : fn; b_cells : memblock Z }.
Record memory : Type := {
  do_malloc_fn : fn;
  do_free_fn : fn;
  m_blocks : gmap positive block;
  m_fresh : positive;             (* an address that was never used *)
  m_oom : oracle;                 (* outcomes of the coming allocations *)
}.
Abbreviation MM := (ST memory).

Definition set_blocks (b : gmap positive block) (s : memory) : memory :=
  {| do_malloc_fn := do_malloc_fn s; do_free_fn := do_free_fn s; m_blocks := b; m_fresh := m_fresh s; m_oom := m_oom s |}.

Section memory.
Context (takes : fn -> fn -> bool).

(** [malloc_fn(size)] *)
Definition call_malloc (m : fn) (size : Z) : MM ptr := fun s =>
  match do_malloc size (m_oom s) with
  | inl e => inl e
  | inr (true, o) =>
      inr (Some (m_fresh s),
           {| do_malloc_fn := do_malloc_fn s; do_free_fn := do_free_fn s;
              m_blocks := <[m_fresh s := {| b_owner := m; b_cells := mem_alloc (Z.to_nat size) |}]> (m_blocks s);
              m_fresh := Pos.succ (m_fresh s); m_oom := o |})
  | inr (false, o) =>
      inr (None, {| do_malloc_fn := do_malloc_fn s; do_free_fn := do_free_fn s; m_blocks := m_blocks s; m_fresh := m_fresh s; m_oom := o |})
  end.
(** [free_fn(ptr)]: the block must be one of its own. *)
Definition call_free (f : fn) (p : positive) : MM unit :=
  let* bs := gets m_blocks in
  let* b := require (bs !! p) in
  if takes f (b_owner b) then modify (fun s => set_blocks (delete p (m_blocks s)) s) else fail UndefinedBehaviour.

Definition jsonp_malloc (size : Z) : MM ptr :=
  if size =? 0 then ret None
  else let* m := gets do_malloc_fn in call_malloc m size.

Definition jsonp_free (p : ptr) : MM unit :=
  match p with
  | None => ret tt
  | Some p => let* f := gets do_free_fn in call_free f p
  end.

(** [str] is the memory behind the pointer. *)
Definition jsonp_strndup (str : bytes) (len : Z) : MM ptr :=
  let* new_str := jsonp_malloc (size_t (len + 1)) in
  match new_str with
  | None => ret None
  | Some p =>
      let* bs := gets m_blocks in
      let* b := require (bs !! p) in
      let* src := require (if decide (Z.to_nat len <= length str)%nat then Some (take (Z.to_nat len) str) else None) in
      let* c := require (mem_store (b_cells b) 0 src) in
      let* c := require (mem_store c (Z.to_nat len) [0]) in
      modify (fun s => set_blocks (<[p := {| b_owner := b_owner b; b_cells := c |}]> (m_blocks s)) s) ;;;
      ret (Some p)
  end.
Definition jsonp_strdup (str : bytes) : MM ptr := jsonp_strndup str (Z.of_nat (length str)).

Definition json_set_alloc_funcs (malloc_fn free_fn : fn) : MM unit :=
  modify (fun s => {| do_malloc_fn := malloc_fn; do_free_fn := free_fn; m_blocks := m_blocks s; m_fresh := m_fresh s; m_oom := m_oom s |}).
(** What is stored through the arguments that are not NULL. *)
Definition json_get_alloc_funcs (malloc_fn free_fn : bool) : MM (option fn * option fn) :=
  let* m := gets do_malloc_fn in
  let* f := gets do_free_fn in
  ret (if malloc_fn then Some m else None, if free_fn then Some f else None).

(* ------------------------------------------------------------------ *)
(** ** Blocks go back to where they came from *)

(** The two functions belong together, and so do all blocks. *)
Record memory_ok (s : memory) : Prop := {
  mo_pair : takes (do_free_fn s) (do_malloc_fn s) = true;
  mo_owner : forall p b, m_blocks s !! p = Some b -> b_owner b = do_malloc_fn s;
  mo_fresh : forall p, is_Some (m_blocks s !! p) -> (p < m_fresh s)%positive;
}.

Lemma memory_ok_insert s p b o n : memory_ok s -> b_owner b = do_malloc_fn s -> (p < n)%positive -> (m_fresh s <= n)%positive ->
  memory_ok {| do_malloc_fn := do_malloc_fn s; do_free_fn := do_free_fn s; m_blocks := <[p := b]> (m_blocks s); m_fresh := n; m_oom := o |}.
Proof.
  intros [H1 H2 H3] Hb Hp Hn. split; cbn; [done| |].
  - intros q c [[-> ->]|[_ Hq]]%lookup_insert_Some; [done|by eapply H2].
  - intros q [->|[_ Hq]]%lookup_insert_is_Some; [done|]. specialize (H3 q Hq). lia.
Qed.

Lemma malloc_spec s size : memory_ok s ->
  wp (jsonp_malloc size) s (fun r s' => memory_ok s' /\ do_malloc_fn s' = do_malloc_fn s /\
    match r with
    | Some p => m_blocks s !! p = None /\ m_blocks s' = <[p := {| b_owner := do_malloc_fn s; b_cells := mem_alloc (Z.to_nat size) |}]> (m_blocks s)
    | None => m_blocks s' = m_blocks s /\ (size = 0 \/ m_oom s <> [])
    end).
Proof.
  intros Hs. unfold jsonp_malloc. destruct (Z.eqb_spec size 0) as [->|Hz]; [apply wp_ret; auto|]. wp_step. apply wp_gets.
  assert (Hnew : m_blocks s !! m_fresh s = None).
  { destruct (m_blocks s !! m_fresh s) eqn:E; [|done]. exfalso. eapply Pos.lt_irrefl, (mo_fresh _ Hs). by rewrite E. }
  unfold call_malloc, wp, do_malloc. destruct (m_oom s) as [|[] o]; cbn.
  - split; [apply memory_ok_insert; try done; lia|]. done.
  - split; [apply memory_ok_insert; try done; lia|]. done.
  - split; [by destruct Hs|]. split; [done|]. split; [done|]. by right.
Qed.

Lemma free_spec s p : memory_ok s -> is_Some (m_blocks s !! p) ->
  wp (jsonp_free (Some p)) s (fun _ s' => memory_ok s' /\ m_blocks s' = delete p (m_blocks s)).
Proof.
  intros Hs [b Hb]. unfold jsonp_free, call_free. wp_step. apply wp_gets. wp_step. apply wp_gets. wp_step. eapply wp_require; [exact Hb|].
  rewrite (mo_owner _ Hs _ _ Hb), (mo_pair _ Hs). apply wp_modify. split; [|done]. destruct Hs as [H1 H2 H3]. split; cbn; [done| |].
  - intros q c [_ Hq]%lookup_delete_Some. by eapply H2.
  - intros q [c [_ Hq]%lookup_delete_Some]. apply H3. by exists c.
Qed.

Lemma strndup_spec s str len : memory_ok s -> 0 <= len <= Z.of_nat (length str) -> len < SIZE_MAX ->
  wp (jsonp_strndup str len) s (fun r s' => memory_ok s' /\
    match r with
    | Some p => m_blocks s !! p = None /\ exists b, m_blocks s' = <[p := b]> (m_blocks s) /\ b_cells b = Some <$> (take (Z.to_nat len) str ++ [0])
    | None => m_blocks s' = m_blocks s /\ m_oom s <> []
    end).
Proof.
  intros Hs Hlen Hmax. unfold jsonp_strndup. rewrite size_t_small by lia. wp_step. eapply wp_mono; [by apply malloc_spec|].
  intros [p|] s1 (Hs1 & Hfn & Hr).
  2:{ apply wp_ret. split; [done|]. destruct Hr as [Hr [?|?]]; [lia|done]. }
  destruct Hr as [Hnew Hbl]. wp_step. apply wp_gets. wp_step. eapply wp_require; [by rewrite Hbl, lookup_insert_eq|].
  wp_step. eapply wp_require; [by rewrite decide_True by lia|].
  destruct (sb_store (mem_alloc (Z.to_nat (len + 1))) [] (take (Z.to_nat len) str)) as (v & v' & E1 & E2 & Hl & Ht & Hn).
  { done. } { cbn. rewrite length_take, length_mem_alloc. lia. }
  assert (Hk : length (take (Z.to_nat len) str) = Z.to_nat len) by (rewrite length_take; lia). cbn in E1, E2, Ht, Hn. rewrite Hk in *.
  cbn [b_cells b_owner]. wp_step. eapply wp_require; [exact E1|]. wp_step. eapply wp_require; [exact E2|]. wp_step. apply wp_modify. apply wp_ret. split.
  - destruct s1 as [m f bs n o]. apply (memory_ok_insert {| do_malloc_fn := m; do_free_fn := f; m_blocks := bs; m_fresh := n; m_oom := o |}); [done|done| |cbn; lia].
    apply (mo_fresh _ Hs1). cbn in *. by rewrite Hbl, lookup_insert_eq.
  - split; [done|]. eexists. cbn. rewrite Hbl, insert_insert_eq. split; [done|]. cbn.
    rewrite length_mem_alloc in Hl. rewrite fmap_app, <- Ht. apply (take_S_r v') in Hn. etrans; [symmetry; apply take_ge|exact Hn]. lia.
Qed.

(** ** Sessions *)

Inductive memory_call : Type :=
| MMalloc (size : Z) | MStrndup (str : bytes) (len : Z) | MFree (p : ptr) | MSet (malloc_fn free_fn : fn).
Definition run_memory_call (c : memory_call) : MM unit :=
  match c with
  | MMalloc size => let* _ := jsonp_malloc size in ret tt
  | MStrndup str len => let* _ := jsonp_strndup str len in ret tt
  | MFree p => jsonp_free p
  | MSet m f => json_set_alloc_funcs m f
  end.
(** Blocks are freed once, and the functions are replaced by a pair that
    belongs together while there are no blocks. *)
Definition memory_call_ok (s : memory) (c : memory_call) : Prop :=
  match c with
  | MMalloc size => True
  | MStrndup str len => 0 <= len <= Z.of_nat (length str) /\ len < SIZE_MAX
  | MFree p => match p with Some p => is_Some (m_blocks s !! p) | None => True end
  | MSet m f => takes f m = true /\ m_blocks s = ∅
  end.

(** A client that follows these rules never gives a block to a function that
    did not allocate it. *)
Theorem memory_calls_safe s c : memory_ok s -> memory_call_ok s c ->
  exists s', run_memory_call c s = inr (tt, s') /\ memory_ok s'.
Proof.
  intros Hs Hc. cut (wp (run_memory_call c) s (fun _ s' => memory_ok s')); [intros H; apply wp_inv in H as ([] & s' & E & H); by exists s'|].
  destruct c as [size|str len|[p|]|m f]; cbn [run_memory_call].
  - wp_step. eapply wp_mono; [by apply malloc_spec|]. intros r s' [H _]. by apply wp_ret.
  - wp_step. destruct Hc as [Hc1 Hc2]. eapply wp_mono; [by apply strndup_spec|]. intros r s' [H _]. by apply wp_ret.
  - eapply wp_mono; [by apply free_spec|]. by intros ? s' [H _].
  - by apply wp_ret.
  - destruct Hc as [Ht He]. apply wp_modify. split; cbn; [done| |]; rewrite He; [done|]. by intros p [? ?].
Qed.

(** ** The allocator of the other files *)

(** Whether an allocation succeeds, and what is left of the oracle, is what
    [Strbuffer.jsonp_malloc] says. *)
Theorem jsonp_malloc_refines s size r s' : jsonp_malloc size s = inr (r, s') ->
  Strbuffer.jsonp_malloc size (m_oom s) = inr (bool_decide (is_Some r), m_oom s').
Proof.
  unfold jsonp_malloc, Strbuffer.jsonp_malloc. destruct (size =? 0); [by intros [= <- <-]|].
  unfold bind, gets, call_malloc. destruct (do_malloc size (m_oom s)) as [e|[[] o]]; [done| |]; by intros [= <- <-].
Qed.
End memory.

(** Replacing the functions while a block is alive is an error: it goes to the
    wrong function. *)
Example replaced_too_early :
  (let* p := jsonp_malloc 8 in json_set_alloc_funcs 2 2 ;;; jsonp_free Pos.eqb p)
    {| do_malloc_fn := 1; do_free_fn := 1; m_blocks := ∅; m_fresh := 1; m_oom := [] |} = inl UndefinedBehaviour.
Proof. vm_compute. reflexivity. Qed.
