(* ===== verification/Version.v ===== *)
(** * Version queries (jansson/src/version.c) *)

From S2P Require Import Prelude.

Definition JANSSON_MAJOR_VERSION : Z := 2.
Definition JANSSON_MINOR_VERSION : Z := 13.
Definition JANSSON_MICRO_VERSION : Z := 1.
Definition JANSSON_VERSION : bytes := lit "2.13.1".

Definition jansson_version_str : bytes := JANSSON_VERSION.

(** [a - b] of [int]s, whose overflow is undefined. *)
Definition int_sub (a b : Z) : res Z :=
  if bool_decide (- 2 ^ 31 <= a - b < 2 ^ 31) then inr (a - b) else inl UndefinedBehaviour.

Definition jansson_version_cmp (major minor micro : Z) : res Z :=
  match int_sub JANSSON_MAJOR_VERSION major with
  | inl e => inl e
  | inr diff =>
      if negb (diff =? 0) then inr diff
      else
        match int_sub JANSSON_MINOR_VERSION minor with
        | inl e => inl e
        | inr diff => if negb (diff =? 0) then inr diff else int_sub JANSSON_MICRO_VERSION micro
        end
  end.

(** Versions in their order. *)
Definition version_compare (a b : Z * Z * Z) : comparison :=
  match Z.compare a.1.1 b.1.1 with
  | Eq => match Z.compare a.1.2 b.1.2 with Eq => Z.compare a.2 b.2 | c => c end
  | c => c
  end.

(** The sign of the result is the order of versions, for any version whose
    numbers are not at the very bottom of [int]. *)
Theorem jansson_version_cmp_order major minor micro :
  Forall (fun n => - 2 ^ 31 + 13 < n < 2 ^ 31) [major; minor; micro] ->
  exists r, jansson_version_cmp major minor micro = inr r /\
    Z.compare r 0 = version_compare (JANSSON_MAJOR_VERSION, JANSSON_MINOR_VERSION, JANSSON_MICRO_VERSION) (major, minor, micro).
Proof.
  intros H. repeat (apply Forall_cons in H as [? H]). unfold jansson_version_cmp, int_sub, version_compare; cbn [fst snd].
  unfold JANSSON_MAJOR_VERSION, JANSSON_MINOR_VERSION, JANSSON_MICRO_VERSION. rewrite !bool_decide_eq_true_2 by lia.
  destruct (Z.eqb_spec (2 - major) 0); cbn [negb].
  - destruct (Z.eqb_spec (13 - minor) 0); cbn [negb]; eexists; (split; [done|]); destruct (Z.compare_spec 2 major); try lia.
    + destruct (Z.compare_spec 13 minor); try lia. by destruct (Z.compare_spec 1 micro), (Z.compare_spec (1 - micro) 0); try lia.
    + destruct (Z.compare_spec 13 minor), (Z.compare_spec (13 - minor) 0); lia || done.
  - eexists. split; [done|]. destruct (Z.compare_spec 2 major), (Z.compare_spec (2 - major) 0); lia || done.
Qed.
