(* ===== verification/Lookup3.v ===== *)
(** * The hash function (jansson/src/lookup3.h)

    [hashlittle] has three bodies, chosen by the alignment of the key: 32-bit
    reads (which read past the end of the key and mask), 16-bit reads and
    single bytes.  The memory the code reads is the key followed by whatever
    lies behind it; [hashlittle_ref] is the byte-wise body on the key alone and
    [hashlittle_spec] shows the three agree with it. *)

From S2P Require Import Prelude.

(* ------------------------------------------------------------------ *)
(** ** The code *)

Definition hashsize (n : Z) : Z := uint32 (Z.shiftl 1 n).
Definition hashmask (n : Z) : Z := uint32 (hashsize n - 1).
Definition rot (x k : Z) : Z := uint32 (Z.lor (Z.shiftl x k) (Z.shiftr x (32 - k))).

Abbreviation word3 := (Z * Z * Z)%type.

(** one line [x -= z; x ^= rot(z, k); z += y] of [mix] *)
Definition mix_step (x y z k : Z) : Z * Z :=
  let x1 := uint32 (x - z) in
  let x2 := Z.lxor x1 (rot z k) in
  (x2, uint32 (z + y)).

Definition mix (abc : word3) : word3 :=
  let '(a, b, c) := abc in
  let '(a, c) := mix_step a b c 4 in
  let '(b, a) := mix_step b c a 6 in
  let '(c, b) := mix_step c a b 8 in
  let '(a, c) := mix_step a b c 16 in
  let '(b, a) := mix_step b c a 19 in
  let '(c, b) := mix_step c a b 4 in
  (a, b, c).

(** one line [x ^= y; x -= rot(y, k)] of [final] *)
Definition final_step (x y k : Z) : Z := uint32 (Z.lxor x y - rot y k).

Definition final (abc : word3) : Z :=
  let '(a, b, c) := abc in
  let c := final_step c b 14 in
  let a := final_step a c 11 in
  let b := final_step b a 25 in
  let c := final_step c b 16 in
  let a := final_step a c 4 in
  let b := final_step b a 14 in
  final_step c b 24.

(** [k[i]] for [uint8_t *k], [uint16_t *k] and [uint32_t *k] on a little-endian machine *)
Definition rd8 (m : bytes) (i : nat) : Z := nth i m 0.
Definition rd16 (m : bytes) (i : nat) : Z := rd8 m (2 * i) + Z.shiftl (rd8 m (2 * i + 1)) 8.
Definition rd32 (m : bytes) (i : nat) : Z :=
  rd8 m (4 * i) + Z.shiftl (rd8 m (4 * i + 1)) 8 + Z.shiftl (rd8 m (4 * i + 2)) 16
  + Z.shiftl (rd8 m (4 * i + 3)) 24.

Definition add32 (x y : Z) : Z := uint32 (x + y).

(** [while (length > 12)]: [add] is the body's reads, [mix] follows. *)
Fixpoint hash_blocks (add : bytes -> word3 -> word3) (fuel : nat) (m : bytes) (len : nat)
    (abc : word3) : bytes * nat * word3 :=
  match fuel with
  | O => (m, len, abc)
  | S fuel' =>
      if (12 <? len)%nat
      then hash_blocks add fuel' (drop 12 m) (len - 12) (mix (add m abc))
      else (m, len, abc)
  end.

(** *** 32-bit reads *)
Definition add_block32 (m : bytes) '((a, b, c) : word3) : word3 :=
  (add32 a (rd32 m 0), add32 b (rd32 m 1), add32 c (rd32 m 2)).

Definition last_block32 (m : bytes) (len : nat) '((a, b, c) : word3) : Z :=
  match len with
  | 12%nat => final (add32 a (rd32 m 0), add32 b (rd32 m 1), add32 c (rd32 m 2))
  | 11%nat => final (add32 a (rd32 m 0), add32 b (rd32 m 1), add32 c (Z.land (rd32 m 2) 0xffffff))
  | 10%nat => final (add32 a (rd32 m 0), add32 b (rd32 m 1), add32 c (Z.land (rd32 m 2) 0xffff))
  | 9%nat => final (add32 a (rd32 m 0), add32 b (rd32 m 1), add32 c (Z.land (rd32 m 2) 0xff))
  | 8%nat => final (add32 a (rd32 m 0), add32 b (rd32 m 1), c)
  | 7%nat => final (add32 a (rd32 m 0), add32 b (Z.land (rd32 m 1) 0xffffff), c)
  | 6%nat => final (add32 a (rd32 m 0), add32 b (Z.land (rd32 m 1) 0xffff), c)
  | 5%nat => final (add32 a (rd32 m 0), add32 b (Z.land (rd32 m 1) 0xff), c)
  | 4%nat => final (add32 a (rd32 m 0), b, c)
  | 3%nat => final (add32 a (Z.land (rd32 m 0) 0xffffff), b, c)
  | 2%nat => final (add32 a (Z.land (rd32 m 0) 0xffff), b, c)
  | 1%nat => final (add32 a (Z.land (rd32 m 0) 0xff), b, c)
  | 0%nat => c
  | _ => final (a, b, c)
  end.

(** *** 16-bit reads *)
Definition rd16x2 (m : bytes) (i : nat) : Z := rd16 m i + uint32 (Z.shiftl (rd16 m (i + 1)) 16).

Definition add_block16 (m : bytes) '((a, b, c) : word3) : word3 :=
  (add32 a (rd16x2 m 0), add32 b (rd16x2 m 2), add32 c (rd16x2 m 4)).

Definition last_block16 (m : bytes) (len : nat) '((a, b, c) : word3) : Z :=
  let k8_16 i := uint32 (Z.shiftl (rd8 m i) 16) in
  match len with
  | 12%nat => final (add32 a (rd16x2 m 0), add32 b (rd16x2 m 2), add32 c (rd16x2 m 4))
  | 11%nat => final (add32 a (rd16x2 m 0), add32 b (rd16x2 m 2),
                     add32 (add32 c (k8_16 10%nat)) (rd16 m 4))
  | 10%nat => final (add32 a (rd16x2 m 0), add32 b (rd16x2 m 2), add32 c (rd16 m 4))
  | 9%nat => final (add32 a (rd16x2 m 0), add32 b (rd16x2 m 2), add32 c (rd8 m 8))
  | 8%nat => final (add32 a (rd16x2 m 0), add32 b (rd16x2 m 2), c)
  | 7%nat => final (add32 a (rd16x2 m 0), add32 (add32 b (k8_16 6%nat)) (rd16 m 2), c)
  | 6%nat => final (add32 a (rd16x2 m 0), add32 b (rd16 m 2), c)
  | 5%nat => final (add32 a (rd16x2 m 0), add32 b (rd8 m 4), c)
  | 4%nat => final (add32 a (rd16x2 m 0), b, c)
  | 3%nat => final (add32 (add32 a (k8_16 2%nat)) (rd16 m 0), b, c)
  | 2%nat => final (add32 a (rd16 m 0), b, c)
  | 1%nat => final (add32 a (rd8 m 0), b, c)
  | 0%nat => c
  | _ => final (a, b, c)
  end.

(** *** single bytes *)
Definition add_byte (m : bytes) (i : nat) (shift x : Z) : Z :=
  add32 x (uint32 (Z.shiftl (rd8 m i) shift)).

Definition add_block8 (m : bytes) '((a, b, c) : word3) : word3 :=
  (add_byte m 3 24 (add_byte m 2 16 (add_byte m 1 8 (add_byte m 0 0 a))),
   add_byte m 7 24 (add_byte m 6 16 (add_byte m 5 8 (add_byte m 4 0 b))),
   add_byte m 11 24 (add_byte m 10 16 (add_byte m 9 8 (add_byte m 8 0 c)))).

(** The [switch] whose cases fall through: case [n] adds bytes [n-1 .. 0]. *)
Definition last_block8 (m : bytes) (len : nat) '((a, b, c) : word3) : Z :=
  let when (n i : nat) (shift x : Z) := if (n <=? len)%nat then add_byte m i shift x else x in
  match len with
  | 0%nat => c
  | _ =>
      if (12 <? len)%nat then final (a, b, c) else
      let c := when 9%nat 8%nat 0 (when 10%nat 9%nat 8
                 (when 11%nat 10%nat 16 (when 12%nat 11%nat 24 c))) in
      let b := when 5%nat 4%nat 0 (when 6%nat 5%nat 8
                 (when 7%nat 6%nat 16 (when 8%nat 7%nat 24 b))) in
      let a := when 1%nat 0%nat 0 (when 2%nat 1%nat 8
                 (when 3%nat 2%nat 16 (when 4%nat 3%nat 24 a))) in
      final (a, b, c)
  end.

(** [hashlittle(key, length, initval)] for a key at an address congruent to
    [align] modulo 4, with memory [m] from there on. *)
Definition hashlittle (align : Z) (m : bytes) (len : nat) (initval : Z) : Z :=
  let x := uint32 (0xdeadbeef + uint32 (Z.of_nat len) + initval) in
  let abc := (x, x, x) in
  if Z.land align 0x3 =? 0 then
    let '(m, len, abc) := hash_blocks add_block32 len m len abc in last_block32 m len abc
  else if Z.land align 0x1 =? 0 then
    let '(m, len, abc) := hash_blocks add_block16 len m len abc in last_block16 m len abc
  else
    let '(m, len, abc) := hash_blocks add_block8 len m len abc in last_block8 m len abc.

(* ------------------------------------------------------------------ *)
(** ** The reference: bytes of the key only *)

Definition hashlittle_ref (key : bytes) (initval : Z) : Z := hashlittle 1 key (length key) initval.

(** [hash_str(key)] *)
Definition hash_str (seed : Z) (key : bytes) : Z := size_t (hashlittle_ref key seed).

(* ------------------------------------------------------------------ *)
(** ** The three bodies agree *)

Lemma uint32_add_l x y : uint32 (uint32 x + y) = uint32 (x + y).
Proof. unfold uint32. by rewrite Zplus_mod_idemp_l. Qed.
Lemma uint32_add_r x y : uint32 (x + uint32 y) = uint32 (x + y).
Proof. unfold uint32. by rewrite Zplus_mod_idemp_r. Qed.
Lemma uint32_add_l2 x y z : uint32 (uint32 x + y + z) = uint32 (x + y + z).
Proof. by rewrite <- Z.add_assoc, uint32_add_l, Z.add_assoc. Qed.
Lemma uint32_add_r2 x y z : uint32 (x + (y + uint32 z)) = uint32 (x + (y + z)).
Proof. by rewrite Z.add_assoc, uint32_add_r, Z.add_assoc. Qed.
Lemma uint32_small x : 0 <= x < 2 ^ 32 -> uint32 x = x.
Proof. unfold uint32. intros. by apply Z.mod_small. Qed.
Lemma uint32_range x : 0 <= uint32 x < 2 ^ 32.
Proof. apply Z.mod_pos_bound. lia. Qed.
Lemma uint32_idemp x : uint32 (uint32 x) = uint32 x.
Proof. apply uint32_small, uint32_range. Qed.

#[export] Hint Rewrite uint32_add_l uint32_add_l2 uint32_add_r uint32_add_r2 uint32_idemp : ripext.

(** Close [add32 .. = add32 ..] between sums of shifted bytes. *)
Ltac solve_words :=
  unfold add_byte, add32, rd32, rd16x2, rd16, rd8, is_byte in *; simpl nth;
  repeat first [ rewrite (Z.land_ones _ 24 : forall H, Z.land _ 0xffffff = _) by lia
               | rewrite (Z.land_ones _ 16 : forall H, Z.land _ 0xffff = _) by lia
               | rewrite (Z.land_ones _ 8 : forall H, Z.land _ 0xff = _) by lia
               | rewrite Z.shiftl_mul_pow2 by lia ];
  autorewrite with ripext; f_equal; Z.to_euclidean_division_equations; lia.

(** The first [n] bytes of a long enough block, named. *)
Ltac name_bytes m Hm :=
  repeat (destruct m as [|?b m]; simpl in *; [lia|]);
  repeat match goal with H : Forall is_byte (_ :: _) |- _ => apply Forall_cons in H as [? ?] end.

Lemma add_block8_app key tail abc :
  (12 <= length key)%nat -> add_block8 (key ++ tail) abc = add_block8 key abc.
Proof.
  intros Hk. destruct abc as [[a b] c].
  do 12 (destruct key as [|?k key]; simpl in Hk; [lia|]). reflexivity.
Qed.

Lemma add_block32_8 m abc :
  Forall is_byte m -> (12 <= length m)%nat -> add_block32 m abc = add_block8 m abc.
Proof.
  intros Hm Hl. destruct abc as [[a b] c].
  do 12 (destruct m as [|?k m]; simpl in Hl; [lia|]).
  do 12 (apply Forall_cons in Hm as [? Hm]).
  unfold add_block32, add_block8. f_equal; [f_equal|]; solve_words.
Qed.

Lemma add_block16_8 m abc :
  Forall is_byte m -> (12 <= length m)%nat -> add_block16 m abc = add_block8 m abc.
Proof.
  intros Hm Hl. destruct abc as [[a b] c].
  do 12 (destruct m as [|?k m]; simpl in Hl; [lia|]).
  do 12 (apply Forall_cons in Hm as [? Hm]).
  unfold add_block16, add_block8. f_equal; [f_equal|]; solve_words.
Qed.

(** A body whose reads agree with the byte-wise ones consumes the same blocks
    of the key, whatever follows it. *)
Lemma hash_blocks_agree add fuel key tail abc :
  (forall m abc, Forall is_byte m -> (12 <= length m)%nat -> add m abc = add_block8 m abc) ->
  Forall is_byte (key ++ tail) -> (length key <= fuel)%nat ->
  exists key' abc',
    hash_blocks add fuel (key ++ tail) (length key) abc = (key' ++ tail, length key', abc') /\
    hash_blocks add_block8 fuel key (length key) abc = (key', length key', abc') /\
    (length key' <= 12)%nat /\ Forall is_byte (key' ++ tail).
Proof.
  intros Hadd. revert key abc. induction fuel as [|fuel IH]; intros key abc Hb Hf.
  { exists key, abc. simpl. repeat split; try done; lia. }
  cbn [hash_blocks]. destruct (Nat.ltb_spec 12 (length key)) as [Hl|Hl].
  - rewrite Hadd by (rewrite ?length_app; done || lia). rewrite add_block8_app by lia.
    rewrite drop_app_le by lia. replace (length key - 12)%nat with (length (drop 12 key))
      by (rewrite length_drop; lia).
    apply IH; [|rewrite length_drop; lia].
    apply Forall_app in Hb as [? ?]. apply Forall_app. auto using Forall_drop.
  - exists key, abc. repeat split; try done.
Qed.

(** [final] is a function of its three words: compare them. *)
Lemma final_eq a b c a' b' c' : a = a' -> b = b' -> c = c' -> final (a, b, c) = final (a', b', c').
Proof. by intros -> -> ->. Qed.

Lemma last_block_agree32 key tail abc :
  Forall is_byte (key ++ tail) -> (length key <= 12)%nat ->
  (3 <= length tail)%nat ->
  last_block32 (key ++ tail) (length key) abc = last_block8 key (length key) abc.
Proof.
  intros Hm Hl Hlt. destruct abc as [[a b] c]. apply Forall_app in Hm as [Hk Ht].
  do 3 (destruct tail as [|?t tail]; simpl in Hlt; [lia|]).
  do 3 (apply Forall_cons in Ht as [? Ht]).
  do 12 (destruct key as [|?k key]; [|apply Forall_cons in Hk as [? Hk]]; simpl length;
    [unfold last_block32, last_block8; cbn [length Nat.leb Nat.ltb app];
     try reflexivity; apply final_eq; try reflexivity; solve_words|]).
  destruct key; simpl in Hl; [|lia]. unfold last_block32, last_block8.
  cbn [length Nat.leb Nat.ltb app]. apply final_eq; try reflexivity; solve_words.
Qed.

Lemma last_block_agree16 key tail abc :
  Forall is_byte (key ++ tail) -> (length key <= 12)%nat ->
  last_block16 (key ++ tail) (length key) abc = last_block8 key (length key) abc.
Proof.
  intros Hm Hl. destruct abc as [[a b] c]. apply Forall_app in Hm as [Hk Ht].
  do 12 (destruct key as [|?k key]; [|apply Forall_cons in Hk as [? Hk]]; simpl length;
    [unfold last_block16, last_block8; cbn [length Nat.leb Nat.ltb app];
     try reflexivity; apply final_eq; try reflexivity; solve_words|]).
  destruct key; simpl in Hl; [|lia]. unfold last_block16, last_block8.
  cbn [length Nat.leb Nat.ltb app]. apply final_eq; try reflexivity; solve_words.
Qed.

Lemma last_block_agree8 key tail abc :
  (length key <= 12)%nat ->
  last_block8 (key ++ tail) (length key) abc = last_block8 key (length key) abc.
Proof.
  intros Hl. destruct abc as [[a b] c].
  do 12 (destruct key as [|?k key];
    [unfold last_block8; cbn [length Nat.leb Nat.ltb app];
     first [apply final_eq; reflexivity | reflexivity]|]).
  destruct key; simpl in Hl; [|lia].
  unfold last_block8. cbn [length Nat.leb Nat.ltb app]. apply final_eq; reflexivity.
Qed.

(** Whatever the alignment of the key and the bytes that follow it, the hash is
    that of the key's bytes; three more bytes are readable behind an aligned
    key (its last word). *)
Lemma hashlittle_spec align key tail initval :
  Forall is_byte (key ++ tail) -> (3 <= length tail)%nat ->
  hashlittle align (key ++ tail) (length key) initval = hashlittle_ref key initval.
Proof.
  intros Hb Ht. unfold hashlittle_ref, hashlittle. change (Z.land 1 3 =? 0) with false.
  change (Z.land 1 1 =? 0) with false. cbv iota.
  set (x := uint32 _).
  destruct (Z.land align 3 =? 0); [|destruct (Z.land align 1 =? 0)].
  - destruct (hash_blocks_agree add_block32 (length key) key tail (x, x, x) add_block32_8 Hb)
      as (k & w & -> & -> & Hk & Hb'); [done|]. by apply last_block_agree32.
  - destruct (hash_blocks_agree add_block16 (length key) key tail (x, x, x) add_block16_8 Hb)
      as (k & w & -> & -> & Hk & Hb'); [done|]. by apply last_block_agree16.
  - destruct (hash_blocks_agree add_block8 (length key) key tail (x, x, x)) as (k & w & -> & -> & Hk & Hb');
      try done. by apply last_block_agree8.
Qed.


(** Opaque to simplification: proofs use only that it is a function of the key. *)
#[global] Arguments hashlittle_ref : simpl never.
#[global] Arguments hash_str : simpl never.

Lemma hash_str_range seed key : 0 <= hash_str seed key.
Proof. apply size_t_range. Qed.

(** Masking with [hashmask] is the remainder by [hashsize], for the orders a
    table can have. *)
Lemma hashsize_pow n : 0 <= n < 32 -> hashsize n = 2 ^ n.
Proof.
  intros. unfold hashsize. rewrite Z.shiftl_1_l. apply uint32_small.
  split; [apply Z.pow_nonneg; lia|]. apply Z.pow_lt_mono_r; lia.
Qed.

Lemma hashmask_ones n : 0 <= n < 32 -> hashmask n = Z.ones n.
Proof.
  intros. unfold hashmask. rewrite hashsize_pow, Z.ones_equiv by lia.
  pose proof (Z.pow_pos_nonneg 2 n ltac:(lia) ltac:(lia)).
  pose proof (Z.pow_lt_mono_r 2 n 32 ltac:(lia) ltac:(lia) ltac:(lia)).
  rewrite uint32_small; lia.
Qed.

Lemma land_hashmask h n : 0 <= n < 32 -> Z.land h (hashmask n) = h mod hashsize n.
Proof. intros. by rewrite hashmask_ones, hashsize_pow, Z.land_ones by lia. Qed.

Lemma hashsize_pos n : 0 <= n < 32 -> 0 < hashsize n.
Proof. intros. rewrite hashsize_pow by lia. apply Z.pow_pos_nonneg; lia. Qed.

(* ------------------------------------------------------------------ *)
(** ** Properties *)

(** C27. The hash of a key depends on its bytes only: the three bodies of
    [hashlittle] (32-bit, 16-bit and byte reads, chosen by the alignment of the
    key) compute the same value, and the masked reads behind the end of an
    aligned key never influence it. *)
Theorem hashlittle_alignment_independent align align' key tail tail' initval :
  Forall is_byte (key ++ tail) -> (3 <= length tail)%nat ->
  Forall is_byte (key ++ tail') -> (3 <= length tail')%nat ->
  hashlittle align (key ++ tail) (length key) initval =
  hashlittle align' (key ++ tail') (length key) initval.
Proof. intros. by rewrite !hashlittle_spec. Qed.

Lemma hashlittle_alignment_independent_witness :
  hashlittle 0 (lit "status" ++ [0; 77; 78; 79]) 6 5 = hashlittle 2 (lit "status" ++ [0; 1; 2]) 6 5.
Proof.
  apply (hashlittle_alignment_independent 0 2 (lit "status") [0; 77; 78; 79] [0; 1; 2] 5);
    try (vm_compute; lia); repeat constructor; vm_compute; discriminate.
Defined.
