(* ===== verification/Dlist.v ===== *)
(** * Circular doubly linked lists (the [list_t] of jansson/src/hashtable.c)

    A list is its sentinel ([&hashtable->list] or [&hashtable->ordered_list])
    and the [list_t] members of the pairs, named by the pair's identity.
    [dl_rep d xs]: following the links of [d] from the sentinel visits exactly
    the cells [xs], in both directions. *)

From S2P Require Import Prelude.

(** A [list_t *]: the sentinel or the member of a pair. *)
Inductive lptr : Type :=
| Head
| Cell (n : positive).

#[export] Instance lptr_eq_dec : EqDecision lptr.
Proof. solve_decision. Defined.

#[export] Instance Cell_inj : Inj (=) (=) Cell.
Proof. by intros ?? [= ->]. Qed.

Record link := { prev : lptr; next : lptr }.

Record dlist := { dl_head : link; dl_cells : gmap positive link }.

(* ------------------------------------------------------------------ *)
(** ** The code *)

Definition get_link (d : dlist) (p : lptr) : option link :=
  match p with
  | Head => Some (dl_head d)
  | Cell n => dl_cells d !! n
  end.

Definition set_link (d : dlist) (p : lptr) (l : link) : option dlist :=
  match p with
  | Head => Some {| dl_head := l; dl_cells := dl_cells d |}
  | Cell n =>
      match dl_cells d !! n with
      | None => None
      | Some _ => Some {| dl_head := dl_head d; dl_cells := <[n := l]> (dl_cells d) |}
      end
  end.

(** [p->next], [p->prev], [p->next = q], [p->prev = q]; [None] is the access
    through a dangling pointer. *)
Definition get_next (d : dlist) (p : lptr) : option lptr := next <$> get_link d p.
Definition get_prev (d : dlist) (p : lptr) : option lptr := prev <$> get_link d p.
Definition set_next (d : dlist) (p q : lptr) : option dlist :=
  l ← get_link d p; set_link d p {| prev := prev l; next := q |}.
Definition set_prev (d : dlist) (p q : lptr) : option dlist :=
  l ← get_link d p; set_link d p {| prev := q; next := next l |}.

(** [list_init] of a sentinel *)
Definition list_init : dlist := {| dl_head := {| prev := Head; next := Head |}; dl_cells := ∅ |}.

(** [list_init] of the sentinel of a list whose cells stay allocated *)
Definition list_reset (d : dlist) : dlist :=
  {| dl_head := {| prev := Head; next := Head |}; dl_cells := dl_cells d |}.

(** [list_init] of the member of a new pair *)
Definition list_init_cell (d : dlist) (n : positive) : dlist :=
  {| dl_head := dl_head d;
     dl_cells := <[n := {| prev := Cell n; next := Cell n |}]> (dl_cells d) |}.

(** [list_insert(list, node)]: before [list] *)
Definition list_insert (d : dlist) (list node : lptr) : option dlist :=
  d ← set_next d node list;
  p ← get_prev d list;
  d ← set_prev d node p;
  p ← get_prev d list;
  d ← set_next d p node;
  set_prev d list node.

Definition list_remove (d : dlist) (list : lptr) : option dlist :=
  p ← get_prev d list;
  n ← get_next d list;
  d ← set_next d p n;
  n ← get_next d list;
  p ← get_prev d list;
  set_prev d n p.

(** The memory of a pair is freed. *)
Definition free_cell (d : dlist) (n : positive) : dlist :=
  {| dl_head := dl_head d; dl_cells := delete n (dl_cells d) |}.

(* ------------------------------------------------------------------ *)
(** ** The invariant *)

Definition first_of (xs : list positive) : lptr :=
  match xs with [] => Head | x :: _ => Cell x end.
Definition last_of (xs : list positive) : lptr :=
  match last xs with None => Head | Some x => Cell x end.

(** The links of the ring through the sentinel and [xs], as (from, to) pairs. *)
Definition links (xs : list positive) : list (lptr * lptr) :=
  zip (Head :: (Cell <$> xs)) ((Cell <$> xs) ++ [Head]).

Definition linked (d : dlist) (pq : lptr * lptr) : Prop :=
  get_next d pq.1 = Some pq.2 /\ get_prev d pq.2 = Some pq.1.

Definition dl_rep (d : dlist) (xs : list positive) : Prop :=
  NoDup xs /\ Forall (linked d) (links xs).

(** ** Combinatorics of the ring *)

Lemma last_of_snoc xs x : last_of (xs ++ [x]) = Cell x.
Proof. unfold last_of. by rewrite last_snoc. Qed.

Lemma last_of_ne xs m : m ∉ xs -> last_of xs <> Cell m.
Proof.
  unfold last_of. destruct (last xs) eqn:E; [|done]. intros Hm [= ->].
  by apply Hm, last_Some_elem_of.
Qed.
Lemma first_of_ne xs m : m ∉ xs -> first_of xs <> Cell m.
Proof. destruct xs; simpl; [done|]. intros Hm [= ->]. apply Hm, elem_of_cons. by left. Qed.

Lemma split_last xs : exists A, Head :: (Cell <$> xs) = A ++ [last_of xs] /\ length A = length xs.
Proof.
  induction xs as [|x xs _] using rev_ind; [by exists []|].
  exists (Head :: (Cell <$> xs)). rewrite last_of_snoc, fmap_app. simpl.
  rewrite length_fmap, length_app. simpl. split; [done|lia].
Qed.

Lemma split_first xs : exists B, (Cell <$> xs) ++ [Head] = first_of xs :: B /\ length B = length xs.
Proof.
  destruct xs as [|x xs]; [by exists []|]. exists ((Cell <$> xs) ++ [Head]). simpl.
  rewrite length_app, length_fmap. simpl. split; [done|lia].
Qed.

(** The link between [l1] and [l2], and what inserting a cell makes of it. *)
Lemma links_split l1 l2 : exists P1 P2,
  links (l1 ++ l2) = P1 ++ (last_of l1, first_of l2) :: P2 /\
  forall n, links (l1 ++ n :: l2) = P1 ++ (last_of l1, Cell n) :: (Cell n, first_of l2) :: P2.
Proof.
  destruct (split_last l1) as (A & HA & HlA). destruct (split_first l2) as (B & HB & HlB).
  assert (Hl : length A = length (Cell <$> l1)) by (by rewrite length_fmap).
  exists (zip A (Cell <$> l1)), (zip (Cell <$> l2) B). unfold links. split.
  - rewrite fmap_app, app_comm_cons, HA, <- !(assoc_L app). rewrite HB.
    by rewrite zip_with_app by done.
  - intros n. rewrite fmap_app, app_comm_cons, HA, <- !(assoc_L app).
    change ((Cell <$> n :: l2) ++ [Head]) with (Cell n :: ((Cell <$> l2) ++ [Head])).
    rewrite HB. by rewrite zip_with_app by done.
Qed.

Lemma links_fst xs : (links xs).*1 = Head :: (Cell <$> xs).
Proof.
  unfold links. apply fst_zip. simpl. rewrite length_app, length_fmap. simpl. lia.
Qed.
Lemma links_snd xs : (links xs).*2 = (Cell <$> xs) ++ [Head].
Proof.
  unfold links. apply snd_zip. simpl. rewrite length_app, length_fmap. simpl. lia.
Qed.

Lemma NoDup_links_fst xs : NoDup xs -> NoDup (links xs).*1.
Proof.
  rewrite links_fst. intros. constructor; [|by apply NoDup_fmap; [apply _|]].
  intros (y & ? & _)%list_elem_of_fmap. done.
Qed.
Lemma NoDup_links_snd xs : NoDup xs -> NoDup (links xs).*2.
Proof.
  rewrite links_snd. intros. apply NoDup_app. split_and!.
  - by apply NoDup_fmap; [apply _|].
  - intros x (y & -> & _)%list_elem_of_fmap. by intros ?%list_elem_of_singleton.
  - apply NoDup_singleton.
Qed.

(** ** Pointer writes *)

Lemma get_set_link d p l d' q :
  set_link d p l = Some d' -> get_link d' q = if decide (p = q) then Some l else get_link d q.
Proof.
  destruct p as [|n]; simpl.
  - intros [= <-]. by destruct q.
  - destruct (dl_cells d !! n) eqn:E; [|done]. intros [= <-].
    destruct q as [|m]; simpl; [done|]. rewrite lookup_insert.
    by repeat case_decide; simplify_eq.
Qed.

Lemma set_next_spec d p q :
  is_Some (get_link d p) -> exists d', set_next d p q = Some d' /\
    (forall r, get_next d' r = if decide (p = r) then Some q else get_next d r) /\
    (forall r, get_prev d' r = get_prev d r) /\
    (forall r, is_Some (get_link d' r) <-> is_Some (get_link d r)) /\
    dom (dl_cells d') = dom (dl_cells d).
Proof.
  intros [l Hl]. unfold set_next. rewrite Hl. simpl.
  destruct (set_link d p {| prev := prev l; next := q |}) as [d'|] eqn:E.
  - exists d'. split; [done|]. pose proof (fun r => get_set_link _ _ _ _ r E) as H.
    unfold get_next, get_prev. split_and!.
    + intros r. rewrite H. by case_decide.
    + intros r. rewrite H. case_decide; [subst; by rewrite Hl|done].
    + intros r. rewrite H. case_decide; [subst; rewrite Hl; split; eauto|done].
    + destruct p; simpl in *; simplify_eq/=; [done|]. case_match; simplify_eq/=.
      by rewrite dom_insert_lookup_L.
  - destruct p; simpl in *; [done|]. by rewrite Hl in E.
Qed.

Lemma set_prev_spec d p q :
  is_Some (get_link d p) -> exists d', set_prev d p q = Some d' /\
    (forall r, get_prev d' r = if decide (p = r) then Some q else get_prev d r) /\
    (forall r, get_next d' r = get_next d r) /\
    (forall r, is_Some (get_link d' r) <-> is_Some (get_link d r)) /\
    dom (dl_cells d') = dom (dl_cells d).
Proof.
  intros [l Hl]. unfold set_prev. rewrite Hl. simpl.
  destruct (set_link d p {| prev := q; next := next l |}) as [d'|] eqn:E.
  - exists d'. split; [done|]. pose proof (fun r => get_set_link _ _ _ _ r E) as H.
    unfold get_next, get_prev. split_and!.
    + intros r. rewrite H. by case_decide.
    + intros r. rewrite H. case_decide; [subst; by rewrite Hl|done].
    + intros r. rewrite H. case_decide; [subst; rewrite Hl; split; eauto|done].
    + destruct p; simpl in *; simplify_eq/=; [done|]. case_match; simplify_eq/=.
      by rewrite dom_insert_lookup_L.
  - destruct p; simpl in *; [done|]. by rewrite Hl in E.
Qed.

Lemma get_next_is_Some d p q : get_next d p = Some q -> is_Some (get_link d p).
Proof. unfold get_next. destruct (get_link d p); [eauto|done]. Qed.
Lemma get_prev_is_Some d p q : get_prev d p = Some q -> is_Some (get_link d p).
Proof. unfold get_prev. destruct (get_link d p); [eauto|done]. Qed.
#[export] Hint Resolve get_next_is_Some get_prev_is_Some : ripext.

(** The link between two parts of the ring; every other link has another
    source and another target. *)
Lemma dl_rep_split d l1 l2 :
  dl_rep d (l1 ++ l2) ->
  get_next d (last_of l1) = Some (first_of l2) /\ get_prev d (first_of l2) = Some (last_of l1).
Proof.
  intros [_ H]. destruct (links_split l1 l2) as (P1 & P2 & E & _). rewrite E in H.
  apply Forall_app in H as [_ H]. by apply Forall_cons in H as [H _].
Qed.

Lemma links_others l1 l2 P1 P2 :
  NoDup (l1 ++ l2) -> links (l1 ++ l2) = P1 ++ (last_of l1, first_of l2) :: P2 ->
  forall p q, (p, q) ∈ P1 ++ P2 ->
    p <> last_of l1 /\ q <> first_of l2 /\
    (forall n, n ∉ l1 ++ l2 -> p <> Cell n /\ q <> Cell n).
Proof.
  intros Hnd E p q Hpq.
  pose proof (NoDup_links_fst _ Hnd) as H1. pose proof (NoDup_links_snd _ Hnd) as H2.
  pose proof (links_fst (l1 ++ l2)) as F1. pose proof (links_snd (l1 ++ l2)) as F2.
  rewrite E, fmap_app, fmap_cons in H1, H2, F1, F2. simpl in *.
  apply NoDup_app in H1 as (_ & H1 & H1'). apply NoDup_app in H2 as (_ & H2 & H2').
  apply NoDup_cons in H1' as [H1' _]. apply NoDup_cons in H2' as [H2' _].
  assert (Hp : p ∈ P1.*1 ++ P2.*1)
    by (rewrite <- fmap_app; apply (list_elem_of_fmap_2 fst _ _ Hpq)).
  assert (Hq : q ∈ P1.*2 ++ P2.*2)
    by (rewrite <- fmap_app; apply (list_elem_of_fmap_2 snd _ _ Hpq)).
  split_and!.
  - set_solver.
  - set_solver.
  - intros n Hn.
    assert (Hp' : p ∈ Head :: (Cell <$> l1 ++ l2)) by (rewrite <- F1; set_solver).
    assert (Hq' : q ∈ (Cell <$> l1 ++ l2) ++ [Head]) by (rewrite <- F2; set_solver).
    split; intros ->.
    + apply elem_of_cons in Hp' as [?|(m & [= ->] & ?)%list_elem_of_fmap]; done.
    + apply elem_of_app in Hq' as [(m & [= ->] & ?)%list_elem_of_fmap|?%list_elem_of_singleton]; done.
Qed.

Lemma dl_rep_insert d l1 l2 n :
  dl_rep d (l1 ++ l2) -> n ∉ l1 ++ l2 -> is_Some (dl_cells d !! n) ->
  exists d', list_insert d (first_of l2) (Cell n) = Some d' /\ dl_rep d' (l1 ++ n :: l2) /\
    dom (dl_cells d') = dom (dl_cells d) /\
    (forall m, m ∉ l1 ++ n :: l2 -> get_next d' (Cell m) = get_next d (Cell m)).
Proof.
  intros Hrep Hn Hcell. destruct (dl_rep_split d l1 l2 Hrep) as [Hnx Hpv].
  destruct Hrep as [Hnd Hl]. destruct (links_split l1 l2) as (P1 & P2 & E & E').
  pose proof (links_others l1 l2 P1 P2 Hnd E) as Hother.
  rewrite elem_of_app in Hn.
  assert (Hfn : first_of l2 <> Cell n) by auto using first_of_ne.
  assert (Hln : last_of l1 <> Cell n) by auto using last_of_ne.
  unfold list_insert.
  destruct (set_next_spec d (Cell n) (first_of l2)) as (d1 & -> & N1 & V1 & S1 & D1); [done|].
  simpl. rewrite V1, Hpv. simpl.
  destruct (set_prev_spec d1 (Cell n) (last_of l1)) as (d2 & -> & V2 & N2 & S2 & D2);
    [by apply S1|].
  simpl. rewrite V2, V1, Hpv. rewrite decide_False by done. simpl.
  destruct (set_next_spec d2 (last_of l1) (Cell n)) as (d3 & -> & N3 & V3 & S3 & D3);
    [apply S2, S1; eauto with ripext|].
  simpl.
  destruct (set_prev_spec d3 (first_of l2) (Cell n)) as (d4 & -> & V4 & N4 & S4 & D4);
    [apply S3, S2, S1; eauto with ripext|].
  exists d4. split; [done|]. split; [|split; [by rewrite D4, D3, D2, D1|]]; cycle 1.
  { intros m Hm. rewrite elem_of_app, elem_of_cons in Hm.
    assert (last_of l1 <> Cell m) by auto using last_of_ne.
    assert (Cell n <> Cell m) by (intros [= ->]; auto).
    rewrite N4, N3, decide_False, N2, N1, decide_False by done. done. }
  split.
  - rewrite <- Permutation_middle. constructor; [by rewrite elem_of_app|done].
  - rewrite <- elem_of_app in Hn. rewrite E'. rewrite E in Hl. apply Forall_app in Hl as [Hl1 Hl2].
    apply Forall_cons in Hl2 as [_ Hl2].
    assert (Hold : forall pq, pq ∈ P1 ++ P2 -> linked d pq -> linked d4 pq).
    { intros [p q] Hpq [Ha Hb]. simpl in *. destruct (Hother p q Hpq) as (Hp & Hq & Hcell').
      destruct (Hcell' n Hn). split; simpl.
      - rewrite N4, N3, decide_False, N2, N1, decide_False by congruence. done.
      - rewrite V4, decide_False, V3, V2, decide_False, V1 by congruence. done. }
    apply Forall_app. split; [|constructor; [|constructor]].
    + rewrite Forall_forall in Hl1 |- *. intros pq ?. apply Hold; [|by apply Hl1].
      apply elem_of_app. by left.
    + split; simpl; [by rewrite N4, N3, decide_True|].
      rewrite V4, decide_False, V3, V2, decide_True by done. done.
    + split; simpl; [rewrite N4, N3, decide_False, N2, N1, decide_True by done; done|].
      by rewrite V4, decide_True.
    + rewrite Forall_forall in Hl2 |- *. intros pq ?. apply Hold; [|by apply Hl2].
      apply elem_of_app. by right.
Qed.

Lemma dl_rep_remove d l1 n l2 :
  dl_rep d (l1 ++ n :: l2) ->
  exists d', list_remove d (Cell n) = Some d' /\ dl_rep d' (l1 ++ l2) /\
    dom (dl_cells d') = dom (dl_cells d).
Proof.
  intros Hrep.
  destruct (dl_rep_split d l1 (n :: l2) Hrep) as [Hnx1 Hpv1]. simpl in Hnx1, Hpv1.
  destruct (dl_rep_split d (l1 ++ [n]) l2) as [Hnx2 Hpv2].
  { by rewrite <- (assoc_L app). }
  rewrite last_of_snoc in Hnx2, Hpv2.
  destruct Hrep as [Hnd Hl]. destruct (links_split l1 l2) as (P1 & P2 & E & E').
  rewrite E' in Hl.
  assert (Hnd' : NoDup (l1 ++ l2) /\ n ∉ l1 ++ l2).
  { rewrite <- Permutation_middle in Hnd. by apply NoDup_cons in Hnd as [? ?]. }
  destruct Hnd' as [Hnd' Hn].
  pose proof (links_others l1 l2 P1 P2 Hnd' E) as Hother.
  assert (Hln : last_of l1 <> Cell n).
  { apply last_of_ne. rewrite elem_of_app in Hn. auto. }
  unfold list_remove. rewrite Hpv1, Hnx2. simpl.
  destruct (set_next_spec d (last_of l1) (first_of l2)) as (d1 & -> & N1 & V1 & S1 & D1);
    [by eauto with ripext|].
  simpl. rewrite N1, decide_False, Hnx2, V1, Hpv1 by done. simpl.
  destruct (set_prev_spec d1 (first_of l2) (last_of l1)) as (d2 & -> & V2 & N2 & S2 & D2);
    [apply S1; eauto with ripext|].
  exists d2. split; [done|]. split; [|by rewrite D2, D1]. split; [done|].
  rewrite E. apply Forall_app in Hl as [Hl1 Hl2].
  apply Forall_cons in Hl2 as [_ Hl2]. apply Forall_cons in Hl2 as [_ Hl2].
  assert (Hold : forall pq, pq ∈ P1 ++ P2 -> linked d pq -> linked d2 pq).
  { intros [p q] Hpq [Ha Hb]. simpl in *. destruct (Hother p q Hpq) as (Hp & Hq & _).
    split; simpl; [by rewrite N2, N1, decide_False|].
    rewrite V2, decide_False, V1 by congruence. done. }
  apply Forall_app. split; [|constructor].
  - rewrite Forall_forall in Hl1 |- *. intros pq ?. apply Hold; [|by apply Hl1].
    apply elem_of_app. by left.
  - split; simpl; [by rewrite N2, N1, decide_True|by rewrite V2, decide_True].
  - rewrite Forall_forall in Hl2 |- *. intros pq ?. apply Hold; [|by apply Hl2].
    apply elem_of_app. by right.
Qed.

(** Cells that are not in the ring do not matter to it. *)
Lemma dl_rep_other d xs h n :
  dl_rep d xs -> n ∉ xs ->
  dl_rep {| dl_head := dl_head d; dl_cells := partial_alter h n (dl_cells d) |} xs.
Proof.
  intros [Hnd Hl] Hn. split; [done|].
  pose proof (links_fst xs) as F1. pose proof (links_snd xs) as F2.
  rewrite Forall_forall in Hl |- *. intros [p q] Hpq.
  assert (Hp : p <> Cell n).
  { intros ->. apply (list_elem_of_fmap_2 fst) in Hpq. rewrite F1 in Hpq. simpl in Hpq.
    by apply elem_of_cons in Hpq as [?|(m & [= ->] & ?)%list_elem_of_fmap]. }
  assert (Hq : q <> Cell n).
  { intros ->. apply (list_elem_of_fmap_2 snd) in Hpq. rewrite F2 in Hpq. simpl in Hpq.
    by apply elem_of_app in Hpq as [(m & [= ->] & ?)%list_elem_of_fmap|?%list_elem_of_singleton]. }
  specialize (Hl _ Hpq). unfold linked, get_next, get_prev, get_link in *. simpl in *.
  destruct p, q; simpl; rewrite ?lookup_partial_alter_ne by congruence; done.
Qed.

Lemma dl_rep_init_cell d xs n : dl_rep d xs -> n ∉ xs -> dl_rep (list_init_cell d n) xs.
Proof. apply dl_rep_other. Qed.
Lemma dl_rep_free_cell d xs n : dl_rep d xs -> n ∉ xs -> dl_rep (free_cell d n) xs.
Proof. apply dl_rep_other. Qed.

Lemma dl_rep_init : dl_rep list_init [].
Proof. split; [constructor|]. by repeat constructor. Qed.
Lemma dl_rep_reset d : dl_rep (list_reset d) [].
Proof. split; [constructor|]. by repeat constructor. Qed.

(** ** Navigation *)

Lemma dl_rep_next d l1 x l2 :
  dl_rep d (l1 ++ x :: l2) -> get_next d (Cell x) = Some (first_of l2).
Proof.
  intros H. destruct (dl_rep_split d (l1 ++ [x]) l2) as [H1 _]; [by rewrite <- (assoc_L app)|].
  by rewrite last_of_snoc in H1.
Qed.
Lemma dl_rep_prev d l1 x l2 :
  dl_rep d (l1 ++ x :: l2) -> get_prev d (Cell x) = Some (last_of l1).
Proof. intros H. by destruct (dl_rep_split d l1 (x :: l2)) as [_ ?]. Qed.
Lemma dl_rep_first d xs : dl_rep d xs -> get_next d Head = Some (first_of xs).
Proof. intros H. by destruct (dl_rep_split d [] xs). Qed.

Lemma dl_rep_cells d xs x : dl_rep d xs -> x ∈ xs -> is_Some (dl_cells d !! x).
Proof.
  intros H (l1 & l2 & ->)%list_elem_of_split. apply dl_rep_next in H.
  by apply get_next_is_Some in H.
Qed.

Lemma dl_rep_nodup d xs : dl_rep d xs -> NoDup xs.
Proof. by intros []. Qed.
#[export] Hint Resolve dl_rep_nodup dl_rep_init dl_rep_reset : ripext.

(* ------------------------------------------------------------------ *)
(** ** Properties *)

(** [list_insert] and [list_remove] on the circular doubly linked lists are
    inverse and keep both directions of every link: inserting a detached cell
    before any position of a ring and removing it again never dereferences a
    dangling link and restores the sequence of cells. *)
Lemma list_insert_remove d l1 l2 n :
  dl_rep d (l1 ++ l2) -> n ∉ l1 ++ l2 -> is_Some (dl_cells d !! n) ->
  exists d1 d2, list_insert d (first_of l2) (Cell n) = Some d1 /\ dl_rep d1 (l1 ++ n :: l2) /\
    list_remove d1 (Cell n) = Some d2 /\ dl_rep d2 (l1 ++ l2).
Proof.
  intros Hd Hn Hc. destruct (dl_rep_insert d l1 l2 n Hd Hn Hc) as (d1 & E1 & H1 & _).
  destruct (dl_rep_remove d1 l1 n l2 H1) as (d2 & E2 & H2 & _). exists d1, d2. auto.
Qed.
