(* ===== verification/Hashtable.v ===== *)
(** * The hash table (jansson/src/hashtable.c, hashtable.h)

    The table as it is in memory: buckets of pointers into one doubly linked
    list of pairs, in which the pairs of a bucket are adjacent, and a second
    list in insertion order.  A pair is named by the identity of its memory;
    its [list] and [ordered_list] members are the cells of that name of
    [ht_list] and [ht_ordered].  A table is a self-contained value, so
    [hashtable_t] is passed and returned; where the code releases a reference
    to a JSON value ([json_decref]) the operation returns that value and the
    caller, in Value.v, releases it. *)

From stdpp Require Import list_tactics.
From S2P Require Import Prelude Strbuffer Lookup3 Dlist.

(** [json_t *] *)
Abbreviation loc := positive.

(* ------------------------------------------------------------------ *)
(** ** The data *)

Record pair_t := { p_hash : Z; p_key : bytes; p_value : loc }.

Record bucket_t := { b_first : lptr; b_last : lptr }.

Record hashtable_t := {
  ht_size : Z;
  ht_buckets : list bucket_t;
  ht_order : Z;                       (* 2^order buckets *)
  ht_list : dlist;
  ht_ordered : dlist;
  ht_pairs : gmap positive pair_t;    (* the allocated pairs *)
  ht_fresh : positive                 (* an address that was never used *)
}.

Definition INITIAL_HASHTABLE_ORDER : Z := 3.
(** [sizeof(bucket_t)], [offsetof(pair_t, key)] *)
Definition SIZEOF_BUCKET : Z := 16.
Definition OFFSETOF_KEY : Z := 48.

Definition empty_bucket : bucket_t := {| b_first := Head; b_last := Head |}.

(* ------------------------------------------------------------------ *)
(** ** The code *)

Definition bucket_is_empty (b : bucket_t) : bool :=
  bool_decide (b_first b = Head) && bool_decide (b_first b = b_last b).

Definition set_bucket (ht : hashtable_t) (i : nat) (b : bucket_t) : hashtable_t :=
  {| ht_size := ht_size ht; ht_buckets := <[i := b]> (ht_buckets ht); ht_order := ht_order ht;
     ht_list := ht_list ht; ht_ordered := ht_ordered ht; ht_pairs := ht_pairs ht;
     ht_fresh := ht_fresh ht |}.
Definition set_list (ht : hashtable_t) (d : dlist) : hashtable_t :=
  {| ht_size := ht_size ht; ht_buckets := ht_buckets ht; ht_order := ht_order ht;
     ht_list := d; ht_ordered := ht_ordered ht; ht_pairs := ht_pairs ht;
     ht_fresh := ht_fresh ht |}.

(** [insert_to_bucket(hashtable, &hashtable->buckets[i], &pair->list)] *)
Definition insert_to_bucket (ht : hashtable_t) (i : nat) (n : positive) : option hashtable_t :=
  b ← ht_buckets ht !! i;
  if bucket_is_empty b then
    d ← list_insert (ht_list ht) Head (Cell n);
    Some (set_bucket (set_list ht d) i {| b_first := Cell n; b_last := Cell n |})
  else
    d ← list_insert (ht_list ht) (b_first b) (Cell n);
    Some (set_bucket (set_list ht d) i {| b_first := Cell n; b_last := b_last b |}).

(** The [while (1)] of [hashtable_find_pair]. *)
Fixpoint find_pair_loop (fuel : nat) (ht : hashtable_t) (last : lptr) (key : bytes) (hash : Z)
    (lst : lptr) : res (option positive) :=
  match fuel with
  | O => inl OutOfFuel
  | S fuel' =>
      match lst with
      | Head => inl UndefinedBehaviour          (* the sentinel is not a pair *)
      | Cell n =>
          match ht_pairs ht !! n with
          | None => inl UndefinedBehaviour
          | Some pr =>
              if (p_hash pr =? hash) && (strcmp (p_key pr) key =? 0) then inr (Some n)
              else if bool_decide (lst = last) then inr None
              else match get_next (ht_list ht) lst with
                   | None => inl UndefinedBehaviour
                   | Some next => find_pair_loop fuel' ht last key hash next
                   end
          end
      end
  end.

Definition hashtable_find_pair (ht : hashtable_t) (b : bucket_t) (key : bytes) (hash : Z)
    : res (option positive) :=
  if bucket_is_empty b then inr None
  else find_pair_loop (S (size (ht_pairs ht))) ht (b_last b) key hash (b_first b).

(** [&hashtable->buckets[hash & hashmask(order)]] *)
Definition bucket_index (ht : hashtable_t) (hash : Z) : nat :=
  Z.to_nat (Z.land hash (hashmask (ht_order ht))).

(** The pair of a key: bucket lookup and search, as [hashtable_get],
    [hashtable_set], [hashtable_iter_at] and [hashtable_do_del] do it. *)
Definition lookup_pair (ht : hashtable_t) (key : bytes) (hash : Z) : res (option positive) :=
  match ht_buckets ht !! bucket_index ht hash with
  | None => inl UndefinedBehaviour
  | Some b => hashtable_find_pair ht b key hash
  end.

(** The bucket update of [hashtable_do_del]. *)
Definition unlink_from_bucket (ht : hashtable_t) (b : bucket_t) (n : positive) : option bucket_t :=
  if bool_decide (Cell n = b_first b) && bool_decide (Cell n = b_last b) then
    Some empty_bucket
  else if bool_decide (Cell n = b_first b) then
    nx ← get_next (ht_list ht) (Cell n); Some {| b_first := nx; b_last := b_last b |}
  else if bool_decide (Cell n = b_last b) then
    pv ← get_prev (ht_list ht) (Cell n); Some {| b_first := b_first b; b_last := pv |}
  else Some b.

(** [hashtable_do_del]: [None] for -1; the value of the pair is to be released. *)
Definition hashtable_do_del (ht : hashtable_t) (key : bytes) (hash : Z)
    : res (option (hashtable_t * loc)) :=
  match ht_buckets ht !! bucket_index ht hash with
  | None => inl UndefinedBehaviour
  | Some b =>
      match hashtable_find_pair ht b key hash with
      | inl e => inl e
      | inr None => inr None
      | inr (Some n) =>
          match
            pr ← ht_pairs ht !! n;
            b' ← unlink_from_bucket ht b n;
            d ← list_remove (ht_list ht) (Cell n);
            od ← list_remove (ht_ordered ht) (Cell n);
            Some ({| ht_size := size_t (ht_size ht - 1);
                     ht_buckets := <[bucket_index ht hash := b']> (ht_buckets ht);
                     ht_order := ht_order ht;
                     ht_list := free_cell d n; ht_ordered := free_cell od n;
                     ht_pairs := delete n (ht_pairs ht); ht_fresh := ht_fresh ht |},
                  p_value pr)
          with
          | None => inl UndefinedBehaviour
          | Some r => inr (Some r)
          end
      end
  end.

(** The traversal of [hashtable->list] by [hashtable_do_clear]: the values
    released, in that order. *)
Fixpoint do_clear_loop (fuel : nat) (ht : hashtable_t) (lst : lptr) : res (list loc) :=
  match lst with
  | Head => inr []
  | Cell n =>
      match fuel with
      | O => inl OutOfFuel
      | S fuel' =>
          match ht_pairs ht !! n, get_next (ht_list ht) lst with
          | Some pr, Some next =>
              match do_clear_loop fuel' ht next with
              | inl e => inl e
              | inr vs => inr (p_value pr :: vs)
              end
          | _, _ => inl UndefinedBehaviour
          end
      end
  end.
Definition hashtable_do_clear (ht : hashtable_t) : res (list loc) :=
  do_clear_loop (size (ht_pairs ht)) ht (next (dl_head (ht_list ht))).

(** The loop of [hashtable_do_rehash] over the old list. *)
Fixpoint rehash_loop (fuel : nat) (new_size : Z) (ht : hashtable_t) (lst : lptr)
    : res hashtable_t :=
  match lst with
  | Head => inr ht
  | Cell n =>
      match fuel with
      | O => inl OutOfFuel
      | S fuel' =>
          match ht_pairs ht !! n, get_next (ht_list ht) lst with
          | Some pr, Some next =>
              match insert_to_bucket ht (Z.to_nat (p_hash pr mod new_size)) n with
              | None => inl UndefinedBehaviour
              | Some ht' => rehash_loop fuel' new_size ht' next
              end
          | _, _ => inl UndefinedBehaviour
          end
      end
  end.

Definition hashtable_do_rehash (ht : hashtable_t) : AM (Z * hashtable_t) :=
  let new_order := ht_order ht + 1 in
  let new_size := hashsize new_order in
  let* ok := jsonp_malloc (size_t (new_size * SIZEOF_BUCKET)) in
  if ok then
    let lst := next (dl_head (ht_list ht)) in
    let ht1 := {| ht_size := ht_size ht;
                  ht_buckets := replicate (Z.to_nat new_size) empty_bucket;
                  ht_order := new_order; ht_list := list_reset (ht_list ht);
                  ht_ordered := ht_ordered ht; ht_pairs := ht_pairs ht;
                  ht_fresh := ht_fresh ht |} in
    let* ht2 := lift_res (rehash_loop (size (ht_pairs ht)) new_size ht1 lst) in
    ret (0, ht2)
  else ret (-1, ht).

(** [hashtable_init]: [None] for -1. *)
Definition hashtable_init : AM (option hashtable_t) :=
  let n := hashsize INITIAL_HASHTABLE_ORDER in
  let* ok := jsonp_malloc (size_t (n * SIZEOF_BUCKET)) in
  if ok then
    ret (Some {| ht_size := 0; ht_buckets := replicate (Z.to_nat n) empty_bucket;
                 ht_order := INITIAL_HASHTABLE_ORDER; ht_list := list_init;
                 ht_ordered := list_init; ht_pairs := ∅; ht_fresh := 1%positive |})
  else ret None.

(** A new pair for [hashtable_set], linked into both lists. *)
Definition add_pair (ht : hashtable_t) (hash : Z) (key : bytes) (value : loc)
    : option hashtable_t :=
  let n := ht_fresh ht in
  let ht1 := {| ht_size := ht_size ht; ht_buckets := ht_buckets ht; ht_order := ht_order ht;
                ht_list := list_init_cell (ht_list ht) n;
                ht_ordered := list_init_cell (ht_ordered ht) n;
                ht_pairs := <[n := {| p_hash := hash; p_key := key; p_value := value |}]>
                              (ht_pairs ht);
                ht_fresh := Pos.succ n |} in
  ht2 ← insert_to_bucket ht1 (bucket_index ht hash) n;
  od ← list_insert (ht_ordered ht2) Head (Cell n);
  Some {| ht_size := size_t (ht_size ht2 + 1); ht_buckets := ht_buckets ht2;
          ht_order := ht_order ht2; ht_list := ht_list ht2; ht_ordered := od;
          ht_pairs := ht_pairs ht2; ht_fresh := ht_fresh ht2 |}.

(** [pair->value = value], the old value being released *)
Definition replace_value (ht : hashtable_t) (n : positive) (value : loc)
    : option (hashtable_t * loc) :=
  pr ← ht_pairs ht !! n;
  Some ({| ht_size := ht_size ht; ht_buckets := ht_buckets ht; ht_order := ht_order ht;
           ht_list := ht_list ht; ht_ordered := ht_ordered ht;
           ht_pairs := <[n := {| p_hash := p_hash pr; p_key := p_key pr; p_value := value |}]>
                         (ht_pairs ht);
           ht_fresh := ht_fresh ht |}, p_value pr).

(** [hashtable_set]: the result, the table, and the value to release. *)
Definition hashtable_set (seed : Z) (ht : hashtable_t) (key : bytes) (value : loc)
    : AM (Z * hashtable_t * option loc) :=
  let* (r, ht) :=
    (if hashsize (ht_order ht) <=? ht_size ht then hashtable_do_rehash ht else ret (0, ht)) in
  if negb (r =? 0) then ret (-1, ht, None) else
  let hash := hash_str seed key in
  let* found := lift_res (lookup_pair ht key hash) in
  match found with
  | Some n =>
      let* (ht', old) := require (replace_value ht n value) in
      ret (0, ht', Some old)
  | None =>
      let len := Z.of_nat (length key) in
      if SIZE_MAX - OFFSETOF_KEY <=? len then ret (-1, ht, None) else
      let* ok := jsonp_malloc (size_t (OFFSETOF_KEY + len + 1)) in
      if ok then
        let* ht' := require (add_pair ht hash key value) in
        ret (0, ht', None)
      else ret (-1, ht, None)
  end.

Definition hashtable_get (seed : Z) (ht : hashtable_t) (key : bytes) : res (option loc) :=
  match lookup_pair ht key (hash_str seed key) with
  | inl e => inl e
  | inr None => inr None
  | inr (Some n) =>
      match ht_pairs ht !! n with
      | None => inl UndefinedBehaviour
      | Some pr => inr (Some (p_value pr))
      end
  end.

Definition hashtable_del (seed : Z) (ht : hashtable_t) (key : bytes)
    : res (option (hashtable_t * loc)) :=
  hashtable_do_del ht key (hash_str seed key).

(** [hashtable_clear]: the emptied table and the values released. *)
Definition hashtable_clear (ht : hashtable_t) : res (hashtable_t * list loc) :=
  match hashtable_do_clear ht with
  | inl e => inl e
  | inr vs =>
      inr ({| ht_size := 0;
              ht_buckets := (fun _ => empty_bucket) <$> ht_buckets ht;
              ht_order := ht_order ht; ht_list := list_init; ht_ordered := list_init;
              ht_pairs := ∅; ht_fresh := ht_fresh ht |}, vs)
  end.

(** [hashtable_close]: the values released. *)
Definition hashtable_close (ht : hashtable_t) : res (list loc) := hashtable_do_clear ht.

(** Iterators are pointers to [ordered_list] members; [None] is NULL. *)
Definition hashtable_iter_next (ht : hashtable_t) (iter : lptr) : res (option positive) :=
  match get_next (ht_ordered ht) iter with
  | None => inl UndefinedBehaviour
  | Some Head => inr None
  | Some (Cell n) => inr (Some n)
  end.
Definition hashtable_iter (ht : hashtable_t) : res (option positive) :=
  hashtable_iter_next ht Head.
Definition hashtable_iter_at (seed : Z) (ht : hashtable_t) (key : bytes)
    : res (option positive) := lookup_pair ht key (hash_str seed key).
Definition hashtable_iter_key (ht : hashtable_t) (n : positive) : option bytes :=
  p_key <$> ht_pairs ht !! n.
Definition hashtable_iter_value (ht : hashtable_t) (n : positive) : option loc :=
  p_value <$> ht_pairs ht !! n.
Definition hashtable_iter_set (ht : hashtable_t) (n : positive) (value : loc)
    : option (hashtable_t * loc) := replace_value ht n value.

(* ------------------------------------------------------------------ *)
(** ** Buckets as segments of the list

    [bk n] is the index of the bucket cell [n] belongs to: bucket [i] points
    to the first and the last cell of a segment of the list that holds exactly
    the cells of index [i]. *)

Definition bucket_ok (bk : positive -> nat) (xs : list positive) (i : nat) (b : bucket_t) : Prop :=
  exists l1 seg l2, xs = l1 ++ seg ++ l2 /\
    b = {| b_first := first_of seg; b_last := last_of seg |} /\
    Forall (fun n => bk n = i) seg /\ Forall (fun n => bk n <> i) (l1 ++ l2).

Definition buckets_ok (bk : positive -> nat) (xs : list positive) (bs : list bucket_t) : Prop :=
  forall i b, bs !! i = Some b -> bucket_ok bk xs i b.

Lemma last_of_cons_ne x xs : last_of (x :: xs) <> Head.
Proof. unfold last_of. destruct (last (x :: xs)) eqn:E; [done|]. by apply last_None in E. Qed.

Lemma bucket_is_empty_seg seg :
  bucket_is_empty {| b_first := first_of seg; b_last := last_of seg |} = bool_decide (seg = []).
Proof.
  by destruct seg.
Qed.

(** Splitting a list at two places. *)
Lemma app_app_inv {A} (l1 l2 r1 r2 : list A) :
  l1 ++ l2 = r1 ++ r2 ->
  (exists t, r1 = l1 ++ t /\ l2 = t ++ r2) \/ (exists t, l1 = r1 ++ t /\ r2 = t ++ l2).
Proof.
  intros H. apply app_eq_app in H as (t & [[-> ->]|[-> ->]]); eauto.
Qed.

(** A cell inserted in front of a non-empty segment lies outside every
    segment that is disjoint from it. *)
Lemma split_insert (n : positive) (P : positive -> Prop) a s b l1 seg l2 :
  a ++ s ++ b = l1 ++ seg ++ l2 -> seg <> [] ->
  Forall P s -> Forall (fun m => ~ P m) seg ->
  exists a' b', l1 ++ n :: seg ++ l2 = a' ++ s ++ b' /\ a' ++ b' ≡ₚ n :: a ++ b.
Proof.
  intros E Hne Hs Hseg. apply app_app_inv in E as [(t & -> & E)|(t & -> & E)].
  - apply app_app_inv in E as [(u & -> & ->)|(u & -> & E)].
    + exists a, (u ++ n :: seg ++ l2). rewrite <- !(assoc_L app). split; [done|].
      solve_Permutation.
    + destruct u as [|m u].
      * simpl in E. subst b. rewrite app_nil_r. exists a, (n :: seg ++ l2).
        rewrite <- !(assoc_L app). split; [done|]. solve_Permutation.
      * destruct seg as [|m' seg]; [done|]. simplify_eq/=.
        apply Forall_app in Hs as [_ Hs]. by inversion Hs; inversion Hseg.
  - exists (l1 ++ n :: t), b. rewrite <- !(assoc_L app). simpl.
    rewrite E. split; [done|]. solve_Permutation.
Qed.

Lemma split_remove (n : positive) a s b l1 l2 :
  l1 ++ n :: l2 = a ++ s ++ b -> n ∉ s ->
  exists a' b', l1 ++ l2 = a' ++ s ++ b' /\ a ++ b ≡ₚ n :: a' ++ b'.
Proof.
  intros E Hn. apply app_app_inv in E as [(t & -> & E)|(t & -> & E)].
  - destruct t as [|m t]; simplify_eq/=.
    + destruct s as [|m s]; simplify_eq/=.
      * exists l1, l2. rewrite app_nil_r. split; [done|]. solve_Permutation.
      * by destruct Hn; left.
    + exists (l1 ++ t), b. rewrite <- !(assoc_L app). split; [done|]. simpl.
      solve_Permutation.
  - symmetry in E. apply app_app_inv in E as [(u & -> & E)|(u & -> & E)].
    + destruct u as [|m u]; simplify_eq/=.
      * exists a, l2. rewrite app_nil_r. rewrite <- !(assoc_L app). split; [done|].
        solve_Permutation.
      * destruct Hn. rewrite elem_of_app. right. by left.
    + destruct b as [|m b]; [by destruct u|]. exists a, (u ++ l2).
      rewrite <- !(assoc_L app). split; [done|].
      rewrite E. solve_Permutation.
Qed.

(** Two occurrences of the same cell in a list without duplicates. *)
Lemma split_unique (n : positive) l1 l2 l1' l2' :
  NoDup (l1 ++ n :: l2) -> l1 ++ n :: l2 = l1' ++ n :: l2' -> l1 = l1' /\ l2 = l2'.
Proof.
  revert l1'. induction l1 as [|x l1 IH]; intros l1' Hnd E; destruct l1' as [|x' l1'];
    simplify_eq/=; [done| | |].
  - apply NoDup_cons in Hnd as [Hnd _]. destruct Hnd. apply elem_of_app. right. by left.
  - apply NoDup_cons in Hnd as [Hnd _]. destruct Hnd. apply elem_of_app. right. by left.
  - apply NoDup_cons in Hnd as [_ Hnd]. destruct (IH l1' Hnd) as [-> ->]; done.
Qed.

Lemma insert_to_bucket_spec bk ht xs n :
  dl_rep (ht_list ht) xs -> buckets_ok bk xs (ht_buckets ht) ->
  n ∉ xs -> is_Some (dl_cells (ht_list ht) !! n) -> (bk n < length (ht_buckets ht))%nat ->
  exists d bs xs', insert_to_bucket ht (bk n) n =
      Some {| ht_size := ht_size ht; ht_buckets := bs; ht_order := ht_order ht; ht_list := d;
              ht_ordered := ht_ordered ht; ht_pairs := ht_pairs ht; ht_fresh := ht_fresh ht |} /\
    dl_rep d xs' /\ buckets_ok bk xs' bs /\ xs' ≡ₚ n :: xs /\
    length bs = length (ht_buckets ht) /\
    dom (dl_cells d) = dom (dl_cells (ht_list ht)) /\
    (forall m, m ∉ n :: xs -> get_next d (Cell m) = get_next (ht_list ht) (Cell m)).
Proof.
  intros Hd Hbs Hn Hcell Hlt. unfold insert_to_bucket.
  destruct (lookup_lt_is_Some_2 (ht_buckets ht) (bk n) Hlt) as [b Hb]. rewrite Hb. simpl.
  destruct (Hbs _ _ Hb) as (l1 & seg & l2 & -> & -> & Hseg & Hout).
  rewrite bucket_is_empty_seg. destruct seg as [|x seg]; simpl.
  - destruct (dl_rep_insert (ht_list ht) (l1 ++ l2) [] n) as (d & E & Hd' & Hdom & Hfr);
      rewrite ?app_nil_r; try done.
    simpl in E. rewrite E. simpl. eexists _, _, _. split; [reflexivity|].
    simpl in Hfr. split; [done|]. split_and!; [|solve_Permutation|apply length_insert|done|].
    + intros i b. rewrite list_lookup_insert. case_decide.
      * intros [= <-]. destruct_and!. subst i. exists (l1 ++ l2), [n], []. rewrite !app_nil_r. split_and!; try done.
        by constructor.
      * intros Hi. destruct (Hbs i b Hi) as (a & s & c & E' & -> & ? & ?).
        exists a, s, (c ++ [n]). split_and!; try done.
        -- simpl in E'. rewrite E', <- !(assoc_L app). done.
        -- rewrite (assoc_L app). apply Forall_app; split; [done|]. repeat constructor.
           intros <-. apply lookup_lt_Some in Hi. by destruct H.
    + intros m Hm. apply Hfr. rewrite elem_of_app, list_elem_of_singleton. rewrite elem_of_cons in Hm. naive_solver.
  - destruct (dl_rep_insert (ht_list ht) l1 (x :: seg ++ l2) n) as (d & E & Hd' & Hdom & Hfr);
      try done.
    simpl in E. rewrite E. simpl. eexists _, _, _. split; [reflexivity|].
    split; [done|]. split_and!; [|solve_Permutation|apply length_insert|done|].
    + intros i b. rewrite list_lookup_insert. case_decide.
      * intros [= <-]. destruct_and!. subst i. exists l1, (n :: x :: seg), l2. split_and!; try done.
        by constructor.
      * intros Hi. destruct (Hbs i b Hi) as (a & s & c & E' & -> & Hs & Hac).
        assert (Hni : bk n <> i).
        { intros <-. apply lookup_lt_Some in Hi. destruct H. done. }
        destruct (split_insert n (fun m => bk m = i) a s c l1 (x :: seg) l2)
          as (a' & c' & E'' & Hp); try done.
        { eapply Forall_impl; [exact Hseg|]. simpl. congruence. }
        exists a', s, c'. split_and!; try done. rewrite Hp. by constructor.
    + intros m Hm. apply Hfr. intros Hm'. apply Hm.
      by assert (n :: l1 ++ (x :: seg) ++ l2 ≡ₚ l1 ++ n :: x :: seg ++ l2) as -> by solve_Permutation.
Qed.

(** The pair of a key within a segment. *)
Lemma find_pair_loop_spec ht xs l1 s1 n s2 l2 key hash fuel :
  dl_rep (ht_list ht) xs -> xs = l1 ++ (s1 ++ n :: s2) ++ l2 ->
  Forall (fun m => is_Some (ht_pairs ht !! m)) (n :: s2) -> (length s2 < fuel)%nat ->
  exists o, find_pair_loop fuel ht (last_of (s1 ++ n :: s2)) key hash (Cell n) = inr o /\
    match o with
    | Some m => m ∈ n :: s2 /\ exists pr, ht_pairs ht !! m = Some pr /\ p_hash pr = hash /\ p_key pr = key
    | None => Forall (fun m => forall pr, ht_pairs ht !! m = Some pr -> p_hash pr = hash -> p_key pr <> key) (n :: s2)
    end.
Proof.
  intros Hd ->. revert s1 n fuel Hd. induction s2 as [|n' s2 IH]; intros s1 n fuel Hd HF Hfuel;
    (destruct fuel as [|fuel]; [simpl in Hfuel; lia|]);
    apply Forall_cons in HF as [[pr Hpr] HF]; simpl; rewrite Hpr.
  - rewrite last_of_snoc. destruct (_ && _) eqn:E.
    + apply andb_true_iff in E as [E1%Z.eqb_eq E2%Z.eqb_eq%strcmp_eq].
      exists (Some n). split; [done|]. split; [by left|eauto].
    + rewrite bool_decide_true by done. exists None. split; [done|]. constructor; [|done].
      intros pr' ? Hh Hk. simplify_eq. rewrite Z.eqb_refl in E. simpl in E.
      apply Z.eqb_neq in E. by apply E, strcmp_eq.
  - destruct (_ && _) eqn:E.
    + apply andb_true_iff in E as [E1%Z.eqb_eq E2%Z.eqb_eq%strcmp_eq].
      exists (Some n). split; [done|]. split; [by left|eauto].
    + assert (Hnl : Cell n <> last_of (s1 ++ n :: n' :: s2)).
      { intros Heq. pose proof (dl_rep_nodup _ _ Hd) as Hnd.
        apply NoDup_app in Hnd as (_ & _ & Hnd). apply NoDup_app in Hnd as (Hnd & _ & _).
        apply NoDup_app in Hnd as (_ & _ & Hnd). apply NoDup_cons in Hnd as [Hnd _].
        symmetry in Heq. revert Heq.
        replace (last_of (s1 ++ n :: n' :: s2)) with (last_of (n' :: s2)).
        - by apply last_of_ne.
        - unfold last_of. by rewrite last_app_cons, last_cons_cons. }
      rewrite bool_decide_false by done.
      rewrite (dl_rep_next (ht_list ht) (l1 ++ s1) n ((n' :: s2) ++ l2))
        by (by rewrite <- (assoc_L app) in *).
      simpl first_of. replace (s1 ++ n :: n' :: s2) with ((s1 ++ [n]) ++ n' :: s2)
        by (by rewrite <- (assoc_L app)).
      destruct (IH (s1 ++ [n]) n' fuel) as (o & Eo & Ho).
      * by rewrite <- !(assoc_L app) in *.
      * done.
      * simpl in Hfuel. lia.
      * exists o. split; [done|]. destruct o as [m|].
        -- destruct Ho as [? ?]. split; [by right|done].
        -- constructor; [|done]. intros pr' ? Hh Hk. simplify_eq. rewrite Z.eqb_refl in E.
           simpl in E. apply Z.eqb_neq in E. by apply E, strcmp_eq.
Qed.

(* ------------------------------------------------------------------ *)
(** ** The invariant

    [items] are the pairs in insertion order: the abstract state of the table
    is the association list [kvs items]. *)

Abbreviation items_t := (list (positive * pair_t)).

Definition kv (e : positive * pair_t) : bytes * loc := (p_key e.2, p_value e.2).
Definition kvs (items : items_t) : list (bytes * loc) := kv <$> items.
Definition keys (items : items_t) : list bytes := (fun e => p_key e.2) <$> items.
Definition vals (items : items_t) : list loc := (fun e => p_value e.2) <$> items.

(** The index of the bucket of a pair. *)
Definition pair_bk (pairs : gmap positive pair_t) (order : Z) (n : positive) : nat :=
  match pairs !! n with
  | Some pr => Z.to_nat (Z.land (p_hash pr) (hashmask order))
  | None => O
  end.

Record ht_wf (seed : Z) (ht : hashtable_t) (xs : list positive) (items : items_t) : Prop := {
  wf_list : dl_rep (ht_list ht) xs;
  wf_ordered : dl_rep (ht_ordered ht) items.*1;
  wf_perm : xs ≡ₚ items.*1;
  wf_pairs : forall n pr, ht_pairs ht !! n = Some pr <-> (n, pr) ∈ items;
  wf_fresh : forall n, n ∈ items.*1 -> (n < ht_fresh ht)%positive;
  wf_size : ht_size ht = Z.of_nat (length items);
  wf_max : ht_size ht <= 2 ^ 31;
  wf_order : 3 <= ht_order ht <= 31;
  wf_buckets : Z.of_nat (length (ht_buckets ht)) = hashsize (ht_order ht);
  wf_hash : forall n pr, (n, pr) ∈ items -> p_hash pr = hash_str seed (p_key pr);
  wf_keys : NoDup (keys items);
  wf_segs : buckets_ok (pair_bk (ht_pairs ht) (ht_order ht)) xs (ht_buckets ht)
}.

(** The table represents the association list of [items]. *)
Definition ht_rep (seed : Z) (ht : hashtable_t) (items : items_t) : Prop :=
  exists xs, ht_wf seed ht xs items.

(** What the operations do to the association list. *)
Fixpoint alookup {V} (k : bytes) (l : list (bytes * V)) : option V :=
  match l with
  | [] => None
  | (k', v) :: l' => if decide (k' = k) then Some v else alookup k l'
  end.
Fixpoint aset {V} (k : bytes) (v : V) (l : list (bytes * V)) : list (bytes * V) :=
  match l with
  | [] => [(k, v)]
  | (k', v') :: l' => if decide (k' = k) then (k', v) :: l' else (k', v') :: aset k v l'
  end.
Definition adel {V} (k : bytes) (l : list (bytes * V)) : list (bytes * V) :=
  filter (fun e => e.1 <> k) l.

(** ** Facts about association lists *)

Lemma keys_kvs items : keys items = (kvs items).*1.
Proof. unfold keys, kvs. rewrite <- list_fmap_compose. by apply list_fmap_ext. Qed.
Lemma vals_kvs items : vals items = (kvs items).*2.
Proof. unfold vals, kvs. rewrite <- list_fmap_compose. by apply list_fmap_ext. Qed.

Section alist.
Context {V : Type}.
Implicit Types (v : V) (l : list (bytes * V)).

Lemma alookup_None k l : alookup k l = None <-> k ∉ l.*1.
Proof.
  induction l as [|[k' v] l IH]; simpl; [split; [by intros _ ?%elem_of_nil|done]|].
  rewrite elem_of_cons. case_decide; naive_solver.
Qed.

Lemma alookup_split k v l1 l2 :
  k ∉ l1.*1 -> alookup k (l1 ++ (k, v) :: l2) = Some v.
Proof.
  induction l1 as [|[k' v'] l1 IH]; simpl; [by rewrite decide_True|].
  rewrite elem_of_cons. intros Hn. rewrite decide_False by naive_solver. naive_solver.
Qed.

Lemma aset_split k v v' l1 l2 :
  k ∉ l1.*1 -> aset k v (l1 ++ (k, v') :: l2) = l1 ++ (k, v) :: l2.
Proof.
  induction l1 as [|[k' w] l1 IH]; simpl; [by rewrite decide_True|].
  rewrite elem_of_cons. intros Hn. rewrite decide_False by naive_solver. f_equal. naive_solver.
Qed.

Lemma aset_new k v l : k ∉ l.*1 -> aset k v l = l ++ [(k, v)].
Proof.
  induction l as [|[k' w] l IH]; simpl; [done|].
  rewrite elem_of_cons. intros Hn. rewrite decide_False by naive_solver. f_equal. naive_solver.
Qed.

Lemma adel_notin k l : k ∉ l.*1 -> adel k l = l.
Proof.
  induction l as [|[k' v] l IH]; unfold adel in *; simpl; [done|].
  rewrite elem_of_cons. intros Hn. rewrite filter_cons_True by (simpl; naive_solver).
  f_equal. naive_solver.
Qed.

Lemma adel_split k v l1 l2 : NoDup (l1 ++ (k, v) :: l2).*1 -> adel k (l1 ++ (k, v) :: l2) = l1 ++ l2.
Proof.
  rewrite fmap_app, fmap_cons. simpl. intros Hnd.
  apply NoDup_app in Hnd as (_ & H1 & H2). apply NoDup_cons in H2 as [H2 _].
  unfold adel. rewrite filter_app, filter_cons_False by (simpl; tauto). fold (adel k l1) (adel k l2).
  rewrite !adel_notin; [done|done|]. intros Hk. apply (H1 k Hk). by left.
Qed.

(** An alookup after an [aset] or an [adel]. *)
Lemma alookup_aset k v l k' :
  alookup k' (aset k v l) = if decide (k = k') then Some v else alookup k' l.
Proof.
  induction l as [|[k1 w] l IH]; simpl; [repeat case_decide; congruence|].
  destruct (decide (k1 = k)) as [->|]; simpl; [repeat case_decide; congruence|].
  rewrite IH. repeat case_decide; congruence.
Qed.

End alist.

(** ** Searching *)

Section searching.
Context (seed : Z) (ht : hashtable_t) (xs : list positive) (items : items_t).
Hypothesis Hwf : ht_wf seed ht xs items.

Lemma elem_of_ids n : n ∈ items.*1 <-> is_Some (ht_pairs ht !! n).
Proof using Hwf.
  rewrite list_elem_of_fmap. split.
  - intros ([n' pr] & -> & H). exists pr. by apply (wf_pairs _ _ _ _ Hwf).
  - intros [pr H]. apply (wf_pairs _ _ _ _ Hwf) in H. by exists (n, pr).
Qed.

Lemma elem_of_xs n : n ∈ xs <-> is_Some (ht_pairs ht !! n).
Proof using Hwf. rewrite (wf_perm _ _ _ _ Hwf). apply elem_of_ids. Qed.

Lemma wf_length : length xs = length items.
Proof using Hwf. rewrite (wf_perm _ _ _ _ Hwf). apply length_fmap. Qed.

Lemma wf_dom : dom (ht_pairs ht) = list_to_set xs.
Proof using Hwf.
  apply set_eq. intros n. by rewrite elem_of_dom, elem_of_list_to_set, elem_of_xs.
Qed.

Lemma size_pairs : size (ht_pairs ht) = length xs.
Proof using Hwf.
  rewrite <- size_dom, wf_dom. apply size_list_to_set. apply (dl_rep_nodup _ _ (wf_list _ _ _ _ Hwf)).
Qed.

Lemma bucket_index_lt hash : (bucket_index ht hash < length (ht_buckets ht))%nat.
Proof using Hwf.
  unfold bucket_index. pose proof (wf_order _ _ _ _ Hwf). pose proof (wf_buckets _ _ _ _ Hwf) as Hb.
  rewrite land_hashmask by lia. pose proof (hashsize_pos (ht_order ht) ltac:(lia)).
  pose proof (Z.mod_pos_bound hash (hashsize (ht_order ht)) ltac:(lia)). lia.
Qed.

Lemma pair_bk_lt n : (pair_bk (ht_pairs ht) (ht_order ht) n < length (ht_buckets ht))%nat.
Proof using Hwf.
  unfold pair_bk. destruct (ht_pairs ht !! n) as [pr|].
  - apply (bucket_index_lt (p_hash pr)).
  - pose proof (bucket_index_lt 0). lia.
Qed.

Lemma find_pair_spec key b :
  ht_buckets ht !! bucket_index ht (hash_str seed key) = Some b ->
  exists o, hashtable_find_pair ht b key (hash_str seed key) = inr o /\
    match o with
    | Some n => exists pr, ht_pairs ht !! n = Some pr /\ p_key pr = key
    | None => key ∉ keys items
    end.
Proof using Hwf.
  intros Hb. destruct (wf_segs _ _ _ _ Hwf _ _ Hb) as (l1 & seg & l2 & E & -> & Hseg & Hout).
  unfold hashtable_find_pair. rewrite bucket_is_empty_seg. simpl.
  assert (Hmiss : Forall (fun m => forall pr, ht_pairs ht !! m = Some pr ->
            p_hash pr = hash_str seed key -> p_key pr <> key) seg -> key ∉ keys items).
  { intros HF (e & -> & He)%list_elem_of_fmap. destruct e as [n pr]. simpl in *.
    pose proof (wf_hash _ _ _ _ Hwf n pr He) as Hh. apply (wf_pairs _ _ _ _ Hwf) in He.
    assert (Hn : n ∈ xs) by (apply elem_of_xs; eauto).
    assert (Hbk : pair_bk (ht_pairs ht) (ht_order ht) n = bucket_index ht (hash_str seed (p_key pr))).
    { unfold pair_bk. by rewrite He, Hh. }
    rewrite Forall_forall in HF. rewrite Forall_forall in Hout.
    rewrite E, !elem_of_app in Hn. setoid_rewrite elem_of_app in Hout.
    destruct Hn as [Hn|[Hn|Hn]]; [by apply (Hout n); auto| |by apply (Hout n); auto].
    by apply (HF n Hn pr He Hh). }
  destruct seg as [|n seg]; simpl.
  - exists None. split; [done|]. apply Hmiss. constructor.
  - destruct (find_pair_loop_spec ht xs l1 [] n seg l2 key (hash_str seed key)
      (S (size (ht_pairs ht)))) as (o & Eo & Ho).
    + apply (wf_list _ _ _ _ Hwf).
    + done.
    + apply Forall_forall. intros m Hm. apply elem_of_xs. rewrite E. rewrite !elem_of_app. by right; left.
    + rewrite size_pairs, E, !length_app. simpl. lia.
    + exists o. split; [done|]. destruct o as [m|]; [naive_solver|by apply Hmiss].
Qed.

Lemma lookup_pair_spec key :
  exists o, lookup_pair ht key (hash_str seed key) = inr o /\
    match o with
    | Some n => exists l1 pr l2, items = (l1 ++ (n, pr) :: l2) /\ p_key pr = key /\
                  ht_pairs ht !! n = Some pr /\ key ∉ keys l1 /\ key ∉ keys l2
    | None => key ∉ keys items
    end.
Proof using Hwf.
  unfold lookup_pair.
  destruct (lookup_lt_is_Some_2 _ _ (bucket_index_lt (hash_str seed key))) as [b Hb]. rewrite Hb.
  destruct (find_pair_spec key b Hb) as (o & -> & Ho). exists o. split; [done|].
  destruct o as [n|]; [|done]. destruct Ho as (pr & Hpr & Hk).
  pose proof Hpr as Hin. apply (wf_pairs _ _ _ _ Hwf), list_elem_of_split in Hin as (l1 & l2 & E).
  exists l1, pr, l2. split_and!; try done.
  - pose proof (wf_keys _ _ _ _ Hwf) as Hnd. rewrite E in Hnd. unfold keys in Hnd.
    rewrite fmap_app in Hnd. apply NoDup_app in Hnd as (_ & Hnd & _).
    intros H. apply (Hnd key H). rewrite <- Hk. by left.
  - pose proof (wf_keys _ _ _ _ Hwf) as Hnd. rewrite E in Hnd. unfold keys in Hnd.
    rewrite fmap_app in Hnd. apply NoDup_app in Hnd as (_ & _ & Hnd). simpl in Hnd.
    rewrite Hk in Hnd. by apply NoDup_cons in Hnd as [? _].
Qed.

(** [hashtable_get] is the lookup in the association list. *)
Lemma hashtable_get_spec key : hashtable_get seed ht key = inr (alookup key (kvs items)).
Proof using Hwf.
  unfold hashtable_get. destruct (lookup_pair_spec key) as (o & -> & Ho). destruct o as [n|].
  - destruct Ho as (l1 & pr & l2 & E & Hk & -> & H1 & _). f_equal. rewrite E. unfold kvs.
    rewrite fmap_app, fmap_cons. unfold kv at 2. simpl. rewrite Hk. symmetry. apply alookup_split.
    by rewrite <- keys_kvs.
  - f_equal. symmetry. apply alookup_None. by rewrite <- keys_kvs.
Qed.

Lemma hashtable_iter_at_spec key :
  exists o, hashtable_iter_at seed ht key = inr o /\
    match o with
    | Some n => exists i pr, items !! i = Some (n, pr) /\ p_key pr = key
    | None => key ∉ keys items
    end.
Proof using Hwf.
  unfold hashtable_iter_at. destruct (lookup_pair_spec key) as (o & -> & Ho). exists o. split; [done|].
  destruct o as [n|]; [|done]. destruct Ho as (l1 & pr & l2 & -> & Hk & _).
  exists (length l1), pr. split; [|done]. by apply list_lookup_middle.
Qed.

(** Iteration visits [items] in order. *)
Lemma hashtable_iter_spec : hashtable_iter ht = inr (items.*1 !! 0%nat).
Proof using Hwf.
  unfold hashtable_iter, hashtable_iter_next. rewrite (dl_rep_first _ _ (wf_ordered _ _ _ _ Hwf)).
  by destruct items.
Qed.

Lemma hashtable_iter_next_spec i n :
  items.*1 !! i = Some n -> hashtable_iter_next ht (Cell n) = inr (items.*1 !! S i).
Proof using Hwf.
  intros Hi. apply list_elem_of_split_length in Hi as (l1 & l2 & E & ->).
  unfold hashtable_iter_next. pose proof (wf_ordered _ _ _ _ Hwf) as Ho. rewrite E in Ho.
  rewrite (dl_rep_next _ _ _ _ Ho), E. rewrite lookup_app_r by lia.
  replace (S (length l1) - length l1)%nat with 1%nat by lia. by destruct l2.
Qed.

Lemma hashtable_iter_at_item i n pr :
  items !! i = Some (n, pr) ->
  hashtable_iter_key ht n = Some (p_key pr) /\ hashtable_iter_value ht n = Some (p_value pr).
Proof using Hwf.
  intros Hi%list_elem_of_lookup_2. apply (wf_pairs _ _ _ _ Hwf) in Hi.
  unfold hashtable_iter_key, hashtable_iter_value. by rewrite Hi.
Qed.
End searching.

(** ** Initialisation, clearing *)

Definition ht_empty (ht : hashtable_t) : Prop := forall seed, ht_rep seed ht [].

Lemma empty_buckets_ok bk bs : Forall (fun b => b = empty_bucket) bs -> buckets_ok bk [] bs.
Proof. intros H i b Hi. rewrite Forall_lookup in H. rewrite (H i b Hi). by exists [], [], []. Qed.

Lemma hashtable_init_spec o :
  wp hashtable_init o (fun r o' => (o = [] -> o' = []) /\
    match r with
    | Some ht => forall seed, ht_rep seed ht []
    | None => o <> []
    end).
Proof.
  unfold hashtable_init. wp_step.
  destruct (jsonp_malloc_cases (size_t (hashsize INITIAL_HASHTABLE_ORDER * SIZEOF_BUCKET)) o)
    as [(o' & E & _ & Ho)|(o' & E & [H|H] & Ho)]; eapply wp_eq; try exact E; cbn beta; try done.
  - split; [done|]. intros seed. exists []. split; simpl; try done; auto with ripext.
    + intros n pr. rewrite lookup_empty. split; [done|]. by intros ?%elem_of_nil.
    + by intros n ?%elem_of_nil.
    + by intros n pr ?%elem_of_nil.
    + constructor.
    + apply empty_buckets_ok. by repeat constructor.
Qed.

Lemma do_clear_loop_spec ht xs l1 l2 fuel :
  dl_rep (ht_list ht) xs -> xs = l1 ++ l2 -> Forall (fun n => is_Some (ht_pairs ht !! n)) l2 ->
  (length l2 <= fuel)%nat ->
  exists vs, do_clear_loop fuel ht (first_of l2) = inr vs /\
    Forall2 (fun n v => p_value <$> ht_pairs ht !! n = Some v) l2 vs.
Proof.
  intros Hd. revert l1 fuel. induction l2 as [|n l2 IH]; intros l1 fuel E HF Hfuel.
  - exists []. by destruct fuel.
  - destruct fuel as [|fuel]; [simpl in Hfuel; lia|]. simpl.
    apply Forall_cons in HF as [[pr Hpr] HF]. rewrite Hpr.
    pose proof Hd as Hd'. rewrite E in Hd'. rewrite (dl_rep_next _ _ _ _ Hd').
    destruct (IH (l1 ++ [n]) fuel) as (vs & -> & Hvs); [by rewrite <- (assoc_L app)|done| |].
    + simpl in Hfuel. lia.
    + exists (p_value pr :: vs). split; [done|]. constructor; [by rewrite Hpr|done].
Qed.

Lemma vals_by_ids (pairs : gmap positive pair_t) (items : items_t) ns vs :
  (forall n pr, (n, pr) ∈ items -> pairs !! n = Some pr) -> ns ≡ₚ items.*1 ->
  Forall2 (fun n v => p_value <$> pairs !! n = Some v) ns vs -> vs ≡ₚ vals items.
Proof.
  intros Hp Hperm HF.
  assert (Hvs : vs = omap (fun n => p_value <$> pairs !! n) ns).
  { clear Hperm. induction HF as [|n v ns vs Hn HF IH]; [done|]. simpl. rewrite Hn. by f_equal. }
  rewrite Hvs. clear HF Hvs. transitivity (omap (fun n => p_value <$> pairs !! n) items.*1).
  - clear -Hperm. induction Hperm as [|x l l' _ IH|x y l|l l' l'' _ IH1 _ IH2]; simpl.
    + done.
    + destruct (p_value <$> pairs !! x); simpl; [by constructor|done].
    + destruct (p_value <$> pairs !! x), (p_value <$> pairs !! y); simpl; try done. constructor.
    + by etransitivity.
  - clear -Hp. induction items as [|[n pr] items IH]; simpl; [done|].
    rewrite (Hp n pr) by (by left). simpl. constructor. apply IH. intros n' pr' ?. apply Hp. by right.
Qed.

Lemma hashtable_do_clear_spec seed ht items :
  ht_rep seed ht items -> exists vs, hashtable_do_clear ht = inr vs /\ vs ≡ₚ vals items.
Proof.
  intros [xs Hwf]. unfold hashtable_do_clear.
  pose proof (dl_rep_first _ _ (wf_list _ _ _ _ Hwf)) as Hf. injection Hf as ->.
  destruct (do_clear_loop_spec ht xs [] xs (size (ht_pairs ht))) as (vs & -> & Hvs).
  - apply (wf_list _ _ _ _ Hwf).
  - done.
  - apply Forall_forall. intros n Hn. by apply (elem_of_xs _ _ _ _ Hwf).
  - by rewrite (size_pairs _ _ _ _ Hwf).
  - exists vs. split; [done|]. eapply vals_by_ids; [|apply (wf_perm _ _ _ _ Hwf)|done].
    intros n pr. apply (wf_pairs _ _ _ _ Hwf).
Qed.

Lemma hashtable_clear_spec seed ht items :
  ht_rep seed ht items ->
  exists ht' vs, hashtable_clear ht = inr (ht', vs) /\ vs ≡ₚ vals items /\
    forall seed', ht_rep seed' ht' [].
Proof.
  intros H. unfold hashtable_clear. destruct (hashtable_do_clear_spec _ _ _ H) as (vs & -> & Hvs).
  destruct H as [xs Hwf]. eexists _, _. split; [reflexivity|]. split; [done|]. intros seed'.
  exists []. split; simpl; try done; auto with ripext.
  - intros n pr. rewrite lookup_empty. split; [done|]. by intros ?%elem_of_nil.
  - by intros n ?%elem_of_nil.
  - apply (wf_order _ _ _ _ Hwf).
  - rewrite length_fmap. apply (wf_buckets _ _ _ _ Hwf).
  - by intros n pr ?%elem_of_nil.
  - constructor.
  - apply empty_buckets_ok, Forall_fmap, Forall_true. done.
Qed.

(** ** Rehashing *)

Lemma rehash_loop_spec d0 new_size fuel ht ys l2 :
  let bk := pair_bk (ht_pairs ht) (ht_order ht) in
  new_size = hashsize (ht_order ht) -> 0 <= ht_order ht < 32 ->
  Z.of_nat (length (ht_buckets ht)) = new_size ->
  dl_rep (ht_list ht) ys -> buckets_ok bk ys (ht_buckets ht) ->
  (exists l1, dl_rep d0 (l1 ++ l2)) ->
  (forall n, n ∉ ys -> get_next (ht_list ht) (Cell n) = get_next d0 (Cell n)) ->
  Forall (fun n => is_Some (ht_pairs ht !! n) /\ n ∉ ys /\ is_Some (dl_cells (ht_list ht) !! n)) l2 ->
  (length l2 <= fuel)%nat ->
  exists d bs ys', rehash_loop fuel new_size ht (first_of l2) =
      inr {| ht_size := ht_size ht; ht_buckets := bs; ht_order := ht_order ht; ht_list := d;
             ht_ordered := ht_ordered ht; ht_pairs := ht_pairs ht; ht_fresh := ht_fresh ht |} /\
    dl_rep d ys' /\ ys' ≡ₚ ys ++ l2 /\ buckets_ok bk ys' bs /\ length bs = length (ht_buckets ht).
Proof.
  intros bk Hns Hord Hlen. revert fuel ht ys bk Hns Hord Hlen.
  induction l2 as [|n l2 IH]; intros fuel ht ys bk Hns Hord Hlen Hd Hbs [l1 Hd0] Hnext HF Hfuel.
  - exists (ht_list ht), (ht_buckets ht), ys. rewrite app_nil_r.
    split; [|done]. destruct ht. by destruct fuel.
  - destruct fuel as [|fuel]; [simpl in Hfuel; lia|]. simpl.
    apply Forall_cons in HF as [([pr Hpr] & Hn & Hc) HF]. rewrite Hpr.
    rewrite Hnext by done. rewrite (dl_rep_next _ _ _ _ Hd0).
    assert (Hbk : Z.to_nat (p_hash pr mod new_size) = bk n).
    { unfold bk, pair_bk. by rewrite Hpr, land_hashmask, Hns. }
    rewrite Hbk.
    destruct (insert_to_bucket_spec bk ht ys n) as (d & bs & ys' & E & Hd' & Hbs' & Hp & Hl & Hdom & Hfr);
      try done.
    { rewrite <- Hbk. pose proof (hashsize_pos (ht_order ht) ltac:(lia)).
      pose proof (Z.mod_pos_bound (p_hash pr) new_size ltac:(lia)). lia. }
    assert (Hnl2 : n ∉ l2).
    { apply dl_rep_nodup, NoDup_app in Hd0 as (_ & _ & Hnd). by apply NoDup_cons in Hnd as [? _]. }
    rewrite E.
    set (ht' := {| ht_size := ht_size ht; ht_buckets := bs; ht_order := ht_order ht; ht_list := d;
              ht_ordered := ht_ordered ht; ht_pairs := ht_pairs ht; ht_fresh := ht_fresh ht |}).
    destruct (IH fuel ht' ys') as (d2 & bs2 & ys2 & E2 & Hd2 & Hp2 & Hbs2 & Hl2); simpl; try done.
    + by rewrite Hl.
    + exists (l1 ++ [n]). by rewrite <- (assoc_L app).
    + intros m Hm. rewrite Hp in Hm. rewrite Hfr by done. apply Hnext.
      rewrite elem_of_cons in Hm. naive_solver.
    + rewrite Forall_forall in HF |- *. intros m Hm. destruct (HF m Hm) as (? & ? & Hcm).
      split; [done|]. split.
      * rewrite Hp, elem_of_cons. intros [->|?]; done.
      * apply elem_of_dom. rewrite Hdom. by apply elem_of_dom.
    + simpl in Hfuel. lia.
    + exists d2, bs2, ys2. split; [done|]. split; [done|]. split; [|simpl in *; naive_solver congruence].
      rewrite Hp2, Hp. solve_Permutation.
Qed.

Lemma hashtable_do_rehash_spec seed ht items o :
  ht_rep seed ht items -> ht_order ht < 31 ->
  wp (hashtable_do_rehash ht) o (fun '(r, ht') o' => (o = [] -> o' = []) /\
    ht_rep seed ht' items /\ ht_size ht' = ht_size ht /\ ht_fresh ht' = ht_fresh ht /\
    (r = 0 \/ r = -1 /\ o <> [])).
Proof.
  intros [xs Hwf] Hord. pose proof (wf_order _ _ _ _ Hwf) as Ho. unfold hashtable_do_rehash. wp_step.
  assert (Hsz : size_t (hashsize (ht_order ht + 1) * SIZEOF_BUCKET) <> 0).
  { rewrite hashsize_pow by lia. unfold SIZEOF_BUCKET. change 16 with (2 ^ 4).
    rewrite <- Z.pow_add_r by lia. rewrite size_t_small.
    - pose proof (Z.pow_pos_nonneg 2 (ht_order ht + 1 + 4)). lia.
    - unfold SIZE_MAX. pose proof (Z.pow_pos_nonneg 2 (ht_order ht + 1 + 4)).
      pose proof (Z.pow_le_mono_r 2 (ht_order ht + 1 + 4) 35 ltac:(lia) ltac:(lia)). lia. }
  destruct (jsonp_malloc_cases (size_t (hashsize (ht_order ht + 1) * SIZEOF_BUCKET)) o)
    as [(o' & E & _ & Ho')|(o' & E & [H|H] & Ho')]; eapply wp_eq; try exact E; cbn beta; try done;
    cycle 1.
  { rewrite wp_ret. split; [done|]. split; [by exists xs|]. auto. }
  cbv beta iota. wp_step. set (ht1 := Build_hashtable_t _ _ _ _ _ _ _).
  pose proof (dl_rep_first _ _ (wf_list _ _ _ _ Hwf)) as Hf. injection Hf as Hf.
  pose proof (hashsize_pos (ht_order ht + 1) ltac:(lia)) as Hpos.
  destruct (rehash_loop_spec (ht_list ht) (hashsize (ht_order ht + 1)) (size (ht_pairs ht)) ht1 [] xs)
    as (d & bs & ys & E2 & Hd & Hp & Hbs & Hl); simpl; try done; try lia.
  - rewrite length_replicate. lia.
  - auto with ripext.
  - apply empty_buckets_ok. by apply Forall_replicate.
  - exists []. apply (wf_list _ _ _ _ Hwf).
  - apply Forall_forall. intros n Hn. split_and!; [by apply (elem_of_xs _ _ _ _ Hwf)| |].
    + apply not_elem_of_nil.
    + by eapply dl_rep_cells; [apply (wf_list _ _ _ _ Hwf)|].
  - by rewrite (size_pairs _ _ _ _ Hwf).
  - rewrite Hf. eapply wp_eq; [unfold lift_res; by rewrite E2|]. rewrite wp_ret.
    split; [done|]. split; [|by auto]. exists ys. destruct Hwf. split; simpl; try done; try lia.
    + by rewrite Hp.
    + rewrite Hl. simpl. rewrite length_replicate. lia.
Qed.

(** ** Replacing a value *)

Lemma bucket_ok_ext bk bk' xs bs :
  (forall n, n ∈ xs -> bk n = bk' n) -> buckets_ok bk xs bs -> buckets_ok bk' xs bs.
Proof.
  intros Hext H i b Hb. destruct (H i b Hb) as (l1 & seg & l2 & -> & -> & H1 & H2).
  setoid_rewrite elem_of_app in Hext. setoid_rewrite elem_of_app in Hext.
  exists l1, seg, l2. split_and!; try done.
  - rewrite Forall_forall in H1 |- *. intros n Hn. rewrite <- Hext; auto.
  - rewrite Forall_forall in H2 |- *. intros n Hn. rewrite <- Hext; [by apply H2|].
    apply elem_of_app in Hn. naive_solver.
Qed.

Lemma replace_value_spec seed ht l1 n pr l2 v :
  ht_rep seed ht (l1 ++ (n, pr) :: l2) ->
  exists ht', replace_value ht n v = Some (ht', p_value pr) /\
    ht_rep seed ht' (l1 ++ (n, {| p_hash := p_hash pr; p_key := p_key pr; p_value := v |}) :: l2) /\
    ht_size ht' = ht_size ht.
Proof.
  intros [xs Hwf].
  assert (Hpr : ht_pairs ht !! n = Some pr).
  { apply (wf_pairs _ _ _ _ Hwf). apply elem_of_app. right. by left. }
  unfold replace_value. rewrite Hpr. simpl. eexists. split; [reflexivity|]. split; [|done].
  pose proof (dl_rep_nodup _ _ (wf_ordered _ _ _ _ Hwf)) as Hnd.
  rewrite fmap_app, fmap_cons in Hnd. simpl in Hnd. apply NoDup_app in Hnd as (_ & Hn1 & Hn2).
  apply NoDup_cons in Hn2 as [Hn2 _].
  assert (Hout : forall m q, (m, q) ∈ l1 \/ (m, q) ∈ l2 -> m <> n).
  { intros m q [Hm|Hm] ->; apply (list_elem_of_fmap_2 fst) in Hm; [|done].
    apply (Hn1 n Hm). by left. }
  exists xs. destruct Hwf as [Hl Ho Hp Hprs Hfr Hsz Hmx Hor Hbu Hha Hke Hse]. split; simpl; try done.
  - by rewrite fmap_app, fmap_cons in *.
  - by rewrite fmap_app, fmap_cons in *.
  - intros m q. specialize (Hprs m q). rewrite elem_of_app, elem_of_cons in *.
    rewrite lookup_insert. case_decide as Hmn; [subst m|].
    + split; [naive_solver|]. intros [Hm|[Hm|Hm]]; [|by simplify_eq|].
      * by destruct (Hout n q (or_introl Hm)).
      * by destruct (Hout n q (or_intror Hm)).
    + rewrite Hprs. naive_solver.
  - by rewrite fmap_app, fmap_cons in *.
  - rewrite Hsz, !length_app. done.
  - intros m q Hm. rewrite elem_of_app, elem_of_cons in Hm. setoid_rewrite elem_of_app in Hha.
    setoid_rewrite elem_of_cons in Hha. destruct Hm as [Hm|[Hm|Hm]]; [eauto| |eauto].
    simplify_eq. simpl. apply (Hha n). by right; left.
  - by unfold keys in *; rewrite fmap_app, fmap_cons in *.
  - eapply bucket_ok_ext; [|exact Hse]. intros m _. unfold pair_bk.
    rewrite lookup_insert. case_decide; [|done]. subst. by rewrite Hpr.
Qed.

(** ** Adding a pair *)

Lemma add_pair_spec seed ht items key v :
  ht_rep seed ht items -> key ∉ keys items -> ht_size ht < 2 ^ 31 ->
  let pr := {| p_hash := hash_str seed key; p_key := key; p_value := v |} in
  exists ht', add_pair ht (hash_str seed key) key v = Some ht' /\
    ht_rep seed ht' (items ++ [(ht_fresh ht, pr)]) /\
    ht_size ht' = ht_size ht + 1.
Proof.
  intros [xs Hwf] Hkey Hmax pr. set (n := ht_fresh ht).
  assert (Hfresh : n ∉ items.*1).
  { intros Hn%(wf_fresh _ _ _ _ Hwf). unfold n in Hn. lia. }
  pose proof (wf_perm _ _ _ _ Hwf) as Hperm.
  assert (Hnx : n ∉ xs) by (by rewrite Hperm).
  pose proof (bucket_index_lt _ _ _ _ Hwf (hash_str seed key)) as Hlt.
  unfold add_pair. fold n. set (ht1 := Build_hashtable_t _ _ _ _ _ _ _).
  set (bk := pair_bk (ht_pairs ht1) (ht_order ht1)).
  assert (Hbkn : bk n = bucket_index ht (hash_str seed key)).
  { unfold bk, pair_bk. simpl. by rewrite lookup_insert_eq. }
  destruct (insert_to_bucket_spec bk ht1 xs n) as (d & bs & xs' & E & Hd & Hbs & Hp & Hl & _ & _);
    simpl; try done.
  - apply dl_rep_init_cell; [apply (wf_list _ _ _ _ Hwf)|done].
  - eapply bucket_ok_ext; [|apply (wf_segs _ _ _ _ Hwf)]. intros m Hm. unfold bk, pair_bk. simpl.
    rewrite lookup_insert_ne; [done|]. by intros <-.
  - rewrite lookup_insert_eq. eauto.
  - by rewrite Hbkn.
  - rewrite <- Hbkn, E. cbv beta iota. simpl.
    destruct (dl_rep_insert (list_init_cell (ht_ordered ht) n) items.*1 [] n)
      as (od & Eo & Ho & _); rewrite ?app_nil_r; simpl; try done.
    { apply dl_rep_init_cell; [apply (wf_ordered _ _ _ _ Hwf)|done]. }
    { rewrite lookup_insert_eq. eauto. }
    simpl in Eo. rewrite Eo. simpl. eexists. split; [reflexivity|].
    destruct Hwf as [Hl' Ho' Hp' Hprs Hfr Hsz Hmx Hor Hbu Hha Hke Hse].
    assert (Hs1 : size_t (ht_size ht + 1) = ht_size ht + 1) by (apply size_t_small; unfold SIZE_MAX; lia).
    split; [|done]. exists xs'. split; simpl; try done.
    + by rewrite fmap_app.
    + rewrite Hp, fmap_app, Hperm. simpl. solve_Permutation.
    + intros m q. rewrite lookup_insert, elem_of_app, list_elem_of_singleton. case_decide as Hmn.
      * subst m. split; [naive_solver|]. intros [Hm|Hm]; [|naive_solver].
        by apply (list_elem_of_fmap_2 fst) in Hm.
      * rewrite Hprs. naive_solver.
    + intros m. rewrite fmap_app, elem_of_app. intros [Hm|Hm%list_elem_of_singleton].
      * specialize (Hfr m Hm). fold n in Hfr. lia.
      * simpl in Hm. subst. lia.
    + rewrite Hs1, length_app. simpl. lia.
    + lia.
    + by rewrite Hl.
    + intros m q. rewrite elem_of_app, list_elem_of_singleton. intros [Hm|Hm]; [by eapply Hha|].
      by simplify_eq.
    + unfold keys. rewrite fmap_app. apply NoDup_app. split_and!; [done| |apply NoDup_singleton].
      intros k Hk Hk'%list_elem_of_singleton. simpl in Hk'. by subst.
Qed.

(** ** [hashtable_set] *)

Definition MAX_KEY : Z := SIZE_MAX - OFFSETOF_KEY.

(** On success the association list is updated and the old value of the key,
    if there was one, is handed out for release; on failure nothing changed,
    and it fails only when an allocation does or the key is too long. *)
Lemma hashtable_set_spec seed ht items key v o :
  ht_rep seed ht items -> ht_size ht < 2 ^ 31 ->
  wp (hashtable_set seed ht key v) o (fun '(r, ht', released) o' => (o = [] -> o' = []) /\
    exists items', ht_rep seed ht' items' /\
    ((r = 0 /\ kvs items' = aset key v (kvs items) /\ released = alookup key (kvs items) /\
      items.*1 `prefix_of` items'.*1 /\ ht_size ht' <= ht_size ht + 1) \/
     (r = -1 /\ items' = items /\ released = None /\ (o <> [] \/ MAX_KEY <= Z.of_nat (length key))))).
Proof.
  intros Hrep Hsize. unfold hashtable_set. wp_step.
  match goal with |- wp ?c _ _ => set (m := c) end.
  assert (Hm : wp m o (fun '(r, ht') o' => (o = [] -> o' = []) /\ ht_rep seed ht' items /\
            ht_size ht' = ht_size ht /\ (r = 0 \/ r = -1 /\ o <> []))).
  { unfold m. case_if; [|rewrite wp_ret; auto].
    eapply wp_mono; [apply (hashtable_do_rehash_spec seed ht items o Hrep)|].
    - destruct Hrep as [xs Hwf]. pose proof (wf_order _ _ _ _ Hwf).
      destruct (Z.eq_dec (ht_order ht) 31) as [Heq|]; [|lia].
      rewrite Heq, hashsize_pow in * by lia. lia.
    - intros [r ht'] o'. naive_solver. }
  clearbody m. eapply wp_mono; [exact Hm|]. clear Hrep Hm.
  intros [r ht1] o1 (Ho1 & Hrep & Hsz & [->|[-> Hoom]]); simpl; cycle 1.
  { rewrite wp_ret. split; [done|]. exists items. split; [done|]. right. auto. }
  wp_step. destruct Hrep as [xs Hwf].
  destruct (lookup_pair_spec seed ht1 xs items Hwf key) as (f & Ef & Hf).
  eapply wp_eq; [unfold lift_res; by rewrite Ef|]. destruct f as [n|]; cbv beta iota.
  - destruct Hf as (l1 & pr & l2 & -> & Hk & Hpr & Hk1 & Hk2).
    destruct (replace_value_spec seed ht1 l1 n pr l2 v) as (ht2 & E2 & Hr2 & Hs2); [by exists xs|].
    wp_step. eapply wp_require; [exact E2|]. cbv beta iota. rewrite wp_ret. split; [done|].
    eexists. split; [exact Hr2|]. left. split_and!; try done.
    + unfold kvs. rewrite !fmap_app, !fmap_cons. unfold kv at 2 5. simpl. rewrite Hk.
      rewrite aset_split; [done|]. by rewrite <- keys_kvs.
    + unfold kvs. rewrite fmap_app, fmap_cons. unfold kv at 2. simpl. rewrite Hk.
      rewrite alookup_split; [done|]. by rewrite <- keys_kvs.
    + by rewrite !fmap_app, !fmap_cons.
    + lia.
  - case_if.
    { rewrite wp_ret. split; [done|]. exists items. split; [by exists xs|]. right. auto. }
    wp_step. pose proof (wf_size _ _ _ _ Hwf).
    assert (Hnz : size_t (OFFSETOF_KEY + Z.of_nat (length key) + 1) <> 0).
    { rewrite size_t_small; unfold OFFSETOF_KEY in *; lia. }
    destruct (jsonp_malloc_cases (size_t (OFFSETOF_KEY + Z.of_nat (length key) + 1)) o1)
      as [(o2 & E2 & _ & Ho2)|(o2 & E2 & [Hz|Hz] & Ho2)]; eapply wp_eq; try exact E2; cbv beta iota;
      [|done|].
    + destruct (add_pair_spec seed ht1 items key v) as (ht2 & E3 & Hr3 & Hs3);
        [by exists xs|done|lia|].
      wp_step. eapply wp_require; [exact E3|]. rewrite wp_ret. split; [auto|].
      eexists. split; [exact Hr3|]. left. split_and!; try done.
      * unfold kvs. rewrite fmap_app. simpl. rewrite aset_new; [done|]. by rewrite <- keys_kvs.
      * symmetry. apply alookup_None. by rewrite <- keys_kvs.
      * rewrite fmap_app. by apply prefix_app_r.
      * lia.
    + rewrite wp_ret. split; [auto|]. exists items. split; [by exists xs|]. right.
      split_and!; try done. left. auto.
Qed.

(** ** [hashtable_del] *)

Lemma unlink_from_bucket_spec ht l1 s1 n s2 l2 :
  dl_rep (ht_list ht) (l1 ++ (s1 ++ n :: s2) ++ l2) ->
  unlink_from_bucket ht {| b_first := first_of (s1 ++ n :: s2); b_last := last_of (s1 ++ n :: s2) |} n =
  Some {| b_first := first_of (s1 ++ s2); b_last := last_of (s1 ++ s2) |}.
Proof.
  intros Hd. pose proof (dl_rep_nodup _ _ Hd) as Hnd.
  apply NoDup_app in Hnd as (_ & _ & Hnd). apply NoDup_app in Hnd as (Hnd & _ & _).
  assert (Hns : n ∉ s1 /\ n ∉ s2).
  { rewrite <- Permutation_middle in Hnd. apply NoDup_cons in Hnd as [Hnd _].
    rewrite elem_of_app in Hnd. tauto. }
  destruct Hns as [Hn1 Hn2]. rewrite <- !(assoc_L app) in Hd. simpl in Hd.
  rewrite (assoc_L app) in Hd.
  assert (Hlast : last_of (s1 ++ n :: s2) = match s2 with [] => Cell n | _ => last_of s2 end).
  { unfold last_of. rewrite last_app_cons. by destruct s2. }
  unfold unlink_from_bucket. simpl. rewrite Hlast. destruct s1 as [|x s1]; simpl.
  - rewrite (bool_decide_true (Cell n = Cell n)) by done. destruct s2 as [|y s2]; simpl.
    + by rewrite bool_decide_true.
    + rewrite bool_decide_false by (intros Heq; by apply (last_of_ne (y :: s2) n)).
      by rewrite (dl_rep_next _ _ _ _ Hd).
  - rewrite (bool_decide_false (Cell n = Cell x)) by (intros [= ->]; apply Hn1; by left). simpl.
    destruct s2 as [|y s2].
    + rewrite bool_decide_true by done. rewrite (dl_rep_prev _ _ _ _ Hd). simpl. rewrite app_nil_r.
      unfold last_of at 1. by rewrite last_app_cons.
    + rewrite bool_decide_false by (intros Heq; by apply (last_of_ne (y :: s2) n)).
      unfold last_of. by rewrite app_comm_cons, last_app_cons.
Qed.

Lemma buckets_ok_remove bk ht l1 n l2 b b' :
  let xs := l1 ++ n :: l2 in
  dl_rep (ht_list ht) xs -> buckets_ok bk xs (ht_buckets ht) ->
  ht_buckets ht !! bk n = Some b -> unlink_from_bucket ht b n = Some b' ->
  buckets_ok bk (l1 ++ l2) (<[bk n := b']> (ht_buckets ht)).
Proof.
  intros xs Hd Hbs Hb Hu i c. rewrite list_lookup_insert. case_decide as Hi.
  - intros [= <-]. destruct Hi as [<- _].
    destruct (Hbs _ _ Hb) as (a & seg & e & E & -> & Hseg & Hout).
    assert (Hin : n ∈ seg).
    { assert (Hn : n ∈ xs) by (apply elem_of_app; right; by left).
      rewrite E, !elem_of_app in Hn. rewrite Forall_forall in Hout.
      setoid_rewrite elem_of_app in Hout. naive_solver. }
    apply list_elem_of_split in Hin as (s1 & s2 & ->).
    unfold xs in *. rewrite E in Hd. rewrite (unlink_from_bucket_spec ht a s1 n s2 e Hd) in Hu.
    injection Hu as <-.
    destruct (split_unique n l1 l2 (a ++ s1) (s2 ++ e)) as [-> ->].
    + rewrite E. by apply dl_rep_nodup in Hd.
    + rewrite E. rewrite <- !(assoc_L app). done.
    + exists a, (s1 ++ s2), e. split_and!; try done.
      * rewrite <- !(assoc_L app). done.
      * apply Forall_app in Hseg as [? Hs]. apply Forall_cons in Hs as [_ ?]. by apply Forall_app.
  - intros Hc. destruct (Hbs _ _ Hc) as (a & seg & e & E & -> & Hseg & Hout).
    assert (Hn : n ∉ seg).
    { intros Hn. rewrite Forall_forall in Hseg. apply Hi. rewrite (Hseg n Hn).
      by apply lookup_lt_Some in Hc. }
    destruct (split_remove n a seg e l1 l2 E Hn) as (a' & e' & E' & Hp).
    exists a', seg, e'. split_and!; try done. rewrite Hp in Hout. by apply Forall_cons in Hout as [_ ?].
Qed.

Lemma hashtable_del_spec seed ht items key :
  ht_rep seed ht items ->
  match hashtable_del seed ht key with
  | inl _ => False
  | inr None => alookup key (kvs items) = None
  | inr (Some (ht', v)) =>
      alookup key (kvs items) = Some v /\ ht_size ht' = ht_size ht - 1 /\
      exists items', ht_rep seed ht' items' /\ kvs items' = adel key (kvs items) /\
        vals items ≡ₚ v :: vals items'
  end.
Proof.
  intros [xs Hwf]. unfold hashtable_del, hashtable_do_del.
  destruct (lookup_pair_spec seed ht xs items Hwf key) as (o & Eo & Ho). unfold lookup_pair in Eo.
  destruct (ht_buckets ht !! bucket_index ht (hash_str seed key)) as [b|] eqn:Eb; [|done].
  rewrite Eo. destruct o as [n|]; cycle 1.
  { apply alookup_None. by rewrite <- keys_kvs. }
  destruct Ho as (i1 & pr & i2 & E & Hk & Hpr & Hk1 & Hk2).
  assert (Hin : n ∈ xs) by (apply (elem_of_xs _ _ _ _ Hwf); eauto).
  assert (Hh : p_hash pr = hash_str seed key).
  { rewrite <- Hk. apply (wf_hash _ _ _ _ Hwf n). by apply (wf_pairs _ _ _ _ Hwf). }
  apply list_elem_of_split in Hin as (l1 & l2 & ->).
  set (bk := pair_bk (ht_pairs ht) (ht_order ht)).
  assert (Hbk : bk n = bucket_index ht (hash_str seed key)) by (unfold bk, pair_bk; by rewrite Hpr, Hh).
  destruct Hwf as [Hl Ho Hp Hprs Hfr Hsz Hmx Hor Hbu Hha Hke Hse]. fold bk in Hse. rewrite Hpr.
  assert (Hu : exists b', unlink_from_bucket ht b n = Some b').
  { unfold unlink_from_bucket. rewrite (dl_rep_next _ _ _ _ Hl), (dl_rep_prev _ _ _ _ Hl).
    simpl. repeat case_match; eauto. }
  destruct Hu as [b' Hu]. simpl. rewrite Hu. simpl.
  destruct (dl_rep_remove _ _ _ _ Hl) as (d & -> & Hd & _). simpl.
  rewrite E in Ho. rewrite fmap_app, fmap_cons in Ho. simpl in Ho.
  destruct (dl_rep_remove _ _ _ _ Ho) as (od & -> & Hod & _). simpl.
  assert (Hnd : n ∉ l1 ++ l2 /\ n ∉ i1.*1 ++ i2.*1).
  { pose proof (dl_rep_nodup _ _ Hl) as Hnd1. pose proof (dl_rep_nodup _ _ Ho) as Hnd2.
    split; [rename Hnd1 into Hnd|rename Hnd2 into Hnd];
      rewrite <- Permutation_middle in Hnd; by apply NoDup_cons in Hnd as [? _]. }
  destruct Hnd as [Hnl Hno].
  assert (Hs1 : size_t (ht_size ht - 1) = ht_size ht - 1).
  { apply size_t_small. rewrite E, length_app in Hsz. simpl in Hsz. unfold SIZE_MAX. lia. }
  assert (Hkv : kvs items = kvs i1 ++ (key, p_value pr) :: kvs i2).
  { rewrite E. unfold kvs. rewrite fmap_app, fmap_cons. unfold kv at 2. simpl. by rewrite Hk. }
  split; [rewrite Hkv; apply alookup_split; by rewrite <- keys_kvs|]. split; [done|].
  exists (i1 ++ i2). split; [exists (l1 ++ l2)|split].
  - rewrite <- fmap_app in Hod, Hno. rewrite <- Hbk. split; simpl.
    + by apply dl_rep_free_cell.
    + by apply dl_rep_free_cell.
    + apply (Permutation_cons_inv (a := n)). rewrite Permutation_middle, Hp, E.
      rewrite !fmap_app, fmap_cons. simpl. solve_Permutation.
    + intros m q. rewrite lookup_delete. specialize (Hprs m q). rewrite E in Hprs.
      rewrite elem_of_app, elem_of_cons in Hprs. rewrite elem_of_app. case_decide as Hmn.
      * subst m. split; [done|]. rewrite <- elem_of_app. by intros ?%(list_elem_of_fmap_2 fst).
      * rewrite Hprs. naive_solver.
    + intros m Hm. apply Hfr. rewrite E, fmap_app, fmap_cons, elem_of_app, elem_of_cons.
      rewrite fmap_app, elem_of_app in Hm. tauto.
    + rewrite Hs1, Hsz, E, !length_app. simpl. lia.
    + lia.
    + done.
    + by rewrite length_insert.
    + intros m q Hm. apply (Hha m). rewrite E, elem_of_app, elem_of_cons.
      rewrite elem_of_app in Hm. tauto.
    + rewrite E in Hke. unfold keys in *. rewrite fmap_app, fmap_cons in Hke. rewrite fmap_app.
      rewrite <- Permutation_middle in Hke. by apply NoDup_cons in Hke as [_ ?].
    + eapply bucket_ok_ext; [|eapply buckets_ok_remove; try done; by rewrite Hbk].
      intros m Hm. unfold bk, pair_bk. rewrite lookup_delete_ne; [done|]. by intros ->.
  - rewrite Hkv, adel_split; [unfold kvs; by rewrite fmap_app|]. by rewrite <- Hkv, <- keys_kvs.
  - rewrite E. unfold vals. rewrite !fmap_app, fmap_cons. simpl. solve_Permutation.
Qed.

(* ------------------------------------------------------------------ *)
(** ** Properties *)

(** A table in which pairs were set, for the witnesses. *)
Definition example_table : option hashtable_t :=
  match (let* h := hashtable_init in
         match h with
         | None => ret None
         | Some ht =>
             let* (_, ht, _) := hashtable_set 7 ht (lit "a") 11 in
             let* (_, ht, _) := hashtable_set 7 ht (lit "b") 12 in
             ret (Some ht)
         end) [] with
  | inr (r, _) => r
  | inl _ => None
  end.

Lemma example_table_rep : exists ht items, example_table = Some ht /\ ht_rep 7 ht items /\
  kvs items = [(lit "a", 11%positive); (lit "b", 12%positive)] /\ ht_size ht = 2.
Proof.
  pose proof (hashtable_init_spec []) as H0. apply wp_inv in H0 as (r0 & o0 & E0 & Ho0 & H0).
  rewrite (Ho0 eq_refl) in E0. destruct r0 as [ht0|]; [|done].
  assert (Hz : ht_size ht0 = 0).
  { destruct (H0 0) as [xs Hwf]. by rewrite (wf_size _ _ _ _ Hwf). }
  pose proof (hashtable_set_spec 7 ht0 [] (lit "a") 11 [] (H0 7) ltac:(lia)) as H1.
  apply wp_inv in H1 as ([[r1 ht1] v1] & o1 & E1 & Ho1 & items1 & Hr1 & H1).
  rewrite (Ho1 eq_refl) in E1. destruct H1 as [(-> & Hk1 & _ & _ & Hs1)|(_ & _ & _ & [?|Hbad])];
    [|done|vm_compute in Hbad; by destruct Hbad].
  pose proof (hashtable_set_spec 7 ht1 items1 (lit "b") 12 [] Hr1 ltac:(lia)) as H2.
  apply wp_inv in H2 as ([[r2 ht2] v2] & o2 & E2 & Ho2 & items2 & Hr2 & H2).
  rewrite (Ho2 eq_refl) in E2. destruct H2 as [(-> & Hk2 & _ & _ & Hs2)|(_ & _ & _ & [?|Hbad])];
    [|done|vm_compute in Hbad; by destruct Hbad].
  exists ht2, items2. unfold example_table. rewrite (bind_inr _ _ _ _ _ E0), (bind_inr _ _ _ _ _ E1).
  rewrite (bind_inr _ _ _ _ _ E2). split; [done|]. rewrite Hk1 in Hk2. split; [done|]. split; [done|].
  destruct Hr2 as [xs Hwf]. rewrite (wf_size _ _ _ _ Hwf).
  rewrite <- (length_fmap kv items2). fold (kvs items2). by rewrite Hk2.
Qed.

(** C17. [hashtable_set] implements the update of an insertion-ordered map, with
    any outcome of its allocations and across rehashing: on success the pairs
    are the old ones with the value of [key] replaced in place or appended, the
    value it displaced is the one handed out for release, and the cells of the
    old pairs stay valid (iterators survive); on failure the map is unchanged;
    it fails only when an allocation fails or the key is within 48 bytes of
    the address space.  It never touches a dangling link. *)
Theorem hashtable_set_correct seed ht items key v o :
  ht_rep seed ht items -> ht_size ht < 2 ^ 31 ->
  exists r ht' released o' items', hashtable_set seed ht key v o = inr ((r, ht', released), o') /\
    ht_rep seed ht' items' /\
    ((r = 0 /\ kvs items' = aset key v (kvs items) /\ released = alookup key (kvs items) /\
      items.*1 `prefix_of` items'.*1) \/
     (r = -1 /\ items' = items /\ released = None /\
      (o <> [] \/ MAX_KEY <= Z.of_nat (length key)))).
Proof.
  intros H Hs. pose proof (hashtable_set_spec seed ht items key v o H Hs) as Hw.
  apply wp_inv in Hw as ([[r ht'] released] & o' & E & _ & items' & Hr & Hc).
  exists r, ht', released, o', items'. split; [done|]. split; [done|]. naive_solver.
Qed.

Lemma hashtable_set_correct_witness : exists ht items,
  example_table = Some ht /\
  exists r ht' released o' items', hashtable_set 7 ht (lit "a") 13 [false] = inr ((r, ht', released), o') /\
    ht_rep 7 ht' items' /\
    ((r = 0 /\ kvs items' = aset (lit "a") 13%positive (kvs items) /\ released = alookup (lit "a") (kvs items) /\
      items.*1 `prefix_of` items'.*1) \/
     (r = -1 /\ items' = items /\ released = None /\
      ([false] <> [] \/ MAX_KEY <= Z.of_nat (length (lit "a"))))).
Proof.
  destruct example_table_rep as (ht & items & E & Hr & _ & Hs). exists ht, items. split; [exact E|].
  apply hashtable_set_correct; [exact Hr|rewrite Hs; reflexivity].
Defined.

(** [hashtable_get], [hashtable_iter] and [hashtable_iter_next] read the
    same map: a lookup returns the value of the key or NULL, and iteration
    visits every pair exactly once, in insertion order, whatever the hash seed
    and however often the table was rehashed. *)
Theorem hashtable_lookup_iterate seed ht items key :
  ht_rep seed ht items ->
  hashtable_get seed ht key = inr (alookup key (kvs items)) /\
  hashtable_iter ht = inr (items.*1 !! 0%nat) /\
  (forall i n pr, items !! i = Some (n, pr) ->
     hashtable_iter_key ht n = Some (p_key pr) /\ hashtable_iter_value ht n = Some (p_value pr) /\
     hashtable_iter_next ht (Cell n) = inr (items.*1 !! S i)) /\
  NoDup (keys items).
Proof.
  intros [xs Hwf]. split_and!.
  - by eapply hashtable_get_spec.
  - by eapply hashtable_iter_spec.
  - intros i n pr Hi. destruct (hashtable_iter_at_item _ _ _ _ Hwf i n pr Hi) as [-> ->].
    split_and!; try done. eapply hashtable_iter_next_spec; [done|]. by rewrite list_lookup_fmap, Hi.
  - apply (wf_keys _ _ _ _ Hwf).
Qed.

(** [hashtable_del] removes exactly the pair of the key, from its bucket
    and from both linked lists, and hands out its value for release; for an
    absent key it returns -1.  The other pairs keep their order. *)
Theorem hashtable_del_correct seed ht items key :
  ht_rep seed ht items ->
  match hashtable_del seed ht key with
  | inl _ => False
  | inr None => alookup key (kvs items) = None
  | inr (Some (ht', v)) =>
      alookup key (kvs items) = Some v /\ ht_size ht' = ht_size ht - 1 /\
      exists items', ht_rep seed ht' items' /\ kvs items' = adel key (kvs items)
  end.
Proof.
  intros H. pose proof (hashtable_del_spec seed ht items key H) as Hd.
  destruct (hashtable_del seed ht key) as [|[[ht' v]|]]; try done.
  destruct Hd as (H1 & H2 & items' & H3 & H4 & _). eauto.
Qed.

