(* ===== verification/Value.v ===== *)
(** * JSON values (jansson/src/value.c, jansson.h, hashtable_seed.c)

    The heap of reference-counted [json_t] objects and the operations of
    value.c, in the state monad [W] over the [world].  A pointer is an
    [option loc]; reading through a pointer that is not allocated fails with
    [UndefinedBehaviour].  The [static] singletons for true, false and null
    live at fixed locations and have the reference count [(size_t)-1].  A node
    whose count dropped to zero stays allocated until its children are
    released, as in [json_delete]. *)

From Stdlib Require Import SpecFloat.
From S2P Require Import Prelude Utf8 Strbuffer Lookup3 Dlist Hashtable.

(** [double]: IEEE 754 binary64 *)
Abbreviation double := spec_float.
Definition DBL_PREC : Z := 53.
Definition DBL_EMAX : Z := 1024.

(* ------------------------------------------------------------------ *)
(** ** The data *)

Record array_t := { a_size : Z; a_entries : Z; a_table : memblock loc }.

(** The struct behind a [json_t], by its [type]. *)
Inductive body : Type :=
| Object (hashtable : hashtable_t)
| Array (array : array_t)
| Str (value : bytes)
| Integer (value : Z)
| Real (value : double)
| True_
| False_
| Null_.

Record node := { refcount : Z; n_body : body }.

Record world := {
  w_heap : gmap loc node;
  w_next : loc;          (* an address that was never used *)
  w_oom : oracle;        (* outcomes of the coming allocations *)
  w_seed : Z;            (* hashtable_seed *)
  w_entropy : Z          (* what the system's sources of randomness give *)
}.

Abbreviation json_ptr := (option loc).
Definition W (A : Type) : Type := ST world A.

Inductive json_type : Type :=
| JSON_OBJECT | JSON_ARRAY | JSON_STRING | JSON_INTEGER | JSON_REAL | JSON_TRUE | JSON_FALSE
| JSON_NULL.

#[export] Instance json_type_eq_dec : EqDecision json_type.
Proof. solve_decision. Defined.

Definition type_of (b : body) : json_type :=
  match b with
  | Object _ => JSON_OBJECT
  | Array _ => JSON_ARRAY
  | Str _ => JSON_STRING
  | Integer _ => JSON_INTEGER
  | Real _ => JSON_REAL
  | True_ => JSON_TRUE
  | False_ => JSON_FALSE
  | Null_ => JSON_NULL
  end.

Definition the_true : loc := 1%positive.
Definition the_false : loc := 2%positive.
Definition the_null : loc := 3%positive.

Definition static_heap : gmap loc node :=
  <[the_true := {| refcount := SIZE_MAX; n_body := True_ |}]>
  (<[the_false := {| refcount := SIZE_MAX; n_body := False_ |}]>
  (<[the_null := {| refcount := SIZE_MAX; n_body := Null_ |}]> ∅)).

(** The world before the first call. *)
Definition world_init (oom : oracle) (entropy : Z) : world :=
  {| w_heap := static_heap; w_next := 4%positive; w_oom := oom; w_seed := 0;
     w_entropy := entropy |}.

(** ** Access to the heap *)

Definition set_heap (h : gmap loc node) (w : world) : world :=
  {| w_heap := h; w_next := w_next w; w_oom := w_oom w; w_seed := w_seed w;
     w_entropy := w_entropy w |}.
Definition set_oom (o : oracle) (w : world) : world :=
  {| w_heap := w_heap w; w_next := w_next w; w_oom := o; w_seed := w_seed w;
     w_entropy := w_entropy w |}.
Definition set_seed (s : Z) (w : world) : world :=
  {| w_heap := w_heap w; w_next := w_next w; w_oom := w_oom w; w_seed := s;
     w_entropy := w_entropy w |}.

(** Run code that only allocates. *)
Definition run_am {A} (m : AM A) : W A := zoom w_oom set_oom m.

Definition deref (l : loc) : W node := fun w => require (w_heap w !! l) w.
Definition put_node (l : loc) (n : node) : W unit :=
  modify (fun w => set_heap (<[l := n]> (w_heap w)) w).
Definition put_body (l : loc) (b : body) : W unit :=
  let* n := deref l in put_node l {| refcount := refcount n; n_body := b |}.
(** [jsonp_free(json)] *)
Definition free_node (l : loc) : W unit :=
  modify (fun w => set_heap (delete l (w_heap w)) w).

(** A new object at a fresh address with [json_init] done. *)
Definition json_init (b : body) : W loc := fun w =>
  inr (w_next w,
       {| w_heap := <[w_next w := {| refcount := 1; n_body := b |}]> (w_heap w);
          w_next := Pos.succ (w_next w); w_oom := w_oom w; w_seed := w_seed w;
          w_entropy := w_entropy w |}).

Definition json_typeof (l : loc) : W json_type := let* n := deref l in ret (type_of (n_body n)).
(** [json_is_object(json)] and the like, with their NULL check *)
Definition json_is (t : json_type) (json : json_ptr) : W bool :=
  match json with
  | None => ret false
  | Some l => let* t' := json_typeof l in ret (bool_decide (t' = t))
  end.

Definition json_to_object (l : loc) : W hashtable_t :=
  let* n := deref l in
  match n_body n with Object ht => ret ht | _ => fail UndefinedBehaviour end.
Definition json_to_array (l : loc) : W array_t :=
  let* n := deref l in
  match n_body n with Array a => ret a | _ => fail UndefinedBehaviour end.
Definition json_to_string (l : loc) : W bytes :=
  let* n := deref l in
  match n_body n with Str s => ret s | _ => fail UndefinedBehaviour end.

(* ------------------------------------------------------------------ *)
(** ** Reference counting and deletion *)

Definition json_incref (json : json_ptr) : W json_ptr :=
  match json with
  | None => ret None
  | Some l =>
      let* n := deref l in
      (if refcount n =? SIZE_MAX then ret tt
       else put_node l {| refcount := size_t (refcount n + 1); n_body := n_body n |}) ;;;
      ret json
  end.

(** [array->table[i]] for [i] below [n] *)
Definition array_items (a : array_t) : option (list loc) :=
  mem_load (a_table a) 0 (Z.to_nat (a_entries a)).

(** [json_delete]; [decref] is the call of [json_decref] on the children. *)
Definition json_delete (decref : loc -> W unit) (l : loc) : W unit :=
  let* n := deref l in
  match n_body n with
  | Object ht => let* vs := lift_res (hashtable_close ht) in iterM decref vs ;;; free_node l
  | Array a => let* vs := require (array_items a) in iterM decref vs ;;; free_node l
  | Str _ | Integer _ | Real _ => free_node l
  | True_ | False_ | Null_ => ret tt
  end.

Fixpoint decref_fuel (fuel : nat) (l : loc) : W unit :=
  match fuel with
  | O => fail OutOfFuel
  | S fuel' =>
      let* n := deref l in
      if refcount n =? SIZE_MAX then ret tt
      else
        let rc := size_t (refcount n - 1) in
        put_node l {| refcount := rc; n_body := n_body n |} ;;;
        if rc =? 0 then json_delete (decref_fuel fuel') l else ret tt
  end.

(** Every nested deletion has a node of its own: the number of nodes bounds
    the depth of the recursion. *)
Definition json_decref (json : json_ptr) : W unit :=
  match json with
  | None => ret tt
  | Some l => let* h := gets w_heap in decref_fuel (S (size h)) l
  end.

Definition release (old : json_ptr) : W unit := json_decref old.

(* ------------------------------------------------------------------ *)
(** ** hashtable_seed.c *)

Definition generate_seed (entropy : Z) : Z :=
  let seed := uint32 entropy in if seed =? 0 then 1 else seed.

Definition json_object_seed (seed : Z) : W unit :=
  let* s := gets w_seed in
  if s =? 0 then
    let* e := gets w_entropy in
    let new_seed := uint32 seed in
    modify (set_seed (if new_seed =? 0 then generate_seed e else new_seed))
  else ret tt.

(* ------------------------------------------------------------------ *)
(** ** Loop detection *)

Definition hex_digit (d : Z) : Z := if d <? 10 then chr "0" + d else chr "a" + (d - 10).

Definition LOOP_KEY_LEN : Z := 19.
(** [snprintf(key, key_size, "%p", json)]: an address prints in hexadecimal *)
Definition snprintf_p (key_size : Z) (l : loc) : bytes :=
  take (Z.to_nat (key_size - 1)) (lit "0x" ++ (hex_digit <$> digits 16 (Zpos l))).

(** The result, the key and the table. *)
Definition jsonp_loop_check (parents : hashtable_t) (json : loc) (key_size : Z)
    : W (Z * bytes * hashtable_t) :=
  let key := snprintf_p key_size json in
  let* seed := gets w_seed in
  let* found := lift_res (hashtable_get seed parents key) in
  match found with
  | Some _ => ret (-1, key, parents)
  | None =>
      let* (r, parents', old) := run_am (hashtable_set seed parents key the_null) in
      json_decref old ;;;
      ret (r, key, parents')
  end.

(** [hashtable_del(parents, loop_key)] *)
Definition parents_del (parents : hashtable_t) (key : bytes) : W hashtable_t :=
  let* seed := gets w_seed in
  let* r := lift_res (hashtable_del seed parents key) in
  match r with
  | None => ret parents
  | Some (parents', old) => json_decref (Some old) ;;; ret parents'
  end.

(** [hashtable_close(&parents_set)] *)
Definition parents_close (parents : hashtable_t) : W unit :=
  let* vs := lift_res (hashtable_close parents) in
  iterM (fun v => json_decref (Some v)) vs.

(* ------------------------------------------------------------------ *)
(** ** Objects *)

Definition SIZEOF_OBJECT : Z := 88.
Definition SIZEOF_ARRAY : Z := 40.
Definition SIZEOF_STRING : Z := 32.
Definition SIZEOF_INTEGER : Z := 24.
Definition SIZEOF_REAL : Z := 24.
Definition SIZEOF_PTR : Z := 8.

Definition json_object : W json_ptr :=
  let* ok := run_am (jsonp_malloc SIZEOF_OBJECT) in
  if ok then
    let* seed := gets w_seed in
    (if seed =? 0 then json_object_seed 0 else ret tt) ;;;
    let* r := run_am hashtable_init in
    match r with
    | None => ret None
    | Some ht => let* l := json_init (Object ht) in ret (Some l)
    end
  else ret None.

Definition json_object_size (json : json_ptr) : W Z :=
  let* isobj := json_is JSON_OBJECT json in
  match json with
  | Some l => if isobj then let* ht := json_to_object l in ret (ht_size ht) else ret 0
  | None => ret 0
  end.

Definition json_object_get (json : json_ptr) (key : option bytes) : W json_ptr :=
  let* isobj := json_is JSON_OBJECT json in
  match key, json with
  | Some k, Some l =>
      if isobj then
        let* ht := json_to_object l in
        let* seed := gets w_seed in
        lift_res (hashtable_get seed ht k)
      else ret None
  | _, _ => ret None
  end.

Definition json_object_set_new_nocheck (json : json_ptr) (key : option bytes) (value : json_ptr)
    : W Z :=
  match value with
  | None => ret (-1)
  | Some v =>
      let* isobj := json_is JSON_OBJECT json in
      match key, json with
      | Some k, Some l =>
          if negb isobj || bool_decide (l = v) then json_decref value ;;; ret (-1)
          else
            let* ht := json_to_object l in
            let* seed := gets w_seed in
            let* (r, ht', old) := run_am (hashtable_set seed ht k v) in
            put_body l (Object ht') ;;;
            release old ;;;
            if negb (r =? 0) then json_decref value ;;; ret (-1) else ret 0
      | _, _ => json_decref value ;;; ret (-1)
      end
  end.

Definition json_object_set_new (json : json_ptr) (key : option bytes) (value : json_ptr) : W Z :=
  match key with
  | Some k =>
      if utf8_check_string k then json_object_set_new_nocheck json key value
      else json_decref value ;;; ret (-1)
  | None => json_decref value ;;; ret (-1)
  end.

(** the inline functions of jansson.h *)
Definition json_object_set (json : json_ptr) (key : option bytes) (value : json_ptr) : W Z :=
  let* v := json_incref value in json_object_set_new json key v.
Definition json_object_set_nocheck (json : json_ptr) (key : option bytes) (value : json_ptr) : W Z :=
  let* v := json_incref value in json_object_set_new_nocheck json key v.

Definition json_object_del (json : json_ptr) (key : option bytes) : W Z :=
  let* isobj := json_is JSON_OBJECT json in
  match key, json with
  | Some k, Some l =>
      if isobj then
        let* ht := json_to_object l in
        let* seed := gets w_seed in
        let* r := lift_res (hashtable_del seed ht k) in
        match r with
        | None => ret (-1)
        | Some (ht', old) => put_body l (Object ht') ;;; release (Some old) ;;; ret 0
        end
      else ret (-1)
  | _, _ => ret (-1)
  end.

Definition json_object_clear (json : json_ptr) : W Z :=
  let* isobj := json_is JSON_OBJECT json in
  match json with
  | Some l =>
      if isobj then
        let* ht := json_to_object l in
        let* (ht', vs) := lift_res (hashtable_clear ht) in
        put_body l (Object ht') ;;;
        iterM (fun v => release (Some v)) vs ;;;
        ret 0
      else ret (-1)
  | None => ret (-1)
  end.

(** Iterators: a pointer to the pair [n] of the table of the object. *)
Definition json_object_iter (json : json_ptr) : W (option positive) :=
  let* isobj := json_is JSON_OBJECT json in
  match json with
  | Some l => if isobj then let* ht := json_to_object l in lift_res (hashtable_iter ht) else ret None
  | None => ret None
  end.

Definition json_object_iter_at (json : json_ptr) (key : option bytes) : W (option positive) :=
  let* isobj := json_is JSON_OBJECT json in
  match key, json with
  | Some k, Some l =>
      if isobj then
        let* ht := json_to_object l in
        let* seed := gets w_seed in
        lift_res (hashtable_iter_at seed ht k)
      else ret None
  | _, _ => ret None
  end.

Definition json_object_iter_next (json : json_ptr) (iter : option positive) : W (option positive) :=
  let* isobj := json_is JSON_OBJECT json in
  match json, iter with
  | Some l, Some n =>
      if isobj then let* ht := json_to_object l in lift_res (hashtable_iter_next ht (Cell n))
      else ret None
  | _, _ => ret None
  end.

(** [json_object_iter_key] and [json_object_iter_value]: the C code finds the
    pair from the iterator alone; the object owns it. *)
Definition json_object_iter_key (l : loc) (iter : option positive) : W (option bytes) :=
  match iter with
  | None => ret None
  | Some n =>
      let* ht := json_to_object l in
      let* k := require (hashtable_iter_key ht n) in ret (Some k)
  end.
Definition json_object_iter_value (l : loc) (iter : option positive) : W json_ptr :=
  match iter with
  | None => ret None
  | Some n =>
      let* ht := json_to_object l in
      let* v := require (hashtable_iter_value ht n) in ret (Some v)
  end.

Definition json_object_iter_set_new (json : json_ptr) (iter : option positive) (value : json_ptr)
    : W Z :=
  let* isobj := json_is JSON_OBJECT json in
  match json, iter, value with
  | Some l, Some n, Some v =>
      if isobj then
        let* ht := json_to_object l in
        let* (ht', old) := require (hashtable_iter_set ht n v) in
        put_body l (Object ht') ;;;
        release (Some old) ;;;
        ret 0
      else json_decref value ;;; ret (-1)
  | _, _, _ => json_decref value ;;; ret (-1)
  end.

(** [json_object_key_to_iter]: a key is named by its pair. *)
Definition json_object_key_to_iter (key : option positive) : option positive := key.

(** Enough steps for any loop over an object: keys are only copied between
    objects, so an object never holds more pairs than there are keys. *)
Definition foreach_fuel (h : gmap loc node) : nat :=
  S (map_fold (fun _ n acc => match n_body n with
                              | Object ht => (size (ht_pairs ht) + acc)%nat
                              | _ => acc
                              end) O h).

(** [json_object_foreach(object, key, value) body]: the body stops the loop by
    returning [Some]. *)
Fixpoint object_foreach_loop {A} (fuel : nat) (l : loc) (f : bytes -> loc -> W (option A))
    (iter : option positive) : W (option A) :=
  match iter with
  | None => ret None
  | Some _ =>
      match fuel with
      | O => fail OutOfFuel
      | S fuel' =>
          let* key := json_object_iter_key l iter in
          let* value := json_object_iter_value l (json_object_key_to_iter iter) in
          match key, value with
          | Some k, Some v =>
              let* stop := f k v in
              match stop with
              | Some a => ret (Some a)
              | None =>
                  let* iter' := json_object_iter_next (Some l) (json_object_key_to_iter iter) in
                  object_foreach_loop fuel' l f iter'
              end
          | _, _ => ret None
          end
      end
  end.
Definition json_object_foreach {A} (l : loc) (f : bytes -> loc -> W (option A)) : W (option A) :=
  let* h := gets w_heap in
  let* iter := json_object_iter (Some l) in
  object_foreach_loop (foreach_fuel h) l f iter.

Definition json_object_update (object other : json_ptr) : W Z :=
  let* is1 := json_is JSON_OBJECT object in
  let* is2 := json_is JSON_OBJECT other in
  match other with
  | Some o =>
      if is1 && is2 then
        let* r := json_object_foreach o (fun key value =>
          let* r := json_object_set_nocheck object (Some key) (Some value) in
          ret (if negb (r =? 0) then Some tt else None)) in
        ret (match r with Some _ => -1 | None => 0 end)
      else ret (-1)
  | None => ret (-1)
  end.

(** [json_object_update_existing] ([if_found = true]) and
    [json_object_update_missing] *)
Definition update_if (if_found : bool) (object other : json_ptr) : W Z :=
  let* is1 := json_is JSON_OBJECT object in
  let* is2 := json_is JSON_OBJECT other in
  match other with
  | Some o =>
      if is1 && is2 then
        let* _ := json_object_foreach (A := unit) o (fun key value =>
          let* v := json_object_get object (Some key) in
          (if Bool.eqb (bool_decide (is_Some v)) if_found
           then let* _ := json_object_set_nocheck object (Some key) (Some value) in ret tt
           else ret tt) ;;;
          ret None) in
        ret 0
      else ret (-1)
  | None => ret (-1)
  end.
Definition json_object_update_existing (object other : json_ptr) : W Z := update_if true object other.
Definition json_object_update_missing (object other : json_ptr) : W Z := update_if false object other.

(** The loop over the pairs of [o]; [update] is [do_object_update_recursive]. *)
Section update_recursive.
Variable update : json_ptr -> json_ptr -> hashtable_t -> W (Z * hashtable_t).

Fixpoint update_recursive_loop (fuel : nat) (object : json_ptr) (o : loc) (iter : option positive)
    (parents : hashtable_t) : W (Z * hashtable_t) :=
  match iter with
  | None => ret (0, parents)
  | Some _ =>
      match fuel with
      | O => fail OutOfFuel
      | S fuel' =>
          let* key := json_object_iter_key o iter in
          let* value := json_object_iter_value o (json_object_key_to_iter iter) in
          match value with
          | None => ret (0, parents)
          | Some _ =>
              let* v := json_object_get object key in
              let* isv := json_is JSON_OBJECT v in
              let* isvalue := json_is JSON_OBJECT value in
              let* (r, parents) :=
                (if isv && isvalue then update v value parents
                 else let* r := json_object_set_nocheck object key value in ret (r, parents)) in
              if negb (r =? 0) then ret (-1, parents) else
              let* iter' := json_object_iter_next (Some o) (json_object_key_to_iter iter) in
              update_recursive_loop fuel' object o iter' parents
          end
      end
  end.
End update_recursive.

(** The loop check bounds the depth by the number of objects. *)
Fixpoint do_object_update_recursive (fuel : nat) (object other : json_ptr) (parents : hashtable_t)
    : W (Z * hashtable_t) :=
  match fuel with
  | O => fail OutOfFuel
  | S fuel' =>
      let* is1 := json_is JSON_OBJECT object in
      let* is2 := json_is JSON_OBJECT other in
      match other with
      | Some o =>
          if is1 && is2 then
            let* (r, loop_key, parents) := jsonp_loop_check parents o LOOP_KEY_LEN in
            if negb (r =? 0) then ret (-1, parents) else
            let* h := gets w_heap in
            let* iter := json_object_iter other in
            let* (res, parents) :=
              update_recursive_loop (do_object_update_recursive fuel') (foreach_fuel h) object o iter parents in
            let* parents := parents_del parents loop_key in
            ret (res, parents)
          else ret (-1, parents)
      | None => ret (-1, parents)
      end
  end.

Definition json_object_update_recursive (object other : json_ptr) : W Z :=
  let* p := run_am hashtable_init in
  match p with
  | None => ret (-1)
  | Some parents_set =>
      let* h := gets w_heap in
      let* (res, parents_set) := do_object_update_recursive (S (size h)) object other parents_set in
      parents_close parents_set ;;;
      ret res
  end.

(* ------------------------------------------------------------------ *)
(** ** Arrays *)

Definition json_array : W json_ptr :=
  let* ok := run_am (jsonp_malloc SIZEOF_ARRAY) in
  if ok then
    let size := 8 in
    let* ok' := run_am (jsonp_malloc (size_t (size * SIZEOF_PTR))) in
    if ok' then
      let* l := json_init (Array {| a_size := size; a_entries := 0;
                                    a_table := mem_alloc (Z.to_nat size) |}) in
      ret (Some l)
    else ret None
  else ret None.

Definition json_array_size (json : json_ptr) : W Z :=
  let* isarr := json_is JSON_ARRAY json in
  match json with
  | Some l => if isarr then let* a := json_to_array l in ret (a_entries a) else ret 0
  | None => ret 0
  end.

(** [array->table[index]] *)
Definition table_get (a : array_t) (index : Z) : option loc :=
  mem_load (a_table a) (Z.to_nat index) 1 ≫= head.
(** [array->table[index] = value] *)
Definition table_set (a : array_t) (index : Z) (value : loc) : option array_t :=
  t ← mem_store (a_table a) (Z.to_nat index) [value];
  Some {| a_size := a_size a; a_entries := a_entries a; a_table := t |}.
Definition set_entries (a : array_t) (n : Z) : array_t :=
  {| a_size := a_size a; a_entries := n; a_table := a_table a |}.

Definition json_array_get (json : json_ptr) (index : Z) : W json_ptr :=
  let* isarr := json_is JSON_ARRAY json in
  match json with
  | Some l =>
      if isarr then
        let* a := json_to_array l in
        if a_entries a <=? index then ret None
        else let* v := require (table_get a index) in ret (Some v)
      else ret None
  | None => ret None
  end.

Definition json_array_set_new (json : json_ptr) (index : Z) (value : json_ptr) : W Z :=
  match value with
  | None => ret (-1)
  | Some v =>
      let* isarr := json_is JSON_ARRAY json in
      match json with
      | Some l =>
          if negb isarr || bool_decide (l = v) then json_decref value ;;; ret (-1)
          else
            let* a := json_to_array l in
            if a_entries a <=? index then json_decref value ;;; ret (-1)
            else
              let* old := require (table_get a index) in
              json_decref (Some old) ;;;
              let* a := json_to_array l in
              let* a' := require (table_set a index v) in
              put_body l (Array a') ;;;
              ret 0
      | None => json_decref value ;;; ret (-1)
      end
  end.

(** [memmove(&table[dest], &table[src], count * sizeof(json_t * ))] *)
Definition array_move (a : array_t) (dest src count : Z) : option array_t :=
  xs ← mem_load (a_table a) (Z.to_nat src) (Z.to_nat count);
  t ← mem_store (a_table a) (Z.to_nat dest) xs;
  Some {| a_size := a_size a; a_entries := a_entries a; a_table := t |}.

(** [memcpy(&dest[dpos], &src[spos], count * sizeof(json_t * ))] *)
Definition array_copy (dest : memblock loc) (dpos : Z) (src : memblock loc) (spos count : Z)
    : option (memblock loc) :=
  xs ← mem_load src (Z.to_nat spos) (Z.to_nat count);
  mem_store dest (Z.to_nat dpos) xs.

(** [json_array_grow]: [None] for NULL; otherwise the array and, when the
    returned table is not the array's, that old table. *)
Definition json_array_grow (a : array_t) (amount : Z) (copy : bool)
    : AM (option (array_t * option (memblock loc))) :=
  if size_t (a_entries a + amount) <=? a_size a then ret (Some (a, None))
  else
    let new_size := Z.max (size_t (a_size a + amount)) (size_t (a_size a * 2)) in
    let bytes := size_t (new_size * SIZEOF_PTR) in
    let* ok := jsonp_malloc bytes in
    if ok then
      let new_table := mem_alloc (Z.to_nat (bytes / SIZEOF_PTR)) in
      if copy then
        let* t := require (array_copy new_table 0 (a_table a) 0 (a_entries a)) in
        ret (Some ({| a_size := new_size; a_entries := a_entries a; a_table := t |}, None))
      else
        ret (Some ({| a_size := new_size; a_entries := a_entries a; a_table := new_table |},
                   Some (a_table a)))
    else ret None.

Definition json_array_append_new (json value : json_ptr) : W Z :=
  match value with
  | None => ret (-1)
  | Some v =>
      let* isarr := json_is JSON_ARRAY json in
      match json with
      | Some l =>
          if negb isarr || bool_decide (l = v) then json_decref value ;;; ret (-1)
          else
            let* a := json_to_array l in
            let* g := run_am (json_array_grow a 1 true) in
            match g with
            | None => json_decref value ;;; ret (-1)
            | Some (a, _) =>
                let* a' := require (table_set a (a_entries a) v) in
                put_body l (Array (set_entries a' (size_t (a_entries a' + 1)))) ;;;
                ret 0
            end
      | None => json_decref value ;;; ret (-1)
      end
  end.

Definition json_array_append (json value : json_ptr) : W Z :=
  let* v := json_incref value in json_array_append_new json v.

(** The copies of [json_array_insert_new]. *)
Definition make_room (a : array_t) (old_table : option (memblock loc)) (index : Z) : option array_t :=
  match old_table with
  | Some old =>
      t ← array_copy (a_table a) 0 old 0 index;
      t ← array_copy t (index + 1) old index (a_entries a - index);
      Some {| a_size := a_size a; a_entries := a_entries a; a_table := t |}
  | None => array_move a (index + 1) index (a_entries a - index)
  end.

Definition json_array_insert_new (json : json_ptr) (index : Z) (value : json_ptr) : W Z :=
  match value with
  | None => ret (-1)
  | Some v =>
      let* isarr := json_is JSON_ARRAY json in
      match json with
      | Some l =>
          if negb isarr || bool_decide (l = v) then json_decref value ;;; ret (-1)
          else
            let* a := json_to_array l in
            if a_entries a <? index then json_decref value ;;; ret (-1)
            else
              let* g := run_am (json_array_grow a 1 false) in
              match g with
              | None => json_decref value ;;; ret (-1)
              | Some (a, old_table) =>
                  let* a := require (make_room a old_table index) in
                  let* a := require (table_set a index v) in
                  put_body l (Array (set_entries a (size_t (a_entries a + 1)))) ;;;
                  ret 0
              end
      | None => json_decref value ;;; ret (-1)
      end
  end.

Definition json_array_remove (json : json_ptr) (index : Z) : W Z :=
  let* isarr := json_is JSON_ARRAY json in
  match json with
  | Some l =>
      if isarr then
        let* a := json_to_array l in
        if a_entries a <=? index then ret (-1)
        else
          let* old := require (table_get a index) in
          json_decref (Some old) ;;;
          let* a := json_to_array l in
          let* a := (if index <? a_entries a - 1
                     then require (array_move a index (index + 1) (a_entries a - index - 1))
                     else ret a) in
          put_body l (Array (set_entries a (size_t (a_entries a - 1)))) ;;;
          ret 0
      else ret (-1)
  | None => ret (-1)
  end.

Definition json_array_clear (json : json_ptr) : W Z :=
  let* isarr := json_is JSON_ARRAY json in
  match json with
  | Some l =>
      if isarr then
        let* a := json_to_array l in
        let* vs := require (array_items a) in
        iterM (fun v => json_decref (Some v)) vs ;;;
        let* a := json_to_array l in
        put_body l (Array (set_entries a 0)) ;;;
        ret 0
      else ret (-1)
  | None => ret (-1)
  end.

Definition json_array_extend (json other_json : json_ptr) : W Z :=
  let* is1 := json_is JSON_ARRAY json in
  let* is2 := json_is JSON_ARRAY other_json in
  match json, other_json with
  | Some l, Some o =>
      if is1 && is2 then
        let* a := json_to_array l in
        let* other := json_to_array o in
        let* g := run_am (json_array_grow a (a_entries other) true) in
        match g with
        | None => ret (-1)
        | Some (a, _) =>
            put_body l (Array a) ;;;
            let* other := json_to_array o in
            let* vs := require (array_items other) in
            iterM (fun v => json_incref (Some v) ;;; ret tt) vs ;;;
            let* t := require (array_copy (a_table a) (a_entries a) (a_table other) 0
                                          (a_entries other)) in
            put_body l (Array {| a_size := a_size a;
                                 a_entries := size_t (a_entries a + a_entries other);
                                 a_table := t |}) ;;;
            ret 0
        end
      else ret (-1)
  | _, _ => ret (-1)
  end.

(* ------------------------------------------------------------------ *)
(** ** Strings *)

(** [string_create]: a copied value is duplicated first, an owned one is
    already allocated (and is released when the object cannot be). *)
Definition string_create (value : option bytes) (own : bool) : W json_ptr :=
  match value with
  | None => ret None
  | Some s =>
      let* v := (if own then ret (Some s) else run_am (jsonp_strndup s (length s))) in
      match v with
      | None => ret None
      | Some s' =>
          let* ok := run_am (jsonp_malloc SIZEOF_STRING) in
          if ok then let* l := json_init (Str s') in ret (Some l) else ret None
      end
  end.

(** A C string ends at its first NUL: [strlen] is the length of the list. *)
Definition json_stringn_nocheck (value : option bytes) : W json_ptr := string_create value false.
Definition json_string_nocheck (value : option bytes) : W json_ptr := string_create value false.
Definition jsonp_stringn_nocheck_own (value : option bytes) : W json_ptr := string_create value true.

Definition json_stringn (value : option bytes) : W json_ptr :=
  match value with
  | Some s => if utf8_check_string s then json_stringn_nocheck value else ret None
  | None => ret None
  end.
Definition json_string (value : option bytes) : W json_ptr := json_stringn value.

Definition json_string_value (json : json_ptr) : W (option bytes) :=
  let* isstr := json_is JSON_STRING json in
  match json with
  | Some l => if isstr then let* s := json_to_string l in ret (Some s) else ret None
  | None => ret None
  end.
Definition json_string_length (json : json_ptr) : W Z :=
  let* isstr := json_is JSON_STRING json in
  match json with
  | Some l => if isstr then let* s := json_to_string l in ret (Z.of_nat (length s)) else ret 0
  | None => ret 0
  end.

Definition json_string_setn_nocheck (json : json_ptr) (value : option bytes) : W Z :=
  let* isstr := json_is JSON_STRING json in
  match json, value with
  | Some l, Some s =>
      if isstr then
        let* dup := run_am (jsonp_strndup s (length s)) in
        match dup with
        | None => ret (-1)
        | Some s' => put_body l (Str s') ;;; ret 0
        end
      else ret (-1)
  | _, _ => ret (-1)
  end.
Definition json_string_set_nocheck (json : json_ptr) (value : option bytes) : W Z :=
  json_string_setn_nocheck json value.
Definition json_string_setn (json : json_ptr) (value : option bytes) : W Z :=
  match value with
  | Some s => if utf8_check_string s then json_string_setn_nocheck json value else ret (-1)
  | None => ret (-1)
  end.
Definition json_string_set (json : json_ptr) (value : option bytes) : W Z :=
  json_string_setn json value.

(** [json_vsprintf], [text] being what [vsnprintf(fmt, ap)] writes. *)
Definition json_vsprintf (text : bytes) : W json_ptr :=
  if (length text =? 0)%nat then json_string (Some [])
  else
    let* ok := run_am (jsonp_malloc (size_t (Z.of_nat (length text) + 1))) in
    if ok then
      if utf8_check_string text then jsonp_stringn_nocheck_own (Some text) else ret None
    else ret None.

(* ------------------------------------------------------------------ *)
(** ** Numbers and singletons *)

Definition json_integer (value : Z) : W json_ptr :=
  let* ok := run_am (jsonp_malloc SIZEOF_INTEGER) in
  if ok then let* l := json_init (Integer value) in ret (Some l) else ret None.

Definition json_integer_value (json : json_ptr) : W Z :=
  match json with
  | Some l =>
      let* n := deref l in
      match n_body n with Integer z => ret z | _ => ret 0 end
  | None => ret 0
  end.
Definition json_integer_set (json : json_ptr) (value : Z) : W Z :=
  let* isint := json_is JSON_INTEGER json in
  match json with
  | Some l => if isint then put_body l (Integer value) ;;; ret 0 else ret (-1)
  | None => ret (-1)
  end.

(** [isnan(x) || isinf(x)] *)
Definition not_finite (x : double) : bool :=
  match x with
  | S754_nan | S754_infinity _ => true
  | _ => false
  end.

Definition json_real (value : double) : W json_ptr :=
  if not_finite value then ret None
  else
    let* ok := run_am (jsonp_malloc SIZEOF_REAL) in
    if ok then let* l := json_init (Real value) in ret (Some l) else ret None.

Definition json_real_value (json : json_ptr) : W double :=
  match json with
  | Some l =>
      let* n := deref l in
      match n_body n with Real d => ret d | _ => ret (S754_zero false) end
  | None => ret (S754_zero false)
  end.
Definition json_real_set (json : json_ptr) (value : double) : W Z :=
  let* isreal := json_is JSON_REAL json in
  match json with
  | Some l =>
      if negb isreal || not_finite value then ret (-1) else put_body l (Real value) ;;; ret 0
  | None => ret (-1)
  end.

(** [(double)z]: rounding to nearest, ties to even *)
Definition double_of_int (z : Z) : double := binary_normalize DBL_PREC DBL_EMAX z 0 false.

Definition json_number_value (json : json_ptr) : W double :=
  let* isint := json_is JSON_INTEGER json in
  let* isreal := json_is JSON_REAL json in
  if isint then let* z := json_integer_value json in ret (double_of_int z)
  else if isreal then json_real_value json
  else ret (S754_zero false).

Definition json_true : json_ptr := Some the_true.
Definition json_false : json_ptr := Some the_false.
Definition json_null : json_ptr := Some the_null.

(* ------------------------------------------------------------------ *)
(** ** Equality *)

(** [json_object_equal] and [json_array_equal]; [equal] is [json_equal]. *)
Definition json_object_equal (equal : json_ptr -> json_ptr -> W bool) (object1 object2 : loc)
    : W bool :=
  let* s1 := json_object_size (Some object1) in
  let* s2 := json_object_size (Some object2) in
  if negb (s1 =? s2) then ret false
  else
    let* r := json_object_foreach object1 (fun key value1 =>
      let* value2 := json_object_get (Some object2) (Some key) in
      let* e := equal (Some value1) value2 in
      ret (if negb e then Some tt else None)) in
    ret (match r with Some _ => false | None => true end).

Fixpoint array_equal_loop (equal : json_ptr -> json_ptr -> W bool) (array1 array2 : loc)
    (count : nat) (i : Z) : W bool :=
  match count with
  | O => ret true
  | S count' =>
      let* value1 := json_array_get (Some array1) i in
      let* value2 := json_array_get (Some array2) i in
      let* e := equal value1 value2 in
      if negb e then ret false else array_equal_loop equal array1 array2 count' (i + 1)
  end.
Definition json_array_equal (equal : json_ptr -> json_ptr -> W bool) (array1 array2 : loc)
    : W bool :=
  let* size := json_array_size (Some array1) in
  let* size2 := json_array_size (Some array2) in
  if negb (size =? size2) then ret false
  else array_equal_loop equal array1 array2 (Z.to_nat size) 0.

Definition json_string_equal (string1 string2 : loc) : W bool :=
  let* s1 := json_to_string string1 in
  let* s2 := json_to_string string2 in
  ret (bytes_eqb s1 s2).
Definition json_integer_equal (integer1 integer2 : loc) : W bool :=
  let* z1 := json_integer_value (Some integer1) in
  let* z2 := json_integer_value (Some integer2) in
  ret (z1 =? z2).
Definition json_real_equal (real1 real2 : loc) : W bool :=
  let* d1 := json_real_value (Some real1) in
  let* d2 := json_real_value (Some real2) in
  ret (SFeqb d1 d2).

Fixpoint equal_fuel (fuel : nat) (json1 json2 : json_ptr) : W bool :=
  match fuel with
  | O => fail OutOfFuel
  | S fuel' =>
      match json1, json2 with
      | Some l1, Some l2 =>
          let* t1 := json_typeof l1 in
          let* t2 := json_typeof l2 in
          if negb (bool_decide (t1 = t2)) then ret false
          else if bool_decide (l1 = l2) then ret true
          else
            match t1 with
            | JSON_OBJECT => json_object_equal (equal_fuel fuel') l1 l2
            | JSON_ARRAY => json_array_equal (equal_fuel fuel') l1 l2
            | JSON_STRING => json_string_equal l1 l2
            | JSON_INTEGER => json_integer_equal l1 l2
            | JSON_REAL => json_real_equal l1 l2
            | _ => ret false
            end
      | _, _ => ret false
      end
  end.
(** On acyclic values the depth is at most the number of nodes; on a cyclic
    one the C code recurses without end. *)
Definition json_equal (json1 json2 : json_ptr) : W bool :=
  let* h := gets w_heap in equal_fuel (S (size h)) json1 json2.

(* ------------------------------------------------------------------ *)
(** ** Copies *)

Definition json_string_copy (string : loc) : W json_ptr :=
  let* s := json_to_string string in json_stringn_nocheck (Some s).
Definition json_integer_copy (integer : loc) : W json_ptr :=
  let* z := json_integer_value (Some integer) in json_integer z.
Definition json_real_copy (real : loc) : W json_ptr :=
  let* d := json_real_value (Some real) in json_real d.

Definition json_object_copy (object : loc) : W json_ptr :=
  let* result := json_object in
  match result with
  | None => ret None
  | Some _ =>
      let* _ := json_object_foreach (A := unit) object (fun key value =>
        let* _ := json_object_set_nocheck result (Some key) (Some value) in ret None) in
      ret result
  end.

(** [for (i = 0; i < json_array_size(array); i++) body]: the array is not
    changed by the body, so its size at the start bounds the loop. *)
Fixpoint array_foreach {A} (fuel : nat) (array : loc) (f : Z -> W (option A)) (i : Z)
    : W (option A) :=
  let* n := json_array_size (Some array) in
  if i <? n then
    match fuel with
    | O => fail OutOfFuel
    | S fuel' =>
        let* stop := f i in
        match stop with
        | Some a => ret (Some a)
        | None => array_foreach fuel' array f (i + 1)
        end
    end
  else ret None.

Definition json_array_copy (array : loc) : W json_ptr :=
  let* result := json_array in
  match result with
  | None => ret None
  | Some _ =>
      let* n := json_array_size (Some array) in
      let* _ := array_foreach (A := unit) (Z.to_nat n) array (fun i =>
        let* v := json_array_get (Some array) i in
        let* _ := json_array_append result v in ret None) 0 in
      ret result
  end.

Definition json_copy (json : json_ptr) : W json_ptr :=
  match json with
  | None => ret None
  | Some l =>
      let* t := json_typeof l in
      match t with
      | JSON_OBJECT => json_object_copy l
      | JSON_ARRAY => json_array_copy l
      | JSON_STRING => json_string_copy l
      | JSON_INTEGER => json_integer_copy l
      | JSON_REAL => json_real_copy l
      | JSON_TRUE | JSON_FALSE | JSON_NULL => ret json
      end
  end.

(** Deep copies; [copy] is [do_deep_copy].  A loop returns [false] when it
    broke off. *)
Section deep_copy.
Variable copy : json_ptr -> hashtable_t -> W (json_ptr * hashtable_t).

Fixpoint object_deep_copy_loop (fuel : nat) (object : loc) (result : json_ptr)
    (iter : option positive) (parents : hashtable_t) : W (bool * hashtable_t) :=
  match iter with
  | None => ret (true, parents)
  | Some _ =>
      match fuel with
      | O => fail OutOfFuel
      | S fuel' =>
          let* key := json_object_iter_key object iter in
          let* value := json_object_iter_value object iter in
          let* (c, parents) := copy value parents in
          let* r := json_object_set_new_nocheck result key c in
          if negb (r =? 0) then ret (false, parents)
          else
            let* iter' := json_object_iter_next (Some object) iter in
            object_deep_copy_loop fuel' object result iter' parents
      end
  end.

(** The end of both functions: on failure the result is released. *)
Definition deep_copy_out (result : json_ptr) (ok : bool) (parents : hashtable_t) (loop_key : bytes)
    : W (json_ptr * hashtable_t) :=
  let* result := (if ok then ret result else json_decref result ;;; ret None) in
  let* parents := parents_del parents loop_key in
  ret (result, parents).

Definition json_object_deep_copy (object : loc) (parents : hashtable_t)
    : W (json_ptr * hashtable_t) :=
  let* (r, loop_key, parents) := jsonp_loop_check parents object LOOP_KEY_LEN in
  if negb (r =? 0) then ret (None, parents)
  else
    let* result := json_object in
    match result with
    | None => deep_copy_out None true parents loop_key
    | Some _ =>
        let* h := gets w_heap in
        let* iter := json_object_iter (Some object) in
        let* (ok, parents) := object_deep_copy_loop (foreach_fuel h) object result iter parents in
        deep_copy_out result ok parents loop_key
    end.

Fixpoint array_deep_copy_loop (fuel : nat) (array : loc) (result : json_ptr) (i : Z)
    (parents : hashtable_t) : W (bool * hashtable_t) :=
  let* n := json_array_size (Some array) in
  if i <? n then
    match fuel with
    | O => fail OutOfFuel
    | S fuel' =>
        let* v := json_array_get (Some array) i in
        let* (c, parents) := copy v parents in
        let* r := json_array_append_new result c in
        if negb (r =? 0) then ret (false, parents)
        else array_deep_copy_loop fuel' array result (i + 1) parents
    end
  else ret (true, parents).

Definition json_array_deep_copy (array : loc) (parents : hashtable_t)
    : W (json_ptr * hashtable_t) :=
  let* (r, loop_key, parents) := jsonp_loop_check parents array LOOP_KEY_LEN in
  if negb (r =? 0) then ret (None, parents)
  else
    let* result := json_array in
    match result with
    | None => deep_copy_out None true parents loop_key
    | Some _ =>
        let* n := json_array_size (Some array) in
        let* (ok, parents) := array_deep_copy_loop (Z.to_nat n) array result 0 parents in
        deep_copy_out result ok parents loop_key
    end.
End deep_copy.

Fixpoint do_deep_copy (fuel : nat) (json : json_ptr) (parents : hashtable_t)
    : W (json_ptr * hashtable_t) :=
  match fuel with
  | O => fail OutOfFuel
  | S fuel' =>
      match json with
      | None => ret (None, parents)
      | Some l =>
          let* t := json_typeof l in
          match t with
          | JSON_OBJECT => json_object_deep_copy (do_deep_copy fuel') l parents
          | JSON_ARRAY => json_array_deep_copy (do_deep_copy fuel') l parents
          | JSON_STRING => let* c := json_string_copy l in ret (c, parents)
          | JSON_INTEGER => let* c := json_integer_copy l in ret (c, parents)
          | JSON_REAL => let* c := json_real_copy l in ret (c, parents)
          | JSON_TRUE | JSON_FALSE | JSON_NULL => ret (json, parents)
          end
      end
  end.

(** The loop check stops a cyclic value, so the nodes bound the depth. *)
Definition json_deep_copy (json : json_ptr) : W json_ptr :=
  let* p := run_am hashtable_init in
  match p with
  | None => ret None
  | Some parents_set =>
      let* h := gets w_heap in
      let* (res, parents_set) := do_deep_copy (S (S (size h))) json parents_set in
      parents_close parents_set ;;;
      ret res
  end.
