(* ===== verification/Arrays.v ===== *)
(** * The table of a JSON array

    [array_ok a xs]: the struct [a] holds the elements [xs]; the lemmas give
    the effect on [xs] of every access, move, copy and growth of value.c. *)

From S2P Require Import Prelude Strbuffer Hashtable Value.

Definition ARRAY_MAX : Z := 2 ^ 59.

Record array_ok (a : array_t) (xs : list loc) : Prop := {
  ar_entries : a_entries a = Z.of_nat (length xs);
  ar_table : Z.of_nat (length (a_table a)) = a_size a;
  ar_size : 8 <= a_size a <= 2 ^ 60;
  ar_fit : a_entries a <= a_size a;
  ar_items : take (length xs) (a_table a) = Some <$> xs
}.

Lemma mem_load_take {A} (blk : memblock A) (xs : list A) off n :
  take (length xs) blk = Some <$> xs -> (off + n <= length xs)%nat ->
  mem_load blk off n = Some (take n (drop off xs)).
Proof.
  intros E Hn. unfold mem_load.
  assert (Hlen : (length xs <= length blk)%nat).
  { apply (f_equal length) in E. rewrite length_take, length_fmap in E. lia. }
  rewrite decide_True by lia.
  replace (take n (drop off blk)) with (Some <$> take n (drop off xs)); [apply mapM_id_Some|].
  rewrite fmap_take, fmap_drop, <- E, skipn_firstn_comm, take_take. f_equal. lia.
Qed.

Lemma array_items_ok a xs : array_ok a xs -> array_items a = Some xs.
Proof.
  intros [He Ht Hs Hf Hi]. unfold array_items. rewrite He, Nat2Z.id.
  rewrite (mem_load_take _ xs) by (done || lia). by rewrite drop_0, firstn_all.
Qed.

Lemma table_get_ok a xs i x :
  array_ok a xs -> xs !! i = Some x -> table_get a (Z.of_nat i) = Some x.
Proof.
  intros [He Ht Hs Hf Hi] Hx. pose proof (lookup_lt_Some _ _ _ Hx). unfold table_get.
  rewrite Nat2Z.id, (mem_load_take _ xs) by (done || lia).
  by rewrite (drop_S _ _ _ Hx).
Qed.

(** Storing a block at [off] inside or right behind the known prefix. *)
Lemma store_prefix {A} (blk blk' : memblock A) (xs ys : list A) off :
  take (length xs) blk = Some <$> xs -> (off <= length xs)%nat ->
  mem_store blk off ys = Some blk' ->
  length blk' = length blk /\
  take (Nat.max (length xs) (off + length ys)) blk' =
    Some <$> (take off xs ++ ys ++ drop (off + length ys) xs).
Proof.
  intros E Hoff Hst. split; [by eapply length_mem_store|].
  apply mem_store_inv in Hst as [Hle ->].
  assert (Hlen : (length xs <= length blk)%nat).
  { apply (f_equal length) in E. rewrite length_take, length_fmap in E. lia. }
  rewrite !fmap_app, fmap_take, fmap_drop, <- E.
  rewrite take_take, Nat.min_l by lia.
  rewrite (assoc_L app), take_app, !length_app, !length_fmap, length_take, Nat.min_l by lia.
  rewrite take_ge by (rewrite length_app, length_fmap, length_take; lia).
  rewrite <- (assoc_L app). do 2 f_equal.
  rewrite skipn_firstn_comm. f_equal. lia.
Qed.

Lemma table_set_ok a xs i v :
  array_ok a xs -> (i < length xs)%nat ->
  exists a', table_set a (Z.of_nat i) v = Some a' /\ array_ok a' (<[i := v]> xs).
Proof.
  intros [He Ht Hs Hf Hi] Hlt. unfold table_set. rewrite Nat2Z.id.
  destruct (mem_store (a_table a) i [v]) as [t|] eqn:E;
    [|rewrite mem_store_ok in E by (simpl; lia); done].
  destruct (store_prefix _ _ xs [v] i Hi ltac:(lia) E) as [Hl Hp]. simpl.
  eexists. split; [reflexivity|]. split; simpl; rewrite ?length_insert; try done; try (rewrite Hl; lia).
  simpl in Hp. rewrite Nat.max_l in Hp by lia. rewrite Hp. f_equal.
  rewrite insert_take_drop by done. by rewrite Nat.add_1_r.
Qed.

(** Growing keeps the elements; a fresh table still has to receive them. *)
Lemma array_grow_copy_spec a xs amount o :
  array_ok a xs -> 0 <= amount -> Z.of_nat (length xs) + amount <= ARRAY_MAX ->
  wp (json_array_grow a amount true) o (fun r o' => (o = [] -> o' = []) /\
    match r with
    | Some (a', _) => array_ok a' xs /\ Z.of_nat (length xs) + amount <= a_size a'
    | None => o <> []
    end).
Proof.
  intros [He Ht Hs Hf Hi] Ham Hmax. unfold ARRAY_MAX in Hmax. unfold json_array_grow.
  rewrite (size_t_small (a_entries a + amount)) by (unfold SIZE_MAX; lia).
  case_if; [rewrite wp_ret; split; [done|]; split; [done|lia]|].
  rewrite (size_t_small (a_size a + amount)), (size_t_small (a_size a * 2)) by (unfold SIZE_MAX; lia).
  set (new_size := Z.max _ _). assert (Hns : a_size a <= new_size <= 2 ^ 60) by lia.
  unfold SIZEOF_PTR. rewrite (size_t_small (new_size * 8)) by (unfold SIZE_MAX; lia).
  rewrite Z.div_mul by done. wp_step.
  destruct (jsonp_malloc_cases (new_size * 8) o) as [(o' & E & _ & Ho)|(o' & E & [H|H] & Ho)];
    eapply wp_eq; try exact E; cbv beta iota; [|lia|rewrite wp_ret; done].
  unfold array_copy. rewrite He, Nat2Z.id. simpl Z.to_nat.
  rewrite (mem_load_take _ xs) by (done || lia). rewrite drop_0, firstn_all. cbn [mbind option_bind].
  destruct (mem_store (mem_alloc (Z.to_nat new_size)) 0 xs) as [t|] eqn:Et;
    [|rewrite mem_store_ok in Et by (rewrite length_mem_alloc; lia); done].
  wp_step. eapply wp_require; [exact Et|]. rewrite wp_ret. split; [done|].
  destruct (store_prefix _ _ [] xs 0 eq_refl ltac:(done) Et) as [Hl Hp].
  rewrite length_mem_alloc in Hl. simpl in Hp. rewrite drop_nil, app_nil_r in Hp.
  split; [|simpl; lia]. split; simpl; try done; lia.
Qed.

Lemma make_room_grown a xs t i :
  array_ok a xs -> (i <= length xs)%nat ->
  (length xs < length t)%nat -> Z.of_nat (length t) <= 2 ^ 60 ->
  let a1 := {| a_size := Z.of_nat (length t); a_entries := a_entries a; a_table := t |} in
  exists t2, make_room a1 (Some (a_table a)) (Z.of_nat i) =
    Some {| a_size := Z.of_nat (length t); a_entries := a_entries a; a_table := t2 |} /\
    length t2 = length t /\ take i t2 = Some <$> take i xs /\
    take (length xs - i) (drop (S i) t2) = Some <$> drop i xs.
Proof.
  intros [He Ht Hs Hf Hi] Hle Hlt Hmax a1. unfold make_room, array_copy, a1. simpl.
  rewrite He.
  replace (Z.to_nat (Z.of_nat (length xs) - Z.of_nat i)) with (length xs - i)%nat by lia.
  replace (Z.to_nat (Z.of_nat i + 1)) with (S i) by lia. rewrite ?Nat2Z.id.
  rewrite !(mem_load_take _ xs) by (done || lia). simpl. rewrite drop_0.
  rewrite (mem_store_ok t 0) by (rewrite length_take; lia). simpl.
  rewrite (take_ge (drop i xs)) by (rewrite length_drop; lia).
  rewrite length_take, Nat.min_l by lia.
  set (t1 := (Some <$> take i xs) ++ drop i t).
  assert (Hl1 : length t1 = length t).
  { unfold t1. rewrite length_app, length_fmap, length_take, length_drop. lia. }
  rewrite mem_store_ok by (rewrite Hl1, length_drop; lia). simpl.
  eexists. split; [reflexivity|].
  assert (Ht1 : take i t1 = Some <$> take i xs).
  { unfold t1. apply take_app_length'. rewrite length_fmap, length_take. lia. }
  split_and!.
  - rewrite !length_app, length_fmap, length_take, !length_drop, Hl1. lia.
  - rewrite take_app_le by (rewrite length_take; lia). rewrite take_take, Nat.min_l by lia. done.
  - rewrite drop_app_length' by (rewrite length_take; lia).
    apply take_app_length'. by rewrite length_fmap, length_drop.
Qed.

Lemma make_room_moved a xs i :
  array_ok a xs -> (i <= length xs)%nat -> Z.of_nat (length xs) + 1 <= a_size a ->
  exists t2, make_room a None (Z.of_nat i) =
    Some {| a_size := a_size a; a_entries := a_entries a; a_table := t2 |} /\
    length t2 = length (a_table a) /\ take i t2 = Some <$> take i xs /\
    take (length xs - i) (drop (S i) t2) = Some <$> drop i xs.
Proof.
  intros [He Ht Hs Hf Hi] Hle Hlt. unfold make_room, array_move. rewrite He.
  replace (Z.to_nat (Z.of_nat (length xs) - Z.of_nat i)) with (length xs - i)%nat by lia.
  replace (Z.to_nat (Z.of_nat i + 1)) with (S i) by lia. rewrite Nat2Z.id.
  rewrite (mem_load_take _ xs) by (done || lia). simpl.
  rewrite (take_ge (drop i xs)) by (rewrite length_drop; lia).
  rewrite mem_store_ok by (rewrite length_drop; lia). simpl.
  eexists. split; [reflexivity|].
  assert (Hti : take i (a_table a) = Some <$> take i xs).
  { rewrite fmap_take, <- Hi, take_take. f_equal. lia. }
  split_and!.
  - rewrite !length_app, length_fmap, length_take, !length_drop. lia.
  - rewrite take_app_le by (rewrite length_take; lia). rewrite take_take, Nat.min_l by lia. done.
  - rewrite drop_app_length' by (rewrite length_take; lia).
    apply take_app_length'. by rewrite length_fmap, length_drop.
Qed.

(** The new element goes into the gap. *)
Lemma fill_gap a t xs i v :
  a_entries a = Z.of_nat (length xs) -> a_table a = t -> Z.of_nat (length t) = a_size a ->
  8 <= a_size a <= 2 ^ 60 -> (length xs < length t)%nat -> (i <= length xs)%nat ->
  take i t = Some <$> take i xs ->
  take (length xs - i) (drop (S i) t) = Some <$> drop i xs ->
  exists a', table_set a (Z.of_nat i) v = Some a' /\
    array_ok (set_entries a' (size_t (a_entries a' + 1))) (take i xs ++ v :: drop i xs).
Proof.
  intros He Ht Hl Hs Hlt Hi H1 H2. unfold table_set. rewrite Ht, Nat2Z.id.
  rewrite mem_store_ok by (simpl; lia). simpl. eexists. split; [reflexivity|].
  assert (Hs1 : size_t (a_entries a + 1) = a_entries a + 1) by (apply size_t_small; unfold SIZE_MAX; lia).
  rewrite Nat.add_1_r.
  assert (Hlen : length (take i xs ++ v :: drop i xs) = S (length xs)).
  { rewrite length_app, length_take. simpl. rewrite length_drop. lia. }
  split; simpl; rewrite ?Hlen, ?Hs1; try lia.
  - rewrite length_app, length_take. simpl. rewrite length_drop. lia.
  - rewrite H1, fmap_app, fmap_cons. rewrite take_app, length_fmap, length_take, Nat.min_l by lia.
    rewrite take_ge by (rewrite length_fmap, length_take; lia). f_equal.
    replace (S (length xs) - i)%nat with (S (length xs - i)) by lia. simpl. by f_equal.
Qed.

Lemma array_append_ok a xs v :
  array_ok a xs -> Z.of_nat (length xs) + 1 <= a_size a ->
  exists a', table_set a (a_entries a) v = Some a' /\
    array_ok (set_entries a' (size_t (a_entries a' + 1))) (xs ++ [v]).
Proof.
  intros [He Ht Hs Hf Hi] Hlt. rewrite He.
  destruct (fill_gap a (a_table a) xs (length xs) v) as (a' & E & H); try done; try lia.
  - by rewrite firstn_all.
  - by rewrite Nat.sub_diag, drop_all.
  - exists a'. split; [done|]. by rewrite firstn_all, drop_all in H.
Qed.

Lemma array_grow_insert_spec a xs i v o :
  array_ok a xs -> Z.of_nat (length xs) + 1 <= ARRAY_MAX -> (i <= length xs)%nat ->
  wp (json_array_grow a 1 false) o (fun r o' => (o = [] -> o' = []) /\
    match r with
    | Some (a1, old) => exists a2 a3, make_room a1 old (Z.of_nat i) = Some a2 /\
        table_set a2 (Z.of_nat i) v = Some a3 /\
        array_ok (set_entries a3 (size_t (a_entries a3 + 1))) (take i xs ++ v :: drop i xs)
    | None => o <> []
    end).
Proof.
  intros Ha Hmax Hi. pose proof Ha as [He Ht Hs Hf Hit]. unfold ARRAY_MAX in Hmax.
  unfold json_array_grow.
  rewrite (size_t_small (a_entries a + 1)) by (unfold SIZE_MAX; lia). case_if.
  - rewrite wp_ret. split; [done|].
    destruct (make_room_moved a xs i) as (t2 & -> & Hl & H1 & H2); try done; try lia.
    eexists. destruct (fill_gap {| a_size := a_size a; a_entries := a_entries a; a_table := t2 |}
      t2 xs i v) as (a3 & E3 & H3); simpl; try done; try lia. eauto.
  - rewrite (size_t_small (a_size a + 1)), (size_t_small (a_size a * 2)) by (unfold SIZE_MAX; lia).
    set (new_size := Z.max _ _). assert (Hns : a_size a + 1 <= new_size <= 2 ^ 60) by lia.
    unfold SIZEOF_PTR. rewrite (size_t_small (new_size * 8)) by (unfold SIZE_MAX; lia).
    rewrite Z.div_mul by done. wp_step.
    destruct (jsonp_malloc_cases (new_size * 8) o) as [(o' & E & _ & Ho)|(o' & E & [H|H] & Ho)];
      eapply wp_eq; try exact E; cbv beta iota; [|lia|rewrite wp_ret; done].
    rewrite wp_ret. split; [done|].
    assert (Hlt : length (mem_alloc (A := loc) (Z.to_nat new_size)) = Z.to_nat new_size)
      by apply length_mem_alloc.
    destruct (make_room_grown a xs (mem_alloc (Z.to_nat new_size)) i) as (t2 & E2 & Hl & H1 & H2);
      try done; try (rewrite Hlt; lia).
    rewrite Hlt, Z2Nat.id in E2 by lia. rewrite E2.
    eexists. destruct (fill_gap {| a_size := new_size; a_entries := a_entries a; a_table := t2 |}
      t2 xs i v) as (a3 & E3 & H3); simpl; try done; try lia. eauto.
Qed.

Lemma array_remove_ok a xs i :
  array_ok a xs -> (i < length xs)%nat ->
  exists a', (if Z.of_nat i <? a_entries a - 1
              then array_move a (Z.of_nat i) (Z.of_nat i + 1) (a_entries a - Z.of_nat i - 1)
              else Some a) = Some a' /\
    array_ok (set_entries a' (size_t (a_entries a' - 1))) (delete i xs).
Proof.
  intros [He Ht Hs Hf Hi] Hlt.
  assert (Hdel : delete i xs = take i xs ++ drop (S i) xs) by apply delete_take_drop.
  assert (Hld : length (delete i xs) = (length xs - 1)%nat).
  { rewrite Hdel, length_app, length_take, length_drop. lia. }
  assert (Hs1 : size_t (a_entries a - 1) = a_entries a - 1) by (apply size_t_small; unfold SIZE_MAX; lia).
  case_if.
  - unfold array_move. rewrite He, Nat2Z.id.
    replace (Z.to_nat (Z.of_nat (length xs) - Z.of_nat i - 1)) with (length xs - S i)%nat by lia.
    replace (Z.to_nat (Z.of_nat i + 1)) with (S i) by lia.
    rewrite (mem_load_take _ xs) by (done || lia).
    rewrite (take_ge (drop (S i) xs)) by (rewrite length_drop; lia). simpl.
    destruct (mem_store (a_table a) i (drop (S i) xs)) as [t|] eqn:E;
      [|rewrite mem_store_ok in E by (rewrite length_drop; lia); done].
    destruct (store_prefix _ _ xs (drop (S i) xs) i Hi ltac:(lia) E) as [Hl Hp]. simpl.
    eexists. split; [reflexivity|]. split; simpl; rewrite ?Hs1 || rewrite <- ?He, ?Hs1; try lia.
    rewrite Hld. apply (f_equal (take (length xs - 1))) in Hp.
    rewrite take_take, Nat.min_l in Hp by lia. rewrite Hp, <- fmap_take. f_equal.
    rewrite (assoc_L app), <- Hdel. rewrite take_app_le by lia. by rewrite take_ge by lia.
  - eexists. split; [reflexivity|]. split; simpl; rewrite ?Hs1; try lia.
    rewrite Hld. assert (i = (length xs - 1)%nat) as -> by lia.
    rewrite Hdel, (drop_ge xs) by lia. rewrite app_nil_r, fmap_take, <- Hi, take_take. f_equal. lia.
Qed.

Lemma array_clear_ok a xs : array_ok a xs -> array_ok (set_entries a 0) [].
Proof. intros [He Ht Hs Hf Hi]. split; simpl; try done; lia. Qed.

Lemma array_extend_ok a b xs ys :
  array_ok a xs -> array_ok b ys -> Z.of_nat (length xs) + Z.of_nat (length ys) <= a_size a ->
  exists t, array_copy (a_table a) (a_entries a) (a_table b) 0 (a_entries b) = Some t /\
    array_ok {| a_size := a_size a; a_entries := size_t (a_entries a + a_entries b);
                a_table := t |} (xs ++ ys).
Proof.
  intros [He Ht Hs Hf Hi] [He' Ht' Hs' Hf' Hi'] Hfit. unfold array_copy.
  rewrite He, He', !Nat2Z.id. rewrite (mem_load_take _ ys) by (done || lia).
  rewrite drop_0, firstn_all. simpl.
  destruct (mem_store (a_table a) (length xs) ys) as [t|] eqn:E;
    [|rewrite mem_store_ok in E by lia; done].
  destruct (store_prefix _ _ xs ys (length xs) Hi ltac:(lia) E) as [Hl Hp].
  exists t. split; [done|].
  rewrite size_t_small by (unfold SIZE_MAX; lia).
  rewrite Nat.max_r, firstn_all, drop_ge, app_nil_r in Hp by lia.
  split; simpl; rewrite ?length_app; try done; lia.
Qed.

Lemma new_array_ok :
  array_ok {| a_size := 8; a_entries := 0; a_table := mem_alloc (Z.to_nat 8) |} [].
Proof. split; simpl; try done; lia. Qed.
