(* ===== verification/Refcount.v ===== *)
(** * Reference counting: the heap invariant

    [Inv w roots Z]: every node's count is the number of references to it from
    live nodes and from [roots] (what the code in progress and its callers
    hold); everything referenced is allocated; [Z] are the nodes under
    deletion.  Deleting preserves it: no node is freed while it is referenced,
    and every access is to allocated memory. *)

From stdpp Require Import gmultiset.
From Stdlib Require Import SpecFloat.
From S2P Require Import Prelude Strbuffer Dlist Hashtable Value Arrays.

Abbreviation mset := (list_to_set_disj : list loc -> gmultiset loc).

(* ------------------------------------------------------------------ *)
(** ** References in the heap *)

Definition body_children (b : body) : list loc :=
  match b with
  | Object ht => (fun e => p_value e.2) <$> map_to_list (ht_pairs ht)
  | Array a => omap id (take (Z.to_nat (a_entries a)) (a_table a))
  | _ => []
  end.
(** A node under deletion no longer counts: its children are in the hands of
    the code that deletes it. *)
Definition children (n : node) : list loc :=
  if refcount n =? 0 then [] else body_children (n_body n).

Definition refs (h : gmap loc node) : gmultiset loc :=
  map_fold (fun _ n acc => mset (children n) ⊎ acc) ∅ h.

Lemma refs_insert_new h l n : h !! l = None -> refs (<[l := n]> h) = mset (children n) ⊎ refs h.
Proof.
  intros Hl. unfold refs. rewrite (map_fold_insert_L (fun _ n acc => mset (children n) ⊎ acc)); try done.
  intros. multiset_solver.
Qed.

Lemma refs_delete h l n : h !! l = Some n -> refs h = mset (children n) ⊎ refs (delete l h).
Proof.
  intros Hl. rewrite <- (insert_id h l n Hl) at 1. rewrite <- insert_delete_eq.
  by rewrite refs_insert_new by apply lookup_delete_eq.
Qed.

Lemma refs_insert h l n n' :
  h !! l = Some n -> mset (children n) ⊎ refs (<[l := n']> h) = mset (children n') ⊎ refs h.
Proof.
  intros Hl. rewrite (refs_delete h l n Hl). rewrite <- insert_delete_eq.
  rewrite refs_insert_new by apply lookup_delete_eq. multiset_solver.
Qed.

Lemma elem_of_refs h l n x : h !! l = Some n -> x ∈ children n -> x ∈ refs h.
Proof.
  intros Hl Hx. rewrite (refs_delete h l n Hl). apply gmultiset_elem_of_disj_union. left.
  by apply elem_of_list_to_set_disj.
Qed.

(* ------------------------------------------------------------------ *)
(** ** The invariant *)

Definition body_ok (seed : Z) (b : body) : Prop :=
  match b with
  | Object ht => seed <> 0 /\ exists items, ht_rep seed ht items
  | Array a => exists xs, array_ok a xs
  | Integer z => INT64_MIN <= z <= INT64_MAX
  | Real d => not_finite d = false
  | Str _ => True
  | True_ | False_ | Null_ => False
  end.

Definition statics : gset loc := {[ the_true; the_false; the_null ]}.

Record Inv (w : world) (roots : gmultiset loc) (Z : gset loc) : Prop := {
  inv_count : forall l n, w_heap w !! l = Some n -> l ∉ statics ->
    refcount n = Z.of_nat (multiplicity l (refs (w_heap w) ⊎ roots)) /\ refcount n < SIZE_MAX /\
    (refcount n = 0 <-> l ∈ Z);
  inv_closed : forall l, l ∈ refs (w_heap w) ⊎ roots -> is_Some (w_heap w !! l);
  inv_body : forall l n, w_heap w !! l = Some n -> l ∉ statics -> body_ok (w_seed w) (n_body n);
  inv_statics : forall l n, static_heap !! l = Some n -> w_heap w !! l = Some n;
  inv_fresh : forall l, is_Some (w_heap w !! l) -> (l < w_next w)%positive;
  inv_dying : forall l, l ∈ Z -> is_Some (w_heap w !! l)
}.

Lemma elem_of_statics l : l ∈ statics <-> is_Some (static_heap !! l).
Proof.
  unfold statics, static_heap. rewrite !elem_of_union, !elem_of_singleton. split.
  - intros [[->| ->]| ->]; eauto.
  - rewrite !lookup_insert, lookup_empty. repeat case_decide; auto. by intros [].
Qed.

Lemma static_node w roots Zs l :
  Inv w roots Zs -> l ∈ statics ->
  exists n, w_heap w !! l = Some n /\ refcount n = SIZE_MAX /\ children n = [].
Proof.
  intros Hinv [n Hn]%elem_of_statics. exists n. split; [by apply (inv_statics _ _ _ Hinv)|].
  revert Hn. unfold static_heap. rewrite !lookup_insert.
  repeat case_decide; try (intros [= <-]; done).
Qed.

(** Nodes the code holds are live. *)
Lemma inv_live w roots Zs l :
  Inv w roots Zs -> l ∈ refs (w_heap w) ⊎ roots ->
  exists n, w_heap w !! l = Some n /\ refcount n <> 0.
Proof.
  intros Hinv Hl. destruct (inv_closed _ _ _ Hinv l Hl) as [n Hn]. exists n. split; [done|].
  destruct (decide (l ∈ statics)) as [Hs|Hs].
  - destruct (static_node _ _ _ _ Hinv Hs) as (n' & Hn' & Hrc & _). simplify_eq. rewrite Hrc. done.
  - destruct (inv_count _ _ _ Hinv l n Hn Hs) as (-> & _ & _).
    rewrite elem_of_multiplicity in Hl. lia.
Qed.

Lemma inv_root w roots Zs l :
  Inv w roots Zs -> l ∈ roots -> exists n, w_heap w !! l = Some n /\ refcount n <> 0.
Proof. intros Hinv Hl. eapply inv_live; [done|]. apply gmultiset_elem_of_disj_union. by right. Qed.

(** ** How the invariant changes with the heap *)

(** Rewriting a live node: what its children lose, the code gains. *)
Lemma inv_put w roots roots' Zs l n b :
  Inv w roots Zs -> w_heap w !! l = Some n -> refcount n <> 0 -> l ∉ statics ->
  body_ok (w_seed w) b ->
  mset (body_children b) ⊎ roots' = mset (body_children (n_body n)) ⊎ roots ->
  Inv (set_heap (<[l := {| refcount := refcount n; n_body := b |}]> (w_heap w)) w) roots' Zs.
Proof.
  intros Hinv Hl Hrc Hs Hok Hch. set (n' := {| refcount := refcount n; n_body := b |}).
  assert (Htot : refs (<[l := n']> (w_heap w)) ⊎ roots' = refs (w_heap w) ⊎ roots).
  { pose proof (refs_insert (w_heap w) l n n' Hl) as H. unfold children in H. simpl in H.
    apply Z.eqb_neq in Hrc. rewrite Hrc in H. multiset_solver. }
  split; simpl.
  - intros m nm Hm Hms. rewrite Htot. rewrite lookup_insert in Hm. case_decide.
    + simplify_eq/=. by apply (inv_count _ _ _ Hinv).
    + by apply (inv_count _ _ _ Hinv).
  - intros m. rewrite Htot. intros Hm%(inv_closed _ _ _ Hinv). rewrite lookup_insert.
    case_decide; eauto.
  - intros m nm Hm Hms. rewrite lookup_insert in Hm. case_decide; simplify_eq/=; [done|].
    by eapply (inv_body _ _ _ Hinv).
  - intros m nm Hm. rewrite lookup_insert_ne; [by apply (inv_statics _ _ _ Hinv)|].
    intros <-. apply Hs, elem_of_statics. eauto.
  - intros m Hm. apply (inv_fresh _ _ _ Hinv). rewrite lookup_insert in Hm.
    case_decide; simplify_eq; eauto.
  - intros m Hm%(inv_dying _ _ _ Hinv). rewrite lookup_insert. case_decide; eauto.
Qed.

(** Counting one reference more or less. *)
Lemma inv_count_change w roots roots' Zs l n rc :
  Inv w roots Zs -> w_heap w !! l = Some n -> refcount n <> 0 -> l ∉ statics ->
  0 < rc < SIZE_MAX ->
  rc - refcount n = Z.of_nat (multiplicity l roots') - Z.of_nat (multiplicity l roots) ->
  (forall m, m <> l -> multiplicity m roots' = multiplicity m roots) ->
  Inv (set_heap (<[l := {| refcount := rc; n_body := n_body n |}]> (w_heap w)) w) roots' Zs.
Proof.
  intros Hinv Hl Hrc Hs Hrange Hdiff Hother. set (n' := {| refcount := rc; n_body := n_body n |}).
  assert (Href : refs (<[l := n']> (w_heap w)) = refs (w_heap w)).
  { pose proof (refs_insert (w_heap w) l n n' Hl) as H. unfold children in H. simpl in H.
    rewrite (proj2 (Z.eqb_neq _ _) Hrc), (proj2 (Z.eqb_neq rc 0)) in H by lia. multiset_solver. }
  pose proof (inv_count _ _ _ Hinv l n Hl Hs) as (Hc & Hmax & Hz).
  split; simpl; rewrite ?Href.
  - intros m nm Hm Hms. rewrite lookup_insert in Hm. rewrite multiplicity_disj_union in *.
    case_decide as Hml.
    + simplify_eq/=. split_and!; [lia|lia|]. rewrite <- Hz. lia.
    + rewrite Hother by done. rewrite <- multiplicity_disj_union. by apply (inv_count _ _ _ Hinv).
  - intros m Hm. rewrite lookup_insert. case_decide as Hml; [eauto|].
    apply (inv_closed _ _ _ Hinv). rewrite gmultiset_elem_of_disj_union in *.
    rewrite !elem_of_multiplicity in *. rewrite <- (Hother m) by done. done.
  - intros m nm Hm Hms. rewrite lookup_insert in Hm. case_decide; simplify_eq/=;
      by eapply (inv_body _ _ _ Hinv).
  - intros m nm Hm. rewrite lookup_insert_ne; [by apply (inv_statics _ _ _ Hinv)|].
    intros <-. apply Hs, elem_of_statics. eauto.
  - intros m Hm. apply (inv_fresh _ _ _ Hinv). rewrite lookup_insert in Hm.
    case_decide; simplify_eq; eauto.
  - intros m Hm%(inv_dying _ _ _ Hinv). rewrite lookup_insert. case_decide; eauto.
Qed.

(** Statics are not counted. *)
Lemma inv_static_root w roots roots' Zs :
  Inv w roots Zs -> (forall m, m ∉ statics -> multiplicity m roots' = multiplicity m roots) ->
  Inv w roots' Zs.
Proof.
  intros Hinv Hm. split; try apply Hinv.
  - intros l n Hl Hs. rewrite multiplicity_disj_union, Hm, <- multiplicity_disj_union by done.
    by apply (inv_count _ _ _ Hinv).
  - intros l Hl. destruct (decide (l ∈ statics)) as [Hs|Hs].
    + destruct (static_node _ _ _ _ Hinv Hs) as (n & -> & _). eauto.
    + apply (inv_closed _ _ _ Hinv). rewrite gmultiset_elem_of_disj_union in *.
      rewrite !elem_of_multiplicity in *. by rewrite <- (Hm l).
Qed.

(* ------------------------------------------------------------------ *)
(** ** Children, by type *)

Lemma object_children seed ht items :
  ht_rep seed ht items -> body_children (Object ht) ≡ₚ vals items.
Proof.
  intros [xs Hwf]. simpl. unfold vals. apply Permutation_map. apply NoDup_Permutation.
  - apply NoDup_map_to_list.
  - pose proof (dl_rep_nodup _ _ (wf_ordered _ _ _ _ Hwf)) as Hnd. by apply NoDup_fmap_1 in Hnd.
  - intros [n pr]. rewrite elem_of_map_to_list. apply (wf_pairs _ _ _ _ Hwf).
Qed.

Lemma array_children a xs : array_ok a xs -> body_children (Array a) = xs.
Proof.
  intros Ha. simpl. rewrite (ar_entries _ _ Ha), Nat2Z.id, (ar_items _ _ Ha).
  induction xs as [|x xs IH] in |- *; [done|]. simpl. by f_equal.
Qed.

Lemma mset_perm xs ys : xs ≡ₚ ys -> mset xs = mset ys.
Proof. intros H. by rewrite H. Qed.

(* ------------------------------------------------------------------ *)
(** ** Deletion *)

Definition live (h : gmap loc node) : nat :=
  size (filter (fun e : loc * node => refcount e.2 <> 0 /\ e.1 ∉ statics) h).

(** Nodes were deleted or lost references; nothing else happened. *)
Record shrink (w w' : world) : Prop := {
  sh_nodes : forall l n', w_heap w' !! l = Some n' ->
    exists n, w_heap w !! l = Some n /\ n_body n' = n_body n /\ (refcount n = 0 -> n' = n);
  sh_next : w_next w' = w_next w;
  sh_oom : w_oom w' = w_oom w;
  sh_seed : w_seed w' = w_seed w;
  sh_entropy : w_entropy w' = w_entropy w
}.

#[export] Instance shrink_refl : Reflexive shrink.
Proof. intros w. split; eauto. Qed.
#[export] Instance shrink_trans : Transitive shrink.
Proof.
  intros w1 w2 w3 [H1 ????] [H2 ????]. split; try congruence. intros l n3 H3.
  destruct (H2 l n3 H3) as (n2 & Hn2 & Hb2 & Hz2). destruct (H1 l n2 Hn2) as (n1 & Hn1 & Hb1 & Hz1).
  exists n1. split_and!; [done|congruence|]. intros Hz. specialize (Hz1 Hz). subst n2.
  by apply Hz2.
Qed.

Lemma shrink_live w w' : shrink w w' -> (live (w_heap w') <= live (w_heap w))%nat.
Proof.
  intros Hsh. unfold live. rewrite <- !size_dom. apply subseteq_size. intros l.
  rewrite !elem_of_dom. intros [n' [Hn' [Hr Hs]]%map_lookup_filter_Some]. simpl in *.
  destruct (sh_nodes _ _ Hsh l n' Hn') as (n & Hn & _ & Hz). exists n.
  apply map_lookup_filter_Some. split; [done|]. simpl. split; [|done]. intros Hn0.
  rewrite (Hz Hn0) in Hr. done.
Qed.

(** One live node less. *)
Lemma live_zero h l n b :
  h !! l = Some n -> refcount n <> 0 -> l ∉ statics ->
  (live (<[l := {| refcount := 0; n_body := b |}]> h) < live h)%nat.
Proof.
  intros Hl Hrc Hs. unfold live. rewrite map_filter_insert_False by (simpl; tauto).
  rewrite map_filter_delete.
  assert (Hf : filter (fun e : loc * node => refcount e.2 <> 0 /\ e.1 ∉ statics) h !! l = Some n).
  { by apply map_lookup_filter_Some. }
  rewrite <- (insert_id _ _ _ Hf) at 2. rewrite <- insert_delete_eq.
  rewrite map_size_insert_None by apply lookup_delete_eq. lia.
Qed.

(** The last reference goes: the node is under deletion and its children are
    held by the deleting code. *)
Lemma inv_last w roots Zs l n :
  Inv w (roots ⊎ {[+ l +]}) Zs -> w_heap w !! l = Some n -> l ∉ statics -> refcount n = 1 ->
  Inv (set_heap (<[l := {| refcount := 0; n_body := n_body n |}]> (w_heap w)) w)
      (roots ⊎ mset (body_children (n_body n))) ({[l]} ∪ Zs).
Proof.
  intros Hinv Hl Hs Hrc. set (n' := {| refcount := 0; n_body := n_body n |}).
  pose proof (inv_count _ _ _ Hinv l n Hl Hs) as (Hc & _ & Hz).
  assert (Href : mset (body_children (n_body n)) ⊎ refs (<[l := n']> (w_heap w)) = refs (w_heap w)).
  { pose proof (refs_insert (w_heap w) l n n' Hl) as H. unfold children in H. simpl in H.
    rewrite Hrc in H. simpl in H. multiset_solver. }
  assert (Htot : forall m, multiplicity m (refs (<[l := n']> (w_heap w)) ⊎ (roots ⊎ mset (body_children (n_body n))))
            = (multiplicity m (refs (w_heap w) ⊎ (roots ⊎ {[+ l +]})) - (if decide (m = l) then 1 else 0))%nat).
  { intros m. rewrite <- Href. rewrite !multiplicity_disj_union, multiplicity_singleton.
    case_decide; lia. }
  split; simpl.
  - intros m nm Hm Hms. rewrite Htot. rewrite lookup_insert in Hm. case_decide as Hlm.
    + simplify_eq/=. rewrite decide_True by done. split_and!; [lia|unfold SIZE_MAX; lia|].
      split; [|done]. intros _. apply elem_of_union. left. by apply elem_of_singleton.
    + rewrite decide_False by done. rewrite Nat.sub_0_r.
      destruct (inv_count _ _ _ Hinv m nm Hm Hms) as (? & ? & ?). split_and!; [done|done|].
      rewrite elem_of_union, elem_of_singleton. naive_solver.
  - intros m Hm. rewrite lookup_insert. case_decide; [eauto|].
    apply (inv_closed _ _ _ Hinv). rewrite elem_of_multiplicity in *. rewrite Htot in Hm. lia.
  - intros m nm Hm Hms. rewrite lookup_insert in Hm. case_decide; simplify_eq/=;
      by eapply (inv_body _ _ _ Hinv).
  - intros m nm Hm. rewrite lookup_insert_ne; [by apply (inv_statics _ _ _ Hinv)|].
    intros <-. apply Hs, elem_of_statics. eauto.
  - intros m Hm. apply (inv_fresh _ _ _ Hinv). rewrite lookup_insert in Hm.
    case_decide; simplify_eq; eauto.
  - intros m Hm. rewrite lookup_insert. case_decide as Hml; [eauto|].
    apply (inv_dying _ _ _ Hinv). rewrite elem_of_union, elem_of_singleton in Hm. naive_solver.
Qed.

(** A node whose children are released is freed. *)
Lemma inv_free w roots Zs l n :
  Inv w roots ({[l]} ∪ Zs) -> l ∉ Zs -> l ∉ statics -> w_heap w !! l = Some n -> refcount n = 0 ->
  Inv (set_heap (delete l (w_heap w)) w) roots Zs.
Proof.
  intros Hinv HlZ Hs Hl Hrc.
  pose proof (inv_count _ _ _ Hinv l n Hl Hs) as (Hc & _ & _).
  assert (Href : refs (delete l (w_heap w)) = refs (w_heap w)).
  { rewrite (refs_delete (w_heap w) l n Hl). unfold children. rewrite Hrc. simpl. multiset_solver. }
  split; simpl; rewrite ?Href.
  - intros m nm [Hml Hm]%lookup_delete_Some Hms.
    destruct (inv_count _ _ _ Hinv m nm Hm Hms) as (? & ? & Hz). split_and!; [done|done|].
    rewrite Hz, elem_of_union, elem_of_singleton. naive_solver.
  - intros m Hm. destruct (decide (m = l)) as [->|].
    + rewrite elem_of_multiplicity in Hm. lia.
    + rewrite lookup_delete_ne by done. by apply (inv_closed _ _ _ Hinv).
  - intros m nm [Hml Hm]%lookup_delete_Some Hms. by eapply (inv_body _ _ _ Hinv).
  - intros m nm Hm. rewrite lookup_delete_ne; [by apply (inv_statics _ _ _ Hinv)|].
    intros <-. apply Hs, elem_of_statics. eauto.
  - intros m [nm [_ Hm]%lookup_delete_Some]. apply (inv_fresh _ _ _ Hinv). eauto.
  - intros m Hm. rewrite lookup_delete_ne by (by intros ->).
    apply (inv_dying _ _ _ Hinv). rewrite elem_of_union. by right.
Qed.

Lemma shrink_put w l n rc :
  w_heap w !! l = Some n -> refcount n <> 0 ->
  shrink w (set_heap (<[l := {| refcount := rc; n_body := n_body n |}]> (w_heap w)) w).
Proof.
  intros Hl Hrc. split; try done. simpl. intros m nm. rewrite lookup_insert. case_decide.
  - intros [= <-]. subst. exists n. split_and!; [done|done|]. intros Hz. by destruct Hrc.
  - eauto.
Qed.

Lemma shrink_delete w l : shrink w (set_heap (delete l (w_heap w)) w).
Proof. split; try done. simpl. intros m nm [_ H]%lookup_delete_Some. eauto. Qed.

(** The nodes a body refers to, as [json_delete] releases them. *)
Lemma deleted_children seed b :
  body_ok seed b ->
  match b with
  | Object ht => exists vs, hashtable_close ht = inr vs /\ vs ≡ₚ body_children b
  | Array a => exists vs, array_items a = Some vs /\ vs ≡ₚ body_children b
  | _ => body_children b = []
  end.
Proof.
  destruct b; simpl; try done.
  - intros [_ [items Hrep]]. destruct (hashtable_do_clear_spec _ _ _ Hrep) as (vs & E & Hvs).
    exists vs. split; [done|]. rewrite Hvs. symmetry. by eapply (object_children seed).
  - intros [xs Ha]. exists xs. split; [by apply array_items_ok|].
    by rewrite <- (array_children _ _ Ha) at 1.
Qed.

Definition decref_post (w : world) (roots : gmultiset loc) (Zs : gset loc) (w' : world) : Prop :=
  Inv w' roots Zs /\ shrink w w' /\
  forall l n, w_heap w !! l = Some n -> refcount n = 0 -> w_heap w' !! l = Some n.

Lemma iter_decref_spec f fuel :
  (forall w roots Zs l, Inv w (roots ⊎ {[+ l +]}) Zs -> (live (w_heap w) < fuel)%nat ->
    wp (f l) w (fun _ w' => decref_post w roots Zs w')) ->
  forall vs w roots Zs, Inv w (roots ⊎ mset vs) Zs -> (live (w_heap w) < fuel)%nat ->
    wp (iterM f vs) w (fun _ w' => decref_post w roots Zs w').
Proof.
  intros Hf vs. induction vs as [|v vs IH]; intros w roots Zs Hinv Hfuel; simpl.
  - rewrite wp_ret. split_and!; [|reflexivity|auto]. by rewrite gmultiset_disj_union_right_id in Hinv.
  - wp_step. eapply wp_mono; [apply (Hf w (roots ⊎ mset vs) Zs)|].
    + replace (roots ⊎ mset vs ⊎ {[+ v +]}) with (roots ⊎ mset (v :: vs)); [done|].
      rewrite list_to_set_disj_cons. multiset_solver.
    + done.
    + intros _ w1 (Hinv1 & Hsh1 & Hz1). eapply wp_mono; [apply (IH w1 roots Zs Hinv1)|].
      * pose proof (shrink_live _ _ Hsh1). lia.
      * intros _ w2 (Hinv2 & Hsh2 & Hz2). split_and!; [done|by etransitivity|eauto].
Qed.

Lemma wp_deref l n w (Q : node -> world -> Prop) :
  w_heap w !! l = Some n -> Q n w -> wp (deref l) w Q.
Proof. intros Hl HQ. unfold wp, deref. by rewrite Hl. Qed.

(** [json_delete] of a node under deletion, the children being released by [f]. *)
Lemma json_delete_spec f fuel w roots Zs l n :
  (forall w roots Zs l, Inv w (roots ⊎ {[+ l +]}) Zs -> (live (w_heap w) < fuel)%nat ->
    wp (f l) w (fun _ w' => decref_post w roots Zs w')) ->
  Inv w (roots ⊎ mset (body_children (n_body n))) ({[l]} ∪ Zs) -> l ∉ Zs -> l ∉ statics ->
  w_heap w !! l = Some n -> refcount n = 0 -> (live (w_heap w) < fuel)%nat ->
  wp (json_delete f l) w (fun _ w' => Inv w' roots Zs /\ shrink w w' /\
    (forall l' n', l' <> l -> w_heap w !! l' = Some n' -> refcount n' = 0 -> w_heap w' !! l' = Some n')).
Proof.
  intros Hf Hinv HlZ Hs Hl Hrc Hfuel. unfold json_delete. wp_step. eapply wp_deref; [done|].
  pose proof (deleted_children _ _ (inv_body _ _ _ Hinv l n Hl Hs)) as Hch.
  assert (Hfin : forall w2, decref_post w roots ({[l]} ∪ Zs) w2 ->
    wp (free_node l) w2 (fun _ w' => Inv w' roots Zs /\ shrink w w' /\
      (forall l' n', l' <> l -> w_heap w !! l' = Some n' -> refcount n' = 0 -> w_heap w' !! l' = Some n'))).
  { intros w2 (Hinv2 & Hsh2 & Hz2). unfold free_node. wp_step.
    split_and!; [by eapply inv_free; eauto| |].
    - etransitivity; [exact Hsh2|apply shrink_delete].
    - intros l' n' Hne H1 H2. simpl. rewrite lookup_delete_ne by done. eauto. }
  assert (Hleaf : body_children (n_body n) = [] -> decref_post w roots ({[l]} ∪ Zs) w).
  { intros E. rewrite E in Hinv. simpl in Hinv. rewrite gmultiset_disj_union_right_id in Hinv.
    split_and!; [done|reflexivity|auto]. }
  assert (Hiter : forall vs, vs ≡ₚ body_children (n_body n) ->
    wp (iterM f vs) w (fun _ w' => decref_post w roots ({[l]} ∪ Zs) w')).
  { intros vs Hvs. apply (iter_decref_spec f fuel Hf); [|done]. by rewrite (mset_perm _ _ Hvs). }
  destruct (n_body n) as [ht|a|s|z|d| | |] eqn:Eb; try (by apply Hfin, Hleaf).
  - destruct Hch as (vs & E & Hvs). wp_step. eapply wp_lift_res; [exact E|]. wp_step.
    eapply wp_mono; [by apply Hiter|]. intros ? w2. apply Hfin.
  - destruct Hch as (vs & E & Hvs). wp_step. eapply wp_require; [exact E|]. wp_step.
    eapply wp_mono; [by apply Hiter|]. intros ? w2. apply Hfin.
  - pose proof (inv_body _ _ _ Hinv l n Hl Hs) as Hb. by rewrite Eb in Hb.
  - pose proof (inv_body _ _ _ Hinv l n Hl Hs) as Hb. by rewrite Eb in Hb.
  - pose proof (inv_body _ _ _ Hinv l n Hl Hs) as Hb. by rewrite Eb in Hb.
Qed.

Lemma decref_fuel_spec fuel w roots Zs l :
  Inv w (roots ⊎ {[+ l +]}) Zs -> (live (w_heap w) < fuel)%nat ->
  wp (decref_fuel fuel l) w (fun _ w' => decref_post w roots Zs w').
Proof.
  revert w roots Zs l. induction fuel as [|fuel IH]; intros w roots Zs l Hinv Hfuel; [lia|].
  destruct (inv_root _ _ _ l Hinv) as (n & Hl & Hrc); [multiset_solver|].
  simpl. wp_step. eapply wp_deref; [done|].
  destruct (decide (l ∈ statics)) as [Hs|Hs].
  - destruct (static_node _ _ _ _ Hinv Hs) as (n' & Hl' & Hrc' & _).
    rewrite Hl in Hl'. injection Hl' as <-. rewrite Hrc', Z.eqb_refl. rewrite wp_ret. split_and!; [|reflexivity|auto].
    eapply inv_static_root; [exact Hinv|]. intros m Hm. rewrite multiplicity_disj_union.
    rewrite multiplicity_singleton_ne; [lia|]. by intros ->.
  - destruct (inv_count _ _ _ Hinv l n Hl Hs) as (Hc & Hmax & Hz).
    assert (Hpos : 0 < refcount n) by lia.
    rewrite (proj2 (Z.eqb_neq _ _)) by lia.
    rewrite (size_t_small (refcount n - 1)) by (unfold SIZE_MAX in *; lia).
    wp_step. unfold put_node. wp_step. case_if.
    + assert (Hrc1 : refcount n = 1) by lia. rewrite Hrc1. change (1 - 1) with 0.
      assert (HlZ : l ∉ Zs) by (rewrite <- Hz; done).
      set (w1 := set_heap _ w). eapply wp_mono.
      { eapply (json_delete_spec (decref_fuel fuel) fuel w1 roots Zs l
                  {| refcount := 0; n_body := n_body n |}); try done.
        - by apply (inv_last w roots Zs l n).
        - simpl. apply lookup_insert_eq.
        - simpl. pose proof (live_zero (w_heap w) l n (n_body n) Hl Hrc Hs). lia. }
      intros _ w2 (Hinv2 & Hsh2 & Hz2). split_and!; [done| |].
      * etransitivity; [|exact Hsh2]. by apply shrink_put.
      * intros l' n' Hl' Hz'. apply Hz2; [by intros ->; simplify_eq| |done].
        simpl. rewrite lookup_insert_ne; [done|]. intros <-. simplify_eq.
    + rewrite wp_ret. split_and!.
      * eapply inv_count_change; eauto; [lia| |].
        -- rewrite multiplicity_disj_union, multiplicity_singleton_eq. lia.
        -- intros m Hm. rewrite multiplicity_disj_union, multiplicity_singleton_ne by done. lia.
      * by apply shrink_put.
      * intros l' n' Hl' Hz'. simpl. rewrite lookup_insert_ne; [done|]. intros <-. simplify_eq.
Qed.

Lemma json_decref_spec w roots Zs l :
  Inv w (roots ⊎ {[+ l +]}) Zs ->
  wp (json_decref (Some l)) w (fun _ w' => decref_post w roots Zs w').
Proof.
  intros Hinv. unfold json_decref. wp_steps. apply decref_fuel_spec; [done|].
  unfold live. pose proof (map_size_filter (fun e : loc * node => refcount e.2 <> 0 /\ e.1 ∉ statics) (w_heap w)).
  lia.
Qed.
