(* ===== verification/ValueSpec.v ===== *)
(** * The operations of value.c: safety and effect

    For every operation of value.c on the heap invariant [Inv]: it never
    accesses freed or unowned memory, it keeps the reference counts exact on
    every path, the failing ones included, and it has the documented effect on
    the object or array it changes. *)

From stdpp Require Import gmultiset.
From Stdlib Require Import SpecFloat.
From S2P Require Import Prelude Utf8 Strbuffer Dlist Hashtable Value Arrays Refcount.

(* ------------------------------------------------------------------ *)
(** ** What a client sees *)

Definition body_at (w : world) (l : loc) (b : body) : Prop :=
  exists n, w_heap w !! l = Some n /\ n_body n = b.
Definition object_at (w : world) (l : loc) (items : items_t) : Prop :=
  exists ht, body_at w l (Object ht) /\ ht_rep (w_seed w) ht items.
Definition array_at (w : world) (l : loc) (xs : list loc) : Prop :=
  exists a, body_at w l (Array a) /\ array_ok a xs.

(** Apart from the nodes of [D], the bodies of old nodes are as they were. *)
Record frame (D : gset loc) (w w' : world) : Prop := {
  fr_bodies : forall l n', w_heap w' !! l = Some n' -> l ∉ D -> (l < w_next w)%positive ->
    body_at w l (n_body n');
  fr_next : (w_next w <= w_next w')%positive;
  fr_oom : w_oom w = [] -> w_oom w' = [];
  fr_seed : w_seed w <> 0 -> w_seed w' = w_seed w;
  fr_entropy : w_entropy w' = w_entropy w
}.

#[export] Instance frame_refl D : Reflexive (frame D).
Proof. intros w. split; try done. intros l n' Hl _ _. by exists n'. Qed.

Lemma frame_trans D w1 w2 w3 : frame D w1 w2 -> frame D w2 w3 -> frame D w1 w3.
Proof.
  intros [H1 N1 O1 S1 E1] [H2 N2 O2 S2 E2]. split.
  - intros l n3 Hl HD Hlt. destruct (H2 l n3 Hl HD ltac:(lia)) as (n2 & Hn2 & <-). by apply H1.
  - lia.
  - auto.
  - intros Hs. specialize (S1 Hs). rewrite <- S1 in *. auto.
  - congruence.
Qed.
#[export] Instance frame_transitive D : Transitive (frame D).
Proof. intros ???. apply frame_trans. Qed.

Lemma frame_mono D D' w w' : frame D w w' -> D ⊆ D' -> frame D' w w'.
Proof.
  intros [H1 N1 O1 S1 E1] HD. split; try done. intros l n' Hl Hnot Hlt. apply H1; [done| |done].
  intros Hin. by apply Hnot, HD.
Qed.

Lemma shrink_frame D w w' : shrink w w' -> frame D w w'.
Proof.
  intros [H N O S E]. split; try congruence; [|lia].
  intros l n' Hl _ _. destruct (H l n' Hl) as (n & Hn & Hb & _). by exists n.
Qed.

Lemma frame_put D w l n : l ∈ D -> frame D w (set_heap (<[l := n]> (w_heap w)) w).
Proof.
  intros Hl. split; try done. simpl. intros m nm Hm HD _. rewrite lookup_insert_ne in Hm.
  - by exists nm.
  - by intros <-.
Qed.

(** A node that is held keeps its body. *)
Lemma body_at_frame w w' roots Zs D l b :
  Inv w roots Zs -> Inv w' roots Zs -> frame D w w' -> l ∈ roots -> l ∉ D ->
  body_at w l b -> body_at w' l b.
Proof.
  intros Hinv Hinv' Hfr Hl HD (n & Hn & <-).
  destruct (inv_root _ _ _ l Hinv' Hl) as (n' & Hn' & _).
  destruct (fr_bodies _ _ _ Hfr l n' Hn' HD) as (n2 & Hn2 & Hb).
  - apply (inv_fresh _ _ _ Hinv). eauto.
  - simplify_eq. by exists n'.
Qed.

Lemma body_at_shrink w w' roots Zs l b :
  Inv w' roots Zs -> shrink w w' -> l ∈ roots -> body_at w l b -> body_at w' l b.
Proof.
  intros Hinv' Hsh Hl (n & Hn & <-).
  destruct (inv_root _ _ _ l Hinv' Hl) as (n' & Hn' & _).
  destruct (sh_nodes _ _ Hsh l n' Hn') as (n2 & Hn2 & Hb & _). simplify_eq. by exists n'.
Qed.

Lemma object_not_static w roots Zs l items : Inv w roots Zs -> object_at w l items -> l ∉ statics.
Proof.
  intros Hinv (ht & (n & Hn & Hb) & _) [m Hm]%elem_of_statics.
  pose proof (inv_statics _ _ _ Hinv l m Hm) as Hn'. simplify_eq.
  revert Hm. unfold static_heap. rewrite !lookup_insert.
  repeat case_decide; try (by intros [= <-]).
Qed.
Lemma array_not_static w roots Zs l xs : Inv w roots Zs -> array_at w l xs -> l ∉ statics.
Proof.
  intros Hinv (ht & (n & Hn & Hb) & _) [m Hm]%elem_of_statics.
  pose proof (inv_statics _ _ _ Hinv l m Hm) as Hn'. simplify_eq.
  revert Hm. unfold static_heap. rewrite !lookup_insert.
  repeat case_decide; try (by intros [= <-]).
Qed.

(** ** Stepping through accesses *)

Lemma wp_json_is t w l b (Q : bool -> world -> Prop) :
  body_at w l b -> Q (bool_decide (type_of b = t)) w -> wp (json_is t (Some l)) w Q.
Proof.
  intros (n & Hn & <-) HQ. unfold json_is, json_typeof. repeat wp_step. by eapply wp_deref.
Qed.
Lemma wp_json_to_object w l ht (Q : hashtable_t -> world -> Prop) :
  body_at w l (Object ht) -> Q ht w -> wp (json_to_object l) w Q.
Proof.
  intros (n & Hn & Hb) HQ. unfold json_to_object. wp_step. eapply wp_deref; [done|]. by rewrite Hb.
Qed.
Lemma wp_json_to_array w l a (Q : array_t -> world -> Prop) :
  body_at w l (Array a) -> Q a w -> wp (json_to_array l) w Q.
Proof.
  intros (n & Hn & Hb) HQ. unfold json_to_array. wp_step. eapply wp_deref; [done|]. by rewrite Hb.
Qed.
Lemma wp_put_body w l n b (Q : unit -> world -> Prop) :
  w_heap w !! l = Some n ->
  Q tt (set_heap (<[l := {| refcount := refcount n; n_body := b |}]> (w_heap w)) w) ->
  wp (put_body l b) w Q.
Proof. intros Hn HQ. unfold put_body, put_node. wp_step. by eapply wp_deref. Qed.

Lemma wp_run_am {A} (m : AM A) w (Q : A -> world -> Prop) :
  wp m (w_oom w) (fun a o => Q a (set_oom o w)) -> wp (run_am m) w Q.
Proof. unfold run_am. by rewrite wp_zoom. Qed.

Lemma set_oom_id w : set_oom (w_oom w) w = w.
Proof. by destruct w. Qed.

(** Code of the allocation monad when memory does not run out. *)
Lemma run_am_nil {A} (m : AM A) (a : A) w :
  w_oom w = [] -> m [] = inr (a, []) -> run_am m w = inr (a, w).
Proof. intros Hw E. unfold run_am, zoom. rewrite Hw, E. f_equal. f_equal. by rewrite <- Hw, set_oom_id. Qed.

Lemma inv_set_oom w roots Zs o : Inv w roots Zs -> Inv (set_oom o w) roots Zs.
Proof. intros [H1 H2 H3 H4 H5]. by split. Qed.

Lemma frame_set_oom D w o : (w_oom w = [] -> o = []) -> frame D w (set_oom o w).
Proof. intros Ho. split; try done. intros l n Hl _ _. by exists n. Qed.

(** An allocation of a struct. *)
Lemma wp_malloc size w (Q : bool -> world -> Prop) :
  (forall ok o, (w_oom w = [] -> o = []) -> (ok = false -> size = 0 \/ w_oom w <> []) ->
     Q ok (set_oom o w)) ->
  wp (run_am (jsonp_malloc size)) w Q.
Proof.
  intros HQ. apply wp_run_am.
  destruct (jsonp_malloc_cases size (w_oom w)) as [(o & E & _ & Ho)|(o & E & H & Ho)];
    (eapply wp_eq; [exact E|]); apply HQ; auto.
Qed.

(** ** Releasing a value that may be NULL *)

Definition opt_mset (o : json_ptr) : gmultiset loc :=
  match o with Some l => {[+ l +]} | None => ∅ end.

Lemma json_decref_opt_spec w roots Zs v :
  Inv w (roots ⊎ opt_mset v) Zs ->
  wp (json_decref v) w (fun _ w' => Inv w' roots Zs /\ shrink w w').
Proof.
  intros Hinv. destruct v as [l|]; simpl in *.
  - eapply wp_mono; [by apply json_decref_spec|]. intros _ w' (? & ? & _). done.
  - unfold json_decref. rewrite wp_ret. split; [|reflexivity].
    by rewrite gmultiset_disj_union_right_id in Hinv.
Qed.

Lemma iter_release_spec vs w roots Zs :
  Inv w (roots ⊎ mset vs) Zs ->
  wp (iterM (fun v => json_decref (Some v)) vs) w (fun _ w' => Inv w' roots Zs /\ shrink w w').
Proof.
  intros Hinv. eapply wp_mono.
  - apply (iter_decref_spec (fun v => json_decref (Some v)) (S (live (w_heap w)))); [|exact Hinv|lia].
    intros. by apply json_decref_spec.
  - intros _ w' (? & ? & _). done.
Qed.

Lemma json_incref_spec w roots Zs l :
  Inv w roots Zs -> l ∈ refs (w_heap w) ⊎ roots ->
  Z.of_nat (multiplicity l (refs (w_heap w) ⊎ roots)) + 1 < SIZE_MAX ->
  wp (json_incref (Some l)) w (fun r w' => r = Some l /\ Inv w' (roots ⊎ {[+ l +]}) Zs /\
    refs (w_heap w') = refs (w_heap w) /\ frame ∅ w w' /\ (forall m b, body_at w m b -> body_at w' m b) /\
    w_oom w' = w_oom w /\ w_seed w' = w_seed w).
Proof.
  intros Hinv Hl Hmax. destruct (inv_live _ _ _ _ Hinv Hl) as (n & Hn & Hrc).
  unfold json_incref. wp_step. eapply wp_deref; [done|]. wp_step.
  destruct (decide (l ∈ statics)) as [Hs|Hs].
  - destruct (static_node _ _ _ _ Hinv Hs) as (n' & Hn' & Hrc' & _). rewrite Hn in Hn'.
    injection Hn' as <-. rewrite Hrc', Z.eqb_refl. rewrite !wp_ret. split_and!; try done.
    eapply inv_static_root; [exact Hinv|]. intros m Hm. rewrite multiplicity_disj_union.
    rewrite multiplicity_singleton_ne; [lia|]. by intros ->.
  - destruct (inv_count _ _ _ Hinv l n Hn Hs) as (Hc & Hlt & _).
    rewrite (proj2 (Z.eqb_neq _ _)) by lia. unfold put_node. wp_steps.
    rewrite size_t_small by (unfold SIZE_MAX in *; lia). split_and!; try done.
    + eapply inv_count_change; eauto; [unfold SIZE_MAX in *; lia| |].
      * rewrite multiplicity_disj_union, multiplicity_singleton_eq. lia.
      * intros m Hm. rewrite multiplicity_disj_union, multiplicity_singleton_ne by done. lia.
    + pose proof (refs_insert (w_heap w) l n {| refcount := refcount n + 1; n_body := n_body n |} Hn) as H.
      unfold children in H. simpl in H. rewrite (proj2 (Z.eqb_neq _ _) Hrc), (proj2 (Z.eqb_neq (refcount n + 1) 0)) in H by lia.
      simpl. multiset_solver.
    + split; try done. simpl. intros m nm Hm _ _. rewrite lookup_insert in Hm.
      case_decide; simplify_eq/=; [by exists n|by exists nm].
    + intros m b (nm & Hm & <-). unfold body_at. simpl. rewrite lookup_insert. case_decide; simplify_eq/=; eauto.
Qed.

(* ------------------------------------------------------------------ *)
(** ** Constructors *)

(** A new node: it is held once by the caller. *)
Lemma inv_alloc w roots Zs b l w' :
  Inv w roots Zs -> body_ok (w_seed w) b -> body_children b = [] ->
  json_init b w = inr (l, w') ->
  Inv w' (roots ⊎ {[+ l +]}) Zs /\ frame ∅ w w' /\ body_at w' l b /\ w_heap w !! l = None /\
  (forall m b', body_at w m b' -> body_at w' m b') /\ refs (w_heap w') = refs (w_heap w) /\
  w_seed w' = w_seed w /\ l ∉ roots.
Proof.
  intros Hinv Hok Hch [= <- <-]. set (l := w_next w).
  assert (Hnew : w_heap w !! l = None).
  { apply eq_None_not_Some. intros H%(inv_fresh _ _ _ Hinv). unfold l in H. lia. }
  assert (Href : refs (<[l := {| refcount := 1; n_body := b |}]> (w_heap w)) = refs (w_heap w)).
  { rewrite refs_insert_new by done. unfold children. simpl. rewrite Hch. simpl. multiset_solver. }
  assert (Hl0 : l ∉ refs (w_heap w) ⊎ roots).
  { intros H%(inv_closed _ _ _ Hinv). rewrite Hnew in H. by destruct H. }
  assert (HlZ : l ∉ Zs).
  { intros H%(inv_dying _ _ _ Hinv). rewrite Hnew in H. by destruct H. }
  assert (Hls : l ∉ statics).
  { intros Hs. destruct (static_node _ _ _ _ Hinv Hs) as (? & ? & _). congruence. }
  split_and!; try done.
  - split; simpl; rewrite ?Href.
    + intros m nm Hm Hms. rewrite lookup_insert in Hm.
      rewrite (assoc_L (⊎)), multiplicity_disj_union. case_decide as Hml.
      * simplify_eq/=. rewrite multiplicity_singleton_eq.
        rewrite elem_of_multiplicity in Hl0. split_and!; [lia|unfold SIZE_MAX; lia|done].
      * rewrite multiplicity_singleton_ne by done. rewrite Nat.add_0_r.
        by apply (inv_count _ _ _ Hinv).
    + intros m Hm. rewrite lookup_insert. case_decide as Hml; [eauto|].
      apply (inv_closed _ _ _ Hinv). multiset_solver.
    + intros m nm Hm Hms. rewrite lookup_insert in Hm. case_decide; simplify_eq/=; [done|].
      by eapply (inv_body _ _ _ Hinv).
    + intros m nm Hm. rewrite lookup_insert_ne; [by apply (inv_statics _ _ _ Hinv)|].
      intros <-. apply Hls, elem_of_statics. eauto.
    + intros m Hm. rewrite lookup_insert in Hm. case_decide; [subst; unfold l; lia|].
      apply (inv_fresh _ _ _ Hinv) in Hm. lia.
    + intros m Hm%(inv_dying _ _ _ Hinv). rewrite lookup_insert. case_decide; eauto.
  - split; simpl; try done; [|lia]. intros m nm Hm _ Hlt. rewrite lookup_insert_ne in Hm.
    + by exists nm.
    + intros <-. unfold l in Hlt. lia.
  - eexists. simpl. rewrite lookup_insert_eq. done.
  - intros m b' (nm & Hm & <-). exists nm. simpl. rewrite lookup_insert_ne by congruence. done.
  - multiset_solver.
Qed.

(** A seed is only ever chosen while there is no object. *)
Lemma inv_set_seed w roots Zs s :
  Inv w roots Zs -> w_seed w = 0 -> Inv (set_seed s w) roots Zs.
Proof.
  intros [H1 H2 H3 H4 H5 H6] Hs0. split; simpl; try done. intros l n Hl Hs.
  specialize (H3 l n Hl Hs). rewrite Hs0 in H3. destruct (n_body n); simpl in *; try done.
  by destruct H3.
Qed.

Lemma generate_seed_nonzero e : generate_seed e <> 0.
Proof. unfold generate_seed. case_if; lia. Qed.

(** What every constructor promises. *)
Definition new_post (w : world) (roots : gmultiset loc) (Zs : gset loc) (P : world -> loc -> Prop)
    (r : json_ptr) (w' : world) : Prop :=
  frame ∅ w w' /\ (forall m b, body_at w m b -> body_at w' m b) /\
  refs (w_heap w') = refs (w_heap w) /\
  match r with
  | Some l => Inv w' (roots ⊎ {[+ l +]}) Zs /\ w_heap w !! l = None /\ l ∉ roots /\ P w' l
  | None => Inv w' roots Zs /\ w_oom w <> []
  end.

Lemma wp_json_init w0 w roots Zs b (P : world -> loc -> Prop) :
  Inv w roots Zs -> frame ∅ w0 w -> w_heap w = w_heap w0 ->
  body_ok (w_seed w) b -> body_children b = [] ->
  (forall w' l, body_at w' l b -> w_seed w' = w_seed w -> P w' l) ->
  wp (let* l := json_init b in ret (Some l)) w (new_post w0 roots Zs P).
Proof.
  intros Hinv Hfr Hheap Hok Hch HP. wp_step.
  destruct (json_init b w) as [|[l w']] eqn:E; [done|].
  destruct (inv_alloc w roots Zs b l w' Hinv Hok Hch E) as (H1 & H2 & H3 & H4 & H5 & H6 & H7 & H8).
  eapply wp_eq; [exact E|]. rewrite wp_ret. unfold new_post.
  split; [by etransitivity|]. unfold body_at in *. rewrite Hheap in *. eauto 10.
Qed.

Lemma json_object_spec w roots Zs :
  Inv w roots Zs -> wp json_object w (new_post w roots Zs (fun w' l => object_at w' l [])).
Proof.
  intros Hinv. unfold json_object. wp_step. apply wp_malloc. intros ok o Ho Hok. destruct ok.
  2:{ rewrite wp_ret. split_and!; [by apply frame_set_oom|done|done|by apply inv_set_oom|].
      by destruct (Hok eq_refl). }
  wp_step. wp_step. wp_step.
  set (m := if _ =? 0 then _ else _).
  assert (Hm : wp m (set_oom o w) (fun _ w' => Inv w' roots Zs /\ frame ∅ w w' /\ w_heap w' = w_heap w /\ w_seed w' <> 0)).
  { unfold m. simpl. case_if.
    - unfold json_object_seed. wp_steps. simpl. rewrite Heqb. simpl. wp_steps. split_and!.
      + apply inv_set_seed; [by apply inv_set_oom|done].
      + split; simpl; try done. intros l n Hl _ _. by exists n.
      + done.
      + apply generate_seed_nonzero.
    - rewrite wp_ret. split_and!; [by apply inv_set_oom|by apply frame_set_oom|done|done]. }
  clearbody m. eapply wp_mono; [exact Hm|]. intros _ w1 (Hinv1 & Hfr1 & Hh1 & Hs1). simpl.
  wp_step. apply wp_run_am. eapply wp_mono; [apply hashtable_init_spec|].
  intros r o1 [Ho1 Hr]. destruct r as [ht|]; simpl.
  - apply (wp_json_init w); simpl; try done.
    + by apply inv_set_oom.
    + etransitivity; [exact Hfr1|]. by apply frame_set_oom.
    + eauto.
    + rewrite map_to_list_empty_iff || idtac.
      destruct (Hr 0) as [xs Hwf].
      pose proof (object_children 0 ht [] ltac:(by exists xs)) as H. simpl in H.
      by apply Permutation_nil_r in H.
    + intros w' l Hb Hs. exists ht. split; [done|]. rewrite Hs. apply Hr.
  - rewrite wp_ret. split_and!; try done.
    + etransitivity; [exact Hfr1|]. by apply frame_set_oom.
    + intros m' b. unfold body_at. simpl. by rewrite Hh1.
    + simpl. by rewrite Hh1.
    + by apply inv_set_oom.
    + intros H0. apply Hr. by apply (fr_oom _ _ _ Hfr1).
Qed.

Lemma json_array_spec w roots Zs :
  Inv w roots Zs -> wp json_array w (new_post w roots Zs (fun w' l => array_at w' l [])).
Proof.
  intros Hinv. unfold json_array. wp_step. apply wp_malloc. intros ok o Ho Hok. destruct ok.
  2:{ rewrite wp_ret. split_and!; [by apply frame_set_oom|done|done|by apply inv_set_oom|].
      by destruct (Hok eq_refl). }
  wp_step. apply wp_malloc. intros ok o' Ho' Hok'. simpl in *.
  change (set_oom o' (set_oom o w)) with (set_oom o' w). destruct ok.
  2:{ rewrite wp_ret. split_and!; [apply frame_set_oom; auto|done|done|by apply inv_set_oom|].
      destruct (Hok' eq_refl); [done|]. intros H0. auto. }
  apply (wp_json_init w); try done.
  - by apply inv_set_oom.
  - apply frame_set_oom. auto.
  - exists []. apply new_array_ok.
  - intros w' l Hb _. eexists. split; [exact Hb|]. apply new_array_ok.
Qed.

(** A leaf value in one allocation. *)
Lemma leaf_spec size b w roots Zs :
  Inv w roots Zs -> size <> 0 -> body_ok (w_seed w) b -> body_children b = [] ->
  wp (let* ok := run_am (jsonp_malloc size) in
      if ok then (let* l := json_init b in ret (Some l)) else ret None) w
     (new_post w roots Zs (fun w' l => body_at w' l b)).
Proof.
  intros Hinv Hsz Hok Hch. wp_step. apply wp_malloc. intros ok o Ho Hf. destruct ok.
  - apply (wp_json_init w); try done; [by apply inv_set_oom|by apply frame_set_oom].
  - rewrite wp_ret. split_and!; [by apply frame_set_oom|done|done|by apply inv_set_oom|].
    by destruct (Hf eq_refl).
Qed.

Lemma json_integer_spec w roots Zs z :
  Inv w roots Zs -> INT64_MIN <= z <= INT64_MAX ->
  wp (json_integer z) w (new_post w roots Zs (fun w' l => body_at w' l (Integer z))).
Proof. intros Hinv Hz. by apply leaf_spec. Qed.

Lemma json_real_spec w roots Zs d :
  Inv w roots Zs -> not_finite d = false ->
  wp (json_real d) w (new_post w roots Zs (fun w' l => body_at w' l (Real d))).
Proof. intros Hinv Hd. unfold json_real. rewrite Hd. by apply leaf_spec. Qed.

Lemma string_own_spec w roots Zs s :
  Inv w roots Zs ->
  wp (jsonp_stringn_nocheck_own (Some s)) w (new_post w roots Zs (fun w' l => body_at w' l (Str s))).
Proof.
  intros Hinv. unfold jsonp_stringn_nocheck_own, string_create. wp_step. wp_step. by apply leaf_spec.
Qed.

Lemma json_stringn_nocheck_spec w roots Zs s :
  Inv w roots Zs -> Z.of_nat (length s) < SIZE_MAX ->
  wp (json_stringn_nocheck (Some s)) w (new_post w roots Zs (fun w' l => body_at w' l (Str s))).
Proof.
  intros Hinv Hlen. unfold json_stringn_nocheck, string_create, jsonp_strndup. wp_step.
  apply wp_run_am. wp_step.
  destruct (jsonp_malloc_cases (size_t (Z.of_nat (length s) + 1)) (w_oom w))
    as [(o & E & _ & Ho)|(o & E & H & Ho)]; (eapply wp_eq; [exact E|]); cbv beta iota; rewrite wp_ret.
  - rewrite firstn_all. eapply wp_mono; [apply (leaf_spec SIZEOF_STRING (Str s) _ roots Zs)|];
      try done; [by apply inv_set_oom|].
    intros r w' (H1 & H2 & H3 & H4). split_and!; try done.
    + etransitivity; [|exact H1]. by apply frame_set_oom.
    + destruct r; [done|]. destruct H4 as [? Hoom]. split; [done|]. simpl in Hoom. auto.
  - rewrite wp_ret. split_and!; [by apply frame_set_oom|done|done|by apply inv_set_oom|].
    destruct H as [H|H]; [|done]. rewrite size_t_small in H by lia. lia.
Qed.

Lemma json_stringn_spec w roots Zs s :
  Inv w roots Zs -> Z.of_nat (length s) < SIZE_MAX -> utf8_check_string s = true ->
  wp (json_stringn (Some s)) w (new_post w roots Zs (fun w' l => body_at w' l (Str s))).
Proof. intros. unfold json_stringn. rewrite H1. by apply json_stringn_nocheck_spec. Qed.

(* ------------------------------------------------------------------ *)
(** ** Objects *)

Lemma mset_aset k v l :
  mset (aset k v l).*2 ⊎ opt_mset (alookup k l) = mset l.*2 ⊎ {[+ v +]}.
Proof.
  induction l as [|[k' v'] l IH]; cbn [aset alookup]; [simpl; multiset_solver|].
  case_decide; rewrite !fmap_cons, !list_to_set_disj_cons; cbn [snd opt_mset]; multiset_solver.
Qed.

Lemma mset_object seed ht items : ht_rep seed ht items -> mset (body_children (Object ht)) = mset (kvs items).*2.
Proof. intros H. rewrite (mset_perm _ _ (object_children _ _ _ H)). by rewrite vals_kvs. Qed.

(** The object at [l] gets the table [ht'], whose pairs [items'] account for
    what the code held and now holds. *)
Lemma inv_put_object w roots roots' Zs l n ht items ht' items' :
  Inv w roots Zs -> w_heap w !! l = Some n -> n_body n = Object ht ->
  ht_rep (w_seed w) ht items -> ht_rep (w_seed w) ht' items' ->
  l ∈ refs (w_heap w) ⊎ roots ->
  mset (kvs items').*2 ⊎ roots' = mset (kvs items).*2 ⊎ roots ->
  Inv (set_heap (<[l := {| refcount := refcount n; n_body := Object ht' |}]> (w_heap w)) w) roots' Zs.
Proof.
  intros Hinv Hn Hb Hr Hr' Hlive Hm.
  assert (Hs : l ∉ statics).
  { eapply (object_not_static w _ _ l items); [exact Hinv|]. exists ht. split; [by exists n|done]. }
  destruct (inv_live _ _ _ _ Hinv Hlive) as (n' & Hn' & Hrc). rewrite Hn in Hn'. injection Hn' as <-.
  eapply inv_put; eauto.
  - pose proof (inv_body _ _ _ Hinv l n Hn Hs) as Hok. rewrite Hb in Hok. simpl in *.
    destruct Hok as [? _]. eauto.
  - rewrite Hb. rewrite (mset_object _ _ _ Hr), (mset_object _ _ _ Hr'). done.
Qed.

(** [json_object_set_new_nocheck] on an object [l] the caller holds: the
    reference to [v] is consumed on every path. *)
Lemma json_object_set_new_nocheck_spec w roots Zs l items k v :
  Inv w (roots ⊎ {[+ v +]}) Zs -> object_at w l items -> l ∈ roots -> l <> v ->
  Z.of_nat (length items) < 2 ^ 31 ->
  wp (json_object_set_new_nocheck (Some l) (Some k) (Some v)) w (fun r w' =>
    Inv w' roots Zs /\ frame {[l]} w w' /\ (w_seed w' = w_seed w /\ w_next w' = w_next w) /\
    ((r = 0 /\ exists items', object_at w' l items' /\ kvs items' = aset k v (kvs items) /\
        items.*1 `prefix_of` items'.*1) \/
     (r = -1 /\ object_at w' l items /\ (w_oom w <> [] \/ MAX_KEY <= Z.of_nat (length k))))).
Proof.
  intros Hinv (ht & (n & Hn & Hb) & Hrep) Hl Hne Hsz. unfold json_object_set_new_nocheck.
  wp_step. eapply wp_json_is; [by exists n|]. rewrite bool_decide_true by done. simpl negb.
  rewrite (bool_decide_false (l = v)) by done. cbv beta iota. simpl orb. cbv iota.
  wp_step. eapply wp_json_to_object; [by exists n|]. wp_step. wp_step. wp_step.
  apply wp_run_am.
  assert (Hsz' : ht_size ht < 2 ^ 31).
  { destruct Hrep as [xs Hwf]. by rewrite (wf_size _ _ _ _ Hwf). }
  eapply wp_mono; [apply (hashtable_set_spec _ _ _ k v (w_oom w) Hrep Hsz')|].
  intros [[r ht'] old] o [Ho (items' & Hrep' & Hcase)]. cbv beta iota.
  wp_step. eapply wp_put_body; [exact Hn|]. simpl. wp_step.
  set (w1 := set_heap _ _).
  assert (Hlive : l ∈ refs (w_heap w) ⊎ (roots ⊎ {[+ v +]})) by multiset_solver.
  assert (Hinv1 : Inv w1 (if bool_decide (r = 0) then roots ⊎ opt_mset old else roots ⊎ {[+ v +]}) Zs).
  { eapply (inv_put_object (set_oom o w)); try done; [by apply inv_set_oom|].
    destruct Hcase as [(-> & -> & -> & _)|(-> & -> & _ & _)]; simpl; [|done].
    rewrite (assoc_L (⊎)), (comm_L (⊎) _ roots), <- (assoc_L (⊎)), mset_aset. multiset_solver. }
  assert (Hfr1 : frame {[l]} w w1).
  { transitivity (set_oom o w); [by apply frame_set_oom|]. apply (frame_put _ (set_oom o w)). by apply elem_of_singleton. }
  assert (Hat1 : body_at w1 l (Object ht')).
  { eexists. simpl. by rewrite lookup_insert_eq. }
  destruct Hcase as [(-> & Hkv & Hold & Hpre & _)|(-> & -> & -> & Hoom)]; simpl in Hinv1.
  - eapply wp_mono; [by apply json_decref_opt_spec|]. intros _ w2 [Hinv2 Hsh2]. simpl.
    rewrite wp_ret. split_and!; try done.
    + etransitivity; [exact Hfr1|]. by apply shrink_frame.
    + apply (sh_seed _ _ Hsh2).
    + apply (sh_next _ _ Hsh2).
    + left. split; [done|]. exists items'. split_and!; try done. exists ht'. split.
      * eapply body_at_shrink; eauto.
      * by rewrite (sh_seed _ _ Hsh2).
  - unfold release, json_decref at 1. rewrite wp_ret. simpl. wp_step.
    eapply wp_mono; [by apply json_decref_spec|]. intros _ w2 (Hinv2 & Hsh2 & _).
    rewrite wp_ret. split_and!; try done.
    + etransitivity; [exact Hfr1|]. by apply shrink_frame.
    + apply (sh_seed _ _ Hsh2).
    + apply (sh_next _ _ Hsh2).
    + right. split_and!; try done. exists ht'. split.
      * eapply body_at_shrink; eauto.
      * by rewrite (sh_seed _ _ Hsh2).
Qed.

Lemma json_object_get_spec w l items k :
  object_at w l items ->
  wp (json_object_get (Some l) (Some k)) w (fun r w' => w' = w /\ r = alookup k (kvs items)).
Proof.
  intros (ht & (n & Hn & Hb) & Hrep). unfold json_object_get.
  wp_step. eapply wp_json_is; [by exists n|]. rewrite bool_decide_true by done. cbv beta iota.
  wp_step. eapply wp_json_to_object; [by exists n|]. wp_step. wp_step.
  destruct Hrep as [xs Hwf]. eapply wp_lift_res; [by apply (hashtable_get_spec _ _ xs)|]. done.
Qed.

Lemma json_object_del_spec w roots Zs l items k :
  Inv w roots Zs -> object_at w l items -> l ∈ roots ->
  wp (json_object_del (Some l) (Some k)) w (fun r w' =>
    Inv w' roots Zs /\ frame {[l]} w w' /\
    exists items', object_at w' l items' /\
      match alookup k (kvs items) with
      | Some _ => r = 0 /\ kvs items' = adel k (kvs items)
      | None => r = -1 /\ items' = items
      end).
Proof.
  intros Hinv (ht & (n & Hn & Hb) & Hrep) Hl. unfold json_object_del.
  wp_step. eapply wp_json_is; [by exists n|]. rewrite bool_decide_true by done. cbv beta iota.
  wp_step. eapply wp_json_to_object; [by exists n|]. wp_step. wp_step. wp_step.
  pose proof (hashtable_del_spec _ _ _ k Hrep) as Hdel.
  destruct (hashtable_del (w_seed w) ht k) as [|[[ht' v]|]] eqn:E; [done| |].
  - destruct Hdel as (Hlk & _ & items' & Hrep' & Hkv & Hvals).
    eapply wp_lift_res; [done|]. cbv beta iota. wp_step. eapply wp_put_body; [exact Hn|]. wp_step.
    set (w1 := set_heap _ _).
    assert (Hinv1 : Inv w1 (roots ⊎ {[+ v +]}) Zs).
    { eapply (inv_put_object w); eauto; [multiset_solver|].
      rewrite <- !vals_kvs. rewrite (mset_perm _ _ Hvals). multiset_solver. }
    eapply wp_mono; [by apply (json_decref_spec w1)|]. intros _ w2 (Hinv2 & Hsh2 & _).
    rewrite wp_ret. split_and!; try done.
    + etransitivity; [apply frame_put; by apply elem_of_singleton|]. by apply shrink_frame.
    + exists items'. rewrite Hlk. split; [|done]. exists ht'. split.
      * eapply body_at_shrink; eauto. eexists. simpl. by rewrite lookup_insert_eq.
      * by rewrite (sh_seed _ _ Hsh2).
  - eapply wp_lift_res; [done|]. cbv beta iota. rewrite wp_ret. split_and!; [done|reflexivity|].
    exists items. rewrite Hdel. split; [|done]. exists ht. split; [by exists n|done].
Qed.

Lemma json_object_clear_spec w roots Zs l items :
  Inv w roots Zs -> object_at w l items -> l ∈ roots ->
  wp (json_object_clear (Some l)) w (fun r w' =>
    r = 0 /\ Inv w' roots Zs /\ frame {[l]} w w' /\ object_at w' l []).
Proof.
  intros Hinv (ht & (n & Hn & Hb) & Hrep) Hl. unfold json_object_clear.
  wp_step. eapply wp_json_is; [by exists n|]. rewrite bool_decide_true by done. cbv beta iota.
  wp_step. eapply wp_json_to_object; [by exists n|]. wp_step.
  destruct (hashtable_clear_spec _ _ _ Hrep) as (ht' & vs & E & Hvs & Hrep').
  eapply wp_lift_res; [exact E|]. cbv beta iota. wp_step. eapply wp_put_body; [exact Hn|]. wp_step.
  set (w1 := set_heap _ _).
  assert (Hinv1 : Inv w1 (roots ⊎ mset vs) Zs).
  { eapply (inv_put_object w); eauto; [multiset_solver|].
    rewrite <- !vals_kvs, (mset_perm _ _ Hvs). simpl. multiset_solver. }
  eapply wp_mono; [by apply (iter_release_spec vs w1)|]. intros _ w2 (Hinv2 & Hsh2).
  rewrite wp_ret. split_and!; try done.
  - etransitivity; [apply frame_put; by apply elem_of_singleton|]. by apply shrink_frame.
  - exists ht'. split; [|apply Hrep'].
    eapply body_at_shrink; eauto. eexists. simpl. by rewrite lookup_insert_eq.
Qed.

Lemma json_object_iter_set_new_spec w roots Zs l i1 m pr i2 v :
  Inv w (roots ⊎ {[+ v +]}) Zs -> object_at w l (i1 ++ (m, pr) :: i2) -> l ∈ roots ->
  wp (json_object_iter_set_new (Some l) (Some m) (Some v)) w (fun r w' =>
    r = 0 /\ Inv w' roots Zs /\ frame {[l]} w w' /\
    object_at w' l (i1 ++ (m, {| p_hash := p_hash pr; p_key := p_key pr; p_value := v |}) :: i2)).
Proof.
  intros Hinv (ht & (n & Hn & Hb) & Hrep) Hl. unfold json_object_iter_set_new.
  wp_step. eapply wp_json_is; [by exists n|]. rewrite bool_decide_true by done. cbv beta iota.
  wp_step. eapply wp_json_to_object; [by exists n|]. wp_step.
  destruct (replace_value_spec _ _ _ _ _ _ v Hrep) as (ht' & E & Hrep' & _).
  eapply wp_require; [exact E|]. cbv beta iota. wp_step. eapply wp_put_body; [exact Hn|]. wp_step.
  set (w1 := set_heap _ _).
  assert (Hinv1 : Inv w1 (roots ⊎ {[+ p_value pr +]}) Zs).
  { eapply (inv_put_object w _ _ _ _ _ _ _ _ _ Hinv Hn Hb Hrep Hrep'); [multiset_solver|].
    rewrite <- !vals_kvs. unfold vals. rewrite !fmap_app, !fmap_cons, !list_to_set_disj_app,
      !list_to_set_disj_cons. cbn [snd p_value]. multiset_solver. }
  eapply wp_mono; [by apply (json_decref_spec w1)|]. intros _ w2 (Hinv2 & Hsh2 & _).
  rewrite wp_ret. split_and!; try done.
  - etransitivity; [apply frame_put; by apply elem_of_singleton|]. by apply shrink_frame.
  - exists ht'. split.
    + eapply body_at_shrink; eauto. eexists. simpl. by rewrite lookup_insert_eq.
    + by rewrite (sh_seed _ _ Hsh2).
Qed.

(* ------------------------------------------------------------------ *)
(** ** Arrays *)

Lemma inv_put_array w roots roots' Zs l n a xs a' xs' :
  Inv w roots Zs -> w_heap w !! l = Some n -> n_body n = Array a ->
  array_ok a xs -> array_ok a' xs' -> l ∈ refs (w_heap w) ⊎ roots ->
  mset xs' ⊎ roots' = mset xs ⊎ roots ->
  Inv (set_heap (<[l := {| refcount := refcount n; n_body := Array a' |}]> (w_heap w)) w) roots' Zs.
Proof.
  intros Hinv Hn Hb Hr Hr' Hlive Hm.
  assert (Hs : l ∉ statics).
  { eapply (array_not_static w _ _ l xs); [exact Hinv|]. exists a. split; [by exists n|done]. }
  destruct (inv_live _ _ _ _ Hinv Hlive) as (n' & Hn' & Hrc). rewrite Hn in Hn'. injection Hn' as <-.
  eapply inv_put; eauto.
  - by exists xs'.
  - rewrite Hb. by rewrite (array_children _ _ Hr), (array_children _ _ Hr').
Qed.

Lemma json_array_get_spec w l xs i :
  array_at w l xs -> 0 <= i ->
  wp (json_array_get (Some l) i) w (fun r w' => w' = w /\ r = xs !! Z.to_nat i).
Proof.
  intros (a & (n & Hn & Hb) & Ha) Hi. unfold json_array_get.
  wp_step. eapply wp_json_is; [by exists n|]. rewrite bool_decide_true by done. cbv beta iota.
  wp_step. eapply wp_json_to_array; [by exists n|]. rewrite (ar_entries _ _ Ha). case_if.
  - rewrite wp_ret. split; [done|]. symmetry. apply lookup_ge_None. lia.
  - destruct (lookup_lt_is_Some_2 xs (Z.to_nat i) ltac:(lia)) as [x Hx].
    pose proof (table_get_ok _ _ _ _ Ha Hx) as Ht. rewrite Z2Nat.id in Ht by done.
    wp_step. eapply wp_require; [exact Ht|]. rewrite wp_ret. by rewrite Hx.
Qed.

Lemma json_array_size_spec w l xs :
  array_at w l xs ->
  wp (json_array_size (Some l)) w (fun r w' => w' = w /\ r = Z.of_nat (length xs)).
Proof.
  intros (a & (n & Hn & Hb) & Ha). unfold json_array_size.
  wp_step. eapply wp_json_is; [by exists n|]. rewrite bool_decide_true by done. cbv beta iota.
  wp_step. eapply wp_json_to_array; [by exists n|]. rewrite wp_ret. split; [done|]. apply Ha.
Qed.

(** [json_array_append_new] *)
Lemma json_array_append_new_spec w roots Zs l xs v :
  Inv w (roots ⊎ {[+ v +]}) Zs -> array_at w l xs -> l ∈ roots -> l <> v ->
  Z.of_nat (length xs) + 1 <= ARRAY_MAX ->
  wp (json_array_append_new (Some l) (Some v)) w (fun r w' =>
    Inv w' roots Zs /\ frame {[l]} w w' /\ (w_seed w' = w_seed w /\ w_next w' = w_next w) /\
    ((r = 0 /\ array_at w' l (xs ++ [v])) \/ (r = -1 /\ array_at w' l xs /\ w_oom w <> []))).
Proof.
  intros Hinv (a & (n & Hn & Hb) & Ha) Hl Hne Hsz. unfold json_array_append_new.
  wp_step. eapply wp_json_is; [by exists n|]. rewrite bool_decide_true by done.
  rewrite (bool_decide_false (l = v)) by done. simpl orb. cbv beta iota.
  wp_step. eapply wp_json_to_array; [by exists n|]. wp_step. apply wp_run_am.
  eapply wp_mono; [apply (array_grow_copy_spec a xs 1 (w_oom w) Ha); lia|].
  intros g o [Ho Hg]. destruct g as [[a1 t]|]; cbv beta iota.
  - destruct Hg as [Ha1 Hfit]. destruct (array_append_ok a1 xs v Ha1 Hfit) as (a2 & E2 & Ha2).
    wp_step. eapply wp_require; [exact E2|]. wp_step. eapply wp_put_body; [exact Hn|].
    rewrite wp_ret. set (w1 := set_heap _ _). split_and!.
    + eapply (inv_put_array (set_oom o w)); [by apply inv_set_oom|eauto..|simpl; multiset_solver|].
      rewrite list_to_set_disj_app. simpl. multiset_solver.
    + transitivity (set_oom o w); [by apply frame_set_oom|]. apply (frame_put _ (set_oom o w)).
      by apply elem_of_singleton.
    + done.
    + done.
    + left. split; [done|]. eexists. split; [|exact Ha2]. eexists. simpl. by rewrite lookup_insert_eq.
  - wp_step. eapply wp_mono; [apply (json_decref_spec (set_oom o w)); by apply inv_set_oom|].
    intros _ w2 (Hinv2 & Hsh2 & _). rewrite wp_ret. split_and!; try done.
    + transitivity (set_oom o w); [by apply frame_set_oom|by apply shrink_frame].
    + apply (sh_seed _ _ Hsh2).
    + apply (sh_next _ _ Hsh2).
    + right. split_and!; try done. exists a. split; [|done]. eapply body_at_shrink; eauto. by exists n.
Qed.

(** [json_array_insert_new] *)
Lemma json_array_insert_new_spec w roots Zs l xs v i :
  Inv w (roots ⊎ {[+ v +]}) Zs -> array_at w l xs -> l ∈ roots -> l <> v ->
  Z.of_nat (length xs) + 1 <= ARRAY_MAX -> (i <= length xs)%nat ->
  wp (json_array_insert_new (Some l) (Z.of_nat i) (Some v)) w (fun r w' =>
    Inv w' roots Zs /\ frame {[l]} w w' /\
    ((r = 0 /\ array_at w' l (take i xs ++ v :: drop i xs)) \/
     (r = -1 /\ array_at w' l xs /\ w_oom w <> []))).
Proof.
  intros Hinv (a & (n & Hn & Hb) & Ha) Hl Hne Hsz Hi. unfold json_array_insert_new.
  wp_step. eapply wp_json_is; [by exists n|]. rewrite bool_decide_true by done.
  rewrite (bool_decide_false (l = v)) by done. simpl orb. cbv beta iota.
  wp_step. eapply wp_json_to_array; [by exists n|].
  rewrite (proj2 (Z.ltb_ge _ _)) by (rewrite (ar_entries _ _ Ha); lia).
  wp_step. apply wp_run_am.
  eapply wp_mono; [by apply (array_grow_insert_spec a xs i v (w_oom w) Ha)|].
  intros g o [Ho Hg]. destruct g as [[a1 t]|]; cbv beta iota.
  - destruct Hg as (a2 & a3 & E2 & E3 & Ha3).
    wp_step. eapply wp_require; [exact E2|]. wp_step. eapply wp_require; [exact E3|].
    wp_step. eapply wp_put_body; [exact Hn|]. rewrite wp_ret. set (w1 := set_heap _ _). split_and!.
    + eapply (inv_put_array (set_oom o w)); [by apply inv_set_oom|eauto..|simpl; multiset_solver|].
      rewrite <- (take_drop i xs) at 3. rewrite !list_to_set_disj_app. simpl. multiset_solver.
    + transitivity (set_oom o w); [by apply frame_set_oom|]. apply (frame_put _ (set_oom o w)).
      by apply elem_of_singleton.
    + left. split; [done|]. eexists. split; [|exact Ha3]. eexists. simpl. by rewrite lookup_insert_eq.
  - wp_step. eapply wp_mono; [apply (json_decref_spec (set_oom o w)); by apply inv_set_oom|].
    intros _ w2 (Hinv2 & Hsh2 & _). rewrite wp_ret. split_and!; try done.
    + transitivity (set_oom o w); [by apply frame_set_oom|by apply shrink_frame].
    + right. split_and!; try done. exists a. split; [|done]. eapply body_at_shrink; eauto. by exists n.
Qed.

(** ** Releasing elements before the array is updated

    [json_array_set_new], [json_array_remove] and [json_array_clear] release
    elements the array still points to.  The array is held by the caller, so
    the release neither deletes nor reads it: it does the same as on the heap
    where the array is already updated, for which the counts are exact. *)

Definition with_body (l : loc) (b : body) (w : world) : world :=
  set_heap (alter (fun n => {| refcount := refcount n; n_body := b |}) l (w_heap w)) w.

Lemma with_body_lookup_ne l b w x : x <> l -> w_heap (with_body l b w) !! x = w_heap w !! x.
Proof. intros H. simpl. by rewrite lookup_alter_ne. Qed.
Lemma with_body_lookup l b w n :
  w_heap w !! l = Some n ->
  w_heap (with_body l b w) !! l = Some {| refcount := refcount n; n_body := b |}.
Proof. intros H. simpl. by rewrite lookup_alter_eq, H. Qed.

Lemma with_body_put_ne l b w x n :
  x <> l -> put_node x n (with_body l b w) = inr (tt, with_body l b (set_heap (<[x := n]> (w_heap w)) w)).
Proof.
  intros H. unfold put_node, modify, with_body. simpl. do 2 f_equal. unfold set_heap. simpl. f_equal.
  by rewrite alter_insert_ne.
Qed.
Lemma with_body_put l b w n rc :
  w_heap w !! l = Some n ->
  put_node l {| refcount := rc; n_body := b |} (with_body l b w) =
  inr (tt, with_body l b (set_heap (<[l := {| refcount := rc; n_body := n_body n |}]> (w_heap w)) w)).
Proof.
  intros H. unfold put_node, modify, with_body. simpl. do 2 f_equal. unfold set_heap. simpl. f_equal.
  rewrite alter_insert_eq. simpl. apply map_eq. intros m. rewrite !lookup_insert. case_decide; [done|].
  by rewrite lookup_alter_ne.
Qed.
Lemma with_body_free l b w x :
  x <> l -> free_node x (with_body l b w) = inr (tt, with_body l b (set_heap (delete x (w_heap w)) w)).
Proof.
  intros H. unfold free_node, modify, with_body. simpl. do 2 f_equal. unfold set_heap. simpl. f_equal.
  by rewrite delete_alter_ne.
Qed.

Definition releases_alike (l : loc) (b : body) (f : loc -> W unit) (w : world)
    (roots : gmultiset loc) (Zs : gset loc) (x : loc) : Prop :=
  exists w', f x w = inr (tt, w') /\ decref_post w roots Zs w' /\
    f x (with_body l b w) = inr (tt, with_body l b w').

Lemma iter_with_body l b f fuel :
  (forall w roots Zs x, Inv w (roots ⊎ {[+ x +]}) Zs -> l ∈ roots -> (live (w_heap w) < fuel)%nat ->
    releases_alike l b f w roots Zs x) ->
  forall vs w roots Zs, Inv w (roots ⊎ mset vs) Zs -> l ∈ roots -> (live (w_heap w) < fuel)%nat ->
  exists w', iterM f vs w = inr (tt, w') /\ decref_post w roots Zs w' /\
    iterM f vs (with_body l b w) = inr (tt, with_body l b w').
Proof.
  intros Hf vs. induction vs as [|v vs IH]; intros w roots Zs Hinv Hl Hfuel.
  - exists w. split_and!; [done| |done]. split_and!; [|reflexivity|auto].
    by rewrite gmultiset_disj_union_right_id in Hinv.
  - destruct (Hf w (roots ⊎ mset vs) Zs v) as (w1 & E1 & (Hinv1 & Hsh1 & Hz1) & E1').
    + replace (roots ⊎ mset vs ⊎ {[+ v +]}) with (roots ⊎ mset (v :: vs)); [done|].
      rewrite list_to_set_disj_cons. multiset_solver.
    + multiset_solver.
    + done.
    + destruct (IH w1 roots Zs Hinv1 Hl) as (w2 & E2 & (Hinv2 & Hsh2 & Hz2) & E2').
      * pose proof (shrink_live _ _ Hsh1). lia.
      * exists w2. simpl. rewrite !(bind_inr _ _ _ _ _ E1), !(bind_inr _ _ _ _ _ E1'). split_and!; try done.
        split_and!; [done|by etransitivity|eauto].
Qed.

Lemma json_delete_with_body l b f fuel w roots Zs x n :
  (forall w roots Zs x, Inv w (roots ⊎ {[+ x +]}) Zs -> l ∈ roots -> (live (w_heap w) < fuel)%nat ->
    releases_alike l b f w roots Zs x) ->
  Inv w (roots ⊎ mset (body_children (n_body n))) ({[x]} ∪ Zs) -> x ∉ statics -> x <> l ->
  w_heap w !! x = Some n -> l ∈ roots -> (live (w_heap w) < fuel)%nat ->
  exists w', json_delete f x w = inr (tt, w') /\ json_delete f x (with_body l b w) = inr (tt, with_body l b w').
Proof.
  intros Hf Hinv Hs Hxl Hx Hl Hfuel.
  pose proof (deleted_children _ _ (inv_body _ _ _ Hinv x n Hx Hs)) as Hch.
  assert (Hd1 : deref x w = inr (n, w)) by (unfold deref; by rewrite Hx).
  assert (Hd2 : deref x (with_body l b w) = inr (n, with_body l b w)).
  { unfold deref. by rewrite with_body_lookup_ne, Hx. }
  unfold json_delete. rewrite (bind_inr _ _ _ _ _ Hd1), (bind_inr _ _ _ _ _ Hd2).
  assert (Hiter : forall vs, vs ≡ₚ body_children (n_body n) ->
    exists w', (iterM f vs ;;; free_node x) w = inr (tt, w') /\
      (iterM f vs ;;; free_node x) (with_body l b w) = inr (tt, with_body l b w')).
  { intros vs Hvs. destruct (iter_with_body l b f fuel Hf vs w roots ({[x]} ∪ Zs)) as (w2 & E & _ & E');
      [by rewrite (mset_perm _ _ Hvs)|done|done|].
    rewrite (bind_inr _ _ _ _ _ E), (bind_inr _ _ _ _ _ E'), with_body_free by done. eauto. }
  destruct (n_body n) eqn:Eb; try (eexists; split; [reflexivity|by apply with_body_free]);
    try (pose proof (inv_body _ _ _ Hinv x n Hx Hs) as Hb; by rewrite Eb in Hb).
  - destruct Hch as (vs & E & Hvs).
    assert (L : forall v : world, lift_res (hashtable_close hashtable) v = inr (vs, v))
      by (intros v; unfold lift_res; by rewrite E).
    rewrite (bind_inr _ _ _ _ _ (L w)), (bind_inr _ _ _ _ _ (L (with_body l b w))). by apply Hiter.
  - destruct Hch as (vs & E & Hvs).
    assert (L : forall v : world, require (array_items array) v = inr (vs, v))
      by (intros v; by rewrite E).
    rewrite (bind_inr _ _ _ _ _ (L w)), (bind_inr _ _ _ _ _ (L (with_body l b w))). by apply Hiter.
Qed.

Lemma decref_with_body l b fuel w roots Zs x :
  Inv w (roots ⊎ {[+ x +]}) Zs -> l ∈ roots -> (live (w_heap w) < fuel)%nat ->
  releases_alike l b (decref_fuel fuel) w roots Zs x.
Proof.
  revert w roots Zs x. induction fuel as [|fuel IH]; intros w roots Zs x Hinv Hl Hfuel; [lia|].
  pose proof (decref_fuel_spec (S fuel) w roots Zs x Hinv Hfuel) as Hspec.
  apply wp_inv in Hspec as ([] & w' & E & Hpost). exists w'. split_and!; [done|done|].
  destruct (inv_root _ _ _ x Hinv) as (n & Hx & Hrc); [multiset_solver|].
  assert (Hd1 : deref x w = inr (n, w)) by (unfold deref; by rewrite Hx).
  simpl in E |- *. rewrite (bind_inr _ _ _ _ _ Hd1) in E.
  destruct (decide (x = l)) as [->|Hxl].
  - assert (Hd2 : deref l (with_body l b w) = inr ({| refcount := refcount n; n_body := b |}, with_body l b w)).
    { unfold deref. by rewrite (with_body_lookup _ _ _ _ Hx). }
    rewrite (bind_inr _ _ _ _ _ Hd2). simpl. destruct (Z.eqb_spec (refcount n) SIZE_MAX) as [Hm|Hm].
    { by injection E as <-. }
    assert (Hs : l ∉ statics).
    { intros Hs. destruct (static_node _ _ _ _ Hinv Hs) as (n' & ? & ? & _). congruence. }
    destruct (inv_count _ _ _ Hinv l n Hx Hs) as (Hc & Hlt & _).
    assert (2 <= refcount n).
    { rewrite elem_of_multiplicity in Hl. rewrite Hc, !multiplicity_disj_union, multiplicity_singleton_eq. lia. }
    rewrite (bind_inr _ _ _ _ _ (with_body_put l b w n _ Hx)).
    unfold bind, put_node, modify in E. rewrite size_t_small in E |- * by (unfold SIZE_MAX in *; lia).
    rewrite (proj2 (Z.eqb_neq _ _)) in E |- * by lia. by injection E as <-.
  - assert (Hd2 : deref x (with_body l b w) = inr (n, with_body l b w)).
    { unfold deref. by rewrite with_body_lookup_ne, Hx. }
    rewrite (bind_inr _ _ _ _ _ Hd2). destruct (Z.eqb_spec (refcount n) SIZE_MAX) as [Hm|Hm].
    { by injection E as <-. }
    assert (Hs : x ∉ statics).
    { intros Hs. destruct (static_node _ _ _ _ Hinv Hs) as (n' & ? & ? & _). congruence. }
    rewrite (bind_inr _ _ _ _ _ (with_body_put_ne l b w x _ Hxl)).
    unfold bind, put_node, modify in E. destruct (inv_count _ _ _ Hinv x n Hx Hs) as (Hc & Hlt & Hz).
    rewrite size_t_small in E |- * by (unfold SIZE_MAX in *; lia). case_if; [|by injection E as <-].
    assert (Hrc1 : refcount n = 1) by lia. rewrite Hrc1 in E |- *. change (1 - 1) with 0 in *.
    set (w1 := set_heap _ w) in *.
    destruct (json_delete_with_body l b (decref_fuel fuel) fuel w1 roots Zs x
      {| refcount := 0; n_body := n_body n |}) as (w2 & E2 & E2'); try done.
    + by apply (inv_last w roots Zs x n).
    + simpl. apply lookup_insert_eq.
    + simpl. pose proof (live_zero (w_heap w) x n (n_body n) Hx Hrc Hs). lia.
    + rewrite E2 in E. injection E as <-. exact E2'.
Qed.

(** Release elements of an array, then update it: as if it had been updated
    first. *)
Lemma release_then_put w roots Zs l n b' vs :
  w_heap w !! l = Some n -> l ∈ roots ->
  let w0 := set_heap (<[l := {| refcount := refcount n; n_body := b' |}]> (w_heap w)) w in
  Inv w0 (roots ⊎ mset vs) Zs ->
  wp (iterM (fun v => json_decref (Some v)) vs) w (fun _ w1 =>
    body_at w1 l (n_body n) /\
    forall (k : W Z) Q, (forall w2, Inv w2 roots Zs -> shrink w0 w2 -> body_at w2 l b' -> wp k w2 Q) ->
      wp (put_body l b' ;;; k) w1 Q).
Proof.
  intros Hn Hl w0 Hinv.
  assert (Hw : with_body l (n_body n) w0 = w).
  { unfold with_body, w0, set_heap. simpl. destruct w. simpl in *. f_equal. apply map_eq. intros m.
    rewrite alter_insert_eq. simpl. rewrite lookup_insert. case_decide; [|done]. subst. rewrite Hn.
    by destruct n. }
  destruct (iter_with_body l (n_body n) (fun v => json_decref (Some v)) (S (live (w_heap w0))))
    with (vs := vs) (w := w0) (roots := roots) (Zs := Zs) as (w2 & _ & (Hinv2 & Hsh2 & _) & E); try done; [|lia|].
  { intros u r z x Hu Hlr _. unfold releases_alike, json_decref.
    assert (Hsz : size (w_heap (with_body l (n_body n) u)) = size (w_heap u)).
    { simpl. rewrite <- !size_dom, dom_alter_L. done. }
    unfold bind, gets. rewrite Hsz.
    apply (decref_with_body l (n_body n) (S (size (w_heap u))) u r z x Hu Hlr).
    unfold live. pose proof (map_size_filter (fun e : loc * node => refcount e.2 <> 0 /\ e.1 ∉ statics) (w_heap u)).
    lia. }
  rewrite Hw in E. eapply wp_eq; [exact E|].
  assert (Hat : body_at w2 l b').
  { eapply body_at_shrink; eauto. eexists. simpl. by rewrite lookup_insert_eq. }
  destruct Hat as (n2 & Hn2 & Hb2). split.
  - eexists. split; [by apply with_body_lookup|done].
  - intros k Q Hk. wp_step. eapply wp_put_body; [by apply with_body_lookup|].
    match goal with |- wp _ ?w3 _ => assert (w3 = w2) as -> end; [|apply Hk; eauto; by exists n2].
    unfold with_body, set_heap. simpl. destruct w2. simpl in *. f_equal. apply map_eq. intros m.
    rewrite lookup_insert. case_decide as Hm; [rewrite <- Hm, Hn2, <- Hb2; by destruct n2|].
    by rewrite lookup_alter_ne.
Qed.

Lemma release_one_then_put w roots Zs l n b' x :
  w_heap w !! l = Some n -> l ∈ roots ->
  let w0 := set_heap (<[l := {| refcount := refcount n; n_body := b' |}]> (w_heap w)) w in
  Inv w0 (roots ⊎ {[+ x +]}) Zs ->
  wp (json_decref (Some x)) w (fun _ w1 =>
    body_at w1 l (n_body n) /\
    forall (k : W Z) Q, (forall w2, Inv w2 roots Zs -> shrink w0 w2 -> body_at w2 l b' -> wp k w2 Q) ->
      wp (put_body l b' ;;; k) w1 Q).
Proof.
  intros Hn Hl w0 Hinv.
  assert (H := release_then_put w roots Zs l n b' [x] Hn Hl).
  cbv zeta in H. simpl mset in H. rewrite gmultiset_disj_union_right_id in H. specialize (H Hinv).
  simpl iterM in H. rewrite wp_bind in H. eapply wp_mono; [exact H|]. intros [] w1. by rewrite wp_ret.
Qed.

Lemma json_array_set_new_spec w roots Zs l xs v i :
  Inv w (roots ⊎ {[+ v +]}) Zs -> array_at w l xs -> l ∈ roots -> l <> v -> (i < length xs)%nat ->
  wp (json_array_set_new (Some l) (Z.of_nat i) (Some v)) w (fun r w' =>
    r = 0 /\ Inv w' roots Zs /\ frame {[l]} w w' /\ array_at w' l (<[i := v]> xs)).
Proof.
  intros Hinv (a & (n & Hn & Hb) & Ha) Hl Hne Hi. unfold json_array_set_new.
  wp_step. eapply wp_json_is; [by exists n|]. rewrite bool_decide_true by done.
  rewrite (bool_decide_false (l = v)) by done. simpl orb. cbv beta iota.
  wp_step. eapply wp_json_to_array; [by exists n|].
  rewrite (proj2 (Z.leb_gt _ _)) by (rewrite (ar_entries _ _ Ha); lia).
  destruct (lookup_lt_is_Some_2 xs i Hi) as [x Hx].
  wp_step. eapply wp_require; [by eapply table_get_ok|].
  destruct (table_set_ok a xs i v Ha Hi) as (a' & E & Ha').
  wp_step. eapply wp_mono; [apply (release_one_then_put w roots Zs l n (Array a') x Hn Hl)|].
  - eapply (inv_put_array w _ _ _ _ _ _ _ _ _ Hinv Hn Hb Ha Ha'); [multiset_solver|].
    rewrite insert_take_drop by done. rewrite <- (take_drop_middle xs i x Hx) at 3.
    rewrite !list_to_set_disj_app, !list_to_set_disj_cons. multiset_solver.
  - intros _ w1 [Hat Hput]. rewrite Hb in Hat. wp_step. eapply wp_json_to_array; [exact Hat|].
    wp_step. eapply wp_require; [exact E|]. apply Hput. intros w2 Hinv2 Hsh2 Hat2. rewrite wp_ret.
    split_and!; try done.
    + etransitivity; [apply frame_put; by apply elem_of_singleton|]. by apply shrink_frame.
    + by exists a'.
Qed.

Lemma json_array_remove_spec w roots Zs l xs i :
  Inv w roots Zs -> array_at w l xs -> l ∈ roots -> (i < length xs)%nat ->
  wp (json_array_remove (Some l) (Z.of_nat i)) w (fun r w' =>
    r = 0 /\ Inv w' roots Zs /\ frame {[l]} w w' /\ array_at w' l (delete i xs)).
Proof.
  intros Hinv (a & (n & Hn & Hb) & Ha) Hl Hi. unfold json_array_remove.
  wp_step. eapply wp_json_is; [by exists n|]. rewrite bool_decide_true by done. cbv beta iota.
  wp_step. eapply wp_json_to_array; [by exists n|].
  rewrite (proj2 (Z.leb_gt _ _)) by (rewrite (ar_entries _ _ Ha); lia).
  destruct (lookup_lt_is_Some_2 xs i Hi) as [x Hx].
  wp_step. eapply wp_require; [by eapply table_get_ok|].
  destruct (array_remove_ok a xs i Ha Hi) as (a' & E & Ha').
  set (a2 := set_entries a' (size_t (a_entries a' - 1))) in *.
  wp_step. eapply wp_mono; [apply (release_one_then_put w roots Zs l n (Array a2) x Hn Hl)|].
  - eapply (inv_put_array w _ _ _ _ _ _ _ _ _ Hinv Hn Hb Ha Ha'); [multiset_solver|].
    rewrite delete_take_drop. rewrite <- (take_drop_middle xs i x Hx) at 3.
    rewrite !list_to_set_disj_app, !list_to_set_disj_cons. multiset_solver.
  - intros _ w1 [Hat Hput]. rewrite Hb in Hat. wp_step. eapply wp_json_to_array; [exact Hat|].
    wp_step. assert (Hm : forall u : world, (if Z.of_nat i <? a_entries a - 1
        then require (array_move a (Z.of_nat i) (Z.of_nat i + 1) (a_entries a - Z.of_nat i - 1))
        else ret a) u = inr (a', u)).
    { intros u. destruct (Z.of_nat i <? a_entries a - 1); [by rewrite E|by injection E as ->]. }
    eapply wp_eq; [apply Hm|]. apply Hput. intros w2 Hinv2 Hsh2 Hat2. rewrite wp_ret.
    split_and!; try done.
    + etransitivity; [apply frame_put; by apply elem_of_singleton|]. by apply shrink_frame.
    + by exists a2.
Qed.

Lemma json_array_clear_spec w roots Zs l xs :
  Inv w roots Zs -> array_at w l xs -> l ∈ roots ->
  wp (json_array_clear (Some l)) w (fun r w' =>
    r = 0 /\ Inv w' roots Zs /\ frame {[l]} w w' /\ array_at w' l []).
Proof.
  intros Hinv (a & (n & Hn & Hb) & Ha) Hl. unfold json_array_clear.
  wp_step. eapply wp_json_is; [by exists n|]. rewrite bool_decide_true by done. cbv beta iota.
  wp_step. eapply wp_json_to_array; [by exists n|].
  wp_step. eapply wp_require; [by apply array_items_ok|].
  pose proof (array_clear_ok a xs Ha) as Ha'.
  wp_step. eapply wp_mono; [apply (release_then_put w roots Zs l n (Array (set_entries a 0)) xs Hn Hl)|].
  - eapply (inv_put_array w _ _ _ _ _ _ _ _ _ Hinv Hn Hb Ha Ha'); [multiset_solver|].
    simpl. multiset_solver.
  - intros _ w1 [Hat Hput]. rewrite Hb in Hat. wp_step. eapply wp_json_to_array; [exact Hat|].
    apply Hput. intros w2 Hinv2 Hsh2 Hat2. rewrite wp_ret. split_and!; try done.
    + etransitivity; [apply frame_put; by apply elem_of_singleton|]. by apply shrink_frame.
    + eexists. eauto.
Qed.
