(* ===== verification/Iterate.v ===== *)
(** * Iteration over objects, and the loop check

    Reading an object through iterators, and the table of the containers on
    the path from the root ([jsonp_loop_check]) that the encoder and the deep
    copy use to detect a container inside itself. *)

From stdpp Require Import gmultiset.
From S2P Require Import Prelude Utf8 Strbuffer Lookup3 Dlist Hashtable Value Arrays Refcount ValueSpec.

(* ------------------------------------------------------------------ *)
(** ** Iterators *)

Section iterate.
Context (w : world) (l : loc) (items : items_t).
Hypothesis (Ho : object_at w l items).

Lemma json_object_size_spec :
  wp (json_object_size (Some l)) w (fun r w' => w' = w /\ r = Z.of_nat (length items)).
Proof using Ho.
  destruct Ho as (ht & (n & Hn & Hb) & xs & Hwf). unfold json_object_size.
  wp_step. eapply wp_json_is; [by exists n|]. rewrite bool_decide_true by done. cbv beta iota.
  wp_step. eapply wp_json_to_object; [by exists n|]. rewrite wp_ret. split; [done|]. apply Hwf.
Qed.

Lemma json_object_iter_spec :
  wp (json_object_iter (Some l)) w (fun r w' => w' = w /\ r = items.*1 !! 0%nat).
Proof using Ho.
  destruct Ho as (ht & (n & Hn & Hb) & xs & Hwf). unfold json_object_iter.
  wp_step. eapply wp_json_is; [by exists n|]. rewrite bool_decide_true by done. cbv beta iota.
  wp_step. eapply wp_json_to_object; [by exists n|].
  by rewrite (hashtable_iter_spec _ _ _ _ Hwf).
Qed.

Lemma json_object_iter_next_spec i m :
  items.*1 !! i = Some m ->
  wp (json_object_iter_next (Some l) (Some m)) w (fun r w' => w' = w /\ r = items.*1 !! S i).
Proof using Ho.
  intros Hi. destruct Ho as (ht & (n & Hn & Hb) & xs & Hwf). unfold json_object_iter_next.
  wp_step. eapply wp_json_is; [by exists n|]. rewrite bool_decide_true by done. cbv beta iota.
  wp_step. eapply wp_json_to_object; [by exists n|].
  by rewrite (hashtable_iter_next_spec _ _ _ _ Hwf i m Hi).
Qed.

Lemma json_object_iter_key_spec i m pr :
  items !! i = Some (m, pr) ->
  wp (json_object_iter_key l (Some m)) w (fun r w' => w' = w /\ r = Some (p_key pr)).
Proof using Ho.
  intros Hi. destruct Ho as (ht & (n & Hn & Hb) & xs & Hwf). unfold json_object_iter_key.
  wp_step. eapply wp_json_to_object; [by exists n|]. wp_step.
  destruct (hashtable_iter_at_item _ _ _ _ Hwf i m pr Hi) as [-> _]. done.
Qed.

Lemma json_object_iter_value_spec i m pr :
  items !! i = Some (m, pr) ->
  wp (json_object_iter_value l (Some m)) w (fun r w' => w' = w /\ r = Some (p_value pr)).
Proof using Ho.
  intros Hi. destruct Ho as (ht & (n & Hn & Hb) & xs & Hwf). unfold json_object_iter_value.
  wp_step. eapply wp_json_to_object; [by exists n|]. wp_step.
  destruct (hashtable_iter_at_item _ _ _ _ Hwf i m pr Hi) as [_ ->]. done.
Qed.

(** The fuel of loops over an object is enough. *)
Lemma foreach_fuel_gt : (length items < foreach_fuel (w_heap w))%nat.
Proof using Ho.
  destruct Ho as (ht & (n & Hn & Hb) & xs & Hwf). unfold foreach_fuel.
  rewrite <- (wf_length _ _ _ _ Hwf), <- (size_pairs _ _ _ _ Hwf).
  rewrite (map_fold_delete_L _ _ l n); [|intros; repeat case_match; lia|done].
  rewrite Hb. lia.
Qed.
End iterate.

Lemma items_kvs (items : items_t) i m pr :
  items !! i = Some (m, pr) ->
  items.*1 !! i = Some m /\ kvs items !! i = Some (p_key pr, p_value pr).
Proof. intros Hi. unfold kvs. by rewrite !list_lookup_fmap, Hi. Qed.

(** The same pairs, in the same places. *)
Definition same_pairs (items items' : items_t) : Prop := items'.*1 = items.*1 /\ kvs items' = kvs items.
Lemma same_pairs_lookup (items items' : items_t) i m pr : same_pairs items items' -> items !! i = Some (m, pr) ->
  exists pr', items' !! i = Some (m, pr') /\ p_key pr' = p_key pr /\ p_value pr' = p_value pr.
Proof.
  intros [H1 H2] Hi. destruct (items_kvs _ _ _ _ Hi) as [E1 E2]. rewrite <- H1 in E1. rewrite <- H2 in E2. unfold kvs in E2.
  rewrite list_lookup_fmap in E1. rewrite list_lookup_fmap in E2. destruct (items' !! i) as [[m' pr']|]; [|done]. injection E1 as ->. injection E2 as E3 E4. by exists pr'.
Qed.

(** [json_object_foreach] with a loop invariant: the body may change the world
    as long as the pairs of the object iterated over stay where they are. *)
Section foreach.
Context {A : Type} (l : loc) (items : items_t) (f : bytes -> loc -> W (option A)).
Context (I : nat -> world -> Prop) (Q : option A -> world -> Prop).
Hypothesis (Hobj : forall i w, I i w -> exists items', object_at w l items' /\ same_pairs items items').
Hypothesis (Hbody : forall i k v w, kvs items !! i = Some (k, v) -> I i w ->
  wp (f k v) w (fun r w' => match r with Some a => Q (Some a) w' | None => I (S i) w' end)).
Hypothesis (Hend : forall w, I (length items) w -> Q None w).

Lemma object_foreach_loop_spec fuel i w :
  I i w -> (i <= length items)%nat -> (length items < i + fuel)%nat ->
  wp (object_foreach_loop fuel l f (items.*1 !! i)) w Q.
Proof using All.
  revert i w. induction fuel as [|fuel IH]; intros i w HI Hi Hf; [lia|].
  destruct (items !! i) as [[n pr]|] eqn:Hn.
  - destruct (items_kvs _ _ _ _ Hn) as [En Ekv]. rewrite En. cbn [object_foreach_loop].
    destruct (Hobj i w HI) as (its & Ho & Hsame). pose proof (lookup_lt_Some _ _ _ Hn) as Hlt.
    destruct (same_pairs_lookup _ _ _ _ _ Hsame Hn) as (pr' & Hn' & Ek & Ev).
    wp_step. eapply wp_mono; [by apply (json_object_iter_key_spec w l its Ho i n pr')|]. cbv beta. intros ? ? [-> ->].
    wp_step. eapply wp_mono; [by apply (json_object_iter_value_spec w l its Ho i n pr')|]. cbv beta. intros ? ? [-> ->]. rewrite Ek, Ev.
    wp_step. eapply wp_mono; [by apply (Hbody i)|]. intros [a|] w1 H1; [by rewrite wp_ret|].
    destruct (Hobj (S i) w1 H1) as (its1 & Ho1 & Hsame1). destruct (same_pairs_lookup _ _ _ _ _ Hsame1 Hn) as (pr1 & Hn1 & _).
    wp_step. eapply wp_mono; [apply (json_object_iter_next_spec w1 l its1 Ho1 i n)|].
    { by rewrite list_lookup_fmap, Hn1. }
    cbv beta. intros ? ? [-> ->]. rewrite (proj1 Hsame1). apply IH; [done|lia|lia].
  - apply lookup_ge_None in Hn. assert (i = length items) as -> by lia.
    rewrite list_lookup_fmap, (proj2 (lookup_ge_None _ _)) by lia. cbn [fmap option_fmap option_map object_foreach_loop].
    destruct fuel; rewrite wp_ret; by apply Hend.
Qed.

Lemma wp_object_foreach w : I 0%nat w -> wp (json_object_foreach l f) w Q.
Proof using All.
  intros HI. unfold json_object_foreach. wp_step. apply wp_gets. destruct (Hobj _ _ HI) as (its & Ho & Hsame). wp_step.
  eapply wp_mono; [by apply json_object_iter_spec|]. cbv beta. intros ? ? [-> ->]. rewrite (proj1 Hsame).
  apply object_foreach_loop_spec; [done|lia|]. pose proof (foreach_fuel_gt w l its Ho) as H.
  pose proof (f_equal length (proj1 Hsame)) as E. rewrite !length_fmap in E. lia.
Qed.
End foreach.

(* ------------------------------------------------------------------ *)
(** ** The loop check *)

Definition loop_key (l : loc) : bytes := snprintf_p LOOP_KEY_LEN l.

Lemma hex_digit_inj a b : 0 <= a < 16 -> 0 <= b < 16 -> hex_digit a = hex_digit b -> a = b.
Proof.
  unfold hex_digit. change (chr "0") with 48. change (chr "a") with 97. intros.
  destruct (Z.ltb_spec a 10), (Z.ltb_spec b 10); lia.
Qed.

(** The key has room for every address of 64 bits: different containers have
    different keys. *)
Lemma loop_key_inj l m :
  Zpos l < 2 ^ 64 -> Zpos m < 2 ^ 64 -> loop_key l = loop_key m -> l = m.
Proof.
  intros Hl Hm. unfold loop_key, snprintf_p. 
  assert (Hlen : forall p, Zpos p < 2 ^ 64 ->
    take (Z.to_nat (LOOP_KEY_LEN - 1)) (lit "0x" ++ (hex_digit <$> digits 16 (Zpos p))) =
    lit "0x" ++ (hex_digit <$> digits 16 (Zpos p))).
  { intros p Hp. apply take_ge. rewrite length_app, length_fmap.
    pose proof (length_digits 16 (Zpos p) 16 ltac:(lia) ltac:(lia) ltac:(lia)).
    change (length (lit "0x")) with 2%nat. change (Z.to_nat (LOOP_KEY_LEN - 1)) with 18%nat. lia. }
  rewrite !Hlen by done. intros E. apply app_inv_head in E.
  assert (Ed : digits 16 (Zpos l) = digits 16 (Zpos m)).
  { destruct (digits_spec 16 (Zpos l) ltac:(lia) ltac:(lia)) as (H1 & _).
    destruct (digits_spec 16 (Zpos m) ltac:(lia) ltac:(lia)) as (H2 & _).
    revert H2 E. generalize (digits 16 (Zpos m)). induction H1 as [|a as_ Ha _ IH]; intros bs H2 E.
    - by destruct bs.
    - destruct bs as [|b bs]; [done|]. rewrite !fmap_cons in E. injection E as E1 E2.
      apply Forall_cons in H2 as [Hb H2]. f_equal; [by apply hex_digit_inj|by apply IH]. }
  apply digits_inj in Ed; lia.
Qed.

(** [parents] holds the containers of a path, the innermost first in [anc]. *)
Definition parents_ok (w : world) (anc : list loc) (parents : hashtable_t) : Prop :=
  exists items, ht_rep (w_seed w) parents items /\
    kvs items = (fun l => (loop_key l, the_null)) <$> rev anc.

(** A path in the heap. *)
Record path_ok (w : world) (anc : list loc) : Prop := {
  path_nodup : NoDup anc;
  path_heap : forall l, l ∈ anc -> is_Some (w_heap w !! l)
}.

(** What the traversals rely on: null is a constant, and the heap fits in the
    address space. *)
Definition quiet (w : world) : Prop :=
  exists n, w_heap w !! the_null = Some n /\ refcount n = SIZE_MAX.
Record traversable (w : world) : Prop := {
  tv_quiet : quiet w;
  tv_addr : forall l, is_Some (w_heap w !! l) -> Zpos l < 2 ^ 64;
  tv_size : Z.of_nat (size (w_heap w)) <= 2 ^ 31
}.

(** The heap fits in the address space, with fewer than 2^31 values. *)
Definition fits (w : world) : Prop :=
  Zpos (w_next w) <= 2 ^ 64 /\ Z.of_nat (size (w_heap w)) <= 2 ^ 31.

Lemma inv_quiet w roots Zs : Inv w roots Zs -> quiet w.
Proof.
  intros Hinv.
  destruct (static_node w roots Zs the_null Hinv) as (n & Hn & Hrc & _); [unfold statics; set_solver|].
  by exists n.
Qed.

Lemma inv_traversable w roots Zs :
  Inv w roots Zs -> Zpos (w_next w) <= 2 ^ 64 -> Z.of_nat (size (w_heap w)) <= 2 ^ 31 -> traversable w.
Proof.
  intros Hinv Ha Hs. split; [by eapply inv_quiet| |done].
  - intros l Hl. pose proof (inv_fresh _ _ _ Hinv l Hl). lia.
Qed.

(** The allocator does not matter to them. *)
Lemma traversable_oom w o : traversable w -> traversable (set_oom o w).
Proof. intros [H1 H2 H3]. by split. Qed.
Lemma path_oom w o anc : path_ok w anc -> path_ok (set_oom o w) anc.
Proof. intros [H1 H2]. by split. Qed.

Lemma path_length w anc : path_ok w anc -> (length anc <= size (w_heap w))%nat.
Proof.
  intros [Hnd Hh]. rewrite <- (size_dom (w_heap w)), <- (size_list_to_set (C:=gset loc) anc) by done.
  apply subseteq_size. intros l Hl. apply elem_of_list_to_set in Hl. apply elem_of_dom. by apply Hh.
Qed.

Section parents.
Context (w : world) (Hq : quiet w).

Lemma decref_null : json_decref (Some the_null) w = inr (tt, w).
Proof using Hq.
  destruct Hq as (n & Hn & Hrc). unfold json_decref, gets. unfold bind at 1.
  cbn [decref_fuel]. unfold bind, deref. rewrite Hn. cbn [require]. unfold ret at 1.
  by rewrite Hrc.
Qed.

Lemma parents_keys anc : ((fun l => (loop_key l, the_null)) <$> anc).*1 = loop_key <$> anc.
Proof. rewrite <- list_fmap_compose. by apply list_fmap_ext. Qed.

Lemma loop_key_fresh anc l :
  (forall m, m ∈ l :: anc -> Zpos m < 2 ^ 64) -> l ∉ anc -> loop_key l ∉ loop_key <$> anc.
Proof using.
  intros Ha Hn (m & E & Hm)%list_elem_of_fmap. apply loop_key_inj in E; [by subst| |].
  - apply Ha. by left.
  - apply Ha. by right.
Qed.

(** The check fails exactly on the containers of the path. *)
Lemma loop_check_hit anc parents l :
  parents_ok w anc parents -> l ∈ anc ->
  wp (jsonp_loop_check parents l LOOP_KEY_LEN) w (fun r w' =>
    w' = w /\ r = (-1, loop_key l, parents)).
Proof.
  intros (items & (xs & Hwf) & Hk) Hl. unfold jsonp_loop_check. wp_steps.
  eapply wp_lift_res; [apply (hashtable_get_spec _ _ _ _ Hwf)|].
  destruct (alookup (snprintf_p LOOP_KEY_LEN l) (kvs items)) eqn:E; [done|].
  exfalso. apply alookup_None in E. apply E. rewrite Hk, parents_keys. apply list_elem_of_fmap_2.
  by rewrite list_elem_of_In, <- in_rev, <- list_elem_of_In.
Qed.

(** Otherwise it adds the container to the path, or there is no memory. *)
Lemma loop_check_any anc parents l :
  parents_ok w anc parents -> l ∉ anc -> (forall m, m ∈ l :: anc -> Zpos m < 2 ^ 64) ->
  Z.of_nat (length anc) < 2 ^ 31 ->
  wp (jsonp_loop_check parents l LOOP_KEY_LEN) w (fun r w' => exists o,
    w' = set_oom o w /\ (w_oom w = [] -> o = []) /\
    ((exists parents', r = (0, loop_key l, parents') /\ parents_ok w (l :: anc) parents') \/
     (exists parents', w_oom w <> [] /\ r = (-1, loop_key l, parents') /\ parents_ok w anc parents'))).
Proof.
  intros (items & Hrep & Hk) Hn Ha Hlen. unfold jsonp_loop_check. wp_step. apply wp_gets.
  assert (Hfresh : loop_key l ∉ (kvs items).*1).
  { rewrite Hk, parents_keys. rewrite list_elem_of_fmap. intros (m & E & Hm).
    apply (loop_key_fresh anc l Ha Hn). rewrite E. apply list_elem_of_fmap_2.
    by rewrite list_elem_of_In, in_rev, <- list_elem_of_In. }
  pose proof Hrep as [xs Hwf]. change (snprintf_p LOOP_KEY_LEN l) with (loop_key l).
  wp_step. eapply wp_lift_res; [apply (hashtable_get_spec _ _ _ _ Hwf)|]. rewrite (proj2 (alookup_None _ _) Hfresh).
  assert (Hlt : ht_size parents < 2 ^ 31).
  { rewrite (wf_size _ _ _ _ Hwf), <- (length_fmap kv items). change (kv <$> items) with (kvs items).
    rewrite Hk, length_fmap, length_rev. lia. }
  wp_step. apply wp_run_am. eapply wp_mono; [by apply (hashtable_set_spec (w_seed w) parents items (loop_key l) the_null)|].
  intros [[r ht'] old] o' (Ho' & items' & Hrep' & [(-> & Hk' & -> & _)|(-> & -> & -> & [Hoom|Hlong])]).
  - rewrite (proj2 (alookup_None _ _) Hfresh). wp_step. apply wp_ret. apply wp_ret. exists o'. split; [done|]. split; [done|]. left.
    exists ht'. split; [done|]. exists items'. split; [done|]. rewrite Hk', aset_new, Hk by done. simpl rev. by rewrite fmap_app.
  - wp_step. apply wp_ret. apply wp_ret. exists o'. split; [done|]. split; [done|]. right. exists ht'. split; [done|]. split; [done|]. by exists items.
  - exfalso. unfold loop_key, snprintf_p in Hlong. rewrite length_take in Hlong.
    unfold MAX_KEY, SIZE_MAX, OFFSETOF_KEY in Hlong. change (Z.to_nat (LOOP_KEY_LEN - 1)) with 18%nat in Hlong. lia.
Qed.

Lemma loop_check_new anc parents l :
  w_oom w = [] -> parents_ok w anc parents -> l ∉ anc -> (forall m, m ∈ l :: anc -> Zpos m < 2 ^ 64) ->
  Z.of_nat (length anc) < 2 ^ 31 ->
  exists parents', parents_ok w (l :: anc) parents' /\
    jsonp_loop_check parents l LOOP_KEY_LEN w = inr ((0, loop_key l, parents'), w).
Proof.
  intros Ho Hp Hn Ha Hlen. destruct (wp_inv _ _ _ (loop_check_any anc parents l Hp Hn Ha Hlen)) as (r & w' & E & o & -> & Hoo & Hr).
  rewrite Hoo in E by done. rewrite E. rewrite <- Ho, set_oom_id. destruct Hr as [(p' & -> & Hp')|(p' & ? & _)]; [by exists p'|done].
Qed.

Lemma parents_del_spec anc parents l :
  parents_ok w (l :: anc) parents ->
  exists parents', parents_ok w anc parents' /\ parents_del parents (loop_key l) w = inr (parents', w).
Proof using Hq.
  intros (items & Hrep & Hk). unfold parents_del, gets. unfold bind at 1.
  pose proof (hashtable_del_spec (w_seed w) parents items (loop_key l) Hrep) as Hd.
  assert (Hnd : NoDup (kvs items).*1).
  { destruct Hrep as [xs Hwf]. rewrite <- keys_kvs. apply Hwf. }
  simpl rev in Hk. rewrite fmap_app in Hk. cbn in Hk. rewrite Hk in Hnd, Hd.
  assert (Hn : loop_key l ∉ ((fun l => (loop_key l, the_null)) <$> rev anc).*1).
  { rewrite fmap_app in Hnd. apply NoDup_app in Hnd as (_ & Hdis & _). intros Hin.
    by apply (Hdis _ Hin), elem_of_cons; left. }
  rewrite alookup_split in Hd by done. unfold bind at 1, lift_res.
  destruct (hashtable_del _ _ _) as [e|[[ht' v]|]]; [done| |].
  - destruct Hd as (Hv & _ & items' & Hrep' & Hk' & _). exists ht'. split.
    + exists items'. split; [done|]. rewrite Hk', adel_split by done. by rewrite app_nil_r.
    + injection Hv as <-. by rewrite (bind_inr _ _ _ _ _ decref_null).
  - done.
Qed.

Lemma close_nulls ht items :
  ht_rep (w_seed w) ht items -> Forall (fun kv => kv.2 = the_null) (kvs items) -> parents_close ht w = inr (tt, w).
Proof using Hq.
  intros Hrep Hk. unfold parents_close.
  destruct (hashtable_do_clear_spec _ _ _ Hrep) as (vs & E & Hvs).
  unfold bind at 1, lift_res, hashtable_close. rewrite E.
  assert (Hall : Forall (fun v => v = the_null) vs) by (rewrite Hvs, vals_kvs; by apply Forall_fmap).
  clear E Hvs. induction Hall as [|v vs -> _ IH]; [done|]. cbn [iterM].
  by rewrite (bind_inr _ _ _ _ _ decref_null).
Qed.
Lemma parents_close_spec anc parents :
  parents_ok w anc parents -> parents_close parents w = inr (tt, w).
Proof using Hq.
  intros (items & Hrep & Hk). eapply close_nulls; [exact Hrep|]. rewrite Hk. apply Forall_fmap, Forall_true. done.
Qed.
End parents.

(** On a path of a heap that fits. *)
Lemma loop_check_miss w anc parents l :
  traversable w -> parents_ok w anc parents -> path_ok w anc -> is_Some (w_heap w !! l) -> l ∉ anc ->
  path_ok w (l :: anc) /\
  wp (jsonp_loop_check parents l LOOP_KEY_LEN) w (fun r w' => exists o,
    w' = set_oom o w /\ (w_oom w = [] -> o = []) /\
    ((exists parents', r = (0, loop_key l, parents') /\ parents_ok w (l :: anc) parents') \/
     (exists parents', w_oom w <> [] /\ r = (-1, loop_key l, parents') /\ parents_ok w anc parents'))).
Proof.
  intros Htv Hpar Hp Hl Hn.
  assert (Hp' : path_ok w (l :: anc)).
  { split; [by constructor; [|apply Hp]|]. intros m [->|Hm]%elem_of_cons; [done|]. by apply (path_heap _ _ Hp). }
  split; [done|]. pose proof (path_length _ _ Hp') as Hlen. pose proof (tv_size _ Htv) as Hsz. simpl in Hlen.
  apply loop_check_any; [done|done| |lia]. intros m Hm. apply (tv_addr _ Htv). by apply (path_heap _ _ Hp').
Qed.
