(* ===== verification/Client.v ===== *)
(** * Clients of the value API

    Any client that uses values the documented way -- it passes values it
    holds, gives up the references that functions steal, and releases what it
    owns -- keeps the reference counts exact and never makes the library touch
    freed memory, whether or not allocations fail.  A client is a sequence of
    calls; [roots] are the references it owns. *)

From stdpp Require Import gmultiset.
From Stdlib Require Import SpecFloat.
From S2P Require Import Prelude Utf8 Strbuffer Dlist Hashtable Value Arrays Refcount ValueSpec.

(** Containers have room for one more element, and counts can be increased. *)
Record roomy (w : world) (roots : gmultiset loc) : Prop := {
  room_objects : forall l items, object_at w l items -> Z.of_nat (length items) < 2 ^ 31;
  room_arrays : forall l xs, array_at w l xs -> Z.of_nat (length xs) + 1 <= ARRAY_MAX;
  room_counts : forall l, Z.of_nat (multiplicity l (refs (w_heap w) ⊎ roots)) + 1 < SIZE_MAX
}.

Lemma multiplicity_le_size (l : loc) (X : gmultiset loc) : (multiplicity l X <= size X)%nat.
Proof.
  assert (Hsub : multiplicity l X *: {[+ l +]} ⊆ X).
  { intros m. rewrite multiplicity_scalar_mul. destruct (decide (m = l)) as [->|Hne];
      [rewrite multiplicity_singleton_eq; lia|rewrite multiplicity_singleton_ne by done; lia]. }
  apply gmultiset_subseteq_size in Hsub. rewrite gmultiset_size_scalar_mul, gmultiset_size_singleton in Hsub. lia.
Qed.

(** A held value is an object with some pairs, an array with some elements, or
    something else. *)
Lemma held_cases w roots l :
  Inv w roots ∅ -> l ∈ roots ->
  (exists items, object_at w l items) \/ (exists xs, array_at w l xs) \/
  (exists b, body_at w l b /\ type_of b <> JSON_OBJECT /\ type_of b <> JSON_ARRAY).
Proof.
  intros Hinv Hl. destruct (inv_root _ _ _ l Hinv Hl) as (n & Hn & Hrc).
  destruct (decide (l ∈ statics)) as [Hs|Hs].
  - right. right. exists (n_body n). split; [by exists n|].
    apply elem_of_statics in Hs as [m Hm]. pose proof (inv_statics _ _ _ Hinv l m Hm) as Hn'.
    rewrite Hn in Hn'. injection Hn' as ->. revert Hm. unfold static_heap. rewrite !lookup_insert.
    repeat case_decide; try (by intros [= <-]).
  - pose proof (inv_body _ _ _ Hinv l n Hn Hs) as Hok. destruct (n_body n) eqn:Hb; simpl in Hok; try done.
    + left. destruct Hok as [_ [items Hr]]. exists items, hashtable. split; [by exists n|done].
    + right. left. destruct Hok as [xs Ha]. exists xs, array. split; [by exists n|done].
    + right. right. eexists. split; [by exists n|done].
    + right. right. eexists. split; [by exists n|done].
    + right. right. eexists. split; [by exists n|done].
Qed.

Lemma decref_return w roots v (r : Z) :
  Inv w (roots ⊎ opt_mset v) ∅ ->
  wp (json_decref v ;;; ret r) w (fun _ w' => Inv w' roots ∅).
Proof.
  intros Hinv. wp_step. eapply wp_mono; [by apply json_decref_opt_spec|]. intros ? w' [? _]. done.
Qed.

(** A rejected value is released, and the container it was meant for is kept. *)
Lemma reject_object w roots l items v (r : Z) :
  Inv w (roots ⊎ {[+ v +]}) ∅ -> object_at w l items -> l ∈ roots ->
  wp (json_decref (Some v) ;;; ret r) w (fun r' w' =>
    r' = r /\ Inv w' roots ∅ /\ frame {[l]} w w' /\ object_at w' l items).
Proof.
  intros Hinv (ht & Hb & Hrep) Hl. wp_step. eapply wp_mono; [by apply json_decref_spec|].
  intros ? w' (Hinv' & Hsh & _). rewrite wp_ret. split_and!; [done|done|by apply shrink_frame|].
  exists ht. rewrite (sh_seed _ _ Hsh). split; [by eapply body_at_shrink|done].
Qed.
Lemma reject_array w roots l xs v (r : Z) :
  Inv w (roots ⊎ {[+ v +]}) ∅ -> array_at w l xs -> l ∈ roots ->
  wp (json_decref (Some v) ;;; ret r) w (fun r' w' =>
    r' = r /\ Inv w' roots ∅ /\ frame {[l]} w w' /\ array_at w' l xs).
Proof.
  intros Hinv (a & Hb & Hok) Hl. wp_step. eapply wp_mono; [by apply json_decref_spec|].
  intros ? w' (Hinv' & Hsh & _). rewrite wp_ret. split_and!; [done|done|by apply shrink_frame|].
  exists a. split; [by eapply body_at_shrink|done].
Qed.

(** Room in the container [l] only. *)
Definition room_at (w : world) (l : loc) : Prop :=
  (forall items, object_at w l items -> Z.of_nat (length items) < 2 ^ 31) /\
  (forall xs, array_at w l xs -> Z.of_nat (length xs) + 1 <= ARRAY_MAX).

Lemma roomy_at w roots l : roomy w roots -> room_at w l.
Proof. intros H. split; intros; [by eapply room_objects|by eapply room_arrays]. Qed.
#[local] Hint Resolve roomy_at : core.

Section safe.
Context (w : world) (roots : gmultiset loc) (l : loc).
Hypothesis Hroom : room_at w l.

(** [json_object_set_new] with any key, on any value: the reference to [v] is
    consumed. *)
Lemma set_new_safe k v :
  Inv w (roots ⊎ {[+ v +]}) ∅ -> l ∈ roots ->
  wp (json_object_set_new (Some l) (Some k) (Some v)) w (fun _ w' => Inv w' roots ∅).
Proof using Hroom.
  intros Hinv Hl. unfold json_object_set_new. destruct (utf8_check_string k); [|by apply decref_return].
  assert (Hl' : l ∈ roots ⊎ {[+ v +]}) by multiset_solver.
  destruct (held_cases _ _ _ Hinv Hl') as [[items Ho]|Hother].
  - destruct (decide (l = v)) as [->|Hne].
    + unfold json_object_set_new_nocheck. wp_step. destruct Ho as (ht & Hb & _).
      eapply wp_json_is; [exact Hb|]. rewrite (bool_decide_true (v = v)), orb_true_r by done.
      by apply decref_return.
    + eapply wp_mono; [apply json_object_set_new_nocheck_spec; eauto; by apply Hroom|].
      intros r w' (? & _). done.
  - assert (exists b, body_at w l b /\ type_of b <> JSON_OBJECT) as (b & Hb & Ht).
    { destruct Hother as [(xs & a & Hb & _)|(b & Hb & ? & _)]; eauto. }
    unfold json_object_set_new_nocheck. wp_step. eapply wp_json_is; [exact Hb|].
    rewrite bool_decide_false by done. by apply decref_return.
Qed.

Lemma object_del_safe k :
  Inv w roots ∅ -> l ∈ roots ->
  wp (json_object_del (Some l) (Some k)) w (fun _ w' => Inv w' roots ∅).
Proof using Hroom.
  intros Hinv Hl. destruct (held_cases _ _ _ Hinv Hl) as [[items Ho]|Hother].
  - eapply wp_mono; [by eapply json_object_del_spec|]. intros r w' (? & _). done.
  - assert (exists b, body_at w l b /\ type_of b <> JSON_OBJECT) as (b & Hb & Ht).
    { destruct Hother as [(xs & a & Hb & _)|(b & Hb & ? & _)]; eauto. }
    unfold json_object_del. wp_step. eapply wp_json_is; [exact Hb|].
    by rewrite bool_decide_false by done.
Qed.

Lemma object_clear_safe :
  Inv w roots ∅ -> l ∈ roots ->
  wp (json_object_clear (Some l)) w (fun _ w' => Inv w' roots ∅).
Proof using Hroom.
  intros Hinv Hl. destruct (held_cases _ _ _ Hinv Hl) as [[items Ho]|Hother].
  - eapply wp_mono; [by eapply json_object_clear_spec|]. intros r w' (_ & ? & _). done.
  - assert (exists b, body_at w l b /\ type_of b <> JSON_OBJECT) as (b & Hb & Ht).
    { destruct Hother as [(xs & a & Hb & _)|(b & Hb & ? & _)]; eauto. }
    unfold json_object_clear. wp_step. eapply wp_json_is; [exact Hb|].
    by rewrite bool_decide_false by done.
Qed.

(** An array other than [v], or an argument that is rejected. *)
Lemma array_cases rs v :
  Inv w rs ∅ -> l ∈ rs ->
  (exists xs, array_at w l xs /\ l <> v) \/
  (exists b, body_at w l b /\ negb (bool_decide (type_of b = JSON_ARRAY)) || bool_decide (l = v) = true).
Proof using Hroom.
  intros Hinv Hl. destruct (held_cases _ _ _ Hinv Hl) as [(items & ht & Hb & _)|[[xs Ha]|(b & Hb & _ & Ht)]].
  - right. eauto.
  - destruct (decide (l = v)) as [->|]; [|eauto]. right. destruct Ha as (a & Hb & _).
    eexists. split; [exact Hb|]. by rewrite (bool_decide_true (v = v)), orb_true_r.
  - right. exists b. split; [done|]. by rewrite bool_decide_false.
Qed.

Lemma append_new_safe v :
  Inv w (roots ⊎ {[+ v +]}) ∅ -> l ∈ roots ->
  wp (json_array_append_new (Some l) (Some v)) w (fun _ w' => Inv w' roots ∅).
Proof using Hroom.
  intros Hinv Hl. destruct (array_cases _ v Hinv) as [(xs & Ha & Hne)|(b & Hb & Ht)]; [multiset_solver| |].
  - eapply wp_mono; [eapply json_array_append_new_spec; eauto; by apply Hroom|].
    intros r w' (? & _). done.
  - unfold json_array_append_new. wp_step. eapply wp_json_is; [exact Hb|]. rewrite Ht. by apply decref_return.
Qed.

Lemma insert_new_safe i v :
  Inv w (roots ⊎ {[+ v +]}) ∅ -> l ∈ roots -> 0 <= i ->
  wp (json_array_insert_new (Some l) i (Some v)) w (fun _ w' => Inv w' roots ∅).
Proof using Hroom.
  intros Hinv Hl Hi. destruct (array_cases _ v Hinv) as [(xs & Ha & Hne)|(b & Hb & Ht)]; [multiset_solver| |].
  - destruct (decide (i <= Z.of_nat (length xs))) as [Hle|Hgt].
    + rewrite <- (Z2Nat.id i) by done.
      eapply wp_mono; [eapply json_array_insert_new_spec; eauto; [by apply Hroom|lia]|].
      intros r w' (? & _). done.
    + destruct Ha as (a & Hb & Hok). unfold json_array_insert_new. wp_step.
      eapply wp_json_is; [exact Hb|]. rewrite bool_decide_true, bool_decide_false by done. cbn [negb orb].
      wp_step. eapply wp_json_to_array; [exact Hb|]. rewrite (proj2 (Z.ltb_lt _ _)) by (rewrite (ar_entries _ _ Hok); lia).
      by apply decref_return.
  - unfold json_array_insert_new. wp_step. eapply wp_json_is; [exact Hb|]. rewrite Ht. by apply decref_return.
Qed.

Lemma set_new_array_safe i v :
  Inv w (roots ⊎ {[+ v +]}) ∅ -> l ∈ roots -> 0 <= i ->
  wp (json_array_set_new (Some l) i (Some v)) w (fun _ w' => Inv w' roots ∅).
Proof using Hroom.
  intros Hinv Hl Hi. destruct (array_cases _ v Hinv) as [(xs & Ha & Hne)|(b & Hb & Ht)]; [multiset_solver| |].
  - destruct (decide (i < Z.of_nat (length xs))) as [Hle|Hgt].
    + rewrite <- (Z2Nat.id i) by done.
      eapply wp_mono; [eapply json_array_set_new_spec; eauto; lia|].
      intros r w' (_ & ? & _). done.
    + destruct Ha as (a & Hb & Hok). unfold json_array_set_new. wp_step.
      eapply wp_json_is; [exact Hb|]. rewrite bool_decide_true, bool_decide_false by done. cbn [negb orb].
      wp_step. eapply wp_json_to_array; [exact Hb|]. rewrite (proj2 (Z.leb_le _ _)) by (rewrite (ar_entries _ _ Hok); lia).
      by apply decref_return.
  - unfold json_array_set_new. wp_step. eapply wp_json_is; [exact Hb|]. rewrite Ht. by apply decref_return.
Qed.

(** An array, or a value [json_is_array] rejects. *)
Lemma is_array_cases :
  Inv w roots ∅ -> l ∈ roots ->
  (exists xs, array_at w l xs) \/ (exists b, body_at w l b /\ bool_decide (type_of b = JSON_ARRAY) = false).
Proof using Hroom.
  intros Hinv Hl. destruct (held_cases _ _ _ Hinv Hl) as [(items & ht & Hb & _)|[[xs Ha]|(b & Hb & _ & Ht)]];
    [eauto|eauto|]. right. exists b. split; [done|]. by apply bool_decide_false.
Qed.

Lemma remove_safe i :
  Inv w roots ∅ -> l ∈ roots -> 0 <= i ->
  wp (json_array_remove (Some l) i) w (fun _ w' => Inv w' roots ∅).
Proof using Hroom.
  intros Hinv Hl Hi. destruct (is_array_cases Hinv Hl) as [[xs Ha]|(b & Hb & Ht)].
  - destruct (decide (i < Z.of_nat (length xs))) as [Hle|Hgt].
    + rewrite <- (Z2Nat.id i) by done.
      eapply wp_mono; [eapply json_array_remove_spec; eauto; lia|]. intros r w' (_ & ? & _). done.
    + destruct Ha as (a & Hb & Hok). unfold json_array_remove. wp_step.
      eapply wp_json_is; [exact Hb|]. rewrite bool_decide_true by done.
      wp_step. eapply wp_json_to_array; [exact Hb|].
      by rewrite (proj2 (Z.leb_le _ _)) by (rewrite (ar_entries _ _ Hok); lia).
  - unfold json_array_remove. wp_step. eapply wp_json_is; [exact Hb|]. by rewrite Ht.
Qed.

Lemma array_clear_safe :
  Inv w roots ∅ -> l ∈ roots ->
  wp (json_array_clear (Some l)) w (fun _ w' => Inv w' roots ∅).
Proof using Hroom.
  intros Hinv Hl. destruct (is_array_cases Hinv Hl) as [[xs Ha]|(b & Hb & Ht)].
  - eapply wp_mono; [by eapply json_array_clear_spec|]. intros r w' (_ & ? & _). done.
  - unfold json_array_clear. wp_step. eapply wp_json_is; [exact Hb|]. by rewrite Ht.
Qed.
End safe.

(* ------------------------------------------------------------------ *)
(** ** Sequences of calls *)

(** The calls of a client.  [call_ok] is what the documentation asks of the
    caller; [run_call] makes the call, and returns the references the client
    owns afterwards. *)
Inductive call : Type :=
| CallObject
| CallArray
| CallString (s : bytes)
| CallInteger (z : Z)
| CallReal (d : double)
| CallIncref (l : loc)
| CallDecref (l : loc)
| CallObjectSetNew (l : loc) (k : bytes) (v : loc)
| CallObjectDel (l : loc) (k : bytes)
| CallObjectClear (l : loc)
| CallArraySetNew (l : loc) (i : Z) (v : loc)
| CallArrayAppendNew (l v : loc)
| CallArrayInsertNew (l : loc) (i : Z) (v : loc)
| CallArrayRemove (l : loc) (i : Z)
| CallArrayClear (l : loc).

Definition call_ok (w : world) (roots : gmultiset loc) (c : call) : Prop :=
  match c with
  | CallObject | CallArray => True
  | CallReal d => not_finite d = false
  | CallString s => Z.of_nat (length s) < SIZE_MAX /\ utf8_check_string s = true
  | CallInteger z => INT64_MIN <= z <= INT64_MAX
  | CallIncref l => l ∈ refs (w_heap w) ⊎ roots
  | CallDecref l => l ∈ roots
  | CallObjectSetNew l _ v => {[+ v +]} ⊆ roots /\ l ∈ roots ∖ {[+ v +]}
  | CallArrayAppendNew l v => {[+ v +]} ⊆ roots /\ l ∈ roots ∖ {[+ v +]}
  | CallArraySetNew l i v | CallArrayInsertNew l i v =>
      {[+ v +]} ⊆ roots /\ l ∈ roots ∖ {[+ v +]} /\ 0 <= i
  | CallObjectDel l _ | CallObjectClear l | CallArrayClear l => l ∈ roots
  | CallArrayRemove l i => l ∈ roots /\ 0 <= i
  end.

Definition keep (roots : gmultiset loc) (m : W Z) : W (gmultiset loc) := let* _ := m in ret roots.
Definition gain (roots : gmultiset loc) (m : W json_ptr) : W (gmultiset loc) :=
  let* r := m in ret (roots ⊎ opt_mset r).

Definition run_call (roots : gmultiset loc) (c : call) : W (gmultiset loc) :=
  match c with
  | CallObject => gain roots json_object
  | CallArray => gain roots json_array
  | CallString s => gain roots (json_stringn (Some s))
  | CallInteger z => gain roots (json_integer z)
  | CallReal d => gain roots (json_real d)
  | CallIncref l => gain roots (json_incref (Some l))
  | CallDecref l => json_decref (Some l) ;;; ret (roots ∖ {[+ l +]})
  | CallObjectSetNew l k v => keep (roots ∖ {[+ v +]}) (json_object_set_new (Some l) (Some k) (Some v))
  | CallObjectDel l k => keep roots (json_object_del (Some l) (Some k))
  | CallObjectClear l => keep roots (json_object_clear (Some l))
  | CallArraySetNew l i v => keep (roots ∖ {[+ v +]}) (json_array_set_new (Some l) i (Some v))
  | CallArrayAppendNew l v => keep (roots ∖ {[+ v +]}) (json_array_append_new (Some l) (Some v))
  | CallArrayInsertNew l i v => keep (roots ∖ {[+ v +]}) (json_array_insert_new (Some l) i (Some v))
  | CallArrayRemove l i => keep roots (json_array_remove (Some l) i)
  | CallArrayClear l => keep roots (json_array_clear (Some l))
  end.

Lemma wp_keep m roots w (Q : gmultiset loc -> world -> Prop) :
  wp m w (fun _ w' => Q roots w') -> wp (keep roots m) w Q.
Proof. intros H. unfold keep. wp_step. eapply wp_mono; [exact H|]. done. Qed.

Lemma wp_gain m roots w P :
  wp m w (new_post w roots ∅ P) -> wp (gain roots m) w (fun r w' => Inv w' r ∅).
Proof.
  intros H. unfold gain. wp_step. eapply wp_mono; [exact H|].
  intros [l|] w' (_ & _ & _ & H'); rewrite wp_ret; simpl.
  - by destruct H'.
  - destruct H' as [? _]. by rewrite gmultiset_disj_union_right_id.
Qed.

(** One call: it returns, and the counts are exact again. *)
Lemma run_call_spec w roots c :
  Inv w roots ∅ -> roomy w roots -> call_ok w roots c ->
  wp (run_call roots c) w (fun r w' => Inv w' r ∅).
Proof.
  intros Hinv Hroom Hok.
  assert (Hsplit : forall v, {[+ v +]} ⊆ roots -> roots = (roots ∖ {[+ v +]}) ⊎ {[+ v +]}).
  { intros v Hv. multiset_solver. }
  assert (Hsub : forall v, {[+ v +]} ⊆ roots -> roomy w (roots ∖ {[+ v +]})).
  { intros v Hv. destruct Hroom as [H1 H2 H3]. split; [done|done|]. intros l. specialize (H3 l).
    rewrite multiplicity_disj_union in *. rewrite multiplicity_difference. lia. }
  destruct c; simpl in *.
  - eapply wp_gain. by apply json_object_spec.
  - eapply wp_gain. by apply json_array_spec.
  - eapply wp_gain. destruct Hok. by apply json_stringn_spec.
  - eapply wp_gain. by apply json_integer_spec.
  - eapply wp_gain. by apply json_real_spec.
  - unfold gain. wp_step. eapply wp_mono; [apply (json_incref_spec w roots ∅ l); try done|].
    + by apply (room_counts _ _ Hroom).
    + intros r w' (-> & ? & _). done.
  - wp_step. eapply wp_mono; [apply (json_decref_spec w (roots ∖ {[+ l +]}) ∅)|].
    + rewrite <- Hsplit; [done|multiset_solver].
    + intros ? w' (? & _). done.
  - destruct Hok as [Hv Hl]. apply wp_keep. apply set_new_safe; eauto. by rewrite <- Hsplit.
  - apply wp_keep. apply object_del_safe; eauto.
  - apply wp_keep. apply object_clear_safe; eauto.
  - destruct Hok as (Hv & Hl & Hi). apply wp_keep. apply set_new_array_safe; eauto. by rewrite <- Hsplit.
  - destruct Hok as [Hv Hl]. apply wp_keep. apply append_new_safe; eauto. by rewrite <- Hsplit.
  - destruct Hok as (Hv & Hl & Hi). apply wp_keep. apply insert_new_safe; eauto. by rewrite <- Hsplit.
  - destruct Hok as [Hl Hi]. apply wp_keep. apply remove_safe; eauto.
  - apply wp_keep. apply array_clear_safe; eauto.
Qed.

Lemma inv_init oom entropy : Inv (world_init oom entropy) ∅ ∅.
Proof.
  assert (Href : refs static_heap = ∅) by (vm_compute; reflexivity).
  split; simpl; rewrite ?Href.
  - intros l n Hl Hs. destruct Hs. apply elem_of_statics. eauto.
  - intros l Hl. multiset_solver.
  - intros l n Hl Hs. destruct Hs. apply elem_of_statics. eauto.
  - done.
  - intros l Hl%elem_of_statics. unfold statics in Hl.
    rewrite !elem_of_union, !elem_of_singleton in Hl. destruct Hl as [[->| ->]| ->]; vm_compute; done.
  - intros l Hl. by apply not_elem_of_empty in Hl.
Qed.

(* ------------------------------------------------------------------ *)
(** ** Two small clients, for examples *)

Definition outcome {A} (m : W A) : world :=
  match m (world_init [] 5) with inr (_, w) => w | inl _ => world_init [] 5 end.

(** An empty object (or array) at 4 and the integer 9 at 5; both owned. *)
Definition object_client : W json_ptr := let* _ := json_object in json_integer 9.
Definition array_client : W json_ptr := let* _ := json_array in json_integer 9.

Lemma object_at_keep D w w' roots Zs l items :
  Inv w roots Zs -> frame D w w' -> (forall m b, body_at w m b -> body_at w' m b) ->
  object_at w l items -> object_at w' l items.
Proof.
  intros Hinv Hfr Hb Ho. pose proof (object_not_static _ _ _ _ _ Hinv Ho) as Hs.
  destruct Ho as (ht & (n & Hn & Hht) & Hrep). exists ht.
  split; [apply Hb; by exists n|]. rewrite (fr_seed _ _ _ Hfr); [done|].
  pose proof (inv_body _ _ _ Hinv l n Hn Hs) as Hok. rewrite Hht in Hok. by destruct Hok.
Qed.

Lemma object_client_inv :
  Inv (outcome object_client) ({[+ 4%positive +]} ⊎ {[+ 5%positive +]}) ∅ /\
  object_at (outcome object_client) 4%positive [].
Proof.
  cut (wp object_client (world_init [] 5) (fun r w => r = Some 5%positive ->
         Inv w ({[+ 4%positive +]} ⊎ {[+ 5%positive +]}) ∅ /\ object_at w 4%positive [])).
  { unfold wp, outcome. destruct (object_client _) as [|[r w]] eqn:E; [done|]. intros H. apply H.
    vm_compute in E. by injection E as <- _. }
  unfold object_client. wp_step. eapply wp_mono; [apply (wp_conj json_object)|].
  - apply (json_object_spec _ ∅ ∅), inv_init.
  - instantiate (1 := fun r _ => r = Some 4%positive). unfold wp. by vm_compute.
  - intros r w1 [(F1 & B1 & _ & H1) ->]. destruct H1 as (I1 & _ & _ & Ho).
    eapply wp_mono; [by apply (json_integer_spec _ _ _ 9 I1)|].
    intros r w2 (F2 & B2 & _ & H2) ->. destruct H2 as (I2 & _).
    rewrite gmultiset_disj_union_left_id in I2. split; [done|]. by apply (object_at_keep _ _ _ _ _ _ _ I1 F2 B2).
Qed.

Lemma array_client_inv :
  Inv (outcome array_client) ({[+ 4%positive +]} ⊎ {[+ 5%positive +]}) ∅ /\
  array_at (outcome array_client) 4%positive [].
Proof.
  cut (wp array_client (world_init [] 5) (fun r w => r = Some 5%positive ->
         Inv w ({[+ 4%positive +]} ⊎ {[+ 5%positive +]}) ∅ /\ array_at w 4%positive [])).
  { unfold wp, outcome. destruct (array_client _) as [|[r w]] eqn:E; [done|]. intros H. apply H.
    vm_compute in E. by injection E as <- _. }
  unfold array_client. wp_step. eapply wp_mono; [apply (wp_conj json_array)|].
  - apply (json_array_spec _ ∅ ∅), inv_init.
  - instantiate (1 := fun r _ => r = Some 4%positive). unfold wp. by vm_compute.
  - intros r w1 [(F1 & B1 & _ & H1) ->]. destruct H1 as (I1 & _ & _ & a & Ha & Hok).
    eapply wp_mono; [by apply (json_integer_spec _ _ _ 9 I1)|].
    intros r w2 (F2 & B2 & _ & H2) ->. destruct H2 as (I2 & _).
    rewrite gmultiset_disj_union_left_id in I2. split; [done|]. exists a. split; [by apply B2|done].
Qed.

(* ------------------------------------------------------------------ *)
(** ** Properties *)

Lemma roomy_init oom entropy : roomy (world_init oom entropy) ∅.
Proof.
  split.
  - intros l items Ho. destruct (object_not_static _ _ _ _ _ (inv_init oom entropy) Ho).
    destruct Ho as (ht & (n & Hn & _) & _). apply elem_of_statics. eauto.
  - intros l xs Ha. destruct (array_not_static _ _ _ _ _ (inv_init oom entropy) Ha).
    destruct Ha as (a & (n & Hn & _) & _). apply elem_of_statics. eauto.
  - intros l. assert (Href : refs static_heap = ∅) by (vm_compute; reflexivity).
    cbn [world_init w_heap]. rewrite Href, gmultiset_disj_union_left_id, multiplicity_empty. done.
Qed.

(** Setting a member of an object always returns, consumes the reference to
    the value and keeps the counts exact.  It succeeds with the member mapped
    to the value (order kept, a new key last) or fails with the object as it
    was; with a valid UTF-8 key, a value other than the object itself and
    enough memory it succeeds. *)
Theorem json_object_set_new_correct w roots l items k v :
  Inv w (roots ⊎ {[+ v +]}) ∅ -> object_at w l items -> l ∈ roots ->
  Z.of_nat (length items) < 2 ^ 31 ->
  exists r w', json_object_set_new (Some l) (Some k) (Some v) w = inr (r, w') /\
    Inv w' roots ∅ /\ frame {[l]} w w' /\
    ((r = 0 /\ exists items', object_at w' l items' /\ kvs items' = aset k v (kvs items)) \/
     (r = -1 /\ object_at w' l items /\
      (utf8_check_string k = false \/ l = v \/ w_oom w <> [] \/ MAX_KEY <= Z.of_nat (length k)))).
Proof.
  intros Hinv Ho Hl Hsz. apply wp_inv. unfold json_object_set_new.
  destruct (utf8_check_string k) eqn:Hk; [|eapply wp_mono; [by eapply reject_object|]; naive_solver].
  destruct (decide (l = v)) as [->|Hne].
  - unfold json_object_set_new_nocheck. wp_step. destruct Ho as (ht & Hb & Hrep).
    eapply wp_json_is; [exact Hb|]. rewrite (bool_decide_true (v = v)), orb_true_r by done.
    eapply wp_mono; [eapply reject_object; eauto; by exists ht|]. naive_solver.
  - eapply wp_mono; [by eapply json_object_set_new_nocheck_spec|].
    intros r w' (? & ? & _ & [(-> & items' & ? & ? & _)|(-> & ? & ?)]); naive_solver.
Qed.

(** Inserting into an array always returns, consumes the reference to the
    value and keeps the counts exact.  At an index up to the length the value
    is placed there and the elements behind it move up by one; beyond it, for
    the array itself as value, or when memory runs out, the array is as it
    was. *)
Theorem json_array_insert_new_correct w roots l xs v i :
  Inv w (roots ⊎ {[+ v +]}) ∅ -> array_at w l xs -> l ∈ roots ->
  Z.of_nat (length xs) + 1 <= ARRAY_MAX ->
  exists r w', json_array_insert_new (Some l) (Z.of_nat i) (Some v) w = inr (r, w') /\
    Inv w' roots ∅ /\ frame {[l]} w w' /\
    ((r = 0 /\ array_at w' l (take i xs ++ v :: drop i xs)) \/
     (r = -1 /\ array_at w' l xs /\ (l = v \/ (length xs < i)%nat \/ w_oom w <> []))).
Proof.
  intros Hinv Ha Hl Hsz. apply wp_inv. unfold json_array_insert_new.
  destruct (decide (l = v \/ (length xs < i)%nat)) as [Hbad|Hok].
  - wp_step. destruct Ha as (a & Hb & Hok). eapply wp_json_is; [exact Hb|].
    rewrite (bool_decide_true (type_of _ = _)) by done. cbn [negb orb]. case_bool_decide.
    + eapply wp_mono; [eapply reject_array; eauto; by exists a|]. naive_solver.
    + wp_step. eapply wp_json_to_array; [exact Hb|].
      rewrite (proj2 (Z.ltb_lt _ _)) by (rewrite (ar_entries _ _ Hok); naive_solver lia).
      eapply wp_mono; [eapply reject_array; eauto; by exists a|]. naive_solver.
  - assert (l <> v /\ (i <= length xs)%nat) as [? ?] by naive_solver lia.
    eapply wp_mono; [by eapply json_array_insert_new_spec|]. naive_solver.
Qed.

(** C21. Releasing a reference always returns -- the recursion over the children
    ends, for shared and nested values too -- and leaves a heap in which every
    value other than the constants is referenced, with its exact count: what
    lost its last reference is gone, and everything else has the contents it
    had. *)
Theorem json_decref_exact w roots l :
  Inv w (roots ⊎ {[+ l +]}) ∅ ->
  exists w', json_decref (Some l) w = inr (tt, w') /\ Inv w' roots ∅ /\
    (forall m n', w_heap w' !! m = Some n' -> m ∉ statics ->
       1 <= refcount n' /\ refcount n' = Z.of_nat (multiplicity m (refs (w_heap w') ⊎ roots)) /\
       body_at w m (n_body n')).
Proof.
  intros Hinv. destruct (wp_inv _ _ _ (json_decref_spec w roots ∅ l Hinv)) as ([] & w' & E & Hinv' & Hsh & _).
  exists w'. split_and!; [done|done|]. intros m n' Hm Hs.
  destruct (inv_count _ _ _ Hinv' m n' Hm Hs) as (Hrc & _ & Hz).
  destruct (sh_nodes _ _ Hsh m n' Hm) as (n & Hn & Hb & _).
  split_and!; [|done|by exists n]. assert (refcount n' <> 0) by set_solver. lia.
Qed.

Lemma json_decref_exact_witness :
  exists w', json_decref (Some 5%positive) (outcome object_client) = inr (tt, w') /\
    Inv w' {[+ 4%positive +]} ∅ /\
    (forall m n', w_heap w' !! m = Some n' -> m ∉ statics ->
       1 <= refcount n' /\ refcount n' = Z.of_nat (multiplicity m (refs (w_heap w') ⊎ {[+ 4%positive +]})) /\
       body_at (outcome object_client) m (n_body n')).
Proof. apply json_decref_exact. apply object_client_inv. Defined.
