(* ===== verification/Error.v ===== *)
(** * Error reports (jansson/src/error.c)

    [json_error_t]; the pointer may be NULL ([None]).  [e_text] is the text up
    to its NUL, at most [JSON_ERROR_TEXT_LENGTH - 2] bytes; the last byte of
    the array holds the error code. *)

From S2P Require Import Prelude.

Definition JSON_ERROR_TEXT_LENGTH : Z := 160.
Definition JSON_ERROR_SOURCE_LENGTH : Z := 80.

Inductive json_error_code : Type :=
| json_error_unknown
| json_error_out_of_memory
| json_error_stack_overflow
| json_error_cannot_open_file
| json_error_invalid_argument
| json_error_invalid_utf8
| json_error_premature_end_of_input
| json_error_end_of_input_expected
| json_error_invalid_syntax
| json_error_invalid_format
| json_error_wrong_type
| json_error_null_character
| json_error_null_value
| json_error_null_byte_in_key
| json_error_duplicate_key
| json_error_numeric_overflow
| json_error_item_not_found
| json_error_index_out_of_range.

#[export] Instance json_error_code_eq_dec : EqDecision json_error_code.
Proof. solve_decision. Defined.

Record json_error_t := {
  e_line : Z;
  e_column : Z;
  e_position : Z;
  e_source : bytes;
  e_text : bytes;
  e_code : json_error_code
}.

Abbreviation json_error_ptr := (option json_error_t).

(** [vsnprintf(buf, n, ...)]: at most [n - 1] bytes of the text *)
Definition snprintf (n : Z) (text : bytes) : bytes := take (Z.to_nat (n - 1)) text.

(** [jsonp_error_set_source]: a long name keeps its end. *)
Definition error_source (source : bytes) : bytes :=
  let len := Z.of_nat (length source) in
  if len <? JSON_ERROR_SOURCE_LENGTH then source
  else
    let extra := len - JSON_ERROR_SOURCE_LENGTH + 4 in
    lit "..." ++ drop (Z.to_nat extra) source.
Definition jsonp_error_set_source (error : json_error_ptr) (source : option bytes) : json_error_ptr :=
  match error, source with
  | Some e, Some s =>
      Some {| e_line := e_line e; e_column := e_column e; e_position := e_position e;
              e_source := error_source s; e_text := e_text e; e_code := e_code e |}
  | _, _ => error
  end.

Definition jsonp_error_init (error : json_error_ptr) (source : option bytes) : json_error_ptr :=
  match error with
  | None => None
  | Some e =>
      let e' := {| e_line := -1; e_column := -1; e_position := 0; e_source := [];
                   e_text := []; e_code := e_code e |} in
      match source with
      | Some _ => jsonp_error_set_source (Some e') source
      | None => Some e'
      end
  end.

(** [jsonp_error_vset], [text] being the formatted message; the first error wins. *)
Definition jsonp_error_vset (error : json_error_ptr) (line column position : Z)
    (code : json_error_code) (text : bytes) : json_error_ptr :=
  match error with
  | None => None
  | Some e =>
      if negb (bool_decide (e_text e = [])) then error
      else Some {| e_line := line; e_column := column; e_position := int32 position;
                   e_source := e_source e;
                   e_text := until_nul (snprintf (JSON_ERROR_TEXT_LENGTH - 1) text);
                   e_code := code |}
  end.
Definition jsonp_error_set := jsonp_error_vset.

(** What every reported error satisfies: the arrays are not overrun. *)
Definition error_ok (e : json_error_t) : Prop :=
  Z.of_nat (length (e_source e)) < JSON_ERROR_SOURCE_LENGTH /\
  Z.of_nat (length (e_text e)) <= JSON_ERROR_TEXT_LENGTH - 2.

Lemma length_until_nul s : (length (until_nul s) <= length s)%nat.
Proof. induction s as [|b s IH]; simpl; [done|]. case_if; simpl; lia. Qed.

Lemma error_source_fits source :
  Z.of_nat (length (error_source source)) < JSON_ERROR_SOURCE_LENGTH.
Proof.
  unfold error_source, JSON_ERROR_SOURCE_LENGTH. case_if; [lia|].
  rewrite length_app, length_drop. simpl. lia.
Qed.

(** The fixed-size arrays of [json_error_t] are never overrun: whatever the
    source name and the message, after [jsonp_error_init] and any
    [jsonp_error_set] the source fits in 80 bytes and the text in 159 with
    their NULs, and a later error never replaces the first one. *)
Lemma error_bounds e source line column position code text line' column' position' code' text' :
  exists e1 e2, jsonp_error_init (Some e) source = Some e1 /\
    jsonp_error_set (Some e1) line column position code text = Some e2 /\
    error_ok e1 /\ error_ok e2 /\
    (until_nul (snprintf (JSON_ERROR_TEXT_LENGTH - 1) text) <> [] ->
     jsonp_error_set (Some e2) line' column' position' code' text' = Some e2).
Proof.
  unfold jsonp_error_init, jsonp_error_set, jsonp_error_vset, jsonp_error_set_source.
  assert (Ht : forall t, Z.of_nat (length (until_nul (snprintf (JSON_ERROR_TEXT_LENGTH - 1) t)))
                         <= JSON_ERROR_TEXT_LENGTH - 2).
  { intros t. pose proof (length_until_nul (snprintf (JSON_ERROR_TEXT_LENGTH - 1) t)).
    unfold snprintf, JSON_ERROR_TEXT_LENGTH in *. rewrite length_take in *. lia. }
  assert (Hs := error_source_fits).
  destruct source as [s|]; (eexists _, _; split; [reflexivity|]; simpl; split; [reflexivity|]);
    unfold error_ok; simpl; split_and!; try done; intros Hne; by rewrite bool_decide_false.
Qed.
