(* ===== verification/Strconv.v ===== *)
(** * Numbers as text (jansson/src/strconv.c)

    [strtod], [strtoll] and [snprintf("%.*g")] of the C library with correct
    rounding to nearest (ties to even), and the locale-independent wrappers
    [jsonp_strtod] and [jsonp_dtostr].  [point] is the first byte of
    [localeconv()->decimal_point]. *)

From Stdlib Require Import SpecFloat.
From S2P Require Import Prelude Strbuffer Value.

(* ------------------------------------------------------------------ *)
(** ** Scanning digits *)

Definition l_isdigit (c : Z) : bool := (chr "0" <=? c) && (c <=? chr "9").

(** The digits a text starts with, and the rest. *)
Fixpoint span_digits (s : bytes) : list Z * bytes :=
  match s with
  | [] => ([], [])
  | c :: s' =>
      if l_isdigit c then let '(ds, r) := span_digits s' in (c - chr "0" :: ds, r)
      else ([], s)
  end.

(** An optional '-'. *)
Definition scan_minus (s : bytes) : bool * bytes :=
  match s with
  | c :: s' => if c =? chr "-" then (true, s') else (false, s)
  | [] => (false, s)
  end.

(** [strtoll(s, &end, 10)]: the value, whether errno is ERANGE, and what
    [end] points to. *)
Definition strtoll (s : bytes) : Z * bool * bytes :=
  let '(neg, s1) := scan_minus s in
  let '(ds, r) := span_digits s1 in
  match ds with
  | [] => (0, false, s)
  | _ =>
      let v := if neg then - of_digits 10 ds else of_digits 10 ds in
      if v <? INT64_MIN then (INT64_MIN, true, r)
      else if INT64_MAX <? v then (INT64_MAX, true, r)
      else (v, false, r)
  end.

(* ------------------------------------------------------------------ *)
(** ** [strtod] *)

(** The double nearest to [(-1)^neg * m * 10^e]; beyond the range of doubles
    the powers of ten need not be computed. *)
Definition dec_to_double (neg : bool) (m e : Z) : double :=
  match m with
  | Zpos p =>
      if 310 <? e then S754_infinity neg
      else if e + Z.of_nat (length (digits 10 m)) <? -326 then S754_zero neg
      else if 0 <=? e then
        binary_normalize DBL_PREC DBL_EMAX (if neg then - (m * 10 ^ e) else m * 10 ^ e) 0 neg
      else
        let '(mz, ez, lz) := SFdiv_core_binary DBL_PREC DBL_EMAX m 0 (10 ^ (- e)) 0 in
        binary_round_aux DBL_PREC DBL_EMAX neg mz ez lz
  | _ => S754_zero neg
  end.

(** The optional fraction, introduced by [point], and exponent. *)
Definition scan_fraction (point : Z) (s : bytes) : list Z * bytes :=
  match s with
  | c :: s' => if c =? point then span_digits s' else ([], s)
  | [] => ([], s)
  end.
(** The optional sign of an exponent. *)
Definition exp_sign (s : bytes) : bool * bytes :=
  match s with
  | c :: r => if c =? chr "-" then (true, r) else if c =? chr "+" then (false, r) else (false, s)
  | [] => (false, s)
  end.
Definition scan_exponent (s : bytes) : Z * bytes :=
  match s with
  | c :: s' =>
      if (c =? chr "e") || (c =? chr "E") then
        let '(neg, s2) := exp_sign s' in
        match span_digits s2 with
        | ([], _) => (0, s)
        | (ds, r) => (if neg then - of_digits 10 ds else of_digits 10 ds, r)
        end
      else (0, s)
  | [] => (0, s)
  end.

(** [strtod(s, &end)]: the value, whether it overflowed to [HUGE_VAL] with
    errno = ERANGE, and what [end] points to. *)
Definition strtod (point : Z) (s : bytes) : double * bool * bytes :=
  let '(neg, s1) := scan_minus s in
  let '(ds, s2) := span_digits s1 in
  let '(fs, s3) := scan_fraction point s2 in
  match ds ++ fs with
  | [] => (S754_zero false, false, s)
  | ms =>
      let '(e, s4) := scan_exponent s3 in
      let v := dec_to_double neg (of_digits 10 ms) (e - Z.of_nat (length fs)) in
      (v, not_finite v, s4)
  end.

(* ------------------------------------------------------------------ *)
(** ** [snprintf("%.*g")] *)

Definition dec_chars (ds : list Z) : bytes := (fun d => chr "0" + d) <$> ds.

(** [a / b] rounded to nearest, ties to even. *)
Definition div_round (a b : Z) : Z :=
  let q := a / b in
  let r := a mod b in
  if (2 * r <? b) || ((2 * r =? b) && Z.even q) then q else q + 1.

(** The [X] with [10^X <= num/den < 10^(X+1)]. *)
Fixpoint up_exp (fuel : nat) (num den : Z) : Z :=
  match fuel with
  | O => 0
  | S fuel' => if den * 10 <=? num then 1 + up_exp fuel' num (den * 10) else 0
  end.
Fixpoint down_exp (fuel : nat) (num den : Z) : Z :=
  match fuel with
  | O => 0
  | S fuel' => if num <? den then -1 + down_exp fuel' (num * 10) den else 0
  end.
Definition dec_exp (num den : Z) : Z :=
  if den <=? num then up_exp (Z.to_nat (Z.log2 num)) num den
  else down_exp (Z.to_nat (Z.log2 den + 1)) num den.

(** [num/den] to [p] significant digits: the digits as an integer below
    [10^p] and the exponent of the first one. *)
Definition sig_digits (num den p : Z) : Z * Z :=
  let x := dec_exp num den in
  let s := p - 1 - x in
  let n := if 0 <=? s then div_round (num * 10 ^ s) den else div_round num (den * 10 ^ (- s)) in
  if n =? 10 ^ p then (10 ^ (p - 1), x + 1) else (n, x).

(** Remove trailing zeros; [rev_zeros] works on the reversed digits. *)
Fixpoint rev_zeros (ds : list Z) : list Z :=
  match ds with
  | 0 :: ds' => rev_zeros ds'
  | _ => ds
  end.
Definition strip_zeros (ds : list Z) : list Z := rev (rev_zeros (rev ds)).

Definition with_fraction (point : Z) (int_part frac : list Z) : bytes :=
  match strip_zeros frac with
  | [] => dec_chars int_part
  | fs => dec_chars int_part ++ point :: dec_chars fs
  end.

(** The exponent of [%e]: a sign and at least two digits. *)
Definition exp_chars (x : Z) : bytes :=
  let ds := digits 10 (Z.abs x) in
  chr "e" :: (if x <? 0 then chr "-" else chr "+")
    :: dec_chars (if (length ds <? 2)%nat then 0 :: ds else ds).

(** Style [g] for the significant digits [n] (at most [p] of them) and
    exponent [x]. *)
Definition layout_g (point p n x : Z) : bytes :=
  let ds := digits 10 n in
  if (x <? -4) || (p <=? x) then
    with_fraction point (take 1 ds) (drop 1 ds) ++ exp_chars x
  else if x <? 0 then
    with_fraction point [0] (replicate (Z.to_nat (- x - 1)) 0 ++ ds)
  else
    with_fraction point (take (Z.to_nat (x + 1)) ds) (drop (Z.to_nat (x + 1)) ds).

Definition sign_chars (s : bool) : bytes := if s then [chr "-"] else [].

(** The text of ["%.*g"] for [p > 0]. *)
Definition printf_g (point p : Z) (d : double) : bytes :=
  match d with
  | S754_zero s => sign_chars s ++ [chr "0"]
  | S754_infinity s => sign_chars s ++ lit "inf"
  | S754_nan => lit "nan"
  | S754_finite s m e =>
      let num := if 0 <=? e then Zpos m * 2 ^ e else Zpos m in
      let den := if 0 <=? e then 1 else 2 ^ (- e) in
      let '(n, x) := sig_digits num den p in
      sign_chars s ++ layout_g point p n x
  end.

(* ------------------------------------------------------------------ *)
(** ** strconv.c *)

(** Replace the first byte [a] by [b] ([strchr] and an assignment). *)
Fixpoint replace_first (a b : Z) (s : bytes) : bytes :=
  match s with
  | [] => []
  | c :: s' => if c =? a then b :: s' else c :: replace_first a b s'
  end.

Definition to_locale (point : Z) (s : bytes) : bytes :=
  if point =? chr "." then s else replace_first (chr ".") point s.
Definition from_locale (point : Z) (s : bytes) : bytes :=
  if point =? chr "." then s else replace_first point (chr ".") s.

(** [jsonp_strtod] on the text of the buffer: [None] for -1 (overflow). *)
Definition jsonp_strtod (point : Z) (s : bytes) : res (option double) :=
  let '(value, erange, rest) := strtod point (to_locale point s) in
  if negb (bool_decide (rest = [])) then inl AssertFailure
  else if not_finite value && erange then inr None
  else inr (Some value).

(** [strchr(s, c) != NULL] *)
Definition has_char (c : Z) (s : bytes) : bool := existsb (fun b => b =? c) s.

Fixpoint skip_zero_chars (s : bytes) : bytes :=
  match s with
  | c :: s' => if c =? chr "0" then skip_zero_chars s' else s
  | [] => []
  end.

(** The clean-up of the exponent behind the 'e': [start] is what follows the
    'e', of which [*start == '-'] is kept; [end] starts one character later. *)
Definition trim_exponent (start : bytes) : bytes :=
  match start with
  | c :: r =>
      let e := skip_zero_chars r in
      if c =? chr "-" then c :: e else e
  | [] => []
  end.
Fixpoint fix_exponent (s : bytes) : bytes :=
  match s with
  | [] => []
  | c :: s' => if c =? chr "e" then c :: trim_exponent s' else c :: fix_exponent s'
  end.

(** [jsonp_dtostr(buffer, size, value, precision)]: the text, or [None] for -1. *)
Definition jsonp_dtostr (point size : Z) (value : double) (precision : Z) : option bytes :=
  let precision := if precision =? 0 then 17 else precision in
  let buffer := printf_g point precision value in
  if size <=? Z.of_nat (length buffer) then None
  else
    let buffer := from_locale point buffer in
    let buffer' :=
      if negb (has_char (chr ".") buffer) && negb (has_char (chr "e") buffer) then
        if size <=? Z.of_nat (length buffer) + 3 then None else Some (buffer ++ lit ".0")
      else Some buffer in
    match buffer' with
    | None => None
    | Some b => Some (fix_exponent b)
    end.
