(* ===== verification/Load.v ===== *)
(** * The decoder (jansson/src/load.c): the code

    The byte stream, the lexer and the recursive-descent parser, in the monad
    [L] over the lexer, the error report and the world of values.  What the
    source's [get] function returns in successive calls is the list
    [s_input]: [Some] of a byte, or [None] for EOF; behind its end every call
    returns EOF. *)

From Stdlib Require Import SpecFloat.
From S2P Require Import Prelude Utf8 Strbuffer Hashtable Value Error Strconv.

(* ------------------------------------------------------------------ *)
(** ** The data *)

Definition STREAM_STATE_OK : Z := 0.
Definition STREAM_STATE_EOF : Z := -1.
Definition STREAM_STATE_ERROR : Z := -2.

Definition TOKEN_INVALID : Z := -1.
Definition TOKEN_EOF : Z := 0.
Definition TOKEN_STRING : Z := 256.
Definition TOKEN_INTEGER : Z := 257.
Definition TOKEN_REAL : Z := 258.
Definition TOKEN_TRUE : Z := 259.
Definition TOKEN_FALSE : Z := 260.
Definition TOKEN_NULL : Z := 261.

Definition JSON_REJECT_DUPLICATES : Z := 0x1.
Definition JSON_DISABLE_EOF_CHECK : Z := 0x2.
Definition JSON_DECODE_ANY : Z := 0x4.
Definition JSON_DECODE_INT_AS_REAL : Z := 0x8.
Definition JSON_ALLOW_NUL : Z := 0x10.
Definition JSON_PARSER_MAX_DEPTH : Z := 2048.

(** [flags & flag] *)
Definition has_flag (flags flag : Z) : bool := negb (Z.land flags flag =? 0).

Definition l_isupper (c : Z) : bool := (chr "A" <=? c) && (c <=? chr "Z").
Definition l_islower (c : Z) : bool := (chr "a" <=? c) && (c <=? chr "z").
Definition l_isalpha (c : Z) : bool := l_isupper c || l_islower c.
Definition l_isxdigit (c : Z) : bool :=
  l_isdigit c || ((chr "A" <=? c) && (c <=? chr "F")) || ((chr "a" <=? c) && (c <=? chr "f")).

Record stream_t := {
  s_input : list (option Z);
  s_buffer : bytes;              (* char buffer[5] *)
  s_pos : nat;                   (* buffer_pos *)
  s_state : Z;
  s_line : Z;
  s_column : Z;
  s_last_column : Z;
  s_position : Z
}.

(** The union [value]: the string is the bytes of its block. *)
Record lex_t := {
  lx_stream : stream_t;
  lx_saved : strbuffer_t;
  lx_flags : Z;
  lx_depth : Z;
  lx_token : Z;
  lx_string : option bytes;
  lx_integer : Z;
  lx_real : double
}.

Record lstate := { l_lex : lex_t; l_error : json_error_ptr; l_world : world }.
Definition L (A : Type) : Type := ST lstate A.

(** ** Access to the state *)

Definition set_lex (x : lex_t) (s : lstate) : lstate :=
  {| l_lex := x; l_error := l_error s; l_world := l_world s |}.
Definition put_error (e : json_error_ptr) (s : lstate) : lstate :=
  {| l_lex := l_lex s; l_error := e; l_world := l_world s |}.
Definition set_world (w : world) (s : lstate) : lstate :=
  {| l_lex := l_lex s; l_error := l_error s; l_world := w |}.

Definition in_world {A} (m : W A) : L A := zoom l_world set_world m.
Definition in_alloc {A} (m : AM A) : L A := in_world (run_am m).

Definition lex_with_stream (st : stream_t) (x : lex_t) : lex_t :=
  {| lx_stream := st; lx_saved := lx_saved x; lx_flags := lx_flags x; lx_depth := lx_depth x;
     lx_token := lx_token x; lx_string := lx_string x; lx_integer := lx_integer x;
     lx_real := lx_real x |}.
Definition lex_with_saved (sb : strbuffer_t) (x : lex_t) : lex_t :=
  {| lx_stream := lx_stream x; lx_saved := sb; lx_flags := lx_flags x; lx_depth := lx_depth x;
     lx_token := lx_token x; lx_string := lx_string x; lx_integer := lx_integer x;
     lx_real := lx_real x |}.
Definition lex_with_depth (n : Z) (x : lex_t) : lex_t :=
  {| lx_stream := lx_stream x; lx_saved := lx_saved x; lx_flags := lx_flags x; lx_depth := n;
     lx_token := lx_token x; lx_string := lx_string x; lx_integer := lx_integer x;
     lx_real := lx_real x |}.
Definition lex_with_token (t : Z) (x : lex_t) : lex_t :=
  {| lx_stream := lx_stream x; lx_saved := lx_saved x; lx_flags := lx_flags x;
     lx_depth := lx_depth x; lx_token := t; lx_string := lx_string x;
     lx_integer := lx_integer x; lx_real := lx_real x |}.
Definition lex_with_string (v : option bytes) (x : lex_t) : lex_t :=
  {| lx_stream := lx_stream x; lx_saved := lx_saved x; lx_flags := lx_flags x;
     lx_depth := lx_depth x; lx_token := lx_token x; lx_string := v;
     lx_integer := lx_integer x; lx_real := lx_real x |}.
Definition lex_with_integer (v : Z) (x : lex_t) : lex_t :=
  {| lx_stream := lx_stream x; lx_saved := lx_saved x; lx_flags := lx_flags x;
     lx_depth := lx_depth x; lx_token := lx_token x; lx_string := lx_string x;
     lx_integer := v; lx_real := lx_real x |}.
Definition lex_with_real (v : double) (x : lex_t) : lex_t :=
  {| lx_stream := lx_stream x; lx_saved := lx_saved x; lx_flags := lx_flags x;
     lx_depth := lx_depth x; lx_token := lx_token x; lx_string := lx_string x;
     lx_integer := lx_integer x; lx_real := v |}.

Definition get_lex : L lex_t := gets l_lex.
Definition upd_lex (f : lex_t -> lex_t) : L unit := modify (fun s => set_lex (f (l_lex s)) s).
Definition get_stream : L stream_t := gets (fun s => lx_stream (l_lex s)).
Definition put_stream (st : stream_t) : L unit := upd_lex (lex_with_stream st).
Definition get_token : L Z := gets (fun s => lx_token (l_lex s)).
Definition set_token (t : Z) : L unit := upd_lex (lex_with_token t).

(* ------------------------------------------------------------------ *)
(** ** Formatted messages *)

Definition upper_hex_digit (d : Z) : Z := if d <? 10 then chr "0" + d else chr "A" + (d - 10).
(** [%x] and [%04X] *)
Definition fmt_x (n : Z) : bytes := hex_digit <$> digits 16 (uint32 n).
Definition fmt_04X (n : Z) : bytes :=
  let ds := upper_hex_digit <$> digits 16 (uint32 n) in
  replicate (4 - length ds) (chr "0") ++ ds.

(** [error_set]; [with_lex] tells whether the lexer is passed. *)
Definition error_set (with_lex : bool) (code : json_error_code) (msg : bytes) : L unit :=
  let* error := gets l_error in
  match error with
  | None => ret tt
  | Some _ =>
      let msg_text := snprintf JSON_ERROR_TEXT_LENGTH msg in
      let* (line, col, pos, code, result) :=
        (if with_lex then
           let* x := get_lex in
           let st := lx_stream x in
           let* saved_text := lift_res (strbuffer_value (lx_saved x)) in
           let at_ code result := (s_line st, s_column st, s_position st, code, result) in
           match saved_text with
           | Some (c :: s) =>
               if sb_length (lx_saved x) <=? 20 then
                 ret (at_ code (snprintf JSON_ERROR_TEXT_LENGTH
                                  (msg_text ++ lit " near '" ++ (c :: s) ++ lit "'")))
               else ret (at_ code msg_text)
           | _ =>
               let code := if bool_decide (code = json_error_invalid_syntax)
                           then json_error_premature_end_of_input else code in
               if s_state st =? STREAM_STATE_ERROR then ret (at_ code msg_text)
               else ret (at_ code (snprintf JSON_ERROR_TEXT_LENGTH
                                     (msg_text ++ lit " near end of file")))
           end
         else ret (-1, -1, 0, code, msg_text)) in
      modify (fun s => put_error (jsonp_error_set (l_error s) line col pos code result) s)
  end.

(* ------------------------------------------------------------------ *)
(** ** The stream *)

Definition stream_init (input : list (option Z)) : stream_t :=
  {| s_input := input; s_buffer := [0; 0; 0; 0; 0]; s_pos := 0; s_state := STREAM_STATE_OK;
     s_line := 1; s_column := 0; s_last_column := 0; s_position := 0 |}.

(** [stream->get(stream->data)]: a byte, or [None] for EOF *)
Definition source_get (input : list (option Z)) : option Z * list (option Z) :=
  match input with
  | [] => (None, [])
  | c :: rest => (c, rest)
  end.

(** [stream->buffer[i] = stream->get(stream->data)] for [i] from [i] on, [n]
    times; EOF is -1 and becomes the byte 0xFF. *)
Fixpoint fill_buffer (n i : nat) (input : list (option Z)) (buffer : bytes)
    : list (option Z) * bytes :=
  match n with
  | O => (input, buffer)
  | S n' =>
      let '(c, input') := source_get input in
      fill_buffer n' (S i) input' (<[i := default 255 c]> buffer)
  end.

Definition stream_with (st : stream_t) (input : list (option Z)) (buffer : bytes) (pos : nat)
    (state : Z) : stream_t :=
  {| s_input := input; s_buffer := buffer; s_pos := pos; s_state := state; s_line := s_line st;
     s_column := s_column st; s_last_column := s_last_column st; s_position := s_position st |}.

(** Take the next byte of the buffer and count it. *)
Definition stream_advance (st : stream_t) : option (Z * stream_t) :=
  b ← s_buffer st !! s_pos st;
  let c := schar b in
  let newline := c =? chr "010" in
  Some (c, {| s_input := s_input st; s_buffer := s_buffer st; s_pos := S (s_pos st);
              s_state := s_state st;
              s_line := if newline then s_line st + 1 else s_line st;
              s_column := if newline then 0
                          else if negb (utf8_check_first c =? 0) then s_column st + 1
                          else s_column st;
              s_last_column := if newline then s_column st else s_last_column st;
              s_position := size_t (s_position st + 1) |}).

Definition stream_error (st : stream_t) (c : Z) : L Z :=
  put_stream st ;;;
  error_set true json_error_invalid_utf8 (lit "unable to decode byte 0x" ++ fmt_x c) ;;;
  ret STREAM_STATE_ERROR.

Definition stream_next (st : stream_t) : L Z :=
  let* (c, st') := require (stream_advance st) in
  put_stream st' ;;;
  ret c.

Definition stream_get : L Z :=
  let* st := get_stream in
  if negb (s_state st =? STREAM_STATE_OK) then ret (s_state st)
  else
    let* b := require (s_buffer st !! s_pos st) in
    if b =? 0 then
      let '(c, input) := source_get (s_input st) in
      match c with
      | None =>
          put_stream (stream_with st input (s_buffer st) (s_pos st) STREAM_STATE_EOF) ;;;
          ret STREAM_STATE_EOF
      | Some c =>
          let buffer := <[0%nat := c]> (s_buffer st) in
          if (0x80 <=? c) && (c <=? 0xFF) then
            let count := utf8_check_first c in
            if count =? 0 then
              stream_error (stream_with st input buffer 0 STREAM_STATE_ERROR) c
            else
              assert_ (2 <=? count) ;;;
              let '(input, buffer) := fill_buffer (Z.to_nat count - 1) 1 input buffer in
              match utf8_check_full buffer count with
              | None => stream_error (stream_with st input buffer 0 STREAM_STATE_ERROR) c
              | Some _ =>
                  stream_next (stream_with st input (<[Z.to_nat count := 0]> buffer) 0
                                           STREAM_STATE_OK)
              end
          else stream_next (stream_with st input (<[1%nat := 0]> buffer) 0 STREAM_STATE_OK)
      end
    else stream_next st.

Definition stream_unget (c : Z) : L unit :=
  if (c =? STREAM_STATE_EOF) || (c =? STREAM_STATE_ERROR) then ret tt
  else
    let* st := get_stream in
    let newline := c =? chr "010" in
    assert_ (0 <? s_pos st)%nat ;;;
    let pos := (s_pos st - 1)%nat in
    put_stream {| s_input := s_input st; s_buffer := s_buffer st; s_pos := pos;
                  s_state := s_state st;
                  s_line := if newline then s_line st - 1 else s_line st;
                  s_column := if newline then s_last_column st
                              else if negb (utf8_check_first c =? 0) then s_column st - 1
                              else s_column st;
                  s_last_column := s_last_column st;
                  s_position := size_t (s_position st - 1) |} ;;;
    let* b := require (s_buffer st !! pos) in
    assert_ (schar b =? c).

(* ------------------------------------------------------------------ *)
(** ** The lexer *)

Definition is_end (c : Z) : bool := (c =? STREAM_STATE_EOF) || (c =? STREAM_STATE_ERROR).

Definition lex_get : L Z := stream_get.

(** [lex_save]: a failure of the buffer is ignored *)
Definition lex_save (c : Z) : L unit :=
  let* x := get_lex in
  let* (_, sb) := in_alloc (strbuffer_append_byte (lx_saved x) c) in
  upd_lex (lex_with_saved sb).

Definition lex_get_save : L Z :=
  let* c := stream_get in
  (if is_end c then ret tt else lex_save c) ;;;
  ret c.

Definition lex_unget (c : Z) : L unit := stream_unget c.

Definition lex_unget_unsave (c : Z) : L unit :=
  if is_end c then ret tt
  else
    stream_unget c ;;;
    let* x := get_lex in
    let* (d, sb) := in_alloc (strbuffer_pop (lx_saved x)) in
    upd_lex (lex_with_saved sb) ;;;
    assert_ (c =? d).

(** The buffer has five bytes. *)
Fixpoint lex_save_cached (fuel : nat) : L unit :=
  match fuel with
  | O => fail OutOfFuel
  | S fuel' =>
      let* st := get_stream in
      let* b := require (s_buffer st !! s_pos st) in
      if b =? 0 then ret tt
      else
        lex_save (schar b) ;;;
        let* st := get_stream in
        put_stream {| s_input := s_input st; s_buffer := s_buffer st; s_pos := S (s_pos st);
                      s_state := s_state st; s_line := s_line st; s_column := s_column st;
                      s_last_column := s_last_column st;
                      s_position := size_t (s_position st + 1) |} ;;;
        lex_save_cached fuel'
  end.

Definition lex_free_string : L unit := upd_lex (lex_with_string None).

(** Every iteration of a lexer loop takes a byte from the input or from the
    stream's buffer. *)
Definition lex_fuel : L nat :=
  let* st := get_stream in ret (6 + length (s_input st))%nat.

(** [decode_unicode_escape(str)]: [str] is the rest of a C string, its end
    reads as NUL. *)
Definition peek (p : bytes) : Z := match p with [] => 0 | c :: _ => schar c end.

Fixpoint decode_hex (n : nat) (value : Z) (p : bytes) : Z :=
  match n with
  | O => value
  | S n' =>
      let c := peek p in
      let value := Z.shiftl value 4 in
      if l_isdigit c then decode_hex n' (value + (c - chr "0")) (drop 1 p)
      else if l_islower c then decode_hex n' (value + (c - chr "a" + 10)) (drop 1 p)
      else if l_isupper c then decode_hex n' (value + (c - chr "A" + 10)) (drop 1 p)
      else -1
  end.
Definition decode_unicode_escape (str : bytes) : res Z :=
  if peek str =? chr "u" then inr (decode_hex 4 0 (drop 1 str)) else inl AssertFailure.

(** The first loop of [lex_scan_string], from the character [c] on: [true] at
    the closing quote, [false] for [goto out]. *)
Fixpoint scan_hex4 (n : nat) (c : Z) : L (bool * Z) :=
  match n with
  | O => ret (true, c)
  | S n' =>
      if negb (l_isxdigit c) then
        error_set true json_error_invalid_syntax (lit "invalid escape") ;;;
        ret (false, c)
      else let* c := lex_get_save in scan_hex4 n' c
  end.

Definition is_escape (c : Z) : bool :=
  existsb (Z.eqb c) [chr "034"; chr "\"; chr "/"; chr "b"; chr "f"; chr "n"; chr "r"; chr "t"].

Fixpoint scan_string_loop (fuel : nat) (c : Z) : L bool :=
  if c =? chr "034" then ret true
  else
    match fuel with
    | O => fail OutOfFuel
    | S fuel' =>
        if c =? STREAM_STATE_ERROR then ret false
        else if c =? STREAM_STATE_EOF then
          error_set true json_error_premature_end_of_input (lit "premature end of input") ;;;
          ret false
        else if (0 <=? c) && (c <=? 0x1F) then
          lex_unget_unsave c ;;;
          (if c =? chr "010"
           then error_set true json_error_invalid_syntax (lit "unexpected newline")
           else error_set true json_error_invalid_syntax (lit "control character 0x" ++ fmt_x c)) ;;;
          ret false
        else if c =? chr "\" then
          let* c := lex_get_save in
          if c =? chr "u" then
            let* c := lex_get_save in
            let* (ok, c) := scan_hex4 4 c in
            if ok then scan_string_loop fuel' c else ret false
          else if is_escape c then
            let* c := lex_get_save in scan_string_loop fuel' c
          else
            error_set true json_error_invalid_syntax (lit "invalid escape") ;;;
            ret false
        else
          let* c := lex_get_save in scan_string_loop fuel' c
    end.

(** [*(t++) = ...]: the block, and the offset of [t] *)
Abbreviation target := (memblock Z * nat)%type.
Definition write_target (t : target) (bs : bytes) : option target :=
  blk ← mem_store (t.1) (t.2) bs;
  Some (blk, (t.2 + length bs)%nat).

(** [p += n] *)
Definition advance (n : nat) (p : bytes) : option bytes :=
  if decide (n <= length p)%nat then Some (drop n p) else None.

(** An escape [\uXXXX] with [p] at the 'u': the code point and what follows;
    [None] for [goto out]. *)
Definition unescape_unicode (p : bytes) : L (option (Z * bytes)) :=
  let bad msg := error_set true json_error_invalid_syntax msg ;;; ret None in
  let* value := lift_res (decode_unicode_escape p) in
  if value <? 0 then
    bad (lit "invalid Unicode escape '" ++ take 6 (chr "\" :: p) ++ lit "'")
  else
    let* p := require (advance 5 p) in
    if (0xD800 <=? value) && (value <=? 0xDBFF) then
      if (peek p =? chr "\") && (peek (drop 1 p) =? chr "u") then
        let* p := require (advance 1 p) in
        let* value2 := lift_res (decode_unicode_escape p) in
        if value2 <? 0 then
          bad (lit "invalid Unicode escape '" ++ take 6 (chr "\" :: p) ++ lit "'")
        else
          let* p := require (advance 5 p) in
          if (0xDC00 <=? value2) && (value2 <=? 0xDFFF) then
            ret (Some (Z.shiftl (value - 0xD800) 10 + (value2 - 0xDC00) + 0x10000, p))
          else
            bad (lit "invalid Unicode '\u" ++ fmt_04X value ++ lit "\u" ++ fmt_04X value2 ++ lit "'")
      else bad (lit "invalid Unicode '\u" ++ fmt_04X value ++ lit "'")
    else if (0xDC00 <=? value) && (value <=? 0xDFFF) then
      bad (lit "invalid Unicode '\u" ++ fmt_04X value ++ lit "'")
    else ret (Some (value, p)).

(** The byte a short escape stands for. *)
Definition short_escape (c : Z) : option Z :=
  if (c =? chr "034") || (c =? chr "\") || (c =? chr "/") then Some c
  else if c =? chr "b" then Some 8
  else if c =? chr "f" then Some 12
  else if c =? chr "n" then Some 10
  else if c =? chr "r" then Some 13
  else if c =? chr "t" then Some 9
  else None.

(** The second loop of [lex_scan_string]: [None] for [goto out]. *)
Fixpoint unescape_loop (fuel : nat) (p : bytes) (t : target) : L (option target) :=
  if peek p =? chr "034" then ret (Some t)
  else
    match fuel with
    | O => fail OutOfFuel
    | S fuel' =>
        if peek p =? chr "\" then
          let* p := require (advance 1 p) in
          if peek p =? chr "u" then
            let* r := unescape_unicode p in
            match r with
            | None => ret None
            | Some (value, p) =>
                match utf8_encode value with
                | None => fail AssertFailure
                | Some bs =>
                    let* t := require (write_target t bs) in
                    unescape_loop fuel' p t
                end
            end
          else
            match short_escape (peek p) with
            | None => fail AssertFailure
            | Some c =>
                let* t := require (write_target t [c]) in
                let* p := require (advance 1 p) in
                unescape_loop fuel' p t
            end
        else
          let* t := require (write_target t [uchar (peek p)]) in
          let* p := require (advance 1 p) in
          unescape_loop fuel' p t
    end.

Definition lex_scan_string : L unit :=
  upd_lex (lex_with_string None) ;;;
  set_token TOKEN_INVALID ;;;
  let* fuel := lex_fuel in
  let* c := lex_get_save in
  let* ok := scan_string_loop fuel c in
  if negb ok then lex_free_string
  else
    let* x := get_lex in
    let size := size_t (sb_length (lx_saved x) + 1) in
    let* m := in_alloc (jsonp_malloc size) in
    if m then
      let* v := lift_res (strbuffer_value (lx_saved x)) in
      let* text := require v in
      let* p := require (advance 1 text) in
      let* r := unescape_loop (length text) p (mem_alloc (Z.to_nat size), 0%nat) in
      match r with
      | None => lex_free_string
      | Some t =>
          let* t' := require (write_target t [0]) in
          let* val := require (mem_load t'.1 0 t.2) in
          upd_lex (lex_with_string (Some val)) ;;;
          set_token TOKEN_STRING
      end
    else lex_free_string.

(** [do c = lex_get_save(lex, error); while (test(c));] *)
Fixpoint get_save_while (test : Z -> bool) (fuel : nat) : L Z :=
  match fuel with
  | O => fail OutOfFuel
  | S fuel' =>
      let* c := lex_get_save in
      if test c then get_save_while test fuel' else ret c
  end.
Definition scan_while (test : Z -> bool) : L Z := let* n := lex_fuel in get_save_while test n.

Section load.
(** The decimal point of the locale. *)
Variable point : Z.

(** The integer and real tails of [lex_scan_number]; [c] is the character
    behind the integer part. *)
Definition scan_integer (c : Z) : L Z :=
  lex_unget_unsave c ;;;
  let* x := get_lex in
  let* v := lift_res (strbuffer_value (lx_saved x)) in
  let* saved_text := require v in
  let '(intval, erange, rest) := strtoll saved_text in
  if erange then
    (if intval <? 0
     then error_set true json_error_numeric_overflow (lit "too big negative integer")
     else error_set true json_error_numeric_overflow (lit "too big integer")) ;;;
    ret (-1)
  else
    assert_ (bool_decide (rest = [] /\ Z.of_nat (length saved_text) = sb_length (lx_saved x))) ;;;
    set_token TOKEN_INTEGER ;;;
    upd_lex (lex_with_integer intval) ;;;
    ret 0.

Definition finish_real (c : Z) : L Z :=
  lex_unget_unsave c ;;;
  let* x := get_lex in
  let* v := lift_res (strbuffer_value (lx_saved x)) in
  let* saved_text := require v in
  let* d := lift_res (jsonp_strtod point saved_text) in
  assert_ (Z.of_nat (length saved_text) =? sb_length (lx_saved x)) ;;;
  match d with
  | None =>
      error_set true json_error_numeric_overflow (lit "real number overflow") ;;;
      ret (-1)
  | Some doubleval =>
      set_token TOKEN_REAL ;;;
      upd_lex (lex_with_real doubleval) ;;;
      ret 0
  end.

Definition scan_exponent_part (c : Z) : L Z :=
  if (c =? chr "E") || (c =? chr "e") then
    let* c := lex_get_save in
    let* c := (if (c =? chr "+") || (c =? chr "-") then lex_get_save else ret c) in
    if negb (l_isdigit c) then lex_unget_unsave c ;;; ret (-1)
    else let* c := scan_while l_isdigit in finish_real c
  else finish_real c.

Definition scan_real (c : Z) : L Z :=
  if c =? chr "." then
    let* c := lex_get in
    if negb (l_isdigit c) then lex_unget c ;;; ret (-1)
    else
      lex_save c ;;;
      let* c := scan_while l_isdigit in
      scan_exponent_part c
  else scan_exponent_part c.

Definition scan_after_int (c : Z) : L Z :=
  let* x := get_lex in
  if negb (has_flag (lx_flags x) JSON_DECODE_INT_AS_REAL) && negb (c =? chr ".")
     && negb (c =? chr "E") && negb (c =? chr "e")
  then scan_integer c
  else scan_real c.

Definition lex_scan_number (c : Z) : L Z :=
  set_token TOKEN_INVALID ;;;
  let* c := (if c =? chr "-" then lex_get_save else ret c) in
  if c =? chr "0" then
    let* c := lex_get_save in
    if l_isdigit c then lex_unget_unsave c ;;; ret (-1) else scan_after_int c
  else if l_isdigit c then
    let* c := scan_while l_isdigit in scan_after_int c
  else lex_unget_unsave c ;;; ret (-1).

Definition is_space (c : Z) : bool :=
  (c =? chr " ") || (c =? 9) || (c =? 10) || (c =? 13).
Fixpoint skip_space (fuel : nat) : L Z :=
  match fuel with
  | O => fail OutOfFuel
  | S fuel' => let* c := lex_get in if is_space c then skip_space fuel' else ret c
  end.

Definition is_punct (c : Z) : bool :=
  existsb (Z.eqb c) [chr "{"; chr "}"; chr "["; chr "]"; chr ":"; chr ","].

Definition lex_scan_identifier : L unit :=
  let* c := scan_while l_isalpha in
  lex_unget_unsave c ;;;
  let* x := get_lex in
  let* v := lift_res (strbuffer_value (lx_saved x)) in
  let* saved_text := require v in
  set_token (if strcmp saved_text (lit "true") =? 0 then TOKEN_TRUE
             else if strcmp saved_text (lit "false") =? 0 then TOKEN_FALSE
             else if strcmp saved_text (lit "null") =? 0 then TOKEN_NULL
             else TOKEN_INVALID).

Definition lex_scan : L Z :=
  let* x := get_lex in
  let* sb := in_alloc (strbuffer_clear (lx_saved x)) in
  upd_lex (lex_with_saved sb) ;;;
  (if lx_token x =? TOKEN_STRING then lex_free_string else ret tt) ;;;
  let* n := lex_fuel in
  let* c := skip_space n in
  (if c =? STREAM_STATE_EOF then set_token TOKEN_EOF
   else if c =? STREAM_STATE_ERROR then set_token TOKEN_INVALID
   else
     lex_save c ;;;
     if is_punct c then set_token c
     else if c =? chr "034" then lex_scan_string
     else if l_isdigit c || (c =? chr "-") then let* _ := lex_scan_number c in ret tt
     else if l_isalpha c then lex_scan_identifier
     else lex_save_cached 6 ;;; set_token TOKEN_INVALID) ;;;
  get_token.

Definition lex_steal_string : L (option bytes) :=
  let* x := get_lex in
  if lx_token x =? TOKEN_STRING then
    upd_lex (lex_with_string None) ;;;
    ret (lx_string x)
  else ret None.

(** [lex_init]: [None] for -1.  Fields the code leaves unset until they are
    written have an arbitrary value. *)
Definition lex_init (input : list (option Z)) (flags : Z) : W (option lex_t) :=
  let* (r, sb) := run_am strbuffer_init in
  if negb (r =? 0) then ret None
  else ret (Some {| lx_stream := stream_init input; lx_saved := sb; lx_flags := flags;
                    lx_depth := 0; lx_token := TOKEN_INVALID; lx_string := None;
                    lx_integer := 0; lx_real := S754_zero false |}).

Definition lex_close : L unit :=
  let* x := get_lex in
  (if lx_token x =? TOKEN_STRING then lex_free_string else ret tt) ;;;
  upd_lex (lex_with_saved (strbuffer_close (lx_saved x))).

(* ------------------------------------------------------------------ *)
(** ** The parser *)

(** The label [error] of [parse_object] and [parse_array]. *)
Definition parse_error (json : json_ptr) : L json_ptr :=
  in_world (json_decref json) ;;; ret None.

Section parser.
Variable parse_value : L json_ptr.
Variable flags : Z.

(** [parse_object] from the token behind '{' or ',' on *)
Fixpoint parse_object_loop (fuel : nat) (object : json_ptr) : L json_ptr :=
  match fuel with
  | O => fail OutOfFuel
  | S fuel' =>
      let* token := get_token in
      if negb (token =? TOKEN_STRING) then
        error_set true json_error_invalid_syntax (lit "string or '}' expected") ;;;
        parse_error object
      else
        let* k := lex_steal_string in
        match k with
        | None => ret None
        | Some key =>
            if has_nul key then
              error_set true json_error_null_byte_in_key
                (lit "NUL byte in object key not supported") ;;;
              parse_error object
            else
              let* dup := (if has_flag flags JSON_REJECT_DUPLICATES
                           then in_world (json_object_get object (Some key)) else ret None) in
              match dup with
              | Some _ =>
                  error_set true json_error_duplicate_key (lit "duplicate object key") ;;;
                  parse_error object
              | None =>
                  let* token := lex_scan in
                  if negb (token =? chr ":") then
                    error_set true json_error_invalid_syntax (lit "':' expected") ;;;
                    parse_error object
                  else
                    let* _ := lex_scan in
                    let* value := parse_value in
                    match value with
                    | None => parse_error object
                    | Some _ =>
                        let* r := in_world (json_object_set_new_nocheck object (Some key) value) in
                        if negb (r =? 0) then parse_error object
                        else
                          let* token := lex_scan in
                          if token =? chr "," then
                            let* _ := lex_scan in parse_object_loop fuel' object
                          else if negb (token =? chr "}") then
                            error_set true json_error_invalid_syntax (lit "'}' expected") ;;;
                            parse_error object
                          else ret object
                    end
              end
        end
  end.

Definition parse_object : L json_ptr :=
  let* object := in_world json_object in
  match object with
  | None => ret None
  | Some _ =>
      let* token := lex_scan in
      if token =? chr "}" then ret object
      else let* n := lex_fuel in parse_object_loop n object
  end.

(** [parse_array]: [while (lex->token) ...] and the check behind it *)
Definition array_end (array : json_ptr) : L json_ptr :=
  let* token := get_token in
  if negb (token =? chr "]") then
    error_set true json_error_invalid_syntax (lit "']' expected") ;;;
    parse_error array
  else ret array.

Fixpoint parse_array_loop (fuel : nat) (array : json_ptr) : L json_ptr :=
  match fuel with
  | O => fail OutOfFuel
  | S fuel' =>
      let* token := get_token in
      if token =? 0 then array_end array
      else
        let* elem := parse_value in
        match elem with
        | None => parse_error array
        | Some _ =>
            let* r := in_world (json_array_append_new array elem) in
            if negb (r =? 0) then parse_error array
            else
              let* token := lex_scan in
              if token =? chr "," then let* _ := lex_scan in parse_array_loop fuel' array
              else array_end array
        end
  end.

Definition parse_array : L json_ptr :=
  let* array := in_world json_array in
  match array with
  | None => ret None
  | Some _ =>
      let* token := lex_scan in
      if token =? chr "]" then ret array
      else let* n := lex_fuel in parse_array_loop n array
  end.

(** [parse_value] behind the depth check *)
Definition parse_token : L json_ptr :=
  let unexpected msg := error_set true json_error_invalid_syntax msg ;;; ret None in
  let* x := get_lex in
  let token := lx_token x in
  let* json :=
    (if token =? TOKEN_STRING then
       let* value := require (lx_string x) in
       if negb (has_flag flags JSON_ALLOW_NUL) && has_nul value then
         error_set true json_error_null_character
           (lit "\u0000 is not allowed without JSON_ALLOW_NUL") ;;;
         ret None
       else
         let* json := in_world (jsonp_stringn_nocheck_own (Some value)) in
         upd_lex (lex_with_string None) ;;;
         ret json
     else if token =? TOKEN_INTEGER then in_world (json_integer (lx_integer x))
     else if token =? TOKEN_REAL then in_world (json_real (lx_real x))
     else if token =? TOKEN_TRUE then ret json_true
     else if token =? TOKEN_FALSE then ret json_false
     else if token =? TOKEN_NULL then ret json_null
     else if token =? chr "{" then parse_object
     else if token =? chr "[" then parse_array
     else if token =? TOKEN_INVALID then unexpected (lit "invalid token")
     else unexpected (lit "unexpected token")) in
  match json with
  | None => ret None
  | Some _ =>
      let* x := get_lex in
      upd_lex (lex_with_depth (size_t (lx_depth x - 1))) ;;;
      ret json
  end.
End parser.

(** The depth check bounds the recursion. *)
Fixpoint parse_value (fuel : nat) (flags : Z) : L json_ptr :=
  match fuel with
  | O => fail OutOfFuel
  | S fuel' =>
      let* x := get_lex in
      let depth := size_t (lx_depth x + 1) in
      upd_lex (lex_with_depth depth) ;;;
      if JSON_PARSER_MAX_DEPTH <? depth then
        error_set true json_error_stack_overflow (lit "maximum parsing depth reached") ;;;
        ret None
      else parse_token (parse_value fuel' flags) flags
  end.

Definition PARSE_FUEL : nat := Z.to_nat (JSON_PARSER_MAX_DEPTH + 1).

Definition parse_json (flags : Z) : L json_ptr :=
  upd_lex (lex_with_depth 0) ;;;
  let* token := lex_scan in
  if negb (has_flag flags JSON_DECODE_ANY) && negb (token =? chr "[") && negb (token =? chr "{") then
    error_set true json_error_invalid_syntax (lit "'[' or '{' expected") ;;;
    ret None
  else
    let* result := parse_value PARSE_FUEL flags in
    match result with
    | None => ret None
    | Some _ =>
        let* ok :=
          (if negb (has_flag flags JSON_DISABLE_EOF_CHECK) then
             let* token := lex_scan in
             if negb (token =? TOKEN_EOF) then
               error_set true json_error_end_of_input_expected (lit "end of file expected") ;;;
               in_world (json_decref result) ;;;
               ret false
             else ret true
           else ret true) in
        if negb ok then ret None
        else
          let* x := get_lex in
          modify (fun s => put_error (match l_error s with
            | None => None
            | Some e => Some {| e_line := e_line e; e_column := e_column e;
                                e_position := int32 (s_position (lx_stream x));
                                e_source := e_source e; e_text := e_text e; e_code := e_code e |}
            end) s) ;;;
          ret result
    end.

(* ------------------------------------------------------------------ *)
(** ** The entry points *)

(** [lex_init], [parse_json] and [lex_close] on a source. *)
Definition load_source (input : list (option Z)) (flags : Z) (error : json_error_ptr)
    : W (json_ptr * json_error_ptr) :=
  let* x := lex_init input flags in
  match x with
  | None => ret (None, error)
  | Some lex => fun w =>
      match (let* result := parse_json flags in lex_close ;;; ret result)
              {| l_lex := lex; l_error := error; l_world := w |} with
      | inl e => inl e
      | inr (result, s) => inr ((result, l_error s), l_world s)
      end
  end.

(** The report for wrong arguments, [error_set(error, NULL, ...)]. *)
Definition error_set_nolex (error : json_error_ptr) (code : json_error_code) (msg : bytes)
    : json_error_ptr :=
  jsonp_error_set error (-1) (-1) 0 code (snprintf JSON_ERROR_TEXT_LENGTH msg).

(** What [n] successive calls of a [get] function return. *)
Fixpoint drain {S} (get : S -> option Z * S) (n : nat) (s : S) : list (option Z) :=
  match n with
  | O => []
  | S n' => let '(c, s') := get s in c :: drain get n' s'
  end.

Record string_data_t := { sd_data : bytes; sd_pos : nat }.
Definition string_get (stream : string_data_t) : option Z * string_data_t :=
  let c := nth (sd_pos stream) (sd_data stream) 0 in
  if c =? 0 then (None, stream)
  else (Some (uchar c), {| sd_data := sd_data stream; sd_pos := S (sd_pos stream) |}).

(** [string]: the C string, up to its NUL *)
Definition json_loads (string : option bytes) (flags : Z) (error : json_error_ptr)
    : W (json_ptr * json_error_ptr) :=
  let error := jsonp_error_init error (Some (lit "<string>")) in
  match string with
  | None => ret (None, error_set_nolex error json_error_invalid_argument (lit "wrong arguments"))
  | Some s =>
      load_source (drain string_get (length s) {| sd_data := s; sd_pos := 0 |}) flags error
  end.

Record buffer_data_t := { bd_data : bytes; bd_len : Z; bd_pos : Z }.
Definition buffer_get (stream : buffer_data_t) : option Z * buffer_data_t :=
  if bd_len stream <=? bd_pos stream then (None, stream)
  else
    (Some (uchar (nth (Z.to_nat (bd_pos stream)) (bd_data stream) 0)),
     {| bd_data := bd_data stream; bd_len := bd_len stream; bd_pos := size_t (bd_pos stream + 1) |}).

(** [json_loadb(buffer, buflen)]: [buffer] has at least [buflen] bytes *)
Definition json_loadb (buffer : option bytes) (buflen : Z) (flags : Z) (error : json_error_ptr)
    : W (json_ptr * json_error_ptr) :=
  let error := jsonp_error_init error (Some (lit "<buffer>")) in
  match buffer with
  | None => ret (None, error_set_nolex error json_error_invalid_argument (lit "wrong arguments"))
  | Some b =>
      load_source (drain buffer_get (Z.to_nat buflen)
                         {| bd_data := b; bd_len := buflen; bd_pos := 0 |}) flags error
  end.

(** [json_loadf]: [input] is what [fgetc] returns on the stream *)
Definition json_loadf (is_stdin : bool) (input : option (list (option Z))) (flags : Z)
    (error : json_error_ptr) : W (json_ptr * json_error_ptr) :=
  let source := if is_stdin then lit "<stdin>" else lit "<stream>" in
  let error := jsonp_error_init error (Some source) in
  match input with
  | None => ret (None, error_set_nolex error json_error_invalid_argument (lit "wrong arguments"))
  | Some fgetc => load_source fgetc flags error
  end.

(** [fd_get_func]: a [read] of one byte returned that byte, or not 1 *)
Definition fd_get_func (reads : list (option Z)) : option Z * list (option Z) :=
  match reads with
  | Some c :: r => (Some (uchar c), r)
  | None :: r => (None, r)
  | [] => (None, [])
  end.

Definition json_loadfd (input : Z) (reads : list (option Z)) (flags : Z) (error : json_error_ptr)
    : W (json_ptr * json_error_ptr) :=
  let source := if input =? 0 then lit "<stdin>" else lit "<stream>" in
  let error := jsonp_error_init error (Some source) in
  if input <? 0 then
    ret (None, error_set_nolex error json_error_invalid_argument (lit "wrong arguments"))
  else load_source (drain fd_get_func (length reads) reads) flags error.

(** [json_load_file]: [file] is what [fgetc] returns on the opened file, or the
    [strerror] text of the failed [fopen] *)
Definition json_load_file (path : option bytes) (file : bytes + list (option Z)) (flags : Z)
    (error : json_error_ptr) : W (json_ptr * json_error_ptr) :=
  let error := jsonp_error_init error path in
  match path with
  | None => ret (None, error_set_nolex error json_error_invalid_argument (lit "wrong arguments"))
  | Some p =>
      match file with
      | inl strerror =>
          ret (None, error_set_nolex error json_error_cannot_open_file
                       (lit "unable to open " ++ p ++ lit ": " ++ strerror))
      | inr fgetc => json_loadf false (Some fgetc) flags error
      end
  end.

Definition MAX_BUF_LEN : Z := 1024.

(** [cd_calls]: what the coming calls of the callback store and return. *)
Record callback_data_t :=
  { cd_data : bytes; cd_len : Z; cd_pos : Z; cd_calls : list (bytes * Z) }.

Definition callback_get (stream : callback_data_t) : option Z * callback_data_t :=
  let stream' :=
    if cd_len stream <=? cd_pos stream then
      match cd_calls stream with
      | (stored, len) :: calls =>
          {| cd_data := stored ++ drop (length stored) (cd_data stream); cd_len := size_t len;
             cd_pos := 0; cd_calls := calls |}
      | [] => {| cd_data := cd_data stream; cd_len := 0; cd_pos := 0; cd_calls := [] |}
      end
    else stream in
  if (cd_len stream <=? cd_pos stream)
     && ((cd_len stream' =? 0) || (cd_len stream' =? SIZE_MAX)) then (None, stream')
  else
    (Some (uchar (nth (Z.to_nat (cd_pos stream')) (cd_data stream') 0)),
     {| cd_data := cd_data stream'; cd_len := cd_len stream';
        cd_pos := size_t (cd_pos stream' + 1); cd_calls := cd_calls stream' |}).

(** Calls of [callback_get] until every chunk is used up; behind an EOF the
    stream reads at most three more bytes. *)
Definition callback_steps (calls : list (bytes * Z)) : nat :=
  fold_right (fun c n => (Z.to_nat (Z.min (Z.max 0 (snd c)) MAX_BUF_LEN) + 4 + n)%nat) 4%nat calls.

Definition json_load_callback (callback : option (list (bytes * Z))) (flags : Z)
    (error : json_error_ptr) : W (json_ptr * json_error_ptr) :=
  let error := jsonp_error_init error (Some (lit "<callback>")) in
  match callback with
  | None => ret (None, error_set_nolex error json_error_invalid_argument (lit "wrong arguments"))
  | Some calls =>
      let stream_data := {| cd_data := replicate (Z.to_nat MAX_BUF_LEN) 0; cd_len := 0;
                            cd_pos := 0; cd_calls := calls |} in
      load_source (drain callback_get (callback_steps calls) stream_data) flags error
  end.
End load.
