(* ===== verification/Dump.v ===== *)
(** * The encoder (jansson/src/dump.c): the code

    [do_dump] writes through a callback; [dump] is that callback and [D] its
    [data].  The sinks of dump.c (string buffer, fixed buffer, file, file
    descriptor) are its instances. *)

From Stdlib Require Import SpecFloat.
From S2P Require Import Prelude Utf8 Strbuffer Hashtable Value Strconv Load.

(* ------------------------------------------------------------------ *)
(** ** Flags and formats *)

Definition JSON_COMPACT : Z := 0x20.
Definition JSON_ENSURE_ASCII : Z := 0x40.
Definition JSON_SORT_KEYS : Z := 0x80.
Definition JSON_ENCODE_ANY : Z := 0x200.
Definition JSON_ESCAPE_SLASH : Z := 0x400.
Definition JSON_EMBED : Z := 0x10000.

Definition MAX_INTEGER_STR_LENGTH : Z := 100.
Definition MAX_REAL_STR_LENGTH : Z := 100.

Definition FLAGS_TO_INDENT (f : Z) : Z := Z.land f 0x1F.
Definition FLAGS_TO_PRECISION (f : Z) : Z := Z.land (Z.shiftr f 11) 0x1F.

(** [flags & ~JSON_EMBED] *)
Definition clear_embed (flags : Z) : Z := Z.ldiff flags JSON_EMBED.

(** ["%lld"] *)
Definition printf_d (z : Z) : bytes := sign_chars (z <? 0) ++ dec_chars (digits 10 (Z.abs z)).

(* ------------------------------------------------------------------ *)
(** ** The sinks *)

(** A [json_dump_callback_t] with its [data]. *)
Definition callback (D : Type) : Type := bytes -> D -> W (Z * D).

Definition dump_to_strbuffer : callback strbuffer_t := fun buffer data =>
  run_am (strbuffer_append_bytes data buffer).

Record buffer := { buf_size : Z; buf_used : Z; buf_data : memblock Z }.
Definition dump_to_buffer : callback buffer := fun bs buf =>
  let size := Z.of_nat (length bs) in
  let* data :=
    (if size_t (buf_used buf + size) <=? buf_size buf
     then require (mem_store (buf_data buf) (Z.to_nat (buf_used buf)) bs)
     else ret (buf_data buf)) in
  ret (0, {| buf_size := buf_size buf; buf_used := size_t (buf_used buf + size);
             buf_data := data |}).

(** A [FILE] or descriptor: what arrived, and whether the coming writes
    succeed (all do when the list is empty). *)
Record file := { f_out : bytes; f_results : list bool }.
Definition file_write (bs : bytes) (f : file) : Z * file :=
  match f_results f with
  | false :: rs => (-1, {| f_out := f_out f; f_results := rs |})
  | true :: rs => (0, {| f_out := f_out f ++ bs; f_results := rs |})
  | [] => (0, {| f_out := f_out f ++ bs; f_results := [] |})
  end.
Definition dump_to_file : callback file := fun bs f => ret (file_write bs f).
Definition dump_to_fd : callback file := fun bs f => ret (file_write bs f).

(* ------------------------------------------------------------------ *)
(** ** Encoding *)

Record dstate (D : Type) := { d_world : world; d_data : D }.
Arguments d_world {D}.
Arguments d_data {D}.
Arguments Build_dstate {D}.

Definition DM (D A : Type) : Type := ST (dstate D) A.

Section dump.
Context {D : Type} (dump : callback D) (point : Z).

Definition on_world {A} (m : W A) : DM D A :=
  zoom d_world (fun w s => {| d_world := w; d_data := d_data s |}) m.

(** [dump(bs, size, data)] *)
Definition emit (bs : bytes) : DM D Z := fun s =>
  match dump bs (d_data s) (d_world s) with
  | inl e => inl e
  | inr ((r, d), w) => inr (r, {| d_world := w; d_data := d |})
  end.

(** [if (m) return -1; k] *)
Definition or_fail {A} (fail_value : A) (m : DM D Z) (k : DM D A) : DM D A :=
  let* r := m in if negb (r =? 0) then ret fail_value else k.

Definition whitespace_len : Z := 32.
Fixpoint emit_spaces (fuel : nat) (n_spaces : Z) : DM D Z :=
  if 0 <? n_spaces then
    match fuel with
    | O => fail OutOfFuel
    | S fuel' =>
        let cur_n := if n_spaces <? whitespace_len then n_spaces else whitespace_len in
        or_fail (-1) (emit (replicate (Z.to_nat cur_n) (chr " ")))
          (emit_spaces fuel' (n_spaces - cur_n))
    end
  else ret 0.

Definition dump_indent (flags depth : Z) (space : bool) : DM D Z :=
  if 0 <? FLAGS_TO_INDENT flags then
    let n_spaces := uint32 (depth * FLAGS_TO_INDENT flags) in
    or_fail (-1) (emit [chr "010"])
      (emit_spaces (S (Z.to_nat (n_spaces / whitespace_len))) n_spaces)
  else if space && negb (has_flag flags JSON_COMPACT) then emit (lit " ")
  else ret 0.

(** The characters the inner loop of [dump_string] stops at. *)
Definition needs_escape (flags codepoint : Z) : bool :=
  (codepoint =? chr "\") || (codepoint =? chr "034") || (codepoint <? 0x20)
  || (has_flag flags JSON_ESCAPE_SLASH && (codepoint =? chr "/"))
  || (has_flag flags JSON_ENSURE_ASCII && (0x7F <? codepoint)).

(** The escape sequence of a code point. *)
Definition escape_text (codepoint : Z) : bytes :=
  if codepoint =? chr "\" then lit "\\"
  else if codepoint =? chr "034" then [chr "\"; chr "034"]
  else if codepoint =? 8 then lit "\b"
  else if codepoint =? 12 then lit "\f"
  else if codepoint =? 10 then lit "\n"
  else if codepoint =? 13 then lit "\r"
  else if codepoint =? 9 then lit "\t"
  else if codepoint =? chr "/" then lit "\/"
  else if codepoint <? 0x10000 then lit "\u" ++ fmt_04X codepoint
  else
    let codepoint := codepoint - 0x10000 in
    let first := Z.lor 0xD800 (Z.shiftr (Z.land codepoint 0xffc00) 10) in
    let last := Z.lor 0xDC00 (Z.land codepoint 0x003ff) in
    lit "\u" ++ fmt_04X first ++ lit "\u" ++ fmt_04X last.

(** The inner loop: [pos] is the text from [pos] to [lim], [run] the bytes
    between [str] and [pos] (reversed).  The result is the bytes to write, and
    the code point to escape with the text behind it, if the loop broke;
    [None] when the text is not UTF-8. *)
Fixpoint plain_run (fuel : nat) (flags : Z) (run pos : bytes)
    : res (option (bytes * option (Z * bytes))) :=
  match pos with
  | [] => inr (Some (rev run, None))
  | _ =>
      match fuel with
      | O => inl OutOfFuel
      | S fuel' =>
          match utf8_iterate pos with
          | None => inr None
          | Some (_, None) => inl UndefinedBehaviour     (* not for a non-empty text *)
          | Some (end_, Some codepoint) =>
              if needs_escape flags codepoint then inr (Some (rev run, Some (codepoint, end_)))
              else plain_run fuel' flags
                     (rev (take (length pos - length end_) pos) ++ run) end_
          end
      end
  end.

Fixpoint dump_string_loop (fuel : nat) (flags : Z) (str : bytes) : DM D Z :=
  match fuel with
  | O => fail OutOfFuel
  | S fuel' =>
      let* r := lift_res (plain_run (length str) flags [] str) in
      match r with
      | None => ret (-1)
      | Some (run, stop) =>
          or_fail (-1) (match run with [] => ret 0 | _ => emit run end)
            (match stop with
             | None => emit [chr "034"]
             | Some (codepoint, end_) =>
                 or_fail (-1) (emit (escape_text codepoint)) (dump_string_loop fuel' flags end_)
             end)
      end
  end.
Definition dump_string (str : bytes) (flags : Z) : DM D Z :=
  or_fail (-1) (emit [chr "034"]) (dump_string_loop (S (length str)) flags str).

(** [qsort(keys, size, sizeof(char * ), compare_keys)] *)
Definition compare_keys (k1 k2 : bytes) : bool := strcmp k1 k2 <=? 0.
Fixpoint insert_key (k : bytes) (ks : list bytes) : list bytes :=
  match ks with
  | [] => [k]
  | k' :: ks' => if compare_keys k k' then k :: ks else k' :: insert_key k ks'
  end.
Fixpoint sort_keys (ks : list bytes) : list bytes :=
  match ks with
  | [] => []
  | k :: ks' => insert_key k (sort_keys ks')
  end.

Definition separator (flags : Z) : bytes :=
  if has_flag flags JSON_COMPACT then lit ":" else lit ": ".

(** What follows an element: a separator, or the indentation of the end. *)
Definition dump_between (flags depth : Z) (more : bool) : DM D Z :=
  if more then or_fail (-1) (emit (lit ",")) (dump_indent flags (depth + 1) true)
  else dump_indent flags depth false.

(** The end of a container: [hashtable_del] and the closing bracket. *)
Definition dump_close (embed : bool) (bracket : bytes) (parents : hashtable_t) (key : bytes)
    : DM D (Z * hashtable_t) :=
  let* parents := on_world (parents_del parents key) in
  let* r := (if embed then ret 0 else emit bracket) in
  ret (r, parents).

Definition dump_open (embed : bool) (bracket : bytes) : DM D Z :=
  if embed then ret 0 else emit bracket.

Section containers.
(** [do_dump] of a component *)
Variable do_dump : json_ptr -> Z -> hashtable_t -> DM D (Z * hashtable_t).
Variable flags : Z.

Fixpoint dump_elements (count : nat) (array : loc) (n i depth : Z) (parents : hashtable_t)
    : DM D (Z * hashtable_t) :=
  match count with
  | O => ret (0, parents)
  | S count' =>
      let* v := on_world (json_array_get (Some array) i) in
      let* (r, parents) := do_dump v (depth + 1) parents in
      if negb (r =? 0) then ret (-1, parents)
      else
        or_fail (-1, parents) (dump_between flags depth (i <? n - 1))
          (dump_elements count' array n (i + 1) depth parents)
  end.

Definition dump_array (embed : bool) (array : loc) (depth : Z) (parents : hashtable_t)
    : DM D (Z * hashtable_t) :=
  let* (r, key, parents) := on_world (jsonp_loop_check parents array LOOP_KEY_LEN) in
  if negb (r =? 0) then ret (-1, parents)
  else
    let* n := on_world (json_array_size (Some array)) in
    or_fail (-1, parents) (dump_open embed (lit "["))
      (if n =? 0 then dump_close embed (lit "]") parents key
       else
         or_fail (-1, parents) (dump_indent flags (depth + 1) false)
           (let* (r, parents) := dump_elements (Z.to_nat n) array n 0 depth parents in
            if negb (r =? 0) then ret (-1, parents)
            else dump_close embed (lit "]") parents key)).

(** A key, the separator and the value; the result of writing the key is
    ignored. *)
Definition dump_member (key : bytes) (value : json_ptr) (depth : Z) (parents : hashtable_t)
    : DM D (Z * hashtable_t) :=
  let* _ := dump_string key flags in
  or_fail (-1, parents) (emit (separator flags))
    (let* (r, parents) := do_dump value (depth + 1) parents in
     ret (if negb (r =? 0) then -1 else 0, parents)).

(** The keys in iteration order, [keys[i] = json_object_iter_key(iter)]. *)
Fixpoint collect_keys (fuel : nat) (object : loc) (iter : option positive) : W (list bytes) :=
  match iter with
  | None => ret []
  | Some _ =>
      match fuel with
      | O => fail OutOfFuel
      | S fuel' =>
          let* key := json_object_iter_key object iter in
          let* k := require key in
          let* iter' := json_object_iter_next (Some object) iter in
          let* ks := collect_keys fuel' object iter' in
          ret (k :: ks)
      end
  end.

Fixpoint dump_sorted (keys : list bytes) (object : loc) (depth : Z) (parents : hashtable_t)
    : DM D (Z * hashtable_t) :=
  match keys with
  | [] => ret (0, parents)
  | key :: keys' =>
      let* value := on_world (json_object_get (Some object) (Some key)) in
      assert_ (bool_decide (is_Some value)) ;;;
      let* (r, parents) := dump_member key value depth parents in
      if negb (r =? 0) then ret (-1, parents)
      else
        or_fail (-1, parents)
          (dump_between flags depth (match keys' with [] => false | _ => true end))
          (dump_sorted keys' object depth parents)
  end.

Fixpoint dump_unsorted (fuel : nat) (object : loc) (iter : option positive) (depth : Z)
    (parents : hashtable_t) : DM D (Z * hashtable_t) :=
  match iter with
  | None => ret (0, parents)
  | Some _ =>
      match fuel with
      | O => fail OutOfFuel
      | S fuel' =>
          let* next := on_world (json_object_iter_next (Some object) iter) in
          let* key := on_world (json_object_iter_key object iter) in
          let* k := require key in
          let* value := on_world (json_object_iter_value object iter) in
          let* (r, parents) := dump_member k value depth parents in
          if negb (r =? 0) then ret (-1, parents)
          else
            or_fail (-1, parents) (dump_between flags depth (bool_decide (is_Some next)))
              (dump_unsorted fuel' object next depth parents)
      end
  end.

Definition dump_members (object : loc) (iter : option positive) (depth : Z)
    (parents : hashtable_t) : DM D (Z * hashtable_t) :=
  let* h := on_world (gets w_heap) in
  if has_flag flags JSON_SORT_KEYS then
    let* size := on_world (json_object_size (Some object)) in
    let* ok := on_world (run_am (jsonp_malloc (size_t (size * SIZEOF_PTR)))) in
    if ok then
      let* keys := on_world (collect_keys (foreach_fuel h) object iter) in
      assert_ (Z.of_nat (length keys) =? size) ;;;
      dump_sorted (sort_keys keys) object depth parents
    else ret (-1, parents)
  else dump_unsorted (foreach_fuel h) object iter depth parents.

Definition dump_object (embed : bool) (object : loc) (depth : Z) (parents : hashtable_t)
    : DM D (Z * hashtable_t) :=
  let* (r, loop_key, parents) := on_world (jsonp_loop_check parents object LOOP_KEY_LEN) in
  if negb (r =? 0) then ret (-1, parents)
  else
    let* iter := on_world (json_object_iter (Some object)) in
    or_fail (-1, parents) (dump_open embed (lit "{"))
      (match iter with
       | None => dump_close embed (lit "}") parents loop_key
       | Some _ =>
           or_fail (-1, parents) (dump_indent flags (depth + 1) false)
             (let* (r, parents) := dump_members object iter depth parents in
              if negb (r =? 0) then ret (-1, parents)
              else dump_close embed (lit "}") parents loop_key)
       end).
End containers.

Definition dump_integer (z : Z) : DM D Z :=
  let text := printf_d z in
  if MAX_INTEGER_STR_LENGTH <=? Z.of_nat (length text) then ret (-1) else emit text.

Definition dump_real (value : double) (flags : Z) : DM D Z :=
  match jsonp_dtostr point MAX_REAL_STR_LENGTH value (FLAGS_TO_PRECISION flags) with
  | None => ret (-1)
  | Some text => emit text
  end.

(** The loop check bounds the depth by the number of containers. *)
Fixpoint do_dump (fuel : nat) (flags : Z) (json : json_ptr) (depth : Z) (parents : hashtable_t)
    : DM D (Z * hashtable_t) :=
  match fuel with
  | O => fail OutOfFuel
  | S fuel' =>
      let embed := has_flag flags JSON_EMBED in
      let flags := clear_embed flags in
      let leaf m := let* r := m in ret (r, parents) in
      match json with
      | None => ret (-1, parents)
      | Some l =>
          let* n := on_world (deref l) in
          match n_body n with
          | Null_ => leaf (emit (lit "null"))
          | True_ => leaf (emit (lit "true"))
          | False_ => leaf (emit (lit "false"))
          | Integer z => leaf (dump_integer z)
          | Real d => leaf (dump_real d flags)
          | Str s => leaf (dump_string s flags)
          | Array _ => dump_array (do_dump fuel' flags) flags embed l depth parents
          | Object _ => dump_object (do_dump fuel' flags) flags embed l depth parents
          end
      end
  end.

Definition json_dump_callback (json : json_ptr) (flags : Z) : DM D Z :=
  let* isarr := on_world (json_is JSON_ARRAY json) in
  let* isobj := on_world (json_is JSON_OBJECT json) in
  if negb (has_flag flags JSON_ENCODE_ANY) && negb isarr && negb isobj then ret (-1)
  else
    let* p := on_world (run_am hashtable_init) in
    match p with
    | None => ret (-1)
    | Some parents_set =>
        let* h := on_world (gets w_heap) in
        let* (res, parents_set) := do_dump (S (S (size h))) flags json 0 parents_set in
        on_world (parents_close parents_set) ;;;
        ret res
    end.
End dump.

(* ------------------------------------------------------------------ *)
(** ** The entry points *)

(** Run an encoding on a world and a sink. *)
Definition run_dump {D A} (m : DM D A) (d : D) : W (A * D) := fun w =>
  match m {| d_world := w; d_data := d |} with
  | inl e => inl e
  | inr (a, s) => inr ((a, d_data s), d_world s)
  end.

Section entry_points.
Variable point : Z.

(** [json_dumps]: the malloc'ed C string, or [None] for NULL *)
Definition json_dumps (json : json_ptr) (flags : Z) : W (option bytes) :=
  let* (r, strbuff) := run_am strbuffer_init in
  if negb (r =? 0) then ret None
  else
    let* (r, strbuff) :=
      run_dump (json_dump_callback dump_to_strbuffer point json flags) strbuff in
    if negb (r =? 0) then ret None
    else
      let* v := lift_res (strbuffer_value strbuff) in
      let* s := require v in
      run_am (jsonp_strdup s).

(** [json_dumpb]: the number of bytes the encoding has, and the buffer *)
Definition json_dumpb (json : json_ptr) (buffer_ : memblock Z) (size flags : Z)
    : W (Z * memblock Z) :=
  let buf := {| buf_size := size; buf_used := 0; buf_data := buffer_ |} in
  let* (r, buf) := run_dump (json_dump_callback dump_to_buffer point json flags) buf in
  ret (if negb (r =? 0) then 0 else buf_used buf, buf_data buf).

Definition json_dumpf (json : json_ptr) (output : file) (flags : Z) : W (Z * file) :=
  run_dump (json_dump_callback dump_to_file point json flags) output.
Definition json_dumpfd (json : json_ptr) (output : file) (flags : Z) : W (Z * file) :=
  run_dump (json_dump_callback dump_to_fd point json flags) output.

(** [json_dump_file]: [opened] is the result of [fopen], [closed] that of
    [fclose] *)
Definition json_dump_file (json : json_ptr) (opened : option file) (closed : Z) (flags : Z)
    : W (Z * option file) :=
  match opened with
  | None => ret (-1, None)
  | Some output =>
      let* (result, output) := json_dumpf json output flags in
      ret (if negb (closed =? 0) then -1 else result, Some output)
  end.
End entry_points.
