(* ===== verification/Pack.v ===== *)
(** * Packing and unpacking (jansson/src/pack_unpack.c): the code

    The format scanner, and the interpreters that build a value from a format
    and take one apart.  The variable arguments are a list of typed arguments;
    a [va_arg] of another type than the argument's is undefined behaviour.
    What [json_unpack] stores through pointer arguments is the list
    [p_stores]. *)

From Stdlib Require Import SpecFloat.
From S2P Require Import Prelude Utf8 Strbuffer Hashtable Value Error Strconv Load Dump.

(* ------------------------------------------------------------------ *)
(** ** The data *)

Record token_t := { tk_line : Z; tk_column : Z; tk_pos : Z; tk_token : Z }.

Record scanner_t := {
  sc_fmt : bytes;              (* from [fmt] to the NUL *)
  sc_prev : token_t;
  sc_token : token_t;
  sc_next : token_t;
  sc_error : json_error_ptr;
  sc_flags : Z;
  sc_line : Z;
  sc_column : Z;
  sc_pos : Z;
  sc_has_error : bool
}.

(** Arguments.  A [char *] is the bytes it points to, of which a string is
    what precedes the first NUL; a target is named, [None] being NULL. *)
Inductive va : Type :=
| VaString (s : option bytes)
| VaInt (z : Z)
| VaSize (z : Z)
| VaInt64 (z : Z)
| VaDouble (d : double)
| VaJson (j : json_ptr)
| VaTarget (t : option positive).

(** What is stored in a target. *)
Inductive stored : Type :=
| StString (s : option bytes)
| StInt (z : Z)
| StDouble (d : double)
| StJson (j : json_ptr).

Record pstate := {
  p_scanner : scanner_t;
  p_args : list va;
  p_stores : list (positive * stored);
  p_world : world
}.
Definition P (A : Type) : Type := ST pstate A.

Definition set_scanner (s : scanner_t) (p : pstate) : pstate :=
  {| p_scanner := s; p_args := p_args p; p_stores := p_stores p; p_world := p_world p |}.
Definition p_in_world {A} (m : W A) : P A :=
  zoom p_world (fun w p => {| p_scanner := p_scanner p; p_args := p_args p;
                              p_stores := p_stores p; p_world := w |}) m.
Definition get_scanner : P scanner_t := gets p_scanner.
Definition upd_scanner (f : scanner_t -> scanner_t) : P unit :=
  modify (fun p => set_scanner (f (p_scanner p)) p).
(** [va_arg] *)
Definition next_arg : P va := fun p =>
  match p_args p with
  | a :: rest => inr (a, {| p_scanner := p_scanner p; p_args := rest; p_stores := p_stores p;
                            p_world := p_world p |})
  | [] => inl UndefinedBehaviour
  end.
Definition arg_string : P (option bytes) :=
  let* a := next_arg in match a with VaString s => ret s | _ => fail UndefinedBehaviour end.
Definition arg_int : P Z :=
  let* a := next_arg in match a with VaInt z => ret z | _ => fail UndefinedBehaviour end.
Definition arg_size : P Z :=
  let* a := next_arg in match a with VaSize z => ret z | _ => fail UndefinedBehaviour end.
Definition arg_int64 : P Z :=
  let* a := next_arg in match a with VaInt64 z => ret z | _ => fail UndefinedBehaviour end.
Definition arg_double : P double :=
  let* a := next_arg in match a with VaDouble d => ret d | _ => fail UndefinedBehaviour end.
Definition arg_json : P json_ptr :=
  let* a := next_arg in match a with VaJson j => ret j | _ => fail UndefinedBehaviour end.
Definition arg_target : P (option positive) :=
  let* a := next_arg in match a with VaTarget t => ret t | _ => fail UndefinedBehaviour end.
(** [*target = value] *)
Definition store (target : option positive) (v : stored) : P unit :=
  let* t := require target in
  modify (fun p => {| p_scanner := p_scanner p; p_args := p_args p;
                      p_stores := p_stores p ++ [(t, v)]; p_world := p_world p |}).

(* ------------------------------------------------------------------ *)
(** ** The scanner *)

Definition zero_token : token_t := {| tk_line := 0; tk_column := 0; tk_pos := 0; tk_token := 0 |}.

Definition scanner_init (error : json_error_ptr) (flags : Z) (fmt : bytes) : scanner_t :=
  {| sc_fmt := fmt; sc_prev := zero_token; sc_token := zero_token; sc_next := zero_token;
     sc_error := error; sc_flags := flags; sc_line := 1; sc_column := 0; sc_pos := 0;
     sc_has_error := false |}.

(** [*t], NUL at the end *)
Definition fmt_char (t : bytes) : Z := match t with [] => 0 | c :: _ => c end.
Definition is_ignored (c : Z) : bool := existsb (Z.eqb c) [chr " "; 9; 10; chr ","; chr ":"].

(** Skip ignored characters; the text left, line, column and position. *)
Fixpoint skip_ignored (t : bytes) (line column pos : Z) : bytes * Z * Z * Z :=
  match t with
  | c :: t' =>
      if is_ignored c then
        if c =? 10 then skip_ignored t' (line + 1) 1 (pos + 1)
        else skip_ignored t' line (column + 1) (pos + 1)
      else (t, line, column, pos)
  | [] => (t, line, column, pos)
  end.

Definition next_token (s : scanner_t) : scanner_t :=
  if negb (tk_line (sc_next s) =? 0) then
    {| sc_fmt := sc_fmt s; sc_prev := sc_token s; sc_token := sc_next s;
       sc_next := {| tk_line := 0; tk_column := tk_column (sc_next s); tk_pos := tk_pos (sc_next s);
                     tk_token := tk_token (sc_next s) |};
       sc_error := sc_error s; sc_flags := sc_flags s; sc_line := sc_line s;
       sc_column := sc_column s; sc_pos := sc_pos s; sc_has_error := sc_has_error s |}
  else if (tk_token (sc_token s) =? 0) && (fmt_char (sc_fmt s) =? 0) then
    {| sc_fmt := sc_fmt s; sc_prev := sc_token s; sc_token := sc_token s; sc_next := sc_next s;
       sc_error := sc_error s; sc_flags := sc_flags s; sc_line := sc_line s;
       sc_column := sc_column s; sc_pos := sc_pos s; sc_has_error := sc_has_error s |}
  else
    let '(t, line, column, pos) :=
      skip_ignored (sc_fmt s) (sc_line s) (sc_column s + 1) (size_t (sc_pos s + 1)) in
    {| sc_fmt := drop 1 t; sc_prev := sc_token s;
       sc_token := {| tk_line := line; tk_column := column; tk_pos := pos; tk_token := fmt_char t |};
       sc_next := sc_next s; sc_error := sc_error s; sc_flags := sc_flags s; sc_line := line;
       sc_column := column; sc_pos := pos; sc_has_error := sc_has_error s |}.

Definition prev_token (s : scanner_t) : scanner_t :=
  {| sc_fmt := sc_fmt s; sc_prev := sc_prev s; sc_token := sc_prev s; sc_next := sc_token s;
     sc_error := sc_error s; sc_flags := sc_flags s; sc_line := sc_line s;
     sc_column := sc_column s; sc_pos := sc_pos s; sc_has_error := sc_has_error s |}.

Definition p_next : P unit := upd_scanner next_token.
Definition p_prev : P unit := upd_scanner prev_token.
Definition token : P Z := gets (fun p => tk_token (sc_token (p_scanner p))).
Definition has_error : P bool := gets (fun p => sc_has_error (p_scanner p)).
Definition flag_error : P unit :=
  upd_scanner (fun s =>
    {| sc_fmt := sc_fmt s; sc_prev := sc_prev s; sc_token := sc_token s; sc_next := sc_next s;
       sc_error := sc_error s; sc_flags := sc_flags s; sc_line := sc_line s;
       sc_column := sc_column s; sc_pos := sc_pos s; sc_has_error := true |}).

Definition set_error (source : bytes) (code : json_error_code) (text : bytes) : P unit :=
  upd_scanner (fun s =>
    let t := sc_token s in
    let e := jsonp_error_vset (sc_error s) (tk_line t) (tk_column t) (tk_pos t) code text in
    {| sc_fmt := sc_fmt s; sc_prev := sc_prev s; sc_token := sc_token s; sc_next := sc_next s;
       sc_error := jsonp_error_set_source e (Some source); sc_flags := sc_flags s;
       sc_line := sc_line s; sc_column := sc_column s; sc_pos := sc_pos s;
       sc_has_error := sc_has_error s |}).
Definition fail_with (source : bytes) (code : json_error_code) (text : bytes) : P unit :=
  set_error source code text ;;; flag_error.
Definition out_of_memory : P unit :=
  fail_with (lit "<internal>") json_error_out_of_memory (lit "Out of memory").

(** Loops and recursion of the interpreters consume the format. *)
Definition pack_fuel (fmt : bytes) : nat := (2 * length fmt + 4)%nat.

(* ------------------------------------------------------------------ *)
(** ** Packing *)

(** The loop of [read_string]. *)
Fixpoint read_string_loop (fuel : nat) (purpose : bytes) (sb : strbuffer_t) : P strbuffer_t :=
  match fuel with
  | O => fail OutOfFuel
  | S fuel' =>
      let* str := arg_string in
      (match str with
       | None => fail_with (lit "<args>") json_error_null_value (lit "NULL " ++ purpose)
       | Some _ => ret tt
       end) ;;;
      p_next ;;;
      let* t := token in
      let* err := has_error in
      let* len :=
        (if t =? chr "#" then let* n := arg_int in ret (size_t n)
         else if t =? chr "%" then arg_size
         else
           p_prev ;;;
           if err then ret 0
           else let* s := require str in ret (Z.of_nat (length (until_nul s)))) in
      let* sb :=
        (if err then ret sb
         else
           let* s := require str in
           let* data := require (if decide (len <= Z.of_nat (length s))
                                 then Some (take (Z.to_nat len) s) else None) in
           let* (r, sb) := p_in_world (run_am (strbuffer_append_bytes sb data)) in
           (if r =? -1 then out_of_memory else ret tt) ;;;
           ret sb) in
      p_next ;;;
      let* t := token in
      if negb (t =? chr "+") then p_prev ;;; ret sb else read_string_loop fuel' purpose sb
  end.

(** [read_string]: the string and whether it is [ours]. *)
Definition read_string (purpose : bytes) (optional : bool) : P (option bytes * bool) :=
  p_next ;;;
  let* t := token in
  p_prev ;;;
  if negb (t =? chr "#") && negb (t =? chr "%") && negb (t =? chr "+") then
    let* str := arg_string in
    match str with
    | None =>
        (if optional then ret tt
         else fail_with (lit "<args>") json_error_null_value (lit "NULL " ++ purpose)) ;;;
        ret (None, false)
    | Some s =>
        let s := until_nul s in
        if utf8_check_string s then ret (Some s, false)
        else
          fail_with (lit "<args>") json_error_invalid_utf8 (lit "Invalid UTF-8 " ++ purpose) ;;;
          ret (None, false)
    end
  else if optional then
    fail_with (lit "<format>") json_error_invalid_format
      (lit "Cannot use '" ++ [t] ++ lit "' on optional strings") ;;;
    ret (None, false)
  else
    let* (r, sb) := p_in_world (run_am strbuffer_init) in
    (if negb (r =? 0) then out_of_memory else ret tt) ;;;
    let* s := get_scanner in
    let* sb := read_string_loop (pack_fuel (sc_fmt s)) purpose sb in
    let* err := has_error in
    if err then ret (None, false)
    else
      let* blk := require (sb_value sb) in
      let* text := require (mem_load blk 0 (Z.to_nat (sb_length sb))) in
      if utf8_check_string text then ret (Some text, true)
      else
        fail_with (lit "<args>") json_error_invalid_utf8 (lit "Invalid UTF-8 " ++ purpose) ;;;
        ret (None, false).

Definition pack_string : P json_ptr :=
  p_next ;;;
  let* t := token in
  let optional := (t =? chr "?") || (t =? chr "*") in
  (if optional then ret tt else p_prev) ;;;
  let* (str, ours) := read_string (lit "string") optional in
  let* err := has_error in
  match str with
  | None => ret (if (t =? chr "?") && negb err then json_null else None)
  | Some s =>
      if err then ret None
      else if ours then p_in_world (jsonp_stringn_nocheck_own (Some s))
      else p_in_world (json_stringn_nocheck (Some s))
  end.

Definition pack_object_inter (need_incref : bool) : P json_ptr :=
  p_next ;;;
  let* ntoken := token in
  (if negb (ntoken =? chr "?") && negb (ntoken =? chr "*") then p_prev else ret tt) ;;;
  let* json := arg_json in
  match json with
  | Some _ => if need_incref then p_in_world (json_incref json) else ret json
  | None =>
      if ntoken =? chr "?" then ret json_null
      else if ntoken =? chr "*" then ret None
      else
        fail_with (lit "<args>") json_error_null_value (lit "NULL object") ;;;
        ret None
  end.

Definition pack_integer (value : Z) : P json_ptr :=
  let* json := p_in_world (json_integer value) in
  (match json with None => out_of_memory | Some _ => ret tt end) ;;;
  ret json.

Definition pack_real (value : double) : P json_ptr :=
  let* json := p_in_world (json_real (S754_zero false)) in
  match json with
  | None => out_of_memory ;;; ret None
  | Some _ =>
      let* r := p_in_world (json_real_set json value) in
      if negb (r =? 0) then
        p_in_world (json_decref json) ;;;
        fail_with (lit "<args>") json_error_numeric_overflow (lit "Invalid floating point value") ;;;
        ret None
      else ret json
  end.

(** The character behind the current token, with [prev_token] afterwards. *)
Definition lookahead : P Z := p_next ;;; let* t := token in p_prev ;;; ret t.

Section packing.
Variable pack : P json_ptr.

(** The label [error] *)
Definition pack_error (json : json_ptr) : P json_ptr := p_in_world (json_decref json) ;;; ret None.

Fixpoint pack_object_loop (fuel : nat) (object : json_ptr) : P json_ptr :=
  match fuel with
  | O => fail OutOfFuel
  | S fuel' =>
      let* t := token in
      if t =? chr "}" then
        let* err := has_error in if err then pack_error object else ret object
      else if t =? 0 then
        set_error (lit "<format>") json_error_invalid_format
          (lit "Unexpected end of format string") ;;;
        pack_error object
      else if negb (t =? chr "s") then
        set_error (lit "<format>") json_error_invalid_format
          (lit "Expected format 's', got '" ++ [t] ++ lit "'") ;;;
        pack_error object
      else
        let* (key, _) := read_string (lit "object key") false in
        p_next ;;;
        let* valueOptional := lookahead in
        let* value := pack in
        match value with
        | None =>
            (if negb (valueOptional =? chr "*") then
               fail_with (lit "<args>") json_error_null_value (lit "NULL object value")
             else ret tt) ;;;
            p_next ;;;
            pack_object_loop fuel' object
        | Some _ =>
            let* err := has_error in
            (if err then p_in_world (json_decref value)
             else
               let* r := p_in_world (json_object_set_new_nocheck object (until_nul <$> key) value) in
               if negb (r =? 0) then
                 fail_with (lit "<internal>") json_error_out_of_memory
                   (lit "Unable to add key " ++ [34] ++ default [] key ++ [34])
               else ret tt) ;;;
            p_next ;;;
            pack_object_loop fuel' object
        end
  end.

Definition pack_object (fuel : nat) : P json_ptr :=
  let* object := p_in_world json_object in
  p_next ;;;
  pack_object_loop fuel object.

Fixpoint pack_array_loop (fuel : nat) (array : json_ptr) : P json_ptr :=
  match fuel with
  | O => fail OutOfFuel
  | S fuel' =>
      let* t := token in
      if t =? chr "]" then
        let* err := has_error in if err then pack_error array else ret array
      else if t =? 0 then
        set_error (lit "<format>") json_error_invalid_format
          (lit "Unexpected end of format string") ;;;
        pack_error array
      else
        let* valueOptional := lookahead in
        let* value := pack in
        match value with
        | None =>
            (if negb (valueOptional =? chr "*") then flag_error else ret tt) ;;;
            p_next ;;;
            pack_array_loop fuel' array
        | Some _ =>
            let* err := has_error in
            (if err then p_in_world (json_decref value)
             else
               let* r := p_in_world (json_array_append_new array value) in
               if negb (r =? 0) then
                 fail_with (lit "<internal>") json_error_out_of_memory
                   (lit "Unable to append to array")
               else ret tt) ;;;
            p_next ;;;
            pack_array_loop fuel' array
        end
  end.

Definition pack_array (fuel : nat) : P json_ptr :=
  let* array := p_in_world json_array in
  p_next ;;;
  pack_array_loop fuel array.
End packing.

Fixpoint pack (fuel : nat) : P json_ptr :=
  match fuel with
  | O => fail OutOfFuel
  | S fuel' =>
      let* t := token in
      let* s := get_scanner in
      let loops := pack_fuel (sc_fmt s) in
      if t =? chr "{" then pack_object (pack fuel') loops
      else if t =? chr "[" then pack_array (pack fuel') loops
      else if t =? chr "s" then pack_string
      else if t =? chr "n" then ret json_null
      else if t =? chr "b" then let* z := arg_int in ret (if z =? 0 then json_false else json_true)
      else if t =? chr "i" then let* z := arg_int in pack_integer z
      else if t =? chr "I" then let* z := arg_int64 in pack_integer z
      else if t =? chr "f" then let* d := arg_double in pack_real d
      else if t =? chr "O" then pack_object_inter true
      else if t =? chr "o" then pack_object_inter false
      else
        fail_with (lit "<format>") json_error_invalid_format
          (lit "Unexpected format character '" ++ [t] ++ lit "'") ;;;
        ret None
  end.

(* ------------------------------------------------------------------ *)
(** ** Unpacking *)

Definition JSON_VALIDATE_ONLY : Z := 0x1.
Definition JSON_STRICT : Z := 0x2.

Definition type_name (t : json_type) : bytes :=
  match t with
  | JSON_OBJECT => lit "object"
  | JSON_ARRAY => lit "array"
  | JSON_STRING => lit "string"
  | JSON_INTEGER => lit "integer"
  | JSON_REAL => lit "real"
  | JSON_TRUE => lit "true"
  | JSON_FALSE => lit "false"
  | JSON_NULL => lit "null"
  end.

Definition unpack_value_starters : bytes := lit "{[siIbfFOon".

Definition get_flags : P Z := gets (fun p => sc_flags (p_scanner p)).

(** [if (root && !ok(root)) { set_error(...); return -1; } k] *)
Definition expect_type (ok : json_type -> bool) (expected : bytes) (root : json_ptr) (k : P Z) : P Z :=
  match root with
  | None => k
  | Some l =>
      let* t := p_in_world (json_typeof l) in
      if ok t then k
      else
        set_error (lit "<validation>") json_error_wrong_type
          (lit "Expected " ++ expected ++ lit ", got " ++ type_name t) ;;;
        ret (-1)
  end.
Definition is_type (t t' : json_type) : bool := bool_decide (t = t').

(** [if (!(s->flags & JSON_VALIDATE_ONLY)) k] *)
Definition unless_validate (k : P unit) : P Z :=
  let* flags := get_flags in
  (if has_flag flags JSON_VALIDATE_ONLY then ret tt else k) ;;;
  ret 0.

Definition unpack_string (root : json_ptr) : P Z :=
  let* flags := get_flags in
  if has_flag flags JSON_VALIDATE_ONLY then ret 0
  else
    let* str_target := arg_target in
    match str_target with
    | None =>
        set_error (lit "<args>") json_error_null_value (lit "NULL string argument") ;;;
        ret (-1)
    | Some _ =>
        p_next ;;;
        let* t := token in
        let* len_target :=
          (if t =? chr "%" then let* l := arg_target in ret (Some l) else p_prev ;;; ret None) in
        match len_target with
        | Some None =>
            set_error (lit "<args>") json_error_null_value (lit "NULL string length argument") ;;;
            ret (-1)
        | _ =>
            (match root with
             | None => ret tt
             | Some _ =>
                 let* v := p_in_world (json_string_value root) in
                 store str_target (StString v) ;;;
                 match len_target with
                 | Some l => let* n := p_in_world (json_string_length root) in store l (StInt n)
                 | None => ret tt
                 end
             end) ;;;
            ret 0
        end
    end.

(** [if (root) *target = value;] with the target taken from the arguments *)
Definition assign (root : json_ptr) (value : W stored) : P unit :=
  let* target := arg_target in
  match root with
  | None => ret tt
  | Some _ => let* v := p_in_world value in store target v
  end.

Section unpacking.
Variable unpack : json_ptr -> P Z.

Definition bad_format (text : bytes) : P Z :=
  set_error (lit "<format>") json_error_invalid_format text ;;; ret (-1).

(** The members; [strict] is 0, 1 or -1.  The result is 0 or -1, with
    [strict], [gotopt] and the set of keys. *)
Fixpoint unpack_members (fuel : nat) (root : json_ptr) (strict : Z) (gotopt : bool)
    (key_set : hashtable_t) : P (Z * Z * bool * hashtable_t) :=
  match fuel with
  | O => fail OutOfFuel
  | S fuel' =>
      let out r := ret (r, strict, gotopt, key_set) in
      let* t := token in
      if t =? chr "}" then out 0
      else if negb (strict =? 0) then
        let* r := bad_format (lit "Expected '}' after '" ++ [if strict =? 1 then chr "!" else chr "*"]
                              ++ lit "', got '" ++ [t] ++ lit "'") in
        out r
      else if t =? 0 then
        let* r := bad_format (lit "Unexpected end of format string") in out r
      else if (t =? chr "!") || (t =? chr "*") then
        p_next ;;;
        unpack_members fuel' root (if t =? chr "!" then 1 else -1) gotopt key_set
      else if negb (t =? chr "s") then
        let* r := bad_format (lit "Expected format 's', got '" ++ [t] ++ lit "'") in out r
      else
        let* k := arg_string in
        match k with
        | None =>
            set_error (lit "<args>") json_error_null_value (lit "NULL object key") ;;;
            out (-1)
        | Some k =>
            let key := until_nul k in
            p_next ;;;
            let* t := token in
            let opt := t =? chr "?" in
            (if opt then p_next else ret tt) ;;;
            let gotopt := gotopt || opt in
            let* value := (match root with
                           | None => ret None
                           | Some _ => p_in_world (json_object_get root (Some key))
                           end) in
            match root, value with
            | Some _, None =>
                if opt then
                  let* r := unpack value in
                  if negb (r =? 0) then ret (-1, strict, gotopt, key_set)
                  else
                    let* seed := p_in_world (gets w_seed) in
                    let* (_, key_set, old) :=
                      p_in_world (run_am (hashtable_set seed key_set key the_null)) in
                    p_in_world (json_decref old) ;;;
                    p_next ;;;
                    unpack_members fuel' root strict gotopt key_set
                else
                  set_error (lit "<validation>") json_error_item_not_found
                    (lit "Object item not found: " ++ key) ;;;
                  ret (-1, strict, gotopt, key_set)
            | _, _ =>
                let* r := unpack value in
                if negb (r =? 0) then ret (-1, strict, gotopt, key_set)
                else
                  let* seed := p_in_world (gets w_seed) in
                  let* (_, key_set, old) :=
                    p_in_world (run_am (hashtable_set seed key_set key the_null)) in
                  p_in_world (json_decref old) ;;;
                  p_next ;;;
                  unpack_members fuel' root strict gotopt key_set
            end
        end
  end.

(** The keys of [root] that were not unpacked, for the error message. *)
Definition left_over (root : loc) (key_set : hashtable_t) : W (list bytes) :=
  let* seed := gets w_seed in
  let* h := gets w_heap in
  let* iter := json_object_iter (Some root) in
  let* ks := collect_keys (foreach_fuel h) root iter in
  let* found := lift_res (fold_right (fun k acc =>
      match hashtable_get seed key_set k, acc with
      | inr o, inr l => inr (if bool_decide (is_Some o) then l else k :: l)
      | inl e, _ => inl e
      | _, inl e => inl e
      end) (inr []) ks) in
  ret found.

(** [keys_res] and the buffer of unrecognized keys: the text of the message. *)
Definition join_keys (ks : list bytes) : W bytes :=
  let* (r, sb) := run_am strbuffer_init in
  let* (r, sb) :=
    (fix loop (first : bool) (ks : list bytes) (r : Z) (sb : strbuffer_t) : W (Z * strbuffer_t) :=
       match ks with
       | [] => ret (r, sb)
       | k :: ks' =>
           let* (r, sb) := (if first || negb (r =? 0) then ret (r, sb)
                            else run_am (strbuffer_append_bytes sb (lit ", "))) in
           let* (r, sb) := (if r =? 0 then run_am (strbuffer_append_bytes sb k) else ret (r, sb)) in
           loop false ks' r sb
       end) true ks r sb in
  if negb (r =? 0) then ret (lit "<unknown>")
  else let* v := lift_res (strbuffer_value sb) in require v.

Definition unpack_object (fuel : nat) (root : json_ptr) : P Z :=
  let* ks := p_in_world (run_am hashtable_init) in
  match ks with
  | None =>
      set_error (lit "<internal>") json_error_out_of_memory (lit "Out of memory") ;;;
      ret (-1)
  | Some key_set =>
      expect_type (is_type JSON_OBJECT) (lit "object") root
        (p_next ;;;
         let* (r, strict, gotopt, key_set) := unpack_members fuel root 0 false key_set in
         let* flags := get_flags in
         let strict := if (strict =? 0) && has_flag flags JSON_STRICT then 1 else strict in
         let* r :=
           (if negb (r =? 0) then ret (-1)
            else match root with
                 | Some l =>
                     if strict =? 1 then
                       let* size := p_in_world (json_object_size root) in
                       if gotopt || negb (size =? ht_size key_set) then
                         let* ks := p_in_world (left_over l key_set) in
                         match ks with
                         | [] => ret 0
                         | _ =>
                             let* names := p_in_world (join_keys ks) in
                             set_error (lit "<validation>") json_error_end_of_input_expected
                               (printf_d (Z.of_nat (length ks))
                                ++ lit " object item(s) left unpacked: " ++ names) ;;;
                             ret (-1)
                         end
                       else ret 0
                     else ret 0
                 | None => ret 0
                 end) in
         p_in_world (parents_close key_set) ;;;
         ret r)
  end.

Fixpoint unpack_elements (fuel : nat) (root : json_ptr) (strict i : Z) : P (Z * Z * Z) :=
  match fuel with
  | O => fail OutOfFuel
  | S fuel' =>
      let out r := ret (r, strict, i) in
      let* t := token in
      if t =? chr "]" then out 0
      else if negb (strict =? 0) then
        let* r := bad_format (lit "Expected ']' after '" ++ [if strict =? 1 then chr "!" else chr "*"]
                              ++ lit "', got '" ++ [t] ++ lit "'") in
        out r
      else if t =? 0 then
        let* r := bad_format (lit "Unexpected end of format string") in out r
      else if (t =? chr "!") || (t =? chr "*") then
        p_next ;;;
        unpack_elements fuel' root (if t =? chr "!" then 1 else -1) i
      else if negb (has_char t unpack_value_starters) then
        let* r := bad_format (lit "Unexpected format character '" ++ [t] ++ lit "'") in out r
      else
        let* value := (match root with
                       | None => ret None
                       | Some _ => p_in_world (json_array_get root i)
                       end) in
        match root, value with
        | Some _, None =>
            set_error (lit "<validation>") json_error_index_out_of_range
              (lit "Array index " ++ printf_d i ++ lit " out of range") ;;;
            out (-1)
        | _, _ =>
            let* r := unpack value in
            if negb (r =? 0) then out (-1)
            else p_next ;;; unpack_elements fuel' root strict (size_t (i + 1))
        end
  end.

Definition unpack_array (fuel : nat) (root : json_ptr) : P Z :=
  expect_type (is_type JSON_ARRAY) (lit "array") root
    (p_next ;;;
     let* (r, strict, i) := unpack_elements fuel root 0 0 in
     if negb (r =? 0) then ret (-1)
     else
       let* flags := get_flags in
       let strict := if (strict =? 0) && has_flag flags JSON_STRICT then 1 else strict in
       match root with
       | Some _ =>
           let* size := p_in_world (json_array_size root) in
           if (strict =? 1) && negb (i =? size) then
             set_error (lit "<validation>") json_error_end_of_input_expected
               (printf_d (size - i) ++ lit " array item(s) left unpacked") ;;;
             ret (-1)
           else ret 0
       | None => ret 0
       end).
End unpacking.

Definition is_boolean (t : json_type) : bool := is_type JSON_TRUE t || is_type JSON_FALSE t.
Definition is_number (t : json_type) : bool := is_type JSON_INTEGER t || is_type JSON_REAL t.

Fixpoint unpack (fuel : nat) (root : json_ptr) : P Z :=
  match fuel with
  | O => fail OutOfFuel
  | S fuel' =>
      let* t := token in
      let* s := get_scanner in
      let loops := pack_fuel (sc_fmt s) in
      if t =? chr "{" then unpack_object (unpack fuel') loops root
      else if t =? chr "[" then unpack_array (unpack fuel') loops root
      else if t =? chr "s" then
        expect_type (is_type JSON_STRING) (lit "string") root (unpack_string root)
      else if t =? chr "i" then
        expect_type (is_type JSON_INTEGER) (lit "integer") root
          (unless_validate (assign root (let* z := json_integer_value root in ret (StInt (int32 z)))))
      else if t =? chr "I" then
        expect_type (is_type JSON_INTEGER) (lit "integer") root
          (unless_validate (assign root (let* z := json_integer_value root in ret (StInt z))))
      else if t =? chr "b" then
        expect_type is_boolean (lit "true or false") root
          (unless_validate (assign root (let* b := json_is JSON_TRUE root in
                                         ret (StInt (if b then 1 else 0)))))
      else if t =? chr "f" then
        expect_type (is_type JSON_REAL) (lit "real") root
          (unless_validate (assign root (let* d := json_real_value root in ret (StDouble d))))
      else if t =? chr "F" then
        expect_type is_number (lit "real or integer") root
          (unless_validate (assign root (let* d := json_number_value root in ret (StDouble d))))
      else if t =? chr "O" then
        unless_validate
          (let* _ := (match root with
                      | Some _ => p_in_world (json_incref root)
                      | None => ret None
                      end) in
           assign root (ret (StJson root)))
      else if t =? chr "o" then unless_validate (assign root (ret (StJson root)))
      else if t =? chr "n" then expect_type (is_type JSON_NULL) (lit "null") root (ret 0)
      else bad_format (lit "Unexpected format character '" ++ [t] ++ lit "'")
  end.

(* ------------------------------------------------------------------ *)
(** ** The entry points *)

(** Run an interpreter on a format with arguments. *)
Definition run_scanner {A} (error : json_error_ptr) (flags : Z) (fmt : bytes) (ap : list va)
    (m : P A) : W (A * json_error_ptr * list (positive * stored)) := fun w =>
  match m {| p_scanner := scanner_init error flags fmt; p_args := ap; p_stores := [];
             p_world := w |} with
  | inl e => inl e
  | inr (a, p) => inr ((a, sc_error (p_scanner p), p_stores p), p_world p)
  end.

Definition empty_format (error : json_error_ptr) : json_error_ptr :=
  jsonp_error_set (jsonp_error_init error (Some (lit "<format>"))) (-1) (-1) 0
    json_error_invalid_argument (lit "NULL or empty format string").

Definition garbage : P unit :=
  set_error (lit "<format>") json_error_invalid_format (lit "Garbage after format string").

Definition json_vpack_ex (error : json_error_ptr) (flags : Z) (fmt : option bytes) (ap : list va)
    : W (json_ptr * json_error_ptr) :=
  match fmt with
  | Some ((_ :: _) as f) =>
      let* (r, e, _) := run_scanner (jsonp_error_init error None) flags f ap
        (p_next ;;;
         let* value := pack (pack_fuel f) in
         match value with
         | None => ret None
         | Some _ =>
             p_next ;;;
             let* t := token in
             if negb (t =? 0) then p_in_world (json_decref value) ;;; garbage ;;; ret None
             else ret value
         end) in
      ret (r, e)
  | _ => ret (None, empty_format error)
  end.
Definition json_pack_ex := json_vpack_ex.
Definition json_pack (fmt : option bytes) (ap : list va) : W json_ptr :=
  let* (r, _) := json_vpack_ex None 0 fmt ap in ret r.

(** The result, the error and the stores. *)
Definition json_vunpack_ex (root : json_ptr) (error : json_error_ptr) (flags : Z)
    (fmt : option bytes) (ap : list va) : W (Z * json_error_ptr * list (positive * stored)) :=
  match root, fmt with
  | None, _ =>
      ret (-1, jsonp_error_set (jsonp_error_init error (Some (lit "<root>"))) (-1) (-1) 0
                 json_error_null_value (lit "NULL root value"), [])
  | Some _, Some ((_ :: _) as f) =>
      run_scanner (jsonp_error_init error None) flags f ap
        (p_next ;;;
         let* r := unpack (pack_fuel f) root in
         if negb (r =? 0) then ret (-1)
         else
           p_next ;;;
           let* t := token in
           if negb (t =? 0) then garbage ;;; ret (-1) else ret 0)
  | Some _, _ => ret (-1, empty_format error, [])
  end.
Definition json_unpack_ex := json_vunpack_ex.
Definition json_unpack (root : json_ptr) (fmt : option bytes) (ap : list va)
    : W (Z * list (positive * stored)) :=
  let* (r, _, st) := json_vunpack_ex root None 0 fmt ap in ret (r, st).
