(* ===== verification/Grammar.v ===== *)
(** * JSON texts: the reference decoder

    What load.c is meant to compute, as pure functions on byte lists: the
    tokens of a text and the recursive-descent grammar, with the value as a
    tree.  There is no stream, no buffer, no heap and no locale here; the
    refinement theorems relate the decoder's code to these definitions. *)

From Stdlib Require Import SpecFloat.
From S2P Require Import Prelude Utf8 Hashtable Value Strconv Load.

(** ** Values *)

#[warnings="-register-all"]
Inductive json : Type :=
| JObject (members : list (bytes * json))
| JArray (elements : list json)
| JString (s : bytes)
| JInteger (z : Z)
| JReal (d : double)
| JTrue
| JFalse
| JNull.

(* ------------------------------------------------------------------ *)
(** ** Input *)

(** What a source delivers before its first EOF. *)
Fixpoint bytes_of (input : list (option Z)) : bytes :=
  match input with
  | Some c :: r => c :: bytes_of r
  | _ => []
  end.

(** The complete UTF-8 sequences a text starts with, and whether something
    else follows them. *)
Fixpoint decode_text (fuel : nat) (s : bytes) : bytes * bool :=
  match fuel, s with
  | _, [] => ([], false)
  | O, _ :: _ => ([], true)
  | S fuel', b :: r =>
      let n := utf8_check_first b in
      if n =? 0 then ([], true)
      else if n =? 1 then let '(t, bad) := decode_text fuel' r in (b :: t, bad)
      else if Z.of_nat (length s) <? n then ([], true)
      else
        match utf8_check_full s n with
        | None => ([], true)
        | Some _ =>
            let k := Z.to_nat n in
            let '(t, bad) := decode_text fuel' (drop k s) in (take k s ++ t, bad)
        end
  end.
Definition text_of (s : bytes) : bytes * bool := decode_text (length s) s.

(* ------------------------------------------------------------------ *)
(** ** Tokens *)

Inductive token : Type :=
| TEof
| TPunct (c : Z)
| TString (s : bytes)
| TInteger (z : Z)
| TReal (d : double)
| TTrue
| TFalse
| TNull.

(** The longest prefix whose bytes satisfy [test]. *)
Fixpoint span (test : Z -> bool) (s : bytes) : bytes * bytes :=
  match s with
  | [] => ([], [])
  | c :: r => if test c then let '(w, r') := span test r in (c :: w, r') else ([], s)
  end.

(** A NUL byte that follows a number or a literal is lost: the stream cannot
    put it back. *)
Definition drop_nul (s : bytes) : bytes :=
  match s with
  | c :: r => if c =? 0 then r else s
  | [] => []
  end.

(** *** Strings *)

(** The parts of the text of a string. *)
Inductive item : Type :=
| IByte (c : Z)
| IEscape (e : Z)                (* \e *)
| IUnicode (h1 h2 h3 h4 : Z).    (* \uXXXX *)

Definition item_text (i : item) : bytes :=
  match i with
  | IByte c => [c]
  | IEscape e => [chr "\"; e]
  | IUnicode h1 h2 h3 h4 => [chr "\"; chr "u"; h1; h2; h3; h4]
  end.
Definition items_text (is_ : list item) : bytes := mjoin (item_text <$> is_).

(** The parts up to the closing quote, and what follows it. *)
Fixpoint string_items (s : bytes) : option (list item * bytes) :=
  match s with
  | [] => None
  | c :: r =>
      if c =? chr "034" then Some ([], r)
      else if c <=? 0x1F then None
      else if c =? chr "\" then
        match r with
        | [] => None
        | e :: r1 =>
            if e =? chr "u" then
              match r1 with
              | h1 :: h2 :: h3 :: h4 :: r2 =>
                  if l_isxdigit h1 && l_isxdigit h2 && l_isxdigit h3 && l_isxdigit h4 then
                    '(is_, t) ← string_items r2; Some (IUnicode h1 h2 h3 h4 :: is_, t)
                  else None
              | _ => None
              end
            else if is_escape e then
              '(is_, t) ← string_items r1; Some (IEscape e :: is_, t)
            else None
        end
      else '(is_, t) ← string_items r; Some (IByte c :: is_, t)
  end.

Definition hex_value (c : Z) : Z :=
  if l_isdigit c then c - chr "0"
  else if l_islower c then c - chr "a" + 10 else c - chr "A" + 10.
Definition hex4 (h1 h2 h3 h4 : Z) : Z :=
  ((hex_value h1 * 16 + hex_value h2) * 16 + hex_value h3) * 16 + hex_value h4.

Definition is_high (v : Z) : bool := (0xD800 <=? v) && (v <=? 0xDBFF).
Definition is_low (v : Z) : bool := (0xDC00 <=? v) && (v <=? 0xDFFF).

(** The bytes a string stands for; surrogates must come in pairs. *)
Fixpoint decode_items (is_ : list item) : option bytes :=
  match is_ with
  | [] => Some []
  | IByte c :: r => s ← decode_items r; Some (c :: s)
  | IEscape e :: r => c ← short_escape e; s ← decode_items r; Some (c :: s)
  | IUnicode h1 h2 h3 h4 :: r =>
      let v := hex4 h1 h2 h3 h4 in
      if is_high v then
        match r with
        | IUnicode g1 g2 g3 g4 :: r' =>
            let v2 := hex4 g1 g2 g3 g4 in
            if is_low v2 then
              s ← decode_items r';
              Some (enc ((v - 0xD800) * 1024 + (v2 - 0xDC00) + 0x10000) ++ s)
            else None
        | _ => None
        end
      else if is_low v then None
      else s ← decode_items r; Some (enc v ++ s)
  end.

(** *** Numbers *)

Definition frac_part (s : bytes) : option (list Z * bytes) :=
  match s with
  | c :: r =>
      if c =? chr "." then
        match span_digits r with ([], _) => None | (fs, t) => Some (fs, t) end
      else Some ([], s)
  | [] => Some ([], s)
  end.

Definition exp_part (s : bytes) : option (Z * bytes) :=
  match s with
  | c :: r =>
      if (c =? chr "e") || (c =? chr "E") then
        let '(neg, t) := exp_sign r in
        match span_digits t with
        | ([], _) => None
        | (es, u) => Some (if neg then - of_digits 10 es else of_digits 10 es, u)
        end
      else Some (0, s)
  | [] => Some (0, s)
  end.

(** What makes a number a real. *)
Definition starts_real (s : bytes) : bool :=
  match s with c :: _ => (c =? chr ".") || (c =? chr "e") || (c =? chr "E") | [] => false end.

(** A number with the sign [neg] and the integer part [ds], in front of [s]. *)
Definition number_tail (int_as_real neg : bool) (ds : list Z) (s : bytes) : option (token * bytes) :=
  if negb int_as_real && negb (starts_real s) then
    let v := if neg then - of_digits 10 ds else of_digits 10 ds in
    if (INT64_MIN <=? v) && (v <=? INT64_MAX) then Some (TInteger v, drop_nul s) else None
  else
    '(fs, s3) ← frac_part s;
    '(e, s4) ← exp_part s3;
    let d := dec_to_double neg (of_digits 10 (ds ++ fs)) (e - Z.of_nat (length fs)) in
    if not_finite d then None else Some (TReal d, drop_nul s4).

Definition ref_number (int_as_real : bool) (s : bytes) : option (token * bytes) :=
  let '(neg, s1) := scan_minus s in
  let '(ds, s2) := span_digits s1 in
  if bool_decide (ds = []) || (bool_decide (head ds = Some 0) && negb (bool_decide (ds = [0])))
  then None                                     (* no digits, or a leading zero *)
  else number_tail int_as_real neg ds s2.

(** *** The next token *)

Definition keyword (w : bytes) : option token :=
  if bool_decide (w = lit "true") then Some TTrue
  else if bool_decide (w = lit "false") then Some TFalse
  else if bool_decide (w = lit "null") then Some TNull
  else None.

(** The next token and what follows it; [None] for an invalid one.  [bad]
    tells whether the text ends in bytes that are not UTF-8. *)
Definition ref_scan (int_as_real bad : bool) (s : bytes) : option (token * bytes) :=
  match (span is_space s).2 with
  | [] => if bad then None else Some (TEof, [])
  | c :: r =>
      if is_punct c then Some (TPunct c, r)
      else if c =? chr "034" then
        '(is_, t) ← string_items r;
        str ← decode_items is_;
        Some (TString str, t)
      else if l_isdigit c || (c =? chr "-") then ref_number int_as_real (c :: r)
      else if l_isalpha c then
        let '(w, t) := span l_isalpha (c :: r) in
        k ← keyword w; Some (k, drop_nul t)
      else None
  end.

(* ------------------------------------------------------------------ *)
(** ** The grammar *)

Section grammar.
Variables (int_as_real reject_duplicates allow_nul bad : bool).

Abbreviation scan := (ref_scan int_as_real bad).

Definition is_tok (t : token) (c : Z) : bool := match t with TPunct c' => c' =? c | _ => false end.

(** [value] reads a value whose first token is given. *)
Section loops.
Variable value : token -> bytes -> option (json * bytes).

(** Members from the token [t] on; [acc] are those before. *)
Fixpoint ref_members (fuel : nat) (acc : list (bytes * json)) (t : token) (s : bytes)
    : option (list (bytes * json) * bytes) :=
  match fuel, t with
  | S fuel', TString k =>
      if has_nul k then None
      else if reject_duplicates && bool_decide (is_Some (alookup k acc)) then None
      else
        '(colon, s) ← scan s;
        if negb (is_tok colon (chr ":")) then None
        else
          '(t, s) ← scan s;
          '(v, s) ← value t s;
          '(t, s) ← scan s;
          if is_tok t (chr ",") then '(t, s) ← scan s; ref_members fuel' (aset k v acc) t s
          else if is_tok t (chr "}") then Some (aset k v acc, s)
          else None
  | _, _ => None
  end.

Fixpoint ref_elements (fuel : nat) (acc : list json) (t : token) (s : bytes)
    : option (list json * bytes) :=
  match fuel with
  | O => None
  | S fuel' =>
      '(v, s) ← value t s;
      '(t, s) ← scan s;
      if is_tok t (chr ",") then '(t, s) ← scan s; ref_elements fuel' (acc ++ [v]) t s
      else if is_tok t (chr "]") then Some (acc ++ [v], s)
      else None
  end.
End loops.

(** A value of depth at most [depth]. *)
Fixpoint ref_value (depth : nat) (t : token) (s : bytes) : option (json * bytes) :=
  match depth with
  | O => None
  | S depth' =>
      match t with
      | TEof => None
      | TString str => if negb allow_nul && has_nul str then None else Some (JString str, s)
      | TInteger z => Some (JInteger z, s)
      | TReal d => Some (JReal d, s)
      | TTrue => Some (JTrue, s)
      | TFalse => Some (JFalse, s)
      | TNull => Some (JNull, s)
      | TPunct c =>
          if c =? chr "{" then
            '(t, s) ← scan s;
            if is_tok t (chr "}") then Some (JObject [], s)
            else '(ms, s) ← ref_members (ref_value depth') (S (length s)) [] t s; Some (JObject ms, s)
          else if c =? chr "[" then
            '(t, s) ← scan s;
            if is_tok t (chr "]") then Some (JArray [], s)
            else '(vs, s) ← ref_elements (ref_value depth') (S (length s)) [] t s; Some (JArray vs, s)
          else None
      end
  end.
End grammar.

(** A whole text: the value, or [None] when it is rejected. *)
Definition ref_parse (flags : Z) (text : bytes) : option json :=
  let '(s, bad) := text_of text in
  let int_as_real := has_flag flags JSON_DECODE_INT_AS_REAL in
  '(t, s) ← ref_scan int_as_real bad s;
  if negb (has_flag flags JSON_DECODE_ANY) && negb (is_tok t (chr "[")) && negb (is_tok t (chr "{"))
  then None
  else
    '(v, s) ← ref_value int_as_real (has_flag flags JSON_REJECT_DUPLICATES)
                (has_flag flags JSON_ALLOW_NUL) bad (Z.to_nat JSON_PARSER_MAX_DEPTH) t s;
    if has_flag flags JSON_DISABLE_EOF_CHECK then Some v
    else
      match ref_scan int_as_real bad s with
      | Some (TEof, _) => Some v
      | _ => None
      end.

(** Texts of examples, with ' for the double quote. *)
Definition text (s : string) : bytes := (fun c => if c =? chr "'" then chr "034" else c) <$> lit s.

Example ref_parse_nested :
  ref_parse 0 (text "{'a': [1, -2.5e1, 'x\u00e9'], 'b': null}") =
  Some (JObject [(lit "a", JArray [JInteger 1; JReal (S754_finite true 7036874417766400 (-48));
                                   JString [chr "x"; 0xC3; 0xA9]]);
                 (lit "b", JNull)]).
Proof. vm_compute. reflexivity. Qed.
