(* ===== verification/Numbers.v ===== *)
(** * Numbers: texts, their values, and the locale

    [strtoll] and [jsonp_strtod] on the texts the lexer collects: the value is
    that of the digits, whatever the decimal point of the locale. *)

From Stdlib Require Import SpecFloat.
From S2P Require Import Prelude Utf8 Strbuffer Hashtable Value Error Strconv Load Grammar.

Definition is_digit_value (d : Z) : Prop := 0 <= d < 10.

Lemma dec_chars_app a b : dec_chars (a ++ b) = dec_chars a ++ dec_chars b.
Proof. apply fmap_app. Qed.

Lemma l_isdigit_char d : is_digit_value d -> l_isdigit (chr "0" + d) = true.
Proof.
  unfold is_digit_value, l_isdigit. change (chr "0") with 48. change (chr "9") with 57. intros.
  rewrite !(proj2 (Z.leb_le _ _)) by lia. done.
Qed.
Lemma l_isdigit_range c : l_isdigit c = true -> 48 <= c <= 57.
Proof. unfold l_isdigit. change (chr "0") with 48. change (chr "9") with 57. intros. zbool. lia. Qed.

(** [span_digits] reads the longest run of digits. *)
Lemma span_digits_span s :
  span l_isdigit s = (dec_chars (span_digits s).1, (span_digits s).2).
Proof.
  induction s as [|c s IH]; [done|]. simpl. destruct (l_isdigit c); [|done].
  rewrite IH. destruct (span_digits s) as [ds r]. simpl. f_equal. f_equal. lia.
Qed.

Lemma span_digits_values s : Forall is_digit_value (span_digits s).1.
Proof.
  induction s as [|c s IH]; simpl; [constructor|]. destruct (l_isdigit c) eqn:E; [|constructor].
  destruct (span_digits s) as [ds r]. constructor; [|done].
  apply l_isdigit_range in E. unfold is_digit_value. change (chr "0") with 48. lia.
Qed.

Definition no_digit (s : bytes) : Prop :=
  match s with c :: _ => l_isdigit c = false | [] => True end.

Lemma span_digits_rest s : no_digit (span_digits s).2.
Proof.
  induction s as [|c s IH]; simpl; [done|]. destruct (l_isdigit c) eqn:E; [|done].
  destruct (span_digits s). done.
Qed.

Lemma span_digits_app ds r :
  Forall is_digit_value ds -> no_digit r -> span_digits (dec_chars ds ++ r) = (ds, r).
Proof.
  intros Hd Hr. induction Hd as [|d ds Hd Hds IH]; cbn [dec_chars].
  - destruct r as [|c r]; [done|]. simpl in *. by rewrite Hr.
  - change (dec_chars (d :: ds) ++ r) with (chr "0" + d :: dec_chars ds ++ r). cbn [span_digits].
    rewrite l_isdigit_char by done. rewrite IH. do 2 f_equal. lia.
Qed.

Lemma span_digits_nil s : no_digit s -> span_digits s = ([], s).
Proof. intros H. by apply (span_digits_app []). Qed.

Lemma dec_chars_cstr ds : Forall is_digit_value ds -> is_cstr (dec_chars ds).
Proof.
  induction 1 as [|d ds Hd _ IH]; [constructor|]. constructor; [|done].
  unfold is_digit_value in Hd. change (chr "0") with 48. lia.
Qed.

Lemma no_char_digits c ds : Forall is_digit_value ds -> l_isdigit c = false -> c ∉ dec_chars ds.
Proof.
  intros Hd Hc H. apply list_elem_of_fmap in H as (d & -> & Hin).
  rewrite Forall_forall in Hd. by rewrite l_isdigit_char in Hc by auto.
Qed.

(** ** Integers *)

Lemma scan_minus_sign neg ds r :
  Forall is_digit_value ds -> ds <> [] ->
  scan_minus (sign_chars neg ++ dec_chars ds ++ r) = (neg, dec_chars ds ++ r).
Proof.
  intros Hd Hne. destruct neg; [done|]. destruct Hd as [|d ds Hd Hds]; [done|].
  cbn. unfold is_digit_value in Hd. change (chr "-") with 45. change (chr "0") with 48.
  by rewrite (proj2 (Z.eqb_neq _ _)) by lia.
Qed.

Definition signed (neg : bool) (n : Z) : Z := if neg then - n else n.

Lemma strtoll_text neg ds :
  Forall is_digit_value ds -> ds <> [] ->
  strtoll (sign_chars neg ++ dec_chars ds) =
  let v := signed neg (of_digits 10 ds) in
  if v <? INT64_MIN then (INT64_MIN, true, []) else if INT64_MAX <? v then (INT64_MAX, true, [])
  else (v, false, []).
Proof.
  intros Hd Hne. unfold strtoll. rewrite <- (app_nil_r (dec_chars ds)).
  rewrite scan_minus_sign by done. rewrite span_digits_app by done. by destruct ds.
Qed.

(** ** Reals *)

(** Decimal points a locale may have. *)
Definition point_ok (point : Z) : Prop :=
  l_isdigit point = false /\ point <> chr "e" /\ point <> chr "E".

(** The text of a fraction, with the decimal point [p]. *)
Definition frac_text (p : Z) (fs : list Z) : bytes :=
  match fs with [] => [] | _ => p :: dec_chars fs end.

(** An exponent: its marker, its sign and its digits. *)
Inductive expo : Type :=
| ENone
| ESome (mark : Z) (sgn : bytes) (es : list Z).
Definition expo_ok (e : expo) : Prop :=
  match e with
  | ENone => True
  | ESome mark sgn es =>
      (mark = chr "e" \/ mark = chr "E") /\ (sgn = [] \/ sgn = [chr "+"] \/ sgn = [chr "-"]) /\
      Forall is_digit_value es /\ es <> []
  end.
Definition expo_text (e : expo) : bytes :=
  match e with ENone => [] | ESome mark sgn es => mark :: sgn ++ dec_chars es end.
Definition expo_value (e : expo) : Z :=
  match e with
  | ENone => 0
  | ESome _ sgn es => signed (bool_decide (sgn = [chr "-"])) (of_digits 10 es)
  end.

Definition real_text (p : Z) (neg : bool) (ds fs : list Z) (e : expo) : bytes :=
  sign_chars neg ++ dec_chars ds ++ frac_text p fs ++ expo_text e.

Lemma no_digit_frac p fs t : l_isdigit p = false -> no_digit t -> no_digit (frac_text p fs ++ t).
Proof. by destruct fs. Qed.
Lemma no_digit_expo e : expo_ok e -> no_digit (expo_text e).
Proof. destruct e as [|mark sgn es]; [done|]. by intros ([->| ->] & _). Qed.

Lemma exp_sign_text sgn es :
  sgn = [] \/ sgn = [chr "+"] \/ sgn = [chr "-"] -> Forall is_digit_value es -> es <> [] ->
  exp_sign (sgn ++ dec_chars es) = (bool_decide (sgn = [chr "-"]), dec_chars es).
Proof.
  intros Hs Hd Hne. destruct Hs as [->|[->| ->]]; [|done|done].
  destruct Hd as [|d es Hd Hds]; [done|]. cbn. unfold is_digit_value in Hd.
  change (chr "-") with 45. change (chr "+") with 43. change (chr "0") with 48.
  by rewrite !(proj2 (Z.eqb_neq _ _)) by lia.
Qed.

Lemma scan_exponent_text e : expo_ok e -> scan_exponent (expo_text e) = (expo_value e, []).
Proof.
  destruct e as [|mark sgn es]; [done|]. intros (Hm & Hs & Hd & Hne). unfold scan_exponent, expo_text.
  assert ((mark =? chr "e") || (mark =? chr "E") = true) as -> by (destruct Hm as [->| ->]; done).
  rewrite exp_sign_text by done. rewrite <- (app_nil_r (dec_chars es)), span_digits_app by done.
  by destruct es.
Qed.

Lemma strtod_text point neg ds fs e :
  point_ok point -> Forall is_digit_value ds -> ds <> [] -> Forall is_digit_value fs -> expo_ok e ->
  strtod point (real_text point neg ds fs e) =
  let v := dec_to_double neg (of_digits 10 (ds ++ fs)) (expo_value e - Z.of_nat (length fs)) in
  (v, not_finite v, []).
Proof.
  intros (Hp & He1 & He2) Hds Hne Hfs He. unfold strtod, real_text.
  rewrite scan_minus_sign by done.
  rewrite span_digits_app; [|done|apply no_digit_frac; [done|by apply no_digit_expo]].
  assert (Hf : scan_fraction point (frac_text point fs ++ expo_text e) = (fs, expo_text e)).
  { destruct fs as [|f fs].
    - simpl. destruct e as [|mark sgn es]; [done|]. simpl in He. unfold scan_fraction, expo_text.
      rewrite (proj2 (Z.eqb_neq _ _)); [done|]. naive_solver.
    - unfold frac_text, scan_fraction. cbn [app]. rewrite Z.eqb_refl.
      apply span_digits_app; [done|by apply no_digit_expo]. }
  rewrite Hf. destruct (ds ++ fs) eqn:E; [by apply app_eq_nil in E as [-> _]|].
  by rewrite scan_exponent_text.
Qed.

Lemma replace_first_app a b s t : a ∉ s -> replace_first a b (s ++ t) = s ++ replace_first a b t.
Proof.
  induction s as [|c s IH]; [done|]. rewrite not_elem_of_cons. intros [Hne Hs]. simpl.
  rewrite (proj2 (Z.eqb_neq c a)) by done. by rewrite IH.
Qed.
Lemma replace_first_none a b s : a ∉ s -> replace_first a b s = s.
Proof. intros H. rewrite <- (app_nil_r s) at 1. rewrite replace_first_app by done. simpl. apply app_nil_r. Qed.

Lemma not_in_expo c e : expo_ok e -> l_isdigit c = false -> c <> chr "e" -> c <> chr "E" ->
  c <> chr "+" -> c <> chr "-" -> c ∉ expo_text e.
Proof.
  destruct e as [|mark sgn es]; [intros; apply not_elem_of_nil|].
  intros (Hm & Hs & Hd & _) Hc H1 H2 H3 H4. unfold expo_text.
  rewrite elem_of_cons, elem_of_app. pose proof (no_char_digits c es Hd Hc) as Hes.
  intros [->|[H|H]]; [naive_solver| |done].
  destruct Hs as [->|[->| ->]]; rewrite ?elem_of_cons, ?elem_of_nil in H; naive_solver.
Qed.

Lemma to_locale_text point neg ds fs e :
  Forall is_digit_value ds -> expo_ok e ->
  to_locale point (real_text (chr ".") neg ds fs e) = real_text point neg ds fs e.
Proof.
  intros Hds He. unfold to_locale. destruct (Z.eqb_spec point (chr ".")) as [->|Hne]; [done|].
  unfold real_text. rewrite replace_first_app.
  2:{ destruct neg; simpl; [|apply not_elem_of_nil]. by rewrite list_elem_of_singleton. }
  rewrite replace_first_app by (by apply no_char_digits). f_equal. f_equal. destruct fs as [|f fs].
  - simpl. apply replace_first_none. by apply not_in_expo.
  - unfold frac_text. cbn [app replace_first]. by rewrite Z.eqb_refl.
Qed.

(** The value of a number's text does not depend on the locale. *)
Lemma jsonp_strtod_text point neg ds fs e :
  point_ok point -> Forall is_digit_value ds -> ds <> [] -> Forall is_digit_value fs -> expo_ok e ->
  jsonp_strtod point (real_text (chr ".") neg ds fs e) =
  let v := dec_to_double neg (of_digits 10 (ds ++ fs)) (expo_value e - Z.of_nat (length fs)) in
  inr (if not_finite v then None else Some v).
Proof.
  intros Hp Hds Hne Hfs He. unfold jsonp_strtod. rewrite to_locale_text by done.
  rewrite strtod_text by done. simpl. by destruct (not_finite _).
Qed.

Lemma real_text_cstr neg ds fs e :
  Forall is_digit_value ds -> Forall is_digit_value fs -> expo_ok e ->
  is_cstr (real_text (chr ".") neg ds fs e).
Proof.
  intros Hds Hfs He. unfold real_text. apply Forall_app. split; [destruct neg; by repeat constructor|].
  apply Forall_app. split; [by apply dec_chars_cstr|]. apply Forall_app. split.
  - destruct fs; [constructor|]. constructor; [done|]. by apply dec_chars_cstr.
  - destruct e as [|mark sgn es]; [constructor|]. destruct He as (Hm & Hs & Hd & _). constructor.
    + by destruct Hm as [->| ->].
    + apply Forall_app. split; [|by apply dec_chars_cstr].
      by destruct Hs as [->|[->| ->]]; repeat constructor.
Qed.
