(* ===== verification/GrammarFacts.v ===== *)
(** * Facts about the reference decoder: every token and value consumes input *)

From Stdlib Require Import SpecFloat.
From S2P Require Import Prelude Utf8 Hashtable Value Strconv Load Grammar Numbers.

Lemma span_length test s : (length (span test s).2 <= length s)%nat.
Proof.
  induction s as [|c s IH]; simpl; [done|]. destruct (test c); [|done].
  destruct (span test s). simpl in *. lia.
Qed.

Lemma drop_nul_length s : (length (drop_nul s) <= length s)%nat.
Proof. destruct s; simpl; [done|]. case_if; simpl; lia. Qed.

Lemma span_digits_length s : (length (span_digits s).1 + length (span_digits s).2 = length s)%nat.
Proof.
  induction s as [|c s IH]; simpl; [done|]. destruct (l_isdigit c); [|done].
  destruct (span_digits s). simpl in *. lia.
Qed.

Lemma scan_minus_length s : (length (scan_minus s).2 <= length s)%nat.
Proof. destruct s; simpl; [done|]. case_if; simpl; lia. Qed.
Lemma exp_sign_length s : (length (exp_sign s).2 <= length s)%nat.
Proof. destruct s; simpl; [done|]. repeat case_if; simpl; lia. Qed.

Lemma frac_part_length s fs t : frac_part s = Some (fs, t) -> (length t <= length s)%nat.
Proof.
  destruct s as [|c r]; [by intros [= <- <-]|]. simpl. destruct (c =? chr "."); [|by intros [= <- <-]].
  pose proof (span_digits_length r). destruct (span_digits r) as [[|]]; [done|].
  intros [= <- <-]. simpl in *. lia.
Qed.
Lemma exp_part_length s e t : exp_part s = Some (e, t) -> (length t <= length s)%nat.
Proof.
  destruct s as [|c r]; [by intros [= <- <-]|]. simpl. destruct (_ || _); [|by intros [= <- <-]].
  pose proof (exp_sign_length r). destruct (exp_sign r) as [neg t']. simpl in *.
  pose proof (span_digits_length t'). destruct (span_digits t') as [[|]]; [done|].
  intros [= <- <-]. simpl in *. lia.
Qed.

Lemma number_tail_length i neg ds s tok t :
  number_tail i neg ds s = Some (tok, t) -> (length t <= length s)%nat.
Proof.
  unfold number_tail. pose proof (drop_nul_length s). destruct (negb i && _).
  - destruct (_ && _); [|done]. by intros [= <- <-].
  - destruct (frac_part s) as [[fs s3]|] eqn:E3; [|done]. simpl.
    destruct (exp_part s3) as [[e s4]|] eqn:E4; [|done]. simpl.
    destruct (not_finite _); [done|]. intros [= <- <-].
    apply frac_part_length in E3. apply exp_part_length in E4. pose proof (drop_nul_length s4). lia.
Qed.

Lemma ref_number_length i s tok t : ref_number i s = Some (tok, t) -> (length t < length s)%nat.
Proof.
  unfold ref_number. pose proof (scan_minus_length s). destruct (scan_minus s) as [neg s1]. simpl in *.
  pose proof (span_digits_length s1). destruct (span_digits s1) as [ds s2]. simpl in *.
  destruct ds as [|d ds]; [done|]. case_if; [done|]. intros Ht%number_tail_length. simpl in *. lia.
Qed.

Lemma string_items_length s is_ t : string_items s = Some (is_, t) -> (length t < length s)%nat.
Proof.
  remember (length s) as n eqn:Hn. revert s is_ t Hn.
  induction (lt_wf n) as [n _ IH]. intros s is_ t ->. destruct s as [|c r]; [done|].
  assert (Hstep : forall r' i, (length r' <= length r)%nat ->
    ('(is', t') ← string_items r'; Some (i :: is', t')) = Some (is_, t) -> (length t < length (c :: r))%nat).
  { intros r' i Hr'. destruct (string_items r') as [[is' t']|] eqn:E; [|done]. simpl. intros [= <- <-].
    specialize (IH (length r') ltac:(simpl; lia) r' is' t' eq_refl E). lia. }
  cbn [string_items].
  destruct (c =? chr "034"); [intros [= <- <-]; simpl; lia|]. destruct (c <=? 0x1F); [done|].
  destruct (c =? chr "\"); [|by apply Hstep].
  destruct r as [|e r]; [done|]. destruct (e =? chr "u").
  - destruct r as [|h1 [|h2 [|h3 [|h4 r]]]]; try done. case_if; [|done]. apply Hstep. simpl. lia.
  - destruct (is_escape e); [|done]. apply Hstep. simpl. lia.
Qed.

Lemma ref_scan_length i bad s tok t :
  ref_scan i bad s = Some (tok, t) -> (length t <= length s)%nat /\ (tok <> TEof -> (length t < length s)%nat).
Proof.
  unfold ref_scan. pose proof (span_length is_space s) as Hs. destruct (span is_space s).2 as [|c r].
  { destruct bad; [done|]. intros [= <- <-]. simpl. split; [lia|done]. }
  enough (H : forall o, o = Some (tok, t) -> (forall k t', o = Some (k, t') -> (length t' < length (c :: r))%nat) ->
            (length t <= length s)%nat /\ (tok <> TEof -> (length t < length s)%nat)).
  { intros E. eapply H; [exact E|]. clear E H. intros k t'.
    destruct (is_punct c); [intros [= <- <-]; simpl; lia|].
    destruct (c =? chr "034").
    { destruct (string_items r) as [[is_ t1]|] eqn:E; [|done]. simpl. destruct (decode_items is_); [|done].
      simpl. intros [= <- <-]. apply string_items_length in E. simpl. lia. }
    destruct (l_isdigit c || (c =? chr "-")); [apply ref_number_length|].
    destruct (l_isalpha c) eqn:Ea; [|done]. cbn [span]. rewrite Ea.
    pose proof (span_length l_isalpha r). destruct (span l_isalpha r) as [w t1]. simpl in *.
    destruct (keyword (c :: w)); [|done]. simpl. intros [= <- <-]. pose proof (drop_nul_length t1). lia. }
  intros o Ho H. specialize (H _ _ Ho). lia.
Qed.

Section values.
Variables (int_as_real reject_duplicates allow_nul bad : bool).
Variable value : token -> bytes -> option (json * bytes).
Hypothesis Hvalue : forall t s v s', value t s = Some (v, s') -> (length s' <= length s)%nat.

Lemma ref_elements_length fuel acc t s vs s' :
  ref_elements int_as_real bad value fuel acc t s = Some (vs, s') -> (length s' <= length s)%nat.
Proof using Hvalue.
  revert acc t s. induction fuel as [|fuel IH]; intros acc t s; simpl; [done|].
  destruct (value t s) as [[v s1]|] eqn:E1; [|done]. simpl. apply Hvalue in E1.
  destruct (ref_scan int_as_real bad s1) as [[t2 s2]|] eqn:E2; [|done]. simpl. apply ref_scan_length in E2 as [E2 _].
  destruct (is_tok t2 (chr ",")).
  - destruct (ref_scan int_as_real bad s2) as [[t3 s3]|] eqn:E3; [|done]. simpl. apply ref_scan_length in E3 as [E3 _].
    intros H%IH. lia.
  - destruct (is_tok t2 (chr "]")); [|done]. intros [= <- <-]. lia.
Qed.

Lemma ref_members_length fuel acc t s ms s' :
  ref_members int_as_real reject_duplicates bad value fuel acc t s = Some (ms, s') ->
  (length s' <= length s)%nat.
Proof using Hvalue.
  revert acc t s. induction fuel as [|fuel IH]; intros acc t s; simpl; [done|].
  destruct t as [| |k| | | | |]; try done. destruct (has_nul k); [done|]. destruct (reject_duplicates && _); [done|].
  destruct (ref_scan int_as_real bad s) as [[t1 s1]|] eqn:E1; [|done]. simpl. apply ref_scan_length in E1 as [E1 _].
  destruct (negb _); [done|].
  destruct (ref_scan int_as_real bad s1) as [[t2 s2]|] eqn:E2; [|done]. simpl. apply ref_scan_length in E2 as [E2 _].
  destruct (value t2 s2) as [[v s3]|] eqn:E3; [|done]. simpl. apply Hvalue in E3.
  destruct (ref_scan int_as_real bad s3) as [[t4 s4]|] eqn:E4; [|done]. simpl. apply ref_scan_length in E4 as [E4 _].
  destruct (is_tok t4 (chr ",")).
  - destruct (ref_scan int_as_real bad s4) as [[t5 s5]|] eqn:E5; [|done]. simpl. apply ref_scan_length in E5 as [E5 _].
    intros H%IH. lia.
  - destruct (is_tok t4 (chr "}")); [|done]. intros [= <- <-]. lia.
Qed.
End values.

Lemma ref_value_length i rd an bad depth t s v s' :
  ref_value i rd an bad depth t s = Some (v, s') -> (length s' <= length s)%nat.
Proof.
  revert t s v s'. induction depth as [|depth IH]; intros t s v s'; cbn [ref_value]; [done|].
  destruct t; try done; try (by intros [= <- <-]).
  - destruct (c =? chr "{"); [|destruct (c =? chr "["); [|done]].
    + destruct (ref_scan i bad s) as [[t1 s1]|] eqn:E1; [|done]. cbn [mbind option_bind]. apply ref_scan_length in E1 as [E1 _].
      destruct (is_tok t1 _); [intros [= <- <-]; lia|].
      destruct (ref_members _ _ _ _ _ _ _ _) as [[ms s2]|] eqn:E2; [|done]. intros [= <- <-].
      apply ref_members_length in E2; [lia|exact IH].
    + destruct (ref_scan i bad s) as [[t1 s1]|] eqn:E1; [|done]. cbn [mbind option_bind]. apply ref_scan_length in E1 as [E1 _].
      destruct (is_tok t1 _); [intros [= <- <-]; lia|].
      destruct (ref_elements _ _ _ _ _ _ _) as [[ms s2]|] eqn:E2; [|done]. intros [= <- <-].
      apply ref_elements_length in E2; [lia|exact IH].
  - destruct (_ && _); [done|]. by intros [= <- <-].
Qed.
