(* ===== verification/Stream.v ===== *)
(** * The byte stream and the lexer's buffer, refined to byte lists

    [at_ N s rest bad saved]: the lexer [s] is in front of the bytes [rest],
    [bad] tells whether something that is not UTF-8 follows them, and the text
    of the current token is [saved]; at most [N] bytes are ever buffered.  For
    each character-level operation of load.c: it returns, and moves bytes
    between [rest] and [saved] as it should. *)

From Stdlib Require Import SpecFloat.
From S2P Require Import Prelude Utf8 Strbuffer Hashtable Value ValueSpec Error Strconv Load.
From S2P Require Import Grammar.

(* ------------------------------------------------------------------ *)
(** ** Decoding the input *)

Lemma decode_text_fuel f g s :
  (length s <= f)%nat -> (length s <= g)%nat -> decode_text f s = decode_text g s.
Proof.
  revert g s. induction f as [|f IH]; intros [|g] [|b r]; simpl; intros Hf Hg; try done; try lia.
  rewrite (IH g r) by lia.
  destruct (utf8_check_full _ _); [|done].
  destruct (Z.eqb_spec (utf8_check_first b) 0); [done|].
  destruct (Z.to_nat (utf8_check_first b)) eqn:E; [pose proof (check_first_range b); lia|].
  rewrite (IH g); [done| |]; cbn [drop]; rewrite length_drop; lia.
Qed.

Lemma text_of_nil : text_of [] = ([], false).
Proof. done. Qed.

Lemma text_of_cons b r :
  text_of (b :: r) =
  let n := utf8_check_first b in
  if n =? 0 then ([], true)
  else if n =? 1 then let '(t, bad) := text_of r in (b :: t, bad)
  else if Z.of_nat (length (b :: r)) <? n then ([], true)
  else match utf8_check_full (b :: r) n with
       | None => ([], true)
       | Some _ => let '(t, bad) := text_of (drop (Z.to_nat n) (b :: r)) in
                   (take (Z.to_nat n) (b :: r) ++ t, bad)
       end.
Proof.
  unfold text_of. cbn [length decode_text].
  destruct (Z.eqb_spec (utf8_check_first b) 0); [done|].
  destruct (utf8_check_first b =? 1); [done|]. case_if; [done|].
  destruct (utf8_check_full _ _); [|done].
  destruct (Z.to_nat (utf8_check_first b)) eqn:E; [pose proof (check_first_range b); lia|].
  rewrite (decode_text_fuel _ (length (drop (S n0) (b :: r)))); [done| |done].
  cbn [drop]. rewrite length_drop. lia.
Qed.

Lemma text_of_length s : (length (text_of s).1 <= length s)%nat.
Proof.
  unfold text_of. generalize (length s) at 1 as f. intros f. revert s.
  induction f as [|f IH]; intros [|b r]; simpl; try lia.
  destruct (_ =? 0); [simpl; lia|]. destruct (_ =? 1).
  { specialize (IH r). destruct (decode_text f r). simpl in *. lia. }
  case_if; [simpl; lia|]. destruct (utf8_check_full _ _); [|simpl; lia].
  specialize (IH (drop (Z.to_nat (utf8_check_first b)) (b :: r))).
  destruct (decode_text f _). simpl fst in *. rewrite length_app, length_take.
  rewrite length_drop in IH. simpl length in *. lia.
Qed.

(** The bytes that occur in UTF-8 text: never 0xFE or 0xFF, which would read
    as the codes for an error and for EOF. *)
Definition tbyte (b : Z) : Prop := 0 <= b < 0xF8.
Definition tstr (s : bytes) : Prop := Forall (fun b => 0 < b < 0xF8) s.

Lemma tbyte_byte b : tbyte b -> is_byte b.
Proof. unfold tbyte, is_byte. lia. Qed.
Lemma tstr_tbyte s : tstr s -> Forall tbyte s.
Proof. intros H. eapply Forall_impl; [exact H|]. unfold tbyte. simpl. lia. Qed.
#[export] Hint Resolve tbyte_byte tstr_tbyte : ripext.

Lemma check_first_tbyte b : is_byte b -> utf8_check_first b <> 0 -> tbyte b.
Proof.
  intros Hb. unfold utf8_check_first. rewrite uchar_small by done. unfold is_byte, tbyte in *.
  repeat (case_if; try lia).
Qed.

Lemma utf8_cont_range v us x :
  utf8_cont v us = Some x -> Forall (fun u => 0x80 <= u <= 0xBF) us.
Proof.
  revert v. induction us as [|u us IH]; intros v; simpl; [constructor|].
  case_if; [done|]. intros Hc. constructor; [lia|]. by eapply IH.
Qed.

Lemma check_full_range c us junk n x :
  length us = (Z.to_nat n - 1)%nat -> utf8_check_full (c :: us ++ junk) n = Some x -> tstr us.
Proof.
  intros Hl. unfold utf8_check_full. cbv zeta. destruct (if n =? 2 then _ else _) as [v|]; [|done].
  destruct (utf8_cont v _) eqn:Hc; [|done]. intros _. apply utf8_cont_range in Hc.
  replace (map _ _) with us in Hc.
  - eapply Forall_impl; [exact Hc|]. simpl. lia.
  - rewrite <- Hl. clear Hc. apply list_eq. intros i. destruct (us !! i) as [u|] eqn:Hu.
    + rewrite list_lookup_fmap. rewrite lookup_seq_lt by (by eapply lookup_lt_Some). simpl.
      rewrite app_nth1 by (by eapply lookup_lt_Some). by rewrite (nth_lookup_Some _ _ _ u).
    + symmetry. apply lookup_ge_None. rewrite length_map, length_seq. by apply lookup_ge_None.
Qed.

Lemma text_of_tbytes s : Forall is_byte s -> Forall tbyte (text_of s).1.
Proof.
  unfold text_of. generalize (length s) as f. intros f. revert s.
  induction f as [|f IH]; intros [|b r] Hs; simpl; try constructor.
  inversion Hs as [|? ? Hb Hr]; subst. pose proof (check_first_range b) as Hrange.
  destruct (Z.eqb_spec (utf8_check_first b) 0) as [|Hne]; [constructor|].
  pose proof (check_first_tbyte b Hb Hne) as Htb. destruct (Z.eqb_spec (utf8_check_first b) 1) as [|Hne1].
  { specialize (IH r ltac:(done)). destruct (decode_text f r). by constructor. }
  case_if; [constructor|]. destruct (utf8_check_full _ _) eqn:Hfull; [|constructor].
  set (n := utf8_check_first b) in *.
  specialize (IH (drop (Z.to_nat n) (b :: r)) ltac:(by apply Forall_drop)).
  destruct (decode_text f _). simpl fst in *. apply Forall_app. split; [|done].
  replace (Z.to_nat n) with (S (Z.to_nat n - 1)) by lia. simpl. constructor; [done|].
  rewrite <- (take_drop (Z.to_nat n - 1) r) in Hfull. apply tstr_tbyte. eapply check_full_range; [|exact Hfull].
  rewrite length_take. lia.
Qed.

(** Valid UTF-8 is read entirely. *)
Lemma text_of_utf8 s : utf8 s -> text_of s = (s, false).
Proof.
  intros (cps & Hcps & ->). induction Hcps as [|cp cps Hcp Hcps IH]; [done|].
  rewrite encode_cons. pose proof (length_enc_pos cp) as Hl. pose proof (enc_first cp Hcp) as Hf.
  destruct (enc cp) as [|b e] eqn:E; [simpl in Hl; lia|]. cbn [app]. rewrite text_of_cons. cbv zeta.
  cbn [nth] in Hf. rewrite Hf. rewrite (proj2 (Z.eqb_neq _ 0)) by (simpl length in *; lia).
  destruct (Z.eqb_spec (Z.of_nat (length (b :: e))) 1) as [H1|H1].
  - destruct e; [|simpl in H1; lia]. cbn [app]. by rewrite IH.
  - rewrite (proj2 (Z.ltb_ge _ _)) by (rewrite app_comm_cons, length_app; lia).
    change (b :: e ++ encode cps) with ((b :: e) ++ encode cps). rewrite <- E.
    rewrite (enc_check_full cp) by (rewrite ?E; first [done|simpl length in *; lia]).
    rewrite Nat2Z.id, drop_app_length, take_app_length. by rewrite IH.
Qed.

(** ** Filling the buffer *)

Lemma bytes_of_app n input :
  (n <= length (bytes_of input))%nat ->
  exists rest, input = (Some <$> take n (bytes_of input)) ++ rest /\
    bytes_of rest = drop n (bytes_of input).
Proof.
  revert input. induction n as [|n IH]; intros input Hn; [by exists input|].
  destruct input as [|[c|] input]; simpl in *; try lia.
  destruct (IH input) as (rest & E & Hr); [lia|]. exists rest. split; [by f_equal|done].
Qed.

(** What [fill_buffer] reads is [fill n input]. *)
Fixpoint fill (n : nat) (input : list (option Z)) : bytes :=
  match n with
  | O => []
  | S n' => let '(c, input') := source_get input in default 255 c :: fill n' input'
  end.
Definition after (n : nat) (input : list (option Z)) : list (option Z) := drop n input.

Lemma fill_buffer_eq n i input buffer :
  (i + n <= length buffer)%nat ->
  fill_buffer n i input buffer =
  (after n input, take i buffer ++ fill n input ++ drop (i + n) buffer).
Proof.
  revert i input buffer. induction n as [|n IH]; intros i input buffer Hlen; cbn [fill_buffer fill].
  - rewrite Nat.add_0_r. unfold after. by rewrite drop_0, app_nil_l, take_drop.
  - destruct (source_get input) as [c input'] eqn:E. rewrite IH by (rewrite length_insert; lia).
    f_equal.
    + unfold after. destruct input as [|c' input]; simpl in E; injection E as <- <-; [by rewrite drop_nil|done].
    + rewrite (take_S_r _ _ (default 255 c)) by (rewrite list_lookup_insert_eq; [done|lia]).
      rewrite take_insert_ge by lia. rewrite drop_insert_lt by lia.
      rewrite <- (assoc_L app). f_equal. cbn [app]. f_equal. f_equal. f_equal. lia.
Qed.

Lemma length_fill n input : length (fill n input) = n.
Proof.
  revert input. induction n as [|n IH]; intros input; simpl; [done|].
  destruct (source_get input). simpl. by rewrite IH.
Qed.

Lemma fill_enough n input :
  (n <= length (bytes_of input))%nat ->
  fill n input = take n (bytes_of input) /\ bytes_of (after n input) = drop n (bytes_of input).
Proof.
  revert input. induction n as [|n IH]; intros input Hn; [done|].
  destruct input as [|[c|] input]; simpl in *; try lia. destruct (IH input) as [-> ->]; [lia|]. done.
Qed.

Lemma fill_short n input : (length (bytes_of input) < n)%nat -> 255 ∈ fill n input.
Proof.
  revert input. induction n as [|n IH]; intros input Hn; [lia|].
  destruct input as [|[c|] input]; simpl in *; [left|right; apply IH; lia|left].
Qed.

Lemma utf8_cont_255 v us : 255 ∈ us -> utf8_cont v us = None.
Proof.
  revert v. induction us as [|u us IH]; intros v; [by intros ?%elem_of_nil|].
  rewrite elem_of_cons. simpl. intros [<-|H]; [done|]. rewrite (IH _ H). by case_if.
Qed.

Lemma check_full_255 c us junk n :
  length us = (Z.to_nat n - 1)%nat -> 255 ∈ us -> utf8_check_full (c :: us ++ junk) n = None.
Proof.
  intros Hl H. unfold utf8_check_full. cbv zeta. case_match; [|done]. rewrite utf8_cont_255; [done|].
  apply list_elem_of_lookup in H as [i Hi]. apply list_elem_of_In, in_map_iff. exists (S i).
  pose proof (lookup_lt_Some _ _ _ Hi). split.
  - cbn [nth]. rewrite app_nth1 by lia. by apply nth_lookup_Some.
  - apply in_seq. lia.
Qed.

Lemma check_full_ext s s' n :
  (forall i, (i < Z.to_nat n)%nat -> nth i s 0 = nth i s' 0) -> 1 <= n ->
  utf8_check_full s n = utf8_check_full s' n.
Proof.
  intros H Hn. unfold utf8_check_full. cbv zeta. rewrite (H 0%nat) by lia. case_match; [|done].
  rewrite (map_ext_in _ (fun i => nth i s' 0)); [done|].
  intros i Hi%in_seq. apply H. lia.
Qed.

(* ------------------------------------------------------------------ *)
(** ** The stream *)

Definition end_code (bad : bool) : Z := if bad then STREAM_STATE_ERROR else STREAM_STATE_EOF.

(** The stream has the bytes [rest] left. *)
Inductive stream_rel (st : stream_t) (bad : bool) : bytes -> Prop :=
| stream_open unread junk bs :
    s_state st = STREAM_STATE_OK -> length (s_buffer st) = 5%nat ->
    drop (s_pos st) (s_buffer st) = unread ++ 0 :: junk -> tstr unread ->
    Forall is_byte (bytes_of (s_input st)) ->
    text_of (bytes_of (s_input st)) = (bs, bad) ->
    stream_rel st bad (unread ++ bs)
| stream_done :
    s_state st = end_code bad -> stream_rel st bad [].

(** The byte [b] was read last and can be put back. *)
Definition just_read (st : stream_t) (b : Z) : Prop :=
  s_state st = STREAM_STATE_OK /\ tbyte b /\
  exists p, s_pos st = S p /\ s_buffer st !! p = Some b /\ (b = 0 -> s_buffer st !! s_pos st = Some 0).

Lemma stream_rel_fuel st bad rest :
  stream_rel st bad rest -> (length rest < 6 + length (s_input st))%nat.
Proof.
  intros [unread junk bs _ Hl Hd _ _ Ht|_]; [|simpl; lia].
  pose proof (text_of_length (bytes_of (s_input st))) as Hlen. rewrite Ht in Hlen. simpl fst in Hlen.
  assert (length (bytes_of (s_input st)) <= length (s_input st))%nat.
  { clear. induction (s_input st) as [|[c|] i IH]; simpl; lia. }
  apply (f_equal length) in Hd. rewrite length_drop, !length_app in Hd. simpl in Hd.
  rewrite length_app. lia.
Qed.

Lemma stream_rel_bytes st bad rest : stream_rel st bad rest -> Forall tbyte rest.
Proof.
  intros [unread junk bs _ _ _ Hu Hb Ht|_]; [|constructor].
  apply Forall_app. split; [by apply tstr_tbyte|].
  pose proof (text_of_tbytes _ Hb) as H. by rewrite Ht in H.
Qed.

Lemma lookup_of_drop {A} (l : list A) n x r : drop n l = x :: r -> l !! n = Some x.
Proof. intros H. rewrite <- (Nat.add_0_r n), <- lookup_drop. by rewrite H. Qed.
Lemma drop_S_of_drop {A} (l : list A) n x r : drop n l = x :: r -> drop (S n) l = r.
Proof. intros H. replace (S n) with (n + 1)%nat by lia. rewrite <- drop_drop. by rewrite H. Qed.

Lemma end_code_not_ok bad : end_code bad <> STREAM_STATE_OK.
Proof. by destruct bad. Qed.

(* ------------------------------------------------------------------ *)
(** ** Error reports *)

(** An error that was reported stays. *)
Definition err_le (e e' : json_error_ptr) : Prop :=
  match e, e' with
  | None, None => True
  | Some a, Some b => e_text a <> [] -> b = a
  | _, _ => False
  end.
Definition reported (e : json_error_ptr) : Prop :=
  match e with None => True | Some a => e_text a <> [] end.

#[export] Instance err_le_refl : Reflexive err_le.
Proof. by intros [e|]. Qed.
#[export] Instance err_le_trans : Transitive err_le.
Proof.
  intros [a|] [b|] [c|]; simpl; try done. intros H1 H2 Ha. specialize (H1 Ha). subst b. by apply H2.
Qed.

Lemma reported_le e e' : err_le e e' -> reported e -> reported e'.
Proof. destruct e as [a|], e' as [b|]; simpl; try done. intros H Ha. by rewrite (H Ha). Qed.

(** A message that does not start with NUL. *)
Definition nonempty (msg : bytes) : bool :=
  match msg with c :: _ => negb (c =? 0) | [] => false end.

Lemma jsonp_error_set_le e line col pos code text :
  err_le e (jsonp_error_set e line col pos code text) /\
  (nonempty text = true -> reported (jsonp_error_set e line col pos code text)).
Proof.
  destruct e as [e|]; [|done]. unfold jsonp_error_set, jsonp_error_vset. case_if.
  - split; [done|]. intros _. simpl. by apply bool_decide_eq_false in Heqb.
  - apply bool_decide_eq_true in Heqb. split; [by intros Ht|]. destruct text as [|c text]; [done|].
    unfold nonempty. intros Hc. unfold snprintf. simpl. by apply negb_true_iff in Hc as ->.
Qed.

(* ------------------------------------------------------------------ *)
(** ** The lexer's state *)

Record at_ (N : nat) (s : lstate) (rest : bytes) (bad : bool) (saved : bytes) : Prop := {
  at_stream : stream_rel (lx_stream (l_lex s)) bad rest;
  at_saved : sb_ok N (lx_saved (l_lex s)) saved;
  at_bytes : Forall tbyte saved;
  at_oom : w_oom (l_world s) = [];
  at_room : (length saved + length rest <= N)%nat;
  at_limit : Z.of_nat N < 2 ^ 31
}.

Definition lex_inv (N : nat) (s : lstate) : Prop := exists rest bad saved, at_ N s rest bad saved.

(** Everything but the stream, the saved text and the error is as before. *)
Record same (s s' : lstate) : Prop := {
  same_flags : lx_flags (l_lex s') = lx_flags (l_lex s);
  same_depth : lx_depth (l_lex s') = lx_depth (l_lex s);
  same_token : lx_token (l_lex s') = lx_token (l_lex s);
  same_string : lx_string (l_lex s') = lx_string (l_lex s);
  same_world : l_world s' = l_world s;
  same_error : err_le (l_error s) (l_error s')
}.
#[export] Instance same_refl : Reflexive same.
Proof. done. Qed.
#[export] Instance same_trans : Transitive same.
Proof. intros a b c [] []. split; try congruence. by etransitivity. Qed.

(** The lexer is behind the lookahead [c] of [rest], which is saved ([got]) or
    not ([peeked]). *)
Definition peeked (N : nat) (s : lstate) (c : Z) (rest : bytes) (bad : bool) (saved : bytes) : Prop :=
  match rest with
  | [] => c = end_code bad /\ at_ N s [] bad saved
  | b :: r => c = schar b /\ at_ N s r bad saved /\ just_read (lx_stream (l_lex s)) b /\
              (length saved + length rest <= N)%nat
  end.
Definition got (N : nat) (s : lstate) (c : Z) (rest : bytes) (bad : bool) (saved : bytes) : Prop :=
  match rest with
  | [] => c = end_code bad /\ at_ N s [] bad saved
  | b :: r => c = schar b /\ at_ N s r bad (saved ++ [b]) /\ just_read (lx_stream (l_lex s)) b
  end.

Lemma at_rest_bytes N s rest bad saved : at_ N s rest bad saved -> Forall tbyte rest.
Proof. intros H. by eapply stream_rel_bytes, at_stream. Qed.

(** Running code of the allocation monad that does not touch the oracle. *)
Lemma wp_in_alloc {A} (m : AM A) s a (Q : A -> lstate -> Prop) :
  m (w_oom (l_world s)) = inr (a, w_oom (l_world s)) -> Q a s -> wp (in_alloc m) s Q.
Proof.
  intros E HQ. unfold in_alloc, in_world, run_am. rewrite !wp_zoom. eapply wp_eq; [exact E|].
  rewrite set_oom_id. by destruct s.
Qed.

Lemma error_set_spec N s rest bad saved code msg :
  at_ N s rest bad saved -> nonempty msg = true ->
  wp (error_set true code msg) s (fun _ s' =>
    same s s' /\ at_ N s' rest bad saved /\ reported (l_error s') /\ l_lex s' = l_lex s).
Proof.
  intros Hat Hmsg. unfold error_set. wp_step. wp_step. destruct (l_error s) as [e|] eqn:He.
  2:{ rewrite wp_ret, He. done. }
  wp_step.
  set (m := bind get_lex _).
  assert (Hm : wp m s (fun '(_, _, _, _, text) s' => s' = s /\ nonempty text = true)).
  { unfold m. wp_step. unfold get_lex. wp_step. wp_step.
    unfold lift_res, wp at 1. rewrite (strbuffer_value_rep _ saved) by apply (at_saved _ _ _ _ _ Hat).
    assert (Hs : forall t, nonempty (snprintf JSON_ERROR_TEXT_LENGTH (snprintf JSON_ERROR_TEXT_LENGTH msg ++ t)) = true).
    { intros t. unfold snprintf. destruct msg as [|c msg]; [done|]. by simpl in *. }
    assert (Hs0 : nonempty (snprintf JSON_ERROR_TEXT_LENGTH msg) = true).
    { unfold snprintf. destruct msg as [|c msg]; [done|]. by simpl in *. }
    cbv beta iota. destruct (until_nul saved) as [|c t].
    - case_if; rewrite wp_ret; split; auto.
    - case_if; rewrite wp_ret; split; auto. }
  eapply wp_mono; [exact Hm|]. intros [[[[line col] pos] code'] text] s' [-> Ht].
  wp_step. destruct (jsonp_error_set_le (l_error s) line col pos code' text) as [Hle Hrep].
  split; [by split|]. split; [destruct Hat; by split|]. split; [by apply Hrep|done].
Qed.

(* ------------------------------------------------------------------ *)
(** ** Reading and putting back *)

Section reading.
Context (N : nat) (bad : bool) (saved : bytes).

(** What [stream_get] knows about the rest of the state. *)
Definition around (s : lstate) (n : nat) : Prop :=
  sb_ok N (lx_saved (l_lex s)) saved /\ Forall tbyte saved /\ w_oom (l_world s) = [] /\
  (length saved + n <= N)%nat /\ Z.of_nat N < 2 ^ 31.

Lemma stream_next_spec s st b u junk bs :
  around s (length (b :: u ++ bs)) ->
  s_state st = STREAM_STATE_OK -> length (s_buffer st) = 5%nat ->
  drop (s_pos st) (s_buffer st) = b :: u ++ 0 :: junk -> tbyte b -> (b = 0 -> u = []) -> tstr u ->
  Forall is_byte (bytes_of (s_input st)) -> text_of (bytes_of (s_input st)) = (bs, bad) ->
  wp (stream_next st) s (fun c s' => same s s' /\ peeked N s' c (b :: u ++ bs) bad saved).
Proof.
  intros (Hsb & Hsv & Hoom & Hroom & Hlim) Hst Hlen Hd Hb Hb0 Hu Hin Ht. unfold stream_next. wp_step.
  pose proof (lookup_of_drop _ _ _ _ Hd) as Hlk. pose proof (drop_S_of_drop _ _ _ _ Hd) as Hd'.
  unfold stream_advance. rewrite Hlk. cbn [mbind option_bind require]. rewrite wp_ret.
  wp_step. unfold put_stream, upd_lex. wp_step. wp_step. split; [by split|].
  split; [done|]. split; [|split].
  - split; try done.
    + by eapply stream_open.
    + simpl length in Hroom. lia.
  - split; [done|]. split; [done|]. exists (s_pos st). split; [done|]. split; [done|].
    intros ->. rewrite (Hb0 eq_refl) in Hd'. by apply (lookup_of_drop _ _ _ _ Hd').
  - done.
Qed.

Lemma stream_error_spec s st b :
  around s 0 -> bad = true -> s_state st = STREAM_STATE_ERROR ->
  wp (stream_error st b) s (fun c s' => same s s' /\ peeked N s' c [] bad saved).
Proof.
  intros (Hsb & Hsv & Hoom & Hroom & Hlim) Hbad Hst. unfold stream_error, put_stream, upd_lex. wp_steps.
  eapply wp_mono; [apply (error_set_spec N _ [] bad saved)|].
  - split; try done. apply stream_done. simpl. by rewrite Hst, Hbad.
  - done.
  - intros _ s' (Hs & Hat & _). split; [|split; [by rewrite Hbad|done]].
    destruct Hs. by split.
Qed.

(** A byte of the source that was just fetched. *)
Lemma stream_fetch_spec s st c input :
  around s (length (text_of (c :: bytes_of input)).1) ->
  length (s_buffer st) = 5%nat -> is_byte c -> Forall is_byte (bytes_of input) ->
  (text_of (c :: bytes_of input)).2 = bad ->
  s_state st = STREAM_STATE_OK ->
  wp (let buffer := <[0%nat := c]> (s_buffer st) in
      if (0x80 <=? c) && (c <=? 0xFF) then
        let count := utf8_check_first c in
        if count =? 0 then
          stream_error (stream_with st input buffer 0 STREAM_STATE_ERROR) c
        else
          assert_ (2 <=? count) ;;;
          let '(input, buffer) := fill_buffer (Z.to_nat count - 1) 1 input buffer in
          match utf8_check_full buffer count with
          | None => stream_error (stream_with st input buffer 0 STREAM_STATE_ERROR) c
          | Some _ =>
              stream_next (stream_with st input (<[Z.to_nat count := 0]> buffer) 0
                                       STREAM_STATE_OK)
          end
      else stream_next (stream_with st input (<[1%nat := 0]> buffer) 0 STREAM_STATE_OK)) s
     (fun r s' => same s s' /\ peeked N s' r (text_of (c :: bytes_of input)).1 bad saved).
Proof.
  intros Har Hlen Hc Hin Hbad Hst. cbv zeta.
  assert (Har0 : around s 0) by (unfold around in *; intuition lia).
  assert (Hfst : utf8_check_first c = if c <? 0x80 then 1 else utf8_check_first c).
  { unfold utf8_check_first. unfold is_byte in Hc. rewrite uchar_small by lia. by case_if. }
  rewrite text_of_cons in *. cbv zeta in *. destruct (s_buffer st) as [|b0 [|b1 [|b2 [|b3 [|b4 []]]]]] eqn:Hbuf; try done.
  case_if.
  - rewrite (proj2 (Z.ltb_ge c 0x80)) in Hfst by lia.
    destruct (Z.eqb_spec (utf8_check_first c) 0) as [Hn0|Hn0]; [by apply stream_error_spec|].
    assert (Hn1 : utf8_check_first c <> 1).
    { unfold utf8_check_first. rewrite uchar_small by lia. repeat (case_if; try lia). }
    pose proof (check_first_range c) as Hr. rewrite (proj2 (Z.eqb_neq _ 1)) in * by done.
    set (n := utf8_check_first c) in *.
    wp_step. eapply wp_assert; [apply Z.leb_le; lia|].
    rewrite fill_buffer_eq by (simpl; lia). cbn [insert list_insert take app drop Nat.add].
    set (us := fill (Z.to_nat n - 1) input). set (junk := drop (Z.to_nat n - 1) [b1; b2; b3; b4]).
    assert (Hus : length us = (Z.to_nat n - 1)%nat) by apply length_fill.
    destruct (Z.ltb_spec (Z.of_nat (length (c :: bytes_of input))) n) as [Hshort|Hlong].
    { rewrite check_full_255; [|done|apply fill_short; simpl in Hshort; lia]. by apply stream_error_spec. }
    destruct (fill_enough (Z.to_nat n - 1) input) as [Hfill Hafter]; [simpl in Hlong; lia|].
    fold us in Hfill.
    assert (Hs : c :: bytes_of input = c :: us ++ drop (Z.to_nat n - 1) (bytes_of input)).
    { rewrite Hfill. by rewrite take_drop. }
    rewrite (check_full_ext (c :: us ++ junk) (c :: bytes_of input)).
    3:{ lia. }
    2:{ intros i Hi. rewrite Hs. destruct i as [|i]; [done|]. cbn [nth].
        rewrite !app_nth1 by lia. done. }
    destruct (utf8_check_full (c :: bytes_of input) n) as [v|] eqn:Hfull; [|by apply stream_error_spec].
    assert (Htake : take (Z.to_nat n) (c :: bytes_of input) = c :: us).
    { rewrite Hs. replace (Z.to_nat n) with (S (length us)) by lia. simpl. by rewrite take_app_length. }
    assert (Hdrop : drop (Z.to_nat n) (c :: bytes_of input) = bytes_of (after (Z.to_nat n - 1) input)).
    { rewrite Hafter. destruct (Z.to_nat n) eqn:En; [lia|]. simpl. f_equal. lia. }
    rewrite Hdrop, Htake in *.
    destruct (text_of (bytes_of (after (Z.to_nat n - 1) input))) as [bs bad'] eqn:Ht.
    simpl fst in *. simpl snd in *. rewrite Hs in Hfull.
    assert (Hcstr : tstr us) by (by eapply check_full_range).
    apply (stream_next_spec _ _ c us (drop 1 junk)); try done.
    + simpl. rewrite length_insert. simpl. rewrite length_app, Hus. unfold junk.
      rewrite length_drop. simpl. lia.
    + cbn [s_pos s_buffer stream_with]. rewrite drop_0.
      replace (Z.to_nat n) with (S (length us)) by lia. cbn [insert list_insert]. f_equal.
      change (<[length us := 0]> (us ++ junk) = us ++ 0 :: drop 1 junk).
      rewrite insert_app_r_alt, Nat.sub_diag by done. f_equal.
      unfold junk. destruct (Z.to_nat n - 1)%nat as [|[|[|[|]]]] eqn:En; try done. lia.
    + by apply check_first_tbyte.
    + intros ->. lia.
    + simpl. rewrite Hafter. by apply Forall_drop.
    + simpl. rewrite Ht. by rewrite <- Hbad.
  - assert (c < 0x80). { unfold is_byte in Hc. apply andb_false_iff in Heqb as [?|?]; zbool; lia. }
    rewrite Hfst, (proj2 (Z.ltb_lt c 0x80)) in * by done. simpl Z.eqb in *. cbv iota in *.
    destruct (text_of (bytes_of input)) as [bs bad'] eqn:Ht. simpl fst in *. simpl snd in *.
    apply (stream_next_spec _ _ c [] [b2; b3; b4]); try done; [unfold tbyte, is_byte in *; lia|by constructor|].
    simpl. by rewrite Ht, Hbad.
Qed.
End reading.

Lemma stream_get_spec N s rest bad saved :
  at_ N s rest bad saved ->
  wp stream_get s (fun c s' => same s s' /\ peeked N s' c rest bad saved).
Proof.
  intros Hat. unfold stream_get, get_stream. wp_step. wp_step.
  destruct Hat as [Hst Hsb Hsv Hoom Hroom Hlim].
  set (st := lx_stream (l_lex s)) in *.
  destruct Hst as [unread junk bs Hok Hlen Hd Hu Hin Ht|Hend].
  2:{ rewrite Hend. rewrite (proj2 (Z.eqb_neq _ _)) by apply end_code_not_ok. simpl. wp_step.
      split; [done|]. split; [done|]. split; try done. by apply stream_done. }
  rewrite Hok. rewrite Z.eqb_refl. simpl negb. cbv iota. wp_step.
  destruct unread as [|b u]; cbn [app] in *; rewrite (lookup_of_drop _ _ _ _ Hd); cbn [require]; wp_step.
  - rewrite Z.eqb_refl. destruct (s_input st) as [|[c|] input] eqn:Hi; simpl source_get; cbv iota beta.
    + injection Ht as <- <-. unfold put_stream, upd_lex. wp_steps. split; [by split|].
      split; [done|]. split; try done. by apply stream_done.
    + simpl bytes_of in *. replace bs with (text_of (c :: bytes_of input)).1 in * by (by rewrite Ht).
      apply stream_fetch_spec; try done.
      * by inversion Hin.
      * by inversion Hin.
      * by rewrite Ht.
    + injection Ht as <- <-. unfold put_stream, upd_lex. wp_steps. split; [by split|].
      split; [done|]. split; try done. by apply stream_done.
  - inversion Hu as [|? ? Hb Hu']; subst. rewrite (proj2 (Z.eqb_neq b 0)) by lia.
    apply (stream_next_spec N bad saved s st b u junk bs); try done.
    + unfold tbyte. lia.
    + lia.
Qed.

Lemma is_end_code bad : is_end (end_code bad) = true.
Proof. by destruct bad. Qed.

(** Bytes of UTF-8 text are not mistaken for EOF or an error. *)
Lemma is_end_schar b : tbyte b -> is_end (schar b) = false.
Proof.
  unfold tbyte, is_end, STREAM_STATE_EOF, STREAM_STATE_ERROR. intros Hb.
  destruct (Z_lt_le_dec b 128); [rewrite schar_ascii by lia|rewrite schar_high by lia];
    by rewrite !(proj2 (Z.eqb_neq _ _)) by lia.
Qed.

(** Putting the lookahead back: a NUL is lost. *)
Lemma stream_unget_byte s b r bad :
  stream_rel (lx_stream (l_lex s)) bad r -> just_read (lx_stream (l_lex s)) b ->
  wp (stream_unget (schar b)) s (fun _ s' => exists st,
    s' = set_lex (lex_with_stream st (l_lex s)) s /\ stream_rel st bad (drop_nul (b :: r))).
Proof.
  intros Hst (Hok & Hb & p & Hp & Hlk & H0). unfold stream_unget.
  rewrite (is_end_schar b Hb : (_ || _) = false).
  unfold get_stream. wp_step. wp_step. wp_step. rewrite Hp.
  eapply wp_assert; [by apply Nat.ltb_lt; lia|]. simpl Nat.sub. rewrite Nat.sub_0_r.
  unfold put_stream, upd_lex. wp_steps.
  eapply wp_require; [exact Hlk|]. eapply wp_assert; [by apply Z.eqb_refl|].
  eexists. split; [reflexivity|].
  destruct Hst as [unread junk bs _ Hl5 Hd Hu Hin Ht|Hend].
  2:{ rewrite Hok in Hend. by destruct bad. }
  simpl. rewrite Hp in *. destruct (Z.eqb_spec b 0) as [->|Hne].
  - specialize (H0 eq_refl). destruct unread as [|u unread].
    2:{ rewrite (lookup_of_drop _ _ u (unread ++ 0 :: junk)) in H0 by done. injection H0 as ->.
        inversion Hu; lia. }
    apply (stream_open _ _ [] (0 :: junk)); try done. simpl. rewrite (drop_S _ 0 _ Hlk). by rewrite Hd.
  - apply (stream_open _ _ (b :: unread) junk bs); try done.
    + simpl. rewrite (drop_S _ b _ Hlk). by rewrite Hd.
    + constructor; [unfold tbyte in Hb; lia|done].
Qed.

Lemma length_drop_nul s : (length (drop_nul s) <= length s)%nat.
Proof. destruct s; simpl; [done|]. case_if; simpl; lia. Qed.

Lemma lex_unget_spec N s c rest bad saved :
  peeked N s c rest bad saved ->
  wp (lex_unget c) s (fun _ s' => same s s' /\ at_ N s' (drop_nul rest) bad saved).
Proof.
  unfold lex_unget. destruct rest as [|b r].
  { intros [-> Hat]. unfold stream_unget. rewrite (is_end_code bad : (_ || _) = true). done. }
  intros (-> & [Hst Hsb Hsv Hoom Hlen Hlim] & Hjr & Hroom).
  eapply wp_mono; [by apply stream_unget_byte|]. intros _ s' (st & -> & Hst').
  split; [by split|]. split; try done. pose proof (length_drop_nul (b :: r)). lia.
Qed.

Lemma lex_save_spec N s b r bad saved :
  peeked N s (schar b) (b :: r) bad saved ->
  wp (lex_save (schar b)) s (fun _ s' => same s s' /\ got N s' (schar b) (b :: r) bad saved).
Proof.
  intros (_ & [Hst Hsb Hsv Hoom Hlen Hlim] & (Hok & Hb & Hjr) & Hroom). unfold lex_save, get_lex.
  wp_step. wp_step. wp_step.
  destruct (sb_ok_append_byte N _ saved b Hsb) as (sb' & E & Hsb').
  { by apply tbyte_byte. } { simpl in Hroom. lia. } { lia. }
  rewrite <- Hoom in E. eapply wp_in_alloc; [exact E|]. unfold upd_lex. wp_step.
  split; [by split|]. split; [done|]. split; [|by split].
  split; try done.
  - apply Forall_app. by split; [|constructor].
  - rewrite length_app. simpl in *. lia.
Qed.

Lemma peeked_end_got N s c bad saved : peeked N s c [] bad saved -> got N s c [] bad saved.
Proof. done. Qed.

Lemma lex_get_save_spec N s rest bad saved :
  at_ N s rest bad saved ->
  wp lex_get_save s (fun c s' => same s s' /\ got N s' c rest bad saved).
Proof.
  intros Hat. unfold lex_get_save. wp_step.
  eapply wp_mono; [by apply stream_get_spec|]. intros c s1 [Hs1 Hp]. wp_step.
  destruct rest as [|b r].
  - destruct Hp as [-> Hat1]. rewrite is_end_code. wp_steps. done.
  - pose proof Hp as (-> & _ & (_ & Hb & _) & _). rewrite is_end_schar by done.
    eapply wp_mono; [by apply lex_save_spec|]. intros _ s2 [Hs2 Hg]. wp_step.
    split; [by etransitivity|done].
Qed.

Lemma lex_unget_unsave_spec N s c rest bad saved :
  got N s c rest bad saved ->
  wp (lex_unget_unsave c) s (fun _ s' => same s s' /\ at_ N s' (drop_nul rest) bad saved).
Proof.
  unfold lex_unget_unsave. destruct rest as [|b r].
  { intros [-> Hat]. rewrite is_end_code. done. }
  intros (-> & [Hst Hsb Hsv Hoom Hlen Hlim] & Hjr). pose proof Hjr as (_ & Hb & _).
  rewrite is_end_schar by done. wp_step.
  eapply wp_mono; [by apply stream_unget_byte|]. intros _ s' (st & -> & Hst').
  unfold get_lex. wp_step. wp_step. wp_step.
  destruct (sb_ok_pop N _ saved b Hsb) as (sb' & E & Hsb'); [by apply tbyte_byte|].
  rewrite <- Hoom in E. eapply wp_in_alloc; [exact E|]. unfold upd_lex. wp_steps.
  eapply wp_assert; [by apply Z.eqb_refl|]. split; [by split|].
  split; try done.
  - by apply Forall_app in Hsv as [? _].
  - pose proof (length_drop_nul (b :: r)). rewrite length_app in Hlen. simpl in *. lia.
Qed.

(* ------------------------------------------------------------------ *)
(** ** Loops over characters *)

(** A test that depends on the byte only and fails at the end of the input. *)
Definition char_test (test : Z -> bool) : Prop :=
  (forall b, tbyte b -> test (schar b) = test b) /\ test (-1) = false /\ test (-2) = false.

Lemma char_test_intro test :
  (forall c, c < 0 \/ 128 <= c < 256 -> test c = false) -> char_test test.
Proof.
  intros H. split; [|split; apply H; lia]. intros b Hb. unfold tbyte in Hb.
  destruct (Z_lt_le_dec b 128); [by rewrite schar_ascii by lia|].
  rewrite schar_high by lia. rewrite !H by lia. done.
Qed.

Ltac char_test_tac :=
  apply char_test_intro; intros c Hc;
  unfold l_isxdigit, l_isdigit, l_isalpha, l_isupper, l_islower, is_space, is_punct, is_escape, existsb;
  repeat match goal with
  | |- context [chr ?a] => let v := eval vm_compute in (chr a) in change (chr a) with v
  end;
  repeat match goal with
  | |- context [(?a <=? ?b)] => destruct (Z.leb_spec a b); try lia
  | |- context [(?a =? ?b)] => destruct (Z.eqb_spec a b); try lia
  end; done.

Lemma l_isdigit_test : char_test l_isdigit. Proof. char_test_tac. Qed.
Lemma l_isalpha_test : char_test l_isalpha. Proof. char_test_tac. Qed.
Lemma l_isxdigit_test : char_test l_isxdigit. Proof. char_test_tac. Qed.
Lemma is_space_test : char_test is_space. Proof. char_test_tac. Qed.
Lemma is_punct_test : char_test is_punct. Proof. char_test_tac. Qed.
Lemma is_escape_test : char_test is_escape. Proof. char_test_tac. Qed.
Lemma eqb_test k : 0 <= k < 128 -> char_test (fun c => c =? k).
Proof. intros Hk. apply char_test_intro. intros c Hc. apply Z.eqb_neq. lia. Qed.

(** A test on the lookahead. *)
Definition test_head (test : Z -> bool) (rest : bytes) : bool :=
  match rest with b :: _ => test b | [] => false end.

Lemma end_test test bad : char_test test -> test (end_code bad) = false.
Proof. intros (_ & H1 & H2). by destruct bad. Qed.

Lemma peeked_test test N s c rest bad saved :
  char_test test -> peeked N s c rest bad saved -> test c = test_head test rest.
Proof.
  intros Ht. destruct rest as [|b r]; [intros [-> _]; by apply end_test|].
  intros (-> & _ & (_ & Hb & _) & _). by apply Ht.
Qed.
Lemma got_test test N s c rest bad saved :
  char_test test -> got N s c rest bad saved -> test c = test_head test rest.
Proof.
  intros Ht. destruct rest as [|b r]; [intros [-> _]; by apply end_test|].
  intros (-> & _ & (_ & Hb & _)). by apply Ht.
Qed.

(** The lookahead becomes part of the token. *)
Lemma got_next N s c b r bad saved : got N s c (b :: r) bad saved -> at_ N s r bad (saved ++ [b]).
Proof. by intros (_ & ? & _). Qed.
Lemma got_inv N s c rest bad saved : got N s c rest bad saved -> lex_inv N s.
Proof. destruct rest; [intros [_ ?]|intros (_ & ? & _)]; eexists _, _, _; eauto. Qed.
Lemma peeked_inv N s c rest bad saved : peeked N s c rest bad saved -> lex_inv N s.
Proof. destruct rest; [intros [_ ?]|intros (_ & ? & _)]; eexists _, _, _; eauto. Qed.
Lemma at_inv N s rest bad saved : at_ N s rest bad saved -> lex_inv N s.
Proof. intros. by exists rest, bad, saved. Qed.
#[export] Hint Resolve got_inv peeked_inv at_inv : ripext.

Lemma get_save_while_spec test N fuel s rest bad saved :
  char_test test -> at_ N s rest bad saved -> (length rest < fuel)%nat ->
  wp (get_save_while test fuel) s (fun c s' => same s s' /\
    got N s' c (span test rest).2 bad (saved ++ (span test rest).1)).
Proof.
  intros Ht. revert s rest saved. induction fuel as [|fuel IH]; intros s rest saved Hat Hf; [lia|].
  cbn [get_save_while]. wp_step. eapply wp_mono; [by apply lex_get_save_spec|].
  intros c s1 [Hs1 Hg]. rewrite (got_test test _ _ _ _ _ _ Ht Hg).
  destruct rest as [|b r]; simpl test_head; simpl span; cbv iota.
  - wp_step. by rewrite app_nil_r.
  - destruct (test b) eqn:E.
    + apply got_next in Hg. eapply wp_mono; [apply (IH _ r _ Hg); simpl in Hf; lia|].
      intros c' s2 [Hs2 Hg2]. destruct (span test r) as [w r']. simpl in *.
      split; [by etransitivity|]. by rewrite <- (assoc_L app) in Hg2.
    + wp_step. by rewrite app_nil_r.
Qed.

Lemma wp_lex_fuel N s rest bad saved (Q : nat -> lstate -> Prop) :
  at_ N s rest bad saved -> (forall n, (length rest < n)%nat -> Q n s) -> wp lex_fuel s Q.
Proof.
  intros Hat HQ. unfold lex_fuel, get_stream. wp_steps. apply HQ.
  by eapply stream_rel_fuel, at_stream.
Qed.

Lemma scan_while_spec test N s rest bad saved :
  char_test test -> at_ N s rest bad saved ->
  wp (scan_while test) s (fun c s' => same s s' /\
    got N s' c (span test rest).2 bad (saved ++ (span test rest).1)).
Proof.
  intros Ht Hat. unfold scan_while. wp_step. eapply wp_lex_fuel; [exact Hat|].
  intros n Hn. by apply get_save_while_spec.
Qed.

Lemma skip_space_spec N fuel s rest bad saved :
  at_ N s rest bad saved -> (length rest < fuel)%nat ->
  wp (skip_space fuel) s (fun c s' => same s s' /\ peeked N s' c (span is_space rest).2 bad saved).
Proof.
  revert s rest. induction fuel as [|fuel IH]; intros s rest Hat Hf; [lia|].
  cbn [skip_space]. wp_step. eapply wp_mono; [by apply stream_get_spec|].
  intros c s1 [Hs1 Hp]. rewrite (peeked_test is_space _ _ _ _ _ _ is_space_test Hp).
  destruct rest as [|b r]; simpl test_head; simpl span; cbv iota; [by wp_step|].
  destruct (is_space b) eqn:E; [|by wp_step].
  destruct Hp as (_ & Hat1 & _). eapply wp_mono; [apply (IH _ r Hat1); simpl in Hf; lia|].
  intros c' s2 [Hs2 Hp2]. destruct (span is_space r) as [w r']. split; [by etransitivity|done].
Qed.

(** The bytes of an invalid character that are left in the stream's buffer. *)
Lemma lex_save_cached_spec N s rest bad saved fuel :
  at_ N s rest bad saved -> s_state (lx_stream (l_lex s)) = STREAM_STATE_OK ->
  (forall unread junk, drop (s_pos (lx_stream (l_lex s))) (s_buffer (lx_stream (l_lex s))) = unread ++ 0 :: junk ->
     tstr unread -> (length unread < fuel)%nat) ->
  wp (lex_save_cached fuel) s (fun _ s' => same s s' /\ lex_inv N s').
Proof.
  revert s rest saved. induction fuel as [|fuel IH]; intros s rest saved Hat Hok Hfuel.
  { destruct Hat as [[unread junk bs _ _ Hd Hu _ _|Hend] _ _ _ _ _].
    - specialize (Hfuel unread junk Hd Hu). lia.
    - rewrite Hok in Hend. by destruct bad. }
  cbn [lex_save_cached]. unfold get_stream. wp_step. wp_step. wp_step.
  pose proof (at_stream _ _ _ _ _ Hat) as Hst.
  destruct Hst as [unread junk bs _ Hl5 Hd Hu Hin Ht|Hend]; [|rewrite Hok in Hend; by destruct bad].
  destruct unread as [|b u]; cbn [app] in Hd.
  { eapply wp_require; [by apply (lookup_of_drop _ _ _ _ Hd)|]. rewrite Z.eqb_refl. wp_step.
    split; [done|]. by eapply at_inv. }
  eapply wp_require; [by apply (lookup_of_drop _ _ _ _ Hd)|].
  inversion Hu as [|? ? Hb Hu']; subst. rewrite (proj2 (Z.eqb_neq b 0)) by lia. wp_step.
  destruct Hat as [_ Hsb Hsv Hoom Hlen Hlim]. unfold lex_save, get_lex. wp_step. wp_step. wp_step.
  destruct (sb_ok_append_byte N _ saved b Hsb) as (sb' & E & Hsb').
  { unfold is_byte. lia. } { simpl in Hlen. lia. } { lia. }
  rewrite <- Hoom in E. eapply wp_in_alloc; [exact E|]. unfold upd_lex. wp_steps.
  unfold get_stream, put_stream, upd_lex. wp_steps.
  eapply wp_mono; [apply (IH _ (u ++ bs) (saved ++ [b]))|].
  - split; try done; simpl.
    + apply (stream_open _ _ u junk); try done. simpl. by apply (drop_S_of_drop _ _ _ _ Hd).
    + apply Forall_app. split; [done|]. constructor; [unfold tbyte; lia|done].
    + rewrite length_app. simpl in *. lia.
  - done.
  - simpl. intros u' junk' Hd' Hu''. rewrite (drop_S_of_drop _ _ _ _ Hd) in Hd'.
    specialize (Hfuel (b :: u') junk'). simpl in Hfuel. rewrite Hd, Hd' in Hfuel.
    apply Nat.succ_lt_mono. apply Hfuel; [done|]. by constructor.
  - intros _ s' [Hs Hinv]. split; [|done]. destruct Hs. by split.
Qed.
