(* ===== verification/Lexer.v ===== *)
(** * The lexer refines the reference tokens

    [lex_scan] and what it calls: on every input, the lexer reads the token
    that [ref_scan] describes, leaves the stream in front of the rest, and
    never fails an assertion or touches memory it does not own. *)

From Stdlib Require Import SpecFloat.
From S2P Require Import Prelude Utf8 Strbuffer Hashtable Value Error Strconv Load Grammar Stream.

(* ------------------------------------------------------------------ *)
(** ** Strings: the first pass *)

Definition is_control (c : Z) : bool := (0 <=? c) && (c <=? 0x1F).
Lemma is_control_head N s c b r bad saved :
  got N s c (b :: r) bad saved -> is_control c = (b <=? 0x1F).
Proof.
  intros (-> & _ & (_ & Hb & _)). unfold is_control, tbyte in *.
  destruct (Z_lt_le_dec b 128).
  - rewrite schar_ascii by lia. by rewrite (proj2 (Z.leb_le 0 b)) by lia.
  - rewrite schar_high by lia. rewrite (proj2 (Z.leb_gt 0 _)) by lia. symmetry. apply Z.leb_gt. lia.
Qed.

(** [n] hexadecimal digits. *)
Definition hexn (n : nat) (s : bytes) : bool :=
  (n <=? length s)%nat && forallb l_isxdigit (take n s).

Lemma hexn_cons n b r : hexn (S n) (b :: r) = l_isxdigit b && hexn n r.
Proof. unfold hexn. simpl. destruct (l_isxdigit b); simpl; [done|]. by rewrite andb_false_r. Qed.

Lemma scan_hex4_spec N n s c rest bad saved :
  got N s c rest bad saved ->
  wp (scan_hex4 n c) s (fun '(ok, c') s' => same s s' /\
    if hexn n rest then ok = true /\ got N s' c' (drop n rest) bad (saved ++ take n rest)
    else ok = false /\ lex_inv N s').
Proof.
  revert s c rest saved. induction n as [|n IH]; intros s c rest saved Hg; cbn [scan_hex4].
  { wp_step. simpl. by rewrite drop_0, take_0, app_nil_r. }
  rewrite (got_test _ _ _ _ _ _ _ l_isxdigit_test Hg).
  destruct rest as [|b r].
  { simpl. wp_step. destruct Hg as [_ Hat]. eapply wp_mono; [by apply (error_set_spec N _ _ _ _ _ _ Hat)|].
    intros _ s' (Hs & Hat' & _). wp_step. split; [done|]. split; [done|]. by eapply at_inv. }
  rewrite hexn_cons. simpl test_head. apply got_next in Hg. destruct (l_isxdigit b); simpl negb; simpl andb; cbv iota.
  - wp_step. eapply wp_mono; [by apply lex_get_save_spec|]. intros c' s1 [Hs1 Hg1].
    eapply wp_mono; [by apply IH|]. intros [ok c''] s2 [Hs2 H]. split; [by etransitivity|].
    simpl. by rewrite <- (assoc_L app) in H.
  - wp_step. eapply wp_mono; [by apply (error_set_spec N _ _ _ _ _ _ Hg)|].
    intros _ s' (Hs & Hat' & _). wp_step. split; [done|]. split; [done|]. by eapply at_inv.
Qed.

(** What the first pass establishes. *)
Definition string_post (N : nat) (s : lstate) (rest : bytes) (bad : bool) (saved : bytes)
    (ok : bool) (s' : lstate) : Prop :=
  same s s' /\
  match string_items rest with
  | Some (is_, t) => ok = true /\ at_ N s' t bad (saved ++ items_text is_ ++ [chr "034"])
  | None => ok = false /\ lex_inv N s'
  end.

(** Behind an item. *)
Lemma string_post_item N s s1 rest r bad saved ok s' i :
  same s s1 -> string_post N s1 r bad (saved ++ item_text i) ok s' ->
  string_items rest = ('(is_, t) ← string_items r; Some (i :: is_, t)) ->
  string_post N s rest bad saved ok s'.
Proof.
  intros Hs [Hs' H] E. split; [by etransitivity|]. rewrite E.
  destruct (string_items r) as [[is_ t]|]; simpl; [|done].
  destruct H as [-> H]. split; [done|]. unfold items_text in *. rewrite fmap_cons. simpl mjoin.
  by rewrite <- !(assoc_L app) in *.
Qed.

Lemma string_post_error N s s1 rest bad saved code msg r1 b1 sv1 :
  same s s1 -> at_ N s1 r1 b1 sv1 -> nonempty msg = true -> string_items rest = None ->
  wp (error_set true code msg ;;; ret false) s1 (string_post N s rest bad saved).
Proof.
  intros Hs Hat Hm E. wp_step. eapply wp_mono; [by apply (error_set_spec N _ _ _ _ _ _ Hat)|].
  intros _ s' (Hs' & Hat' & _). wp_step. split; [by etransitivity|]. rewrite E.
  split; [done|]. by eapply at_inv.
Qed.

Lemma string_post_fail N s s' rest bad saved :
  same s s' -> lex_inv N s' -> string_items rest = None -> string_post N s rest bad saved false s'.
Proof. intros Hs Hi E. split; [done|]. by rewrite E. Qed.

(** Behind a backslash. *)
Lemma scan_escape_spec N fuel s rest bad saved :
  (forall s c rest saved, got N s c rest bad saved -> (length rest < fuel)%nat ->
     wp (scan_string_loop fuel c) s (string_post N s rest bad saved)) ->
  (length rest < fuel)%nat -> at_ N s rest bad (saved ++ [chr "\"]) ->
  wp (let* c := lex_get_save in
      if c =? chr "u" then
        let* c := lex_get_save in
        let* (ok, c) := scan_hex4 4 c in
        if ok then scan_string_loop fuel c else ret false
      else if is_escape c then
        let* c := lex_get_save in scan_string_loop fuel c
      else
        error_set true json_error_invalid_syntax (lit "invalid escape") ;;;
        ret false) s (string_post N s (chr "\" :: rest) bad saved).
Proof.
  intros IH Hf Hat. wp_step. eapply wp_mono; [by apply lex_get_save_spec|]. intros c s1 [Hs1 Hg].
  rewrite (got_test _ _ _ _ _ _ _ (eqb_test (chr "u") ltac:(done)) Hg).
  rewrite (got_test _ _ _ _ _ _ _ is_escape_test Hg).
  destruct rest as [|e r].
  { simpl. destruct Hg as [_ Hat1]. by eapply string_post_error. }
  simpl test_head. apply got_next in Hg. rewrite <- (assoc_L app) in Hg. cbn [app] in Hg.
  destruct (Z.eqb_spec e (chr "u")) as [->|Hne].
  - wp_step. eapply wp_mono; [by apply lex_get_save_spec|]. intros c2 s2 [Hs2 Hg2].
    wp_step. eapply wp_mono; [by apply scan_hex4_spec|]. intros [ok c3] s3 [Hs3 H].
    assert (Hs : same s s3) by (etransitivity; [exact Hs1|]; by etransitivity).
    assert (E : string_items (chr "\" :: chr "u" :: r) =
       if hexn 4 r then match r with
         h1 :: h2 :: h3 :: h4 :: r2 => '(is_, t) ← string_items r2; Some (IUnicode h1 h2 h3 h4 :: is_, t)
         | _ => None end else None).
    { destruct r as [|h1 [|h2 [|h3 [|h4 r]]]]; try (cbn [string_items]; simpl; by destruct (hexn _ _)).
      rewrite !hexn_cons. change (hexn 0 r) with true. rewrite andb_true_r, !andb_assoc.
      cbn [string_items]. simpl. done. }
    destruct (hexn 4 r) eqn:Hx; destruct H as [-> H].
    + destruct r as [|h1 [|h2 [|h3 [|h4 r]]]]; try (unfold hexn in Hx; done).
      change (drop 4 _) with r in H. change (take 4 _) with [h1; h2; h3; h4] in H.
      eapply wp_mono; [apply IH; [exact H|simpl in Hf; lia]|]. intros ok s4 H4.
      eapply string_post_item; [exact Hs| |exact E]. by rewrite <- (assoc_L app) in H4.
    + wp_step. by apply string_post_fail.
  - destruct (is_escape e) eqn:He.
    + wp_step. eapply wp_mono; [by apply lex_get_save_spec|]. intros c2 s2 [Hs2 Hg2].
      eapply wp_mono; [apply IH; [exact Hg2|simpl in Hf; lia]|]. intros ok s3 H3.
      eapply (string_post_item _ _ s2 _ r _ _ _ _ (IEscape e)); [by etransitivity|done|].
      cbn [string_items]. simpl. rewrite (proj2 (Z.eqb_neq _ _) Hne). by rewrite He.
    + eapply string_post_error; [done|exact Hg|done|].
      cbn [string_items]. simpl. rewrite (proj2 (Z.eqb_neq _ _) Hne). by rewrite He.
Qed.

Lemma scan_string_loop_spec N fuel s c rest bad saved :
  got N s c rest bad saved -> (length rest < fuel)%nat ->
  wp (scan_string_loop fuel c) s (string_post N s rest bad saved).
Proof.
  revert s c rest saved. induction fuel as [|fuel IH]; intros s c rest saved Hg Hf; [lia|].
  cbn [scan_string_loop].
  rewrite (got_test _ _ _ _ _ _ _ (eqb_test (chr "034") ltac:(done)) Hg).
  rewrite (got_test _ _ _ _ _ _ _ (eqb_test (chr "\") ltac:(done)) Hg).
  destruct rest as [|b r].
  { simpl. destruct Hg as [-> Hat]. destruct bad; simpl.
    - wp_step. apply string_post_fail; [done|by eapply at_inv|done].
    - by eapply string_post_error. }
  simpl test_head. pose proof Hg as (Hc & Hat & _ & Hb & _).
  pose proof (is_end_schar b Hb) as He. unfold is_end in He. rewrite <- Hc in He.
  apply orb_false_iff in He as [He1 He2]. pose proof (is_control_head _ _ _ _ _ _ _ Hg) as Hctl.
  destruct (Z.eqb_spec b (chr "034")) as [->|Hq].
  { wp_step. split; [done|]. cbn [string_items]. simpl. split; [done|]. exact Hat. }
  rewrite He1, He2. fold (is_control c). rewrite Hctl.
  assert (E : string_items (b :: r) = if b <=? 0x1F then None else if b =? chr "\" then string_items (b :: r)
              else '(is_, t) ← string_items r; Some (IByte b :: is_, t)).
  { cbn [string_items]. rewrite (proj2 (Z.eqb_neq _ _) Hq). destruct (b <=? 0x1F); [done|].
    by destruct (b =? chr "\"). }
  destruct (Z.leb_spec b 0x1F) as [Hlow|Hhigh].
  { wp_step. eapply wp_mono; [by apply lex_unget_unsave_spec|]. intros _ s1 [Hs1 Hat1].
    wp_step. set (m := if c =? _ then _ else _).
    assert (Hm : wp m s1 (fun _ s' => same s1 s' /\ lex_inv N s')).
    { unfold m. destruct (c =? chr "010"); (eapply wp_mono; [by apply (error_set_spec N _ _ _ _ _ _ Hat1)|]);
        intros _ s' (Hs' & Hat' & _); split; try done; by eapply at_inv. }
    eapply wp_mono; [exact Hm|]. intros _ s2 [Hs2 Hi]. wp_step.
    apply string_post_fail; [by etransitivity|done|done]. }
  destruct (Z.eqb_spec b (chr "\")) as [->|Hbs].
  - eapply scan_escape_spec; [exact IH|simpl in Hf; lia|exact Hat].
  - wp_step. eapply wp_mono; [by apply lex_get_save_spec|]. intros c1 s1 [Hs1 Hg1].
    eapply wp_mono; [apply IH; [exact Hg1|simpl in Hf; lia]|]. intros ok s2 H2.
    by eapply (string_post_item _ _ s1 _ r _ _ _ _ (IByte b)).
Qed.

(* ------------------------------------------------------------------ *)
(** ** Strings: the second pass *)

Definition item_ok (i : item) : Prop :=
  match i with
  | IByte c => 0x1F < c < 0xF8 /\ c <> chr "034" /\ c <> chr "\"
  | IEscape e => is_escape e = true
  | IUnicode h1 h2 h3 h4 =>
      l_isxdigit h1 = true /\ l_isxdigit h2 = true /\ l_isxdigit h3 = true /\ l_isxdigit h4 = true
  end.

Lemma string_items_ok s is_ t :
  Forall tbyte s -> string_items s = Some (is_, t) -> Forall item_ok is_ /\ Forall tbyte t.
Proof.
  remember (length s) as n eqn:Hn. revert s is_ t Hn.
  induction (lt_wf n) as [n _ IH]. intros s is_ t -> Hs. destruct s as [|c r]; [done|].
  inversion Hs as [|? ? Hc Hr]; subst. cbn [string_items].
  destruct (Z.eqb_spec c (chr "034")) as [Hq|Hq]; [by intros [= <- <-]|].
  destruct (Z.leb_spec c 0x1F) as [Hl|Hl]; [done|].
  destruct (Z.eqb_spec c (chr "\")) as [Hbs|Hbs].
  - destruct r as [|e r]; [done|]. inversion Hr; subst. destruct (e =? chr "u").
    + destruct r as [|h1 [|h2 [|h3 [|h4 r]]]]; try done. case_if; [|done].
      destruct (string_items r) as [[is' t']|] eqn:E; [|done]. intros [= <- <-].
      destruct (IH (length r) ltac:(simpl; lia) r is' t') as [? ?]; try done.
      { by do 4 (match goal with H : Forall tbyte (_ :: _) |- _ => inversion H; clear H; subst end). }
      split; [|done]. constructor; [|done]. simpl. naive_solver.
    + destruct (is_escape e) eqn:He; [|done].
      destruct (string_items r) as [[is' t']|] eqn:E; [|done]. intros [= <- <-].
      destruct (IH (length r) ltac:(simpl; lia) r is' t') as [? ?]; try done. split; [|done]. by constructor.
  - destruct (string_items r) as [[is' t']|] eqn:E; [|done]. intros [= <- <-].
    destruct (IH (length r) ltac:(simpl; lia) r is' t') as [? ?]; try done. split; [|done].
    constructor; [|done]. unfold tbyte in Hc. simpl. lia.
Qed.

Lemma xdigit_range h : l_isxdigit h = true -> 48 <= h < 128 /\ 0 <= hex_value h < 16.
Proof.
  unfold l_isxdigit, hex_value, l_isdigit, l_islower.
  repeat match goal with
  | |- context [chr ?a] => let v := eval vm_compute in (chr a) in change (chr a) with v
  end.
  repeat match goal with
  | |- context [(?a <=? ?b)] => destruct (Z.leb_spec a b); try lia
  end; simpl; try done; lia.
Qed.

Lemma decode_hex_step n value h r :
  l_isxdigit h = true ->
  decode_hex (S n) value (h :: r) = decode_hex n (value * 16 + hex_value h) r.
Proof.
  intros Hh. pose proof (xdigit_range h Hh). cbn [decode_hex peek]. rewrite schar_ascii by lia.
  rewrite Z.shiftl_mul_pow2 by done. change (2 ^ 4) with 16. cbn [drop]. unfold hex_value.
  destruct (l_isdigit h) eqn:Hd; [done|]. destruct (l_islower h) eqn:Hl; [done|].
  replace (l_isupper h) with true; [done|]. symmetry. revert Hh Hd Hl.
  unfold l_isxdigit, l_isdigit, l_islower, l_isupper.
  repeat match goal with
  | |- context [chr ?a] => let v := eval vm_compute in (chr a) in change (chr a) with v
  end.
  repeat match goal with
  | |- context [(?a <=? ?b)] => destruct (Z.leb_spec a b); try lia
  end; simpl; try done; lia.
Qed.

Lemma decode_escape_spec h1 h2 h3 h4 r :
  item_ok (IUnicode h1 h2 h3 h4) ->
  decode_unicode_escape (chr "u" :: h1 :: h2 :: h3 :: h4 :: r) = inr (hex4 h1 h2 h3 h4).
Proof.
  intros (H1 & H2 & H3 & H4). unfold decode_unicode_escape. simpl peek.
  change (schar (chr "u") =? chr "u") with true. cbv iota. cbn [drop].
  by rewrite !decode_hex_step.
Qed.

Lemma hex4_range h1 h2 h3 h4 : item_ok (IUnicode h1 h2 h3 h4) -> 0 <= hex4 h1 h2 h3 h4 <= 0xFFFF.
Proof.
  intros (H1 & H2 & H3 & H4). apply xdigit_range in H1, H2, H3, H4. unfold hex4. lia.
Qed.

(** The first character of what is left tells the item. *)
Lemma item_head i is_ : item_ok i ->
  exists c r, items_text (i :: is_) = c :: r /\ c <> chr "034" /\ 0 < c < 256.
Proof.
  destruct i; simpl; intros H; unfold items_text; rewrite fmap_cons; simpl.
  - eexists _, _. split; [done|]. lia.
  - eexists _, _. split; [done|]. done.
  - eexists _, _. split; [done|]. done.
Qed.

Lemma items_text_cons i is_ : items_text (i :: is_) = item_text i ++ items_text is_.
Proof. done. Qed.

(** A target that holds [out]. *)
Definition target_ok (t : target) (out : bytes) (room : nat) : Prop :=
  t.2 = length out /\ take (length out) t.1 = Some <$> out /\ (length out + room <= length t.1)%nat.

Lemma write_target_ok t out room bs :
  target_ok t out (length bs + room) ->
  exists t', write_target t bs = Some t' /\ target_ok t' (out ++ bs) room /\ length t'.1 = length t.1.
Proof.
  destruct t as [blk off]. intros (Hoff & Ht & Hr). simpl in *. subst off. unfold write_target. simpl.
  destruct (mem_store blk (length out) bs) as [blk'|] eqn:E;
    [|rewrite mem_store_ok in E by lia; done].
  simpl. eexists. split; [done|]. pose proof (length_mem_store _ _ _ _ E).
  split; [|done]. split; simpl; rewrite ?length_app; [done|]. split; [|lia].
  rewrite (mem_store_prefix _ _ _ _ E), Ht. by rewrite fmap_app.
Qed.

Lemma advance_app n (a b : bytes) : length a = n -> advance n (a ++ b) = Some b.
Proof.
  intros <-. unfold advance. rewrite decide_True by (rewrite length_app; lia).
  by rewrite drop_app_length.
Qed.

(** The code points of a unicode escape, possibly a surrogate pair. *)
Definition escape_post (N : nat) (s : lstate) (rest : bytes) (bad : bool) (saved : bytes)
    (h1 h2 h3 h4 : Z) (is_ : list item) (r : option (Z * bytes)) (s' : lstate) : Prop :=
  same s s' /\ at_ N s' rest bad saved /\
  let v := hex4 h1 h2 h3 h4 in
  match r with
  | Some (value, p) => 0 <= value <= 0x10FFFF /\
      exists is', Forall item_ok is' /\ p = items_text is' ++ [chr "034"] /\
        (length is' <= length is_)%nat /\
        (length (enc value) + length (items_text is') <= 6 + length (items_text is_))%nat /\
        decode_items (IUnicode h1 h2 h3 h4 :: is_) = (s ← decode_items is'; Some (enc value ++ s))
  | None => decode_items (IUnicode h1 h2 h3 h4 :: is_) = None
  end.

Lemma enc_length_3 v : v < 0x10000 -> (length (enc v) <= 3)%nat.
Proof. intros Hv. unfold enc. repeat case_if; simpl; lia. Qed.

Lemma peek_quote : peek [chr "034"] = chr "034".
Proof. done. Qed.

Lemma unescape_unicode_spec N s rest bad saved h1 h2 h3 h4 is_ :
  at_ N s rest bad saved -> item_ok (IUnicode h1 h2 h3 h4) -> Forall item_ok is_ ->
  wp (unescape_unicode (chr "u" :: h1 :: h2 :: h3 :: h4 :: items_text is_ ++ [chr "034"])) s
    (escape_post N s rest bad saved h1 h2 h3 h4 is_).
Proof.
  intros Hat Hok His. unfold unescape_unicode. cbv zeta. wp_step.
  eapply wp_lift_res; [by apply decode_escape_spec|]. pose proof (hex4_range _ _ _ _ Hok) as Hv.
  rewrite (proj2 (Z.ltb_ge _ _)) by lia. set (v := hex4 h1 h2 h3 h4) in *.
  assert (Hbad : forall code msg, nonempty msg = true ->
    decode_items (IUnicode h1 h2 h3 h4 :: is_) = None ->
    wp (error_set true code msg ;;; ret None) s (escape_post N s rest bad saved h1 h2 h3 h4 is_)).
  { intros code msg Hm E. wp_step. eapply wp_mono; [by apply (error_set_spec N _ _ _ _ _ _ Hat)|].
    intros _ s' (Hs & Hat' & _). by wp_step. }
  wp_step. change (chr "u" :: h1 :: h2 :: h3 :: h4 :: items_text is_ ++ [chr "034"])
    with ([chr "u"; h1; h2; h3; h4] ++ items_text is_ ++ [chr "034"]).
  rewrite (advance_app 5) by done. cbn [require]. wp_step. fold (is_high v) (is_low v).
  destruct (is_high v) eqn:Hh.
  - destruct is_ as [|i is_].
    { apply Hbad; [done|]. cbn [decode_items]. fold v. by rewrite Hh. }
    inversion His as [|? ? Hi His']; subst.
    destruct i as [c|e|g1 g2 g3 g4].
    + assert (E : (peek (items_text (IByte c :: is_) ++ [chr "034"]) =? chr "\") = false).
      { simpl. apply Z.eqb_neq. simpl in Hi. destruct (Z_lt_le_dec c 128).
        - rewrite schar_ascii by lia. lia.
        - rewrite schar_high by lia. change (chr "\") with 92. lia. }
      rewrite E. apply Hbad; [done|]. cbn [decode_items]. fold v. by rewrite Hh.
    + assert (E : (peek (drop 1 (items_text (IEscape e :: is_) ++ [chr "034"])) =? chr "u") = false).
      { simpl. simpl in Hi. apply Z.eqb_neq. intros E.
        assert (is_escape (schar e) = true) as He.
        { unfold is_escape in Hi. apply existsb_exists in Hi as (x & Hx & <-%Z.eqb_eq).
          repeat (destruct Hx as [<-|Hx]; [done|]). done. }
        by rewrite E in He. }
      rewrite E, andb_false_r. apply Hbad; [done|]. cbn [decode_items]. fold v. by rewrite Hh.
    + assert (E : (peek (items_text (IUnicode g1 g2 g3 g4 :: is_) ++ [chr "034"]) =? chr "\") &&
                  (peek (drop 1 (items_text (IUnicode g1 g2 g3 g4 :: is_) ++ [chr "034"])) =? chr "u") = true) by done.
      rewrite E. rewrite items_text_cons, <- (assoc_L app).
      change (item_text (IUnicode g1 g2 g3 g4)) with ([chr "\"] ++ [chr "u"; g1; g2; g3; g4]).
      rewrite <- (assoc_L app). rewrite (advance_app 1) by done. wp_step. cbn [require]. wp_step. wp_step.
      eapply wp_lift_res; [by apply decode_escape_spec|]. pose proof (hex4_range _ _ _ _ Hi) as Hv2.
      rewrite (proj2 (Z.ltb_ge _ _)) by lia. set (v2 := hex4 g1 g2 g3 g4) in *.
      wp_step. rewrite (advance_app 5) by done. cbn [require]. wp_step. fold (is_low v2).
      destruct (is_low v2) eqn:Hl2.
      2:{ apply Hbad; [done|]. cbn [decode_items]. fold v v2. by rewrite Hh, Hl2. }
      wp_step. split; [done|]. split; [done|]. rewrite Z.shiftl_mul_pow2 by done. change (2 ^ 10) with 1024.
      unfold is_high, is_low in Hh, Hl2. zbool. split; [lia|]. exists is_. split_and!; try done.
      * simpl. lia.
      * pose proof (length_enc_pos ((v - 55296) * 1024 + (v2 - 56320) + 65536)).
        rewrite items_text_cons, length_app. simpl length. lia.
      * cbn [decode_items]. fold v v2. unfold is_high, is_low.
        rewrite !(proj2 (Z.leb_le _ _)) by lia. done.
  - destruct (is_low v) eqn:Hl.
    + apply Hbad; [done|]. cbn [decode_items]. fold v. by rewrite Hh, Hl.
    + wp_step. split; [done|]. split; [done|]. split; [lia|]. exists is_. split_and!; try done.
      * pose proof (enc_length_3 v). lia.
      * cbn [decode_items]. fold v. by rewrite Hh, Hl.
Qed.

Lemma peek_head c r : 0 <= c < 128 -> peek (c :: r) = c.
Proof. intros. simpl. by apply schar_ascii. Qed.

Lemma peek_app c r : 0 <= c < 128 -> peek ([c] ++ r) = c.
Proof. apply peek_head. Qed.

Lemma short_escape_ok e : is_escape e = true -> 0 < e < 128 /\ exists c, short_escape e = Some c.
Proof.
  unfold is_escape. intros (x & Hx & <-%Z.eqb_eq)%existsb_exists.
  repeat (destruct Hx as [<-|Hx]; [split; [done|by eexists]|]). done.
Qed.
Lemma is_escape_not_u e : is_escape e = true -> (e =? chr "u") = false.
Proof.
  unfold is_escape. intros (x & Hx & <-%Z.eqb_eq)%existsb_exists.
  by repeat (destruct Hx as [<-|Hx]; [done|]).
Qed.

(** What the second pass does from the items [is_] on. *)
Definition unescape_post (N : nat) (s : lstate) (rest : bytes) (bad : bool) (saved : bytes)
    (is_ : list item) (out : bytes) (t : target) (r : option target) (s' : lstate) : Prop :=
  same s s' /\ at_ N s' rest bad saved /\
  match decode_items is_ with
  | Some bs => exists t', r = Some t' /\ target_ok t' (out ++ bs) 1 /\ length t'.1 = length t.1
  | None => r = None
  end.

Lemma unescape_post_step N s s1 rest bad saved is_ is' out t t1 bs r s' :
  same s s1 -> length t1.1 = length t.1 ->
  unescape_post N s1 rest bad saved is' (out ++ bs) t1 r s' ->
  decode_items is_ = (s ← decode_items is'; Some (bs ++ s)) ->
  unescape_post N s rest bad saved is_ out t r s'.
Proof.
  intros Hs Hl (Hs' & Hat & H) E. split; [by etransitivity|]. split; [done|]. rewrite E.
  destruct (decode_items is') as [bs'|]; simpl; [|done].
  destruct H as (t' & -> & Ht & Hl'). exists t'. rewrite <- (assoc_L app) in Ht. split_and!; [done|done|congruence].
Qed.

Lemma unescape_loop_spec N fuel s rest bad saved is_ out t :
  at_ N s rest bad saved -> Forall item_ok is_ -> (length is_ <= fuel)%nat ->
  target_ok t out (length (items_text is_) + 1) ->
  wp (unescape_loop fuel (items_text is_ ++ [chr "034"]) t) s
     (unescape_post N s rest bad saved is_ out t).
Proof.
  revert s is_ out t. induction fuel as [|fuel IH]; intros s is_ out t Hat His Hf Ht.
  { destruct is_; [|simpl in Hf; lia]. cbn [unescape_loop].
    change (peek (items_text [] ++ [chr "034"]) =? chr "034") with true. cbv iota.
    wp_step. split; [done|]. split; [done|]. exists t. by rewrite app_nil_r. }
  destruct His as [|i is_ Hi His].
  { cbn [unescape_loop]. change (peek (items_text [] ++ [chr "034"]) =? chr "034") with true. cbv iota.
    wp_step. split; [done|]. split; [done|]. exists t. by rewrite app_nil_r. }
  simpl in Hf. cbn [unescape_loop]. rewrite items_text_cons, <- (assoc_L app) in *. rewrite length_app in Ht.
  destruct i as [c|e|h1 h2 h3 h4].
  - (* a plain byte *)
    change (item_text (IByte c)) with [c] in *. simpl in Hi.
    assert (Hp : forall k, 0 <= k < 128 -> k <> c -> (peek ([c] ++ items_text is_ ++ [chr "034"]) =? k) = false).
    { intros k Hk Hne. apply Z.eqb_neq. simpl. destruct (Z_lt_le_dec c 128);
        [rewrite schar_ascii by lia|rewrite schar_high by lia]; lia. }
    rewrite (Hp (chr "034")), (Hp (chr "\")) by (done || naive_solver). wp_step.
    change (peek ([c] ++ items_text is_ ++ [chr "034"])) with (schar c). rewrite uchar_schar by lia.
    destruct (write_target_ok t out (length (items_text is_) + 1) [c]) as (t1 & E1 & Ht1 & Hl1); [done|].
    eapply wp_require; [exact E1|]. wp_step. rewrite (advance_app 1) by done. cbn [require]. wp_step.
    eapply wp_mono; [by apply IH; [..|lia|]|]. intros r s' H.
    by eapply (unescape_post_step _ _ s _ _ _ _ _ _ _ t1 [c]).
  - (* a short escape *)
    change (item_text (IEscape e)) with ([chr "\"] ++ [e]) in *. rewrite <- (assoc_L app). simpl in Hi.
    destruct (short_escape_ok e Hi) as [He [c Hc]].
    rewrite peek_app by done. change (chr "\" =? chr "034") with false. change (chr "\" =? chr "\") with true.
    cbv iota. wp_step. rewrite (advance_app 1) by done. cbn [require]. wp_step.
    cbn [app]. rewrite peek_head by lia. rewrite is_escape_not_u by done. rewrite Hc. wp_step.
    destruct (write_target_ok t out (1 + length (items_text is_) + 1) [c]) as (t1 & E1 & Ht1 & Hl1).
    { destruct Ht as (? & ? & Hr). split_and!; [done..|]. simpl in *. lia. }
    eapply wp_require; [exact E1|]. wp_step.
    change (e :: items_text is_ ++ [chr "034"]) with ([e] ++ items_text is_ ++ [chr "034"]).
    rewrite (advance_app 1) by done. cbn [require]. wp_step.
    eapply wp_mono; [apply (IH s is_ (out ++ [c]) t1); [done|done|lia|]|].
    { destruct Ht1 as (? & ? & Hr). split_and!; try done. lia. }
    intros r s' H. eapply (unescape_post_step _ _ s _ _ _ _ _ _ _ t1 [c]); try done.
    cbn [decode_items]. by rewrite Hc.
  - (* a unicode escape *)
    change (item_text (IUnicode h1 h2 h3 h4)) with ([chr "\"] ++ [chr "u"; h1; h2; h3; h4]) in *.
    rewrite <- (assoc_L app).
    rewrite peek_app by done. change (chr "\" =? chr "034") with false. change (chr "\" =? chr "\") with true.
    cbv iota. wp_step. rewrite (advance_app 1) by done. cbn [require]. wp_step.
    cbn [app]. rewrite peek_head by done. change (chr "u" =? chr "u") with true. cbv iota. wp_step.
    eapply wp_mono; [by apply unescape_unicode_spec|]. intros [[value p]|] s1 (Hs1 & Hat1 & H).
    + destruct H as (Hv & is' & His' & -> & Hlen & Hfit & E). rewrite utf8_encode_enc by done. wp_step.
      destruct (write_target_ok t out (length (items_text is') + 1) (enc value)) as (t1 & E1 & Ht1 & Hl1).
      { destruct Ht as (? & ? & Hr). split_and!; try done. simpl in *. lia. }
      eapply wp_require; [exact E1|].
      eapply wp_mono; [apply (IH s1 is' (out ++ enc value) t1); try done; lia|].
      intros r s' H. by eapply (unescape_post_step _ _ s1 _ _ _ _ is').
    + wp_step. split; [done|]. split; [done|]. by rewrite H.
Qed.

(* ------------------------------------------------------------------ *)
(** ** Strings *)

(** Everything but the token is as before. *)
Record keeps (s s' : lstate) : Prop := {
  keeps_flags : lx_flags (l_lex s') = lx_flags (l_lex s);
  keeps_depth : lx_depth (l_lex s') = lx_depth (l_lex s);
  keeps_world : l_world s' = l_world s;
  keeps_error : err_le (l_error s) (l_error s')
}.
#[export] Instance keeps_refl : Reflexive keeps.
Proof. done. Qed.
#[export] Instance keeps_trans : Transitive keeps.
Proof. intros a b c [] []. split; try congruence. by etransitivity. Qed.
Lemma same_keeps s s' : same s s' -> keeps s s'.
Proof. intros []. by split. Qed.
#[export] Hint Resolve same_keeps : ripext.

(** The lexer has read the token [tok]. *)
Definition tok_is (x : lex_t) (tok : token) : Prop :=
  match tok with
  | TEof => lx_token x = TOKEN_EOF
  | TPunct c => lx_token x = c /\ is_punct c = true
  | TString str => lx_token x = TOKEN_STRING /\ lx_string x = Some str /\ Z.of_nat (length str) < 2 ^ 31
  | TInteger z => lx_token x = TOKEN_INTEGER /\ lx_integer x = z /\ INT64_MIN <= z <= INT64_MAX
  | TReal d => lx_token x = TOKEN_REAL /\ lx_real x = d /\ not_finite d = false
  | TTrue => lx_token x = TOKEN_TRUE
  | TFalse => lx_token x = TOKEN_FALSE
  | TNull => lx_token x = TOKEN_NULL
  end.

(** The result of scanning a token: it is the one [o] tells. *)
Definition scanned (N : nat) (s : lstate) (bad : bool) (o : option (token * bytes)) (s' : lstate) : Prop :=
  keeps s s' /\
  match o with
  | Some (tok, rest) => tok_is (l_lex s') tok /\ exists saved, at_ N s' rest bad saved
  | None => lx_token (l_lex s') = TOKEN_INVALID /\ lex_inv N s'
  end.

Lemma items_cstr is_ : Forall item_ok is_ -> is_cstr (items_text is_).
Proof.
  induction 1 as [|i is_ Hi His IH]; [constructor|]. rewrite items_text_cons. apply Forall_app. split; [|done].
  destruct i as [c|e|h1 h2 h3 h4]; simpl in Hi.
  - repeat constructor; lia.
  - destruct (short_escape_ok e Hi). repeat constructor; done || lia.
  - destruct Hi as (H1 & H2 & H3 & H4). apply xdigit_range in H1, H2, H3, H4.
    repeat constructor; done || lia.
Qed.

Lemma at_length N s rest bad saved :
  at_ N s rest bad saved -> sb_length (lx_saved (l_lex s)) = Z.of_nat (length saved).
Proof. intros Hat. by destruct (at_saved _ _ _ _ _ Hat) as [(blk & _ & _ & _ & Hlen & _) _]. Qed.

Lemma at_value N s rest bad saved :
  at_ N s rest bad saved -> strbuffer_value (lx_saved (l_lex s)) = inr (Some (until_nul saved)).
Proof. intros Hat. apply strbuffer_value_rep. apply (at_saved _ _ _ _ _ Hat). Qed.

(** Changes of the token and its value leave the stream and the buffer alone. *)
Lemma at_upd N s rest bad saved x :
  at_ N s rest bad saved -> lx_stream x = lx_stream (l_lex s) -> lx_saved x = lx_saved (l_lex s) ->
  at_ N (set_lex x s) rest bad saved.
Proof. intros [] E1 E2. split; simpl; rewrite ?E1, ?E2; done. Qed.
Ltac at_upds := repeat (apply at_upd; [|done|done]); done.
Lemma lex_inv_upd N s x :
  lex_inv N s -> lx_stream x = lx_stream (l_lex s) -> lx_saved x = lx_saved (l_lex s) ->
  lex_inv N (set_lex x s).
Proof. intros (r & b & sv & H) E1 E2. exists r, b, sv. by apply at_upd. Qed.

Lemma target_load t out :
  target_ok t out 1 -> exists t', write_target t [0] = Some t' /\ mem_load t'.1 0 t.2 = Some out.
Proof.
  intros Ht. destruct (write_target_ok t out 0 [0]) as (t' & E & (Ht1 & Ht2 & Ht3) & Hl); [done|].
  exists t'. split; [done|]. destruct Ht as (-> & _ & Hr).
  apply (mem_load_prefix _ out (length (out ++ [0]))); [rewrite length_app; lia|].
  rewrite Ht2, fmap_app, <- (length_fmap Some out), drop_app_length. done.
Qed.

(** The second pass, from the saved text to the token. *)
Lemma finish_string_spec N s rest bad is_ :
  at_ N s rest bad (chr "034" :: items_text is_ ++ [chr "034"]) -> Forall item_ok is_ ->
  lx_token (l_lex s) = TOKEN_INVALID ->
  wp (let* x := get_lex in
      let size := size_t (sb_length (lx_saved x) + 1) in
      let* m := in_alloc (jsonp_malloc size) in
      if m then
        let* v := lift_res (strbuffer_value (lx_saved x)) in
        let* text := require v in
        let* p := require (advance 1 text) in
        let* r := unescape_loop (length text) p (mem_alloc (Z.to_nat size), 0%nat) in
        match r with
        | None => lex_free_string
        | Some t =>
            let* t' := require (write_target t [0]) in
            let* val := require (mem_load t'.1 0 t.2) in
            upd_lex (lex_with_string (Some val)) ;;;
            set_token TOKEN_STRING
        end
      else lex_free_string) s
     (fun _ s' => scanned N s bad (str ← decode_items is_; Some (TString str, rest)) s').
Proof.
  intros Hat His Htok. set (saved := chr "034" :: _) in *. unfold get_lex. wp_step. wp_step. cbv zeta.
  rewrite (at_length _ _ _ _ _ Hat). pose proof (at_room _ _ _ _ _ Hat) as Hroom.
  pose proof (at_limit _ _ _ _ _ Hat) as Hlim. rewrite size_t_small by (unfold SIZE_MAX; lia).
  wp_step. eapply wp_in_alloc; [rewrite (at_oom _ _ _ _ _ Hat); apply jsonp_malloc_nil; lia|]. cbv iota.
  wp_step. eapply wp_lift_res; [by apply (at_value _ _ _ _ _ Hat)|]. wp_step. cbn [require]. wp_step.
  assert (Hc : is_cstr saved).
  { constructor; [done|]. apply Forall_app. split; [by apply items_cstr|]. by constructor. }
  rewrite until_nul_cstr by done. wp_step.
  change saved with ([chr "034"] ++ items_text is_ ++ [chr "034"]).
  rewrite (advance_app 1) by done. cbn [require]. wp_step. wp_step.
  assert (Hlen : length saved = S (S (length (items_text is_)))).
  { unfold saved. simpl. rewrite length_app. simpl. lia. }
  assert (Hcount : (length is_ <= length (items_text is_))%nat).
  { clear. induction is_ as [|i is_ IH]; [done|]. rewrite items_text_cons, length_app.
    destruct i; simpl; lia. }
  eapply wp_mono; [apply (unescape_loop_spec N _ _ rest bad saved is_ []); try done|].
  - rewrite !length_app. simpl. lia.
  - split; [done|]. split; [done|]. simpl fst. rewrite length_mem_alloc, !length_app. simpl. lia.
  - intros r s1 (Hs1 & Hat1 & H). destruct (decode_items is_) as [bs|] eqn:Hd; simpl.
    + destruct H as (t & -> & Ht & Hlt). destruct (target_load t bs Ht) as (t' & E1 & E2).
      wp_step. eapply wp_require; [exact E1|]. wp_step. eapply wp_require; [exact E2|].
      unfold set_token, upd_lex. wp_steps. split.
      * destruct Hs1. by split.
      * split; [|exists saved; at_upds]. split; [done|]. split; [done|].
        destruct Ht as (_ & _ & Hfit). simpl in Hlt, Hfit. rewrite Hlt, length_mem_alloc in Hfit.
        rewrite !length_app in Hfit. simpl in Hfit. lia.
    + subst r. unfold lex_free_string, upd_lex. wp_step. split; [destruct Hs1; by split|].
      split; [simpl; by rewrite (same_token _ _ Hs1)|]. apply lex_inv_upd; [by eapply at_inv|done|done].
Qed.

Lemma lex_scan_string_spec N s r bad :
  got N s (chr "034") (chr "034" :: r) bad [] ->
  wp lex_scan_string s (fun _ s' =>
    scanned N s bad ('(is_, t) ← string_items r; str ← decode_items is_; Some (TString str, t)) s').
Proof.
  intros Hg. apply got_next in Hg. cbn [app] in Hg. unfold lex_scan_string, set_token, upd_lex.
  wp_step. wp_step. wp_step. wp_step. set (s0 := set_lex _ _).
  assert (Hat : at_ N s0 r bad [chr "034"]) by (at_upds).
  assert (Hk : keeps s s0) by done. assert (Htok : lx_token (l_lex s0) = TOKEN_INVALID) by done.
  clearbody s0. wp_step. eapply wp_lex_fuel; [exact Hat|]. intros n Hn.
  wp_step. eapply wp_mono; [by apply lex_get_save_spec|]. intros c s1 [Hs1 Hg1].
  wp_step. eapply wp_mono; [by apply scan_string_loop_spec|]. intros ok s2 [Hs2 H].
  assert (Hk2 : keeps s s2).
  { etransitivity; [exact Hk|]. apply same_keeps. by etransitivity. }
  assert (Htok2 : lx_token (l_lex s2) = TOKEN_INVALID).
  { by rewrite (same_token _ _ Hs2), (same_token _ _ Hs1). }
  pose proof (at_rest_bytes _ _ _ _ _ Hat) as Hr.
  destruct (string_items r) as [[is_ t]|] eqn:E; destruct H as [-> H]; cbn [negb]; cbv iota.
  - destruct (string_items_ok _ _ _ Hr E) as [His _]. cbn [app] in H.
    eapply wp_mono; [by apply (finish_string_spec N s2 t bad is_ H His Htok2)|].
    intros _ s3 [Hk3 H3]. split; [by etransitivity|]. exact H3.
  - unfold lex_free_string, upd_lex. wp_step. split; [destruct Hk2; by split|].
    split; [done|]. by apply lex_inv_upd.
Qed.
