(* ===== verification/Scan.v ===== *)
(** * The scanner refines the reference tokens: numbers, literals, [lex_scan] *)

From Stdlib Require Import SpecFloat Btauto.
From S2P Require Import Prelude Utf8 Strbuffer Hashtable Value Error Strconv Load Grammar Numbers.
From S2P Require Import Stream Lexer.

Section scan.
(** The decimal point of the locale. *)
Context (point : Z).
Hypothesis Hpoint : point_ok point.

(** A scan that leaves the token invalid. *)
Lemma scanned_invalid N s s' bad o :
  keeps s s' -> lx_token (l_lex s') = TOKEN_INVALID -> lex_inv N s' -> o = None -> scanned N s bad o s'.
Proof using Type. intros Hk Ht Hi ->. by split. Qed.

Lemma scanned_same N s s1 bad o s' : same s s1 -> scanned N s1 bad o s' -> scanned N s bad o s'.
Proof using Type. intros Hs [Hk H]. split; [|done]. etransitivity; [by apply same_keeps|done]. Qed.

(** An error behind an invalid token. *)
Lemma error_invalid N s rest bad saved code msg o :
  at_ N s rest bad saved -> lx_token (l_lex s) = TOKEN_INVALID -> nonempty msg = true -> o = None ->
  wp (error_set true code msg) s (fun _ s' => scanned N s bad o s').
Proof using Type.
  intros Hat Ht Hm Ho. eapply wp_mono; [by apply (error_set_spec N _ _ _ _ _ _ Hat)|].
  intros _ s' (Hs & Hat' & _ & El). apply scanned_invalid; auto with ripext; [by rewrite El|by eapply at_inv].
Qed.

(** Putting the lookahead back and giving up. *)
Lemma unget_invalid N s c rest bad saved o :
  got N s c rest bad saved -> lx_token (l_lex s) = TOKEN_INVALID -> o = None ->
  wp (lex_unget_unsave c ;;; ret (-1)) s (fun _ s' => scanned N s bad o s').
Proof using Type.
  intros Hg Ht Ho. wp_step. eapply wp_mono; [by apply lex_unget_unsave_spec|].
  intros _ s' [Hs Hat]. wp_step. apply scanned_invalid; auto with ripext.
  - by rewrite (same_token _ _ Hs).
  - by eapply at_inv.
Qed.

(* ------------------------------------------------------------------ *)
(** ** Numbers *)

Lemma scan_integer_spec N s c rest bad neg ds :
  got N s c rest bad (sign_chars neg ++ dec_chars ds) -> lx_token (l_lex s) = TOKEN_INVALID ->
  Forall is_digit_value ds -> ds <> [] ->
  wp (scan_integer c) s (fun _ s' => scanned N s bad
    (let v := signed neg (of_digits 10 ds) in
     if (INT64_MIN <=? v) && (v <=? INT64_MAX) then Some (TInteger v, drop_nul rest) else None) s').
Proof using Type.
  intros Hg Ht Hds Hne. unfold scan_integer. wp_step.
  eapply wp_mono; [by apply lex_unget_unsave_spec|]. intros _ s1 [Hs1 Hat].
  assert (Ht1 : lx_token (l_lex s1) = TOKEN_INVALID) by (by rewrite (same_token _ _ Hs1)).
  unfold get_lex. wp_step. wp_step. wp_step. eapply wp_lift_res; [by apply (at_value _ _ _ _ _ Hat)|].
  assert (Hc : is_cstr (sign_chars neg ++ dec_chars ds)).
  { apply Forall_app. split; [destruct neg; by repeat constructor|by apply dec_chars_cstr]. }
  rewrite until_nul_cstr by done. wp_step. cbn [require]. wp_step. rewrite strtoll_text by done. cbv zeta.
  set (v := signed neg _). destruct (Z.ltb_spec v INT64_MIN) as [Hlo|Hlo]; [|destruct (Z.ltb_spec INT64_MAX v) as [Hhi|Hhi]].
  - wp_step. eapply wp_mono; [eapply (error_invalid N _ _ bad _ _ _ _ Hat Ht1)|]; [done| |].
    2:{ intros ? s2 H2. wp_step. eapply scanned_same; [exact Hs1|exact H2]. }
    by rewrite (proj2 (Z.leb_gt _ _)).
  - wp_step. eapply wp_mono; [eapply (error_invalid N _ _ bad _ _ _ _ Hat Ht1)|]; [done| |].
    2:{ intros ? s2 H2. wp_step. eapply scanned_same; [exact Hs1|exact H2]. }
    by rewrite (proj2 (Z.leb_le _ _) Hlo), (proj2 (Z.leb_gt _ _)).
  - wp_step. eapply wp_assert.
    { apply bool_decide_true. split; [done|]. by rewrite (at_length _ _ _ _ _ Hat). }
    unfold set_token, upd_lex. wp_steps. rewrite !(proj2 (Z.leb_le _ _)) by done. split.
    + destruct Hs1. by split.
    + split; [done|]. eexists. at_upds.
Qed.

Lemma finish_real_spec N s c rest bad saved o :
  got N s c rest bad saved -> lx_token (l_lex s) = TOKEN_INVALID -> is_cstr saved ->
  jsonp_strtod point saved = inr o -> (forall d, o = Some d -> not_finite d = false) ->
  wp (finish_real point c) s (fun _ s' => scanned N s bad (d ← o; Some (TReal d, drop_nul rest)) s').
Proof using Type.
  intros Hg Ht Hc Hd Hfin. unfold finish_real. wp_step.
  eapply wp_mono; [by apply lex_unget_unsave_spec|]. intros _ s1 [Hs1 Hat].
  assert (Ht1 : lx_token (l_lex s1) = TOKEN_INVALID) by (by rewrite (same_token _ _ Hs1)).
  unfold get_lex. wp_step. wp_step. wp_step. eapply wp_lift_res; [by apply (at_value _ _ _ _ _ Hat)|].
  rewrite until_nul_cstr by done. wp_step. cbn [require]. wp_step. wp_step.
  eapply wp_lift_res; [exact Hd|]. wp_step.
  eapply wp_assert; [apply Z.eqb_eq; by rewrite (at_length _ _ _ _ _ Hat)|].
  destruct o as [d|].
  - unfold set_token, upd_lex. wp_steps. split; [destruct Hs1; by split|].
    split; [split_and!; [done|done|by apply Hfin]|]. eexists. at_upds.
  - wp_step. eapply wp_mono; [by eapply (error_invalid N _ _ bad _ _ _ _ Hat Ht1)|].
    intros ? s2 H2. wp_step. eapply scanned_same; [exact Hs1|exact H2].
Qed.

(** The value of a real whose text was collected. *)
Definition real_token (neg : bool) (ds fs : list Z) (e : Z) (rest : bytes) : option (token * bytes) :=
  let d := dec_to_double neg (of_digits 10 (ds ++ fs)) (e - Z.of_nat (length fs)) in
  if not_finite d then None else Some (TReal d, drop_nul rest).

Lemma finish_text_spec N s c rest bad neg ds fs e :
  got N s c rest bad (real_text (chr ".") neg ds fs e) -> lx_token (l_lex s) = TOKEN_INVALID ->
  Forall is_digit_value ds -> ds <> [] -> Forall is_digit_value fs -> expo_ok e ->
  wp (finish_real point c) s (fun _ s' => scanned N s bad (real_token neg ds fs (expo_value e) rest) s').
Proof using Hpoint.
  intros Hg Ht Hds Hne Hfs He. eapply wp_mono.
  - eapply (finish_real_spec N s c rest bad _ _ Hg Ht); [by apply real_text_cstr|by apply jsonp_strtod_text|].
    intros d. by destruct (not_finite _) eqn:Hf; intros [= <-].
  - intros ? s' H. unfold real_token. by destruct (not_finite _).
Qed.

Lemma test_head_digit r : test_head l_isdigit r = false <-> no_digit r.
Proof using Type. by destruct r. Qed.

Lemma span_digits_none r : test_head l_isdigit r = false -> (span_digits r).1 = [].
Proof using Type. intros H. by rewrite span_digits_nil by (by apply test_head_digit). Qed.
Lemma span_digits_some r : test_head l_isdigit r = true ->
  exists d ds t, span_digits r = (d :: ds, t).
Proof using Type.
  destruct r as [|c r]; [done|]. simpl. intros ->. destruct (span_digits r) as [ds t]. eauto.
Qed.

(** [do c = lex_get_save(...) while (isdigit)] behind the first digit. *)
Lemma scan_digits_spec N s c rest bad saved :
  got N s c rest bad saved -> test_head l_isdigit rest = true ->
  wp (scan_while l_isdigit) s (fun c' s' => same s s' /\
    got N s' c' (span_digits rest).2 bad (saved ++ dec_chars (span_digits rest).1)).
Proof using Type.
  intros Hg Hd. destruct rest as [|b r]; [done|]. simpl in Hd. apply got_next in Hg.
  eapply wp_mono; [by apply (scan_while_spec l_isdigit), Hg; apply l_isdigit_test|].
  intros c' s' [Hs Hg']. split; [done|]. rewrite span_digits_span in Hg'. simpl span_digits. rewrite Hd.
  destruct (span_digits r) as [ds t]. simpl in *. rewrite <- (assoc_L app) in Hg'. simpl in Hg'.
  by replace (chr "0" + (b - chr "0")) with b by lia.
Qed.

Lemma test_head_or f g r : test_head (fun c => f c || g c) r = test_head f r || test_head g r.
Proof using Type. by destruct r. Qed.

(** Behind the sign of an exponent. *)
Lemma exponent_digits_spec N s c rest bad neg ds fs mark sgn :
  got N s c rest bad (real_text (chr ".") neg ds fs ENone ++ mark :: sgn) ->
  lx_token (l_lex s) = TOKEN_INVALID ->
  Forall is_digit_value ds -> ds <> [] -> Forall is_digit_value fs ->
  (mark = chr "e" \/ mark = chr "E") -> (sgn = [] \/ sgn = [chr "+"] \/ sgn = [chr "-"]) ->
  wp (if negb (l_isdigit c) then lex_unget_unsave c ;;; ret (-1)
      else let* c := scan_while l_isdigit in finish_real point c) s
     (fun _ s' => scanned N s bad
       (match span_digits rest with
        | ([], _) => None
        | (es, u) => real_token neg ds fs (signed (bool_decide (sgn = [chr "-"])) (of_digits 10 es)) u
        end) s').
Proof using Hpoint.
  intros Hg Ht Hds Hne Hfs Hmark Hsgn. rewrite (got_test _ _ _ _ _ _ _ l_isdigit_test Hg).
  destruct (test_head l_isdigit rest) eqn:E; cbn [negb]; cbv iota.
  2:{ eapply unget_invalid; [exact Hg|done|]. apply span_digits_none in E.
      destruct (span_digits rest). simpl in E. by rewrite E. }
  wp_step. eapply wp_mono; [by apply (scan_digits_spec N s c rest bad _ Hg)|]. intros c' s1 [Hs1 Hg1].
  pose proof (span_digits_values rest) as Hes.
  destruct (span_digits_some _ E) as (d & es & t & Esp). rewrite Esp in *. simpl fst in *. simpl snd in *.
  eapply wp_mono; [eapply (finish_text_spec N s1 c' t bad neg ds fs (ESome mark sgn (d :: es)))|].
  - unfold real_text in *. rewrite !app_nil_r in Hg1. rewrite <- !(assoc_L app) in Hg1. exact Hg1.
  - by rewrite (same_token _ _ Hs1).
  - done.
  - done.
  - done.
  - by split_and!.
  - intros ? s2 H2. by eapply scanned_same.
Qed.

Lemma scan_exponent_part_spec N s c rest bad neg ds fs :
  got N s c rest bad (real_text (chr ".") neg ds fs ENone) -> lx_token (l_lex s) = TOKEN_INVALID ->
  Forall is_digit_value ds -> ds <> [] -> Forall is_digit_value fs ->
  wp (scan_exponent_part point c) s (fun _ s' => scanned N s bad
    ('(e, s4) ← exp_part rest; real_token neg ds fs e s4) s').
Proof using Hpoint.
  intros Hg Ht Hds Hne Hfs. unfold scan_exponent_part.
  rewrite (got_test _ _ _ _ _ _ _ (eqb_test (chr "E") ltac:(done)) Hg).
  rewrite (got_test _ _ _ _ _ _ _ (eqb_test (chr "e") ltac:(done)) Hg).
  destruct (test_head _ rest || test_head _ rest) eqn:Ee.
  2:{ eapply wp_mono; [by apply (finish_text_spec N s c rest bad neg ds fs ENone)|].
      intros ? s' H. replace (exp_part rest) with (Some (0, rest)); [exact H|].
      destruct rest as [|b r]; [done|]. simpl in Ee. unfold exp_part. by rewrite orb_comm, Ee. }
  destruct rest as [|mark r]; [done|]. simpl in Ee. rewrite orb_comm in Ee.
  assert (Hmark : mark = chr "e" \/ mark = chr "E").
  { apply orb_true_iff in Ee as [H|H]; apply Z.eqb_eq in H; auto. }
  apply got_next in Hg. wp_step. eapply wp_mono; [by apply lex_get_save_spec|]. intros c1 s1 [Hs1 Hg1].
  assert (Ht1 : lx_token (l_lex s1) = TOKEN_INVALID) by (by rewrite (same_token _ _ Hs1)).
  rewrite (got_test _ _ _ _ _ _ _ (eqb_test (chr "+") ltac:(done)) Hg1).
  rewrite (got_test _ _ _ _ _ _ _ (eqb_test (chr "-") ltac:(done)) Hg1).
  assert (E : exp_part (mark :: r) = let '(neg, t) := exp_sign r in
     match span_digits t with ([], _) => None
     | (es, u) => Some (signed neg (of_digits 10 es), u) end).
  { unfold exp_part. by rewrite Ee. }
  rewrite E. clear E Ee. wp_step. destruct (test_head _ r || test_head _ r) eqn:Es.
  - destruct r as [|b r]; [done|]. simpl in Es. apply got_next in Hg1.
    eapply wp_mono; [by apply lex_get_save_spec|]. intros c2 s2 [Hs2 Hg2].
    assert (Ht2 : lx_token (l_lex s2) = TOKEN_INVALID) by (by rewrite (same_token _ _ Hs2)).
    assert (Hb : b = chr "+" \/ b = chr "-").
    { apply orb_true_iff in Es as [H|H]; apply Z.eqb_eq in H; auto. }
    rewrite <- (assoc_L app) in Hg2. cbn [app] in Hg2.
    eapply wp_mono; [apply (exponent_digits_spec N s2 c2 r bad neg ds fs mark [b] Hg2); try done|].
    { destruct Hb as [->| ->]; auto. }
    intros ? s3 H3. eapply scanned_same; [by etransitivity|].
    replace (exp_sign (b :: r)) with (bool_decide ([b] = [chr "-"]), r) by (destruct Hb as [->| ->]; done).
    by destruct (span_digits r) as [[|] ?].
  - wp_step. eapply wp_mono; [apply (exponent_digits_spec N s1 c1 r bad neg ds fs mark [] Hg1); auto|].
    intros ? s3 H3. eapply scanned_same; [done|].
    replace (exp_sign r) with (false, r).
    2:{ destruct r as [|b r]; [done|]. simpl in Es. apply orb_false_iff in Es as [E1 E2].
        unfold exp_sign. by rewrite E2, E1. }
    by destruct (span_digits r) as [[|] ?].
Qed.
Lemma scan_real_spec N s c rest bad neg ds :
  got N s c rest bad (sign_chars neg ++ dec_chars ds) -> lx_token (l_lex s) = TOKEN_INVALID ->
  Forall is_digit_value ds -> ds <> [] ->
  wp (scan_real point c) s (fun _ s' => scanned N s bad
    ('(fs, s3) ← frac_part rest; '(e, s4) ← exp_part s3; real_token neg ds fs e s4) s').
Proof using Hpoint.
  intros Hg Ht Hds Hne. unfold scan_real.
  rewrite (got_test _ _ _ _ _ _ _ (eqb_test (chr ".") ltac:(done)) Hg).
  destruct (test_head _ rest) eqn:Ed.
  2:{ replace (frac_part rest) with (Some ([] : list Z, rest)).
      2:{ destruct rest as [|b r]; [done|]. simpl in Ed. unfold frac_part. by rewrite Ed. }
      apply (scan_exponent_part_spec N s c rest bad neg ds []); try done.
      unfold real_text. simpl. by rewrite app_nil_r. }
  destruct rest as [|b r]; [done|]. simpl in Ed. apply got_next in Hg.
  assert (E : frac_part (b :: r) = match span_digits r with ([], _) => None | (fs, t) => Some (fs, t) end).
  { unfold frac_part. by rewrite Ed. }
  rewrite E. apply Z.eqb_eq in Ed as ->. clear E.
  wp_step. eapply wp_mono; [by apply stream_get_spec|]. intros c1 s1 [Hs1 Hp].
  assert (Ht1 : lx_token (l_lex s1) = TOKEN_INVALID) by (by rewrite (same_token _ _ Hs1)).
  rewrite (peeked_test _ _ _ _ _ _ _ l_isdigit_test Hp).
  destruct (test_head l_isdigit r) eqn:E; cbn [negb]; cbv iota.
  2:{ wp_step. eapply wp_mono; [by apply lex_unget_spec|]. intros _ s2 [Hs2 Hat2]. wp_step.
      apply scanned_invalid.
      - apply same_keeps. by etransitivity.
      - by rewrite (same_token _ _ Hs2).
      - by eapply at_inv.
      - apply span_digits_none in E. destruct (span_digits r). simpl in E. by rewrite E. }
  pose proof (span_digits_values r) as Hfs.
  destruct (span_digits_some _ E) as (f & fs & t & Esp). rewrite Esp in *. simpl fst in *.
  destruct r as [|d r]; [done|]. pose proof Hp as (-> & _). wp_step.
  eapply wp_mono; [by apply lex_save_spec|]. intros _ s2 [Hs2 Hg2].
  wp_step. eapply wp_mono; [by apply (scan_digits_spec _ _ _ _ _ _ Hg2)|]. intros c3 s3 [Hs3 Hg3].
  rewrite Esp in Hg3. simpl fst in Hg3. simpl snd in Hg3.
  assert (Hs : same s s3) by (etransitivity; [exact Hs1|]; by etransitivity).
  eapply wp_mono; [apply (scan_exponent_part_spec N s3 c3 t bad neg ds (f :: fs))|].
  - unfold real_text. rewrite app_nil_r. rewrite <- !(assoc_L app) in Hg3. exact Hg3.
  - by rewrite (same_token _ _ Hs).
  - done.
  - done.
  - done.
  - intros ? s4 H4. by eapply scanned_same.
Qed.

Lemma scan_after_int_spec N s c rest bad neg ds :
  got N s c rest bad (sign_chars neg ++ dec_chars ds) -> lx_token (l_lex s) = TOKEN_INVALID ->
  Forall is_digit_value ds -> ds <> [] ->
  wp (scan_after_int point c) s (fun _ s' => scanned N s bad
    (number_tail (has_flag (lx_flags (l_lex s)) JSON_DECODE_INT_AS_REAL) neg ds rest) s').
Proof using Hpoint.
  intros Hg Ht Hds Hne. unfold scan_after_int, get_lex. wp_step. wp_step.
  rewrite (got_test _ _ _ _ _ _ _ (eqb_test (chr ".") ltac:(done)) Hg).
  rewrite (got_test _ _ _ _ _ _ _ (eqb_test (chr "E") ltac:(done)) Hg).
  rewrite (got_test _ _ _ _ _ _ _ (eqb_test (chr "e") ltac:(done)) Hg).
  unfold number_tail.
  replace (negb (starts_real rest)) with
    (negb (test_head (fun c => c =? chr ".") rest) && negb (test_head (fun c => c =? chr "E") rest) &&
     negb (test_head (fun c => c =? chr "e") rest)).
  2:{ destruct rest as [|b r]; [done|]. simpl. rewrite !negb_orb. by btauto. }
  rewrite !andb_assoc.
  case_match; [by apply scan_integer_spec|by apply scan_real_spec].
Qed.

Lemma lex_scan_number_spec N s c rest bad :
  got N s c rest bad [] ->
  wp (lex_scan_number point c) s (fun _ s' => scanned N s bad
    (ref_number (has_flag (lx_flags (l_lex s)) JSON_DECODE_INT_AS_REAL) rest) s').
Proof using Hpoint.
  intros Hg. unfold lex_scan_number, set_token, upd_lex. wp_step. wp_step.
  set (s0 := set_lex _ _). assert (Hk : keeps s s0) by done.
  assert (Ht : lx_token (l_lex s0) = TOKEN_INVALID) by done.
  assert (Hg0 : got N s0 c rest bad []).
  { destruct rest as [|b r]; [destruct Hg; split; [done|]|destruct Hg as (? & ? & ?); split_and!; [done| |done]];
      at_upds. }
  change (lx_flags (l_lex s)) with (lx_flags (l_lex s0)). clearbody s0. clear Hg.
  rewrite (got_test _ _ _ _ _ _ _ (eqb_test (chr "-") ltac:(done)) Hg0). wp_step.
  set (m := if test_head (fun c => c =? chr "-") rest then lex_get_save else ret c).
  assert (Hm : wp m s0 (fun c1 s1 => same s0 s1 /\
            got N s1 c1 (scan_minus rest).2 bad (sign_chars (scan_minus rest).1))).
  { unfold m, scan_minus. destruct rest as [|b r]; simpl test_head; cbv iota; [by wp_step|].
    destruct (Z.eqb_spec b (chr "-")) as [->|]; [|by wp_step].
    apply got_next in Hg0. by apply lex_get_save_spec. }
  eapply wp_mono; [exact Hm|]. clear m Hm. intros c1 s1 [Hs1 Hg1]. unfold ref_number.
  assert (Ht1 : lx_token (l_lex s1) = TOKEN_INVALID) by (by rewrite (same_token _ _ Hs1)).
  destruct (scan_minus rest) as [neg s2]. simpl fst in Hg1. simpl snd in Hg1.
  rewrite <- (same_flags _ _ Hs1).
  cut (wp (if c1 =? chr "0" then
             let* c := lex_get_save in
             if l_isdigit c then lex_unget_unsave c ;;; ret (-1) else scan_after_int point c
           else if l_isdigit c1 then let* c := scan_while l_isdigit in scan_after_int point c
           else lex_unget_unsave c1 ;;; ret (-1)) s1
        (fun _ s' => scanned N s1 bad
          (let '(ds, s3) := span_digits s2 in
           if bool_decide (ds = []) || (bool_decide (head ds = Some 0) && negb (bool_decide (ds = [0])))
           then None else number_tail (has_flag (lx_flags (l_lex s1)) JSON_DECODE_INT_AS_REAL) neg ds s3) s')).
  { intros H. eapply wp_mono; [exact H|]. intros ? s' [Hk' H']. split; [|done].
    etransitivity; [exact Hk|]. etransitivity; [by apply same_keeps|done]. }
  rewrite (got_test _ _ _ _ _ _ _ (eqb_test (chr "0") ltac:(done)) Hg1).
  rewrite (got_test _ _ _ _ _ _ _ l_isdigit_test Hg1).
  destruct s2 as [|b r]; [by eapply unget_invalid|]. simpl test_head.
  destruct (Z.eqb_spec b (chr "0")) as [->|Hne0].
  - (* a zero *)
    apply got_next in Hg1. wp_step. eapply wp_mono; [by apply lex_get_save_spec|]. intros c3 s3 [Hs3 Hg3].
    assert (Ht3 : lx_token (l_lex s3) = TOKEN_INVALID) by (by rewrite (same_token _ _ Hs3)).
    rewrite (got_test _ _ _ _ _ _ _ l_isdigit_test Hg3). cbn [span_digits].
    change (l_isdigit (chr "0")) with true. cbv iota.
    destruct (test_head l_isdigit r) eqn:E.
    + destruct (span_digits_some _ E) as (d & ds & t & ->).
      eapply wp_mono; [by eapply (unget_invalid N s3 c3 r bad _ None Hg3)|].
      intros ? s4 H4. eapply scanned_same; [exact Hs3|exact H4].
    + rewrite span_digits_nil by (by apply test_head_digit).
      eapply wp_mono; [apply (scan_after_int_spec N s3 c3 r bad neg [0])|].
      * exact Hg3.
      * done.
      * by repeat constructor.
      * done.
      * intros ? s4 H4. eapply scanned_same; [exact Hs3|]. by rewrite (same_flags _ _ Hs3) in H4.
  - destruct (l_isdigit b) eqn:Eb.
    + (* digits *)
      wp_step. eapply wp_mono; [apply (scan_digits_spec _ _ _ _ _ _ Hg1); done|]. intros c3 s3 [Hs3 Hg3].
      pose proof (span_digits_values (b :: r)) as Hds. cbn [span_digits] in *. rewrite Eb in *.
      destruct (span_digits r) as [ds t]. simpl fst in *. simpl snd in *.
      rewrite (bool_decide_false (_ :: _ = [])), (bool_decide_false (head _ = Some 0)) by (simpl; intros [=]; lia).
      cbn [orb andb]. cbv iota.
      eapply wp_mono; [apply (scan_after_int_spec N s3 c3 t bad neg _ Hg3)|].
      * by rewrite (same_token _ _ Hs3).
      * done.
      * done.
      * intros ? s4 H4. eapply scanned_same; [exact Hs3|]. by rewrite (same_flags _ _ Hs3) in H4.
    + eapply unget_invalid; [exact Hg1|done|]. cbn [span_digits]. by rewrite Eb.
Qed.
(* ------------------------------------------------------------------ *)
(** ** Literals and the next token *)

Lemma strcmp_eqb a b : (strcmp a b =? 0) = bool_decide (a = b).
Proof using Type.
  case_bool_decide as H; [apply Z.eqb_eq|apply Z.eqb_neq]; by rewrite strcmp_eq.
Qed.

Lemma span_alpha_cstr r : is_cstr (span l_isalpha r).1.
Proof using Type.
  induction r as [|c r IH]; simpl; [constructor|]. destruct (l_isalpha c) eqn:E; [|constructor].
  destruct (span l_isalpha r). constructor; [|done]. clear IH. revert E.
  unfold l_isalpha, l_isupper, l_islower. change (chr "A") with 65. change (chr "Z") with 90.
  change (chr "a") with 97. change (chr "z") with 122. intros E. apply orb_true_iff in E as [E|E]; zbool; lia.
Qed.

Lemma lex_scan_identifier_spec N s c rest bad :
  got N s c rest bad [] -> test_head l_isalpha rest = true ->
  wp lex_scan_identifier s (fun _ s' => scanned N s bad
    (let '(w, t) := span l_isalpha rest in k ← keyword w; Some (k, drop_nul t)) s').
Proof using Type.
  intros Hg Ha. unfold lex_scan_identifier. destruct rest as [|b r]; [done|]. simpl in Ha.
  apply got_next in Hg. wp_step.
  eapply wp_mono; [apply (scan_while_spec l_isalpha _ _ _ _ _ l_isalpha_test Hg)|].
  intros c1 s1 [Hs1 Hg1]. pose proof (span_alpha_cstr (b :: r)) as Hc. cbn [span] in *. rewrite Ha in *.
  destruct (span l_isalpha r) as [w t]. simpl fst in *. simpl snd in *. cbn [app] in Hg1.
  wp_step. eapply wp_mono; [by apply lex_unget_unsave_spec|]. intros _ s2 [Hs2 Hat].
  unfold get_lex. wp_step. wp_step. wp_step. eapply wp_lift_res; [by apply (at_value _ _ _ _ _ Hat)|].
  rewrite until_nul_cstr by done. wp_step. cbn [require]. wp_step.
  unfold set_token, upd_lex. wp_step. rewrite !strcmp_eqb. unfold keyword.
  assert (Hs : same s s2) by (by etransitivity).
  repeat case_bool_decide; cbv iota; (split; [destruct Hs; by split|]); simpl; (split; [done|]);
    try (eexists; at_upds).
  apply lex_inv_upd; [by eapply at_inv|done|done].
Qed.

Lemma lex_scan_spec N s rest bad saved :
  at_ N s rest bad saved ->
  wp (lex_scan point) s (fun t s' => t = lx_token (l_lex s') /\ scanned N s bad
    (ref_scan (has_flag (lx_flags (l_lex s)) JSON_DECODE_INT_AS_REAL) bad rest) s').
Proof using Hpoint.
  intros Hat. unfold lex_scan, get_lex. wp_step. wp_step. wp_step.
  destruct (sb_ok_clear N _ saved (at_saved _ _ _ _ _ Hat)) as (sb & Esb & Hsb).
  rewrite <- (at_oom _ _ _ _ _ Hat) in Esb. eapply wp_in_alloc; [exact Esb|].
  unfold upd_lex. wp_step. wp_step. set (s0 := set_lex _ _).
  assert (Hat0 : at_ N s0 rest bad []).
  { destruct Hat as [? ? ? ? Hroom ?]. split; try done; simpl; lia. }
  assert (Hk0 : keeps s s0) by done. change (lx_flags (l_lex s)) with (lx_flags (l_lex s0)).
  clearbody s0. clear Hat Hsb Esb sb saved. wp_step.
  set (m := if lx_token (l_lex s) =? TOKEN_STRING then lex_free_string else ret tt).
  assert (Hm : wp m s0 (fun _ s1 => keeps s0 s1 /\ at_ N s1 rest bad [])).
  { unfold m. case_match; [|by wp_step]. unfold lex_free_string, upd_lex. wp_step. split; [done|at_upds]. }
  eapply wp_mono; [exact Hm|]. clear m Hm. intros _ s1 [Hk1 Hat1]. rewrite <- (keeps_flags _ _ Hk1).
  assert (Hk : keeps s s1) by (by etransitivity). clear Hk0 Hk1 Hat0 s0.
  wp_step. eapply wp_lex_fuel; [exact Hat1|]. intros n Hn.
  wp_step. eapply wp_mono; [by apply skip_space_spec|]. intros c s2 [Hs2 Hp].
  rewrite <- (same_flags _ _ Hs2). assert (Hk2 : keeps s s2) by (etransitivity; [exact Hk|by apply same_keeps]).
  clear Hk Hat1 Hn n Hs2 s1. unfold ref_scan. set (rest' := (span is_space rest).2) in *. clearbody rest'.
  wp_step.
  cut (wp (if c =? STREAM_STATE_EOF then set_token TOKEN_EOF
       else if c =? STREAM_STATE_ERROR then set_token TOKEN_INVALID
       else
         lex_save c ;;;
         if is_punct c then set_token c
         else if c =? chr "034" then lex_scan_string
         else if l_isdigit c || (c =? chr "-") then let* _ := lex_scan_number point c in ret tt
         else if l_isalpha c then lex_scan_identifier
         else lex_save_cached 6 ;;; set_token TOKEN_INVALID) s2
      (fun _ s' => scanned N s2 bad
        match rest' with
        | [] => if bad then None else Some (TEof, [])
        | c :: r =>
            if is_punct c then Some (TPunct c, r)
            else if c =? chr "034" then
              '(is_, t) ← string_items r; str ← decode_items is_; Some (TString str, t)
            else if l_isdigit c || (c =? chr "-") then
              ref_number (has_flag (lx_flags (l_lex s2)) JSON_DECODE_INT_AS_REAL) (c :: r)
            else if l_isalpha c then
              let '(w, t) := span l_isalpha (c :: r) in k ← keyword w; Some (k, drop_nul t)
            else None
        end s')).
  { intros H. eapply wp_mono; [exact H|]. intros ? s3 [Hk3 H3]. unfold get_token. wp_step.
    split; [done|]. split; [by etransitivity|done]. }
  destruct rest' as [|b r].
  { destruct Hp as [-> Hat]. destruct bad; simpl; unfold set_token, upd_lex; wp_step.
    - split; [done|]. split; [done|]. apply lex_inv_upd; [by eapply at_inv|done|done].
    - split; [done|]. split; [done|]. eexists. at_upds. }
  pose proof Hp as (Hc & _ & (Hok & Hb & _) & _). subst c.
  pose proof (is_end_schar b Hb) as He. unfold is_end in He. apply orb_false_iff in He as [-> ->].
  wp_step. eapply wp_mono; [by apply lex_save_spec|]. intros _ s3 [Hs3 Hg].
  rewrite <- (same_flags _ _ Hs3).
  eapply wp_mono; [|intros ? s' H; eapply scanned_same; [exact Hs3|exact H]].
  rewrite (got_test _ _ _ _ _ _ _ is_punct_test Hg), (got_test _ _ _ _ _ _ _ l_isdigit_test Hg),
    (got_test _ _ _ _ _ _ _ l_isalpha_test Hg),
    (got_test _ _ _ _ _ _ _ (eqb_test (chr "034") ltac:(done)) Hg),
    (got_test _ _ _ _ _ _ _ (eqb_test (chr "-") ltac:(done)) Hg). simpl test_head.
  destruct (is_punct b) eqn:E1.
  { unfold set_token, upd_lex. wp_step. split; [done|]. apply got_next in Hg.
    assert (0 <= b < 128).
    { unfold is_punct in E1. apply existsb_exists in E1 as (x & Hx & ->%Z.eqb_eq).
      by repeat (destruct Hx as [<-|Hx]; [done|]). }
    split; [split; [by apply schar_ascii|done]|]. eexists. at_upds. }
  destruct (Z.eqb_spec b (chr "034")) as [->|Hq]; [by apply lex_scan_string_spec|].
  destruct (l_isdigit b || (b =? chr "-")) eqn:E2.
  { wp_step. eapply wp_mono; [by apply (lex_scan_number_spec N s3 _ (b :: r))|]. intros ? s4 H4. by wp_step. }
  destruct (l_isalpha b) eqn:E3; [by apply (lex_scan_identifier_spec N s3 _ (b :: r) bad Hg)|].
  apply got_next in Hg as Hat. pose proof Hg as (_ & _ & (Hok3 & _)).
  wp_step. eapply wp_mono; [apply (lex_save_cached_spec N s3 r bad _ 6 Hat Hok3)|].
  - intros unread junk Hd Hu. pose proof (at_stream _ _ _ _ _ Hat) as [? ? ? _ Hl5 _ _ _ _|Hend].
    + apply (f_equal length) in Hd. rewrite length_drop, !length_app in Hd. simpl in Hd. lia.
    + rewrite Hok3 in Hend. by destruct bad.
  - intros _ s4 [Hs4 Hi]. unfold set_token, upd_lex. wp_step. split; [destruct Hs4; by split|].
    split; [done|]. by apply lex_inv_upd.
Qed.
End scan.
