(* ===== verification/Tree.v ===== *)
(** * Trees in the heap

    [tree w lo l t]: the value at [l] is the JSON tree [t], and every node of
    it that is not one of the constants lies at [lo] or above, children above
    their parents.  A tree survives every change of the heap that keeps the
    bodies of its nodes and a reference to its root. *)

From stdpp Require Import gmultiset.
From Stdlib Require Import SpecFloat.
From S2P Require Import Prelude Utf8 Strbuffer Dlist Hashtable Value Arrays Refcount ValueSpec.
From S2P Require Import Strconv Load Grammar.

Section tree.
Context (w : world).

#[warnings="-register-all"]
Inductive tree : loc -> loc -> json -> Prop :=
| tree_true lo : tree lo the_true JTrue
| tree_false lo : tree lo the_false JFalse
| tree_null lo : tree lo the_null JNull
| tree_integer lo l z : (lo <= l)%positive -> body_at w l (Integer z) -> tree lo l (JInteger z)
| tree_real lo l d : (lo <= l)%positive -> body_at w l (Real d) -> tree lo l (JReal d)
| tree_string lo l s : (lo <= l)%positive -> body_at w l (Str s) -> tree lo l (JString s)
| tree_array lo l xs ts :
    (lo <= l)%positive -> array_at w l xs -> Forall2 (tree (Pos.succ l)) xs ts -> tree lo l (JArray ts)
| tree_object lo l items ms :
    (lo <= l)%positive -> object_at w l items ->
    Forall2 (fun a b => a.1 = b.1 /\ tree (Pos.succ l) a.2 b.2) (kvs items) ms ->
    tree lo l (JObject ms).

(** The induction principle, with the hypotheses for the children. *)
Lemma tree_rect (P : loc -> loc -> json -> Prop) :
  (forall lo, P lo the_true JTrue) -> (forall lo, P lo the_false JFalse) ->
  (forall lo, P lo the_null JNull) ->
  (forall lo l z, (lo <= l)%positive -> body_at w l (Integer z) -> P lo l (JInteger z)) ->
  (forall lo l d, (lo <= l)%positive -> body_at w l (Real d) -> P lo l (JReal d)) ->
  (forall lo l s, (lo <= l)%positive -> body_at w l (Str s) -> P lo l (JString s)) ->
  (forall lo l xs ts, (lo <= l)%positive -> array_at w l xs ->
     Forall2 (fun x t => tree (Pos.succ l) x t /\ P (Pos.succ l) x t) xs ts -> P lo l (JArray ts)) ->
  (forall lo l items ms, (lo <= l)%positive -> object_at w l items ->
     Forall2 (fun a b => a.1 = b.1 /\ tree (Pos.succ l) a.2 b.2 /\ P (Pos.succ l) a.2 b.2) (kvs items) ms ->
     P lo l (JObject ms)) ->
  forall lo l t, tree lo l t -> P lo l t.
Proof.
  intros Ht Hf Hn Hi Hr Hs Ha Ho. fix IH 4. intros lo l t0 [| | |? ? ? H1 H2|? ? ? H1 H2|? ? ? H1 H2|? ? xs ts H1 H2 H3|? ? items ms H1 H2 H3].
  - apply Ht.
  - apply Hf.
  - apply Hn.
  - by apply Hi.
  - by apply Hr.
  - by apply Hs.
  - eapply Ha; [exact H1|exact H2|]. clear H2. induction H3 as [|x t xs ts Hx _ IHl]; constructor; [|exact IHl].
    split; [exact Hx|]. by apply IH.
  - eapply Ho; [exact H1|exact H2|]. clear H2.
    induction H3 as [|a b as_ bs [Hk Hx] _ IHl]; constructor; [|exact IHl].
    split; [exact Hk|]. split; [exact Hx|]. by apply IH.
Qed.
End tree.

Abbreviation members w lo := (Forall2 (fun (a : bytes * loc) (b : bytes * json) =>
  a.1 = b.1 /\ tree w lo a.2 b.2)).

(** Lower bounds can be lowered. *)
Lemma tree_lower w lo lo' l t : tree w lo l t -> (lo' <= lo)%positive -> tree w lo' l t.
Proof. intros Ht Hlo. destruct Ht; econstructor; eauto; lia. Qed.

(** The root of a tree. *)
Lemma tree_root w lo l t : tree w lo l t -> l ∈ statics \/ (lo <= l)%positive.
Proof. intros []; auto; left; unfold statics; set_solver. Qed.

Lemma body_at_fun w l b b' : body_at w l b -> body_at w l b' -> b = b'.
Proof. intros (n & Hn & <-) (n' & Hn' & <-). by simplify_eq. Qed.

Lemma body_at_fresh w roots Zs l b : Inv w roots Zs -> body_at w l b -> (l < w_next w)%positive.
Proof. intros Hinv (n & Hn & _). apply (inv_fresh _ _ _ Hinv). eauto. Qed.

Section keep.
Context (w w' : world) (rs rs' : gmultiset loc) (Zs Zs' : gset loc) (D : gset loc).
Hypothesis (Hinv : Inv w rs Zs) (Hinv' : Inv w' rs' Zs') (Hfr : frame D w w').

(** A node that is still referenced and not in [D] has the body it had. *)
Lemma body_keep l b : l ∈ refs (w_heap w') ⊎ rs' -> l ∉ D -> body_at w l b -> body_at w' l b.
Proof using Hinv Hinv' Hfr.
  intros Hl HD Hb. destruct (inv_live _ _ _ _ Hinv' Hl) as (n' & Hn' & _).
  pose proof (fr_bodies _ _ _ Hfr l n' Hn' HD (body_at_fresh _ _ _ _ _ Hinv Hb)) as Hb2.
  rewrite (body_at_fun _ _ _ _ Hb Hb2). by exists n'.
Qed.

Lemma array_keep l xs : l ∈ refs (w_heap w') ⊎ rs' -> l ∉ D -> array_at w l xs -> array_at w' l xs.
Proof using Hinv Hinv' Hfr. intros Hl HD (a & Hb & Ha). exists a. split; [by apply body_keep|done]. Qed.

Lemma object_seed l items : object_at w l items -> w_seed w <> 0.
Proof using Hinv.
  intros Ho. pose proof (object_not_static _ _ _ _ _ Hinv Ho) as Hs.
  destruct Ho as (ht & (n & Hn & Hb) & _). pose proof (inv_body _ _ _ Hinv l n Hn Hs) as Hok.
  rewrite Hb in Hok. by destruct Hok.
Qed.

Lemma object_keep l items : l ∈ refs (w_heap w') ⊎ rs' -> l ∉ D -> object_at w l items -> object_at w' l items.
Proof using Hinv Hinv' Hfr.
  intros Hl HD Ho. pose proof (object_seed _ _ Ho) as Hs. destruct Ho as (ht & Hb & Hr). exists ht.
  split; [by apply body_keep|]. by rewrite (fr_seed _ _ _ Hfr Hs).
Qed.

(** Children of a live array or object are referenced. *)
Lemma live_child l n x :
  l ∈ refs (w_heap w') ⊎ rs' -> w_heap w' !! l = Some n -> x ∈ body_children (n_body n) ->
  x ∈ refs (w_heap w') ⊎ rs'.
Proof using Hinv'.
  intros Hl Hn Hx. destruct (inv_live _ _ _ _ Hinv' Hl) as (n' & Hn' & Hrc). simplify_eq.
  apply gmultiset_elem_of_disj_union. left. apply (elem_of_refs _ l n); [done|]. unfold children.
  by rewrite (proj2 (Z.eqb_neq _ _)).
Qed.
Lemma array_child l xs x :
  l ∈ refs (w_heap w') ⊎ rs' -> array_at w' l xs -> x ∈ xs -> x ∈ refs (w_heap w') ⊎ rs'.
Proof using Hinv'.
  intros Hl (a & (n & Hn & Hb) & Ha) Hx. apply (live_child l n); [done|done|].
  by rewrite Hb, (array_children _ _ Ha).
Qed.
Lemma object_child l items a :
  l ∈ refs (w_heap w') ⊎ rs' -> object_at w' l items -> a ∈ kvs items -> a.2 ∈ refs (w_heap w') ⊎ rs'.
Proof using Hinv'.
  intros Hl (ht & (n & Hn & Hb) & Hr) Ha. apply (live_child l n); [done|done|].
  rewrite Hb, (object_children _ _ _ Hr), vals_kvs. by apply list_elem_of_fmap_2.
Qed.

Lemma tree_keep lo l t :
  tree w lo l t -> (forall d, d ∈ D -> (d < lo)%positive) -> l ∈ refs (w_heap w') ⊎ rs' -> tree w' lo l t.
Proof using Hinv Hinv' Hfr.
  intros Ht. induction Ht as [lo|lo|lo|lo l z Hl Hb|lo l d Hl Hb|lo l s Hl Hb|lo l xs ts Hl Ha IH|lo l items ms Hl Ho IH]
    using tree_rect; intros HD Hlive; try constructor;
    try (assert (HlD : l ∉ D) by (intros HlD; specialize (HD l HlD); lia)); try done.
  - by apply body_keep.
  - by apply body_keep.
  - by apply body_keep.
  - pose proof (array_keep l xs Hlive HlD Ha) as Ha'. eapply tree_array; [done|exact Ha'|].
    apply Forall2_same_length_lookup_2; [by apply Forall2_length in IH|].
    intros i x t Hx Ht. eapply Forall2_lookup_lr in IH as [_ IH]; [|exact Hx|exact Ht].
    apply IH.
    + intros d Hd. specialize (HD d Hd). lia.
    + eapply array_child; [exact Hlive|exact Ha'|]. by eapply list_elem_of_lookup_2.
  - pose proof (object_keep l items Hlive HlD Ho) as Ho'. eapply tree_object; [done|exact Ho'|].
    apply Forall2_same_length_lookup_2; [by apply Forall2_length in IH|].
    intros i x t Hx Ht. eapply Forall2_lookup_lr in IH as (Hk & _ & IH); [|exact Hx|exact Ht].
    split; [done|]. apply IH.
    + intros d Hd. specialize (HD d Hd). lia.
    + eapply object_child; [exact Hlive|exact Ho'|]. by eapply list_elem_of_lookup_2.
Qed.
End keep.

Lemma wp_json_typeof w l b (Q : json_type -> world -> Prop) :
  body_at w l b -> Q (type_of b) w -> wp (json_typeof l) w Q.
Proof. intros (n & Hn & <-) HQ. unfold json_typeof. wp_step. by eapply wp_deref. Qed.

(** The nodes whose body is a constant are the static ones. *)
Lemma static_body w roots Zs l b :
  Inv w roots Zs -> body_at w l b -> l ∈ statics ->
  l = the_true /\ b = True_ \/ l = the_false /\ b = False_ \/ l = the_null /\ b = Null_.
Proof.
  intros Hinv (n & Hn & <-) [m Hm]%elem_of_statics. pose proof (inv_statics _ _ _ Hinv l m Hm). simplify_eq.
  revert Hm. unfold static_heap. rewrite !lookup_insert, lookup_empty.
  repeat case_decide; try (intros [= <-]; auto); auto 6.
Qed.
Lemma leaf_body w roots Zs l b : Inv w roots Zs -> body_at w l b -> l ∉ statics -> body_ok (w_seed w) b.
Proof. intros Hinv (n & Hn & <-) Hs. by apply (inv_body _ _ _ Hinv l n). Qed.

(** Association lists of related values. *)
Lemma members_aset w lo k v t kvs_ ms :
  members w lo kvs_ ms -> tree w lo v t -> members w lo (aset k v kvs_) (aset k t ms).
Proof.
  intros H Hv. induction H as [|[k1 v1] [k2 t2] kvs_ ms [Hk H1] H IH]; simpl; [by repeat constructor|].
  simpl in Hk. subst k2. case_decide; constructor; auto.
Qed.
Lemma members_alookup w lo k kvs_ ms :
  members w lo kvs_ ms -> is_Some (alookup k kvs_) <-> is_Some (alookup k ms).
Proof.
  intros H. induction H as [|[k1 v1] [k2 t2] kvs_ ms [Hk H1] H IH]; simpl; [by split; intros []|].
  simpl in Hk. subst k2. case_decide; [|done]. by split; eauto.
Qed.
Lemma length_aset {V} k (v : V) l : (length (aset k v l) <= S (length l))%nat.
Proof. induction l as [|[k' v'] l IH]; simpl; [done|]. case_decide; simpl; lia. Qed.
