(* ===== verification/Building.v ===== *)
(** * Containers under construction

    The decoder and the deep copy fill a new array or object with new values:
    what is already inside keeps its tree, and the new child is there too. *)

From stdpp Require Import gmultiset.
From Stdlib Require Import SpecFloat.
From S2P Require Import Prelude Utf8 Strbuffer Dlist Hashtable Value Arrays Refcount ValueSpec.
From S2P Require Import Strconv Load Grammar Tree.

(** A change of a node that is new does not show in the frame. *)
Lemma frame_new D w0 w1 w2 l :
  frame D w0 w1 -> frame {[l]} w1 w2 -> (w_next w0 <= l)%positive -> frame D w0 w2.
Proof.
  intros [B1 N1 O1 S1 E1] [B2 N2 O2 S2 E2] Hl. split.
  - intros m n Hm HD Hlt. destruct (B2 m n Hm) as (n1 & Hn1 & <-); [|lia|by apply B1].
    intros ->%elem_of_singleton. lia.
  - lia.
  - auto.
  - intros Hs. specialize (S1 Hs). rewrite <- S1 in *. auto.
  - congruence.
Qed.

(** With an allocator that does not fail a constructor gives a new node. *)
Lemma new_post_cases w roots P r w' :
  new_post w roots ∅ P r w' ->
  (exists l, r = Some l /\ Inv w' (roots ⊎ {[+ l +]}) ∅ /\ (w_next w <= l)%positive /\ P w' l) \/
  (r = None /\ Inv w' roots ∅ /\ w_oom w <> []).
Proof.
  intros (Hfr & _ & _ & H). destruct r as [l|]; [left|by right].
  destruct H as (Hinv & Hnew & _ & HP). exists l. split_and!; try done.
  destruct (decide (w_next w <= l)%positive) as [|Hlt]; [done|].
  destruct (inv_closed _ _ _ Hinv l) as [n Hn]; [multiset_solver|].
  destruct (fr_bodies _ _ _ Hfr l n Hn (not_elem_of_empty _) ltac:(lia)) as (n' & Hn' & _). congruence.
Qed.
Lemma new_post_some w roots P r w' :
  new_post w roots ∅ P r w' -> w_oom w = [] ->
  exists l, r = Some l /\ Inv w' (roots ⊎ {[+ l +]}) ∅ /\ (w_next w <= l)%positive /\ P w' l.
Proof. intros [H|(_ & _ & H)]%new_post_cases Ho; [done|by destruct H]. Qed.

Lemma in_live (A roots rs : gmultiset loc) l : l ∈ A ⊎ (roots ⊎ {[+ l +]} ⊎ rs).
Proof. multiset_solver. Qed.
Lemma in_held (A roots : gmultiset loc) l : l ∈ A ⊎ (roots ⊎ {[+ l +]}).
Proof. multiset_solver. Qed.
Lemma in_roots (roots : gmultiset loc) l : l ∈ roots ⊎ {[+ l +]}.
Proof. multiset_solver. Qed.

Section build.
Context (w w1 : world) (roots : gmultiset loc) (l x : loc) (t : json).
(** [l] is being filled in [w]; [x] is a new value built from there to [w1]. *)
Hypothesis (Hinv : Inv w (roots ⊎ {[+ l +]}) ∅) (Hinv1 : Inv w1 (roots ⊎ {[+ l +]} ⊎ {[+ x +]}) ∅).
Hypothesis (Hfr : frame ∅ w w1) (Ht : tree w1 (w_next w) x t).

Lemma built_ne b : body_at w l b -> l ∉ statics -> (Pos.succ l <= w_next w)%positive /\ l <> x.
Proof using Hinv Hinv1 Ht.
  intros Hb Hns. pose proof (body_at_fresh _ _ _ _ _ Hinv Hb) as Hlt.
  split; [lia|]. intros ->. destruct (tree_root _ _ _ _ Ht); [done|lia].
Qed.

(** A tree below [l] survives the construction of [x]. *)
Lemma sibling_built y u :
  tree w (Pos.succ l) y u -> y ∈ refs (w_heap w1) ⊎ (roots ⊎ {[+ l +]} ⊎ {[+ x +]}) -> tree w1 (Pos.succ l) y u.
Proof using Hinv Hinv1 Hfr.
  intros Hy Hl. eapply (tree_keep _ _ _ _ _ _ _ Hinv Hinv1 Hfr); [exact Hy| |exact Hl]. by intros ? ?%elem_of_empty.
Qed.

Lemma append_any xs ts :
  array_at w l xs -> Forall2 (tree w (Pos.succ l)) xs ts -> Z.of_nat (length xs) + 1 <= ARRAY_MAX ->
  wp (json_array_append_new (Some l) (Some x)) w1 (fun r w2 =>
    Inv w2 (roots ⊎ {[+ l +]}) ∅ /\ frame {[l]} w1 w2 /\ w_seed w2 = w_seed w1 /\
    (r = 0 /\ array_at w2 l (xs ++ [x]) /\ Forall2 (tree w2 (Pos.succ l)) (xs ++ [x]) (ts ++ [t]) \/
     r = -1 /\ w_oom w1 <> [])).
Proof using All.
  intros Ha Hxs Hlen. pose proof (array_not_static _ _ _ _ _ Hinv Ha) as Hns.
  pose proof Ha as (a & Hb & _). destruct (built_ne _ Hb Hns) as [Hlt Hne].
  pose proof (array_keep _ _ _ _ _ _ _ Hinv Hinv1 Hfr l xs (in_live _ _ _ _) (not_elem_of_empty _) Ha) as Ha1.
  eapply wp_mono; [by apply (json_array_append_new_spec w1 (roots ⊎ {[+ l +]}) ∅ l xs x Hinv1 Ha1); [apply in_roots| |]|].
  intros r w2 (Hinv2 & Hfr2 & [Hseed _] & [[-> Ha2]|(-> & _ & Ho)]); (split_and!; try done); [left|by right].
  split_and!; try done.
  assert (Hxs1 : Forall2 (tree w1 (Pos.succ l)) (xs ++ [x]) (ts ++ [t])).
  { apply Forall2_app; [|constructor; [by eapply tree_lower|constructor]].
    apply Forall2_same_length_lookup_2; [by apply Forall2_length in Hxs|]. intros j y u Hy Hu.
    apply sibling_built; [by eapply (Forall2_lookup_lr _ _ _ _ _ _ Hxs)|].
    eapply (array_child _ _ _ Hinv1 l xs y (in_live _ _ _ _) Ha1). by eapply list_elem_of_lookup_2. }
  apply Forall2_same_length_lookup_2; [by apply Forall2_length in Hxs1|]. intros j y u Hy Hu.
  eapply (tree_keep _ _ _ _ _ _ _ Hinv1 Hinv2 Hfr2); [by eapply (Forall2_lookup_lr _ _ _ _ _ _ Hxs1)| |].
  - intros ? ->%elem_of_singleton. lia.
  - eapply (array_child _ _ _ Hinv2 l _ y (in_held _ _ _) Ha2). by eapply list_elem_of_lookup_2.
Qed.

Lemma set_any items acc k :
  object_at w l items -> members w (Pos.succ l) (kvs items) acc -> Z.of_nat (length items) < 2 ^ 31 ->
  Z.of_nat (length k) < MAX_KEY ->
  wp (json_object_set_new_nocheck (Some l) (Some k) (Some x)) w1 (fun r w2 =>
    Inv w2 (roots ⊎ {[+ l +]}) ∅ /\ frame {[l]} w1 w2 /\ w_seed w2 = w_seed w1 /\
    (r = 0 /\ (exists items', object_at w2 l items' /\ (length items' <= S (length items))%nat /\
       members w2 (Pos.succ l) (kvs items') (aset k t acc)) \/
     r = -1 /\ w_oom w1 <> [])).
Proof using All.
  intros Ho Hms Hlen Hk. pose proof (object_not_static _ _ _ _ _ Hinv Ho) as Hns.
  pose proof Ho as (ht & Hb & _). destruct (built_ne _ Hb Hns) as [Hlt Hne].
  pose proof (object_keep _ _ _ _ _ _ _ Hinv Hinv1 Hfr l items (in_live _ _ _ _) (not_elem_of_empty _) Ho) as Ho1.
  eapply wp_mono; [by apply (json_object_set_new_nocheck_spec w1 (roots ⊎ {[+ l +]}) ∅ l items k x Hinv1 Ho1); [apply in_roots| |]|].
  intros r w2 (Hinv2 & Hfr2 & [Hseed _] & [(-> & items' & Ho2 & Ekv & _)|(-> & _ & [Ho'|Hbig])]); [..|lia]; (split_and!; try done); [left|by right].
  split; [done|]. exists items'. split; [done|].
  assert (Hlen' : length items' = length (aset k x (kvs items))) by (rewrite <- Ekv; unfold kvs; by rewrite length_fmap).
  split; [rewrite Hlen'; etransitivity; [apply length_aset|]; unfold kvs; by rewrite length_fmap|].
  assert (Hms1 : members w1 (Pos.succ l) (kvs items') (aset k t acc)).
  { rewrite Ekv. apply members_aset; [|by eapply tree_lower].
    apply Forall2_same_length_lookup_2; [by apply Forall2_length in Hms|]. intros j a b Ha Hab.
    destruct (Forall2_lookup_lr _ _ _ _ _ _ Hms Ha Hab) as [Hkey Hu]. split; [done|]. apply sibling_built; [done|].
    eapply (object_child _ _ _ Hinv1 l items a (in_live _ _ _ _) Ho1). by eapply list_elem_of_lookup_2. }
  apply Forall2_same_length_lookup_2; [by apply Forall2_length in Hms1|]. intros j a b Ha Hab.
  destruct (Forall2_lookup_lr _ _ _ _ _ _ Hms1 Ha Hab) as [Hkey Hu]. split; [done|].
  eapply (tree_keep _ _ _ _ _ _ _ Hinv1 Hinv2 Hfr2); [exact Hu| |].
  - intros ? ->%elem_of_singleton. lia.
  - eapply (object_child _ _ _ Hinv2 l items' a (in_held _ _ _) Ho2). by eapply list_elem_of_lookup_2.
Qed.

(** With memory, the child is in its container. *)
Hypothesis (Hoom : w_oom w1 = []).
Lemma append_built xs ts :
  array_at w l xs -> Forall2 (tree w (Pos.succ l)) xs ts -> Z.of_nat (length xs) + 1 <= ARRAY_MAX ->
  wp (json_array_append_new (Some l) (Some x)) w1 (fun r w2 =>
    r = 0 /\ Inv w2 (roots ⊎ {[+ l +]}) ∅ /\ frame {[l]} w1 w2 /\ w_seed w2 = w_seed w1 /\
    array_at w2 l (xs ++ [x]) /\ Forall2 (tree w2 (Pos.succ l)) (xs ++ [x]) (ts ++ [t])).
Proof using All.
  intros Ha Hxs Hlen. eapply wp_mono; [by apply append_any|]. intros r w2 (H1 & H2 & H3 & [(-> & H4 & H5)|[_ H4]]); [done|by rewrite Hoom in H4].
Qed.
Lemma set_built items acc k :
  object_at w l items -> members w (Pos.succ l) (kvs items) acc -> Z.of_nat (length items) < 2 ^ 31 ->
  Z.of_nat (length k) < MAX_KEY ->
  wp (json_object_set_new_nocheck (Some l) (Some k) (Some x)) w1 (fun r w2 =>
    r = 0 /\ Inv w2 (roots ⊎ {[+ l +]}) ∅ /\ frame {[l]} w1 w2 /\ w_seed w2 = w_seed w1 /\
    exists items', object_at w2 l items' /\ (length items' <= S (length items))%nat /\
      members w2 (Pos.succ l) (kvs items') (aset k t acc)).
Proof using All.
  intros Ho Hms Hlen Hk. eapply wp_mono; [by apply set_any|]. intros r w2 (H1 & H2 & H3 & [[-> H4]|[_ H4]]); [done|by rewrite Hoom in H4].
Qed.
End build.
