(* ===== verification/Update.v ===== *)
(** * Updates, extensions and shallow copies (jansson/src/value.c)

    The functions that put references of one container into another:
    [json_object_update] and its variants, [json_array_extend], [json_copy];
    and the ones that change a value in place. *)

From stdpp Require Import gmultiset.
From Stdlib Require Import SpecFloat.
From S2P Require Import Prelude Utf8 Strbuffer Dlist Hashtable Value Arrays Refcount ValueSpec Iterate Client.
From S2P Require Import Grammar Tree Building.

(* ------------------------------------------------------------------ *)
(** ** Counting references *)

(** The nodes of [h'] are nodes of [h] with the same bodies, except at [l]. *)
Definition within (l : loc) (h h' : gmap loc node) : Prop :=
  forall m n', h' !! m = Some n' -> m <> l -> exists n, h !! m = Some n /\ n_body n' = n_body n /\ refcount n <> 0.

Lemma refs_within l h h' m : within l h h' -> h' !! l = None ->
  (multiplicity m (refs h') <= multiplicity m (refs h))%nat.
Proof.
  revert h. induction h' as [|k n h' Hk IH] using map_ind; intros h Hw Hl.
  { change (refs ∅) with (∅ : gmultiset loc). rewrite multiplicity_empty. lia. }
  apply lookup_insert_None in Hl as [Hl Hne]. rewrite refs_insert_new by done. rewrite multiplicity_disj_union.
  destruct (Hw k n) as (n0 & Hn0 & Hb & Hrc); [by rewrite lookup_insert_eq|done|]. rewrite (refs_delete h k n0 Hn0), multiplicity_disj_union.
  assert (Hrest : (multiplicity m (refs h') <= multiplicity m (refs (delete k h)))%nat).
  { apply IH; [|done]. intros j nj Hj Hjl. assert (Hjk : j <> k) by congruence.
    destruct (Hw j nj) as (n1 & Hn1 & Hrest); [by rewrite lookup_insert_ne|done|]. exists n1. by rewrite lookup_delete_ne. }
  assert (Hch : (multiplicity m (mset (children n)) <= multiplicity m (mset (children n0)))%nat); [|lia].
  unfold children. rewrite Hb. apply Z.eqb_neq in Hrc. rewrite Hrc. destruct (refcount n =? 0); [|lia].
  cbn. rewrite multiplicity_empty. lia.
Qed.

Lemma multiplicity_mset_le m (xs : list loc) : (multiplicity m (mset xs) <= length xs)%nat.
Proof.
  induction xs as [|x xs IH]; [change (mset []) with (∅ : gmultiset loc); rewrite multiplicity_empty; lia|].
  change (mset (x :: xs)) with ({[+ x +]} ⊎ mset xs). rewrite multiplicity_disj_union, multiplicity_singleton. cbn [length]. case_decide; lia.
Qed.

(** If only the body of [l] changed, a count grew by at most its length. *)
Lemma refs_frame w w' roots roots' l n m : Inv w roots ∅ -> Inv w' roots' ∅ -> frame {[l]} w w' -> w_next w' = w_next w ->
  w_heap w' !! l = Some n ->
  (multiplicity m (refs (w_heap w')) <= multiplicity m (refs (w_heap w)) + length (body_children (n_body n)))%nat.
Proof.
  intros Hinv Hinv' Hfr Hnext Hn. rewrite (refs_delete _ _ _ Hn), multiplicity_disj_union.
  assert (Hch : (multiplicity m (mset (children n)) <= length (body_children (n_body n)))%nat).
  { unfold children. case_match; [cbn; rewrite multiplicity_empty; lia|apply multiplicity_mset_le]. }
  enough (multiplicity m (refs (delete l (w_heap w'))) <= multiplicity m (refs (w_heap w)))%nat by lia.
  apply (refs_within l); [|apply lookup_delete_eq]. intros k nk Hk Hkl. rewrite lookup_delete_ne in Hk by done.
  pose proof (inv_fresh _ _ _ Hinv' k ltac:(by rewrite Hk)) as Hlt. rewrite Hnext in Hlt.
  destruct (fr_bodies _ _ _ Hfr k nk Hk ltac:(by apply not_elem_of_singleton) Hlt) as (n0 & Hn0 & Hb). exists n0. split_and!; [done|done|].
  destruct (decide (k ∈ statics)) as [Hs|Hs].
  - destruct (static_node _ _ _ _ Hinv Hs) as (n1 & Hn1 & Hrc & _). simplify_eq. by rewrite Hrc.
  - intros Hz. by apply (inv_count _ _ _ Hinv k n0 Hn0 Hs), elem_of_empty in Hz.
Qed.

(** Room for [n] more references to every value. *)
Definition count_room (n : Z) (w : world) (roots : gmultiset loc) : Prop :=
  forall m, Z.of_nat (multiplicity m (refs (w_heap w) ⊎ roots)) + n < SIZE_MAX.

Lemma object_size_max w l items : object_at w l items -> Z.of_nat (length items) <= 2 ^ 31.
Proof.
  intros (ht & _ & xs & Hwf). pose proof (wf_max _ _ _ _ Hwf) as Hmax. by rewrite (wf_size _ _ _ _ Hwf) in Hmax.
Qed.

Lemma object_room w w' roots l its m : Inv w roots ∅ -> Inv w' roots ∅ -> frame {[l]} w w' -> w_next w' = w_next w ->
  count_room (2 ^ 31 + 1) w roots -> object_at w' l its -> Z.of_nat (multiplicity m (refs (w_heap w') ⊎ roots)) + 1 < SIZE_MAX.
Proof.
  intros Hinv Hinv' Hfr Hnext Hroom Ho. pose proof (object_size_max _ _ _ Ho) as Hmax. specialize (Hroom m).
  destruct Ho as (ht & (n & Hn & Hb) & Hrep). pose proof (refs_frame w w' _ _ l n m Hinv Hinv' Hfr Hnext Hn) as Hle.
  rewrite Hb, (Permutation_length (object_children _ _ _ Hrep)) in Hle. unfold vals in Hle. rewrite length_fmap in Hle.
  rewrite multiplicity_disj_union in *. lia.
Qed.

(* ------------------------------------------------------------------ *)
(** ** [json_object_update] *)

Lemma incref_next l w r w' : json_incref (Some l) w = inr (r, w') -> w_next w' = w_next w.
Proof.
  unfold json_incref, deref, bind. destruct (w_heap w !! l) as [n|]; [|done]. cbn. destruct (refcount n =? SIZE_MAX); by intros [= _ <-].
Qed.

(** [json_object_set_nocheck]: the object takes a reference of its own. *)
Lemma set_nocheck_spec w roots l its k v :
  Inv w roots ∅ -> object_at w l its -> l ∈ roots -> v ∈ refs (w_heap w) ⊎ roots ->
  Z.of_nat (multiplicity v (refs (w_heap w) ⊎ roots)) + 1 < SIZE_MAX -> Z.of_nat (length its) < 2 ^ 31 ->
  wp (json_object_set_nocheck (Some l) (Some k) (Some v)) w (fun r w' =>
    Inv w' roots ∅ /\ frame {[l]} w w' /\ w_next w' = w_next w /\
    ((r = 0 /\ exists its', object_at w' l its' /\ kvs its' = aset k v (kvs its) /\ its.*1 `prefix_of` its'.*1) \/
     (r = -1 /\ object_at w' l its /\ (v = l \/ w_oom w <> [] \/ MAX_KEY <= Z.of_nat (length k))))).
Proof.
  intros Hinv Ho Hl Hv Hcnt Hlen. unfold json_object_set_nocheck. wp_step.
  destruct (wp_inv _ _ _ (json_incref_spec w roots ∅ v Hinv Hv Hcnt)) as (? & w1 & E & -> & Hinv1 & Hrefs & Hfr1 & Hb1 & Hoom1 & Hs1).
  eapply wp_eq; [exact E|]. pose proof (incref_next _ _ _ _ E) as Hn1.
  assert (Ho1 : object_at w1 l its) by (destruct Ho as (ht & Hb & Hrep); exists ht; rewrite Hs1; split; [by apply Hb1|done]).
  destruct (decide (l = v)) as [<-|Hne].
  - unfold json_object_set_new_nocheck. wp_step. pose proof Ho1 as (ht & Hb & _). eapply wp_json_is; [exact Hb|].
    rewrite (bool_decide_true (l = l)), orb_true_r by done. wp_step. eapply wp_mono; [by apply json_decref_spec|].
    intros ? w2 (Hinv2 & Hsh2 & _). rewrite wp_ret. split_and!; [done| |rewrite (sh_next _ _ Hsh2); done|right; split_and!; auto].
    + etransitivity; [by apply (frame_mono ∅)|by apply shrink_frame].
    + destruct Ho1 as (ht' & Hb' & Hrep). exists ht'. rewrite (sh_seed _ _ Hsh2). split; [|done]. eapply body_at_shrink; eauto.
  - eapply wp_mono; [by apply json_object_set_new_nocheck_spec|]. intros r w2 (Hinv2 & Hfr2 & [_ Hn2] & Hr). rewrite Hoom1 in Hr.
    split_and!; [done| |congruence|destruct Hr as [Hr|Hr]; [by left|right; naive_solver]].
    etransitivity; [by apply (frame_mono ∅)|done].
Qed.

(** The pairs of one object set in another, in order. *)
Definition updates {V} (kvs_ : list (bytes * V)) (acc : list (bytes * V)) : list (bytes * V) :=
  fold_left (fun acc kv => aset kv.1 kv.2 acc) kvs_ acc.

Lemma aset_same {V} k (v : V) kvs_ : alookup k kvs_ = Some v -> aset k v kvs_ = kvs_.
Proof.
  induction kvs_ as [|[k' v'] kvs_ IH]; cbn; [done|]. case_decide; [intros [= ->]; done|]. intros Hk. by rewrite IH.
Qed.
Lemma alookup_lookup {V} (kvs_ : list (bytes * V)) i k v : NoDup kvs_.*1 -> kvs_ !! i = Some (k, v) -> alookup k kvs_ = Some v.
Proof.
  intros Hnd Hi. rewrite <- (take_drop_middle kvs_ i (k, v) Hi) in Hnd |- *. apply alookup_split. rewrite fmap_app in Hnd.
  apply NoDup_app in Hnd as (_ & Hdis & _). intros Hin. by apply (Hdis _ Hin), elem_of_cons; left.
Qed.
Lemma object_nodup w l its : object_at w l its -> NoDup (kvs its).*1.
Proof. intros (ht & _ & xs & Hwf). rewrite <- keys_kvs. apply (wf_keys _ _ _ _ Hwf). Qed.

(** Pairs that are there already change nothing. *)
Lemma updates_there {V} (kvs_ acc : list (bytes * V)) :
  (forall k v, (k, v) ∈ kvs_ -> alookup k acc = Some v) -> updates kvs_ acc = acc.
Proof.
  unfold updates. induction kvs_ as [|[k v] kvs_ IH]; intros Hin; cbn; [done|].
  rewrite (aset_same k v acc) by (apply Hin; by left). apply IH. intros k' v' H'. apply Hin. by right.
Qed.
Lemma updates_self {V} (kvs_ : list (bytes * V)) : NoDup kvs_.*1 -> updates kvs_ kvs_ = kvs_.
Proof. intros Hnd. apply updates_there. intros k v [i Hi]%list_elem_of_lookup_1. by eapply alookup_lookup. Qed.

Section update.
Context (w : world) (roots : gmultiset loc) (l o : loc) (items others : items_t).
Hypothesis (Hinv : Inv w roots ∅) (Hl : l ∈ roots) (Ho : o ∈ roots) (Hcount : count_room (2 ^ 31 + 1) w roots).
Hypothesis (Hitems : object_at w l items) (Hothers : object_at w o others) (Hself : l = o -> items = others).
Hypothesis (Hroom : Z.of_nat (length items + length others) <= 2 ^ 31).

(** Between two iterations: [l] is at [its], and [o] has its pairs. *)
Record updating (i : nat) (w' : world) (its : items_t) : Prop := {
  up_inv : Inv w' roots ∅;
  up_frame : frame {[l]} w w';
  up_next : w_next w' = w_next w;
  up_at : object_at w' l its;
  up_len : (length its <= length items + i)%nat;
  up_other : exists others', object_at w' o others' /\ same_pairs others others';
  up_self : l = o -> same_pairs others its;
}.

Lemma updating_start : updating 0 w items.
Proof using All. split; try done; [lia|by exists others|]. intros E. by rewrite (Hself E). Qed.

(** A pair is set, or skipped. *)
Lemma updating_step i w' its k v : kvs others !! i = Some (k, v) -> updating i w' its ->
  wp (json_object_set_nocheck (Some l) (Some k) (Some v)) w' (fun r w2 => exists its', updating (S i) w2 its' /\
    ((r = 0 /\ kvs its' = aset k v (kvs its)) \/
     (r = -1 /\ kvs its' = kvs its /\ (v = l \/ w_oom w <> [] \/ MAX_KEY <= Z.of_nat (length k))))).
Proof using All.
  intros Hkv [Hinv1 Hfr1 Hn1 Hat Hlen (others' & Hoth & Hsame) Hself1]. pose proof (lookup_lt_Some _ _ _ Hkv) as Hlt.
  unfold kvs in Hlt. rewrite length_fmap in Hlt.
  assert (Hv : v ∈ refs (w_heap w') ⊎ roots).
  { apply (object_child _ _ _ Hinv1 o others' (k, v)); [multiset_solver|done|]. rewrite (proj2 Hsame). by eapply list_elem_of_lookup_2. }
  eapply wp_mono; [apply (set_nocheck_spec w' roots l its k v Hinv1 Hat Hl Hv); [by eapply (object_room w w')|lia]|].
  intros r w2 (Hinv2 & Hfr2 & Hn2 & Hr).
  assert (Hfr : frame {[l]} w w2) by (by etransitivity). assert (Hn : w_next w2 = w_next w) by congruence.
  assert (Hoth2 : l <> o -> exists others', object_at w2 o others' /\ same_pairs others others').
  { intros Hne. exists others'. split; [|done]. eapply (object_keep _ _ _ _ _ _ _ Hinv1 Hinv2 Hfr2); [multiset_solver| |done].
    apply not_elem_of_singleton. congruence. }
  destruct Hr as [(-> & its' & Hat2 & Ekv & Hpre)|(-> & Hat2 & Hwhy)].
  - assert (Hs2 : l = o -> same_pairs others its').
    { intros E. destruct (Hself1 E) as [H1 H2]. assert (Ekv' : kvs its' = kvs its).
      { rewrite Ekv. apply aset_same. rewrite H2. eapply alookup_lookup; [by eapply object_nodup|done]. }
      split; [|congruence]. rewrite <- H1. apply (f_equal length) in Ekv'. unfold kvs in Ekv'. rewrite !length_fmap in Ekv'.
      destruct Hpre as [rest Epre]. pose proof (f_equal length Epre) as El. rewrite length_app, !length_fmap in El.
      destruct rest; [by rewrite app_nil_r in Epre|cbn in El; lia]. }
    exists its'. split; [split; try done|by left].
    + pose proof (length_aset k v (kvs its)) as Hla. rewrite <- Ekv in Hla. unfold kvs in Hla. rewrite !length_fmap in Hla. lia.
    + destruct (decide (l = o)) as [E|E]; [|by apply Hoth2]. exists its'. split; [by rewrite <- E|by apply Hs2].
  - exists its. split; [split; try done|right; split_and!; try done].
    + lia.
    + destruct (decide (l = o)) as [E|E]; [|by apply Hoth2]. exists its. split; [by rewrite <- E|by apply Hself1].
    + destruct Hwhy as [?|[Hoom|?]]; [by left| |auto]. right. left. intros E. by apply Hoom, (fr_oom _ _ _ Hfr1).
Qed.

Lemma json_object_update_spec :
  wp (json_object_update (Some l) (Some o)) w (fun r w' =>
    Inv w' roots ∅ /\ frame {[l]} w w' /\ exists its i, object_at w' l its /\ kvs its = updates (take i (kvs others)) (kvs items) /\
    ((r = 0 /\ i = length others) \/
     (r = -1 /\ exists k v, kvs others !! i = Some (k, v) /\ (v = l \/ w_oom w <> [] \/ MAX_KEY <= Z.of_nat (length k))))).
Proof using All.
  unfold json_object_update. pose proof Hitems as (ht1 & Hb1 & _). pose proof Hothers as (ht2 & Hb2 & _).
  wp_step. eapply wp_json_is; [exact Hb1|]. wp_step. eapply wp_json_is; [exact Hb2|]. cbn [type_of]. rewrite !bool_decide_true by done. cbn [andb].
  wp_step. apply (wp_object_foreach o others _ (fun i w' => exists its, updating i w' its /\ kvs its = updates (take i (kvs others)) (kvs items))).
  - intros i w' (its & Hup & _). apply (up_other _ _ _ Hup).
  - intros i k v w' Hkv (its & Hup & Ek). wp_step. eapply wp_mono; [by apply updating_step|].
    intros r w2 (its' & Hup' & Hr). rewrite wp_ret. destruct Hr as [[-> Ek']|(-> & Ek' & Hwhy)]; cbn [negb Z.eqb Z.opp].
    + exists its'. split; [done|]. rewrite (take_S_r _ _ _ Hkv). unfold updates. rewrite fold_left_app. cbn. rewrite Ek', Ek. done.
    + rewrite wp_ret. split; [apply Hup'|]. split; [apply Hup'|]. exists its', i. split; [apply Hup'|]. split; [congruence|]. right. split; [done|]. by exists k, v.
  - intros w' (its & Hup & Ek). rewrite wp_ret. split; [apply Hup|]. split; [apply Hup|]. exists its, (length others). split; [apply Hup|]. split; [done|]. by left.
  - exists items. split; [apply updating_start|done].
Qed.

(** The variants skip what cannot be set, and say nothing. *)
Lemma update_if_spec b :
  wp (update_if b (Some l) (Some o)) w (fun r w' => r = 0 /\ Inv w' roots ∅ /\ frame {[l]} w w' /\ exists its, object_at w' l its).
Proof using All.
  unfold update_if. pose proof Hitems as (ht1 & Hb1 & _). pose proof Hothers as (ht2 & Hb2 & _).
  wp_step. eapply wp_json_is; [exact Hb1|]. wp_step. eapply wp_json_is; [exact Hb2|]. cbn [type_of]. rewrite !bool_decide_true by done. cbn [andb].
  wp_step. apply (wp_object_foreach o others _ (fun i w' => exists its, updating i w' its)).
  - intros i w' (its & Hup). apply (up_other _ _ _ Hup).
  - intros i k v w' Hkv (its & Hup). wp_step. eapply wp_mono; [apply json_object_get_spec, Hup|]. cbv beta. intros ? ? [-> ->]. wp_step.
    destruct (Bool.eqb _ b).
    + wp_step. eapply wp_mono; [by apply updating_step|]. intros r w2 (its' & Hup' & _). rewrite !wp_ret. by exists its'.
    + rewrite !wp_ret. exists its. destruct Hup. split; try done. lia.
  - intros w' (its & Hup). rewrite wp_ret. split_and!; [done|apply Hup|apply Hup|]. exists its. apply Hup.
  - exists items. apply updating_start.
Qed.
End update.

(* ------------------------------------------------------------------ *)
(** ** [json_array_extend] *)

Definition kept (w w' : world) : Prop :=
  refs (w_heap w') = refs (w_heap w) /\ frame ∅ w w' /\ (forall m b, body_at w m b -> body_at w' m b) /\
  w_oom w' = w_oom w /\ w_seed w' = w_seed w /\ w_next w' = w_next w.

(** References to all values of a list. *)
Lemma incref_all vs : forall w roots, Inv w roots ∅ -> (forall v, v ∈ vs -> v ∈ refs (w_heap w) ⊎ roots) ->
  count_room (Z.of_nat (length vs)) w roots ->
  wp (iterM (fun v => json_incref (Some v) ;;; ret tt) vs) w (fun _ w' => Inv w' (roots ⊎ mset vs) ∅ /\ kept w w').
Proof.
  induction vs as [|v vs IH]; intros w roots Hinv Hlive Hcnt; cbn [iterM].
  { rewrite wp_ret. change (mset []) with (∅ : gmultiset loc). rewrite gmultiset_disj_union_right_id. split; [done|]. by split_and!. }
  wp_step. wp_step.
  assert (Hc : Z.of_nat (multiplicity v (refs (w_heap w) ⊎ roots)) + 1 < SIZE_MAX) by (specialize (Hcnt v); cbn [length] in Hcnt; lia).
  destruct (wp_inv _ _ _ (json_incref_spec w roots ∅ v Hinv ltac:(apply Hlive; by left) Hc)) as (? & w1 & E & -> & Hinv1 & Hrefs & Hfr1 & Hb1 & Hoom1 & Hs1).
  eapply wp_eq; [exact E|]. rewrite wp_ret. pose proof (incref_next _ _ _ _ E) as Hn1.
  eapply wp_mono; [apply (IH w1 (roots ⊎ {[+ v +]}) Hinv1)|].
  - intros x Hx. rewrite Hrefs. specialize (Hlive x ltac:(by right)). multiset_solver.
  - intros m. specialize (Hcnt m). rewrite Hrefs. cbn [length] in Hcnt. rewrite !multiplicity_disj_union, multiplicity_singleton in *. case_decide; lia.
  - intros [] w2 (Hinv2 & Hr2 & Hf2 & Hb2 & Ho2 & Hs2 & Hn2). split.
    + change (mset (v :: vs)) with ({[+ v +]} ⊎ mset vs). by rewrite (assoc_L (⊎)).
    + split_and!; try congruence; [by etransitivity|auto].
Qed.

Lemma frame_put_at w l n : frame {[l]} w (set_heap (<[l := n]> (w_heap w)) w).
Proof. apply frame_put. by apply elem_of_singleton. Qed.

Lemma json_array_extend_spec w roots l o xs ys :
  Inv w roots ∅ -> l ∈ roots -> o ∈ roots -> array_at w l xs -> array_at w o ys -> (l = o -> xs = ys) ->
  count_room (Z.of_nat (length ys)) w roots ->
  Z.of_nat (length xs + length ys) <= ARRAY_MAX ->
  wp (json_array_extend (Some l) (Some o)) w (fun r w' => Inv w' roots ∅ /\ frame {[l]} w w' /\
    ((r = 0 /\ array_at w' l (xs ++ ys)) \/ (r = -1 /\ array_at w' l xs /\ w_oom w <> []))).
Proof.
  intros Hinv Hl Ho (a & Hba & Ha) (b & Hbb & Hb) Hself Hcnt Hmax. unfold json_array_extend.
  wp_step. eapply wp_json_is; [exact Hba|]. wp_step. eapply wp_json_is; [exact Hbb|]. cbn [type_of]. rewrite !bool_decide_true by done. cbn [andb].
  wp_step. eapply wp_json_to_array; [exact Hba|]. wp_step. eapply wp_json_to_array; [exact Hbb|]. wp_step. apply wp_run_am.
  eapply wp_mono; [apply (array_grow_copy_spec a xs (a_entries b) (w_oom w) Ha); rewrite (ar_entries _ _ Hb); lia|].
  intros g x [Hx Hg]. destruct g as [[a1 t1]|].
  2:{ rewrite wp_ret. split; [by apply inv_set_oom|]. split; [by apply frame_set_oom|]. right. split_and!; [done|by exists a|done]. }
  destruct Hg as [Ha1 Hfit]. destruct Hba as (n & Hn & Hbn). wp_step. eapply wp_put_body; [exact Hn|]. set (w1 := set_heap _ _).
  assert (Hlive : l ∈ refs (w_heap w) ⊎ roots) by multiset_solver.
  assert (Hinv1 : Inv w1 roots ∅) by (eapply (inv_put_array (set_oom x w)); eauto; by apply inv_set_oom).
  assert (Hfr1 : frame {[l]} w w1) by (etransitivity; [by apply (frame_set_oom {[l]} w x)|apply frame_put_at]).
  assert (Hat1 : array_at w1 o ys).
  { destruct (decide (l = o)) as [<-|Hne].
    - rewrite <- (Hself eq_refl). exists a1. split; [|done]. eexists. cbn. by rewrite lookup_insert_eq.
    - exists b. split; [|done]. destruct Hbb as (nb & Hnb & Eb). exists nb. cbn. by rewrite lookup_insert_ne. }
  assert (Hrefs1 : refs (w_heap w1) = refs (w_heap w)).
  { destruct (inv_live _ _ _ _ Hinv Hlive) as (n' & Hn' & Hrc). rewrite Hn in Hn'. injection Hn' as <-.
    pose proof (refs_insert (w_heap w) l n {| refcount := refcount n; n_body := Array a1 |} Hn) as Hr.
    unfold children in Hr. cbn [refcount n_body] in Hr. apply Z.eqb_neq in Hrc. rewrite Hrc, Hbn in Hr.
    rewrite (array_children _ _ Ha1), (array_children _ _ Ha) in Hr. cbn. multiset_solver. }
  destruct Hat1 as (b1 & Hbb1 & Hb1). wp_step. eapply wp_json_to_array; [exact Hbb1|]. wp_step. eapply wp_require; [by apply array_items_ok|].
  wp_step. eapply wp_mono; [apply (incref_all ys w1 roots Hinv1)|].
  { intros v Hv. apply (array_child _ _ _ Hinv1 o ys v); [multiset_solver|by exists b1|done]. }
  { intros m. by rewrite Hrefs1. }
  intros [] w2 (Hinv2 & Hr2 & Hf2 & Hb2 & Ho2 & Hs2 & Hn2). destruct (array_extend_ok a1 b1 xs ys Ha1 Hb1) as (t & Et & Hext).
  { rewrite (ar_entries _ _ Hb) in Hfit. lia. }
  wp_step. eapply wp_require; [exact Et|].
  destruct (Hb2 l (Array a1)) as (n2 & Hn2' & Eb2); [eexists; cbn; by rewrite lookup_insert_eq|].
  wp_step. eapply wp_put_body; [exact Hn2'|]. rewrite wp_ret. split_and!.
  - eapply (inv_put_array w2); [exact Hinv2|exact Hn2'|exact Eb2|exact Ha1|exact Hext|multiset_solver|].
    rewrite list_to_set_disj_app. multiset_solver.
  - etransitivity; [exact Hfr1|]. etransitivity; [by apply (frame_mono ∅)|]. apply frame_put_at.
  - left. split; [done|]. eexists. split; [|exact Hext]. eexists. cbn. by rewrite lookup_insert_eq.
Qed.

(* ------------------------------------------------------------------ *)
(** ** Shallow copies *)

(** A new container is one more value nobody refers to. *)
Lemma new_room w roots P l w' n : new_post w roots ∅ P (Some l) w' -> count_room (n + 1) w roots -> count_room n w' (roots ⊎ {[+ l +]}).
Proof.
  intros (_ & _ & Hrefs & _) Hroom m. specialize (Hroom m). rewrite Hrefs. rewrite !multiplicity_disj_union, multiplicity_singleton in *. case_decide; lia.
Qed.

(** [json_object_copy]: the same pairs in a new object; what there is no memory
    for is left out. *)
Lemma json_object_copy_spec w roots o others :
  Inv w roots ∅ -> o ∈ roots -> object_at w o others -> count_room (2 ^ 31 + 2) w roots ->
  wp (json_object_copy o) w (fun r w' => frame ∅ w w' /\
    match r with
    | Some l => Inv w' (roots ⊎ {[+ l +]}) ∅ /\ (w_next w <= l)%positive /\ exists its, object_at w' l its /\
        (w_oom w = [] -> Forall (fun k => Z.of_nat (length k) < MAX_KEY) (keys others) -> kvs its = kvs others)
    | None => Inv w' roots ∅ /\ w_oom w <> []
    end).
Proof.
  intros Hinv Ho Hothers Hcount. unfold json_object_copy. wp_step. eapply wp_mono; [by apply json_object_spec|].
  intros r w1 Hpost. pose proof Hpost as (Hfr1 & _ & Hrefs & _).
  destruct (new_post_cases _ _ _ _ _ Hpost) as [(l & -> & Hinv1 & Hnew & Hat)|(-> & Hinv1 & Hoom)]; [|by rewrite wp_ret].
  assert (Hne : l <> o) by (intros ->; pose proof (inv_root _ _ _ o Hinv Ho) as (n & Hn & _); pose proof (inv_fresh _ _ _ Hinv o ltac:(by rewrite Hn)); lia).
  assert (Hoth1 : object_at w1 o others).
  { eapply (object_keep _ _ _ _ _ _ _ Hinv Hinv1 Hfr1); [multiset_solver|apply not_elem_of_empty|done]. }
  pose proof (new_room w roots _ l w1 (2 ^ 31 + 1) Hpost Hcount) as Hroom1. pose proof (object_size_max _ _ _ Hothers) as Hmax.
  assert (Hl1 : l ∈ roots ⊎ {[+ l +]}) by multiset_solver. assert (Ho1 : o ∈ roots ⊎ {[+ l +]}) by multiset_solver.
  wp_step. apply (wp_object_foreach o others _ (fun i w' => exists its, updating w1 (roots ⊎ {[+ l +]}) l o [] others i w' its /\
    (w_oom w = [] -> Forall (fun k => Z.of_nat (length k) < MAX_KEY) (keys others) -> kvs its = take i (kvs others)))).
  - intros i w' (its & Hup & _). apply (up_other _ _ _ _ _ _ _ _ _ Hup).
  - intros i k v w' Hkv (its & Hup & Hk). wp_step.
    eapply wp_mono; [apply (updating_step w1 (roots ⊎ {[+ l +]}) l o [] others Hinv1 Hl1 Ho1 Hroom1 Hat Hoth1 ltac:(done) Hmax i w' its k v Hkv Hup)|].
    intros r w2 (its' & Hup' & Hr). rewrite wp_ret. exists its'. split; [done|]. intros Hoom Hkeys. rewrite (take_S_r _ _ _ Hkv).
    assert (Hnd : NoDup (take i (kvs others) ++ [(k, v)]).*1).
    { rewrite <- (take_S_r _ _ _ Hkv), fmap_take. eapply sublist_NoDup; [by eapply (object_nodup w o)|]. apply sublist_take. }
    destruct Hr as [[_ ->]|(_ & _ & [->|[H|H]])].
    + rewrite Hk by done. apply aset_new. rewrite fmap_app in Hnd. apply NoDup_app in Hnd as (_ & Hdis & _). intros Hin. by apply (Hdis _ Hin), elem_of_cons; left.
    + exfalso. assert (Hin : l ∈ refs (w_heap w) ⊎ roots).
      { apply (object_child _ _ _ Hinv o others (k, l)); [multiset_solver|done|]. by eapply list_elem_of_lookup_2. }
      destruct (inv_live _ _ _ _ Hinv Hin) as (n & Hn & _). pose proof (inv_fresh _ _ _ Hinv l ltac:(by rewrite Hn)). lia.
    + exfalso. apply H. by apply (fr_oom _ _ _ Hfr1).
    + exfalso. rewrite Forall_forall in Hkeys. specialize (Hkeys k). rewrite keys_kvs in Hkeys. apply list_elem_of_lookup_2 in Hkv.
      apply (list_elem_of_fmap_2 fst) in Hkv. specialize (Hkeys Hkv). lia.
  - intros w' (its & Hup & Hk). rewrite wp_ret. split.
    + eapply (frame_new ∅ w w1 w' l); [done|apply Hup|lia].
    + split_and!; [apply Hup|done|]. exists its. split; [apply Hup|]. intros Hoom Hkeys. rewrite (Hk Hoom Hkeys), take_ge; [done|].
      unfold kvs. rewrite length_fmap. lia.
  - exists []. split; [|done]. apply updating_start; try done; lia.
Qed.

(** [json_array_append]: the array takes a reference of its own. *)
Lemma array_append_spec w roots l xs v :
  Inv w roots ∅ -> array_at w l xs -> l ∈ roots -> v ∈ refs (w_heap w) ⊎ roots -> l <> v ->
  Z.of_nat (multiplicity v (refs (w_heap w) ⊎ roots)) + 1 < SIZE_MAX -> Z.of_nat (length xs) + 1 <= ARRAY_MAX ->
  wp (json_array_append (Some l) (Some v)) w (fun r w' =>
    Inv w' roots ∅ /\ frame {[l]} w w' /\ w_next w' = w_next w /\
    ((r = 0 /\ array_at w' l (xs ++ [v])) \/ (r = -1 /\ array_at w' l xs /\ w_oom w <> []))).
Proof.
  intros Hinv Ha Hl Hv Hne Hcnt Hlen. unfold json_array_append. wp_step.
  destruct (wp_inv _ _ _ (json_incref_spec w roots ∅ v Hinv Hv Hcnt)) as (? & w1 & E & -> & Hinv1 & Hrefs & Hfr1 & Hb1 & Hoom1 & Hs1).
  eapply wp_eq; [exact E|]. pose proof (incref_next _ _ _ _ E) as Hn1.
  assert (Ha1 : array_at w1 l xs) by (destruct Ha as (a & Hb & Hok); exists a; split; [by apply Hb1|done]).
  eapply wp_mono; [by apply json_array_append_new_spec|]. intros r w2 (Hinv2 & Hfr2 & [_ Hn2] & Hr). rewrite Hoom1 in Hr.
  split_and!; [done| |congruence|done]. etransitivity; [by apply (frame_mono ∅)|done].
Qed.

(** [json_array_copy], likewise. *)
Lemma json_array_copy_spec w roots o xs :
  Inv w roots ∅ -> o ∈ roots -> array_at w o xs -> count_room (Z.of_nat (length xs) + 2) w roots -> Z.of_nat (length xs) <= ARRAY_MAX ->
  wp (json_array_copy o) w (fun r w' => frame ∅ w w' /\
    match r with
    | Some l => Inv w' (roots ⊎ {[+ l +]}) ∅ /\ (w_next w <= l)%positive /\ exists ys, array_at w' l ys /\ (w_oom w = [] -> ys = xs)
    | None => Inv w' roots ∅ /\ w_oom w <> []
    end).
Proof.
  intros Hinv Ho Hxs Hcount Hmax. unfold json_array_copy. wp_step. eapply wp_mono; [by apply json_array_spec|].
  intros r w1 Hpost. pose proof Hpost as (Hfr1 & _ & Hrefs & _).
  destruct (new_post_cases _ _ _ _ _ Hpost) as [(l & -> & Hinv1 & Hnew & Hat)|(-> & Hinv1 & Hoom)]; [|by rewrite wp_ret].
  assert (Hold : forall m, m ∈ refs (w_heap w) ⊎ roots -> l <> m).
  { intros m Hm ->. destruct (inv_live _ _ _ _ Hinv Hm) as (n & Hn & _). pose proof (inv_fresh _ _ _ Hinv m ltac:(by rewrite Hn)). lia. }
  assert (Hkeep : forall w', Inv w' (roots ⊎ {[+ l +]}) ∅ -> frame {[l]} w1 w' -> array_at w' o xs).
  { intros w' Hinv' Hfr'. assert (H1 : array_at w1 o xs) by (eapply (array_keep _ _ _ _ _ _ _ Hinv Hinv1 Hfr1); [multiset_solver|apply not_elem_of_empty|done]).
    eapply (array_keep _ _ _ _ _ _ _ Hinv1 Hinv' Hfr'); [multiset_solver| |done]. apply not_elem_of_singleton. intros <-. by apply (Hold o); [multiset_solver|]. }
  pose proof (new_room w roots _ l w1 (Z.of_nat (length xs) + 1) Hpost ltac:(by replace (Z.of_nat (length xs) + 1 + 1) with (Z.of_nat (length xs) + 2) by lia)) as Hroom1.
  assert (Hl1 : l ∈ roots ⊎ {[+ l +]}) by multiset_solver.
  wp_step. eapply wp_mono; [by apply json_array_size_spec, (Hkeep w1)|]. cbv beta. intros ? ? [-> ->]. rewrite Nat2Z.id. wp_step.
  set (I := fun (i : nat) w' => exists ys, Inv w' (roots ⊎ {[+ l +]}) ∅ /\ frame {[l]} w1 w' /\ w_next w' = w_next w1 /\ array_at w' l ys /\
    (length ys <= i)%nat /\ (w_oom w = [] -> ys = take i xs)).
  assert (Hloop : forall fuel i w', (length xs = i + fuel)%nat -> I i w' ->
    wp (array_foreach (A := unit) fuel o (fun i => let* v := json_array_get (Some o) i in let* _ := json_array_append (Some l) v in ret None) (Z.of_nat i)) w'
       (fun _ w2 => I (length xs) w2)).
  { induction fuel as [|fuel IH]; intros i w' Hi (ys & Hinv' & Hfr' & Hn' & Hys & Hly & Hk); cbn [array_foreach];
      (wp_step; eapply wp_mono; [by apply json_array_size_spec, (Hkeep w')|]; cbv beta; intros ? ? [-> ->]).
    - rewrite (proj2 (Z.ltb_ge _ _)) by lia. rewrite wp_ret. exists ys. replace (length xs) with i by lia. done.
    - rewrite (proj2 (Z.ltb_lt _ _)) by lia. destruct (lookup_lt_is_Some_2 xs i ltac:(lia)) as [v Hv]. wp_step. wp_step.
      eapply wp_mono; [apply (json_array_get_spec w' o xs); [by apply Hkeep|lia]|]. cbv beta. intros ? ? [-> ->]. rewrite Nat2Z.id, Hv. wp_step.
      assert (Hvl : v ∈ refs (w_heap w) ⊎ roots) by (apply (array_child _ _ _ Hinv o xs v); [multiset_solver|done|by eapply list_elem_of_lookup_2]).
      assert (Hvl' : v ∈ refs (w_heap w') ⊎ (roots ⊎ {[+ l +]})).
      { apply (array_child _ _ _ Hinv' o xs v); [multiset_solver|by apply Hkeep|by eapply list_elem_of_lookup_2]. }
      eapply wp_mono; [apply (array_append_spec w' (roots ⊎ {[+ l +]}) l ys v Hinv' Hys Hl1 Hvl' (Hold v Hvl))|].
      + specialize (Hroom1 v). destruct Hys as (a & (n & Hn & Hb) & Hok).
        pose proof (refs_frame w1 w' _ _ l n v Hinv1 Hinv' Hfr' Hn' Hn) as Hle. rewrite Hb, (array_children _ _ Hok) in Hle.
        rewrite multiplicity_disj_union in *. lia.
      + lia.
      + intros r w2 (Hinv2 & Hfr2 & Hn2 & Hr). rewrite wp_ret. replace (Z.of_nat i + 1) with (Z.of_nat (S i)) by lia. apply IH; [lia|].
        destruct Hr as [[-> Hys2]|(-> & Hys2 & Hoom)].
        * exists (ys ++ [v]). split_and!; [done|by etransitivity|congruence|done|rewrite length_app; cbn; lia|].
          intros Hz. rewrite (Hk Hz). symmetry. by apply take_S_r.
        * exists ys. split_and!; [done|by etransitivity|congruence|done|lia|]. intros Hz. exfalso. apply Hoom, (fr_oom _ _ _ Hfr'). by apply (fr_oom _ _ _ Hfr1). }
  change 0 with (Z.of_nat 0). eapply wp_mono; [apply Hloop; [done|]|].
  - exists []. by split_and!.
  - intros ? w2 (ys & Hinv2 & Hfr2 & Hn2 & Hys & _ & Hk). rewrite wp_ret. split; [by eapply (frame_new ∅ w w1 w2 l)|].
    split_and!; [done|done|]. exists ys. split; [done|]. intros Hz. rewrite (Hk Hz). by apply take_ge.
Qed.

(* ------------------------------------------------------------------ *)
(** ** Changes in place *)

(** A leaf is replaced by a leaf. *)
Lemma put_leaf_safe w roots l n b : Inv w roots ∅ -> l ∈ roots -> w_heap w !! l = Some n -> l ∉ statics ->
  body_children (n_body n) = [] -> body_children b = [] -> body_ok (w_seed w) b ->
  wp (put_body l b ;;; ret 0) w (fun _ w' => Inv w' roots ∅).
Proof.
  intros Hinv Hl Hn Hs Hc Hc' Hok. wp_step. eapply wp_put_body; [exact Hn|]. rewrite wp_ret.
  assert (Hlive : l ∈ refs (w_heap w) ⊎ roots) by multiset_solver.
  destruct (inv_live _ _ _ _ Hinv Hlive) as (n' & Hn' & Hrc). simplify_eq.
  eapply inv_put; [done|done|done|done|done|]. by rewrite Hc, Hc'.
Qed.

(** A node of a type that constants do not have. *)
Lemma typed_not_static w roots l n t : Inv w roots ∅ -> w_heap w !! l = Some n -> bool_decide (type_of (n_body n) = t) = true ->
  t = JSON_STRING \/ t = JSON_INTEGER \/ t = JSON_REAL -> l ∉ statics /\ body_children (n_body n) = [].
Proof.
  intros Hinv Hn Ht%bool_decide_eq_true Hcase. split.
  - intros [m Hm]%elem_of_statics. pose proof (inv_statics _ _ _ Hinv l m Hm) as Hm'. rewrite Hn in Hm'. injection Hm' as <-.
    revert Hm. unfold static_heap. rewrite !lookup_insert. repeat case_decide; (intros [= <-]; cbn in Ht; naive_solver).
  - destruct (n_body n); cbn in Ht; try done; naive_solver.
Qed.

Lemma string_set_safe w roots l s : Inv w roots ∅ -> l ∈ roots -> Z.of_nat (length s) < SIZE_MAX ->
  wp (json_string_setn (Some l) (Some s)) w (fun _ w' => Inv w' roots ∅).
Proof.
  intros Hinv Hl Hs. unfold json_string_setn, json_string_setn_nocheck. destruct (utf8_check_string s); [|by rewrite wp_ret].
  destruct (inv_root _ _ _ l Hinv Hl) as (n & Hn & _). wp_step. eapply wp_json_is; [by exists n|].
  destruct (bool_decide _) eqn:Ht; [|by rewrite wp_ret]. destruct (typed_not_static w roots l n _ Hinv Hn Ht ltac:(auto)) as [Hst Hch].
  wp_step. apply wp_run_am. unfold jsonp_strndup. wp_step.
  destruct (jsonp_malloc_cases (size_t (Z.of_nat (length s) + 1)) (w_oom w)) as [(o & E & _ & _)|(o & E & _ & _)]; (eapply wp_eq; [exact E|]); rewrite wp_ret.
  - apply (put_leaf_safe (set_oom o w) roots l n); try done. by apply inv_set_oom.
  - rewrite wp_ret. by apply inv_set_oom.
Qed.
Lemma integer_set_safe w roots l z : Inv w roots ∅ -> l ∈ roots -> INT64_MIN <= z <= INT64_MAX ->
  wp (json_integer_set (Some l) z) w (fun _ w' => Inv w' roots ∅).
Proof.
  intros Hinv Hl Hz. unfold json_integer_set. destruct (inv_root _ _ _ l Hinv Hl) as (n & Hn & _). wp_step. eapply wp_json_is; [by exists n|].
  destruct (bool_decide _) eqn:Ht; [|by rewrite wp_ret]. destruct (typed_not_static w roots l n _ Hinv Hn Ht ltac:(auto)) as [Hst Hch].
  by apply (put_leaf_safe w roots l n).
Qed.
Lemma real_set_safe w roots l d : Inv w roots ∅ -> l ∈ roots -> wp (json_real_set (Some l) d) w (fun _ w' => Inv w' roots ∅).
Proof.
  intros Hinv Hl. unfold json_real_set. destruct (inv_root _ _ _ l Hinv Hl) as (n & Hn & _). wp_step. eapply wp_json_is; [by exists n|].
  destruct (bool_decide _) eqn:Ht; [|cbn [negb orb]; by rewrite wp_ret]. destruct (typed_not_static w roots l n _ Hinv Hn Ht ltac:(auto)) as [Hst Hch].
  destruct (not_finite d) eqn:Hd; cbn [negb orb]; [by rewrite wp_ret|]. by apply (put_leaf_safe w roots l n).
Qed.
