(* ===== verification/Parser.v ===== *)
(** * The parser refines the reference grammar

    [parse_value], [parse_array], [parse_object] and [parse_json] with an
    allocator that does not fail: the text is accepted exactly when the
    reference grammar accepts it, the new value is the reference's tree, owned
    by the caller, and a rejected text leaves no garbage and an error
    report. *)

From stdpp Require Import gmultiset.
From Stdlib Require Import SpecFloat.
From S2P Require Import Prelude Utf8 Strbuffer Dlist Hashtable Value Arrays Refcount ValueSpec.
From S2P Require Import Error Strconv Load Grammar GrammarFacts Numbers Stream Lexer Scan Tree Building.

Section parser.
Context (point : Z) (N : nat) (flags : Z) (bad : bool).
Hypothesis Hpoint : point_ok point.

Abbreviation int_as_real := (has_flag flags JSON_DECODE_INT_AS_REAL).
Abbreviation reject_duplicates := (has_flag flags JSON_REJECT_DUPLICATES).
Abbreviation allow_nul := (has_flag flags JSON_ALLOW_NUL).
Abbreviation scan := (ref_scan int_as_real bad).

(* ------------------------------------------------------------------ *)
(** ** States of the parser *)

(** The current token and what follows it. *)
Definition looking (s : lstate) (o : option (token * bytes)) : Prop :=
  match o with
  | Some (tok, rest) => tok_is (l_lex s) tok /\ exists saved, at_ N s rest bad saved
  | None => lx_token (l_lex s) = TOKEN_INVALID /\ lex_inv N s
  end.

Lemma looking_inv s o : looking s o -> lex_inv N s.
Proof using Type. destruct o as [[tok rest]|]; [intros (_ & sv & H); by eexists _, _, _|by intros [_ ?]]. Qed.

Definition is_cur (o : option (token * bytes)) (c : Z) : bool :=
  match o with Some (t, _) => is_tok t c | None => false end.

Lemma looking_tok s o c : looking s o -> is_punct c = true -> (lx_token (l_lex s) =? c) = is_cur o c.
Proof using Type.
  intros Hl Hc. assert (0 < c < 128) as Hr.
  { unfold is_punct in Hc. apply existsb_exists in Hc as (x & Hx & ->%Z.eqb_eq).
    by repeat (destruct Hx as [<-|Hx]; [done|]). }
  destruct o as [[tok rest]|].
  - destruct Hl as [Ht _]. destruct tok; simpl in *; [|destruct Ht as [-> _]; done|..];
      apply Z.eqb_neq; unfold TOKEN_EOF, TOKEN_STRING, TOKEN_INTEGER, TOKEN_REAL, TOKEN_TRUE, TOKEN_FALSE, TOKEN_NULL in *;
      intuition lia.
  - destruct Hl as [-> _]. apply Z.eqb_neq. unfold TOKEN_INVALID. lia.
Qed.

(** The next token. *)
Lemma scan_spec s rest saved :
  at_ N s rest bad saved -> lx_flags (l_lex s) = flags ->
  wp (lex_scan point) s (fun t s' => t = lx_token (l_lex s') /\ keeps s s' /\ looking s' (scan rest)).
Proof using Hpoint.
  intros Hat Hf. eapply wp_mono; [by apply (lex_scan_spec point Hpoint N s rest bad saved)|].
  rewrite Hf. intros t s' (-> & Hk & H). done.
Qed.

(** How parsing ends: with a new value and the rest of the text, or with an
    error; [w0] and [e0] are the world and the error report at the start. *)
Definition parsed (w0 : world) (e0 : json_error_ptr) (roots : gmultiset loc) (d : Z)
    (o : option (json * bytes)) (r : json_ptr) (s' : lstate) : Prop :=
  frame ∅ w0 (l_world s') /\ lx_flags (l_lex s') = flags /\ err_le e0 (l_error s') /\
  match o with
  | Some (t, rest) => exists l, r = Some l /\ Inv (l_world s') (roots ⊎ {[+ l +]}) ∅ /\
      tree (l_world s') (w_next w0) l t /\ lx_depth (l_lex s') = d /\
      exists saved, at_ N s' rest bad saved
  | None => r = None /\ Inv (l_world s') roots ∅ /\ reported (l_error s') /\ lex_inv N s'
  end.

(** Code that parses a value from the current token on. *)
Definition parses (pv : L json_ptr) (d : Z) (rv : token -> bytes -> option (json * bytes)) : Prop :=
  forall s roots o, looking s o -> lx_flags (l_lex s) = flags -> lx_depth (l_lex s) = d ->
    Inv (l_world s) roots ∅ ->
    wp pv s (parsed (l_world s) (l_error s) roots d ('(t, rest) ← o; rv t rest)).

Lemma at_world N' s rest b saved w' :
  at_ N' s rest b saved -> w_oom w' = [] -> at_ N' (set_world w' s) rest b saved.
Proof using Type. intros [] Ho. by split. Qed.
Lemma lex_inv_world s w' : lex_inv N s -> w_oom w' = [] -> lex_inv N (set_world w' s).
Proof using Type. intros (r & b & sv & H) Ho. exists r, b, sv. by apply at_world. Qed.
Lemma lex_inv_oom s : lex_inv N s -> w_oom (l_world s) = [].
Proof using Type. intros (r & b & sv & H). apply (at_oom _ _ _ _ _ H). Qed.

(** The label [error]: the container is released. *)
Lemma parse_error_spec w0 e0 roots d l s :
  frame ∅ w0 (l_world s) -> lx_flags (l_lex s) = flags -> err_le e0 (l_error s) ->
  Inv (l_world s) (roots ⊎ {[+ l +]}) ∅ -> reported (l_error s) -> lex_inv N s ->
  wp (parse_error (Some l)) s (parsed w0 e0 roots d None).
Proof using Type.
  intros Hfr Hf He Hinv Hrep Hli. unfold parse_error, in_world. wp_step. wp_step.
  eapply wp_mono; [by apply json_decref_spec|]. intros [] w' (Hinv' & Hsh & _). wp_step.
  split_and!; try done.
  - transitivity (l_world s); [done|]. by apply shrink_frame.
  - apply lex_inv_world; [done|]. rewrite (sh_oom _ _ Hsh). by apply lex_inv_oom.
Qed.

(** [error_set] and the label [error]. *)
Lemma fail_spec w0 e0 roots d l s code msg :
  frame ∅ w0 (l_world s) -> lx_flags (l_lex s) = flags -> err_le e0 (l_error s) ->
  Inv (l_world s) (roots ⊎ {[+ l +]}) ∅ -> lex_inv N s -> nonempty msg = true ->
  wp (error_set true code msg ;;; parse_error (Some l)) s (parsed w0 e0 roots d None).
Proof using Type.
  intros Hfr Hf He Hinv (r & b & sv & Hat) Hm. wp_step.
  eapply wp_mono; [by apply (error_set_spec N _ _ _ _ _ _ Hat)|]. intros _ s' (Hs & Hat' & Hrep & El).
  apply parse_error_spec; try done.
  - by rewrite (same_world _ _ Hs).
  - by rewrite El.
  - etransitivity; [exact He|]. apply Hs.
  - by rewrite (same_world _ _ Hs).
  - by eapply at_inv.
Qed.

(* ------------------------------------------------------------------ *)
(** ** Arrays *)

Section container.
Context (pv : L json_ptr) (rv : token -> bytes -> option (json * bytes)) (d : Z).
Hypothesis Hpv : parses pv d rv.
Hypothesis Hrv_length : forall t s v s', rv t s = Some (v, s') -> (length s' <= length s)%nat.
Hypothesis Hrv_eof : forall s, rv TEof s = None.

Context (w0 : world) (e0 : json_error_ptr) (roots : gmultiset loc) (l : loc).
Hypothesis Hl0 : (w_next w0 <= l)%positive.

(** The state in which the container [l] is being filled. *)
Record filling (s : lstate) : Prop := {
  fi_flags : lx_flags (l_lex s) = flags;
  fi_depth : lx_depth (l_lex s) = d;
  fi_inv : Inv (l_world s) (roots ⊎ {[+ l +]}) ∅;
  fi_frame : frame ∅ w0 (l_world s);
  fi_error : err_le e0 (l_error s)
}.

Lemma filling_keeps s s' : filling s -> keeps s s' -> filling s'.
Proof using Type.
  intros [] []. split; try congruence. by etransitivity.
Qed.

Lemma fail_filling s code msg :
  filling s -> lex_inv N s -> nonempty msg = true ->
  wp (error_set true code msg ;;; parse_error (Some l)) s (parsed w0 e0 roots d None).
Proof using Type. intros [] Hli Hm. by apply fail_spec. Qed.

Lemma array_end_spec s o ts xs :
  filling s -> looking s o -> array_at (l_world s) l xs ->
  Forall2 (tree (l_world s) (Pos.succ l)) xs ts ->
  wp (array_end (Some l)) s (parsed w0 e0 roots d
    ('(t, rest) ← o; if is_tok t (chr "]") then Some (JArray ts, rest) else None)).
Proof using Hl0.
  intros Hfi Hlk Ha Hxs. unfold array_end, get_token. wp_step. wp_step.
  rewrite (looking_tok s o (chr "]") Hlk eq_refl). pose proof (looking_inv _ _ Hlk) as Hli.
  destruct o as [[t rest]|]; simpl is_cur; cbn [mbind option_bind]; [|by apply fail_filling].
  destruct (is_tok t (chr "]")); simpl negb; cbv iota; [|by apply fail_filling].
  wp_step. destruct Hfi, Hlk as [_ Hat]. split_and!; try done.
  exists l. split_and!; try done. by eapply tree_array.
Qed.

Lemma looking_eof s o :
  looking s o -> lx_token (l_lex s) = 0 -> exists rest, o = Some (TEof, rest).
Proof using Type.
  intros Hlk Etok. destruct o as [[tok rest]|]; [|by destruct Hlk as [Ht _]; rewrite Ht in Etok].
  destruct Hlk as [Ht _]. destruct tok; simpl in Ht; [by eexists|..]; exfalso.
  - destruct Ht as [Ht Hc]. rewrite Etok in Ht. by subst c.
  - by destruct Ht as [Ht _]; rewrite Ht in Etok.
  - by destruct Ht as [Ht _]; rewrite Ht in Etok.
  - by destruct Ht as [Ht _]; rewrite Ht in Etok.
  - by rewrite Ht in Etok.
  - by rewrite Ht in Etok.
  - by rewrite Ht in Etok.
Qed.

Lemma looking_string s o :
  looking s o -> lx_token (l_lex s) = TOKEN_STRING ->
  exists k rest, o = Some (TString k, rest) /\ lx_string (l_lex s) = Some k /\
    Z.of_nat (length k) < 2 ^ 31 /\ exists saved, at_ N s rest bad saved.
Proof using Type.
  intros Hlk Etok. destruct o as [[tok rest]|]; [|by destruct Hlk as [Ht _]; rewrite Ht in Etok].
  destruct Hlk as [Ht Hat]. destruct tok; simpl in Ht; try (by rewrite Ht in Etok);
    try (by destruct Ht as [Ht _]; rewrite Ht in Etok).
  - destruct Ht as [Ht Hc]. rewrite Etok in Ht. by subst c.
  - destruct Ht as (_ & Hs & Hl). by exists s0, rest.
Qed.

(** A new value [x], parsed from [s] to [s1] while [l] was being filled. *)
Record new_child (s s1 : lstate) (x : loc) (v : json) (rest : bytes) : Prop := {
  nc_frame : frame ∅ (l_world s) (l_world s1);
  nc_flags : lx_flags (l_lex s1) = flags;
  nc_error : err_le (l_error s) (l_error s1);
  nc_inv : Inv (l_world s1) (roots ⊎ {[+ l +]} ⊎ {[+ x +]}) ∅;
  nc_tree : tree (l_world s1) (w_next (l_world s)) x v;
  nc_depth : lx_depth (l_lex s1) = d;
  nc_at : exists saved, at_ N s1 rest bad saved
}.

Lemma filling_set_world s s1 x v rest w2 :
  new_child s s1 x v rest -> filling s -> Inv w2 (roots ⊎ {[+ l +]}) ∅ -> frame {[l]} (l_world s1) w2 ->
  filling (set_world w2 s1) /\ exists saved, at_ N (set_world w2 s1) rest bad saved.
Proof using Hl0.
  intros Hnc Hfi Hinv2 Hfr2. destruct Hnc as [F1 ? E1 ? ? ? [sv Hat]], Hfi as [? ? ? F0 E0]. split.
  - split; try done.
    + eapply frame_new; [|exact Hfr2|done]. by etransitivity.
    + by etransitivity.
  - exists sv. apply at_world; [done|]. by apply Hfr2, (at_oom _ _ _ _ _ Hat).
Qed.

Lemma append_child_spec s s1 x v rest xs acc :
  new_child s s1 x v rest -> filling s -> array_at (l_world s) l xs ->
  Forall2 (tree (l_world s) (Pos.succ l)) xs acc -> (length xs <= N)%nat ->
  wp (in_world (json_array_append_new (Some l) (Some x))) s1 (fun r s2 =>
    r = 0 /\ filling s2 /\ (exists saved, at_ N s2 rest bad saved) /\
    array_at (l_world s2) l (xs ++ [x]) /\
    Forall2 (tree (l_world s2) (Pos.succ l)) (xs ++ [x]) (acc ++ [v])).
Proof using Hl0.
  intros Hnc Hfi Ha Hxs Hlen. pose proof (nc_at _ _ _ _ _ Hnc) as [sv1 Hat1].
  unfold in_world. wp_step. eapply wp_mono.
  { apply (append_built (l_world s) (l_world s1) roots l x v (fi_inv _ Hfi) (nc_inv _ _ _ _ _ Hnc)
             (nc_frame _ _ _ _ _ Hnc) (nc_tree _ _ _ _ _ Hnc) (at_oom _ _ _ _ _ Hat1) xs acc Ha Hxs). unfold ARRAY_MAX. pose proof (at_limit _ _ _ _ _ Hat1). lia. }
  intros r w2 (-> & Hinv2 & Hfr2 & _ & Ha2 & Hxs2).
  destruct (filling_set_world _ _ _ _ _ _ Hnc Hfi Hinv2 Hfr2) as [Hfi2 Hat2]. by split_and!.
Qed.

(** What [parsed] says of a child of [l]. *)
Lemma parsed_child s s1 r v rest :
  parsed (l_world s) (l_error s) (roots ⊎ {[+ l +]}) d (Some (v, rest)) r s1 ->
  exists x, r = Some x /\ new_child s s1 x v rest.
Proof using Type.
  intros (Hfr & Hf & He & x & -> & Hinv & Ht & Hd & Hat). exists x. by split.
Qed.
Lemma parsed_child_fail s s1 r o :
  filling s -> parsed (l_world s) (l_error s) (roots ⊎ {[+ l +]}) d None r s1 -> o = None ->
  r = None /\ wp (parse_error (Some l)) s1 (parsed w0 e0 roots d o).
Proof using Type.
  intros [? ? ? F0 E0] (Hfr & Hf & He & -> & Hinv & Hrep & Hli) ->. split; [done|].
  apply parse_error_spec; try done; by etransitivity.
Qed.

(** A scan while [l] is being filled. *)
Lemma scan_filling s rest :
  filling s -> (exists saved, at_ N s rest bad saved) ->
  wp (lex_scan point) s (fun t s' => t = lx_token (l_lex s') /\ l_world s' = l_world s /\
    filling s' /\ looking s' (scan rest)).
Proof using Hpoint.
  intros Hfi [sv Hat]. eapply wp_mono; [apply (scan_spec s rest sv Hat), Hfi|].
  intros t s' (-> & Hk & Hlk). split_and!; try done; [apply Hk|by eapply filling_keeps].
Qed.

Lemma array_loop_spec fuel : forall fuel' s o xs acc,
  filling s -> looking s o -> array_at (l_world s) l xs ->
  Forall2 (tree (l_world s) (Pos.succ l)) xs acc ->
  (0 < fuel)%nat -> (0 < fuel')%nat ->
  (forall tok rest, o = Some (tok, rest) ->
     (length rest < fuel)%nat /\ (length rest < fuel')%nat /\ (length xs + length rest <= N)%nat) ->
  wp (parse_array_loop point pv fuel (Some l)) s (parsed w0 e0 roots d
    ('(t, rest) ← o; '(vs, rest) ← ref_elements int_as_real bad rv fuel' acc t rest;
     Some (JArray vs, rest))).
Proof using Hpoint Hpv Hrv_length Hrv_eof Hl0.
  induction fuel as [|fuel IH]; intros fuel' s o xs acc Hfi Hlk Ha Hxs Hf Hf' Hlen; [lia|].
  destruct fuel' as [|fuel']; [lia|]. cbn [parse_array_loop ref_elements]. unfold get_token. wp_step. wp_step.
  destruct (Z.eqb_spec (lx_token (l_lex s)) 0) as [Etok|_].
  { (* the end of the input *)
    destruct (looking_eof _ _ Hlk Etok) as [rest ->]. cbn [mbind option_bind]. rewrite Hrv_eof.
    by apply (array_end_spec s (Some (TEof, rest)) acc xs). }
  wp_step. eapply wp_mono; [apply (Hpv s (roots ⊎ {[+ l +]}) o Hlk); apply Hfi|]. intros r s1 H1.
  destruct ('(t, rest) ← o; rv t rest) as [[v rest1]|] eqn:Eo.
  2:{ eapply parsed_child_fail in H1 as [-> H]; [exact H|done|].
      destruct o as [[t rest]|]; [|done]. simpl in *. by rewrite Eo. }
  apply parsed_child in H1 as (x & -> & Hnc). destruct o as [[t rest]|]; [|done].
  cbn [mbind option_bind] in *. rewrite Eo. cbn [mbind option_bind].
  destruct (Hlen t rest eq_refl) as (Hlf & Hlf' & HlN). pose proof (Hrv_length _ _ _ _ Eo) as Hrl.
  wp_step. eapply wp_mono; [apply (append_child_spec s s1 x v rest1 xs acc Hnc Hfi Ha Hxs); lia|].
  intros r s2 (-> & Hfi2 & Hat2 & Ha2 & Hxs2). cbn [negb Z.eqb]. cbv iota.
  wp_step. eapply wp_mono; [by apply scan_filling|]. intros t3 s3 (-> & Hw3 & Hfi3 & Hlk3).
  rewrite <- Hw3 in Ha2, Hxs2. rewrite (looking_tok s3 _ (chr ",") Hlk3 eq_refl).
  destruct (scan rest1) as [[t3 rest3]|] eqn:E3; simpl is_cur; cbv iota; cbn [mbind option_bind].
  2:{ by apply (array_end_spec s3 None (acc ++ [v]) (xs ++ [x])). }
  destruct (is_tok t3 (chr ",")) eqn:Ecomma.
  2:{ eapply wp_mono; [by apply (array_end_spec s3 (Some (t3, rest3)) (acc ++ [v]) (xs ++ [x]))|].
      intros r s4 H4. cbn [mbind option_bind] in H4. by destruct (is_tok t3 (chr "]")). }
  destruct Hlk3 as [_ Hat3]. wp_step. eapply wp_mono; [by apply scan_filling|].
  intros t4 s4 (-> & Hw4 & Hfi4 & Hlk4). rewrite <- Hw4 in Ha2, Hxs2.
  assert (Hne3 : t3 <> TEof) by (by intros ->). apply ref_scan_length in E3 as [_ E3].
  specialize (E3 Hne3).
  eapply wp_mono; [apply (IH fuel' s4 (scan rest3) (xs ++ [x]) (acc ++ [v]) Hfi4 Hlk4 Ha2 Hxs2); [lia|lia|]|].
  - intros t5 rest5 E5. apply ref_scan_length in E5 as [E5 _]. rewrite length_app. simpl. lia.
  - intros r s5 H5. by destruct (scan rest3) as [[t5 rest5]|].
Qed.
(* ------------------------------------------------------------------ *)
(** ** Objects *)

Lemma set_child_spec s s1 x v rest items acc k :
  new_child s s1 x v rest -> filling s -> object_at (l_world s) l items ->
  members (l_world s) (Pos.succ l) (kvs items) acc -> (length items <= N)%nat ->
  Z.of_nat (length k) < 2 ^ 31 ->
  wp (in_world (json_object_set_new_nocheck (Some l) (Some k) (Some x))) s1 (fun r s2 =>
    r = 0 /\ filling s2 /\ (exists saved, at_ N s2 rest bad saved) /\
    exists items', object_at (l_world s2) l items' /\ (length items' <= S (length items))%nat /\
      members (l_world s2) (Pos.succ l) (kvs items') (aset k v acc)).
Proof using Hl0.
  intros Hnc Hfi Ho Hms Hlen Hk. pose proof (nc_at _ _ _ _ _ Hnc) as [sv1 Hat1].
  pose proof (at_limit _ _ _ _ _ Hat1) as Hlim. unfold in_world. wp_step. eapply wp_mono.
  { apply (set_built (l_world s) (l_world s1) roots l x v (fi_inv _ Hfi) (nc_inv _ _ _ _ _ Hnc)
             (nc_frame _ _ _ _ _ Hnc) (nc_tree _ _ _ _ _ Hnc) (at_oom _ _ _ _ _ Hat1) items acc k Ho Hms);
      unfold MAX_KEY, SIZE_MAX, OFFSETOF_KEY; lia. }
  intros r w2 (-> & Hinv2 & Hfr2 & _ & items' & Ho2 & Hlen2 & Hms2).
  destruct (filling_set_world _ _ _ _ _ _ Hnc Hfi Hinv2 Hfr2) as [Hfi2 Hat2]. split_and!; try done. by exists items'.
Qed.

(** Behind the value of a member: ',' and the next key, or the end. *)
Lemma object_tail_spec s rest items acc (loop : L json_ptr)
    (f : token -> bytes -> option (list (bytes * json) * bytes)) :
  filling s -> (exists saved, at_ N s rest bad saved) -> object_at (l_world s) l items ->
  members (l_world s) (Pos.succ l) (kvs items) acc ->
  (forall s' rest' o, (length rest' < length rest)%nat -> o = scan rest' -> filling s' -> looking s' o ->
     l_world s' = l_world s ->
     wp loop s' (parsed w0 e0 roots d ('(t, u) ← o; '(ms, u) ← f t u; Some (JObject ms, u)))) ->
  wp (let* token := lex_scan point in
      if token =? chr "," then let* _ := lex_scan point in loop
      else if negb (token =? chr "}") then
        error_set true json_error_invalid_syntax (lit "'}' expected") ;;;
        parse_error (Some l)
      else ret (Some l)) s
     (parsed w0 e0 roots d
       ('(ms, u) ← ('(t, u) ← scan rest;
                    if is_tok t (chr ",") then '(t, u) ← scan u; f t u
                    else if is_tok t (chr "}") then Some (acc, u) else None);
        Some (JObject ms, u))).
Proof using Hpoint Hl0.
  intros Hfi Hat Ho Hms Hloop. wp_step. eapply wp_mono; [by apply scan_filling|].
  intros t1 s1 (-> & Hw1 & Hfi1 & Hlk1).
  rewrite (looking_tok s1 _ (chr ",") Hlk1 eq_refl), (looking_tok s1 _ (chr "}") Hlk1 eq_refl).
  pose proof (looking_inv _ _ Hlk1) as Hli1.
  destruct (scan rest) as [[t1 rest1]|] eqn:E1; simpl is_cur; cbv iota; cbn [mbind option_bind negb];
    [|by apply fail_filling].
  destruct (is_tok t1 (chr ",")) eqn:Ec.
  - assert (Hne : t1 <> TEof) by (by intros ->). apply ref_scan_length in E1 as [_ E1]. specialize (E1 Hne).
    destruct Hlk1 as [_ Hat1]. wp_step. eapply wp_mono; [by apply scan_filling|].
    intros t2 s2 (-> & Hw2 & Hfi2 & Hlk2).
    eapply wp_mono; [apply (Hloop s2 rest1 _ E1 eq_refl Hfi2 Hlk2); congruence|].
    intros r s3 H3. by destruct (scan rest1) as [[t3 rest3]|].
  - destruct (is_tok t1 (chr "}")); cbn [negb mbind option_bind]; cbv iota; [|by apply fail_filling].
    wp_step. destruct Hfi1, Hlk1 as [_ Hat1]. split_and!; try done.
    exists l. split_and!; try done. rewrite <- Hw1 in Ho, Hms. by eapply tree_object.
Qed.

(** Behind a key that is accepted. *)
Lemma object_value_spec s rest items acc k (loop : L json_ptr)
    (f : list (bytes * json) -> token -> bytes -> option (list (bytes * json) * bytes)) :
  filling s -> (exists saved, at_ N s rest bad saved) -> object_at (l_world s) l items ->
  members (l_world s) (Pos.succ l) (kvs items) acc -> (length items <= N)%nat -> Z.of_nat (length k) < 2 ^ 31 ->
  (forall s' rest' o items' acc', (length rest' + 1 < length rest)%nat -> o = scan rest' -> filling s' -> looking s' o ->
     object_at (l_world s') l items' -> (length items' <= S (length items))%nat ->
     members (l_world s') (Pos.succ l) (kvs items') acc' ->
     wp loop s' (parsed w0 e0 roots d ('(t, u) ← o; '(ms, u) ← f acc' t u; Some (JObject ms, u)))) ->
  wp (let* token := lex_scan point in
      if negb (token =? chr ":") then
        error_set true json_error_invalid_syntax (lit "':' expected") ;;;
        parse_error (Some l)
      else
        let* _ := lex_scan point in
        let* value := pv in
        match value with
        | None => parse_error (Some l)
        | Some _ =>
            let* r := in_world (json_object_set_new_nocheck (Some l) (Some k) value) in
            if negb (r =? 0) then parse_error (Some l)
            else
              let* token := lex_scan point in
              if token =? chr "," then let* _ := lex_scan point in loop
              else if negb (token =? chr "}") then
                error_set true json_error_invalid_syntax (lit "'}' expected") ;;;
                parse_error (Some l)
              else ret (Some l)
        end) s
     (parsed w0 e0 roots d
       ('(ms, u) ← ('(colon, u) ← scan rest;
                    if negb (is_tok colon (chr ":")) then None
                    else '(t, u) ← scan u; '(v, u) ← rv t u; '(t, u) ← scan u;
                         if is_tok t (chr ",") then '(t, u) ← scan u; f (aset k v acc) t u
                         else if is_tok t (chr "}") then Some (aset k v acc, u) else None);
        Some (JObject ms, u))).
Proof using Hpoint Hpv Hrv_length Hl0.
  intros Hfi Hat Ho Hms Hlen Hk Hloop. wp_step. eapply wp_mono; [by apply scan_filling|].
  intros t1 s1 (-> & Hw1 & Hfi1 & Hlk1).
  rewrite (looking_tok s1 _ (chr ":") Hlk1 eq_refl). pose proof (looking_inv _ _ Hlk1) as Hli1.
  destruct (scan rest) as [[t1 rest1]|] eqn:E1; simpl is_cur; cbn [mbind option_bind negb]; cbv iota;
    [|by apply fail_filling].
  destruct (is_tok t1 (chr ":")) eqn:Ec; cbn [mbind option_bind negb]; cbv iota; [|by apply fail_filling].
  assert (Hne : t1 <> TEof) by (by intros ->). apply ref_scan_length in E1 as [_ E1]. specialize (E1 Hne).
  destruct Hlk1 as [_ Hat1]. wp_step. eapply wp_mono; [by apply scan_filling|].
  intros t2 s2 (-> & Hw2 & Hfi2 & Hlk2). rewrite <- Hw1, <- Hw2 in Ho, Hms.
  wp_step. eapply wp_mono; [apply (Hpv s2 (roots ⊎ {[+ l +]}) _ Hlk2); apply Hfi2|]. intros r s3 H3.
  destruct (scan rest1) as [[t2 rest2]|] eqn:E2; cbn [mbind option_bind] in *.
  2:{ eapply parsed_child_fail in H3 as [-> H]; [exact H|done|done]. }
  destruct (rv t2 rest2) as [[v rest3]|] eqn:Ev; cbn [mbind option_bind] in *.
  2:{ eapply parsed_child_fail in H3 as [-> H]; [exact H|done|done]. }
  apply parsed_child in H3 as (x & -> & Hnc). cbv iota.
  apply ref_scan_length in E2 as [E2 _]. apply Hrv_length in Ev.
  wp_step. eapply wp_mono; [by apply (set_child_spec s2 s3 x v rest3 items acc k Hnc Hfi2 Ho Hms)|].
  intros r s4 (-> & Hfi4 & Hat4 & items' & Ho4 & Hlen4 & Hms4). cbn [negb Z.eqb]. cbv iota.
  apply (object_tail_spec s4 rest3 items' (aset k v acc) loop (f (aset k v acc)) Hfi4 Hat4 Ho4 Hms4).
  intros s5 rest5 o Hl5 Eo Hfi5 Hlk5 Hw5.
  apply (Hloop s5 rest5 o items' (aset k v acc)); rewrite ?Hw5; try done. lia.
Qed.

Lemma object_loop_spec fuel : forall fuel' s o items acc,
  filling s -> looking s o -> object_at (l_world s) l items ->
  members (l_world s) (Pos.succ l) (kvs items) acc ->
  (0 < fuel)%nat -> (0 < fuel')%nat ->
  (forall tok rest, o = Some (tok, rest) ->
     (length rest < fuel)%nat /\ (length rest < fuel')%nat /\ (length items + length rest <= N)%nat) ->
  wp (parse_object_loop point pv flags fuel (Some l)) s (parsed w0 e0 roots d
    ('(t, rest) ← o; '(ms, rest) ← ref_members int_as_real reject_duplicates bad rv fuel' acc t rest;
     Some (JObject ms, rest))).
Proof using Hpoint Hpv Hrv_length Hrv_eof Hl0.
  induction fuel as [|fuel IH]; intros fuel' s o items acc Hfi Hlk Ho Hms Hf Hf' Hlen; [lia|].
  destruct fuel' as [|fuel']; [lia|]. cbn [parse_object_loop]. unfold get_token. wp_step. wp_step.
  pose proof (looking_inv _ _ Hlk) as Hli.
  destruct (Z.eqb_spec (lx_token (l_lex s)) TOKEN_STRING) as [Etok|Etok]; cbn [negb]; cbv iota.
  2:{ replace ('(t, rest) ← o; _) with (@None (json * bytes)); [by apply fail_filling|].
      destruct o as [[[] rest]|]; try done. by destruct Hlk as [[? _] _]. }
  destruct (looking_string _ _ Hlk Etok) as (k & rest & -> & Hstr & Hk & Hat).
  destruct (Hlen _ _ eq_refl) as (Hlf & Hlf' & HlN).
  cbn [mbind option_bind ref_members]. unfold lex_steal_string, get_lex, upd_lex. wp_step. wp_step. wp_step.
  rewrite Etok, Z.eqb_refl. wp_step. wp_step. wp_step. rewrite Hstr. set (s1 := set_lex _ _).
  assert (Hfi1 : filling s1) by (by apply (filling_keeps s)).
  assert (Hat1 : exists saved, at_ N s1 rest bad saved) by (destruct Hat as [sv Hat]; exists sv; at_upds).
  assert (Hli1 : lex_inv N s1) by (destruct Hat1; by eapply at_inv).
  change (l_world s) with (l_world s1) in Ho, Hms. clearbody s1.
  destruct (has_nul k); [by apply fail_filling|]. wp_step.
  set (m := if reject_duplicates then _ else _).
  assert (Hm : wp m s1 (fun r s2 => s2 = s1 /\
            bool_decide (is_Some r) = reject_duplicates && bool_decide (is_Some (alookup k acc)))).
  { unfold m. destruct reject_duplicates; [|by wp_step]. unfold in_world. wp_step.
    eapply wp_mono; [by apply json_object_get_spec|]. intros r w' [-> ->]. split; [by destruct s1|].
    apply bool_decide_ext. by eapply members_alookup. }
  eapply wp_mono; [exact Hm|]. clear m Hm. intros r s2 [-> Hr]. rewrite <- Hr.
  destruct r as [dup|]; [by apply fail_filling|]. rewrite bool_decide_false by (by intros []).
  apply (object_value_spec s1 rest items acc k _
           (fun acc' => ref_members int_as_real reject_duplicates bad rv fuel' acc')); try done; [lia|].
  intros s3 rest3 o items3 acc3 Hl3 -> Hfi3 Hlk3 Ho3 Hlen3 Hms3.
  apply (IH fuel' s3 _ items3 acc3 Hfi3 Hlk3 Ho3 Hms3); [lia|lia|].
  intros t4 rest4 E4. apply ref_scan_length in E4 as [E4 _]. lia.
Qed.
End container.
(* ------------------------------------------------------------------ *)
(** ** Values *)

(** A value in front of [rest], from code that creates it. *)
Lemma parsed_new (m : W json_ptr) s roots d rest saved t (P : world -> loc -> Prop) :
  wp m (l_world s) (new_post (l_world s) roots ∅ P) ->
  lx_flags (l_lex s) = flags -> lx_depth (l_lex s) = d ->
  at_ N s rest bad saved ->
  (forall w' l, P w' l -> (w_next (l_world s) <= l)%positive -> tree w' (w_next (l_world s)) l t) ->
  wp (in_world m) s (parsed (l_world s) (l_error s) roots d (Some (t, rest))).
Proof using Type.
  intros Hm Hf Hd Hat Ht. unfold in_world. wp_step. eapply wp_mono; [exact Hm|].
  intros r w' H. pose proof H as (Hfr & _). apply new_post_some in H as (l & -> & Hinv' & Hl & HP).
  2:{ apply (at_oom _ _ _ _ _ Hat). }
  split_and!; try done. exists l. split_and!; try done; [by apply Ht|].
  exists saved. apply at_world; [done|]. apply Hfr, (at_oom _ _ _ _ _ Hat).
Qed.

(** A constant. *)
Lemma parsed_static s roots d rest saved t l :
  Inv (l_world s) roots ∅ -> l ∈ statics -> tree (l_world s) (w_next (l_world s)) l t ->
  lx_flags (l_lex s) = flags -> lx_depth (l_lex s) = d -> at_ N s rest bad saved ->
  parsed (l_world s) (l_error s) roots d (Some (t, rest)) (Some l) s.
Proof using Type.
  intros Hinv Hl Ht Hf Hd Hat. split_and!; try done. exists l. split_and!; try done; [|by exists saved].
  eapply inv_static_root; [exact Hinv|]. intros m Hm. rewrite multiplicity_disj_union.
  rewrite multiplicity_singleton_ne; [lia|]. by intros ->.
Qed.

(** An error without a container. *)
Lemma reject_spec s roots d code msg :
  lex_inv N s -> Inv (l_world s) roots ∅ -> lx_flags (l_lex s) = flags -> nonempty msg = true ->
  wp (error_set true code msg ;;; ret None) s (parsed (l_world s) (l_error s) roots d None).
Proof using Type.
  intros (r & b & sv & Hat) Hinv Hf Hm. wp_step.
  eapply wp_mono; [by apply (error_set_spec N _ _ _ _ _ _ Hat)|]. intros _ s' (Hs & Hat' & Hrep & El).
  wp_step. split_and!; rewrite ?(same_world _ _ Hs), ?El; try done; [apply Hs|]. by eapply at_inv.
Qed.

Section value.
Context (pv : L json_ptr) (rv : token -> bytes -> option (json * bytes)) (d : Z).
Hypothesis Hpv : parses pv d rv.
Hypothesis Hrv_length : forall t s v s', rv t s = Some (v, s') -> (length s' <= length s)%nat.
Hypothesis Hrv_eof : forall s, rv TEof s = None.

(** A new container, before its first token. *)
Lemma container_spec (m : W json_ptr) s roots rest saved (P : world -> loc -> Prop)
    (k : json_ptr -> L json_ptr) o :
  wp m (l_world s) (new_post (l_world s) roots ∅ P) -> lx_flags (l_lex s) = flags -> lx_depth (l_lex s) = d ->
  at_ N s rest bad saved ->
  (forall s' l, (w_next (l_world s) <= l)%positive -> filling d (l_world s) (l_error s) roots l s' ->
     (exists sv, at_ N s' rest bad sv) -> P (l_world s') l ->
     wp (k (Some l)) s' (parsed (l_world s) (l_error s) roots d o)) ->
  wp (let* c := in_world m in match c with None => ret None | Some _ => k c end) s
     (parsed (l_world s) (l_error s) roots d o).
Proof using Type.
  intros Hm Hf Hd Hat Hk. wp_step. unfold in_world. wp_step. eapply wp_mono; [exact Hm|].
  intros r w' H. pose proof H as (Hfr & _). apply new_post_some in H as (l & -> & Hinv' & Hl & HP).
  2:{ apply (at_oom _ _ _ _ _ Hat). }
  apply (Hk (set_world w' s) l Hl); try done.
  exists saved. apply at_world; [done|]. apply Hfr, (at_oom _ _ _ _ _ Hat).
Qed.

Lemma parse_array_spec s roots rest saved :
  lx_flags (l_lex s) = flags -> lx_depth (l_lex s) = d -> Inv (l_world s) roots ∅ -> at_ N s rest bad saved ->
  wp (parse_array point pv) s (parsed (l_world s) (l_error s) roots d
    ('(t, s) ← scan rest;
     if is_tok t (chr "]") then Some (JArray [], s)
     else '(vs, s) ← ref_elements int_as_real bad rv (S (length s)) [] t s; Some (JArray vs, s))).
Proof using Hpoint Hpv Hrv_length Hrv_eof.
  intros Hf Hd Hinv Hat. unfold parse_array.
  apply (container_spec json_array s roots rest saved (fun w' l => array_at w' l [])
           (fun c => let* token := lex_scan point in
                     if token =? chr "]" then ret c
                     else let* n := lex_fuel in parse_array_loop point pv n c)); try done; [by apply json_array_spec|].
  intros s1 l Hl Hfi Hat1 Ha. wp_step. eapply wp_mono; [eapply scan_filling; [exact Hfi|exact Hat1]|].
  intros t2 s2 (-> & Hw & Hfi2 & Hlk). rewrite (looking_tok s2 _ (chr "]") Hlk eq_refl).
  rewrite <- Hw in Ha. pose proof (looking_inv _ _ Hlk) as (r3 & b3 & sv3 & Hat3).
  assert (Hloop : is_cur (scan rest) (chr "]") = false ->
    wp (let* n := lex_fuel in parse_array_loop point pv n (Some l)) s2 (parsed (l_world s) (l_error s) roots d
       ('(t, u) ← scan rest; '(vs, u) ← ref_elements int_as_real bad rv (S (length u)) [] t u; Some (JArray vs, u)))).
  { intros _. wp_step. destruct (scan rest) as [[t rest1]|] eqn:E.
    - destruct Hlk as [Htok [sv Hat2]]. eapply wp_lex_fuel; [exact Hat2|]. intros n Hn.
      pose proof (at_room _ _ _ _ _ Hat2).
      apply (array_loop_spec pv rv d Hpv Hrv_length Hrv_eof (l_world s) (l_error s) roots l Hl n
               (S (length rest1)) s2 (Some (t, rest1)) [] []); try done; [by split; [|exists sv]|lia|lia|].
      intros t' rest' [= <- <-]. simpl. lia.
    - eapply wp_lex_fuel; [exact Hat3|]. intros n Hn.
      by apply (array_loop_spec pv rv d Hpv Hrv_length Hrv_eof (l_world s) (l_error s) roots l Hl n
               1 s2 None [] []); try done; lia. }
  destruct (scan rest) as [[t rest1]|] eqn:E; simpl is_cur in *; cbn [mbind option_bind] in *; [|by apply Hloop].
  destruct (is_tok t (chr "]")); [|by apply Hloop].
  wp_step. destruct Hfi2, Hlk as [_ Hat2]. split_and!; try done. exists l. split_and!; try done.
  eapply tree_array; [done|exact Ha|constructor].
Qed.

Lemma parse_object_spec s roots rest saved :
  lx_flags (l_lex s) = flags -> lx_depth (l_lex s) = d -> Inv (l_world s) roots ∅ -> at_ N s rest bad saved ->
  wp (parse_object point pv flags) s (parsed (l_world s) (l_error s) roots d
    ('(t, s) ← scan rest;
     if is_tok t (chr "}") then Some (JObject [], s)
     else '(ms, s) ← ref_members int_as_real reject_duplicates bad rv (S (length s)) [] t s;
          Some (JObject ms, s))).
Proof using Hpoint Hpv Hrv_length Hrv_eof.
  intros Hf Hd Hinv Hat. unfold parse_object.
  apply (container_spec json_object s roots rest saved (fun w' l => object_at w' l [])
           (fun c => let* token := lex_scan point in
                     if token =? chr "}" then ret c
                     else let* n := lex_fuel in parse_object_loop point pv flags n c)); try done; [by apply json_object_spec|].
  intros s1 l Hl Hfi Hat1 Ha. wp_step. eapply wp_mono; [eapply scan_filling; [exact Hfi|exact Hat1]|].
  intros t2 s2 (-> & Hw & Hfi2 & Hlk). rewrite (looking_tok s2 _ (chr "}") Hlk eq_refl).
  rewrite <- Hw in Ha. pose proof (looking_inv _ _ Hlk) as (r3 & b3 & sv3 & Hat3).
  assert (Hloop : is_cur (scan rest) (chr "}") = false ->
    wp (let* n := lex_fuel in parse_object_loop point pv flags n (Some l)) s2 (parsed (l_world s) (l_error s) roots d
       ('(t, u) ← scan rest; '(vs, u) ← ref_members int_as_real reject_duplicates bad rv (S (length u)) [] t u; Some (JObject vs, u)))).
  { intros _. wp_step. destruct (scan rest) as [[t rest1]|] eqn:E.
    - destruct Hlk as [Htok [sv Hat2]]. eapply wp_lex_fuel; [exact Hat2|]. intros n Hn.
      pose proof (at_room _ _ _ _ _ Hat2).
      apply (object_loop_spec pv rv d Hpv Hrv_length Hrv_eof (l_world s) (l_error s) roots l Hl n
               (S (length rest1)) s2 (Some (t, rest1)) [] []); try done; [by split; [|exists sv]|lia|lia|].
      intros t' rest' [= <- <-]. simpl. lia.
    - eapply wp_lex_fuel; [exact Hat3|]. intros n Hn.
      by apply (object_loop_spec pv rv d Hpv Hrv_length Hrv_eof (l_world s) (l_error s) roots l Hl n
               1 s2 None [] []); try done; lia. }
  destruct (scan rest) as [[t rest1]|] eqn:E; simpl is_cur in *; cbn [mbind option_bind] in *; [|by apply Hloop].
  destruct (is_tok t (chr "}")); [|by apply Hloop].
  wp_step. destruct Hfi2, Hlk as [_ Hat2]. split_and!; try done. exists l. split_and!; try done.
  eapply tree_object; [done|exact Ha|constructor].
Qed.
End value.

(** Changes of the token's value and of the depth. *)
Lemma parsed_upd w0 e0 roots d d' o r s x :
  parsed w0 e0 roots d o r s -> lx_stream x = lx_stream (l_lex s) -> lx_saved x = lx_saved (l_lex s) ->
  lx_flags x = lx_flags (l_lex s) -> (r <> None -> lx_depth x = d') ->
  parsed w0 e0 roots d' o r (set_lex x s).
Proof using Type.
  intros (Hfr & Hf & He & H) E1 E2 E3 Hd. split_and!; [done|simpl; congruence|done|].
  destruct o as [[t rest]|].
  - destruct H as (l & -> & Hinv & Ht & _ & sv & Hat). exists l. split_and!; try done; [by apply Hd|].
    exists sv. by apply at_upd.
  - destruct H as (-> & Hinv & Hrep & Hli). split_and!; try done. by apply lex_inv_upd.
Qed.

Lemma leave_value_spec w0 e0 roots d o r s :
  0 < d <= SIZE_MAX -> parsed w0 e0 roots d o r s ->
  wp (match r with
      | None => ret None
      | Some _ =>
          let* x := get_lex in
          upd_lex (lex_with_depth (size_t (lx_depth x - 1))) ;;;
          ret r
      end) s (parsed w0 e0 roots (d - 1) o).
Proof using Type.
  intros Hd H. destruct r as [l|].
  - unfold get_lex, upd_lex. wp_steps. destruct o as [[t rest]|]; [|by destruct H as (_ & _ & _ & ? & _)].
    eapply parsed_upd; [exact H|done..|]. intros _. simpl.
    destruct H as (_ & _ & _ & l' & _ & _ & _ & -> & _). apply size_t_small. lia.
  - wp_step. destruct o as [[t rest]|]; [by destruct H as (_ & _ & _ & ? & ? & _)|]. done.
Qed.

Abbreviation value n := (ref_value int_as_real reject_duplicates allow_nul bad n).

Lemma parse_token_spec pv n d s roots o :
  parses pv d (value n) -> 0 < d <= JSON_PARSER_MAX_DEPTH ->
  looking s o -> lx_flags (l_lex s) = flags -> lx_depth (l_lex s) = d -> Inv (l_world s) roots ∅ ->
  wp (parse_token point pv flags) s (parsed (l_world s) (l_error s) roots (d - 1)
    ('(t, rest) ← o; value (S n) t rest)).
Proof using Hpoint.
  intros Hpv Hd Hlk Hf Hdep Hinv. unfold parse_token. cbv zeta. unfold get_lex at 1. wp_step. wp_step. wp_step.
  pose proof (looking_inv _ _ Hlk) as Hli.
  assert (Hrl := ref_value_length int_as_real reject_duplicates allow_nul bad n).
  assert (Heof : forall s, value n TEof s = None) by (by destruct n).
  eapply wp_mono; [|intros r s' H; eapply leave_value_spec; [unfold JSON_PARSER_MAX_DEPTH, SIZE_MAX in *; lia|exact H]].
  destruct o as [[tok rest]|]; cbn [mbind option_bind].
  2:{ destruct Hlk as [Ht _]. rewrite Ht. by apply reject_spec. }
  destruct Hlk as [Ht [sv Hat]]. cbn [ref_value]. destruct tok as [|c|str|z|r| | |]; simpl in Ht.
  - rewrite Ht. by apply reject_spec.
  - destruct Ht as [Ht Hc]. rewrite Ht.
    unfold is_punct in Hc. apply existsb_exists in Hc as (c' & Hc & ->%Z.eqb_eq).
    destruct Hc as [<-|[<-|[<-|[<-|[<-|[<-|[]]]]]]]; try (by apply reject_spec).
    + by apply (parse_object_spec pv (value n) d Hpv Hrl Heof s roots rest sv).
    + by apply (parse_array_spec pv (value n) d Hpv Hrl Heof s roots rest sv).
  - destruct Ht as (Ht & Hs & Hl). rewrite Ht. change (TOKEN_STRING =? TOKEN_STRING) with true. cbv iota. wp_step. rewrite Hs. cbn [require]. wp_step.
    destruct (negb allow_nul && has_nul str); [by apply reject_spec|]. wp_step.
    eapply wp_mono; [apply (parsed_new _ s roots d rest sv (JString str) (fun w' l => body_at w' l (Str str))); try done|].
    + by apply string_own_spec.
    + intros w' l Hb Hlo. by constructor.
    + intros r s' H. unfold upd_lex. wp_steps. eapply parsed_upd; [exact H|done..|]. intros Hr. simpl.
      by destruct H as (_ & _ & _ & l & _ & _ & _ & -> & _).
  - destruct Ht as (Ht & <- & Hz). rewrite Ht.
    eapply (parsed_new _ s roots d rest sv _ (fun w' l => body_at w' l (Integer (lx_integer (l_lex s))))); try done.
    + by apply json_integer_spec.
    + intros w' l Hb Hlo. by constructor.
  - destruct Ht as (Ht & <- & Hz). rewrite Ht.
    eapply (parsed_new _ s roots d rest sv _ (fun w' l => body_at w' l (Real (lx_real (l_lex s))))); try done.
    + by apply json_real_spec.
    + intros w' l Hb Hlo. by constructor.
  - rewrite Ht. change (parsed (l_world s) (l_error s) roots d (Some (JTrue, rest)) (Some the_true) s).
    eapply parsed_static; try done. constructor.
  - rewrite Ht. change (parsed (l_world s) (l_error s) roots d (Some (JFalse, rest)) (Some the_false) s).
    eapply parsed_static; try done. constructor.
  - rewrite Ht. change (parsed (l_world s) (l_error s) roots d (Some (JNull, rest)) (Some the_null) s).
    eapply parsed_static; try done. constructor.
Qed.

(** Nested values, with [n] levels left. *)
Lemma parse_value_spec fuel n d :
  (n < fuel)%nat -> 0 <= d -> d + Z.of_nat n = JSON_PARSER_MAX_DEPTH ->
  parses (parse_value point fuel flags) d (value n).
Proof using Hpoint.
  revert n d. induction fuel as [|fuel IH]; intros n d Hn Hd0 Hd; [lia|].
  intros s roots o Hlk Hf Hdep Hinv. cbn [parse_value]. unfold get_lex. wp_step. wp_step.
  rewrite Hdep. unfold JSON_PARSER_MAX_DEPTH in Hd. rewrite size_t_small by (unfold SIZE_MAX; lia).
  unfold upd_lex. wp_step. wp_step. set (s1 := set_lex _ _).
  assert (Hlk1 : looking s1 o).
  { destruct o as [[tok rest]|]; [destruct Hlk as [? [sv ?]]; split; [by destruct tok|exists sv; at_upds]|].
    destruct Hlk. split; [done|]. by apply lex_inv_upd. }
  assert (Hf1 : lx_flags (l_lex s1) = flags) by done.
  assert (Hdep1 : lx_depth (l_lex s1) = d + 1) by done.
  change (l_world s) with (l_world s1) in *. change (l_error s) with (l_error s1). clearbody s1.
  destruct n as [|n].
  - rewrite (proj2 (Z.ltb_lt _ _)) by (unfold JSON_PARSER_MAX_DEPTH; lia).
    eapply wp_mono; [by apply (reject_spec s1 roots d); [eapply looking_inv|..]|].
    intros r s2 H2. by destruct o as [[tok rest]|].
  - rewrite (proj2 (Z.ltb_ge _ _)) by (unfold JSON_PARSER_MAX_DEPTH; lia).
    replace d with (d + 1 - 1) at 1 by lia.
    apply parse_token_spec; try done; [|unfold JSON_PARSER_MAX_DEPTH; lia].
    apply IH; [lia|lia|unfold JSON_PARSER_MAX_DEPTH; lia].
Qed.
End parser.
