(* ===== verification/Decode.v ===== *)
(** * The decoder is correct

    [json_loads], [json_loadb] and every other entry point of load.c, with an
    allocator that does not fail: the result is the one of the reference
    decoder of Grammar.v, for every input, every flag and every locale. *)

From stdpp Require Import gmultiset.
From Stdlib Require Import SpecFloat.
From S2P Require Import Prelude Utf8 Strbuffer Dlist Hashtable Value Arrays Refcount ValueSpec Client.
From S2P Require Import Error Strconv Load Grammar GrammarFacts Numbers Stream Lexer Scan Tree Parser.

Section decode.
Context (point : Z) (flags : Z).
Hypothesis Hpoint : point_ok point.

(** How decoding ends. *)
Definition decoded (w : world) (roots : gmultiset loc) (o : option json) (r : json_ptr)
    (error : json_error_ptr) (w' : world) : Prop :=
  frame ∅ w w' /\
  match o with
  | Some t => exists l, r = Some l /\ Inv w' (roots ⊎ {[+ l +]}) ∅ /\ tree w' (w_next w) l t
  | None => r = None /\ Inv w' roots ∅ /\ reported error
  end.

(** The check behind the value. *)
Definition finish (bad : bool) (v : json) (s : bytes) : option json :=
  if has_flag flags JSON_DISABLE_EOF_CHECK then Some v
  else match ref_scan (has_flag flags JSON_DECODE_INT_AS_REAL) bad s with
       | Some (TEof, _) => Some v
       | _ => None
       end.

(** What [ref_parse] does with the decoded text. *)
Definition ref_text (bad : bool) (s : bytes) : option json :=
  '(t, s) ← ref_scan (has_flag flags JSON_DECODE_INT_AS_REAL) bad s;
  if negb (has_flag flags JSON_DECODE_ANY) && negb (is_tok t (chr "[")) && negb (is_tok t (chr "{"))
  then None
  else
    '(v, s) ← ref_value (has_flag flags JSON_DECODE_INT_AS_REAL) (has_flag flags JSON_REJECT_DUPLICATES)
                (has_flag flags JSON_ALLOW_NUL) bad (Z.to_nat JSON_PARSER_MAX_DEPTH) t s;
    finish bad v s.

Lemma ref_parse_text text : ref_parse flags text = ref_text (text_of text).2 (text_of text).1.
Proof using Type. unfold ref_parse. by destruct (text_of text). Qed.

Lemma looking_is_eof N bad s o :
  looking N bad s o -> (lx_token (l_lex s) =? TOKEN_EOF) = match o with Some (TEof, _) => true | _ => false end.
Proof using Type.
  intros Hlk. destruct (Z.eqb_spec (lx_token (l_lex s)) TOKEN_EOF) as [E|E].
  - by destruct (looking_eof _ _ _ _ Hlk E) as [rest ->].
  - destruct o as [[[] rest]|]; try done. by destruct Hlk.
Qed.

(** The check for the end of the input, and the release of what was parsed. *)
Lemma eof_check_spec N bad s roots w0 e0 l t rest :
  parsed N flags bad w0 e0 roots 0 (Some (t, rest)) (Some l) s ->
  wp (if negb (has_flag flags JSON_DISABLE_EOF_CHECK) then
        let* token := lex_scan point in
        if negb (token =? TOKEN_EOF) then
          error_set true json_error_end_of_input_expected (lit "end of file expected") ;;;
          in_world (json_decref (Some l)) ;;;
          ret false
        else ret true
      else ret true) s (fun ok s' =>
    lex_inv N s' /\ frame ∅ w0 (l_world s') /\
    match finish bad t rest with
    | Some _ => ok = true /\ Inv (l_world s') (roots ⊎ {[+ l +]}) ∅ /\ tree (l_world s') (w_next w0) l t
    | None => ok = false /\ Inv (l_world s') roots ∅ /\ reported (l_error s')
    end).
Proof using Hpoint.
  intros (Hfr & Hf & He & l' & [= <-] & Hinv & Ht & _ & sv & Hat).
  unfold finish. destruct (has_flag flags JSON_DISABLE_EOF_CHECK); cbn [negb]; cbv iota.
  { wp_step. split; [by eapply at_inv|]. done. }
  wp_step. eapply wp_mono; [by apply (scan_spec point N flags bad Hpoint s rest sv)|].
  intros t1 s1 (-> & Hk & Hlk). rewrite (looking_is_eof _ _ _ _ Hlk).
  pose proof (looking_inv _ _ _ _ Hlk) as Hli. rewrite <- (keeps_world _ _ Hk) in *.
  set (o := ref_scan _ bad rest) in *. clearbody o.
  destruct (match o with Some (TEof, _) => true | _ => false end) eqn:Eo; cbn [negb]; cbv iota.
  { wp_step. split; [done|]. split; [done|]. by destruct o as [[[] ?]|]. }
  destruct Hli as (r2 & b2 & sv2 & Hat2). wp_step.
  eapply wp_mono; [by apply (error_set_spec N _ _ _ _ _ _ Hat2)|]. intros _ s2 (Hs & Hat3 & Hrep & El).
  wp_step. unfold in_world. wp_step. rewrite <- (same_world _ _ Hs) in Hinv, Hfr.
  eapply wp_mono; [by apply json_decref_spec|]. intros [] w3 (Hinv3 & Hsh & _). wp_step.
  split.
  { eapply lex_inv_world; [by eapply at_inv|]. rewrite (sh_oom _ _ Hsh). apply (at_oom _ _ _ _ _ Hat3). }
  split; [transitivity (l_world s2); [done|by apply shrink_frame]|]. by destruct o as [[[] ?]|].
Qed.

Lemma parse_json_spec N bad s roots rest saved :
  at_ N s rest bad saved -> lx_flags (l_lex s) = flags -> Inv (l_world s) roots ∅ ->
  wp (parse_json point flags) s (fun r s' =>
    lex_inv N s' /\ decoded (l_world s) roots (ref_text bad rest) r (l_error s') (l_world s')).
Proof using Hpoint.
  intros Hat Hf Hinv. unfold parse_json, upd_lex. wp_step. wp_step. wp_step.
  set (s0 := set_lex _ _). assert (Hat0 : at_ N s0 rest bad saved) by at_upds.
  assert (Hf0 : lx_flags (l_lex s0) = flags) by done.
  assert (Hd0 : lx_depth (l_lex s0) = 0) by done. change (l_world s) with (l_world s0) in *. clearbody s0.
  eapply wp_mono; [by apply (scan_spec point N flags bad Hpoint s0 rest saved)|].
  intros t1 s1 (-> & Hk & Hlk). rewrite <- (keeps_world _ _ Hk) in *. unfold ref_text.
  rewrite (looking_tok _ _ _ _ (chr "[") Hlk eq_refl), (looking_tok _ _ _ _ (chr "{") Hlk eq_refl).
  set (o := ref_scan _ bad rest) in *. clearbody o.
  assert (Hreject : forall msg, nonempty msg = true ->
    wp (error_set true json_error_invalid_syntax msg ;;; ret None) s1 (fun r s' =>
      lex_inv N s' /\ decoded (l_world s1) roots None r (l_error s') (l_world s'))).
  { intros msg Hm. eapply wp_mono; [apply (reject_spec N flags bad s1 roots 0)|]; try done.
    - by eapply looking_inv.
    - by rewrite (keeps_flags _ _ Hk).
    - intros r s' (Hfr & _ & _ & -> & Hi & Hr & Hli). done. }
  pose proof (parse_value_spec point N flags bad Hpoint PARSE_FUEL (Z.to_nat JSON_PARSER_MAX_DEPTH) 0
    ltac:(unfold PARSE_FUEL, JSON_PARSER_MAX_DEPTH; lia) ltac:(done) ltac:(done) s1 roots o Hlk
    ltac:(by rewrite (keeps_flags _ _ Hk)) ltac:(by rewrite (keeps_depth _ _ Hk)) Hinv) as Hpv.
  destruct (negb (has_flag flags JSON_DECODE_ANY) && negb (is_cur o (chr "[")) && negb (is_cur o (chr "{"))) eqn:Eg.
  { eapply wp_mono; [by apply Hreject|]. intros r s' [Hli H]. split; [done|].
    destruct o as [[t u]|]; [|done]. cbn [mbind option_bind is_cur] in *. by rewrite Eg. }
  wp_step. eapply wp_mono; [exact Hpv|]. intros r s2 H2.
  assert (Eref : ('(t, u) ← o; if negb (has_flag flags JSON_DECODE_ANY) && negb (is_tok t (chr "[")) && negb (is_tok t (chr "{"))
      then None else '(v, u) ← ref_value (has_flag flags JSON_DECODE_INT_AS_REAL) (has_flag flags JSON_REJECT_DUPLICATES)
                (has_flag flags JSON_ALLOW_NUL) bad (Z.to_nat JSON_PARSER_MAX_DEPTH) t u; finish bad v u) =
      ('(v, u) ← ('(t, u) ← o; ref_value (has_flag flags JSON_DECODE_INT_AS_REAL) (has_flag flags JSON_REJECT_DUPLICATES)
                (has_flag flags JSON_ALLOW_NUL) bad (Z.to_nat JSON_PARSER_MAX_DEPTH) t u); finish bad v u)).
  { destruct o as [[t u]|]; [|done]. cbn [mbind option_bind is_cur] in *. by rewrite Eg. }
  rewrite Eref. clear Eref Eg Hreject Hpv.
  destruct ('(t, u) ← o; _) as [[v u]|]; cbn [mbind option_bind].
  2:{ destruct H2 as (Hfr & _ & _ & -> & Hi & Hr & Hli). by wp_step. }
  pose proof H2 as (_ & _ & _ & l & -> & _). wp_step.
  eapply wp_mono; [by apply (eof_check_spec N bad s2 roots _ _ l v u H2)|].
  intros ok s3 (Hli & Hfr & H). destruct (finish bad v u) as [j|] eqn:Efin;
    destruct H as [-> H]; cbn [negb]; cbv iota.
  - replace j with v by (unfold finish in Efin; destruct (has_flag flags _); [congruence|by destruct (ref_scan _ bad u) as [[[] ?]|]; congruence]).
    unfold get_lex. wp_steps. destruct H as [Hi Ht]. split; [|split; [done|by exists l]].
    destruct Hli as (r4 & b4 & sv4 & Hat4). exists r4, b4, sv4. destruct Hat4. by split.
  - wp_step. split; [done|]. by split.
Qed.

(** ** The entry points *)

(** Every source: the result is that of the reference decoder on the bytes
    before its end. *)
Lemma load_source_spec input error w roots :
  Inv w roots ∅ -> w_oom w = [] -> Forall is_byte (bytes_of input) ->
  Z.of_nat (length (bytes_of input)) < 2 ^ 31 ->
  wp (load_source point input flags error) w (fun '(r, e) w' =>
    decoded w roots (ref_parse flags (bytes_of input)) r e w').
Proof using Hpoint.
  intros Hinv Hoom Hb Hlen. unfold load_source, lex_init. wp_step. wp_step.
  set (N := length (bytes_of input)) in *.
  destruct (sb_ok_init N) as (sb & Esb & Hsb). unfold run_am. wp_step. rewrite Hoom.
  eapply wp_eq; [exact Esb|]. cbv beta iota. change (0 =? 0) with true. cbn [negb]. cbv iota. wp_step.
  replace (set_oom [] w) with w by (rewrite <- Hoom; symmetry; apply set_oom_id).
  rewrite ref_parse_text. set (lex := {| lx_stream := _ |}). set (s := {| l_lex := lex; l_error := error; l_world := w |}).
  assert (Hat : at_ N s (text_of (bytes_of input)).1 (text_of (bytes_of input)).2 []).
  { split; simpl; try done; [|apply text_of_length].
    apply (stream_open _ _ [] [0; 0; 0; 0]); try done; [constructor|by destruct (text_of _)]. }
  pose proof (parse_json_spec N _ s roots _ [] Hat eq_refl Hinv) as Hp.
  unfold wp at 1. apply wp_inv in Hp as (r & s' & E & Hli & Hdec).
  fold s. unfold bind at 1. rewrite E. unfold lex_close, get_lex, lex_free_string, upd_lex.
  unfold bind, gets, modify, ret. by destruct (_ =? TOKEN_STRING).
Qed.
End decode.

(* ------------------------------------------------------------------ *)
(** ** Sources *)

Lemma bytes_of_some s : bytes_of (Some <$> s) = s.
Proof. induction s as [|c s IH]; [done|]. simpl. by f_equal. Qed.

Lemma drop_nth (s : bytes) i c r : drop i s = c :: r -> nth i s 0 = c /\ drop (S i) s = r.
Proof.
  intros E. split; [by apply nth_lookup_Some, lookup_of_drop with r|by apply drop_S_of_drop with c].
Qed.

Lemma drain_string s : is_cstr s -> drain string_get (length s) {| sd_data := s; sd_pos := 0 |} = Some <$> s.
Proof.
  intros Hs. enough (H : forall r i, drop i s = r ->
    drain string_get (length r) {| sd_data := s; sd_pos := i |} = Some <$> r) by (by apply H).
  assert (Hr : forall i, is_cstr (drop i s)) by (intros; by apply Forall_drop).
  induction r as [|c r IH]; intros i E; [done|]. destruct (drop_nth s i c r E) as [En Ed].
  specialize (Hr i). rewrite E in Hr. inversion Hr; subst.
  simpl. unfold string_get. simpl. rewrite (proj2 (Z.eqb_neq _ 0)) by lia.
  rewrite IH by done. by rewrite uchar_small by lia.
Qed.

Lemma drain_buffer b len :
  Forall is_byte b -> (len <= length b)%nat -> Z.of_nat len < 2 ^ 31 ->
  drain buffer_get len {| bd_data := b; bd_len := Z.of_nat len; bd_pos := 0 |} = Some <$> take len b.
Proof.
  intros Hb Hle Hlen. enough (H : forall n i, (i + n = len)%nat ->
    drain buffer_get n {| bd_data := b; bd_len := Z.of_nat len; bd_pos := Z.of_nat i |}
    = Some <$> take n (drop i b)) by (exact (H len 0%nat eq_refl)).
  induction n as [|n IH]; intros i E; [done|].
  destruct (drop i b) as [|c r] eqn:Ed.
  { apply (f_equal length) in Ed. rewrite length_drop in Ed. simpl in Ed. lia. }
  destruct (drop_nth b i c r Ed) as [En Ed'].
  assert (Hc : is_byte c).
  { rewrite Forall_forall in Hb. apply Hb. eapply list_elem_of_lookup_2. by eapply lookup_of_drop. }
  simpl. unfold buffer_get at 1. simpl. rewrite (proj2 (Z.leb_gt _ _)) by lia.
  rewrite Nat2Z.id, En, uchar_small by done. f_equal.
  rewrite size_t_small by (unfold SIZE_MAX; lia). replace (Z.of_nat i + 1) with (Z.of_nat (S i)) by lia.
  rewrite IH by lia. by rewrite Ed'.
Qed.

(** The calls of a callback that delivers [chunks] and then nothing. *)
Definition deliver (chunks : list bytes) : list (bytes * Z) :=
  (fun c => (c, Z.of_nat (length c))) <$> chunks.

Definition chunk_ok (c : bytes) : Prop :=
  c <> [] /\ Z.of_nat (length c) <= MAX_BUF_LEN /\ Forall is_byte c.

(** Within a chunk the bytes come from the buffer, behind it from the next
    call. *)
Lemma drain_callback chunks : Forall chunk_ok chunks ->
  forall n data len pos rest,
  (pos <= len)%nat -> (len <= length data)%nat -> Z.of_nat len <= MAX_BUF_LEN -> Forall is_byte data ->
  rest = take (len - pos) (drop pos data) -> (length rest + length (mjoin chunks) <= n)%nat ->
  bytes_of (drain callback_get n {| cd_data := data; cd_len := Z.of_nat len; cd_pos := Z.of_nat pos;
                                    cd_calls := deliver chunks |}) = rest ++ mjoin chunks.
Proof.
  intros Hch n. revert chunks Hch. induction n as [|n IH]; intros chunks Hch data len pos rest Hpos Hlen Hmax Hdata Hrest Hn.
  { destruct rest; [|simpl in Hn; lia]. by destruct (mjoin chunks); [|simpl in Hn; lia]. }
  unfold MAX_BUF_LEN in *. cbn [drain]. unfold callback_get at 1. cbn [cd_len cd_pos cd_calls cd_data].
  destruct (decide (len = pos)) as [->|Hne].
  - (* the buffer is used up *)
    rewrite Nat.sub_diag, take_0 in Hrest. subst rest. rewrite (proj2 (Z.leb_le _ _)) by lia.
    destruct Hch as [|c chunks (Hc0 & Hc1 & Hc2) Hch]; [done|]. unfold MAX_BUF_LEN in Hc1.
    cbn [deliver fmap list_fmap cd_len cd_pos cd_data cd_calls andb].
    destruct c as [|b c]; [done|]. rewrite (size_t_small (Z.of_nat _)) by (unfold SIZE_MAX; lia).
    rewrite (proj2 (Z.eqb_neq _ 0)) by (simpl; lia). rewrite (proj2 (Z.eqb_neq _ SIZE_MAX)) by (unfold SIZE_MAX; lia).
    cbn [orb]. inversion Hc2; subst. change (Z.to_nat 0) with 0%nat. cbn [app nth mjoin list_join bytes_of].
    rewrite uchar_small by done. change (size_t (0 + 1)) with (Z.of_nat 1). f_equal.
    fold (deliver chunks).
    apply (IH chunks Hch ((b :: c) ++ drop (length (b :: c)) data) (length (b :: c)) 1%nat c); try done.
    + simpl. lia.
    + rewrite length_app. lia.
    + apply Forall_app. split; [done|]. by apply Forall_drop.
    + simpl. rewrite Nat.sub_0_r, drop_0. by rewrite take_app_length.
    + simpl in *. rewrite length_app in Hn. lia.
  - destruct (drop pos data) as [|b r] eqn:Ed.
    { apply (f_equal length) in Ed. rewrite length_drop in Ed. simpl in Ed. lia. }
    destruct (drop_nth data pos b r Ed) as [En Ed'].
    assert (Hb : is_byte b).
    { rewrite Forall_forall in Hdata. apply Hdata. eapply list_elem_of_lookup_2. by eapply lookup_of_drop. }
    rewrite (proj2 (Z.leb_gt _ _)) by lia. cbn [andb cd_pos cd_data cd_len cd_calls].
    rewrite Nat2Z.id, En, uchar_small by done. replace (len - pos)%nat with (S (len - S pos)) in Hrest by lia.
    simpl in Hrest. subst rest. cbn [bytes_of app]. f_equal.
    rewrite size_t_small by (unfold SIZE_MAX; lia). replace (Z.of_nat pos + 1) with (Z.of_nat (S pos)) by lia.
    apply IH; try done; [lia|by rewrite Ed'|simpl in Hn; lia].
Qed.

Lemma callback_steps_enough chunks :
  Forall chunk_ok chunks -> (length (mjoin chunks) <= callback_steps (deliver chunks))%nat.
Proof.
  induction 1 as [|c chunks (_ & Hc & _) _ IH]; simpl; [lia|]. unfold callback_steps, MAX_BUF_LEN in *. simpl.
  rewrite length_app. lia.
Qed.

Lemma mjoin_bytes chunks : Forall chunk_ok chunks -> Forall is_byte (mjoin chunks).
Proof.
  induction 1 as [|c chunks (_ & _ & Hc) _ IH]; simpl; [constructor|]. by apply Forall_app.
Qed.

Lemma json_loads_spec point flags error s w roots :
  point_ok point -> Inv w roots ∅ -> w_oom w = [] -> is_cstr s -> Z.of_nat (length s) < 2 ^ 31 ->
  exists r e w', json_loads point (Some s) flags error w = inr ((r, e), w') /\
    decoded w roots (ref_parse flags s) r e w'.
Proof.
  intros Hp Hinv Ho Hs Hl. unfold json_loads. rewrite drain_string by done.
  destruct (wp_inv _ _ _ (load_source_spec point flags Hp (Some <$> s)
    (jsonp_error_init error (Some (lit "<string>"))) w roots Hinv Ho
    ltac:(rewrite bytes_of_some; by apply is_cstr_bytes) ltac:(by rewrite bytes_of_some)))
    as ([r e] & w' & E & Hd).
  rewrite bytes_of_some in Hd. exists r, e, w'. done.
Qed.

(* ------------------------------------------------------------------ *)
(** ** Properties *)

(** C1. [json_loads] decodes: on every C string shorter than 2 GiB, with any
    flags, in any locale, it returns; the text is accepted exactly when the
    reference grammar accepts it; the result is a new value, owned once by the
    caller, that is the tree of the text; a rejected text is reported and
    leaves nothing behind; and no value that existed before is changed. *)
Theorem json_loads_correct point flags error s w roots :
  point_ok point -> Inv w roots ∅ -> w_oom w = [] -> is_cstr s -> Z.of_nat (length s) < 2 ^ 31 ->
  exists r e w', json_loads point (Some s) flags error w = inr ((r, e), w') /\
    decoded w roots (ref_parse flags s) r e w'.
Proof. apply json_loads_spec. Qed.

Lemma json_loads_correct_witness :
  exists r e w', json_loads (chr ",") (Some (text "{'k': [1.5, true]}")) 0 None (world_init [] 5) = inr ((r, e), w') /\
    decoded (world_init [] 5) ∅ (Some (JObject [(lit "k", JArray [JReal (S754_finite false 6755399441055744 (-52)); JTrue])])) r e w'.
Proof.
  apply (json_loads_correct (chr ",") 0 None (text "{'k': [1.5, true]}") (world_init [] 5) ∅).
  - done.
  - apply inv_init.
  - reflexivity.
  - repeat constructor.
  - reflexivity.
Defined.

(** [json_loadb] decodes the first [len] bytes of a buffer, NUL bytes
    included, as the reference does. *)
Theorem json_loadb_correct point flags error b len w roots :
  point_ok point -> Inv w roots ∅ -> w_oom w = [] -> Forall is_byte b -> (len <= length b)%nat ->
  Z.of_nat len < 2 ^ 31 ->
  exists r e w', json_loadb point (Some b) (Z.of_nat len) flags error w = inr ((r, e), w') /\
    decoded w roots (ref_parse flags (take len b)) r e w'.
Proof.
  intros Hp Hinv Ho Hb Hle Hl. unfold json_loadb. rewrite Nat2Z.id, drain_buffer by done.
  destruct (wp_inv _ _ _ (load_source_spec point flags Hp (Some <$> take len b)
    (jsonp_error_init error (Some (lit "<buffer>"))) w roots Hinv Ho
    ltac:(rewrite bytes_of_some; by apply Forall_take)
    ltac:(rewrite bytes_of_some, length_take; lia)))
    as ([r e] & w' & E & Hd).
  rewrite bytes_of_some in Hd. exists r, e, w'. done.
Qed.

(** C24. [json_load_callback] does not depend on how the text is cut into
    chunks: for non-empty chunks that fit in its buffer the result is that of
    the concatenation, also when a chunk ends inside a token or a UTF-8
    sequence. *)
Theorem json_load_callback_chunks point flags error chunks w roots :
  point_ok point -> Inv w roots ∅ -> w_oom w = [] -> Forall chunk_ok chunks ->
  Z.of_nat (length (mjoin chunks)) < 2 ^ 31 ->
  exists r e w', json_load_callback point (Some (deliver chunks)) flags error w = inr ((r, e), w') /\
    decoded w roots (ref_parse flags (mjoin chunks)) r e w'.
Proof.
  intros Hp Hinv Ho Hch Hl. unfold json_load_callback.
  assert (Hbytes : bytes_of (drain callback_get (callback_steps (deliver chunks))
     {| cd_data := replicate (Z.to_nat MAX_BUF_LEN) 0; cd_len := 0; cd_pos := 0; cd_calls := deliver chunks |})
     = mjoin chunks).
  { apply (drain_callback chunks Hch _ _ 0 0 []); try done; [lia|by apply Forall_replicate|].
    by apply callback_steps_enough. }
  destruct (wp_inv _ _ _ (load_source_spec point flags Hp _
    (jsonp_error_init error (Some (lit "<callback>"))) w roots Hinv Ho
    ltac:(rewrite Hbytes; by apply mjoin_bytes) ltac:(by rewrite Hbytes)))
    as ([r e] & w' & E & Hd).
  rewrite Hbytes in Hd. exists r, e, w'. done.
Qed.

Lemma json_load_callback_chunks_witness :
  exists r e w', json_load_callback (chr ".") (Some (deliver [lit "[tr"; lit "ue]"])) 0 None (world_init [] 5) = inr ((r, e), w') /\
    decoded (world_init [] 5) ∅ (Some (JArray [JTrue])) r e w'.
Proof.
  apply (json_load_callback_chunks (chr ".") 0 None [lit "[tr"; lit "ue]"] (world_init [] 5) ∅).
  - done.
  - apply inv_init.
  - reflexivity.
  - repeat constructor; try done; unfold MAX_BUF_LEN; simpl; lia.
  - reflexivity.
Defined.
