(* ===== verification/Print.v ===== *)
(** * JSON texts: the reference encoder

    What dump.c is meant to write, as pure functions: the text of a value for
    given flags, and whether the encoding succeeds.  The encoder follows the
    heap, where a container may contain itself; a [view] is what it sees from
    a node, with [VLoop] where a path comes back to one of its nodes. *)

From Stdlib Require Import SpecFloat.
From S2P Require Import Prelude Utf8 Hashtable Value Strconv Load Dump Grammar.

#[warnings="-register-all"]
Inductive view : Type :=
| VLeaf (b : body)
| VArray (vs : list view)
| VObject (ms : list (bytes * view))
| VLoop.

(** A tree as a view. *)
Fixpoint view_of (t : json) : view :=
  match t with
  | JObject ms => VObject (map (fun m => (m.1, view_of m.2)) ms)
  | JArray ts => VArray (map view_of ts)
  | JString s => VLeaf (Str s)
  | JInteger z => VLeaf (Integer z)
  | JReal d => VLeaf (Real d)
  | JTrue => VLeaf True_
  | JFalse => VLeaf False_
  | JNull => VLeaf Null_
  end.

(* ------------------------------------------------------------------ *)
(** ** Outputs: the bytes written, and whether all went well *)

Definition out : Type := bytes * bool.
Definition put (s : bytes) : out := (s, true).
Definition o_seq (a b : out) : out := if a.2 then (a.1 ++ b.1, b.2) else a.
Infix ">+" := o_seq (at level 61, left associativity).
(** failures do not count *)
Definition o_ignore (a : out) : out := (a.1, true).

Section print.
Variables (point flags : Z).

Definition indent_text (depth : Z) (space : bool) : bytes :=
  if 0 <? FLAGS_TO_INDENT flags
  then chr "010" :: replicate (Z.to_nat (uint32 (depth * FLAGS_TO_INDENT flags))) (chr " ")
  else if space && negb (has_flag flags JSON_COMPACT) then lit " " else [].

(** The text of a string behind the opening quote; [run] are the bytes that
    need no escape since the last one that did. *)
Fixpoint print_chars (fuel : nat) (run s : bytes) : out :=
  match s with
  | [] => put (run ++ [chr "034"])
  | _ =>
      match fuel, utf8_iterate s with
      | S fuel', Some (rest, Some cp) =>
          if needs_escape flags cp then put (run ++ escape_text cp) >+ print_chars fuel' [] rest
          else print_chars fuel' (run ++ take (length s - length rest) s) rest
      | _, _ => ([], false)
      end
  end.
Definition print_string (s : bytes) : out := put [chr "034"] >+ print_chars (length s) [] s.

Definition print_leaf (b : body) : out :=
  match b with
  | Str s => print_string s
  | Integer z =>
      if MAX_INTEGER_STR_LENGTH <=? Z.of_nat (length (printf_d z)) then ([], false)
      else put (printf_d z)
  | Real d =>
      match jsonp_dtostr point MAX_REAL_STR_LENGTH d (FLAGS_TO_PRECISION flags) with
      | None => ([], false)
      | Some s => put s
      end
  | True_ => put (lit "true")
  | False_ => put (lit "false")
  | Null_ => put (lit "null")
  | Array _ | Object _ => ([], false)
  end.

Definition between_text (depth : Z) (more : bool) : bytes :=
  if more then lit "," ++ indent_text (depth + 1) true else indent_text depth false.
Fixpoint print_list (depth : Z) (os : list out) : out :=
  match os with
  | [] => put []
  | o :: os' =>
      o >+ put (between_text depth (match os' with [] => false | _ => true end))
        >+ print_list depth os'
  end.
(** A container around its components; embedded, without its brackets. *)
Definition print_container (embed : bool) (left right : bytes) (depth : Z) (os : list out) : out :=
  let bracket s := if embed then [] else s in
  match os with
  | [] => put (bracket left) >+ put (bracket right)
  | _ => put (bracket left) >+ put (indent_text (depth + 1) false) >+ print_list depth os
         >+ put (bracket right)
  end.

Definition print_member (m : bytes * out) : out :=
  o_ignore (print_string m.1) >+ put (separator flags) >+ m.2.

Fixpoint insert_member {A} (m : bytes * A) (ms : list (bytes * A)) : list (bytes * A) :=
  match ms with
  | [] => [m]
  | m' :: ms' => if compare_keys m.1 m'.1 then m :: ms else m' :: insert_member m ms'
  end.
Fixpoint sort_members {A} (ms : list (bytes * A)) : list (bytes * A) :=
  match ms with
  | [] => []
  | m :: ms' => insert_member m (sort_members ms')
  end.
Definition in_order {A} (ms : list (bytes * A)) : list (bytes * A) :=
  if has_flag flags JSON_SORT_KEYS then sort_members ms else ms.

Fixpoint print_view (embed : bool) (depth : Z) (v : view) : out :=
  match v with
  | VLeaf b => print_leaf b
  | VArray vs =>
      print_container embed (lit "[") (lit "]") depth (map (print_view false (depth + 1)) vs)
  | VObject ms =>
      print_container embed (lit "{") (lit "}") depth
        (map print_member (in_order (map (fun m => (m.1, print_view false (depth + 1) m.2)) ms)))
  | VLoop => ([], false)
  end.
End print.

(** What [json_dump_callback] writes for the view [v] of a value. *)
Definition print_json (point flags : Z) (v : view) : out :=
  let container := match v with VArray _ | VObject _ => true | _ => false end in
  if negb (has_flag flags JSON_ENCODE_ANY) && negb container then ([], false)
  else print_view point (clear_embed flags) (has_flag flags JSON_EMBED) 0 v.
