(* ===== verification/Views.v ===== *)
(** * Values in the heap as views

    [sees w anc l v]: [v] is what a traversal finds at [l] behind the path
    [anc].  Every node has a view, cyclic or not; the view of a tree is the
    tree; and a view stays as long as the bodies of its nodes do. *)

From stdpp Require Import gmultiset.
From Stdlib Require Import SpecFloat.
From S2P Require Import Prelude Utf8 Strbuffer Dlist Hashtable Value Arrays Refcount ValueSpec Iterate.
From S2P Require Import Strconv Load Grammar Tree Dump Print.

Definition is_leaf (b : body) : bool :=
  match b with Array _ | Object _ => false | _ => true end.

Section sees.
Context (w : world).

#[warnings="-register-all"]
Inductive sees : list loc -> loc -> view -> Prop :=
| sees_leaf anc l b : body_at w l b -> is_leaf b = true -> sees anc l (VLeaf b)
| sees_loop anc l b : l ∈ anc -> body_at w l b -> is_leaf b = false -> sees anc l VLoop
| sees_array anc l xs vs :
    l ∉ anc -> array_at w l xs -> Forall2 (sees (l :: anc)) xs vs -> sees anc l (VArray vs)
| sees_object anc l items ms :
    l ∉ anc -> object_at w l items ->
    Forall2 (fun a b => a.1 = b.1 /\ sees (l :: anc) a.2 b.2) (kvs items) ms ->
    sees anc l (VObject ms).

Lemma sees_rect (P : list loc -> loc -> view -> Prop) :
  (forall anc l b, body_at w l b -> is_leaf b = true -> P anc l (VLeaf b)) ->
  (forall anc l b, l ∈ anc -> body_at w l b -> is_leaf b = false -> P anc l VLoop) ->
  (forall anc l xs vs, l ∉ anc -> array_at w l xs -> Forall2 (P (l :: anc)) xs vs ->
     P anc l (VArray vs)) ->
  (forall anc l items ms, l ∉ anc -> object_at w l items ->
     Forall2 (fun a b => a.1 = b.1 /\ P (l :: anc) a.2 b.2) (kvs items) ms -> P anc l (VObject ms)) ->
  forall anc l v, sees anc l v -> P anc l v.
Proof.
  intros Hb Hl Ha Ho. fix IH 4.
  intros anc l v [anc' l' b H1 H2|anc' l' b H1 H2 H3|anc' l' xs vs H1 H2 H3|anc' l' items ms H1 H2 H3].
  - by apply Hb.
  - by eapply Hl.
  - eapply Ha; [exact H1|exact H2|]. clear H2.
    induction H3 as [|x t xs ts Hx _ IHl]; constructor; [|exact IHl]. by apply IH.
  - eapply Ho; [exact H1|exact H2|]. clear H2.
    induction H3 as [|a b as_ bs [Hk Hx] _ IHl]; constructor; [|exact IHl].
    split; [exact Hk|]. by apply IH.
Qed.
End sees.

(** ** Every value has one view *)

Lemma exists_Forall2 {A B} (R : A -> B -> Prop) xs :
  (forall x, x ∈ xs -> exists y, R x y) -> exists ys, Forall2 R xs ys.
Proof.
  induction xs as [|x xs IH]; intros H; [by exists []|].
  destruct (H x) as [y Hy]; [by left|]. destruct IH as [ys Hys]; [intros; apply H; by right|].
  exists (y :: ys). by constructor.
Qed.

Lemma sees_total w roots l :
  Inv w roots ∅ -> l ∈ refs (w_heap w) ⊎ roots -> exists v, sees w [] l v.
Proof.
  intros Hinv Hl.
  enough (forall k anc l, l ∈ refs (w_heap w) ⊎ roots -> path_ok w anc ->
          (size (w_heap w) < length anc + k)%nat -> exists v, sees w anc l v) as H.
  { apply (H (S (size (w_heap w))) []); [done| |simpl; lia]. split; [constructor|]. by intros ? ?%elem_of_nil. }
  clear l Hl. induction k as [|k IH]; intros anc l Hl Hpath Hk.
  { pose proof (path_length _ _ Hpath). lia. }
  destruct (inv_live _ _ _ _ Hinv Hl) as (n & Hn & Hrc).
  destruct (is_leaf (n_body n)) eqn:Hleaf.
  { exists (VLeaf (n_body n)). constructor; [by exists n|done]. }
  destruct (decide (l ∈ anc)) as [Hin|Hin].
  { exists VLoop. econstructor; [done|by exists n|done]. }
  assert (Hpath' : path_ok w (l :: anc)).
  { split; [constructor; [done|apply Hpath]|]. intros m [->|Hm]%elem_of_cons; [by exists n|by apply (path_heap _ _ Hpath)]. }
  assert (Hs : l ∉ statics).
  { intros Hs. destruct (static_node _ _ _ _ Hinv Hs) as (n' & Hn' & _). apply elem_of_statics in Hs as [m Hm].
    pose proof (inv_statics _ _ _ Hinv l m Hm). simplify_eq. revert Hm. unfold static_heap. rewrite !lookup_insert.
    repeat case_decide; try (intros [= <-]; done). }
  pose proof (inv_body _ _ _ Hinv l n Hn Hs) as Hok. destruct (n_body n) as [ht|a|s|z|d| | |] eqn:Hb; try done.
  - destruct Hok as [_ [items Hrep]]. assert (Ho : object_at w l items) by (exists ht; split; [by exists n|done]).
    destruct (exists_Forall2 (fun a b => a.1 = b.1 /\ sees w (l :: anc) a.2 b.2) (kvs items)) as [ms Hms].
    { intros [k' x] Hx. destruct (IH (l :: anc) x) as [v Hv]; [|done|simpl; lia|by exists (k', v)].
      by apply (object_child w roots ∅ Hinv l items (k', x)). }
    exists (VObject ms). by econstructor.
  - destruct Hok as [xs Ha]. assert (Ha' : array_at w l xs) by (exists a; split; [by exists n|done]).
    destruct (exists_Forall2 (sees w (l :: anc)) xs) as [vs Hvs].
    { intros x Hx. apply IH; [by apply (array_child w roots ∅ Hinv l xs)|done|simpl; lia]. }
    exists (VArray vs). by econstructor.
Qed.

(** ** Trees in the heap as views *)

Lemma tree_sees w roots Zs lo l t anc :
  Inv w roots Zs -> tree w lo l t -> (forall m, m ∈ anc -> (m < lo)%positive) -> sees w anc l (view_of t).
Proof.
  intros Hinv Ht. revert anc.
  assert (Hst : forall m n, static_heap !! m = Some n -> body_at w m (n_body n)).
  { intros m n Hm. exists n. split; [by apply (inv_statics _ _ _ Hinv)|done]. }
  induction Ht as [lo|lo|lo|lo l z Hl Hb|lo l d Hl Hb|lo l s Hl Hb|lo l xs ts Hl Ha IH|lo l items ms Hl Ho IH]
    using tree_rect; intros anc Hanc; cbn [view_of].
  - constructor; [by apply (Hst the_true {| refcount := SIZE_MAX; n_body := True_ |})|done].
  - constructor; [by apply (Hst the_false {| refcount := SIZE_MAX; n_body := False_ |})|done].
  - constructor; [by apply (Hst the_null {| refcount := SIZE_MAX; n_body := Null_ |})|done].
  - by constructor.
  - by constructor.
  - by constructor.
  - econstructor; [|exact Ha|].
    + intros Hin%Hanc. lia.
    + apply Forall2_fmap_r. eapply Forall2_impl; [exact IH|]. intros x t [_ Hx]. apply Hx.
      intros m [->|Hm%Hanc]%elem_of_cons; lia.
  - econstructor; [|exact Ho|].
    + intros Hin%Hanc. lia.
    + apply Forall2_fmap_r. eapply Forall2_impl; [exact IH|]. intros [k x] [k' t] (Hk & _ & Hx). split; [done|].
      apply Hx. intros m [->|Hm%Hanc]%elem_of_cons; lia.
Qed.


(** ** Views stay as long as the bodies of their nodes do *)

Lemma sees_keep w w' rs rs' anc l v :
  Inv w rs ∅ -> Inv w' rs' ∅ -> frame ∅ w w' -> l ∈ refs (w_heap w') ⊎ rs' ->
  sees w anc l v -> sees w' anc l v.
Proof.
  intros Hinv Hinv' Hfr Hl Hs. revert Hl.
  assert (Hn : forall m : loc, m ∉ (∅ : gset loc)) by (intros; apply not_elem_of_empty).
  induction Hs as [anc l b Hb Hlf|anc l b Hl Hb Hlf|anc l xs vs Hl Ha IH|anc l items ms Hl Ho IH]
    using sees_rect; intros Hlive.
  - constructor; [|done]. by eapply (body_keep w w').
  - econstructor; [done| |done]. by eapply (body_keep w w').
  - pose proof (array_keep _ _ _ _ _ _ _ Hinv Hinv' Hfr l xs Hlive (Hn l) Ha) as Ha'.
    econstructor; [done|exact Ha'|]. apply Forall2_same_length_lookup_2; [by apply Forall2_length in IH|].
    intros i x v Hx Hv. apply (Forall2_lookup_lr _ _ _ _ _ _ IH Hx Hv).
    eapply (array_child _ _ _ Hinv' l xs x Hlive Ha'). by eapply list_elem_of_lookup_2.
  - pose proof (object_keep _ _ _ _ _ _ _ Hinv Hinv' Hfr l items Hlive (Hn l) Ho) as Ho'.
    econstructor; [done|exact Ho'|]. apply Forall2_same_length_lookup_2; [by apply Forall2_length in IH|].
    intros i x v Hx Hv. destruct (Forall2_lookup_lr _ _ _ _ _ _ IH Hx Hv) as [Hk IHx]. split; [done|]. apply IHx.
    eapply (object_child _ _ _ Hinv' l items x Hlive Ho'). by eapply list_elem_of_lookup_2.
Qed.

(** The allocator has no part in what a client sees. *)
Lemma sees_oom w o anc l v : sees w anc l v -> sees (set_oom o w) anc l v.
Proof.
  intros Hs. induction Hs as [anc l b Hb Hlf|anc l b Hl Hb Hlf|anc l xs vs Hl Ha IH|anc l items ms Hl Ho IH] using sees_rect.
  - by apply sees_leaf.
  - by eapply sees_loop.
  - by eapply sees_array.
  - by eapply sees_object.
Qed.
