(* ===== verification/Sinks.v ===== *)
(** * Sinks, and what code writes to them

    [Sink] is what [do_dump] relies on: a callback that appends to the bytes it
    has taken, up to a limit, or refuses and takes nothing; as long as memory
    does not run out a steady sink refuses nothing.  The four sinks of dump.c
    are instances.  [writes m o ok] says that the code [m] leaves the world as
    it is and writes, as long as nothing is refused, the output [o]. *)

From Stdlib Require Import SpecFloat.
From S2P Require Import Prelude Utf8 Strbuffer Hashtable Value ValueSpec Strconv Load Dump Grammar.
From S2P Require Import Print.

Class Sink {D : Type} (dump : callback D) (rep : D -> bytes -> Prop) (steady : D -> Prop) (limit : nat) : Prop :=
  sink_write : forall bs d s w, rep d s -> (length s + length bs <= limit)%nat ->
    exists r d' o, dump bs d w = inr ((r, d'), set_oom o w) /\
      rep d' (if r =? 0 then s ++ bs else s) /\
      (w_oom w = [] -> steady d -> r = 0 /\ o = [] /\ steady d').

(** ** The sinks of dump.c *)

#[export] Instance strbuffer_sink (n : nat) :
  TCEq (Z.of_nat n <? 2 ^ 60) true -> Sink dump_to_strbuffer (sb_ok n) (fun _ => True) n.
Proof.
  intros Hn%TCEq_eq bs sb s w Hsb Hlen. zbool.
  destruct (sb_ok_append_any n sb s bs (w_oom w) Hsb Hlen Hn) as (r & sb' & o & E & Ho & Hr).
  exists r, sb', o. split; [unfold dump_to_strbuffer, run_am, zoom; by rewrite E|].
  destruct Hr as [[-> Hsb']|(-> & Hsb' & Hoom)]; split; auto. done.
Qed.

(** A buffer of [size] bytes that has been given [s]: [used] counts all of it,
    and as long as it fits, it is in the buffer. *)
Definition buffer_rep (size : Z) (b : buffer) (s : bytes) : Prop :=
  buf_size b = size /\ buf_used b = Z.of_nat (length s) /\ Z.of_nat (length (buf_data b)) = size /\
  (Z.of_nat (length s) <= size -> take (length s) (buf_data b) = Some <$> s).

#[export] Instance buffer_sink (n : nat) size :
  TCEq (Z.of_nat n <? 2 ^ 63) true -> Sink dump_to_buffer (buffer_rep size) (fun _ => True) n.
Proof.
  intros Hn%TCEq_eq bs b s w (Hs & Hu & Hd & Hc) Hlen. zbool. unfold dump_to_buffer.
  assert (Hsum : size_t (buf_used b + Z.of_nat (length bs)) = Z.of_nat (length (s ++ bs))).
  { rewrite size_t_small by (unfold SIZE_MAX; lia). rewrite length_app. lia. }
  rewrite Hsum, Hs. destruct (Z.leb_spec (Z.of_nat (length (s ++ bs))) size) as [Hle|Hgt].
  - rewrite length_app in Hle. rewrite Hu, Nat2Z.id. eexists 0, _, (w_oom w). split.
    { unfold bind. rewrite mem_store_ok by lia. by rewrite set_oom_id. }
    split; [change (if 0 =? 0 then s ++ bs else s) with (s ++ bs)|by auto]. split; [done|]. split; [done|]. cbn [buf_data]. split.
    { rewrite !length_app, length_take, length_fmap, length_drop. lia. }
    intros _. rewrite app_assoc, take_app_length'.
    + by rewrite Hc, fmap_app by lia.
    + rewrite !length_app, length_take, length_fmap. lia.
  - eexists 0, _, (w_oom w). split; [by rewrite set_oom_id|]. split; [change (if 0 =? 0 then s ++ bs else s) with (s ++ bs)|by auto]. split; [done|]. split; [done|]. split; [done|]. lia.
Qed.

(** A file or descriptor; [pre] is what it held.  It is steady if all writes
    succeed. *)
Definition file_rep (pre : bytes) (f : file) (s : bytes) : Prop := f_out f = pre ++ s.
Definition file_steady (f : file) : Prop := f_results f = [].

#[export] Instance file_sink (n : nat) pre : Sink dump_to_file (file_rep pre) file_steady n.
Proof.
  intros bs f s w Hf _. unfold dump_to_file. exists (file_write bs f).1, (file_write bs f).2, (w_oom w).
  rewrite set_oom_id, <- surjective_pairing. split; [done|]. unfold file_write, file_rep, file_steady in *.
  destruct (f_results f) as [|[] rs]; cbn; rewrite ?Hf, <- ?app_assoc; auto; done.
Qed.
#[export] Instance fd_sink (n : nat) pre : Sink dump_to_fd (file_rep pre) file_steady n.
Proof. exact (file_sink n pre). Qed.

(* ------------------------------------------------------------------ *)
(** ** What code writes *)

(** A status is 0 on success. *)
Definition status (r : Z) (b : bool) : Prop := (r =? 0) = b.

Section writes.
Context {D : Type} (dump : callback D) (rep : D -> bytes -> Prop) (steady : D -> Prop) (limit : nat).
Context `{!Sink dump rep steady limit}.
Context (w : world).

Definition writes {A} (m : DM D A) (o : out) (ok : A -> bool -> Prop) : Prop :=
  forall d s x, rep d s -> (length s + length o.1 <= limit)%nat ->
  wp m {| d_world := set_oom x w; d_data := d |} (fun a st => exists t b y,
    d_world st = set_oom y w /\ rep (d_data st) (s ++ t) /\ (length t <= length o.1)%nat /\
    ok a b /\ (b = true -> o.2 = true) /\
    (x = [] -> steady d -> y = [] /\ steady (d_data st) /\ t = o.1 /\ b = o.2)).

Lemma writes_mono {A} (m : DM D A) o (ok ok' : A -> bool -> Prop) :
  writes m o ok -> (forall a b, ok a b -> ok' a b) -> writes m o ok'.
Proof.
  intros Hm Hok d s x Hd Hl. eapply wp_mono; [by apply Hm|].
  intros a st (t & b & y & H1 & H2 & H3 & H4 & H5). exists t, b, y. split_and!; try done; [by apply Hok|apply H5|apply H5].
Qed.

(** Code that writes nothing. *)
Lemma writes_nothing {A} (a : A) b (ok : A -> bool -> Prop) : ok a b -> writes (ret a) ([], b) ok.
Proof. intros Ha d s x Hd Hl. rewrite wp_ret. exists [], b, x. cbn. rewrite app_nil_r. auto 10. Qed.
Lemma writes_ret {A} (a : A) (ok : A -> bool -> Prop) : ok a true -> writes (ret a) (put []) ok.
Proof. apply writes_nothing. Qed.
Lemma writes_fail {A} (a : A) (ok : A -> bool -> Prop) : ok a false -> writes (ret a) ([], false) ok.
Proof. apply writes_nothing. Qed.

Lemma writes_emit bs : writes (emit dump bs) (put bs) status.
Proof using Sink0.
  intros d s x Hd Hl. destruct (sink_write bs d s (set_oom x w) Hd Hl) as (r & d' & y & E & Hd' & Hx).
  unfold wp, emit. cbn [d_data d_world]. rewrite E. exists (if r =? 0 then bs else []), (r =? 0), y. cbn.
  split_and!; try done.
  - by destruct (r =? 0); rewrite ?app_nil_r.
  - destruct (r =? 0); cbn; lia.
  - intros Hx0 Hs. by destruct (Hx Hx0 Hs) as (-> & -> & ?).
Qed.

(** Code in sequence, the second part depending on the result of the first. *)
Lemma writes_bind {A B} (m : DM D A) (k : A -> DM D B) o1 o2 ok1 ok :
  writes m o1 ok1 ->
  (forall a, ok1 a true -> o1.2 = true -> writes (k a) o2 ok) ->
  (forall a, ok1 a false -> writes (k a) ([], false) ok) ->
  writes (bind m k) (o1 >+ o2) ok.
Proof.
  intros Hm Hk Hf d s x Hd Hl. destruct o1 as [t1 b1], o2 as [t2 b2]. wp_step.
  eapply wp_mono; [apply Hm; [done|destruct b1; cbn in Hl |- *; rewrite ?length_app in Hl; lia]|]. cbn [fst snd] in *.
  intros a [w' d'] (t & b & y & Hw & Hd' & Ht & Ha & Hb & Hc). cbn in Hw, Hd', Hc. subst w'. destruct b.
  - rewrite (Hb eq_refl) in *. cbn in Hl |- *. rewrite length_app in Hl.
    eapply wp_mono; [apply (Hk a Ha eq_refl); [done|rewrite length_app; cbn; lia]|].
    intros c st (u & b & z & H1 & H2 & H3 & H4 & H5 & H6). rewrite <- app_assoc in H2. exists (t ++ u), b, z. cbn in *.
    split_and!; try done; [rewrite !length_app; lia|]. intros Hx Hs. destruct (Hc Hx Hs) as (-> & Hs' & -> & _).
    by destruct (H6 eq_refl Hs') as (-> & ? & -> & ->).
  - assert (Hle : (length t1 <= length (o_seq (t1, b1) (t2, b2)).1)%nat) by (destruct b1; cbn; rewrite ?length_app; lia).
    eapply wp_mono; [apply (Hf a Ha); [done|rewrite length_app; cbn; lia]|].
    intros c st (u & b & z & H1 & H2 & H3 & H4 & H5 & H6). cbn in H3. destruct u; [|cbn in H3; lia]. rewrite app_nil_r in H2.
    assert (b = false) as -> by (destruct b; [by specialize (H5 eq_refl)|done]). exists t, false, z.
    split_and!; try done; [lia|]. intros Hx Hs. destruct (Hc Hx Hs) as (-> & Hs' & -> & <-).
    by destruct (H6 eq_refl Hs') as (-> & ? & _).
Qed.

Lemma writes_or_fail {A} (fv : A) m k o1 o2 (ok : A -> bool -> Prop) :
  writes m o1 status -> writes k o2 ok -> ok fv false -> writes (or_fail fv m k) (o1 >+ o2) ok.
Proof.
  intros Hm Hk Hf. eapply writes_bind; [exact Hm| |].
  - intros r Hr _. unfold status in Hr. by rewrite Hr.
  - intros r Hr. unfold status in Hr. rewrite Hr. by apply writes_fail.
Qed.

(** A step on the world that only allocates: with memory it gives [P], without
    possibly [Q]. *)
Lemma writes_world {A B} (P Q : A -> Prop) (m : W A) (k : A -> DM D B) o ok :
  (forall x, wp m (set_oom x w) (fun r w' => exists y, w' = set_oom y w /\ (x = [] -> y = []) /\ (P r \/ x <> [] /\ Q r))) ->
  (forall r, P r -> writes (k r) o ok) -> (forall r, Q r -> writes (k r) ([], false) ok) ->
  writes (bind (on_world m) k) o ok.
Proof.
  intros Hm HP HQ d s x Hd Hl. wp_step. unfold on_world. rewrite wp_zoom. eapply wp_mono; [apply Hm|].
  intros r w' (y & -> & Hy & [Hr|[Hx Hr]]); cbn.
  - eapply wp_mono; [by apply (HP r Hr)|]. intros a st (t & b & z & H1 & H2 & H3 & H4 & H5 & H6). exists t, b, z. auto 10.
  - eapply wp_mono; [apply (HQ r Hr); [done|cbn; lia]|]. intros a st (t & b & z & H1 & H2 & H3 & H4 & H5 & H6). cbn in H3, H5.
    exists t, b, z. split_and!; try done; [lia|]. intros Hb. by specialize (H5 Hb).
Qed.

(** A step whose result may depend on what is left of the memory. *)
Lemma writes_some {A B} (P : A -> Prop) (m : W A) (k : A -> DM D B) o ok :
  (forall x, exists r, P r /\ m (set_oom x w) = inr (r, set_oom x w)) -> (forall r, P r -> writes (k r) o ok) ->
  writes (bind (on_world m) k) o ok.
Proof.
  intros Hm Hk. apply (writes_world P (fun _ => False)); [|done|done].
  intros x. destruct (Hm x) as (r & Hr & E). eapply wp_eq; [exact E|]. exists x. auto.
Qed.

(** A step that only reads the world. *)
Lemma writes_read {A B} (m : W A) a (k : A -> DM D B) o ok :
  (forall x, wp m (set_oom x w) (fun r w' => w' = set_oom x w /\ r = a)) -> writes (k a) o ok -> writes (bind (on_world m) k) o ok.
Proof.
  intros Hm Hk. apply (writes_world (eq a) (fun _ => False)); [|by intros ? <-|done].
  intros x. eapply wp_mono; [apply Hm|]. intros r w' [-> ->]. exists x. auto.
Qed.

(** A result that nobody looks at. *)
Lemma writes_ignore {A} (m : DM D A) o ok : writes m o ok -> writes m (o_ignore o) (fun _ b => b = true).
Proof.
  intros Hm d s x Hd Hl. eapply wp_mono; [by apply Hm|]. intros a st (t & b & y & H1 & H2 & H3 & H4 & H5 & H6).
  exists t, true, y. split_and!; try done. intros Hx Hs. destruct (H6 Hx Hs) as (? & ? & ? & _). done.
Qed.

Lemma writes_require {A B} (x : option A) a (k : A -> DM D B) o ok :
  x = Some a -> writes (k a) o ok -> writes (bind (require x) k) o ok.
Proof. intros -> Hk d s y Hd Hl. wp_step. by apply Hk. Qed.

Lemma writes_assert {B} b (k : DM D B) o ok :
  b = true -> writes k o ok -> writes (bind (assert_ b) (fun _ => k)) o ok.
Proof. intros -> Hk d s x Hd Hl. wp_step. by apply Hk. Qed.
End writes.
