(* ===== verification/DumpText.v ===== *)
(** * The encoder writes the reference text: indentation, strings and numbers *)

From Stdlib Require Import SpecFloat.
From S2P Require Import Prelude Utf8 Strbuffer Hashtable Value ValueSpec Strconv Load Dump Grammar.
From S2P Require Import Print Sinks.

Section text.
Context {D : Type} (dump : callback D) (rep : D -> bytes -> Prop) (steady : D -> Prop) (limit : nat).
Context `{!Sink dump rep steady limit}.
Context (w : world) (point : Z).

Abbreviation writes := (writes rep steady limit w).

Lemma emit_spaces_spec fuel n :
  0 <= n -> (Z.to_nat (n / 32) < fuel)%nat ->
  writes (emit_spaces dump fuel n) (put (replicate (Z.to_nat n) (chr " "))) status.
Proof using Sink0.
  revert n. induction fuel as [|fuel IH]; intros n Hn Hf; [lia|]. cbn [emit_spaces].
  destruct (Z.ltb_spec 0 n) as [Hpos|Hz].
  2:{ replace n with 0 by lia. by apply writes_ret. }
  unfold whitespace_len. set (cur := if n <? 32 then n else 32).
  assert (Hcur : 0 < cur <= n /\ (n - cur = 0 \/ cur = 32)) by (unfold cur; case_if; lia).
  replace (replicate (Z.to_nat n) (chr " "))
    with (replicate (Z.to_nat cur) (chr " ") ++ replicate (Z.to_nat (n - cur)) (chr " ")).
  2:{ rewrite <- replicate_add. f_equal. lia. }
  apply (writes_or_fail rep steady limit w (-1) _ _ (put _) (put _)); [by apply writes_emit| |done].
  destruct Hcur as [Hcur [Hend|Hcur']].
  - rewrite Hend. destruct fuel; by apply writes_ret.
  - apply IH; [lia|]. rewrite Hcur'. rewrite Hcur' in Hcur.
    replace (n / 32) with ((n - 32) / 32 + 1) in Hf.
    2:{ rewrite <- Z.div_add by lia. f_equal. lia. }
    assert (0 <= (n - 32) / 32) by (apply Z.div_pos; lia). lia.
Qed.

Lemma dump_indent_spec flags depth space :
  writes (dump_indent dump flags depth space) (put (indent_text flags depth space)) status.
Proof using Sink0.
  unfold dump_indent, indent_text. destruct (0 <? FLAGS_TO_INDENT flags).
  - change (chr "010" :: ?l) with ([chr "010"] ++ l).
    apply (writes_or_fail rep steady limit w (-1) _ _ (put _) (put _)); [by apply writes_emit| |done].
    apply emit_spaces_spec; [unfold uint32; apply Z.mod_pos_bound; lia|unfold whitespace_len; lia].
  - destruct (space && _); [by apply writes_emit|by apply writes_ret].
Qed.

Lemma dump_between_spec flags depth more :
  writes (dump_between dump flags depth more) (put (between_text flags depth more)) status.
Proof using Sink0.
  unfold dump_between, between_text. destruct more; [|apply dump_indent_spec].
  apply (writes_or_fail rep steady limit w (-1) _ _ (put _) (put _)); [by apply writes_emit| |done].
  apply dump_indent_spec.
Qed.

(** ** Strings *)

(** On a non-empty text [utf8_iterate] fails or makes progress. *)
Lemma utf8_iterate_cases s :
  s <> [] -> utf8_iterate s = None \/
  exists r cp, utf8_iterate s = Some (r, Some cp) /\ (length r < length s)%nat.
Proof.
  intros Hs. destruct s as [|b s]; [done|]. unfold utf8_iterate.
  destruct (Z.leb_spec (utf8_check_first b) 0) as [|Hpos]; [by left|].
  case_if; [right; eexists _, _; split; [done|]; simpl; lia|].
  case_if; [by left|]. destruct (utf8_check_full _ _) as [v|]; [|by left].
  right. eexists _, _. split; [done|]. rewrite length_drop. simpl in *. lia.
Qed.

Lemma print_chars_fuel flags fuel fuel' run s :
  (length s <= fuel)%nat -> (length s <= fuel')%nat ->
  print_chars flags fuel run s = print_chars flags fuel' run s.
Proof.
  revert fuel' run s. induction fuel as [|fuel IH]; intros fuel' run s Hf Hf'.
  - destruct s; [by destruct fuel'|]. simpl in Hf. lia.
  - destruct s as [|b s]; [by destruct fuel'|]. destruct fuel' as [|fuel']; [simpl in Hf'; lia|].
    cbn [print_chars]. destruct (utf8_iterate_cases (b :: s)) as [->|(r & cp & -> & Hr)]; [done|done|].
    rewrite !(IH fuel') by lia. done.
Qed.

(** The inner loop collects what needs no escape. *)
Lemma plain_run_spec flags fuel run s :
  (length s <= fuel)%nat ->
  exists r, plain_run fuel flags run s = inr r /\
    match r with
    | None => print_chars flags fuel (rev run) s = ([], false)
    | Some (t, None) => print_chars flags fuel (rev run) s = put (t ++ [chr "034"])
    | Some (t, Some (cp, rest)) =>
        (length rest < length s)%nat /\
        print_chars flags fuel (rev run) s =
          put (t ++ escape_text cp) >+ print_chars flags (length rest) [] rest
    end.
Proof.
  revert run s. induction fuel as [|fuel IH]; intros run s Hf.
  - destruct s; [|simpl in Hf; lia]. eexists. split; [done|]. done.
  - destruct s as [|b s]; [eexists; split; [done|]; done|]. cbn [plain_run print_chars].
    destruct (utf8_iterate_cases (b :: s)) as [->|(r & cp & -> & Hr)]; [done|by eexists|].
    destruct (needs_escape flags cp).
    + eexists. split; [done|]. split; [done|]. f_equal. apply print_chars_fuel; lia.
    + destruct (IH (rev (take (length (b :: s) - length r) (b :: s)) ++ run) r ltac:(lia)) as (q & E & Hq).
      exists q. split; [exact E|]. rewrite rev_app_distr, rev_involutive in Hq.
      destruct q as [[t [[cp' rest]|]]|]; [|done|done]. split; [lia|]. apply Hq.
Qed.

Lemma dump_string_loop_spec flags fuel s :
  (length s < fuel)%nat ->
  writes (dump_string_loop dump fuel flags s) (print_chars flags (length s) [] s) status.
Proof using Sink0.
  revert s. induction fuel as [|fuel IH]; intros s Hf; [lia|]. cbn [dump_string_loop].
  destruct (plain_run_spec flags (length s) [] s ltac:(lia)) as (r & E & Hr). cbn [rev] in Hr.
  rewrite E. clear E. intros d t x Hd Hl. wp_step. apply wp_lift_res with r; [done|]. revert d t x Hd Hl.
  change (writes (match r with
                  | None => ret (-1)
                  | Some (run, stop) =>
                      or_fail (-1) (match run with [] => ret 0 | _ => emit dump run end)
                        (match stop with
                         | None => emit dump [chr "034"]
                         | Some (codepoint, end_) =>
                             or_fail (-1) (emit dump (escape_text codepoint))
                               (dump_string_loop dump fuel flags end_)
                         end)
                  end) (print_chars flags (length s) [] s) status).
  destruct r as [[run stop]|]; [|rewrite Hr; by apply writes_fail].
  assert (Hrun : writes (match run with [] => ret 0 | _ => emit dump run end) (put run) status).
  { destruct run; [by apply writes_ret|by apply writes_emit]. }
  destruct stop as [[cp rest]|].
  - destruct Hr as [Hlt ->]. replace (put (run ++ escape_text cp) >+ print_chars flags (length rest) [] rest)
      with (put run >+ (put (escape_text cp) >+ print_chars flags (length rest) [] rest)).
    2:{ unfold o_seq, put. cbn. by rewrite app_assoc. }
    apply writes_or_fail; [done| |done]. apply writes_or_fail; [by apply writes_emit| |done].
    apply IH. lia.
  - rewrite Hr. apply (writes_or_fail rep steady limit w (-1) _ _ (put _) (put _)); [done| |done].
    by apply writes_emit.
Qed.

Lemma dump_string_spec flags s :
  writes (dump_string dump s flags) (print_string flags s) status.
Proof using Sink0.
  apply writes_or_fail; [by apply writes_emit| |done]. apply dump_string_loop_spec. lia.
Qed.

(** ** Numbers and constants *)

Lemma dump_integer_spec z : writes (dump_integer dump z) (print_leaf point 0 (Integer z)) status.
Proof using Sink0.
  unfold dump_integer, print_leaf. destruct (_ <=? _); [by apply writes_fail|by apply writes_emit].
Qed.

Lemma dump_real_spec flags d :
  writes (dump_real dump point d flags) (print_leaf point flags (Real d)) status.
Proof using Sink0.
  unfold dump_real, print_leaf. destruct (jsonp_dtostr _ _ _ _); [by apply writes_emit|by apply writes_fail].
Qed.
End text.
