(* ===== verification/Encode.v ===== *)
(** * The encoder writes the reference text: containers

    [do_dump] writes what [print_view] says of the view of a value, cyclic or
    not, and leaves the world as it was. *)

From stdpp Require Import gmultiset.
From Stdlib Require Import SpecFloat.
From S2P Require Import Prelude Utf8 Strbuffer Dlist Hashtable Value Arrays Refcount ValueSpec Iterate.
From S2P Require Import Strconv Load Dump Grammar Tree Print Views Sinks DumpText.

Lemma o_seq_assoc a b c : (a >+ b) >+ c = a >+ (b >+ c).
Proof. destruct a as [s [|]], b as [t [|]], c as [u v]; unfold o_seq; cbn; by rewrite ?app_assoc. Qed.

(** ** Sorting *)

Lemma insert_member_keys {A} (m : bytes * A) ms : (insert_member m ms).*1 = insert_key m.1 ms.*1.
Proof. induction ms as [|m' ms IH]; [done|]. cbn. case_match; [done|]. cbn. by rewrite <- IH. Qed.
Lemma sort_members_keys {A} (ms : list (bytes * A)) : (sort_members ms).*1 = sort_keys ms.*1.
Proof. induction ms as [|m ms IH]; [done|]. cbn. by rewrite insert_member_keys, IH. Qed.

Lemma insert_member_perm {A} (m : bytes * A) ms : insert_member m ms ≡ₚ m :: ms.
Proof.
  induction ms as [|m' ms IH]; [done|]. cbn. case_match; [done|]. rewrite IH. apply Permutation_swap.
Qed.
Lemma sort_members_perm {A} (ms : list (bytes * A)) : sort_members ms ≡ₚ ms.
Proof. induction ms as [|m ms IH]; [done|]. cbn. by rewrite insert_member_perm, IH. Qed.

Lemma insert_member_map {A B} (f : A -> B) m ms :
  insert_member (m.1, f m.2) (map (fun m => (m.1, f m.2)) ms) =
  map (fun m => (m.1, f m.2)) (insert_member m ms).
Proof. induction ms as [|m' ms IH]; [done|]. cbn. case_match; [done|]. cbn. by rewrite IH. Qed.
Lemma sort_members_map {A B} (f : A -> B) ms :
  sort_members (map (fun m => (m.1, f m.2)) ms) = map (fun m => (m.1, f m.2)) (sort_members ms).
Proof.
  induction ms as [|m ms IH]; [done|]. cbn [sort_members map]. by rewrite IH, insert_member_map.
Qed.
Lemma in_order_map {A B} flags (f : A -> B) ms :
  in_order flags (map (fun m => (m.1, f m.2)) ms) = map (fun m => (m.1, f m.2)) (in_order flags ms).
Proof. unfold in_order. case_match; [apply sort_members_map|done]. Qed.

Lemma collect_keys_spec w l items i fuel :
  object_at w l items -> (length items < i + fuel)%nat ->
  wp (collect_keys fuel l (items.*1 !! i)) w (fun r w' => w' = w /\ r = drop i (keys items)).
Proof.
  intros Ho. revert i. induction fuel as [|fuel IH]; intros i Hf.
  all: destruct (items !! i) as [[n pr]|] eqn:Hi.
  1: apply lookup_lt_Some in Hi; lia.
  1, 3: assert (items.*1 !! i = None) as -> by (by rewrite list_lookup_fmap, Hi);
     apply lookup_ge_None in Hi; cbn [collect_keys];
     rewrite wp_ret, drop_ge by (unfold keys; by rewrite length_fmap); done.
  destruct (items_kvs _ _ _ _ Hi) as [Hn Hkv]. rewrite Hn. cbn [collect_keys].
  wp_step. eapply wp_mono; [by apply (json_object_iter_key_spec w l items Ho i n pr)|]. cbv beta. intros ? ? [-> ->].
  wp_step. eapply wp_require; [done|].
  wp_step. eapply wp_mono; [by apply (json_object_iter_next_spec w l items Ho i n)|]. cbv beta. intros ? ? [-> ->].
  wp_step. eapply wp_mono; [apply IH; lia|]. cbv beta. intros ? ? [-> ->]. rewrite wp_ret. split; [done|].
  symmetry. apply drop_S. unfold keys. by rewrite list_lookup_fmap, Hi.
Qed.

Section encode.
Context {D : Type} (dump : callback D) (rep : D -> bytes -> Prop) (steady : D -> Prop) (limit : nat).
Context `{!Sink dump rep steady limit}.
Context (w : world) (Htv : traversable w) (point : Z).

Abbreviation writes := (writes rep steady limit w).

(** The status of a container's code and the table it leaves. *)
Definition leaves (anc : list loc) (r : Z * hashtable_t) (b : bool) : Prop :=
  status r.1 b /\ if b then parents_ok w anc r.2 else exists anc', parents_ok w anc' r.2.

Lemma leaves_fail anc anc' parents : parents_ok w anc' parents -> leaves anc (-1, parents) false.
Proof. intros H. split; [done|]. by exists anc'. Qed.

(** Code that continues with the table of a component. *)
Lemma writes_component anc (m : DM D (Z * hashtable_t)) k o1 o2 (ok : Z * hashtable_t -> bool -> Prop) :
  writes m o1 (leaves anc) ->
  (forall parents, parents_ok w anc parents -> writes (k parents) o2 ok) ->
  (forall anc' parents, parents_ok w anc' parents -> ok (-1, parents) false) ->
  writes (let* (r, parents) := m in if negb (r =? 0) then ret (-1, parents) else k parents)
    (o1 >+ o2) ok.
Proof.
  intros Hm Hk Hf. eapply writes_bind; [exact Hm| |].
  - intros [r parents] [Hr Hp] _. unfold status in Hr. cbn in Hr, Hp. rewrite Hr. by apply Hk.
  - intros [r parents] [Hr (anc' & Hp)]. unfold status in Hr. cbn in Hr, Hp. rewrite Hr.
    apply writes_fail. by eapply Hf.
Qed.

Lemma dump_open_spec embed bracket :
  writes (dump_open dump embed bracket) (put (if embed then [] else bracket)) status.
Proof using Htv Sink0.
  unfold dump_open. destruct embed; [by apply writes_ret|by apply writes_emit].
Qed.

Lemma dump_close_spec anc l embed bracket parents :
  parents_ok w (l :: anc) parents ->
  writes (dump_close dump embed bracket parents (loop_key l)) (put (if embed then [] else bracket))
    (leaves anc).
Proof using Htv Sink0.
  intros Hp. unfold dump_close. apply (writes_some rep steady limit w (parents_ok w anc)).
  { intros x. exact (parents_del_spec (set_oom x w) (tv_quiet _ Htv) anc parents l Hp). }
  intros parents' Hp'. change (if embed then ret 0 else emit dump bracket)
    with (dump_open dump embed bracket).
  replace (put (if embed then [] else bracket)) with (put (if embed then [] else bracket) >+ put []).
  2:{ unfold o_seq, put. cbn. by rewrite app_nil_r. }
  eapply writes_bind; [apply dump_open_spec| |].
  - intros r Hr _. apply writes_ret. by split.
  - intros r Hr. apply writes_fail. split; [done|]. by exists anc.
Qed.

(** The loop check of a container that is not on the path. *)
Lemma writes_check anc parents l k o :
  path_ok w anc -> parents_ok w anc parents -> is_Some (w_heap w !! l) -> l ∉ anc ->
  (forall parents', parents_ok w (l :: anc) parents' -> path_ok w (l :: anc) -> writes (k (0, loop_key l, parents')) o (leaves anc)) ->
  (forall key parents', k (-1, key, parents') = ret (-1, parents')) ->
  writes (bind (on_world (jsonp_loop_check parents l LOOP_KEY_LEN)) k) o (leaves anc).
Proof using Htv.
  intros Hpath Hp Hheap Hl Hk Hf. destruct (loop_check_miss w anc parents l Htv Hp Hpath Hheap Hl) as [Hpath' _].
  apply (writes_world rep steady limit w (fun r => exists parents', r = (0, loop_key l, parents') /\ parents_ok w (l :: anc) parents')
           (fun r => exists parents', r = (-1, loop_key l, parents') /\ parents_ok w anc parents')).
  - intros x. destruct (loop_check_miss (set_oom x w) anc parents l) as [_ H]; try done; [by apply traversable_oom|by apply path_oom|]. eapply wp_mono; [exact H|].
    intros r w' (y & -> & Hy & [Hr|(p' & Hx & Hr)]); exists y; (split; [done|]); (split; [done|]); [by left|right]. split; [done|by exists p'].
  - intros r (p' & -> & Hp'). by apply Hk.
  - intros r (p' & -> & Hp'). rewrite Hf. apply writes_fail. by eapply leaves_fail.
Qed.

(** ** Components *)

Section components.
Context (f : json_ptr -> Z -> hashtable_t -> DM D (Z * hashtable_t)).
Context (flags : Z) (anc : list loc) (depth : Z) (show : view -> out).

(** [f] writes a component as [show] says. *)
Definition shows (x : loc) (v : view) : Prop :=
  forall parents, parents_ok w anc parents ->
  writes (f (Some x) (depth + 1) parents) (show v) (leaves anc).

Lemma dump_elements_spec l all xs vs i parents :
  array_at w l all -> drop i all = xs -> Forall2 shows xs vs -> parents_ok w anc parents ->
  writes (dump_elements dump f flags (length xs) l (Z.of_nat (length all)) (Z.of_nat i) depth parents)
    (print_list flags depth (map show vs)) (leaves anc).
Proof using Htv Sink0.
  intros Ha Hxs Hall. revert i parents Hxs. induction Hall as [|x v xs vs Hx Hall IH]; intros i parents Hxs Hp.
  { apply writes_ret. by split. }
  cbn [map print_list length dump_elements]. rewrite o_seq_assoc.
  assert (Hi : all !! i = Some x).
  { pose proof (lookup_drop all i 0) as E. rewrite Hxs, Nat.add_0_r in E. by symmetry. }
  assert (Hnext : drop (S i) all = xs).
  { replace (S i) with (i + 1)%nat by lia. rewrite <- drop_drop, Hxs. done. }
  eapply (writes_read rep steady limit w _ (Some x)).
  { intros y. eapply wp_mono; [apply (json_array_get_spec (set_oom y w) l all); [done|lia]|]. cbv beta. intros r w' [-> ->].
    by rewrite Nat2Z.id. }
  eapply writes_component; [by apply Hx| |intros; by eapply leaves_fail].
  intros parents' Hp'. eapply writes_or_fail; [|replace (Z.of_nat i + 1) with (Z.of_nat (S i)) by lia; by apply IH|by eapply leaves_fail].
  replace (Z.of_nat i <? Z.of_nat (length all) - 1) with (match map show vs with [] => false | _ => true end).
  { by eapply dump_between_spec. }
  apply lookup_lt_Some in Hi as Hlt. pose proof (length_drop all (S i)) as Hl. rewrite Hnext in Hl.
  apply Forall2_length in Hall. destruct vs as [|v' vs]; cbn in Hall |- *; symmetry.
  - apply Z.ltb_ge. lia.
  - apply Z.ltb_lt. lia.
Qed.

Lemma dump_member_spec key x v parents :
  shows x v -> parents_ok w anc parents ->
  writes (dump_member dump f flags key (Some x) depth parents) (print_member flags (key, show v)) (leaves anc).
Proof using Htv Sink0.
  intros Hx Hp. unfold dump_member, print_member. rewrite o_seq_assoc. cbn [fst snd].
  eapply (writes_bind rep steady limit w _ _ _ _ (fun _ b => b = true)).
  - eapply writes_ignore. by apply (dump_string_spec dump).
  - intros _ _ _. eapply writes_or_fail; [by apply writes_emit| |by eapply leaves_fail].
    replace (show v) with (show v >+ put []).
    2:{ unfold o_seq, put. destruct (show v) as [s [|]]; cbn; by rewrite ?app_nil_r. }
    eapply writes_bind; [by apply Hx| |].
    + intros [r parents'] [Hr Hp'] _. apply writes_ret. split; [|done]. unfold status in *. cbn in *. by rewrite Hr.
    + intros [r parents'] [Hr Hp']. apply writes_fail. split; [|done]. unfold status in *. cbn in *. by rewrite Hr.
  - done.
Qed.

(** The members in the order of a list of keys. *)
Lemma dump_sorted_spec l items ms parents :
  object_at w l items -> Forall (fun m => exists x, alookup m.1 (kvs items) = Some x /\ shows x m.2) ms ->
  parents_ok w anc parents ->
  writes (dump_sorted dump f flags ms.*1 l depth parents)
    (print_list flags depth (map (print_member flags) (map (fun m => (m.1, show m.2)) ms))) (leaves anc).
Proof using Htv Sink0.
  intros Ho Hall. revert parents. induction Hall as [|[k v] ms (x & Hx & Hs) Hall IH]; intros parents Hp.
  { apply writes_ret. by split. }
  cbn [map print_list fst snd fmap list_fmap dump_sorted]. rewrite o_seq_assoc. cbn [fst snd] in Hx, Hs.
  eapply (writes_read rep steady limit w _ (Some x)).
  { intros y. eapply wp_mono; [by apply (json_object_get_spec (set_oom y w) l items)|]. cbv beta. intros r w' [-> ->]. by rewrite Hx. }
  apply writes_assert; [by apply bool_decide_eq_true; exists x|].
  eapply writes_component; [by apply dump_member_spec| |intros; by eapply leaves_fail].
  intros parents' Hp'. eapply writes_or_fail; [|by apply IH|by eapply leaves_fail].
  replace (match ms.*1 with [] => false | _ => true end)
    with (match map (print_member flags) (map (fun m => (m.1, show m.2)) ms) with [] => false | _ => true end)
    by by destruct ms.
  by eapply dump_between_spec.
Qed.

(** The members in the order of insertion. *)
Lemma dump_unsorted_spec l items ms i fuel parents :
  object_at w l items ->
  Forall2 (fun a b => a.1 = b.1 /\ shows a.2 b.2) (drop i (kvs items)) ms ->
  (length items < i + fuel)%nat -> parents_ok w anc parents ->
  writes (dump_unsorted dump f flags fuel l (items.*1 !! i) depth parents)
    (print_list flags depth (map (print_member flags) (map (fun m => (m.1, show m.2)) ms))) (leaves anc).
Proof using Htv Sink0.
  intros Ho. revert ms i parents. induction fuel as [|fuel IH]; intros ms i parents Hall Hf Hp.
  all: destruct (items !! i) as [[n pr]|] eqn:Hi.
  1: apply lookup_lt_Some in Hi; lia.
  2: destruct (items_kvs _ _ _ _ Hi) as [Hn Hkv]; rewrite Hn;
     rewrite (drop_S _ _ _ Hkv) in Hall; inversion Hall as [|a [k v] as_ ms' [Hk Hs] Hall' E1 E2]; subst;
     cbn [fst snd] in Hk, Hs; subst k.
  1, 3: assert (items.*1 !! i = None) as -> by (by rewrite list_lookup_fmap, Hi);
     apply lookup_ge_None in Hi; rewrite drop_ge in Hall by (unfold kvs; by rewrite length_fmap);
     inversion Hall; subst; apply writes_ret; by split.
  cbn [map print_list fst snd dump_unsorted]. rewrite o_seq_assoc.
  eapply writes_read; [intros y; by apply (json_object_iter_next_spec (set_oom y w) l items Ho i n)|].
  eapply writes_read; [intros y; by apply (json_object_iter_key_spec (set_oom y w) l items Ho i n pr)|].
  eapply writes_require; [done|].
  eapply writes_read; [intros y; by apply (json_object_iter_value_spec (set_oom y w) l items Ho i n pr)|].
  eapply writes_component; [by apply dump_member_spec| |intros; by eapply leaves_fail].
  intros parents' Hp'. eapply writes_or_fail; [|apply IH; [done|lia|done]|by eapply leaves_fail].
  replace (bool_decide (is_Some (items.*1 !! S i)))
    with (match map (print_member flags) (map (fun m => (m.1, show m.2)) ms') with [] => false | _ => true end).
  { by eapply dump_between_spec. }
  apply Forall2_length in Hall'. rewrite length_drop in Hall'. unfold kvs in Hall'. rewrite length_fmap in Hall'.
  symmetry. destruct ms' as [|m ms']; cbn in Hall' |- *.
  - apply bool_decide_eq_false. rewrite lookup_lt_is_Some, length_fmap. lia.
  - apply bool_decide_eq_true. rewrite lookup_lt_is_Some, length_fmap. lia.
Qed.

Lemma dump_members_spec l items ms parents :
  object_at w l items -> items <> [] ->
  Forall2 (fun a b => a.1 = b.1 /\ shows a.2 b.2) (kvs items) ms -> parents_ok w anc parents ->
  writes (dump_members dump f flags l (items.*1 !! 0%nat) depth parents)
    (print_list flags depth (map (print_member flags) (in_order flags (map (fun m => (m.1, show m.2)) ms))))
    (leaves anc).
Proof using Htv Sink0.
  intros Ho Hne Hall Hp. unfold dump_members. eapply (writes_read rep steady limit w _ (w_heap w)); [intros y; by apply wp_gets|]. rewrite in_order_map.
  pose proof (foreach_fuel_gt w l items Ho) as Hfuel. unfold in_order.
  destruct (has_flag flags JSON_SORT_KEYS).
  2:{ by apply dump_unsorted_spec. }
  eapply writes_read; [intros y; by apply (json_object_size_spec (set_oom y w) l items)|].
  eapply (writes_world rep steady limit w (eq true) (eq false)); [| |by intros ? <-; apply writes_fail; eapply leaves_fail].
  { intros y. apply wp_malloc. intros ok y' Hy Hok. exists y'. split; [done|]. split; [done|].
    destruct ok; [by left|right]. split; [|done]. destruct (Hok eq_refl) as [Hz|]; [exfalso|done]. revert Hz.
    destruct Ho as (ht & _ & xs & Hwf). pose proof (wf_max _ _ _ _ Hwf) as Hmax.
    rewrite (wf_size _ _ _ _ Hwf) in Hmax. destruct items; [done|]. cbn [length] in *.
    unfold SIZEOF_PTR. rewrite size_t_small by (unfold SIZE_MAX; lia). lia. }
  intros ? <-. eapply writes_read; [intros y; apply (collect_keys_spec (set_oom y w) l items 0); [done|lia]|].
  rewrite drop_0. apply writes_assert; [unfold keys; rewrite length_fmap; by apply Z.eqb_refl|].
  assert (Hkeys : keys items = ms.*1).
  { rewrite keys_kvs. clear - Hall. induction Hall as [|a b as_ bs [Hk _] _ IH]; [done|]. cbn. by rewrite Hk, IH. }
  rewrite Hkeys, <- sort_members_keys. apply (dump_sorted_spec l items); [done| |done].
  rewrite sort_members_perm. apply Forall_forall. intros m Hm.
  apply list_elem_of_lookup in Hm as [i Hi]. destruct (Forall2_lookup_r _ _ _ _ _ Hall Hi) as ([k x] & Hx & Hk & Hs).
  cbn [fst snd] in Hk, Hs. exists x. split; [|done]. rewrite <- Hk.
  apply list_elem_of_split_length in Hx as (l1 & l2 & E & _). rewrite E. apply alookup_split.
  destruct Ho as (ht & _ & xs & Hwf). pose proof (wf_keys _ _ _ _ Hwf) as Hnd. rewrite keys_kvs, E in Hnd.
  rewrite fmap_app in Hnd. apply NoDup_app in Hnd as (_ & Hd & _). intros Hin.
  by apply (Hd _ Hin), elem_of_cons; left.
Qed.
End components.

(** ** Containers and values *)

Lemma dump_array_spec f flags embed anc depth show l xs vs parents :
  array_at w l xs -> l ∉ anc -> path_ok w anc -> parents_ok w anc parents ->
  (path_ok w (l :: anc) -> Forall2 (shows f (l :: anc) depth show) xs vs) ->
  writes (dump_array dump f flags embed l depth parents)
    (print_container flags embed (lit "[") (lit "]") depth (map show vs)) (leaves anc).
Proof using Htv Sink0.
  intros Ha Hl Hpath Hp Hall. unfold dump_array.
  assert (Hheap : is_Some (w_heap w !! l)) by (destruct Ha as (a & (n & Hn & _) & _); by exists n).
  eapply writes_check; [done|done|done|done| |done]. intros parents' Hp' Hpath'. cbn [negb Z.eqb].
  eapply writes_read; [intros y; by apply (json_array_size_spec (set_oom y w) l xs)|]. specialize (Hall Hpath').
  unfold print_container. destruct Hall as [|x v xs vs Hx Hall].
  - eapply writes_or_fail; [apply dump_open_spec| |by eapply leaves_fail]. by apply dump_close_spec.
  - cbn [map]. rewrite !o_seq_assoc.
    eapply writes_or_fail; [apply dump_open_spec| |by eapply leaves_fail].
    rewrite (proj2 (Z.eqb_neq _ _)) by (cbn [length]; lia).
    eapply writes_or_fail; [by eapply dump_indent_spec| |by eapply leaves_fail].
    rewrite Nat2Z.id. eapply (writes_component (l :: anc)).
    + apply (dump_elements_spec f flags (l :: anc) depth show l (x :: xs) (x :: xs) (v :: vs) 0); try done.
      by constructor.
    + intros parents2 Hp2. by apply dump_close_spec.
    + intros anc' parents2 Hp2. by eapply leaves_fail.
Qed.

Lemma dump_object_spec f flags embed anc depth show l items ms parents :
  object_at w l items -> l ∉ anc -> path_ok w anc -> parents_ok w anc parents ->
  (path_ok w (l :: anc) ->
   Forall2 (fun a b => a.1 = b.1 /\ shows f (l :: anc) depth show a.2 b.2) (kvs items) ms) ->
  writes (dump_object dump f flags embed l depth parents)
    (print_container flags embed (lit "{") (lit "}") depth
       (map (print_member flags) (in_order flags (map (fun m => (m.1, show m.2)) ms)))) (leaves anc).
Proof using Htv Sink0.
  intros Ho Hl Hpath Hp Hall. unfold dump_object.
  assert (Hheap : is_Some (w_heap w !! l)) by (destruct Ho as (a & (n & Hn & _) & _); by exists n).
  eapply writes_check; [done|done|done|done| |done]. intros parents' Hp' Hpath'. cbn [negb Z.eqb].
  eapply writes_read; [intros y; by apply (json_object_iter_spec (set_oom y w) l items)|]. specialize (Hall Hpath').
  unfold print_container. destruct items as [|[n pr] items].
  - inversion Hall; subst. assert (in_order flags (map (fun m : bytes * view => (m.1, show m.2)) []) = []) as ->.
    { unfold in_order. by case_match. }
    eapply writes_or_fail; [apply dump_open_spec| |by eapply leaves_fail]. by apply dump_close_spec.
  - destruct (map (print_member flags) _) as [|o os] eqn:Eos.
    { exfalso. apply map_eq_nil in Eos. apply Forall2_length in Hall.
      assert (Hlen : length (in_order flags (map (fun m : bytes * view => (m.1, show m.2)) ms)) = length ms).
      { unfold in_order. case_match; [|apply length_map].
        by rewrite (Permutation_length (sort_members_perm _)), length_map. }
      rewrite Eos in Hlen. cbn in Hlen, Hall. lia. }
    rewrite !o_seq_assoc, <- Eos.
    eapply writes_or_fail; [apply dump_open_spec| |by eapply leaves_fail].
    eapply writes_or_fail; [by eapply dump_indent_spec| |by eapply leaves_fail].
    eapply (writes_component (l :: anc)).
    + by apply (dump_members_spec f flags (l :: anc) depth show l ((n, pr) :: items)).
    + intros parents2 Hp2. by apply dump_close_spec.
    + intros anc' parents2 Hp2. by eapply leaves_fail.
Qed.

Lemma clear_embed_idem flags : clear_embed (clear_embed flags) = clear_embed flags.
Proof.
  unfold clear_embed. rewrite Z.ldiff_ldiff_l. by rewrite Z.lor_diag.
Qed.
Lemma clear_embed_flag flags : has_flag (clear_embed flags) JSON_EMBED = false.
Proof.
  unfold has_flag, clear_embed. by rewrite Z.land_ldiff.
Qed.

(** A leaf does not use the table. *)
Lemma writes_leaf m o anc parents :
  parents_ok w anc parents -> writes m o status ->
  writes (let* r := m in ret (r, parents)) o (leaves anc).
Proof.
  intros Hp Hm. replace o with (o >+ put []).
  2:{ unfold o_seq, put. destruct o as [s [|]]; cbn; by rewrite ?app_nil_r. }
  eapply writes_bind; [exact Hm| |].
  - intros r Hr _. apply writes_ret. by split.
  - intros r Hr. apply writes_fail. split; [done|]. by exists anc.
Qed.

Lemma dump_leaf_spec fuel flags anc l b depth parents :
  body_at w l b -> is_leaf b = true -> parents_ok w anc parents ->
  writes (do_dump dump point (S fuel) flags (Some l) depth parents)
    (print_leaf point (clear_embed flags) b) (leaves anc).
Proof using Htv Sink0.
  intros (n & Hn & <-) Hb Hp. cbn [do_dump].
  eapply writes_read; [intros y; by eapply wp_deref|].
  destruct (n_body n) as [ht|a|s|z|d| | |]; try done; apply writes_leaf; try done;
    try (by apply writes_emit).
  - exact (dump_string_spec dump rep steady limit w _ _).
  - exact (dump_integer_spec dump rep steady limit w point _).
  - exact (dump_real_spec dump rep steady limit w point _ _).
Qed.

Theorem do_dump_spec anc l v :
  sees w anc l v -> forall fuel flags depth parents,
  path_ok w anc -> parents_ok w anc parents -> (size (w_heap w) < length anc + fuel)%nat ->
  writes (do_dump dump point fuel flags (Some l) depth parents)
    (print_view point (clear_embed flags) (has_flag flags JSON_EMBED) depth v) (leaves anc).
Proof using Htv Sink0.
  intros Hsees. induction Hsees as [anc l b Hb Hlf|anc l b Hl Hb Hlf|anc l xs vs Hl Ha IH|anc l items ms Hl Ho IH]
    using sees_rect; intros fuel flags depth parents Hpath Hp Hf;
    pose proof (path_length w anc Hpath) as Hlen; (destruct fuel as [|fuel]; [lia|]); cbn [print_view].
  - by apply dump_leaf_spec.
  - destruct Hb as (n & Hn & <-). cbn [do_dump]. eapply writes_read; [intros y; by eapply wp_deref|].
    destruct (n_body n); try done; unfold dump_object, dump_array;
      (eapply writes_read; [intros y; by apply (loop_check_hit (set_oom y w) anc)|]); apply writes_fail; by eapply leaves_fail.
  - pose proof Ha as (a & (n & Hn & Hb) & _). cbn [do_dump]. eapply writes_read; [intros y; by eapply wp_deref|].
    rewrite Hb. cbv iota. apply (dump_array_spec _ _ _ _ _ _ l xs vs); try done.
    intros Hpath'. eapply Forall2_impl; [exact IH|]. intros x v Hx parents' Hp'.
    rewrite <- clear_embed_idem at 2. rewrite <- (clear_embed_flag flags). apply Hx; try done. cbn [length]. lia.
  - pose proof Ho as (a & (n & Hn & Hb) & _). cbn [do_dump]. eapply writes_read; [intros y; by eapply wp_deref|].
    rewrite Hb. cbv iota. apply (dump_object_spec _ _ _ _ _ _ l items ms); try done.
    intros Hpath'. eapply Forall2_impl; [exact IH|]. intros x v [Hk Hx]. split; [done|]. intros parents' Hp'.
    rewrite <- clear_embed_idem at 2. rewrite <- (clear_embed_flag flags). apply Hx; try done. cbn [length]. lia.
Qed.
End encode.
