(* ===== verification/Dumps.v ===== *)
(** * The encoder's entry points

    [json_dumps], [json_dumpb], [json_dumpf] and [json_dump_file] on any value
    a client holds, shared, nested or cyclic. *)

From stdpp Require Import gmultiset.
From Stdlib Require Import SpecFloat.
From S2P Require Import Prelude Utf8 Strbuffer Dlist Hashtable Value Arrays Refcount ValueSpec Iterate.
From S2P Require Import Client Error Strconv Load Dump Grammar Tree Print Views Sinks DumpText Encode.

(** ** Writing to a sink *)

Section callback.
Context {D : Type} (dump : callback D) (rep : D -> bytes -> Prop) (steady : D -> Prop) (limit : nat).
Context `{!Sink dump rep steady limit}.
Context (w : world) (Htv : traversable w) (point : Z).

Lemma json_dump_callback_spec l v flags d :
  sees w [] l v -> rep d [] -> (length (print_json point flags v).1 <= limit)%nat ->
  exists r d' t o, run_dump (json_dump_callback dump point (Some l) flags) d w = inr ((r, d'), set_oom o w) /\
    rep d' t /\ (length t <= length (print_json point flags v).1)%nat /\
    (r = 0 -> (print_json point flags v).2 = true) /\
    (w_oom w = [] -> steady d -> o = [] /\ t = (print_json point flags v).1 /\ (r =? 0) = (print_json point flags v).2).
Proof using Htv Sink0.
  intros Hv Hd Hlen.
  assert (Hw : writes rep steady limit w (json_dump_callback dump point (Some l) flags)
                 (print_json point flags v) status).
  { unfold json_dump_callback, print_json.
    assert (Hbody : exists b, body_at w l b /\
      match v with VArray _ | VObject _ => true | _ => false end =
        bool_decide (type_of b = JSON_ARRAY) || bool_decide (type_of b = JSON_OBJECT)).
    { inversion Hv as [? ? b Hb Hlf|? ? b Hl|? ? xs vs _ (a & Ha & _)|? ? items ms _ (ht & Ho & _)]; subst.
      - exists b. split; [done|]. by destruct b.
      - by apply elem_of_nil in Hl.
      - by exists (Array a).
      - by exists (Object ht). }
    destruct Hbody as (b & Hb & ->).
    eapply writes_read; [intros y; by eapply wp_json_is|]. eapply writes_read; [intros y; by eapply wp_json_is|].
    rewrite negb_orb, andb_assoc.
    match goal with |- context [if ?c then ([], false) else _] => destruct c end.
    { by apply writes_fail. }
    apply (writes_world rep steady limit w (fun r => exists ht, r = Some ht /\ forall seed, ht_rep seed ht []) (eq None));
      [| |by intros ? <-; apply writes_fail].
    { intros y. apply wp_run_am. eapply wp_mono; [apply hashtable_init_spec|]. intros r y' [Hy Hr]. exists y'. split; [done|]. split; [done|].
      destruct r as [ht|]; [left; by exists ht|by right]. }
    intros ? (ht & -> & Hht). cbv iota.
    eapply (writes_read rep steady limit w _ (w_heap w)); [intros y; by apply wp_gets|].
    replace (print_view _ _ _ _ _) with (print_view point (clear_embed flags) (has_flag flags JSON_EMBED) 0 v >+ put []).
    2:{ unfold o_seq, put. destruct (print_view _ _ _ _ _) as [s [|]]; cbn; by rewrite ?app_nil_r. }
    eapply writes_bind; [eapply (do_dump_spec dump rep steady limit w Htv point [] l v Hv)| |].
    - split; [constructor|]. by intros ? ?%elem_of_nil.
    - exists []. by split.
    - simpl. lia.
    - intros [r parents] [Hr Hp] _. eapply writes_read; [intros y; eapply wp_eq; [by eapply (parents_close_spec (set_oom y w) (tv_quiet _ Htv))|done]|].
      by apply writes_ret.
    - intros [r parents] [Hr (anc & Hp)]. eapply writes_read; [intros y; eapply wp_eq; [by eapply (parents_close_spec (set_oom y w) (tv_quiet _ Htv))|done]|].
      by apply writes_fail. }
  specialize (Hw d [] (w_oom w) Hd ltac:(simpl; lia)). rewrite set_oom_id in Hw.
  apply wp_inv in Hw as (r & [w' d'] & E & t & b & o & Hw' & Hd' & Ht & Hr & Hb & Hc). cbn in Hw', Hd', Hc. subst w'. unfold status in Hr.
  exists r, d', t, o. unfold run_dump. rewrite E. split_and!; try done.
  - intros ->. by apply Hb.
  - intros Ho Hs. destruct (Hc Ho Hs) as (-> & _ & -> & ->). done.
Qed.
End callback.

(** ** The entry points *)

Lemma held_view w roots l :
  Inv w roots ∅ -> l ∈ roots -> fits w -> traversable w /\ exists v, sees w [] l v.
Proof.
  intros Hinv Hl [H1 H2]. split; [by eapply inv_traversable|].
  eapply sees_total; [done|]. apply gmultiset_elem_of_disj_union. by right.
Qed.

Lemma json_dumps_spec point flags w l v :
  traversable w -> sees w [] l v -> Z.of_nat (length (print_json point flags v).1) < 2 ^ 60 ->
  exists r o, json_dumps point (Some l) flags w = inr (r, set_oom o w) /\
    ((print_json point flags v).2 = false -> r = None) /\
    (w_oom w = [] -> o = [] /\ r = if (print_json point flags v).2 then Some (until_nul (print_json point flags v).1) else None) /\
    (forall t, r = Some t -> (length t <= length (print_json point flags v).1)%nat).
Proof.
  intros Htv Hv Hlen. set (n := length (print_json point flags v).1) in *.
  assert (Hn : TCEq (Z.of_nat n <? 2 ^ 60) true) by (rewrite (proj2 (Z.ltb_lt _ _) Hlen); constructor).
  cut (wp (json_dumps point (Some l) flags) w (fun r w' => exists o, w' = set_oom o w /\
    ((print_json point flags v).2 = false -> r = None) /\
    (w_oom w = [] -> o = [] /\ r = if (print_json point flags v).2 then Some (until_nul (print_json point flags v).1) else None) /\
    (forall t, r = Some t -> (length t <= length (print_json point flags v).1)%nat))).
  { intros Hw. apply wp_inv in Hw as (r & w' & E & o & -> & H). by exists r, o. }
  unfold json_dumps. wp_step. apply wp_run_am. eapply wp_mono; [apply (sb_ok_init_any n)|]. intros [r sb] o1 (Ho1 & [[-> Hsb]|[-> Hoom]]); cbn [negb Z.eqb].
  2:{ apply wp_ret. by exists o1. }
  destruct (json_dump_callback_spec dump_to_strbuffer (sb_ok n) (fun _ => True) n (set_oom o1 w) (traversable_oom _ _ Htv) point l v flags sb (sees_oom _ _ _ _ _ Hv) Hsb)
    as (r & sb' & t & o2 & E & Hsb' & Ht & Hr & Hc); [done|].
  wp_step. eapply wp_eq; [exact E|]. cbn [set_oom w_oom] in Hc. cbv beta iota. destruct (Z.eqb_spec r 0) as [->|Hr0]; cbn [negb].
  2:{ apply wp_ret. exists o2. split_and!; try done. intros Ho. destruct (Hc (Ho1 Ho) I) as (-> & _ & Hc'). by rewrite <- Hc'. }
  destruct Hsb' as [Hsb' _]. wp_step. eapply wp_lift_res; [by apply strbuffer_value_rep|]. wp_step. eapply wp_require; [done|].
  rewrite (Hr eq_refl). apply wp_run_am. unfold jsonp_strdup, jsonp_strndup. wp_step. cbn [set_oom w_oom].
  pose proof (length_until_nul t) as Hle. unfold n in Hlen.
  destruct (jsonp_malloc_cases (size_t (Z.of_nat (length (until_nul t)) + 1)) o2) as [(o3 & E3 & _ & Ho3)|(o3 & E3 & [Hz|Hoom] & Ho3)];
    (eapply wp_eq; [exact E3|]).
  - apply wp_ret. exists o3. split_and!; try done. intros Ho. destruct (Hc (Ho1 Ho) I) as (-> & -> & _). rewrite take_ge by done. auto.
    intros u [= <-]. rewrite length_take. lia.
  - exfalso. rewrite size_t_small in Hz by (unfold SIZE_MAX; lia). lia.
  - apply wp_ret. exists o3. split_and!; try done. intros Ho. by destruct (Hc (Ho1 Ho) I) as (-> & _).
Qed.

Lemma json_dumps_nil point flags w l v :
  w_oom w = [] -> traversable w -> sees w [] l v -> Z.of_nat (length (print_json point flags v).1) < 2 ^ 60 ->
  json_dumps point (Some l) flags w =
  inr (if (print_json point flags v).2 then Some (until_nul (print_json point flags v).1) else None, w).
Proof.
  intros Ho Htv Hv Hlen. destruct (json_dumps_spec point flags w l v Htv Hv Hlen) as (r & o & E & _ & Hc & _).
  destruct (Hc Ho) as [-> ->]. rewrite E. do 2 f_equal. by rewrite <- Ho, set_oom_id.
Qed.

Lemma json_dumpb_spec point flags w l v buffer size :
  traversable w -> sees w [] l v -> Z.of_nat (length (print_json point flags v).1) < 2 ^ 63 ->
  Z.of_nat (length buffer) = size ->
  exists r buffer' o, json_dumpb point (Some l) buffer size flags w = inr ((r, buffer'), set_oom o w) /\
    length buffer' = length buffer /\ 0 <= r <= Z.of_nat (length (print_json point flags v).1) /\
    (w_oom w = [] -> o = [] /\
     r = (if (print_json point flags v).2 then Z.of_nat (length (print_json point flags v).1) else 0) /\
     (Z.of_nat (length (print_json point flags v).1) <= size ->
      take (length (print_json point flags v).1) buffer' = Some <$> (print_json point flags v).1)).
Proof.
  intros Htv Hv Hlen Hsize. set (n := length (print_json point flags v).1) in *. unfold json_dumpb.
  assert (Hn : TCEq (Z.of_nat n <? 2 ^ 63) true) by (rewrite (proj2 (Z.ltb_lt _ _) Hlen); constructor).
  destruct (json_dump_callback_spec dump_to_buffer (buffer_rep size) (fun _ => True) n w Htv point l v flags
              {| buf_size := size; buf_used := 0; buf_data := buffer |} Hv)
    as (r & b' & t & o & E' & (_ & Hu & Hd & Hc) & Ht & Hr & Hcalm); [by repeat split|done|].
  rewrite (bind_inr _ _ _ _ _ E'). eexists _, (buf_data b'), o. split; [reflexivity|]. split; [lia|]. split; [destruct (r =? 0); cbn; lia|].
  intros Ho. destruct (Hcalm Ho I) as (-> & -> & ->). split_and!; try done. rewrite Hu. by destruct (print_json point flags v).2.
Qed.

Lemma json_dumpf_spec point flags w l v f :
  traversable w -> sees w [] l v ->
  exists r f' t o, json_dumpf point (Some l) f flags w = inr ((r, f'), set_oom o w) /\ f_out f' = f_out f ++ t /\
    (w_oom w = [] -> f_results f = [] -> o = [] /\ t = (print_json point flags v).1 /\ (r =? 0) = (print_json point flags v).2).
Proof.
  intros Htv Hv. unfold json_dumpf.
  destruct (json_dump_callback_spec dump_to_file (file_rep (f_out f)) file_steady (length (print_json point flags v).1)
              w Htv point l v flags f Hv) as (r & f' & t & o & E & Ho & _ & _ & Hc); [|done|by exists r, f', t, o].
  unfold file_rep. by rewrite app_nil_r.
Qed.

(** ** Only trees have a text *)

Lemma print_list_ok flags d os : (print_list flags d os).2 = true -> Forall (fun o => o.2 = true) os.
Proof.
  induction os as [|o os IH]; [constructor|]. cbn [print_list]. unfold o_seq. destruct o as [s [|]]; cbn; [|done].
  intros H. constructor; [done|auto].
Qed.
Lemma print_container_ok flags embed l r d os :
  (print_container flags embed l r d os).2 = true -> Forall (fun o => o.2 = true) os.
Proof.
  unfold print_container. destruct os as [|o os]; [constructor|]. intros H. apply (print_list_ok flags d).
  revert H. generalize (print_list flags d (o :: os)). intros [s [|]]; done.
Qed.

Lemma print_view_tree w anc l v :
  sees w anc l v -> forall point flags embed d, (print_view point flags embed d v).2 = true ->
  exists t, v = view_of t.
Proof.
  intros Hs. induction Hs as [anc l b Hb Hlf|anc l b Hl Hb Hlf|anc l xs vs Hl Ha IH|anc l items ms Hl Ho IH]
    using sees_rect; intros point flags embed d Hok; cbn [print_view] in Hok.
  - destruct b as [ht|a|s|z|r| | |]; try done.
    + by exists (JString s).
    + by exists (JInteger z).
    + by exists (JReal r).
    + by exists JTrue.
    + by exists JFalse.
    + by exists JNull.
  - done.
  - apply print_container_ok in Hok. assert (Hall : Forall (fun v => exists t, v = view_of t) vs).
    { clear Ha. induction IH as [|x v xs vs Hx _ IHl]; [constructor|]. cbn [map] in Hok.
      apply Forall_cons in Hok as [H1 H2]. constructor; [by eapply Hx|by apply IHl]. }
    clear - Hall. assert (exists ts, vs = map view_of ts) as (ts & ->); [|by exists (JArray ts)].
    induction Hall as [|v vs (t & ->) _ (ts & ->)]; [by exists []|by exists (t :: ts)].
  - apply print_container_ok in Hok.
    assert (Hperm : forall A (l : list (bytes * A)), in_order flags l ≡ₚ l).
    { intros A l'. unfold in_order. case_match; [apply sort_members_perm|done]. }
    rewrite (Permutation_map (print_member flags) (Hperm _ _)) in Hok.
    assert (Hall : Forall (fun m => exists t, m.2 = view_of t) ms).
    { clear Ho. induction IH as [|a m as_ ms [_ Hx] _ IHl]; [constructor|]. cbn [map] in Hok.
      apply Forall_cons in Hok as [H1 H2]. constructor; [|by apply IHl].
      eapply (Hx point flags false (d + 1)). revert H1. unfold print_member, o_ignore, o_seq. cbn. done. }
    clear - Hall. assert (exists ts, ms = map (fun m => (m.1, view_of m.2)) ts) as (ts & ->); [|by exists (JObject ts)].
    induction Hall as [|[k v] ms (t & Ht) _ (ts & ->)]; [by exists []|]. exists ((k, t) :: ts). cbn in *. by rewrite Ht.
Qed.

Lemma print_json_tree w l v point flags :
  sees w [] l v -> (print_json point flags v).2 = true -> exists t, v = view_of t.
Proof.
  intros Hs. unfold print_json. case_match; [done|]. by eapply print_view_tree.
Qed.
