(* ===== verification/Escapes.v ===== *)
(** * Strings survive encoding and decoding

    The text [dump_string] writes for a string is read back by the grammar as
    the same bytes, whatever is escaped. *)

From Stdlib Require Import SpecFloat.
From S2P Require Import Prelude Utf8 Hashtable Value Strconv Load Dump Grammar Numbers Lexer Print.

(** Texts that are UTF-8 without NUL bytes. *)
Definition clean (s : bytes) : Prop := utf8 s /\ is_cstr s.

Lemma clean_app s t : clean s -> clean t -> clean (s ++ t).
Proof. intros [H1 H2] [H3 H4]. split; [by apply utf8_app|]. by apply Forall_app. Qed.
Lemma clean_nil : clean [].
Proof. split; [apply utf8_nil|constructor]. Qed.
Lemma clean_ascii s : Forall (fun b => 0 < b < 128) s -> clean s.
Proof.
  induction 1 as [|b s Hb _ IH]; [apply clean_nil|]. apply (clean_app [b] s); [|done].
  split; [apply utf8_ascii; lia|]. constructor; [lia|constructor].
Qed.
#[export] Hint Resolve clean_app clean_nil : ripext.

(** The text of a character. *)
Definition char_text (flags cp : Z) : bytes := if needs_escape flags cp then escape_text cp else enc cp.

Lemma print_chars_utf8 flags cps fuel run :
  Forall is_scalar cps -> (length (encode cps) <= fuel)%nat ->
  print_chars flags fuel run (encode cps) = put (run ++ mjoin (char_text flags <$> cps) ++ [chr "034"]).
Proof.
  intros Hcps. revert fuel run. induction Hcps as [|cp cps Hcp Hcps IH]; intros fuel run Hf.
  { by destruct fuel. }
  rewrite encode_cons in *. pose proof (length_enc_pos cp) as Hpos.
  rewrite length_app in Hf. destruct (enc cp) as [|b e] eqn:E; [simpl in Hpos; lia|].
  destruct fuel as [|fuel]; [simpl in Hf; lia|]. cbn [app print_chars].
  pose proof (utf8_iterate_enc cp (encode cps) Hcp) as Hit. rewrite E in Hit. cbn [app] in Hit. rewrite Hit.
  rewrite fmap_cons. cbn [mjoin list_join]. unfold char_text at 1.
  destruct (needs_escape flags cp).
  - rewrite IH by (simpl in Hf; lia). unfold o_seq, put. cbn. by rewrite <- !app_assoc.
  - rewrite IH by (simpl in Hf; lia). rewrite E.
    replace (length (b :: e ++ encode cps) - length (encode cps))%nat with (length (b :: e))
      by (rewrite (app_comm_cons e), length_app; lia).
    rewrite (app_comm_cons e), take_app_length. by rewrite <- !app_assoc.
Qed.

Lemma print_string_utf8 flags cps :
  Forall is_scalar cps ->
  print_string flags (encode cps) = put (chr "034" :: mjoin (char_text flags <$> cps) ++ [chr "034"]).
Proof. intros H. unfold print_string. rewrite print_chars_utf8 by done. done. Qed.

(** ** Reading a character back *)

(** [is_] are the items of the text [t], and stand for the bytes [u]. *)
Definition reads_as (t : bytes) (is_ : list item) (u : bytes) : Prop :=
  (forall s, string_items (t ++ s) = '(js, r) ← string_items s; Some (is_ ++ js, r)) /\
  (forall js, decode_items (is_ ++ js) = s ← decode_items js; Some (u ++ s)).

Lemma reads_as_app t1 i1 u1 t2 i2 u2 :
  reads_as t1 i1 u1 -> reads_as t2 i2 u2 -> reads_as (t1 ++ t2) (i1 ++ i2) (u1 ++ u2).
Proof.
  intros [H1 H2] [H3 H4]. split.
  - intros s. rewrite <- app_assoc, H1, H3. destruct (string_items s) as [[js r]|]; cbn; [|done].
    by rewrite app_assoc.
  - intros js. rewrite <- app_assoc, H2, H4. destruct (decode_items js); cbn; [|done]. by rewrite app_assoc.
Qed.
Lemma reads_as_nil : reads_as [] [] [].
Proof. split; intros x; cbn; [by destruct (string_items x) as [[]|]|by destruct (decode_items x)]. Qed.

(** Bytes that stand for themselves. *)
Definition plain (c : Z) : Prop := c <> chr "034" /\ 0x1F < c /\ c <> chr "\".

Lemma reads_as_plain c : plain c -> reads_as [c] [IByte c] [c].
Proof.
  intros (H1 & H2 & H3). split; [|by intros js]. intros s. cbn [app string_items].
  rewrite (proj2 (Z.eqb_neq _ _) H1), (proj2 (Z.leb_gt _ _) H2), (proj2 (Z.eqb_neq _ _) H3). done.
Qed.
Lemma reads_as_plains bs : Forall plain bs -> reads_as bs (IByte <$> bs) bs.
Proof.
  induction 1 as [|c bs Hc _ IH]; [apply reads_as_nil|].
  by apply (reads_as_app [c] [IByte c] [c]); [apply reads_as_plain|].
Qed.

Lemma enc_plain flags cp : is_scalar cp -> needs_escape flags cp = false -> Forall plain (enc cp).
Proof.
  unfold is_scalar, needs_escape, plain, enc. change (chr "034") with 34. change (chr "\") with 92.
  intros Hs Hn. repeat rewrite orb_false_iff in Hn. destruct Hn as ((((H1 & H2) & H3) & _) & _). zbool.
  repeat case_if; repeat (constructor; [split; [|split]; zdiv|]); constructor.
Qed.

Lemma reads_as_escape e c : is_escape e = true -> short_escape e = Some c -> reads_as [chr "\"; e] [IEscape e] [c].
Proof.
  intros He Hc. split.
  - intros s. cbn [app string_items]. change (chr "\" =? chr "034") with false. change (chr "\" <=? 31) with false.
    rewrite Z.eqb_refl, is_escape_not_u, He by done. done.
  - intros js. cbn [app decode_items]. by rewrite Hc.
Qed.

Lemma xdigit_upper d : 0 <= d < 16 -> l_isxdigit (upper_hex_digit d) = true /\ hex_value (upper_hex_digit d) = d.
Proof.
  intros Hd. assert (d ∈ seqZ 0 16) as Hin by (apply elem_of_seqZ; lia). clear Hd. revert d Hin.
  apply Forall_forall. by repeat constructor.
Qed.

(** The four digits of ["%04X"]. *)
Lemma fmt_04X_digits v :
  0 <= v < 65536 -> exists h1 h2 h3 h4, fmt_04X v = [h1; h2; h3; h4] /\
    l_isxdigit h1 && l_isxdigit h2 && l_isxdigit h3 && l_isxdigit h4 = true /\ hex4 h1 h2 h3 h4 = v.
Proof.
  intros Hv. set (u := upper_hex_digit).
  assert (E : fmt_04X v = [u (v / 4096); u (v / 256 mod 16); u (v / 16 mod 16); u (v mod 16)]).
  { unfold fmt_04X, uint32. rewrite (Z.mod_small v) by lia. fold u.
    assert (H0 : u 0 = chr "0") by done.
    destruct (Z_lt_le_dec v 16); [|destruct (Z_lt_le_dec v 256); [|destruct (Z_lt_le_dec v 4096)]].
    all: repeat (rewrite (digits_step 16) by zdiv); rewrite digits_small by zdiv; cbn [fmap list_fmap app length replicate Nat.sub].
    all: rewrite <- ?H0; repeat (apply (f_equal2 cons); [apply f_equal; zdiv|]); done. }
  rewrite E. clear E. eexists _, _, _, _. split; [done|]. unfold u.
  destruct (xdigit_upper (v / 4096)) as [-> H1]; [zdiv|].
  destruct (xdigit_upper (v / 256 mod 16)) as [-> H2]; [zdiv|].
  destruct (xdigit_upper (v / 16 mod 16)) as [-> H3]; [zdiv|].
  destruct (xdigit_upper (v mod 16)) as [-> H4]; [zdiv|].
  split; [done|]. unfold hex4. rewrite H1, H2, H3, H4. zdiv.
Qed.

Lemma string_items_unicode v :
  0 <= v < 65536 -> exists h1 h2 h3 h4, hex4 h1 h2 h3 h4 = v /\
    forall s, string_items (lit "\u" ++ fmt_04X v ++ s) =
      '(js, r) ← string_items s; Some (IUnicode h1 h2 h3 h4 :: js, r).
Proof.
  intros Hv. destruct (fmt_04X_digits v Hv) as (h1 & h2 & h3 & h4 & -> & Hx & Hh).
  exists h1, h2, h3, h4. split; [done|]. intros s'. cbn [lit app string_items].
  change (Z.of_N (N_of_ascii "\")) with (chr "\"). change (Z.of_N (N_of_ascii "u")) with (chr "u").
  change (chr "\" =? chr "034") with false. change (chr "\" <=? 31) with false. rewrite !Z.eqb_refl.
  by rewrite Hx.
Qed.

Lemma reads_as_unicode v :
  is_scalar v -> v < 0x10000 -> exists is_, reads_as (lit "\u" ++ fmt_04X v) is_ (enc v).
Proof.
  unfold is_scalar. intros Hs Hv. destruct (string_items_unicode v ltac:(lia)) as (h1 & h2 & h3 & h4 & Hh & Hi).
  exists [IUnicode h1 h2 h3 h4]. split; [intros s; rewrite <- app_assoc; apply Hi|].
  intros js. cbn [app decode_items]. rewrite Hh. unfold is_high, is_low.
  destruct (Z.leb_spec 0xD800 v), (Z.leb_spec v 0xDBFF), (Z.leb_spec 0xDC00 v), (Z.leb_spec v 0xDFFF); try lia;
    done.
Qed.

(** Disjoint bit fields. *)
Lemma lor_field a y : Z.land a (Z.ones 10) = 0 -> 0 <= y < 1024 -> Z.lor a y = a + y.
Proof.
  intros Ha Hy. assert (Hl : Z.land a y = 0).
  { rewrite <- (Z.mod_small y 1024) by lia. change 1024 with (2 ^ 10).
    rewrite <- Z.land_ones, (Z.land_comm y), Z.land_assoc, Ha by lia. apply Z.land_0_l. }
  pose proof (Z.add_lor_land a y). lia.
Qed.

Lemma surrogates c :
  0 <= c < 0x100000 ->
  Z.lor 0xD800 (Z.shiftr (Z.land c 0xffc00) 10) = 0xD800 + c / 1024 /\
  Z.lor 0xDC00 (Z.land c 0x003ff) = 0xDC00 + c mod 1024.
Proof.
  intros Hc. change 0xffc00 with (Z.shiftl (Z.ones 10) 10). rewrite field_div by lia.
  change 0x003ff with (Z.ones 10). rewrite Z.land_ones by lia. change (2 ^ 10) with 1024.
  rewrite (Z.mod_small (c / 1024)) by zdiv. split; apply lor_field; try done; zdiv.
Qed.

Lemma reads_as_pair cp :
  0x10000 <= cp <= 0x10FFFF ->
  let c := cp - 0x10000 in
  exists is_, reads_as
    (lit "\u" ++ fmt_04X (Z.lor 0xD800 (Z.shiftr (Z.land c 0xffc00) 10)) ++
     lit "\u" ++ fmt_04X (Z.lor 0xDC00 (Z.land c 0x003ff))) is_ (enc cp).
Proof.
  intros Hcp c. destruct (surrogates c) as [-> ->]; [unfold c; lia|].
  assert (Hc : 0 <= c < 0x100000) by (unfold c; lia).
  destruct (string_items_unicode (0xD800 + c / 1024)) as (h1 & h2 & h3 & h4 & Hh & Hi); [zdiv|].
  destruct (string_items_unicode (0xDC00 + c mod 1024)) as (g1 & g2 & g3 & g4 & Hg & Hj); [zdiv|].
  exists [IUnicode h1 h2 h3 h4; IUnicode g1 g2 g3 g4]. split.
  - intros s. rewrite <- !app_assoc. rewrite Hi, Hj. by destruct (string_items s) as [[js r]|].
  - intros js. cbn [app decode_items]. rewrite Hh, Hg.
    assert (is_high (0xD800 + c / 1024) = true) as ->.
    { unfold is_high. apply andb_true_iff. split; apply Z.leb_le; zdiv. }
    assert (is_low (0xDC00 + c mod 1024) = true) as ->.
    { unfold is_low. apply andb_true_iff. split; apply Z.leb_le; zdiv. }
    replace ((0xD800 + c / 1024 - 0xD800) * 1024 + (0xDC00 + c mod 1024 - 0xDC00) + 0x10000) with cp; [done|].
    unfold c. zdiv.
Qed.

(** ** Every character is read back *)

Lemma reads_as_char flags cp : is_scalar cp -> exists is_, reads_as (char_text flags cp) is_ (enc cp).
Proof.
  intros Hs. unfold char_text. destruct (needs_escape flags cp) eqn:Hn.
  2:{ eexists. by eapply reads_as_plains, enc_plain. }
  unfold escape_text.
  repeat match goal with
  | |- context [if cp =? ?c then _ else _] =>
      destruct (Z.eqb_spec cp c) as [->|?]; [eexists; by apply reads_as_escape|]
  end.
  destruct (Z.ltb_spec cp 0x10000); [by apply reads_as_unicode|].
  apply reads_as_pair. unfold is_scalar in Hs. lia.
Qed.

Lemma reads_as_text flags cps :
  Forall is_scalar cps -> exists is_, reads_as (mjoin (char_text flags <$> cps)) is_ (encode cps).
Proof.
  induction 1 as [|cp cps Hcp _ [js IH]]; [exists []; apply reads_as_nil|].
  destruct (reads_as_char flags cp Hcp) as [is_ Hi]. exists (is_ ++ js). by apply reads_as_app.
Qed.

(** A string is one token, with the bytes it had. *)
Lemma scan_string iar bad flags cps rest :
  Forall is_scalar cps ->
  ref_scan iar bad ((chr "034" :: mjoin (char_text flags <$> cps) ++ [chr "034"]) ++ rest) =
  Some (TString (encode cps), rest).
Proof.
  intros Hcps. destruct (reads_as_text flags cps Hcps) as (is_ & Hi & Hd).
  unfold ref_scan. cbn [app span]. change (is_space (chr "034")) with false. cbn [snd].
  change (is_punct (chr "034")) with false. rewrite Z.eqb_refl. rewrite <- app_assoc, Hi. cbn [app string_items].
  rewrite Z.eqb_refl. cbn [mbind option_bind]. specialize (Hd []). rewrite Hd. cbn. by rewrite app_nil_r.
Qed.

(** ** The text of a string is clean *)

Lemma fmt_04X_ascii v : 0 <= v < 65536 -> Forall (fun b => 0 < b < 128) (fmt_04X v).
Proof.
  intros Hv. destruct (fmt_04X_digits v Hv) as (h1 & h2 & h3 & h4 & -> & Hx & _).
  assert (Hr : forall h, l_isxdigit h = true -> 0 < h < 128) by (intros h ?%xdigit_range; lia).
  repeat rewrite andb_true_iff in Hx. destruct Hx as (((? & ?) & ?) & ?). auto 10.
Qed.

Lemma unicode_ascii v : 0 <= v < 65536 -> Forall (fun b => 0 < b < 128) (lit "\u" ++ fmt_04X v).
Proof. intros Hv. apply Forall_app_2; [by repeat constructor|by apply fmt_04X_ascii]. Qed.

Lemma clean_char flags cp : is_scalar cp -> clean (char_text flags cp).
Proof.
  intros Hs. unfold char_text. destruct (needs_escape flags cp) eqn:Hn.
  - apply clean_ascii. unfold escape_text.
    repeat match goal with
    | |- context [if cp =? ?c then _ else _] => destruct (Z.eqb_spec cp c) as [->|?]; [by repeat constructor|]
    end.
    destruct (Z.ltb_spec cp 0x10000).
    + apply unicode_ascii. unfold is_scalar in Hs. lia.
    + assert (Hc : 0 <= cp - 0x10000 < 0x100000) by (unfold is_scalar in Hs; lia).
      cbv zeta. destruct (surrogates _ Hc) as [-> ->].
      rewrite app_assoc. apply Forall_app_2; apply unicode_ascii; zdiv.
  - split; [rewrite <- (app_nil_r (enc cp)); by apply utf8_enc_app, utf8_nil|].
    pose proof (enc_plain flags cp Hs Hn) as Hp. pose proof (enc_bytes cp Hs) as Hb.
    apply Forall_forall. intros b Hin. rewrite Forall_forall in Hp, Hb. specialize (Hp b Hin). specialize (Hb b Hin).
    unfold plain in Hp. unfold is_byte in Hb. lia.
Qed.

Lemma clean_string flags cps :
  Forall is_scalar cps -> clean (chr "034" :: mjoin (char_text flags <$> cps) ++ [chr "034"]).
Proof.
  intros Hcps. apply (clean_app [chr "034"]); [by apply clean_ascii; repeat constructor|].
  apply clean_app; [|by apply clean_ascii; repeat constructor].
  induction Hcps as [|cp cps Hcp _ IH]; [apply clean_nil|]. rewrite fmap_cons. cbn [mjoin list_join].
  apply clean_app; [by apply clean_char|done].
Qed.
