(* ===== verification/Reals.v ===== *)
(** * The text of reals

    [jsonp_dtostr] writes a number of the JSON grammar that is a real and not
    an integer, in every locale the same. *)

From Stdlib Require Import SpecFloat.
From S2P Require Import Prelude Utf8 Strbuffer Hashtable Value Error Strconv Load Dump Grammar.
From S2P Require Import Numbers.

(* ------------------------------------------------------------------ *)
(** ** The decimal exponent *)

Lemma pow10_pos n : 0 <= n -> 0 < 10 ^ n.
Proof. intros. apply Z.pow_pos_nonneg; lia. Qed.

Lemma up_exp_spec fuel num den :
  0 < den <= num -> num < den * 2 ^ (Z.of_nat fuel + 1) ->
  let x := up_exp fuel num den in
  0 <= x /\ den * 10 ^ x <= num < den * 10 ^ (x + 1).
Proof.
  revert den. induction fuel as [|fuel IH]; intros den Hd Hf; cbn [up_exp].
  - change (2 ^ (Z.of_nat 0 + 1)) with 2 in Hf. change (10 ^ 0) with 1. change (10 ^ (0 + 1)) with 10. lia.
  - destruct (Z.leb_spec (den * 10) num) as [Hle|Hgt].
    + destruct (IH (den * 10)) as (H1 & H2 & H3); [lia| |].
      { replace (Z.of_nat (S fuel) + 1) with (Z.succ (Z.of_nat fuel + 1)) in Hf by lia.
        rewrite Z.pow_succ_r in Hf by lia. pose proof (Z.pow_pos_nonneg 2 (Z.of_nat fuel + 1)). nia. }
      set (x := up_exp fuel num (den * 10)) in *. rewrite (Z.add_comm 1 x).
      rewrite !Z.pow_add_r in * by lia. change (10 ^ 1) with 10 in *. lia.
    + change (10 ^ 0) with 1. change (10 ^ (0 + 1)) with 10. lia.
Qed.

Lemma down_exp_spec fuel num den :
  0 < num -> num < den * 10 -> den <= num * 2 ^ Z.of_nat fuel ->
  let x := down_exp fuel num den in
  x <= 0 /\ den <= num * 10 ^ (- x) < den * 10.
Proof.
  revert num. induction fuel as [|fuel IH]; intros num Hn Hup Hf; cbn [down_exp].
  - change (2 ^ Z.of_nat 0) with 1 in Hf. change (10 ^ (- 0)) with 1. lia.
  - destruct (Z.ltb_spec num den) as [Hlt|Hge].
    + destruct (IH (num * 10)) as (H1 & H2); [lia|lia| |].
      { replace (Z.of_nat (S fuel)) with (Z.succ (Z.of_nat fuel)) in Hf by lia.
        rewrite Z.pow_succ_r in Hf by lia. pose proof (Z.pow_pos_nonneg 2 (Z.of_nat fuel)). nia. }
      set (x := down_exp fuel (num * 10) den) in *.
      replace (- (-1 + x)) with (- x + 1) by lia. rewrite Z.pow_add_r by lia. change (10 ^ 1) with 10. lia.
    + change (10 ^ (- 0)) with 1. lia.
Qed.

(** [10^x <= num/den < 10^(x+1)], for [x] of either sign. *)
Lemma dec_exp_spec num den :
  0 < num -> 0 < den ->
  let x := dec_exp num den in
  (0 <= x /\ den * 10 ^ x <= num < den * 10 ^ (x + 1)) \/
  (x < 0 /\ den <= num * 10 ^ (- x) < den * 10).
Proof.
  intros Hn Hd. unfold dec_exp. destruct (Z.leb_spec den num) as [Hle|Hgt].
  - left. apply up_exp_spec; [lia|]. rewrite Z2Nat.id by apply Z.log2_nonneg.
    pose proof (Z.log2_spec num ltac:(lia)). replace (Z.log2 num + 1) with (Z.succ (Z.log2 num)) by lia. nia.
  - right. pose proof (Z.log2_spec den ltac:(lia)) as Hl.
    destruct (down_exp_spec (Z.to_nat (Z.log2 den + 1)) num den) as (H1 & H2 & H3); [lia|lia| |].
    + rewrite Z2Nat.id by (pose proof (Z.log2_nonneg den); lia).
      replace (Z.log2 den + 1) with (Z.succ (Z.log2 den)) by lia. nia.
    + split; [|done]. set (x := down_exp _ _ _) in *.
      destruct (Z.eq_dec x 0) as [E|]; [|lia]. rewrite E in H2. change (10 ^ (- 0)) with 1 in H2. lia.
Qed.

Lemma div_round_bounds a b lo hi :
  0 < b -> lo * b <= a <= hi * b -> lo <= div_round a b <= hi.
Proof.
  intros Hb Ha. unfold div_round. pose proof (Z.div_mod a b ltac:(lia)) as Hdm.
  pose proof (Z.mod_pos_bound a b Hb) as Hm. set (q := a / b) in *. set (r := a mod b) in *.
  assert (lo <= q) by nia. assert (q <= hi) by nia.
  destruct (Z.eq_dec q hi) as [->|]; [|case_if; lia].
  assert (r = 0) by nia. rewrite (proj2 (Z.ltb_lt _ _)) by lia. simpl. lia.
Qed.

(** [p] significant digits. *)
Lemma sig_digits_spec num den p :
  0 < num -> 0 < den -> 0 < p ->
  let '(n, x) := sig_digits num den p in
  10 ^ (p - 1) <= n < 10 ^ p /\ dec_exp num den <= x <= dec_exp num den + 1.
Proof.
  intros Hn Hd Hp. unfold sig_digits. set (x := dec_exp num den).
  assert (Hpow : 10 ^ p = 10 * 10 ^ (p - 1)) by (rewrite <- Z.pow_succ_r by lia; f_equal; lia).
  pose proof (pow10_pos (p - 1) ltac:(lia)) as Hpos.
  assert (Hr : 10 ^ (p - 1) <=
    (if 0 <=? p - 1 - x then div_round (num * 10 ^ (p - 1 - x)) den else div_round num (den * 10 ^ (- (p - 1 - x))))
    <= 10 ^ p).
  { destruct (dec_exp_spec num den Hn Hd) as [(Hx & H1 & H2)|(Hx & H1 & H2)]; fold x in Hx, H1, H2.
    - destruct (Z.leb_spec 0 (p - 1 - x)) as [Hs|Hs].
      + apply div_round_bounds; [done|]. pose proof (pow10_pos (p - 1 - x) Hs) as Hk.
        replace (10 ^ (p - 1)) with (10 ^ x * 10 ^ (p - 1 - x)) by (rewrite <- Z.pow_add_r by lia; f_equal; lia).
        replace (10 ^ p) with (10 ^ (x + 1) * 10 ^ (p - 1 - x)) by (rewrite <- Z.pow_add_r by lia; f_equal; lia).
        split; nia.
      + pose proof (pow10_pos (- (p - 1 - x)) ltac:(lia)) as Hk. apply div_round_bounds; [nia|].
        replace (10 ^ x) with (10 ^ (p - 1) * 10 ^ (- (p - 1 - x))) in H1 by (rewrite <- Z.pow_add_r by lia; f_equal; lia).
        replace (10 ^ (x + 1)) with (10 ^ p * 10 ^ (- (p - 1 - x))) in H2 by (rewrite <- Z.pow_add_r by lia; f_equal; lia).
        split; nia.
    - rewrite (proj2 (Z.leb_le _ _)) by lia. apply div_round_bounds; [done|].
      replace (10 ^ (p - 1 - x)) with (10 ^ (- x) * 10 ^ (p - 1)) by (rewrite <- Z.pow_add_r by lia; f_equal; lia).
      split; nia. }
  destruct (Z.eqb_spec (if 0 <=? p - 1 - x then div_round (num * 10 ^ (p - 1 - x)) den
                        else div_round num (den * 10 ^ (- (p - 1 - x)))) (10 ^ p)); lia.
Qed.

(* ------------------------------------------------------------------ *)
(** ** The parts of a number's text *)

(** The sign, the digits before and behind the point, and the exponent. *)
Definition g_parts (p : Z) (d : double) : bool * list Z * list Z * option Z :=
  match d with
  | S754_finite s m e =>
      let num := if 0 <=? e then Zpos m * 2 ^ e else Zpos m in
      let den := if 0 <=? e then 1 else 2 ^ (- e) in
      let '(n, x) := sig_digits num den p in
      let ds := digits 10 n in
      if (x <? -4) || (p <=? x) then (s, take 1 ds, strip_zeros (drop 1 ds), Some x)
      else if x <? 0 then (s, [0], strip_zeros (replicate (Z.to_nat (- x - 1)) 0 ++ ds), None)
      else (s, take (Z.to_nat (x + 1)) ds, strip_zeros (drop (Z.to_nat (x + 1)) ds), None)
  | S754_zero s => (s, [0], [], None)
  | _ => (false, [0], [], None)
  end.

Definition exp_text (ex : option Z) : bytes :=
  match ex with None => [] | Some x => exp_chars x end.

Lemma with_fraction_text point ip fr :
  with_fraction point ip fr = dec_chars ip ++ frac_text point (strip_zeros fr).
Proof. unfold with_fraction. destruct (strip_zeros fr); [by rewrite app_nil_r|done]. Qed.

Lemma printf_g_text point p d neg ds fs ex :
  not_finite d = false -> g_parts p d = (neg, ds, fs, ex) ->
  printf_g point p d = sign_chars neg ++ dec_chars ds ++ frac_text point fs ++ exp_text ex.
Proof.
  intros Hd. destruct d as [s| | |s m e]; try done; cbn [g_parts printf_g].
  { by intros [= <- <- <- <-]. }
  destruct (sig_digits _ _ p) as [n x]. unfold layout_g.
  destruct (_ || _); [|destruct (x <? 0)]; intros [= <- <- <- <-]; f_equal; rewrite with_fraction_text;
    by rewrite ?app_nil_r, <- ?app_assoc.
Qed.

(** An integer part: no leading zero. *)
Definition int_ok (ds : list Z) : Prop :=
  Forall is_digit_value ds /\ ds <> [] /\ (head ds = Some 0 -> ds = [0]).

Lemma digits_int_ok n : 0 <= n -> int_ok (digits 10 n).
Proof.
  intros Hn. destruct (digits_spec 10 n ltac:(lia) Hn) as (H1 & H2 & d & ds & E & Hpos). rewrite E in *.
  split; [exact H1|]. split; [done|]. intros [= ->]. destruct Hpos as [->|]; [|lia].
  by rewrite digits_zero in E.
Qed.
Lemma int_ok_take n ds : (0 < n)%nat -> (exists d r, ds = d :: r /\ 0 < d) -> Forall is_digit_value ds ->
  int_ok (take n ds).
Proof.
  intros Hn (d & r & -> & Hd) Hv. destruct n as [|n]; [lia|]. split; [by apply Forall_take|].
  split; [done|]. cbn. intros [= ->]. lia.
Qed.

Lemma strip_zeros_values ds : Forall is_digit_value ds -> Forall is_digit_value (strip_zeros ds).
Proof.
  intros H. unfold strip_zeros. apply Forall_rev. apply Forall_rev in H. revert H.
  generalize (rev ds). intros l. induction 1 as [|d l Hd Hl IH]; [constructor|].
  cbn [rev_zeros]. destruct d; [done| |]; by constructor.
Qed.

Lemma num_den_pos m e :
  0 < (if 0 <=? e then Zpos m * 2 ^ e else Zpos m) /\ 0 < (if 0 <=? e then 1 else 2 ^ (- e)).
Proof.
  destruct (Z.leb_spec 0 e).
  - pose proof (Z.pow_pos_nonneg 2 e ltac:(lia) ltac:(lia)). lia.
  - pose proof (Z.pow_pos_nonneg 2 (- e) ltac:(lia) ltac:(lia)). lia.
Qed.

Lemma g_parts_ok p d neg ds fs ex :
  0 < p -> g_parts p d = (neg, ds, fs, ex) ->
  int_ok ds /\ Forall is_digit_value fs /\ (forall x, ex = Some x -> x <> 0).
Proof.
  intros Hp. destruct d as [s|s| |s m e]; cbn [g_parts];
    try (intros [= <- <- <- <-]; split; [|done]; split; [by repeat constructor|done]).
  destruct (num_den_pos m e) as [Hn Hd].
  pose proof (sig_digits_spec _ _ p Hn Hd Hp) as Hsig. destruct (sig_digits _ _ p) as [n x].
  destruct Hsig as [[Hlo Hhi] _]. pose proof (pow10_pos (p - 1) ltac:(lia)).
  destruct (digits_spec 10 n ltac:(lia) ltac:(lia)) as (H1 & H2 & d & r & E & Hpos).
  assert (Hhead : exists d r, digits 10 n = d :: r /\ 0 < d) by (exists d, r; split; [done|lia]).
  destruct ((x <? -4) || (p <=? x)) eqn:Ex; [|destruct (Z.ltb_spec x 0)]; intros [= <- <- <- <-].
  - split; [by apply int_ok_take; [lia| |]|]. split; [by apply strip_zeros_values, Forall_drop|].
    intros y [= <-]. apply orb_true_iff in Ex as [Ex|Ex]; zbool; lia.
  - split; [split; [by repeat constructor|done]|]. split; [|done].
    apply strip_zeros_values, Forall_app. split; [|done]. apply Forall_replicate. unfold is_digit_value. lia.
  - split; [apply int_ok_take; [lia|done|done]|]. split; [|done]. by apply strip_zeros_values, Forall_drop.
Qed.

(** ** The exponent, as written by [snprintf] and as cleaned up *)

Definition raw_expo (ex : option Z) : expo :=
  match ex with
  | None => ENone
  | Some x =>
      let ds := digits 10 (Z.abs x) in
      ESome (chr "e") [if x <? 0 then chr "-" else chr "+"] (if (length ds <? 2)%nat then 0 :: ds else ds)
  end.
Definition short_expo (ex : option Z) : expo :=
  match ex with
  | None => ENone
  | Some x => ESome (chr "e") (if x <? 0 then [chr "-"] else []) (digits 10 (Z.abs x))
  end.

Lemma exp_text_raw ex : exp_text ex = expo_text (raw_expo ex).
Proof. by destruct ex. Qed.
Lemma raw_expo_ok ex : expo_ok (raw_expo ex).
Proof.
  destruct ex as [x|]; [|done]. destruct (digits_int_ok (Z.abs x) ltac:(lia)) as (H1 & H2 & _).
  split; [by left|]. split; [destruct (x <? 0); auto|].
  destruct (_ <? _)%nat; [|done]. split; [|done]. constructor; [unfold is_digit_value; lia|done].
Qed.
Lemma short_expo_ok ex : expo_ok (short_expo ex).
Proof.
  destruct ex as [x|]; [|done]. destruct (digits_int_ok (Z.abs x) ltac:(lia)) as (H1 & H2 & _).
  split; [by left|]. split; [destruct (x <? 0); auto|]. done.
Qed.
Lemma short_expo_value ex : expo_value (short_expo ex) = match ex with Some x => x | None => 0 end.
Proof.
  destruct ex as [x|]; [|done]. cbn [short_expo expo_value].
  destruct (digits_spec 10 (Z.abs x) ltac:(lia) ltac:(lia)) as (_ & -> & _). unfold signed.
  destruct (Z.ltb_spec x 0); [rewrite bool_decide_true by done|rewrite bool_decide_false by done]; lia.
Qed.

Lemma skip_zeros_digits ds : match ds with 0 :: _ => False | _ => True end -> Forall is_digit_value ds ->
  skip_zero_chars (dec_chars ds) = dec_chars ds.
Proof.
  intros Hne Hd. destruct Hd as [|d ds Hd _]; [done|]. cbn. unfold is_digit_value in Hd.
  change (chr "0") with 48. rewrite (proj2 (Z.eqb_neq _ _)); [done|]. destruct d; [done|lia|lia].
Qed.

Lemma fix_exponent_app s t : chr "e" ∉ s -> fix_exponent (s ++ t) = s ++ fix_exponent t.
Proof.
  induction s as [|c s IH]; [done|]. rewrite not_elem_of_cons. intros [Hne Hs]. cbn [app fix_exponent].
  rewrite (proj2 (Z.eqb_neq c _)) by done. by rewrite IH.
Qed.

Lemma fix_exponent_expo ex :
  (forall x, ex = Some x -> x <> 0) -> fix_exponent (expo_text (raw_expo ex)) = expo_text (short_expo ex).
Proof.
  intros Hx. destruct ex as [x|]; [|done]. specialize (Hx x eq_refl).
  cbn [raw_expo short_expo expo_text fix_exponent]. rewrite Z.eqb_refl. f_equal.
  destruct (digits_spec 10 (Z.abs x) ltac:(lia) ltac:(lia)) as (H1 & _ & d & r & E & Hpos).
  assert (Hskip : skip_zero_chars (dec_chars (digits 10 (Z.abs x))) = dec_chars (digits 10 (Z.abs x))).
  { apply skip_zeros_digits; [|done]. rewrite E. destruct d; [lia|done|done]. }
  assert (Hraw : skip_zero_chars (dec_chars (if (length (digits 10 (Z.abs x)) <? 2)%nat
              then 0 :: digits 10 (Z.abs x) else digits 10 (Z.abs x))) = dec_chars (digits 10 (Z.abs x))).
  { case_match; [|done]. exact Hskip. }
  cbn [app trim_exponent]. rewrite Hraw. by destruct (x <? 0).
Qed.

(* ------------------------------------------------------------------ *)
(** ** [jsonp_dtostr] *)

(** Decimal points that do not occur elsewhere in a number. *)
Definition point_prints (point : Z) : Prop := point_ok point /\ point <> chr "-" /\ point <> chr "+".

Lemma from_locale_text point neg ds fs e :
  point_prints point -> Forall is_digit_value ds -> expo_ok e ->
  from_locale point (real_text point neg ds fs e) = real_text (chr ".") neg ds fs e.
Proof.
  intros ((H1 & H2 & H3) & H4 & H5) Hds He. unfold from_locale.
  destruct (Z.eqb_spec point (chr ".")) as [->|Hne]; [done|].
  unfold real_text. rewrite replace_first_app.
  2:{ destruct neg; simpl; [|apply not_elem_of_nil]. by rewrite list_elem_of_singleton. }
  rewrite replace_first_app by (by apply no_char_digits). f_equal. f_equal. destruct fs as [|f fs].
  - simpl. apply replace_first_none. by apply not_in_expo.
  - unfold frac_text. cbn [app replace_first]. by rewrite Z.eqb_refl.
Qed.

Lemma has_char_in c s : has_char c s = true <-> c ∈ s.
Proof.
  unfold has_char. rewrite existsb_exists. split.
  - intros (b & Hb & ->%Z.eqb_eq). by apply list_elem_of_In.
  - intros H. exists c. split; [by apply list_elem_of_In|apply Z.eqb_refl].
Qed.
Lemma has_char_not c s : c ∉ s -> has_char c s = false.
Proof. intros H. apply not_true_iff_false. by rewrite has_char_in. Qed.

Lemma not_in_real c neg ds e :
  l_isdigit c = false -> c <> chr "-" -> Forall is_digit_value ds -> c ∉ expo_text e ->
  c ∉ real_text (chr ".") neg ds [] e.
Proof.
  intros Hc Hm Hds He. unfold real_text. rewrite !elem_of_app. intros [H|[H|[H|H]]].
  - destruct neg; cbn in H; [by apply list_elem_of_singleton in H|by apply elem_of_nil in H].
  - by apply (no_char_digits c ds).
  - by apply elem_of_nil in H.
  - done.
Qed.

(** A fraction is added when there is nothing else that marks a real. *)
Definition real_frac (fs : list Z) (ex : option Z) : list Z :=
  match fs, ex with [], None => [0] | _, _ => fs end.

Lemma fix_exponent_text neg ds fs ex :
  Forall is_digit_value ds -> Forall is_digit_value fs -> (forall x, ex = Some x -> x <> 0) ->
  fix_exponent (real_text (chr ".") neg ds fs (raw_expo ex)) = real_text (chr ".") neg ds fs (short_expo ex).
Proof.
  intros Hds Hfs Hx. unfold real_text. rewrite !(assoc_L app). rewrite fix_exponent_app.
  - by rewrite fix_exponent_expo.
  - rewrite !elem_of_app. intros [[H|H]|H].
    + destruct neg; cbn in H; [by apply list_elem_of_singleton in H|by apply elem_of_nil in H].
    + by apply (no_char_digits (chr "e") ds).
    + destruct fs as [|f fs]; [by apply elem_of_nil in H|]. unfold frac_text in H.
      apply elem_of_cons in H as [H|H]; [done|]. by apply (no_char_digits (chr "e") (f :: fs)).
Qed.

Definition precision_of (precision : Z) : Z := if precision =? 0 then 17 else precision.

Lemma jsonp_dtostr_text point size d precision s neg ds fs ex :
  point_prints point -> not_finite d = false -> 0 <= precision ->
  g_parts (precision_of precision) d = (neg, ds, fs, ex) ->
  jsonp_dtostr point size d precision = Some s -> s = real_text (chr ".") neg ds (real_frac fs ex) (short_expo ex).
Proof.
  intros Hpt Hd Hprec Hg. unfold jsonp_dtostr. fold (precision_of precision).
  assert (Hp : 0 < precision_of precision) by (unfold precision_of; case_if; lia).
  destruct (g_parts_ok _ _ _ _ _ _ Hp Hg) as ((Hds & Hne & _) & Hfs & Hx).
  rewrite (printf_g_text _ _ _ _ _ _ _ Hd Hg), exp_text_raw. fold (real_text point neg ds fs (raw_expo ex)).
  rewrite from_locale_text by (try done; apply raw_expo_ok).
  destruct (_ <=? _); [done|].
  assert (Hdot : has_char (chr ".") (real_text (chr ".") neg ds fs (raw_expo ex)) = bool_decide (fs <> [])).
  { destruct fs as [|f fs]; [|apply has_char_in; unfold real_text, frac_text; set_solver].
    apply has_char_not, not_in_real; try done. apply not_in_expo; try done. apply raw_expo_ok. }
  rewrite Hdot. destruct fs as [|f fs]; cycle 1.
  { rewrite bool_decide_true by done. cbn [negb andb]. rewrite fix_exponent_text by done. by intros [= <-]. }
  rewrite bool_decide_false by naive_solver. destruct ex as [x|].
  - assert (He : has_char (chr "e") (real_text (chr ".") neg ds [] (raw_expo (Some x))) = true).
    { apply has_char_in. unfold real_text. cbn [raw_expo expo_text]. set_solver. }
    rewrite He. cbn [negb andb]. rewrite fix_exponent_text by done. by intros [= <-].
  - rewrite has_char_not.
    2:{ apply not_in_real; try done. cbn. apply not_elem_of_nil. }
    cbn [negb andb]. destruct (_ <=? _); [done|].
    assert (real_text (chr ".") neg ds [] (raw_expo None) ++ lit ".0" = real_text (chr ".") neg ds [0] (raw_expo None)) as ->.
    { unfold real_text. cbn [raw_expo expo_text frac_text]. by rewrite !app_nil_r, <- app_assoc. }
    rewrite fix_exponent_text; [by intros [= <-]|done| |done].
    constructor; [unfold is_digit_value; lia|constructor].
Qed.

(* ------------------------------------------------------------------ *)
(** ** The text fits *)

(** A finite double. *)
Definition double_ok (d : double) : Prop :=
  match d with
  | S754_finite _ m e => Zpos m < 2 ^ 53 /\ -1074 <= e <= 971
  | S754_zero _ => True
  | _ => False
  end.

Lemma strip_zeros_length ds : (length (strip_zeros ds) <= length ds)%nat.
Proof.
  unfold strip_zeros. rewrite length_rev, <- (length_rev ds). generalize (rev ds). intros l.
  induction l as [|d l IH]; [done|]. cbn [rev_zeros]. destruct d; cbn; lia.
Qed.

Lemma sig_exponent_bound m e p n x :
  double_ok (S754_finite false m e) -> 0 < p ->
  sig_digits (if 0 <=? e then Zpos m * 2 ^ e else Zpos m) (if 0 <=? e then 1 else 2 ^ (- e)) p = (n, x) ->
  -326 <= x <= 309 /\ 0 <= n < 10 ^ p.
Proof.
  intros [Hm He] Hp Hs. destruct (num_den_pos m e) as [Hn Hd].
  pose proof (sig_digits_spec _ _ p Hn Hd Hp) as H. rewrite Hs in H. destruct H as [[H1 H2] H3].
  pose proof (pow10_pos (p - 1) ltac:(lia)).
  assert (Hnum : (if 0 <=? e then Zpos m * 2 ^ e else Zpos m) < 10 ^ 309).
  { assert (Hpe : 2 ^ 53 * 2 ^ 971 < 10 ^ 309) by (vm_compute; reflexivity). destruct (Z.leb_spec 0 e).
    - assert (2 ^ e <= 2 ^ 971) by (apply Z.pow_le_mono_r; lia). nia.
    - assert (2 ^ 53 < 10 ^ 309) by (vm_compute; reflexivity). lia. }
  assert (Hden : (if 0 <=? e then 1 else 2 ^ (- e)) * 10 < 10 ^ 325).
  { assert (Hpe : 2 ^ 1074 * 10 < 10 ^ 325) by (vm_compute; reflexivity). destruct (Z.leb_spec 0 e).
    - vm_compute. reflexivity.
    - assert (2 ^ (- e) <= 2 ^ 1074) by (apply Z.pow_le_mono_r; lia). lia. }
  split; [|lia]. destruct (dec_exp_spec _ _ Hn Hd) as [(Hx & Hx1 & Hx2)|(Hx & Hx1 & Hx2)].
  - assert (Hlt : 10 ^ dec_exp (if 0 <=? e then Zpos m * 2 ^ e else Zpos m) (if 0 <=? e then 1 else 2 ^ (- e)) < 10 ^ 309).
    { pose proof (pow10_pos _ Hx). nia. }
    apply Z.pow_lt_mono_r_iff in Hlt; lia.
  - assert (Hlt : 10 ^ (- dec_exp (if 0 <=? e then Zpos m * 2 ^ e else Zpos m) (if 0 <=? e then 1 else 2 ^ (- e))) < 10 ^ 325).
    { pose proof (pow10_pos _ ltac:(apply Z.opp_nonneg_nonpos; apply Z.lt_le_incl, Hx)). nia. }
    apply Z.pow_lt_mono_r_iff in Hlt; lia.
Qed.

Lemma g_parts_length p d neg ds fs ex :
  0 < p <= 31 -> double_ok d -> g_parts p d = (neg, ds, fs, ex) ->
  (length ds + length fs <= 36)%nat /\ (forall x, ex = Some x -> -326 <= x <= 309).
Proof.
  intros Hp Hd. destruct d as [s|s| |s m e]; try done; cbn [g_parts].
  { intros [= <- <- <- <-]. split; [cbn; lia|done]. }
  destruct (sig_digits _ _ p) as [n x] eqn:Es.
  destruct (sig_exponent_bound m e p n x Hd ltac:(lia) Es) as [Hx Hn].
  assert (Hl : (length (digits 10 n) <= 31)%nat).
  { apply length_digits; [lia| |lia]. split; [lia|].
    pose proof (Z.pow_le_mono_r 10 p (Z.of_nat 31) ltac:(lia) ltac:(lia)). lia. }
  assert (Hstrip := strip_zeros_length).
  destruct ((x <? -4) || (p <=? x)) eqn:Ex; [|destruct (Z.ltb_spec x 0)]; intros [= <- <- <- <-].
  - split; [|by intros y [= <-]]. specialize (Hstrip (drop 1 (digits 10 n))). rewrite length_drop in Hstrip.
    rewrite length_take. lia.
  - split; [|done]. specialize (Hstrip (replicate (Z.to_nat (- x - 1)) 0 ++ digits 10 n)).
    rewrite length_app, length_replicate in Hstrip. apply orb_false_iff in Ex as [Ex _]. zbool. cbn [length]. lia.
  - split; [|done]. specialize (Hstrip (drop (Z.to_nat (x + 1)) (digits 10 n))). rewrite length_drop in Hstrip.
    rewrite length_take. lia.
Qed.

Lemma double_ok_finite d : double_ok d -> not_finite d = false.
Proof. by destruct d. Qed.

(** Every finite double has a text. *)
Lemma jsonp_dtostr_ok point d precision neg ds fs ex :
  point_prints point -> double_ok d -> 0 <= precision <= 31 ->
  g_parts (precision_of precision) d = (neg, ds, fs, ex) ->
  jsonp_dtostr point MAX_REAL_STR_LENGTH d precision =
    Some (real_text (chr ".") neg ds (real_frac fs ex) (short_expo ex)).
Proof.
  intros Hpt Hd Hprec Hg. pose proof (double_ok_finite d Hd) as Hf.
  assert (Hp : 0 < precision_of precision <= 31) by (unfold precision_of; case_if; lia).
  destruct (g_parts_length _ _ _ _ _ _ Hp Hd Hg) as [Hlen Hx].
  destruct (g_parts_ok _ _ _ _ _ _ (proj1 Hp) Hg) as ((Hds & _) & _).
  destruct (jsonp_dtostr point MAX_REAL_STR_LENGTH d precision) as [s|] eqn:E.
  { f_equal. eapply jsonp_dtostr_text; eauto. lia. }
  exfalso. revert E. unfold jsonp_dtostr. fold (precision_of precision).
  rewrite (printf_g_text _ _ _ _ _ _ _ Hf Hg), exp_text_raw. fold (real_text point neg ds fs (raw_expo ex)).
  rewrite from_locale_text by (try done; apply raw_expo_ok).
  assert (Hexp : (length (expo_text (raw_expo ex)) <= 6)%nat).
  { destruct ex as [x|]; [|cbn; lia]. specialize (Hx x eq_refl). cbn [raw_expo expo_text app length].
    assert (length (digits 10 (Z.abs x)) <= 3)%nat by (apply length_digits; [lia|cbn; lia|lia]).
    unfold dec_chars. rewrite length_fmap. case_match; cbn [length]; lia. }
  assert (Htext : forall q, (length (real_text q neg ds fs (raw_expo ex)) <= 50)%nat).
  { intros q. unfold real_text, frac_text. rewrite !length_app. unfold dec_chars at 1. rewrite length_fmap.
    assert (length (sign_chars neg) <= 1)%nat by (destruct neg; cbn; lia).
    destruct fs as [|f fs]; cbn [length] in *; [lia|]. unfold dec_chars. rewrite length_fmap. cbn [length]. lia. }
  unfold MAX_REAL_STR_LENGTH. pose proof (Htext point). pose proof (Htext (chr ".")).
  rewrite !(proj2 (Z.leb_gt _ _)) by lia. by destruct (_ && _).
Qed.

(** The text of a number is ASCII. *)
Lemma dec_chars_ascii ds : Forall is_digit_value ds -> Forall (fun b => 0 < b < 128) (dec_chars ds).
Proof.
  intros H. apply Forall_fmap. eapply Forall_impl; [exact H|]. unfold is_digit_value. cbn.
  intros d Hd. change (chr "0") with 48. lia.
Qed.
Lemma real_text_ascii neg ds fs e :
  Forall is_digit_value ds -> Forall is_digit_value fs -> expo_ok e ->
  Forall (fun b => 0 < b < 128) (real_text (chr ".") neg ds fs e).
Proof.
  intros Hds Hfs He. unfold real_text. apply Forall_app. split; [destruct neg; by repeat constructor|].
  apply Forall_app. split; [by apply dec_chars_ascii|]. apply Forall_app. split.
  - destruct fs; [constructor|]. constructor; [done|]. by apply dec_chars_ascii.
  - destruct e as [|mark sgn es]; [constructor|]. destruct He as (Hm & Hs & Hd & _).
    constructor; [by destruct Hm as [->| ->]|]. apply Forall_app. split; [|by apply dec_chars_ascii].
    by destruct Hs as [->|[->| ->]]; repeat constructor.
Qed.

Lemma real_frac_values fs ex : Forall is_digit_value fs -> Forall is_digit_value (real_frac fs ex).
Proof. intros H. destruct fs, ex; cbn; try done. constructor; [unfold is_digit_value; lia|constructor]. Qed.
