(* ===== verification/RoundTrip.v ===== *)
(** * Encoding and decoding are inverse

    The grammar reads the reference text of a tree back as that tree: strings
    and integers exactly, reals as the value of the digits that were written. *)

From Stdlib Require Import SpecFloat.
From S2P Require Import Prelude Utf8 Hashtable Value Error Strconv Load Dump Grammar Numbers GrammarFacts.
From S2P Require Import Print Escapes Reals Encode.

(* ------------------------------------------------------------------ *)
(** ** Numbers *)

(** What follows a value: the end, or a character of the structure. *)
Definition delimited (rest : bytes) : Prop :=
  match rest with
  | [] => True
  | c :: _ => c = chr "," \/ c = chr "]" \/ c = chr "}" \/ c = chr " " \/ c = chr "010"
  end.

Lemma delimited_head c rest :
  delimited (c :: rest) -> l_isdigit c = false /\ l_isalpha c = false /\ (c =? 0) = false /\
    starts_real (c :: rest) = false /\ (c =? chr ".") = false /\ (c =? chr "e") || (c =? chr "E") = false.
Proof. by intros [->|[->|[->|[->| ->]]]]. Qed.
Lemma delimited_nul rest : delimited rest -> drop_nul rest = rest.
Proof. destruct rest as [|c rest]; [done|]. intros H%delimited_head. destruct H as (_ & _ & E & _). cbn. by rewrite E. Qed.
Lemma delimited_digit rest : delimited rest -> no_digit rest.
Proof. destruct rest as [|c rest]; [done|]. intros H%delimited_head. apply H. Qed.
Lemma delimited_real rest : delimited rest -> starts_real rest = false.
Proof. destruct rest as [|c rest]; [done|]. intros H%delimited_head. apply H. Qed.

(** The sign and the integer part of a number. *)
Lemma ref_number_text iar neg ds rest :
  int_ok ds -> no_digit rest ->
  ref_number iar (sign_chars neg ++ dec_chars ds ++ rest) = number_tail iar neg ds rest.
Proof.
  intros (Hd & Hne & Hz) Hr. unfold ref_number. rewrite scan_minus_sign by done.
  rewrite span_digits_app by done. rewrite bool_decide_false by done. cbn [orb].
  destruct ds as [|d ds]; [done|]. cbn [head]. destruct (decide (d = 0)) as [->|Hd0].
  - rewrite (Hz eq_refl), !bool_decide_true by done. done.
  - rewrite bool_decide_false by congruence. done.
Qed.

(** A number starts with a sign or a digit. *)
Lemma ref_scan_number iar bad neg ds rest :
  int_ok ds -> ref_scan iar bad (sign_chars neg ++ dec_chars ds ++ rest) =
  ref_number iar (sign_chars neg ++ dec_chars ds ++ rest).
Proof.
  intros (Hd & Hne & _). destruct neg; [done|]. destruct Hd as [|d ds Hd _]; [done|].
  cbn [sign_chars app dec_chars fmap list_fmap]. unfold ref_scan. unfold is_digit_value in Hd.
  pose proof (l_isdigit_char d Hd) as Hc. change (chr "0") with 48 in *.
  cbn [span]. assert (is_space (48 + d) = false) as ->.
  { unfold is_space. change (chr " ") with 32. by rewrite !(proj2 (Z.eqb_neq _ _)) by lia. }
  cbn [snd]. assert (is_punct (48 + d) = false) as ->.
  { unfold is_punct. cbn [existsb].
    repeat match goal with |- context [chr ?a] => let v := eval vm_compute in (chr a) in change (chr a) with v end.
    by rewrite !(proj2 (Z.eqb_neq _ _)) by lia. }
  change (chr "034") with 34. rewrite (proj2 (Z.eqb_neq _ _)) by lia. by rewrite Hc.
Qed.

Lemma scan_integer bad z rest :
  INT64_MIN <= z <= INT64_MAX -> delimited rest ->
  ref_scan false bad (printf_d z ++ rest) = Some (TInteger z, rest).
Proof.
  intros Hz Hr. unfold printf_d. rewrite <- app_assoc.
  pose proof (digits_int_ok (Z.abs z) ltac:(lia)) as Hok.
  rewrite ref_scan_number, ref_number_text by (try done; by apply delimited_digit).
  unfold number_tail. rewrite delimited_real by done. cbn [negb andb].
  destruct (digits_spec 10 (Z.abs z) ltac:(lia) ltac:(lia)) as (_ & -> & _).
  replace (if z <? 0 then - Z.abs z else Z.abs z) with z by (destruct (Z.ltb_spec z 0); lia).
  rewrite !(proj2 (Z.leb_le _ _)) by lia. by rewrite delimited_nul.
Qed.

(** The value of the digits written for a real. *)
Definition reread (precision : Z) (d : double) : double :=
  let '(neg, ds, fs, ex) := g_parts (precision_of precision) d in
  dec_to_double neg (of_digits 10 (ds ++ real_frac fs ex))
    (match ex with Some x => x | None => 0 end - Z.of_nat (length (real_frac fs ex))).

Lemma frac_part_text fs e rest :
  Forall is_digit_value fs -> expo_ok e -> delimited rest ->
  frac_part (frac_text (chr ".") fs ++ expo_text e ++ rest) = Some (fs, expo_text e ++ rest).
Proof.
  intros Hf He Hr.
  assert (Hnd : no_digit (expo_text e ++ rest)).
  { destruct e as [|mark sgn es]; [by apply delimited_digit|]. by destruct He as ([->| ->] & _). }
  destruct fs as [|f fs].
  - cbn [frac_text app]. destruct e as [|mark sgn es].
    + destruct rest as [|c rest]; [done|]. apply delimited_head in Hr as (_ & _ & _ & _ & Hc & _).
      cbn [expo_text app]. unfold frac_part. by rewrite Hc.
    + by destruct He as ([->| ->] & _).
  - cbn [frac_text app]. unfold frac_part. rewrite Z.eqb_refl, span_digits_app by done. done.
Qed.

Lemma exp_part_text e rest :
  expo_ok e -> delimited rest -> exp_part (expo_text e ++ rest) = Some (expo_value e, rest).
Proof.
  intros He Hr. destruct e as [|mark sgn es].
  - destruct rest as [|c rest]; [done|]. apply delimited_head in Hr as (_ & _ & _ & _ & _ & Hc).
    cbn [expo_text app]. unfold exp_part. by rewrite Hc.
  - destruct He as (Hm & Hs & Hd & Hne). cbn [expo_text app]. unfold exp_part.
    assert ((mark =? chr "e") || (mark =? chr "E") = true) as -> by (destruct Hm as [->| ->]; done).
    assert (Hsign : exp_sign ((sgn ++ dec_chars es) ++ rest) = (bool_decide (sgn = [chr "-"]), dec_chars es ++ rest)).
    { destruct Hs as [->|[->| ->]]; [|done|done]. destruct Hd as [|d es Hd Hds]; [done|]. cbn.
      unfold is_digit_value in Hd. change (chr "-") with 45. change (chr "+") with 43. change (chr "0") with 48.
      by rewrite !(proj2 (Z.eqb_neq _ _)) by lia. }
    rewrite Hsign, span_digits_app by (try done; by apply delimited_digit). by destruct es.
Qed.

Lemma scan_real iar bad point precision d rest :
  point_prints point -> double_ok d -> 0 <= precision <= 31 -> not_finite (reread precision d) = false ->
  delimited rest -> exists s, jsonp_dtostr point MAX_REAL_STR_LENGTH d precision = Some s /\
    ref_scan iar bad (s ++ rest) = Some (TReal (reread precision d), rest).
Proof.
  intros Hpt Hd Hp Hfin Hr. unfold reread in *.
  destruct (g_parts (precision_of precision) d) as [[[neg ds] fs] ex] eqn:Hg.
  exists (real_text (chr ".") neg ds (real_frac fs ex) (short_expo ex)).
  split; [by apply jsonp_dtostr_ok|].
  assert (Hp' : 0 < precision_of precision) by (unfold precision_of; case_if; lia).
  destruct (g_parts_ok _ _ _ _ _ _ Hp' Hg) as (Hds & Hfs & Hx).
  pose proof (real_frac_values fs ex Hfs) as Hfs'.
  pose proof (short_expo_ok ex) as He. unfold real_text. rewrite <- !app_assoc.
  rewrite ref_scan_number, ref_number_text; [|done| |done].
  - unfold number_tail. assert (starts_real (frac_text (chr ".") (real_frac fs ex) ++ expo_text (short_expo ex) ++ rest) = true) as ->.
    { destruct fs, ex; done. }
    rewrite andb_false_r. rewrite frac_part_text by done. cbn [mbind option_bind].
    rewrite exp_part_text by done. cbn [mbind option_bind]. rewrite short_expo_value, Hfin. by rewrite delimited_nul.
  - by destruct fs, ex.
Qed.

(* ------------------------------------------------------------------ *)
(** ** Structure *)

Lemma scan_space iar bad ws s :
  Forall (fun c => is_space c = true) ws -> ref_scan iar bad (ws ++ s) = ref_scan iar bad s.
Proof.
  intros H. unfold ref_scan. assert ((span is_space (ws ++ s)).2 = (span is_space s).2) as ->; [|done].
  induction H as [|c ws Hc _ IH]; [done|]. cbn [app span]. rewrite Hc.
  destruct (span is_space (ws ++ s)). cbn in *. done.
Qed.
Lemma scan_punct iar bad c s :
  is_punct c = true -> is_space c = false -> ref_scan iar bad (c :: s) = Some (TPunct c, s).
Proof. intros Hp Hs. unfold ref_scan. cbn [span]. rewrite Hs. cbn [snd]. by rewrite Hp. Qed.

Section trees.
Variables (point pf : Z) (reject_duplicates allow_nul : bool).

Abbreviation precision := (FLAGS_TO_PRECISION pf).
Abbreviation scan := (ref_scan false false).
Abbreviation value := (ref_value false reject_duplicates allow_nul false).
Abbreviation print d t := (print_view point pf false d (view_of t)).

Lemma indent_spaces d space : Forall (fun c => is_space c = true) (indent_text pf d space).
Proof.
  unfold indent_text. case_match; [constructor; [done|]; by apply Forall_replicate|].
  case_match; by repeat constructor.
Qed.
Lemma indent_clean d space : clean (indent_text pf d space).
Proof.
  apply clean_ascii. eapply Forall_impl; [apply indent_spaces|]. unfold is_space. change (chr " ") with 32.
  intros c Hc. rewrite !orb_true_iff in Hc. destruct Hc as [[[H|H]|H]|H]; zbool; lia.
Qed.
Lemma indent_delimited d space c rest :
  c = chr "," \/ c = chr "]" \/ c = chr "}" -> delimited (indent_text pf d space ++ c :: rest).
Proof.
  intros Hc. unfold indent_text. case_match; [cbn; auto|]. case_match; cbn; [auto|]. tauto.
Qed.

(** The tree that comes back. *)
Fixpoint norm (t : json) : json :=
  match t with
  | JObject ms => JObject (in_order pf (map (fun m => (m.1, norm m.2)) ms))
  | JArray ts => JArray (map norm ts)
  | JReal d => JReal (reread precision d)
  | _ => t
  end.

(** Trees of depth at most [depth] that have a text: the strings are UTF-8,
    the keys differ, and the reals are finite, also when they are read back. *)
Fixpoint printable (depth : nat) (t : json) : Prop :=
  match depth with
  | O => False
  | S depth' =>
      match t with
      | JObject ms =>
          NoDup ms.*1 /\
          Forall (fun m => (utf8 m.1 /\ has_nul m.1 = false) /\ printable depth' m.2) ms
      | JArray ts => Forall (printable depth') ts
      | JString s => utf8 s /\ (allow_nul = true \/ has_nul s = false)
      | JInteger z => INT64_MIN <= z <= INT64_MAX
      | JReal d => double_ok d /\ not_finite (reread precision d) = false
      | _ => True
      end
  end.

(** A token that is no closing bracket. *)
Definition opens (t : token) : Prop := is_tok t (chr "]") = false /\ is_tok t (chr "}") = false.

(** The first token of the text of [t]. *)
Definition starts (t : json) (tok : token) : Prop :=
  opens tok /\
  match t with
  | JArray _ => is_tok tok (chr "[") = true
  | JObject _ => is_tok tok (chr "{") = true
  | _ => True
  end.

(** [txt] is read as [t]. *)
Definition reads (depth : nat) (t : json) (txt : bytes) : Prop :=
  forall rest, delimited rest -> exists tok s,
    scan (txt ++ rest) = Some (tok, s) /\ starts t tok /\ value depth tok s = Some (norm t, rest).

Lemma print_list_cons d txt txts :
  print_list pf d (map put (txt :: txts)) =
  put (txt ++ between_text pf d (match txts with [] => false | _ => true end) ++
       (print_list pf d (map put txts)).1).
Proof.
  assert (Hok : forall l, (print_list pf d (map put l)).2 = true).
  { clear. induction l as [|a l IH]; [done|]. cbn [map print_list]. unfold o_seq, put. cbn. done. }
  specialize (Hok txts). cbn [map print_list]. destruct (print_list pf d (map put txts)) as [s b].
  cbn in Hok |- *. subst b. unfold o_seq, put. cbn. rewrite <- app_assoc.
  by destruct txts.
Qed.

(** ** Arrays *)

Lemma elements_read depth d ts txts :
  Forall2 (reads depth) ts txts -> ts <> [] ->
  forall rest, exists tok s,
    scan ((print_list pf d (map put txts)).1 ++ chr "]" :: rest) = Some (tok, s) /\ opens tok /\
    (length ts <= S (length s))%nat /\
    forall fuel acc, (length ts <= fuel)%nat ->
      ref_elements false false (value depth) fuel acc tok s = Some (acc ++ map norm ts, rest).
Proof.
  intros Hall. induction Hall as [|t txt ts txts Ht Hall IH]; [done|]. intros _ rest.
  rewrite print_list_cons. cbn [fst put]. rewrite <- !app_assoc.
  destruct Hall as [|t' txt' ts txts Ht' Hall].
  - cbn [map print_list put fst app between_text].
    destruct (Ht (indent_text pf d false ++ chr "]" :: rest)) as (tok & s & Hs & [Ho _] & Hv).
    { apply indent_delimited. auto. }
    exists tok, s. split; [exact Hs|]. split; [done|]. split; [cbn; lia|]. intros fuel acc Hf.
    destruct fuel as [|fuel]; [cbn in Hf; lia|]. cbn [ref_elements]. rewrite Hv. cbn [mbind option_bind].
    rewrite scan_space by apply indent_spaces. rewrite scan_punct by done. cbn. done.
  - set (L := (print_list pf d (map put (txt' :: txts))).1) in *.
    destruct (IH ltac:(done) rest) as (tok' & s' & Hs' & Ho' & Hlen' & Hv').
    cbn [between_text app].
    destruct (Ht (chr "," :: indent_text pf (d + 1) true ++ L ++ chr "]" :: rest)) as (tok & s & Hs & [Ho _] & Hv).
    { cbn. auto. }
    exists tok, s. split; [rewrite <- Hs; f_equal; f_equal; cbn [lit app]; by rewrite <- ?app_assoc|]. split; [done|].
    pose proof (ref_value_length _ _ _ _ _ _ _ _ _ Hv) as Hlen. pose proof (ref_scan_length _ _ _ _ _ Hs') as [Hlen2 _].
    cbn [length] in Hlen. rewrite !length_app in Hlen. rewrite !length_app in Hlen2. split; [cbn [length] in *; lia|].
    intros fuel acc Hf. destruct fuel as [|fuel]; [cbn in Hf; lia|]. cbn [ref_elements]. rewrite Hv. cbn [mbind option_bind].
    rewrite scan_punct by done. cbn [mbind option_bind]. change (is_tok (TPunct (chr ",")) (chr ",")) with true. cbv iota.
    rewrite scan_space by apply indent_spaces. rewrite Hs'. cbn [mbind option_bind].
    rewrite Hv' by (cbn [length] in *; lia). cbn [map]. by rewrite <- app_assoc.
Qed.

(** ** Objects *)

Lemma key_text k :
  utf8 k -> exists kt, print_string pf k = put kt /\ clean kt /\
    forall iar bad rest, ref_scan iar bad (kt ++ rest) = Some (TString k, rest).
Proof.
  intros (cps & Hcps & ->). eexists. split; [by apply print_string_utf8|]. split; [by apply clean_string|].
  intros. by apply scan_string.
Qed.

Lemma separator_read s : exists ws, Forall (fun c => is_space c = true) ws /\
  scan (separator pf ++ s) = Some (TPunct (chr ":"), ws ++ s).
Proof.
  unfold separator. case_match; [exists []|exists (lit " ")]; (split; [by repeat constructor|]); by apply scan_punct.
Qed.

(** [mt] is the text of the member [m]. *)
Definition member_reads (depth : nat) (m : bytes * json) (mt : bytes) : Prop :=
  has_nul m.1 = false /\ exists kt txt, mt = kt ++ separator pf ++ txt /\
    (forall rest, scan (kt ++ rest) = Some (TString m.1, rest)) /\ reads depth m.2 txt.

(** A member up to its value. *)
Lemma member_step depth k t mt rest :
  member_reads depth (k, t) mt -> delimited rest ->
  exists s, scan (mt ++ rest) = Some (TString k, s) /\ (length rest <= length s)%nat /\
    forall fuel acc, alookup k acc = None -> ref_members false reject_duplicates false (value depth) (S fuel) acc (TString k) s =
      ('(t', s) ← scan rest;
       if is_tok t' (chr ",") then
         '(t', s) ← scan s;
         ref_members false reject_duplicates false (value depth) fuel (acc ++ [(k, norm t)]) t' s
       else if is_tok t' (chr "}") then Some (acc ++ [(k, norm t)], s) else None).
Proof.
  intros (Hnul & kt & txt & -> & Hk & Ht) Hr. cbn [fst snd] in *.
  exists (separator pf ++ txt ++ rest). split; [by rewrite <- !app_assoc, Hk|].
  split; [rewrite !length_app; lia|]. intros fuel acc Hacc. cbn [ref_members]. rewrite Hnul, Hacc.
  rewrite bool_decide_false by (by intros []). rewrite andb_false_r.
  destruct (separator_read (txt ++ rest)) as (ws & Hws & ->). cbn [mbind option_bind].
  change (is_tok (TPunct (chr ":")) (chr ":")) with true. cbn [negb]. cbv iota.
  rewrite scan_space by done. destruct (Ht rest Hr) as (tok & s & -> & _ & Hv). cbn [mbind option_bind].
  rewrite Hv. cbn [mbind option_bind]. rewrite aset_new; [done|]. by apply alookup_None.
Qed.

Lemma members_read depth d ms mts :
  Forall2 (member_reads depth) ms mts -> ms <> [] ->
  forall rest, exists k s,
    scan ((print_list pf d (map put mts)).1 ++ chr "}" :: rest) = Some (TString k, s) /\
    (length ms <= S (length s))%nat /\
    forall fuel acc, (length ms <= fuel)%nat -> NoDup (acc.*1 ++ ms.*1) ->
      ref_members false reject_duplicates false (value depth) fuel acc (TString k) s =
      Some (acc ++ map (fun m => (m.1, norm m.2)) ms, rest).
Proof.
  intros Hall. induction Hall as [|[k t] mt ms mts Hm Hall IH]; [done|]. intros _ rest.
  rewrite print_list_cons. cbn [fst put]. rewrite <- !app_assoc.
  assert (Hfresh : forall acc : list (bytes * json), NoDup (acc.*1 ++ ((k, t) :: ms).*1) -> alookup k acc = None).
  { intros acc Hnd. apply NoDup_app in Hnd as (_ & Hnd & _). apply alookup_None. intros Hin.
    by apply (Hnd k Hin), elem_of_cons; left. }
  destruct Hall as [|m' mt' ms mts Hm' Hall].
  - cbn [map print_list put fst app between_text].
    destruct (member_step depth k t mt (indent_text pf d false ++ chr "}" :: rest) Hm) as (s & Hs & _ & Hstep).
    { apply indent_delimited. auto. }
    exists k, s. split; [exact Hs|]. split; [cbn; lia|]. intros [|fuel] acc Hf Hnd; [cbn in Hf; lia|].
    rewrite Hstep by (by apply Hfresh). rewrite scan_space by apply indent_spaces. by rewrite scan_punct.
  - set (L := (print_list pf d (map put (mt' :: mts))).1) in *.
    destruct (IH ltac:(done) rest) as (k' & s' & Hs' & Hlen' & Hv').
    destruct (member_step depth k t mt (chr "," :: indent_text pf (d + 1) true ++ L ++ chr "}" :: rest) Hm)
      as (s & Hs & Hlen & Hstep).
    { cbn. auto. }
    exists k, s. split; [rewrite <- Hs; f_equal; f_equal; cbn [between_text lit app]; by rewrite <- ?app_assoc|].
    pose proof (ref_scan_length _ _ _ _ _ Hs') as [Hlen2 _].
    cbn [length] in Hlen. rewrite !length_app in Hlen. rewrite !length_app in Hlen2.
    split; [cbn [length] in *; lia|]. intros [|fuel] acc Hf Hnd; [cbn in Hf; lia|].
    rewrite Hstep by (by apply Hfresh). rewrite scan_punct by done. cbn [mbind option_bind].
    change (is_tok (TPunct (chr ",")) (chr ",")) with true. cbv iota.
    rewrite scan_space by apply indent_spaces. rewrite Hs'. cbn [mbind option_bind].
    rewrite Hv'.
    + cbn [map fst snd]. by rewrite <- app_assoc.
    + cbn [length] in *. lia.
    + rewrite fmap_app, <- app_assoc. exact Hnd.
Qed.

(** ** Values *)

Lemma container_text l r d txts :
  print_container pf false l r d (map put txts) =
  put (l ++ match txts with [] => [] | _ => indent_text pf (d + 1) false end ++
       (print_list pf d (map put txts)).1 ++ r).
Proof.
  unfold print_container. destruct txts as [|txt txts]; [done|]. rewrite print_list_cons. cbn [map].
  unfold o_seq, put. cbn. by rewrite <- !app_assoc.
Qed.

Lemma list_clean d txts : Forall clean txts -> clean (print_list pf d (map put txts)).1.
Proof.
  induction 1 as [|txt txts Ht Hall IH]; [apply clean_nil|]. rewrite print_list_cons. cbn [fst put].
  apply clean_app; [done|]. apply clean_app; [|done]. unfold between_text.
  case_match; [apply clean_app; [by apply clean_ascii; repeat constructor|]|]; apply indent_clean.
Qed.

Lemma in_order_perm {A} (ms : list (bytes * A)) : in_order pf ms ≡ₚ ms.
Proof. unfold in_order. case_match; [apply sort_members_perm|done]. Qed.

Lemma precision_range : 0 <= precision <= 31.
Proof.
  unfold FLAGS_TO_PRECISION. rewrite (Z.land_ones _ 5) by lia.
  pose proof (Z.mod_pos_bound (Z.shiftr pf 11) (2 ^ 5) ltac:(lia)). lia.
Qed.

(** The text of a tree is clean and reads back. *)
Definition has_text (depth : nat) (d : Z) (t : json) (txt : bytes) : Prop :=
  print d t = put txt /\ clean txt /\ reads depth t txt.

Lemma keyword_text depth d t txt tok :
  print d t = put txt -> norm t = t -> clean txt ->
  (forall rest, delimited rest -> scan (txt ++ rest) = Some (tok, rest)) -> starts t tok ->
  (forall s, value depth tok s = Some (t, s)) -> exists txt, has_text depth d t txt.
Proof.
  intros Hp Hn Hc Hs Ho Hv. exists txt. split; [done|]. split; [done|]. intros rest Hr. exists tok, rest.
  rewrite Hs, Hn by done. split; [done|]. split; [done|]. apply Hv.
Qed.

Lemma scan_word w tok rest :
  (w, tok) ∈ [(lit "true", TTrue); (lit "false", TFalse); (lit "null", TNull)] -> delimited rest ->
  scan (w ++ rest) = Some (tok, rest).
Proof.
  intros Hw Hr. assert (Hc : rest = [] \/ exists c r, rest = c :: r /\ delimited (c :: r)).
  { destruct rest as [|c r]; [by left|]. right. by exists c, r. }
  rewrite !elem_of_cons in Hw. destruct Hw as [[= -> ->]|[[= -> ->]|[[= -> ->]|Hw%elem_of_nil]]]; [| | |done];
    (destruct Hc as [->|(c & r & -> & [->|[->|[->|[->| ->]]]])]; done).
Qed.

Hypothesis Hpoint : point_prints point.

Lemma leaf_text depth d t :
  printable (S depth) t -> match t with JArray _ | JObject _ => False | _ => True end ->
  exists txt, has_text (S depth) d t txt.
Proof using Hpoint.
  intros Hp Hleaf. destruct t as [ms|ts|s|z|r| | |]; try done.
  - destruct Hp as [Hu Hn]. destruct (key_text s Hu) as (kt & Hk & Hc & Hs).
    apply (keyword_text _ d _ kt (TString s)); [exact Hk|done|done|intros; by apply Hs|done|].
    intros s'. cbn [ref_value]. destruct Hn as [-> | ->]; [done|]. by rewrite andb_false_r.
  - cbn in Hp. apply (keyword_text _ d _ (printf_d z) (TInteger z)); [|done| | |done|done].
    + cbn [view_of print_view print_leaf]. unfold MAX_INTEGER_STR_LENGTH. rewrite (proj2 (Z.leb_gt _ _)); [done|].
      unfold printf_d. rewrite length_app. unfold dec_chars. rewrite length_fmap.
      assert (length (digits 10 (Z.abs z)) <= 20)%nat.
      { apply length_digits; [lia| |lia]. unfold INT64_MIN, INT64_MAX in Hp. lia. }
      destruct (z <? 0); cbn; lia.
    + apply clean_ascii. unfold printf_d. apply Forall_app. split; [destruct (z <? 0); by repeat constructor|].
      destruct (digits_spec 10 (Z.abs z) ltac:(lia) ltac:(lia)) as (Hd & _).
      by apply dec_chars_ascii.
    + intros rest Hr. by apply scan_integer.
  - destruct Hp as [Hd Hfin].
    destruct (g_parts (precision_of precision) r) as [[[neg ds] fs] ex] eqn:Hg.
    pose proof (jsonp_dtostr_ok _ _ _ _ _ _ _ Hpoint Hd precision_range Hg) as Hs.
    eexists. split; [cbn [view_of print_view print_leaf]; by rewrite Hs|]. split.
    + assert (Hp' : 0 < precision_of precision) by (pose proof precision_range; unfold precision_of; case_if; lia).
      destruct (g_parts_ok _ _ _ _ _ _ Hp' Hg) as ((Hds & _) & Hfs & _).
      apply clean_ascii, real_text_ascii; [done|by apply real_frac_values|apply short_expo_ok].
    + intros rest Hr. destruct (scan_real false false point precision r rest Hpoint Hd precision_range Hfin Hr) as (s & Hs' & Hsc).
      rewrite Hs in Hs'. injection Hs' as <-. exists (TReal (reread precision r)), rest. by rewrite Hsc.
  - apply (keyword_text _ d _ (lit "true") TTrue); [done|done|by apply clean_ascii; repeat constructor| |done|done].
    intros. by apply scan_word; [set_solver|].
  - apply (keyword_text _ d _ (lit "false") TFalse); [done|done|by apply clean_ascii; repeat constructor| |done|done].
    intros. by apply scan_word; [set_solver|].
  - apply (keyword_text _ d _ (lit "null") TNull); [done|done|by apply clean_ascii; repeat constructor| |done|done].
    intros. by apply scan_word; [set_solver|].
Qed.

(** Texts for all components. *)
Lemma texts {A} (P : A -> bytes -> Prop) (f : A -> out) xs :
  Forall (fun x => exists txt, f x = put txt /\ clean txt /\ P x txt) xs ->
  exists txts, map f xs = map put txts /\ Forall clean txts /\ Forall2 P xs txts.
Proof.
  induction 1 as [|x xs (txt & Hf & Hc & Hp) _ (txts & IH1 & IH2 & IH3)]; [by exists []|].
  exists (txt :: txts). cbn [map]. rewrite Hf, IH1. split; [done|]. split; by constructor.
Qed.

Lemma array_text depth d ts :
  (forall d t, printable depth t -> exists txt, has_text depth d t txt) ->
  printable (S depth) (JArray ts) -> exists txt, has_text (S depth) d (JArray ts) txt.
Proof.
  intros IH Hp. cbn in Hp.
  destruct (texts (reads depth) (fun t => print (d + 1) t) ts) as (txts & Htx & Hc & Hr).
  { eapply Forall_impl; [exact Hp|]. intros t Ht. by apply IH. }
  eexists. split; [cbn [view_of print_view]; rewrite map_map, Htx; apply container_text|]. split.
  { apply clean_app; [by apply clean_ascii; repeat constructor|].
    apply clean_app; [case_match; [apply clean_nil|apply indent_clean]|].
    apply clean_app; [by apply list_clean|by apply clean_ascii; repeat constructor]. }
  intros rest Hrest. rewrite <- app_assoc. exists (TPunct (chr "[")). eexists.
  split; [by apply scan_punct|]. split; [done|]. cbn [ref_value].
  change (chr "[" =? chr "{") with false. rewrite Z.eqb_refl. cbv iota. rewrite <- !app_assoc.
  change (lit "]" ++ rest) with (chr "]" :: rest).
  rewrite scan_space by (case_match; [constructor|apply indent_spaces]).
  destruct Hr as [|t txt ts txts Ht Hall].
  - cbn [map print_list put fst app]. by rewrite scan_punct.
  - destruct (elements_read depth d (t :: ts) (txt :: txts)) with (rest := rest) as (tok & s & -> & [Ho _] & Hlen & Hv);
      [by constructor|done|]. cbn [mbind option_bind]. rewrite Ho, Hv by lia. done.
Qed.

Lemma object_text depth d ms :
  (forall d t, printable depth t -> exists txt, has_text depth d t txt) ->
  printable (S depth) (JObject ms) -> exists txt, has_text (S depth) d (JObject ms) txt.
Proof.
  intros IH [Hnd Hp]. rewrite <- (in_order_perm ms) in Hnd, Hp.
  destruct (texts (member_reads depth) (fun m => print_member pf (m.1, print (d + 1) m.2)) (in_order pf ms))
    as (txts & Htx & Hc & Hr).
  { eapply Forall_impl; [exact Hp|]. intros [k t] [[Hu Hn] Ht]. cbn [fst snd] in *.
    destruct (key_text k Hu) as (kt & Hk & Hkc & Hks). destruct (IH (d + 1) t Ht) as (txt & Hpt & Htc & Hrd).
    exists (kt ++ separator pf ++ txt). split; [|split].
    - unfold print_member. cbn [fst snd]. rewrite Hk, Hpt. unfold o_seq, o_ignore, put. cbn. by rewrite <- app_assoc.
    - apply clean_app; [done|]. apply clean_app; [|done]. unfold separator.
      case_match; by apply clean_ascii; repeat constructor.
    - split; [done|]. exists kt, txt. split; [done|]. split; [intros; by apply Hks|done]. }
  assert (Hview : print d (JObject ms) = print_container pf false (lit "{") (lit "}") d (map put txts)).
  { rewrite <- Htx. cbn [view_of print_view]. rewrite map_map.
    rewrite (in_order_map pf (fun t => print (d + 1) t)), map_map. done. }
  eexists. split; [rewrite Hview; apply container_text|]. split.
  { apply clean_app; [by apply clean_ascii; repeat constructor|].
    apply clean_app; [case_match; [apply clean_nil|apply indent_clean]|].
    apply clean_app; [by apply list_clean|by apply clean_ascii; repeat constructor]. }
  intros rest Hrest. rewrite <- app_assoc. exists (TPunct (chr "{")). eexists.
  split; [by apply scan_punct|]. split; [done|]. cbn [ref_value norm]. rewrite in_order_map.
  rewrite Z.eqb_refl. cbv iota. rewrite <- !app_assoc. change (lit "}" ++ rest) with (chr "}" :: rest).
  rewrite scan_space by (case_match; [constructor|apply indent_spaces]).
  destruct Hr as [|m txt ms' txts Hm Hall].
  - cbn [map print_list put fst app]. by rewrite scan_punct.
  - destruct (members_read depth d (m :: ms') (txt :: txts)) with (rest := rest) as (k & s & -> & Hlen & Hv);
      [by constructor|done|]. cbn [mbind option_bind]. change (is_tok (TString k) (chr "}")) with false. cbv iota.
    rewrite Hv by (try done; lia). done.
Qed.

Lemma tree_text depth d t : printable depth t -> exists txt, has_text depth d t txt.
Proof using Hpoint.
  revert d t. induction depth as [|depth IH]; intros d t Hp; [done|].
  destruct t as [ms|ts| | | | | |]; try (by apply leaf_text).
  - by apply object_text.
  - by apply array_text.
Qed.
End trees.
