(* ===== verification/Rounding.v ===== *)
(** * Correct rounding to doubles

    Rounding as [SpecFloat] defines it, of a fraction that is closer to a
    double than half the gap to its neighbours: the result is that double.
    Fractions are measured in units of the smallest positive double,
    [2^-1074]: the number is [N / D] units. *)

From Stdlib Require Import SpecFloat.
From S2P Require Import Prelude Value Strconv.

Abbreviation dexp := (fexp DBL_PREC DBL_EMAX).

Lemma dexp_eq e : dexp e = Z.max (e - 53) (-1074).
Proof. reflexivity. Qed.

(** A power of two in units, times [D]. *)
Definition unit_of (D e : Z) : Z := D * 2 ^ (e + 1074).

Lemma unit_pos D e : 0 < D -> -1074 <= e -> 0 < unit_of D e.
Proof. intros. unfold unit_of. pose proof (Z.pow_pos_nonneg 2 (e + 1074)). nia. Qed.
Lemma unit_add D e k : -1074 <= e -> 0 <= k -> unit_of D (e + k) = unit_of D e * 2 ^ k.
Proof. intros. unfold unit_of. replace (e + k + 1074) with (e + 1074 + k) by lia. rewrite Z.pow_add_r by lia. lia. Qed.
Lemma unit_mono D e e' : 0 < D -> -1074 <= e -> e <= e' -> unit_of D e <= unit_of D e'.
Proof. intros. unfold unit_of. pose proof (Z.pow_le_mono_r 2 (e + 1074) (e' + 1074)). nia. Qed.

(** The record of a shift tells where [N / D] is between [m] and [m + 1] units
    of [2^e]. *)
Definition locates (N D e : Z) (mrs : shr_record) : Prop :=
  let U := unit_of D e in
  let f := N - shr_m mrs * U in
  0 <= shr_m mrs /\ 0 <= f < U /\ (shr_r mrs = true <-> U <= 2 * f) /\
  (shr_s mrs = true <-> 2 * f <> if shr_r mrs then U else 0).

Lemma shr_1_locates N D e mrs : 0 < D -> -1074 <= e -> locates N D e mrs -> locates N D (e + 1) (shr_1 mrs).
Proof.
  intros HD He. unfold locates. destruct mrs as [m r s]. cbn [shr_m shr_r shr_s]. rewrite (unit_add D e 1) by lia. change (2 ^ 1) with 2.
  pose proof (unit_pos D e HD He) as HU. set (U := unit_of D e) in *. intros (Hm & Hf & Hr & Hs).
  assert (Hrs : r || s = true <-> N - m * U <> 0) by (destruct r, s; cbn [orb]; split; intros; try done; try lia; destruct Hr, Hs; lia || tauto).
  assert (Hgo : forall q b, m = 2 * q + (if b : bool then 1 else 0) -> 0 <= q ->
    let f := N - q * (U * 2) in
    0 <= q /\ 0 <= f < U * 2 /\ (b = true <-> U * 2 <= 2 * f) /\ (r || s = true <-> 2 * f <> if b then U * 2 else 0)).
  { intros q b -> Hq f. unfold f. split_and!; [done|destruct b; lia..| |]; rewrite ?Hrs; destruct b; split; intros; try done; try lia. }
  unfold shr_1. destruct m as [|[p|p|]|p]; cbn [shr_m shr_r shr_s].
  - apply (Hgo 0 false); lia.
  - apply (Hgo (Zpos p) true); lia.
  - apply (Hgo (Zpos p) false); lia.
  - apply (Hgo 0 true); lia.
  - lia.
Qed.
Lemma shr_locates N D p : 0 < D -> forall e mrs, -1074 <= e -> locates N D e mrs -> locates N D (e + Zpos p) (SpecFloat.iter_pos shr_1 p mrs).
Proof.
  intros HD. induction p as [p IH|p IH|]; intros e mrs He Hl; cbn [SpecFloat.iter_pos].
  - replace (e + Z.pos p~1) with (e + 1 + Zpos p + Zpos p) by lia. apply IH; [lia|]. apply IH; [lia|]. by apply shr_1_locates.
  - replace (e + Z.pos p~0) with (e + Zpos p + Zpos p) by lia. apply IH; [lia|]. by apply IH.
  - by apply shr_1_locates.
Qed.

(** The digits of the integer part. *)
Lemma digits2_pos_spec p : 2 ^ (Zpos (digits2_pos p) - 1) <= Zpos p < 2 ^ Zpos (digits2_pos p).
Proof.
  induction p as [p IH|p IH|]; cbn [digits2_pos]; [| |cbn; lia]; rewrite Pos2Z.inj_succ; set (d := Zpos (digits2_pos p)) in *;
    replace (Z.succ d - 1) with (Z.succ (d - 1)) by lia; rewrite !Z.pow_succ_r by lia; lia.
Qed.
Lemma Zdigits2_spec m : 0 < m -> 1 <= Zdigits2 m /\ 2 ^ (Zdigits2 m - 1) <= m < 2 ^ Zdigits2 m.
Proof. destruct m as [|p|p]; try lia. intros _. cbn [Zdigits2]. pose proof (digits2_pos_spec p). lia. Qed.

(** The binary exponent of the number. *)
Definition mag (N D g : Z) : Prop := -1073 <= g /\ unit_of D (g - 1) <= N < unit_of D g.

Lemma mag_unique N D g g' : 0 < D -> mag N D g -> mag N D g' -> g = g'.
Proof.
  intros HD (H0 & H1 & H2) (H3 & H4 & H5). destruct (Z.lt_trichotomy g g') as [H|[H|H]]; [|done|].
  - pose proof (unit_mono D g (g' - 1) HD ltac:(lia) ltac:(lia)). lia.
  - pose proof (unit_mono D g' (g - 1) HD ltac:(lia) ltac:(lia)). lia.
Qed.
Lemma mag_of N D e m : 0 < D -> -1074 <= e -> 0 < m -> m * unit_of D e <= N < (m + 1) * unit_of D e -> mag N D (Zdigits2 m + e).
Proof.
  intros HD He Hm HN. destruct (Zdigits2_spec m Hm) as (Hd & Hlo & Hhi). pose proof (unit_pos D e HD He). split; [lia|].
  replace (Zdigits2 m + e - 1) with (e + (Zdigits2 m - 1)) by lia. rewrite (Z.add_comm (Zdigits2 m)), !unit_add by lia. nia.
Qed.

(* ------------------------------------------------------------------ *)
(** ** Rounding *)

(** A double in canonical form. *)
Definition canonical (m e : Z) : Prop := 0 < m /\ e <= 971 /\ dexp (Zdigits2 m + e) = e.

Lemma canonical_range m e : canonical m e -> -1074 <= e <= 971 /\ m < 2 ^ 53 /\ (-1074 < e -> 2 ^ 52 <= m).
Proof.
  intros (Hm & He & Hc). rewrite dexp_eq in Hc. destruct (Zdigits2_spec m Hm) as (Hd & Hlo & Hhi). split; [lia|]. split.
  - pose proof (Z.pow_le_mono_r 2 (Zdigits2 m) 53 ltac:(lia) ltac:(lia)). lia.
  - intros Hgt. pose proof (Z.pow_le_mono_r 2 52 (Zdigits2 m - 1) ltac:(lia) ltac:(lia)). lia.
Qed.

(** [N / D] is closer to [m * 2^e] than half the distance to the next double,
    which is a quarter of [2^e] below a power of two. *)
Definition close (N D m e : Z) : Prop :=
  2 * Z.abs (N - m * unit_of D e) < unit_of D e /\ (m = 2 ^ 52 -> 4 * Z.abs (N - m * unit_of D e) < unit_of D e).

Lemma locates_floor N D e mrs m : 0 < D -> -1074 <= e -> locates N D e mrs -> m * unit_of D e <= N < (m + 1) * unit_of D e -> shr_m mrs = m.
Proof.
  intros HD He (_ & Hf & _) HN. pose proof (unit_pos D e HD He) as HU. set (U := unit_of D e) in *. nia.
Qed.
(** Below and above the middle. *)
Lemma locates_round N D e mrs m : 0 < D -> -1074 <= e -> locates N D e mrs -> 2 * Z.abs (N - m * unit_of D e) < unit_of D e ->
  round_nearest_even (shr_m mrs) (loc_of_shr_record mrs) = m.
Proof.
  intros HD He Hl Hc. pose proof (unit_pos D e HD He) as HU. destruct (Z.le_gt_cases (m * unit_of D e) N) as [Hge|Hlt].
  - pose proof (locates_floor N D e mrs m HD He Hl ltac:(lia)) as Em. destruct Hl as (_ & Hf & Hr & Hs). destruct mrs as [m' r s]. cbn [shr_m shr_r shr_s] in *. subst m'.
    destruct r; [|by destruct s]. assert (unit_of D e <= 2 * (N - m * unit_of D e)) by (by apply Hr). lia.
  - pose proof (locates_floor N D e mrs (m - 1) HD He Hl ltac:(lia)) as Em. destruct Hl as (_ & Hf & Hr & Hs). destruct mrs as [m' r s]. cbn [shr_m shr_r shr_s] in *. subst m'.
    assert (Hr' : r = true) by (apply Hr; lia). subst r. assert (Hs' : s = true) by (apply Hs; lia). subst s. cbn. lia.
Qed.

(** The shift to the exponent of the number. *)
Lemma shr_fexp_locates N D m e l : 0 < D -> -1074 <= e -> e <= dexp (Zdigits2 m + e) -> locates N D e (shr_record_of_loc m l) ->
  exists mrs, shr_fexp DBL_PREC DBL_EMAX m e l = (mrs, dexp (Zdigits2 m + e)) /\ locates N D (dexp (Zdigits2 m + e)) mrs.
Proof.
  intros HD He Hle Hl. unfold shr_fexp. set (e1 := dexp (Zdigits2 m + e)) in *. destruct (e1 - e) as [|p|p] eqn:E; cbn [shr]; [| |lia].
  - assert (e1 = e) as -> by lia. by eexists.
  - exists (SpecFloat.iter_pos shr_1 p (shr_record_of_loc m l)). replace e1 with (e + Zpos p) by lia. split; [done|]. by apply shr_locates.
Qed.
Lemma record_m m l : shr_m (shr_record_of_loc m l) = m.
Proof. by destruct l as [|[]]. Qed.

(** Its exponent is that of the double, or one less below a power of two. *)
Lemma close_exponent N D m e mx ex l : 0 < D -> -1074 <= ex -> ex <= dexp (Zdigits2 mx + ex) -> locates N D ex (shr_record_of_loc mx l) ->
  canonical m e -> close N D m e ->
  dexp (Zdigits2 mx + ex) = e \/ (m = 2 ^ 52 /\ -1074 < e /\ N < m * unit_of D e /\ dexp (Zdigits2 mx + ex) = e - 1).
Proof.
  intros HD Hex Hle Hl Hcan [Hc Hb]. pose proof Hcan as (Hm & _ & Hce). destruct (canonical_range m e Hcan) as (He & Hm53 & Hm52).
  pose proof (unit_pos D e HD ltac:(lia)) as HU. pose proof (unit_pos D ex HD Hex) as HUx.
  destruct Hl as (Hmx & Hf & _). rewrite record_m in *. destruct (Z.eq_dec mx 0) as [->|Hne].
  { left. cbn [Zdigits2] in *. rewrite dexp_eq in Hle |- *. assert (Hex' : ex = -1074) by lia. subst ex.
    destruct (Z.eq_dec e (-1074)) as [->|]; [lia|]. pose proof (unit_mono D (-1074) e HD ltac:(lia) ltac:(lia)) as Hmono.
    assert (2 * unit_of D e <= m * unit_of D e) by (pose proof (Hm52 ltac:(lia)); nia). lia. }
  pose proof (mag_of N D ex mx HD Hex ltac:(lia) ltac:(lia)) as Hmag.
  destruct (Z.le_gt_cases (m * unit_of D e) N) as [Hge|Hlt].
  { left. assert (Hmag' : mag N D (Zdigits2 m + e)) by (apply mag_of; try lia). by rewrite (mag_unique _ _ _ _ HD Hmag Hmag'). }
  destruct (Z.eq_dec e (-1074)) as [->|Hemin].
  { left. rewrite dexp_eq. destruct Hmag as (Hg & Hlo & _). assert (Zdigits2 mx + ex - 1 < -1021); [|lia].
    apply Z.nle_gt. intros Hbig. pose proof (unit_mono D (-1021) (Zdigits2 mx + ex - 1) HD ltac:(lia) Hbig) as Hmono.
    change (-1021) with (-1074 + 53) in Hmono. rewrite (unit_add D (-1074) 53) in Hmono by lia. nia. }
  assert (H52 := Hm52 ltac:(lia)). destruct (Z.eq_dec m (2 ^ 52)) as [Em|Hnb].
  - right. split_and!; [done|lia|done|]. assert (Hmag' : mag N D (52 + e)).
    { split; [lia|]. specialize (Hb Em). rewrite Em in *. replace (52 + e - 1) with (e + 51) by lia. rewrite (Z.add_comm 52 e), !unit_add by lia.
      change (2 ^ 52) with (2 * 2 ^ 51) in *. lia. }
    rewrite (mag_unique _ _ _ _ HD Hmag Hmag'), dexp_eq. lia.
  - left. assert (Hmag' : mag N D (53 + e)).
    { split; [lia|]. replace (53 + e - 1) with (e + 52) by lia. rewrite (Z.add_comm 53 e), !unit_add by lia. nia. }
    rewrite (mag_unique _ _ _ _ HD Hmag Hmag'), dexp_eq. lia.
Qed.

Lemma round_aux_close N D s m e mx ex l : 0 < D -> -1074 <= ex -> ex <= dexp (Zdigits2 mx + ex) -> locates N D ex (shr_record_of_loc mx l) ->
  canonical m e -> close N D m e -> binary_round_aux DBL_PREC DBL_EMAX s mx ex l = S754_finite s (Z.to_pos m) e.
Proof.
  intros HD Hex Hle Hl Hcan Hcl. pose proof Hcl as [Hc Hb]. pose proof Hcan as (Hm & He971 & Hce). destruct (canonical_range m e Hcan) as (He & Hm53 & _).
  destruct (shr_fexp_locates N D mx ex l HD Hex Hle Hl) as (mrs & E & Hl1). unfold binary_round_aux. rewrite E.
  destruct (close_exponent N D m e mx ex l HD Hex Hle Hl Hcan Hcl) as [E1|(Em & Hgt & Hlt & E1)]; rewrite E1 in *; clear E.
  - rewrite (locates_round N D e mrs m HD ltac:(lia) Hl1 Hc). unfold shr_fexp. rewrite Hce, Z.sub_diag. cbn [shr shr_m shr_record_of_loc].
    destruct m as [|p|p]; try lia. cbn [Z.to_pos]. change (DBL_EMAX - DBL_PREC) with 971. by rewrite (proj2 (Z.leb_le e 971)) by lia.
  - assert (HU : unit_of D e = 2 * unit_of D (e - 1)) by (replace e with (e - 1 + 1) at 1 by lia; rewrite unit_add by lia; lia).
    rewrite (locates_round N D (e - 1) mrs (2 ^ 53) HD ltac:(lia) Hl1); [|specialize (Hb Em); rewrite Em, HU in *; change (2 ^ 53) with (2 * 2 ^ 52); lia].
    unfold shr_fexp. change (Zdigits2 (2 ^ 53)) with 54. rewrite dexp_eq. replace (Z.max (54 + (e - 1) - 53) (-1074) - (e - 1)) with 1 by lia.
    cbn [shr]. change (shr_m (SpecFloat.iter_pos shr_1 1 (shr_record_of_loc (2 ^ 53) loc_Exact))) with (Zpos (Z.to_pos (2 ^ 52))).
    replace (e - 1 + 1) with e by lia. change (DBL_EMAX - DBL_PREC) with 971. rewrite (proj2 (Z.leb_le e 971)) by lia. by rewrite Em.
Qed.

(* ------------------------------------------------------------------ *)
(** ** Decimal fractions *)

(** [M * 10^E] as a fraction. *)
Definition dec_num (M E : Z) : Z := M * 10 ^ Z.max E 0 * 2 ^ 1074.
Definition dec_den (E : Z) : Z := 10 ^ Z.max (- E) 0.

Lemma dec_den_pos E : 0 < dec_den E.
Proof. apply Z.pow_pos_nonneg; lia. Qed.

Lemma exact_locates N D e m : 0 < D -> -1074 <= e -> 0 <= m -> N = m * unit_of D e -> locates N D e (shr_record_of_loc m loc_Exact).
Proof. intros HD He Hm ->. pose proof (unit_pos D e HD He). unfold locates. cbn. rewrite Z.sub_diag. split_and!; [lia..| |]; split; intros; try done; lia. Qed.

Lemma Zdigits2_unique m d : 2 ^ (d - 1) <= m < 2 ^ d -> 1 <= d -> Zdigits2 m = d.
Proof.
  intros H Hd. assert (Hm : 0 < m) by (pose proof (Z.pow_pos_nonneg 2 (d - 1)); lia). destruct (Zdigits2_spec m Hm) as (H1 & H2 & H3).
  destruct (Z.lt_trichotomy (Zdigits2 m) d) as [Hlt|[?|Hgt]]; [|done|].
  - pose proof (Z.pow_le_mono_r 2 (Zdigits2 m) (d - 1) ltac:(lia) ltac:(lia)). lia.
  - pose proof (Z.pow_le_mono_r 2 d (Zdigits2 m - 1) ltac:(lia) ltac:(lia)). lia.
Qed.
Lemma Zdigits2_shift m k : 0 < m -> 0 <= k -> Zdigits2 (m * 2 ^ k) = Zdigits2 m + k.
Proof.
  intros Hm Hk. destruct (Zdigits2_spec m Hm) as (H1 & H2 & H3). apply Zdigits2_unique; [|lia].
  replace (Zdigits2 m + k - 1) with (Zdigits2 m - 1 + k) by lia. rewrite !Z.pow_add_r by lia. pose proof (Z.pow_pos_nonneg 2 k). nia.
Qed.
Lemma iter_double p d : Zpos (Pos.iter xO p d) = Zpos p * 2 ^ Zpos d.
Proof.
  induction d as [|d IH] using Pos.peano_ind; [cbn; lia|]. rewrite Pos.iter_succ.
  change (Zpos (Pos.iter xO p d)~0) with (2 * Zpos (Pos.iter xO p d)). rewrite IH, Pos2Z.inj_succ, Z.pow_succ_r by lia. ring.
Qed.

(** An integer. *)
Lemma binary_round_close s p m e : canonical m e -> close (Zpos p * 2 ^ 1074) 1 m e ->
  binary_round DBL_PREC DBL_EMAX s p 0 = S754_finite s (Z.to_pos m) e.
Proof.
  intros Hcan Hcl. unfold binary_round, shl_align. change (Zpos (digits2_pos p)) with (Zdigits2 (Zpos p)). set (ex := dexp (Zdigits2 (Zpos p) + 0)).
  assert (Hplain : 0 <= ex -> binary_round_aux DBL_PREC DBL_EMAX s (Zpos p) 0 loc_Exact = S754_finite s (Z.to_pos m) e).
  { intros Hex. apply (round_aux_close (Zpos p * 2 ^ 1074) 1); try done; try lia. apply exact_locates; try lia. unfold unit_of. rewrite Z.mul_1_l. done. }
  assert (Hmin : -1074 <= ex) by (unfold ex; rewrite dexp_eq; lia).
  rewrite Z.sub_0_r. destruct ex as [|q|q] eqn:Eex; [apply Hplain; lia|apply Hplain; lia|]. fold ex in Eex.
  apply (round_aux_close (Zpos p * 2 ^ 1074) 1); try done; try lia.
  - rewrite iter_double, Zdigits2_shift by lia. replace (Zdigits2 (Zpos p) + Zpos q + Zneg q) with (Zdigits2 (Zpos p) + 0) by lia. fold ex. lia.
  - rewrite iter_double. apply exact_locates; try lia. unfold unit_of. rewrite Z.mul_1_l, <- Z.mul_assoc, <- Z.pow_add_r by lia.
    do 2 f_equal. lia.
Qed.

(** A quotient. *)
Lemma new_location_locates N D e q r : 0 < D -> -1074 <= e -> 0 <= q -> 0 <= r < D ->
  N = q * unit_of D e + r * 2 ^ (e + 1074) -> locates N D e (shr_record_of_loc q (new_location D r)).
Proof.
  intros HD He Hq Hr HN. unfold locates. rewrite record_m. replace (N - q * unit_of D e) with (r * 2 ^ (e + 1074)) by lia. unfold unit_of.
  pose proof (Z.pow_pos_nonneg 2 (e + 1074) ltac:(lia) ltac:(lia)) as Hk. set (k := 2 ^ (e + 1074)) in *.
  assert (Hcase : (r = 0 /\ new_location D r = loc_Exact) \/ (0 < r /\ 2 * r < D /\ new_location D r = loc_Inexact Lt) \/
    (0 < r /\ 2 * r = D /\ new_location D r = loc_Inexact Eq) \/ (0 < r /\ D < 2 * r /\ new_location D r = loc_Inexact Gt)).
  { unfold new_location, new_location_even, new_location_odd. destruct (Z.even D) eqn:Ev; (destruct (Z.eqb_spec r 0) as [->|Hne]; [by left|right]).
    - destruct (Z.compare_spec (2 * r) D); [right; left|left|right; right]; split_and!; try lia; done.
    - assert (2 * r <> D) by (intros <-; rewrite Z.even_mul in Ev; done).
      destruct (Z.compare_spec (2 * r + 1) D); [left|left|right; right]; split_and!; try lia; done. }
  destruct Hcase as [(-> & ->)|[(? & ? & ->)|[(? & <- & ->)|(? & ? & ->)]]]; cbn; split_and!; try lia; try nia; split; intros; try done; try nia; try lia.
Qed.

Lemma div_close s M T m e : 0 < M -> 0 < T -> canonical m e -> close (M * 2 ^ 1074) T m e ->
  (let '(mz, ez, lz) := SFdiv_core_binary DBL_PREC DBL_EMAX M 0 T 0 in binary_round_aux DBL_PREC DBL_EMAX s mz ez lz) = S754_finite s (Z.to_pos m) e.
Proof.
  intros HM HT Hcan Hcl. unfold SFdiv_core_binary. rewrite !Z.add_0_r, !Z.sub_0_r. set (ez := Z.min (dexp (Zdigits2 M - Zdigits2 T)) 0).
  assert (Hez : -1074 <= ez <= 0) by (unfold ez; rewrite dexp_eq; lia).
  assert (Em : match 0 - ez with Z0 => M | Zpos _ => Z.shiftl M (0 - ez) | Zneg _ => 0 end = M * 2 ^ (- ez)).
  { destruct (0 - ez) as [|p|p] eqn:E; [| |lia]; [by replace ez with 0 by lia; rewrite Z.mul_1_r|]. rewrite Z.shiftl_mul_pow2 by lia. f_equal. f_equal. lia. }
  rewrite Em. pose proof (Z_div_mod (M * 2 ^ (- ez)) T ltac:(lia)) as Hdm. destruct (Z.div_eucl (M * 2 ^ (- ez)) T) as [q r]. destruct Hdm as [Hdm Hr].
  pose proof (Z.pow_pos_nonneg 2 (- ez) ltac:(lia) ltac:(lia)) as Hpow. assert (Hq : 0 <= q) by nia.
  assert (HN : M * 2 ^ 1074 = q * unit_of T ez + r * 2 ^ (ez + 1074)).
  { unfold unit_of. replace (2 ^ 1074) with (2 ^ (- ez) * 2 ^ (ez + 1074)) by (rewrite <- Z.pow_add_r by lia; f_equal; lia).
    rewrite Z.mul_assoc, Hdm. lia. }
  pose proof (new_location_locates (M * 2 ^ 1074) T ez q r HT ltac:(lia) Hq ltac:(lia) HN) as Hl.
  apply (round_aux_close (M * 2 ^ 1074) T); try done; try lia.
  destruct (Z.eq_dec q 0) as [->|Hq0].
  - cbn [Zdigits2]. unfold ez. rewrite !dexp_eq. destruct (Z.le_gt_cases (Zdigits2 M - Zdigits2 T - 53) (-1074)); [lia|]. exfalso.
    destruct (Zdigits2_spec M HM) as (HdM & HlM & HhM). destruct (Zdigits2_spec T HT) as (HdT & HlT & HhT).
    assert (Hge : T <= M * 2 ^ (- ez)); [|nia]. unfold ez. rewrite dexp_eq.
    destruct (Z.le_gt_cases 0 (Zdigits2 M - Zdigits2 T - 53)).
    + rewrite Z.max_l, Z.min_r by lia. pose proof (Z.pow_le_mono_r 2 (Zdigits2 T) (Zdigits2 M - 1) ltac:(lia) ltac:(lia)). lia.
    + rewrite Z.max_l, Z.min_l by lia. replace (- (Zdigits2 M - Zdigits2 T - 53)) with (Zdigits2 T + 53 - Zdigits2 M) by lia.
      assert (2 ^ (Zdigits2 M - 1) * 2 ^ (Zdigits2 T + 53 - Zdigits2 M) = 2 ^ (Zdigits2 T + 52)) by (rewrite <- Z.pow_add_r by lia; f_equal; lia).
      pose proof (Z.pow_le_mono_r 2 (Zdigits2 T) (Zdigits2 T + 52) ltac:(lia) ltac:(lia)). pose proof (Z.pow_pos_nonneg 2 (Zdigits2 T + 53 - Zdigits2 M) ltac:(lia) ltac:(lia)). nia.
  - pose proof (mag_of (M * 2 ^ 1074) T ez q HT ltac:(lia) ltac:(lia)) as Hmag. specialize (Hmag ltac:(split; [|]; unfold unit_of in *; pose proof (Z.pow_pos_nonneg 2 (ez + 1074)); nia)).
    assert (Zdigits2 M - Zdigits2 T <= Zdigits2 q + ez); [|unfold ez at 1; rewrite !dexp_eq; lia].
    destruct (Zdigits2_spec M HM) as (HdM & HlM & HhM). destruct (Zdigits2_spec T HT) as (HdT & HlT & HhT). destruct (Zdigits2_spec q ltac:(lia)) as (Hdq & Hlq & Hhq).
    apply Z.nlt_ge. intros Hlt. assert (Hprod : M * 2 ^ (- ez) < 2 ^ Zdigits2 q * 2 ^ Zdigits2 T) by nia.
    rewrite <- Z.pow_add_r in Hprod by lia. assert (Hlow : 2 ^ (Zdigits2 M - 1) * 2 ^ (- ez) <= M * 2 ^ (- ez)) by nia.
    rewrite <- Z.pow_add_r in Hlow by lia. pose proof (Z.pow_le_mono_r 2 (Zdigits2 q + Zdigits2 T) (Zdigits2 M - 1 + - ez) ltac:(lia) ltac:(lia)). lia.
Qed.

(** What [strtod] does not look at is far from every double. *)
Lemma close_bounds N D m e : 0 < D -> canonical m e -> close N D m e -> D <= 2 * N /\ N < 2 * D * 2 ^ 53 * 2 ^ 2045.
Proof.
  intros HD Hcan [Hc _]. pose proof Hcan as (Hm & _). destruct (canonical_range m e Hcan) as (He & Hm53 & _). pose proof (unit_pos D e HD ltac:(lia)) as HU.
  split.
  - pose proof (unit_mono D (-1074) e HD ltac:(lia) ltac:(lia)) as Hmono. unfold unit_of in Hmono at 1. change (2 ^ (-1074 + 1074)) with 1 in Hmono.
    assert (unit_of D e <= m * unit_of D e) by nia. lia.
  - pose proof (unit_mono D e 971 HD ltac:(lia) ltac:(lia)) as Hmono. unfold unit_of in Hmono at 2. change (971 + 1074) with 2045 in Hmono.
    assert (m * unit_of D e <= 2 ^ 53 * unit_of D e) by nia. set (X := 2 ^ 2045) in *. assert (unit_of D e <= 2 ^ 53 * unit_of D e) by lia.
    assert (2 ^ 53 * unit_of D e <= 2 ^ 53 * (D * X)) by nia. lia.
Qed.

Lemma dec_to_double_close neg M E m e : 0 < M -> canonical m e -> close (dec_num M E) (dec_den E) m e ->
  dec_to_double neg M E = S754_finite neg (Z.to_pos m) e.
Proof.
  intros HM Hcan Hcl. pose proof (close_bounds _ _ m e (dec_den_pos E) Hcan Hcl) as [Hlo Hhi]. unfold dec_num, dec_den in *.
  destruct M as [|p|p]; try lia. unfold dec_to_double.
  assert (Hbig : 310 <? E = false).
  { apply Z.ltb_ge. apply Z.nlt_ge. intros Hgt. rewrite (Z.max_l E), (Z.max_r (- E)) in Hhi by lia.
    assert (10 ^ 311 <= 10 ^ E) by (apply Z.pow_le_mono_r; lia). set (P := 2 ^ 1074) in *. assert (Hc : 2 * 1 * 2 ^ 53 * 2 ^ 2045 < 10 ^ 311 * P) by (vm_compute; reflexivity).
    change (10 ^ 0) with 1 in Hhi. assert (0 < P) by (by apply Z.pow_pos_nonneg). set (Y := 10 ^ 311) in *. set (W := 2 * 1 * 2 ^ 53 * 2 ^ 2045) in *. nia. }
  rewrite Hbig. destruct (Z.ltb_spec (E + Z.of_nat (length (digits 10 (Zpos p)))) (-326)) as [Hsmall|_].
  - exfalso. destruct (digits_spec 10 (Zpos p) ltac:(lia) ltac:(lia)) as (Hds & Hof & _).
    rewrite (Z.max_r E), (Z.max_l (- E)) in Hlo by lia. change (10 ^ 0) with 1 in Hlo. set (k := Z.of_nat (length (digits 10 (Zpos p)))) in *.
    assert (Hlen : Zpos p < 10 ^ k).
    { rewrite <- Hof at 1. apply of_digits_lt; [lia|done]. }
    assert (Hpow : 10 ^ (- E) = 10 ^ (- E - k) * 10 ^ k) by (rewrite <- Z.pow_add_r by lia; f_equal; lia).
    assert (10 ^ 327 <= 10 ^ (- E - k)) by (apply Z.pow_le_mono_r; lia). assert (Hc : 2 * 2 ^ 1074 < 10 ^ 327) by (vm_compute; reflexivity).
    set (P := 2 ^ 1074) in *. set (Y := 10 ^ 327) in *. assert (0 < P) by (by apply Z.pow_pos_nonneg). rewrite Hpow in Hlo. clear Hpow Hbig Hhi Hcl. nia.
  - destruct (Z.leb_spec 0 E) as [HE|HE].
    + rewrite (Z.max_l E), (Z.max_r (- E)) in Hcl by lia. pose proof (Z.pow_pos_nonneg 10 E ltac:(lia) HE) as Hp. change (10 ^ 0) with 1 in Hcl.
      destruct (Zpos p * 10 ^ E) as [|p'|p'] eqn:Ep; [lia| |lia]. destruct neg; cbn [Z.opp binary_normalize]; by apply binary_round_close.
    + rewrite (Z.max_r E), (Z.max_l (- E)) in Hcl by lia. change (10 ^ 0) with 1 in Hcl. rewrite Z.mul_1_r in Hcl.
      apply div_close; try done. apply Z.pow_pos_nonneg; lia.
Qed.
