(* ===== verification/Doubles.v ===== *)
(** * Seventeen digits are enough

    A double that is written with 17 or more significant digits is the double
    closest to what was written, so reading gives it back exactly. *)

From Stdlib Require Import SpecFloat.
From S2P Require Import Prelude Utf8 Strbuffer Hashtable Value Error Strconv Load Dump Grammar.
From S2P Require Import Numbers Reals RoundTrip Rounding.

(* ------------------------------------------------------------------ *)
(** ** The digits are close *)

Lemma abs_scale a b k l : 0 < k -> 0 < l -> a * k = b * l -> Z.abs a * k = Z.abs b * l.
Proof. intros. rewrite <- (Z.abs_eq k), <- (Z.abs_eq l) by lia. rewrite <- !Z.abs_mul. by f_equal. Qed.

Lemma close_cross N D N' D' m e : 0 < D -> 0 < D' -> N' * D = N * D' -> close N D m e -> close N' D' m e.
Proof.
  intros HD HD' Hx [H1 H2]. unfold close, unit_of in *. set (U := 2 ^ (e + 1074)) in *.
  assert (Habs : Z.abs (N' - m * (D' * U)) * D = Z.abs (N - m * (D * U)) * D').
  { apply abs_scale; [done..|]. nia. }
  set (a := Z.abs (N - m * (D * U))) in *. set (b := Z.abs (N' - m * (D' * U))) in *. clearbody a b. split; [|intros Hm; specialize (H2 Hm)]; nia.
Qed.

Lemma div_round_near a b : 0 < b -> 2 * Z.abs (div_round a b * b - a) <= b.
Proof.
  intros Hb. unfold div_round. pose proof (Z.div_mod a b ltac:(lia)) as Hdm. pose proof (Z.mod_pos_bound a b Hb) as Hm.
  set (q := a / b) in *. set (r := a mod b) in *. destruct ((2 * r <? b) || (2 * r =? b) && Z.even q) eqn:E.
  - assert (2 * r <= b).
    { apply orb_true_iff in E as [E|E]; [apply Z.ltb_lt in E; lia|]. apply andb_true_iff in E as [E _]. apply Z.eqb_eq in E. lia. }
    replace (q * b - a) with (- r) by lia. lia.
  - apply orb_false_iff in E as [E _]. apply Z.ltb_ge in E. replace ((q + 1) * b - a) with (b - r) by lia. lia.
Qed.

(** The value of a double in units. *)
Lemma num_den_units m e : -1074 <= e ->
  (if 0 <=? e then Zpos m * 2 ^ e else Zpos m) * 2 ^ 1074 = Zpos m * 2 ^ (e + 1074) * (if 0 <=? e then 1 else 2 ^ (- e)).
Proof.
  intros He. destruct (Z.leb_spec 0 e).
  - rewrite Z.pow_add_r by lia. ring.
  - rewrite <- Z.mul_assoc, <- Z.pow_add_r by lia. do 2 f_equal. lia.
Qed.

Section digits.
Context (m : positive) (e p : Z) (Hcan : canonical (Zpos m) e) (Hp : 17 <= p).
Let num := if 0 <=? e then Zpos m * 2 ^ e else Zpos m.
Let den := if 0 <=? e then 1 else 2 ^ (- e).

(** The first digits are of the size of the number. *)
Lemma digits_size : let s := p - 1 - dec_exp num den in
  10 ^ (p - 1) * 10 ^ Z.max (- s) 0 * 2 ^ 1074 <= Zpos m * 2 ^ (e + 1074) * 10 ^ Z.max s 0.
Proof using Hcan Hp.
  intros s. destruct (canonical_range _ _ Hcan) as (He & _). pose proof (num_den_units m e ltac:(lia)) as Hunits. fold num den in Hunits.
  destruct (num_den_pos m e) as [Hn Hd]. fold num den in Hn, Hd. set (P := 2 ^ 1074) in *. set (V := Zpos m * 2 ^ (e + 1074)) in *.
  assert (HP : 0 < P) by (by apply Z.pow_pos_nonneg). destruct (dec_exp_spec num den Hn Hd) as [(Hx & Hlo & _)|(Hx & Hlo & _)].
  - assert (Hb : 10 ^ dec_exp num den * P <= V) by nia.
    assert (Epow : 10 ^ (p - 1) * 10 ^ Z.max (- s) 0 = 10 ^ dec_exp num den * 10 ^ Z.max s 0) by (rewrite <- !Z.pow_add_r by lia; f_equal; unfold s; lia).
    rewrite Epow. pose proof (pow10_pos (Z.max s 0) ltac:(lia)). nia.
  - rewrite (Z.max_r (- s)), (Z.max_l s) by (unfold s; lia). change (10 ^ 0) with 1.
    assert (Hb : P <= V * 10 ^ (- dec_exp num den)) by nia.
    replace (10 ^ s) with (10 ^ (p - 1) * 10 ^ (- dec_exp num den)) by (rewrite <- Z.pow_add_r by lia; f_equal; unfold s; lia).
    pose proof (pow10_pos (p - 1) ltac:(lia)). nia.
Qed.

Lemma rounded_close : let s := p - 1 - dec_exp num den in
  close (dec_num (if 0 <=? s then div_round (num * 10 ^ s) den else div_round num (den * 10 ^ (- s))) (- s)) (dec_den (- s)) (Zpos m) e.
Proof using Hcan Hp.
  intros s. pose proof digits_size as Hsize. cbv zeta in Hsize. fold s in Hsize. destruct (canonical_range _ _ Hcan) as (He & Hm53 & _).
  pose proof (num_den_units m e ltac:(lia)) as Hunits. fold num den in Hunits. destruct (num_den_pos m e) as [Hn Hd]. fold num den in Hn, Hd.
  set (n := if 0 <=? s then _ else _). unfold dec_num, dec_den, close, unit_of. replace (Z.max (- - s) 0) with (Z.max s 0) by (f_equal; lia).
  assert (Hnear : 2 * Z.abs (n * 10 ^ Z.max (- s) 0 * den - num * 10 ^ Z.max s 0) <= den * 10 ^ Z.max (- s) 0).
  { unfold n. destruct (Z.leb_spec 0 s) as [Hs|Hs].
    - rewrite (Z.max_r (- s)), (Z.max_l s) by lia. change (10 ^ 0) with 1. rewrite !Z.mul_1_r. by apply div_round_near.
    - rewrite (Z.max_l (- s)), (Z.max_r s) by lia. change (10 ^ 0) with 1. pose proof (pow10_pos (- s) ltac:(lia)).
      pose proof (div_round_near num (den * 10 ^ (- s)) ltac:(nia)) as H1. replace (div_round num (den * 10 ^ (- s)) * 10 ^ (- s) * den - num * 1) with
        (div_round num (den * 10 ^ (- s)) * (den * 10 ^ (- s)) - num) by ring. exact H1. }
  pose proof (pow10_pos (Z.max s 0) ltac:(lia)) as HB. pose proof (pow10_pos (Z.max (- s) 0) ltac:(lia)) as HA.
  set (A := 10 ^ Z.max (- s) 0) in *. set (B := 10 ^ Z.max s 0) in *. set (P := 2 ^ 1074) in *. set (U := 2 ^ (e + 1074)) in *.
  assert (HP : 0 < P) by (by apply Z.pow_pos_nonneg).
  assert (Herr : 2 * Z.abs (n * A * P - Zpos m * (B * U)) <= P * A).
  { assert (Eabs : Z.abs (n * A * P - Zpos m * (B * U)) * den = P * Z.abs (n * A * den - num * B)).
    { rewrite (Z.mul_comm P). apply abs_scale; [done..|]. transitivity (n * A * P * den - B * (num * P)); [rewrite Hunits|]; ring. }
    set (a := Z.abs (n * A * P - Zpos m * (B * U))) in *. set (b := Z.abs (n * A * den - num * B)) in *. clearbody a b. clear -Eabs Hnear Hd HP. nia. }
  assert (H10 : 10 ^ 16 <= 10 ^ (p - 1)) by (apply Z.pow_le_mono_r; lia).
  assert (Hbig : 10 ^ 16 * (P * A) <= Zpos m * (B * U)).
  { transitivity (10 ^ (p - 1) * (P * A)); [apply Z.mul_le_mono_nonneg_r; [clear -HP HA; nia|done]|].
    replace (10 ^ (p - 1) * (P * A)) with (10 ^ (p - 1) * A * P) by ring. replace (Zpos m * (B * U)) with (Zpos m * U * B) by ring. exact Hsize. }
  set (a := Z.abs (n * A * P - Zpos m * (B * U))) in *. set (BU := B * U) in *. set (PA := P * A) in *. assert (0 < PA) by (clear -HP HA; unfold PA; nia).
  assert (HBU : 0 < BU) by (clear -Hbig H; nia). clearbody a BU PA. change (10 ^ 16) with 10000000000000000 in Hbig. change (2 ^ 53) with 9007199254740992 in Hm53.
  split; [clear -Herr Hbig Hm53 HBU H; nia|]. intros Em. rewrite Em in Hbig. change (2 ^ 52) with 4503599627370496 in Hbig. lia.
Qed.

Lemma sig_digits_close n x : sig_digits num den p = (n, x) -> close (dec_num n (x + 1 - p)) (dec_den (x + 1 - p)) (Zpos m) e.
Proof using Hcan Hp.
  pose proof rounded_close as Hc. cbv zeta in Hc. unfold sig_digits. set (x0 := dec_exp num den) in *. replace (- (p - 1 - x0)) with (x0 + 1 - p) in * by lia.
  set (n0 := if 0 <=? p - 1 - x0 then _ else _) in *.
  destruct (Z.eqb_spec n0 (10 ^ p)) as [E|_]; intros [= <- <-]; [|done].
  eapply close_cross; [| | |exact Hc]; try apply dec_den_pos. rewrite E. unfold dec_num, dec_den.
  enough (10 ^ (p - 1) * 10 ^ Z.max (x0 + 1 + 1 - p) 0 * 10 ^ Z.max (- (x0 + 1 - p)) 0 = 10 ^ p * 10 ^ Z.max (x0 + 1 - p) 0 * 10 ^ Z.max (- (x0 + 1 + 1 - p)) 0) by nia.
  rewrite <- !Z.pow_add_r by lia. f_equal. lia.
Qed.
End digits.

(* ------------------------------------------------------------------ *)
(** ** The text has the digits *)

Lemma strip_zeros_spec ds : exists k, ds = strip_zeros ds ++ replicate k 0.
Proof.
  unfold strip_zeros. assert (H : forall l, exists k, l = replicate k 0 ++ rev_zeros l).
  { induction l as [|d l [k IH]]; [by exists O|]. destruct d as [|q|q]; cbn [rev_zeros]; [|by exists O..]. exists (S k). cbn. by rewrite <- IH. }
  destruct (H (rev ds)) as [k Hk]. exists k. apply (f_equal (@rev Z)) in Hk. rewrite rev_involutive, rev_app_distr in Hk. rewrite Hk at 1. f_equal.
  clear. induction k as [|k IH]; [done|]. cbn. rewrite IH. by rewrite <- replicate_cons_app.
Qed.
Lemma of_digits_zeros ds k : of_digits 10 (ds ++ replicate k 0) = of_digits 10 ds * 10 ^ Z.of_nat k.
Proof.
  rewrite of_digits_app, length_replicate. assert (E : of_digits 10 (replicate k 0) = 0); [|lia].
  induction k as [|k IH]; [done|]. cbn [replicate]. rewrite of_digits_cons, IH. lia.
Qed.

(** The exponent of ten that goes with the digits of a text. *)
Definition text_exp (fs : list Z) (ex : option Z) : Z := match ex with Some x => x | None => 0 end - Z.of_nat (length fs).

(** Digits before and behind the point, less zeros at the end. *)
Lemma stripped_value ip fr ex : exists a b, 0 <= a /\ 0 <= b /\
  of_digits 10 (ip ++ fr) * 10 ^ a = of_digits 10 (ip ++ real_frac (strip_zeros fr) ex) * 10 ^ b /\
  text_exp (real_frac (strip_zeros fr) ex) ex = text_exp fr ex + b - a.
Proof.
  destruct (strip_zeros_spec fr) as [k Hk]. unfold text_exp. set (fs := strip_zeros fr) in *.
  assert (Hval : of_digits 10 (ip ++ fr) = of_digits 10 (ip ++ fs) * 10 ^ Z.of_nat k) by (rewrite Hk, app_assoc; apply of_digits_zeros).
  assert (Hlen : length fr = (length fs + k)%nat) by (rewrite Hk, length_app, length_replicate; lia).
  assert (Hplain : real_frac fs ex = fs \/ (fs = [] /\ real_frac fs ex = [0])) by (destruct fs, ex; auto).
  destruct Hplain as [->|[Ef ->]].
  - exists 0, (Z.of_nat k). split_and!; [lia..| |lia]. rewrite Z.mul_1_r. exact Hval.
  - exists 1, (Z.of_nat k). rewrite Ef in *. cbn [length] in *. split_and!; [lia..| |lia].
    rewrite Hval, app_nil_r. change [0] with (replicate 1 0). rewrite of_digits_zeros. change (Z.of_nat 1) with 1. ring.
Qed.

Lemma shifted_close n E a b M m e : 0 <= a -> 0 <= b -> n * 10 ^ a = M * 10 ^ b ->
  close (dec_num n E) (dec_den E) m e -> close (dec_num M (E + b - a)) (dec_den (E + b - a)) m e.
Proof.
  intros Ha Hb Hv. apply close_cross; [apply dec_den_pos..|]. unfold dec_num, dec_den.
  set (p1 := Z.max (E + b - a) 0). set (q1 := Z.max (- (E + b - a)) 0). set (p := Z.max E 0). set (q := Z.max (- E) 0).
  enough (M * 10 ^ (p1 + q) = n * 10 ^ (p + q1)) as H.
  { rewrite !Z.pow_add_r in H by (subst p p1 q q1; lia). nia. }
  apply (Z.mul_reg_r _ _ (10 ^ (a + b))); [pose proof (pow10_pos (a + b)); lia|].
  transitivity (M * 10 ^ b * 10 ^ (p1 + q + a)); [rewrite <- !Z.mul_assoc, <- !Z.pow_add_r by (subst p p1 q q1; lia); do 2 f_equal; lia|].
  rewrite <- Hv, <- !Z.mul_assoc, <- !Z.pow_add_r by (subst p p1 q q1; lia). do 2 f_equal. subst p p1 q q1. lia.
Qed.

(** A number between two powers of ten has so many digits. *)
Lemma digits_count n p : 0 < p -> 10 ^ (p - 1) <= n < 10 ^ p -> length (digits 10 n) = Z.to_nat p.
Proof.
  intros Hp [Hlo Hhi]. pose proof (pow10_pos (p - 1) ltac:(lia)) as Hpos.
  pose proof (length_digits 10 n (Z.to_nat p) ltac:(lia) ltac:(rewrite Z2Nat.id by lia; lia) ltac:(lia)) as Hle.
  destruct (digits_spec 10 n ltac:(lia) ltac:(lia)) as (Hd & Hv & _). pose proof (of_digits_lt 10 _ ltac:(lia) Hd) as Hlt. rewrite Hv in Hlt.
  destruct (decide (Z.to_nat p <= length (digits 10 n))%nat); [lia|]. exfalso.
  pose proof (Z.pow_le_mono_r 10 (Z.of_nat (length (digits 10 n))) (p - 1) ltac:(lia) ltac:(lia)). lia.
Qed.

(** Before zeros are stripped, the text has the digits [n] and the exponent
    [x + 1 - p]. *)
Lemma g_parts_digits p s m e neg ip fs ex : 0 < p -> g_parts p (S754_finite s m e) = (neg, ip, fs, ex) ->
  neg = s /\ exists n x fr, sig_digits (if 0 <=? e then Zpos m * 2 ^ e else Zpos m) (if 0 <=? e then 1 else 2 ^ (- e)) p = (n, x) /\
    0 < n /\ fs = strip_zeros fr /\ of_digits 10 (ip ++ fr) = n /\ text_exp fr ex = x + 1 - p.
Proof.
  intros Hp. cbn [g_parts]. destruct (num_den_pos m e) as [Hn Hd]. pose proof (sig_digits_spec _ _ p Hn Hd Hp) as Hsig.
  destruct (sig_digits _ _ p) as [n x]. destruct Hsig as [Hrange _]. pose proof (pow10_pos (p - 1) ltac:(lia)) as Hpos.
  destruct (digits_spec 10 n ltac:(lia) ltac:(lia)) as (_ & Hv & _). pose proof (digits_count n p Hp Hrange) as Hlen. unfold text_exp.
  destruct (Z.ltb_spec x (-4)), (Z.leb_spec p x), (Z.ltb_spec x 0); cbn [orb]; intros [= <- <- <- <-]; (split; [done|]); eexists n, x, _;
    (split; [done|]); (split; [lia|]); (split; [reflexivity|]); rewrite ?take_drop, ?length_drop, ?length_app, ?length_replicate, ?Hlen; (split; [|lia]); try done.
  pose proof (of_digits_zeros [] (Z.to_nat (- x - 1))) as Hz. cbn [app] in *. rewrite of_digits_cons, of_digits_app, Hz, Hv. change (of_digits 10 []) with 0. lia.
Qed.

(* ------------------------------------------------------------------ *)
(** ** Reading gives the double back *)

Lemma valid_canonical s m e : valid_binary DBL_PREC DBL_EMAX (S754_finite s m e) = true -> canonical (Zpos m) e.
Proof. intros [H1%Z.eqb_eq H2%Z.leb_le]%andb_true_iff. split_and!; [done|exact H2|exact H1]. Qed.

(** Seventeen digits are enough for every double. *)
Theorem reread_exact precision d : valid_binary DBL_PREC DBL_EMAX d = true -> not_finite d = false ->
  17 <= precision_of precision -> reread precision d = d.
Proof.
  intros Hval Hfin Hp. assert (Hp0 : 0 < precision_of precision) by lia. unfold reread. destruct (g_parts (precision_of precision) d) as [[[neg ip] fs] ex] eqn:Hg.
  destruct d as [s|s| |s m e]; [by injection Hg as <- <- <- <-|done..|].
  pose proof (valid_canonical _ _ _ Hval) as Hcan.
  destruct (g_parts_digits _ _ _ _ _ _ _ _ Hp0 Hg) as (-> & n & x & fr & Hsig & Hn & -> & Hv & Hx).
  pose proof (sig_digits_close m e _ Hcan Hp n x Hsig) as Hc. destruct (stripped_value ip fr ex) as (a & b & Ha & Hb & Heq & Hexp).
  rewrite Hv in Heq. fold (text_exp (real_frac (strip_zeros fr) ex) ex). rewrite Hexp, Hx.
  apply (dec_to_double_close s _ _ (Zpos m) e); [|done|by eapply shifted_close].
  apply (Z.mul_pos_cancel_r _ (10 ^ b)); [by apply pow10_pos|]. rewrite <- Heq. apply Z.mul_pos_pos; [done|by apply pow10_pos].
Qed.
