(* ===== verification/Codec.v ===== *)
(** * Values through [json_dumps] and [json_loads]

    What a value becomes when it is encoded and decoded again. *)

From stdpp Require Import gmultiset.
From Stdlib Require Import SpecFloat.
From S2P Require Import Prelude Utf8 Strbuffer Dlist Hashtable Value Arrays Refcount ValueSpec Iterate.
From S2P Require Import Client Error Strconv Load Dump Grammar Numbers GrammarFacts Stream Tree Decode.
From S2P Require Import Print Views Sinks Encode Dumps Escapes Reals RoundTrip.

Definition is_container (t : json) : bool :=
  match t with JArray _ | JObject _ => true | _ => false end.

Lemma clear_embed_id flags : has_flag flags JSON_EMBED = false -> clear_embed flags = flags.
Proof.
  unfold has_flag, clear_embed. intros H%negb_false_iff%Z.eqb_eq. apply Z.bits_inj'. intros n _.
  apply (f_equal (fun z => Z.testbit z n)) in H. rewrite Z.land_spec, Z.bits_0 in H. rewrite Z.ldiff_spec.
  destruct (Z.testbit flags n); [|done]. by rewrite andb_true_l in H |- *; rewrite H.
Qed.

(** ** The reference encoder and decoder *)

Lemma parse_print point pf df t :
  point_prints point -> has_flag pf JSON_EMBED = false -> has_flag df JSON_DECODE_INT_AS_REAL = false ->
  is_container t = true \/ has_flag pf JSON_ENCODE_ANY = true /\ has_flag df JSON_DECODE_ANY = true ->
  printable pf (has_flag df JSON_ALLOW_NUL) (Z.to_nat JSON_PARSER_MAX_DEPTH) t ->
  exists txt, print_json point pf (view_of t) = put txt /\ clean txt /\ ref_parse df txt = Some (norm pf t).
Proof.
  intros Hpt Hemb Hint Hany Hp.
  destruct (tree_text point pf (has_flag df JSON_REJECT_DUPLICATES) (has_flag df JSON_ALLOW_NUL) Hpt
              (Z.to_nat JSON_PARSER_MAX_DEPTH) 0 t Hp) as (txt & Hprint & Hc & Hr).
  exists txt. split; [|split; [done|]].
  - unfold print_json. rewrite Hemb, (clear_embed_id _ Hemb), Hprint.
    destruct Hany as [Hc'|[-> _]]; [|done].
    destruct t; try done; cbn [view_of negb]; by rewrite andb_false_r.
  - unfold ref_parse. rewrite (text_of_utf8 txt) by apply Hc. rewrite Hint.
    destruct (Hr [] I) as (tok & s & Hs & [_ Hst] & Hv). rewrite app_nil_r in Hs. rewrite Hs. cbn [mbind option_bind].
    assert (negb (has_flag df JSON_DECODE_ANY) && negb (is_tok tok (chr "[")) && negb (is_tok tok (chr "{")) = false) as ->.
    { destruct Hany as [Hc'|[_ ->]]; [|done].
      destruct t; try done; rewrite Hst; by rewrite ?andb_false_r. }
    rewrite Hv. cbn [mbind option_bind]. destruct (has_flag df JSON_DISABLE_EOF_CHECK); done.
Qed.


(* ------------------------------------------------------------------ *)
(** ** An example value *)

Definition example_text : bytes := text "{'k': [1.5, true, 'x']}".
Definition example_tree : json :=
  JObject [(lit "k", JArray [JReal (S754_finite false 6755399441055744 (-52)); JTrue; JString (lit "x")])].
Definition example_world : world := outcome (json_loads (chr ".") (Some example_text) 0 None).

(** The value that a client has decoded. *)
Lemma decoded_held txt t l :
  ref_parse 0 txt = Some t -> is_cstr txt -> Z.of_nat (length txt) < 2 ^ 31 ->
  match json_loads (chr ".") (Some txt) 0 None (world_init [] 5) with inr ((r, _), _) => r = Some l | inl _ => False end ->
  let w := outcome (json_loads (chr ".") (Some txt) 0 None) in Inv w {[+ l +]} ∅ /\ sees w [] l (view_of t).
Proof.
  intros Hp Hc Hlen Hr. destruct (json_loads_spec (chr ".") 0 None txt (world_init [] 5) ∅) as (r & e & w & E & _ & H);
    [done|apply inv_init|done..|].
  unfold outcome in *. rewrite E in *. subst r. rewrite Hp in H. destruct H as (l' & [= <-] & Hinv & Ht).
  rewrite gmultiset_disj_union_left_id in Hinv. split; [done|]. eapply tree_sees; [done|done|]. by intros m Hm%elem_of_nil.
Qed.

Lemma example_held :
  Inv example_world {[+ 4%positive +]} ∅ /\ sees example_world [] 4%positive (view_of example_tree).
Proof. apply decoded_held; [vm_compute; reflexivity|by repeat constructor|done|vm_compute; reflexivity]. Qed.

Lemma example_printable allow_nul n : (3 <= n)%nat -> printable 2 allow_nul n example_tree.
Proof.
  intros Hn. destruct n as [|[|[|n]]]; [lia|lia|lia|]. cbn [printable example_tree].
  assert (Hu : forall c, utf8 (lit (String c EmptyString)) \/ (128 <= chr c)).
  { intros c. destruct (Z_lt_le_dec (chr c) 128); [|by right]. left. apply utf8_ascii. unfold chr in *. lia. }
  split; [apply NoDup_singleton|]. constructor; [|constructor]. cbn [fst snd].
  split; [split; [by destruct (Hu "k"%char)|done]|].
  constructor; [by repeat split|]. constructor; [done|]. constructor; [|constructor].
  split; [by destruct (Hu "x"%char)|by right].
Qed.

(** Two arrays that contain each other. *)
Definition cyclic_client : W json_ptr :=
  let* a := json_array in
  let* b := json_array in
  let* a := json_incref a in
  let* b := json_incref b in
  let* _ := json_array_append_new a b in
  let* _ := json_array_append_new b a in
  ret a.
Definition cyclic_world : world := outcome cyclic_client.

Lemma array_bodies w w' l xs :
  (forall m b, body_at w m b -> body_at w' m b) -> array_at w l xs -> array_at w' l xs.
Proof. intros Hb (a & Ha & Hok). exists a. split; [by apply Hb|done]. Qed.

Lemma array_cross w w' rs rs' (l m : loc) xs :
  Inv w rs ∅ -> Inv w' rs' ∅ -> frame {[m]} w w' -> l <> m -> l ∈ rs' -> array_at w l xs -> array_at w' l xs.
Proof.
  intros H1 H2 H3 Hne Hl. eapply array_keep; [done|done|done| |set_solver].
  apply gmultiset_elem_of_disj_union. by right.
Qed.

Lemma cyclic_arrays :
  wp cyclic_client (world_init [] 5) (fun r w => exists a b, r = Some a /\ a <> b /\
    Inv w ({[+ a +]} ⊎ {[+ b +]}) ∅ /\ array_at w a [b] /\ array_at w b [a]).
Proof.
  unfold cyclic_client. wp_step. eapply wp_mono; [apply (json_array_spec _ ∅ ∅), inv_init|].
  intros r w1 (F1 & _ & R1 & H1). destruct r as [a|]; [|by destruct H1 as [_ []]].
  destruct H1 as (I1 & _ & _ & A1). rewrite gmultiset_disj_union_left_id in I1.
  assert (O1 : w_oom w1 = []) by by apply (fr_oom _ _ _ F1).
  wp_step. eapply wp_mono; [apply (json_array_spec _ _ ∅ I1)|].
  intros r w2 (F2 & B2 & R2 & H2). destruct r as [b|]; [|by destruct H2 as [_ []]].
  destruct H2 as (I2 & _ & Nb & A2b). assert (Hab : a <> b) by multiset_solver.
  pose proof (array_bodies _ _ _ _ B2 A1) as A2a.
  assert (O2 : w_oom w2 = []) by by apply (fr_oom _ _ _ F2).
  assert (Hr2 : refs (w_heap w2) = ∅) by (rewrite R2, R1; vm_compute; reflexivity).
  wp_step. eapply wp_mono; [apply (json_incref_spec _ _ ∅ a I2); [multiset_solver|]|].
  { rewrite Hr2, !multiplicity_disj_union, multiplicity_empty, !multiplicity_singleton.
    unfold SIZE_MAX. repeat case_decide; lia. }
  intros r w3 (-> & I3 & R3 & F3 & B3 & O3 & _). rewrite O2 in O3.
  wp_step. eapply wp_mono; [apply (json_incref_spec _ _ ∅ b I3); [multiset_solver|]|].
  { rewrite R3, Hr2, !multiplicity_disj_union, multiplicity_empty, !multiplicity_singleton.
    unfold SIZE_MAX. repeat case_decide; lia. }
  intros r w4 (-> & I4 & R4 & F4 & B4 & O4 & _). rewrite O3 in O4.
  pose proof (array_bodies _ _ _ _ B4 (array_bodies _ _ _ _ B3 A2a)) as A4a.
  pose proof (array_bodies _ _ _ _ B4 (array_bodies _ _ _ _ B3 A2b)) as A4b.
  wp_step. eapply wp_mono; [apply (json_array_append_new_spec _ _ ∅ a [] b I4 A4a); [multiset_solver|done|done]|].
  intros r w5 (I5 & F5 & _ & H5). destruct H5 as [[-> A5a]|(_ & _ & H)]; [|by rewrite O4 in H].
  assert (A5b : array_at w5 b []) by (eapply (array_cross w4 w5); [exact I4|exact I5|exact F5|done|multiset_solver|done]).
  assert (O5 : w_oom w5 = []) by by apply (fr_oom _ _ _ F5).
  wp_step. eapply wp_mono; [apply (json_array_append_new_spec _ _ ∅ b [] a I5 A5b); [multiset_solver|done|done]|].
  intros r w6 (I6 & F6 & _ & H6). destruct H6 as [[-> A6b]|(_ & _ & H)]; [|by rewrite O5 in H].
  rewrite wp_ret. exists a, b. split; [done|]. split; [done|]. split; [done|]. split; [|done].
  eapply (array_cross w5 w6); [exact I5|exact I6|exact F6|done|multiset_solver|done].
Qed.

Lemma cyclic_held :
  exists b, Inv cyclic_world ({[+ 4%positive +]} ⊎ {[+ b +]}) ∅ /\
    sees cyclic_world [] 4%positive (VArray [VArray [VLoop]]).
Proof.
  destruct (wp_inv _ _ _ cyclic_arrays) as (r & w & E & a & b & -> & Hab & Hinv & Ha & Hb).
  assert (Hw : cyclic_world = w)
    by exact (f_equal (fun r => match r with inr (_, w) => w | inl _ => world_init [] 5 end) E).
  assert (Hr : a = 4%positive) by (clear - E; vm_compute in E; by injection E as <- _).
  subst a. rewrite Hw. clear E Hw. exists b. split; [done|].
  pose proof Ha as (x & Hx & _).
  apply (sees_array _ _ _ [b]); [apply not_elem_of_nil|done|]. constructor; [|constructor].
  apply (sees_array _ _ _ [4%positive]); [by rewrite list_elem_of_singleton|done|]. constructor; [|constructor].
  apply (sees_loop _ _ _ (Array x)); [by do 2 constructor|done|done].
Qed.

(* ------------------------------------------------------------------ *)
(** ** Properties *)

(** C2. A value survives encoding and decoding: for every value a client holds
    that is a tree [t] of UTF-8 strings, 64-bit integers and finite reals, at
    most 2048 deep, with any indentation, escaping and sorting flags and in
    any locale, [json_dumps] writes a text, changes nothing, and [json_loads]
    reads the text as a new value that is [norm t]: the same tree, with the
    members in the order they were written and the reals to the digits that
    were written. *)
Theorem json_dumps_loads point point' pf df error w roots l t :
  Inv w roots ∅ -> l ∈ roots -> w_oom w = [] -> fits w -> sees w [] l (view_of t) ->
  point_prints point -> point_ok point' ->
  has_flag pf JSON_EMBED = false -> has_flag df JSON_DECODE_INT_AS_REAL = false ->
  is_container t = true \/ has_flag pf JSON_ENCODE_ANY = true /\ has_flag df JSON_DECODE_ANY = true ->
  printable pf (has_flag df JSON_ALLOW_NUL) (Z.to_nat JSON_PARSER_MAX_DEPTH) t ->
  Z.of_nat (length (print_json point pf (view_of t)).1) < 2 ^ 31 ->
  exists s, json_dumps point (Some l) pf w = inr (Some s, w) /\
    exists r e w', json_loads point' (Some s) df error w = inr ((r, e), w') /\
      decoded w roots (Some (norm pf t)) r e w'.
Proof.
  intros Hinv Hl Ho Hfits Hsees Hpt Hpt' Hemb Hint Hany Hp Hlen.
  destruct (held_view w roots l Hinv Hl Hfits) as [Htv _].
  destruct (parse_print point pf df t Hpt Hemb Hint Hany Hp) as (txt & Htxt & [Hu Hc] & Hparse).
  exists txt. rewrite (json_dumps_nil point pf w l _ Ho Htv Hsees) by lia. rewrite Htxt in *. cbn [fst snd put] in *.
  split; [by rewrite until_nul_cstr|]. rewrite <- Hparse. by apply json_loads_spec.
Qed.

Lemma json_dumps_loads_witness :
  exists s, json_dumps (chr ",") (Some 4%positive) 2 example_world = inr (Some s, example_world) /\
    exists r e w', json_loads (chr ".") (Some s) 0 None example_world = inr ((r, e), w') /\
      decoded example_world {[+ 4%positive +]} (Some (norm 2 example_tree)) r e w'.
Proof.
  destruct example_held as [Hinv Hsees].
  apply (json_dumps_loads (chr ",") (chr ".") 2 0 None example_world {[+ 4%positive +]} 4%positive example_tree).
  - exact Hinv.
  - multiset_solver.
  - vm_compute. reflexivity.
  - vm_compute. split; done.
  - exact Hsees.
  - done.
  - done.
  - reflexivity.
  - reflexivity.
  - by left.
  - apply example_printable. apply Nat2Z.inj_le. rewrite Z2Nat.id; unfold JSON_PARSER_MAX_DEPTH; lia.
  - vm_compute. reflexivity.
Defined.

(** C16. [json_dumps] follows the reference encoder on every value a client
    holds, shared, nested or cyclic, and with any allocation failures: it
    returns, the world is as before whatever the outcome, and a value that the
    reference refuses has no text; if memory does not run out, the text is the
    reference text of the value. *)
Theorem json_dumps_correct point flags w roots l :
  Inv w roots ∅ -> l ∈ roots -> fits w ->
  exists v, sees w [] l v /\
    (Z.of_nat (length (print_json point flags v).1) < 2 ^ 60 ->
     exists r o, json_dumps point (Some l) flags w = inr (r, set_oom o w) /\
       ((print_json point flags v).2 = false -> r = None) /\
       (w_oom w = [] -> o = [] /\
        r = if (print_json point flags v).2 then Some (until_nul (print_json point flags v).1) else None)).
Proof.
  intros Hinv Hl Hf. destruct (held_view w roots l Hinv Hl Hf) as [Htv [v Hv]].
  exists v. split; [done|]. intros Hlen. destruct (json_dumps_spec point flags w l v Htv Hv Hlen) as (r & o & H1 & H2 & H3 & _). by exists r, o.
Qed.

Lemma json_dumps_correct_witness :
  exists v, sees example_world [] 4%positive v /\
    (Z.of_nat (length (print_json (chr ".") JSON_SORT_KEYS v).1) < 2 ^ 60 ->
     exists r o, json_dumps (chr ".") (Some 4%positive) JSON_SORT_KEYS example_world = inr (r, set_oom o example_world) /\
       ((print_json (chr ".") JSON_SORT_KEYS v).2 = false -> r = None) /\
       (w_oom example_world = [] -> o = [] /\
        r = if (print_json (chr ".") JSON_SORT_KEYS v).2
            then Some (until_nul (print_json (chr ".") JSON_SORT_KEYS v).1) else None)).
Proof.
  destruct example_held as [Hinv _].
  apply (json_dumps_correct (chr ".") JSON_SORT_KEYS example_world {[+ 4%positive +]}).
  - exact Hinv.
  - multiset_solver.
  - vm_compute. split; done.
Defined.

(** C22. A value that contains itself has no text: the loop check ends the
    recursion, whether memory runs out or not, [json_dumps] returns NULL and
    the world is as before. *)
Theorem json_dumps_cyclic point flags w roots l v :
  Inv w roots ∅ -> l ∈ roots -> fits w -> sees w [] l v ->
  (forall t, v <> view_of t) -> Z.of_nat (length (print_json point flags v).1) < 2 ^ 60 ->
  exists o, json_dumps point (Some l) flags w = inr (None, set_oom o w).
Proof.
  intros Hinv Hl Hf Hv Hloop Hlen. destruct (held_view w roots l Hinv Hl Hf) as [Htv _].
  destruct (json_dumps_spec point flags w l v Htv Hv Hlen) as (r & o & E & Hr & _). exists o. rewrite E.
  destruct (print_json point flags v).2 eqn:E'; [|by rewrite Hr].
  destruct (print_json_tree w l v point flags Hv E') as [t Ht]. by destruct (Hloop t).
Qed.

Lemma json_dumps_cyclic_witness : exists o, json_dumps (chr ".") (Some 4%positive) 0 cyclic_world = inr (None, set_oom o cyclic_world).
Proof.
  destruct cyclic_held as (b & Hinv & Hsees).
  apply (json_dumps_cyclic (chr ".") 0 cyclic_world ({[+ 4%positive +]} ⊎ {[+ b +]}) 4%positive (VArray [VArray [VLoop]])).
  - exact Hinv.
  - multiset_solver.
  - vm_compute. split; done.
  - exact Hsees.
  - intros [ms|[|[ms'|[|[] ts2]|s|z|d| | |] ts]|s|z|d| | |]; discriminate.
  - vm_compute. reflexivity.
Defined.

(** C26. [json_dumpb] never writes outside the buffer, whatever fails; if memory
    does not run out it returns the length of the whole text, so that a caller
    can size the buffer, and if the text fits it is in the buffer. *)
Theorem json_dumpb_correct point flags w roots l v buffer :
  Inv w roots ∅ -> l ∈ roots -> fits w -> sees w [] l v ->
  Z.of_nat (length (print_json point flags v).1) < 2 ^ 63 ->
  let s := (print_json point flags v).1 in
  exists r buffer' o, json_dumpb point (Some l) buffer (Z.of_nat (length buffer)) flags w = inr ((r, buffer'), set_oom o w) /\
    length buffer' = length buffer /\ 0 <= r <= Z.of_nat (length s) /\
    (w_oom w = [] -> o = [] /\ r = (if (print_json point flags v).2 then Z.of_nat (length s) else 0) /\
     ((length s <= length buffer)%nat -> take (length s) buffer' = Some <$> s)).
Proof.
  intros Hinv Hl Hf Hv Hlen s. destruct (held_view w roots l Hinv Hl Hf) as [Htv _].
  destruct (json_dumpb_spec point flags w l v buffer _ Htv Hv Hlen eq_refl) as (r & b' & o & E & H1 & H2 & H3).
  exists r, b', o. split; [done|]. split; [done|]. split; [done|]. intros Ho. destruct (H3 Ho) as (H4 & H5 & H6).
  split; [done|]. split; [done|]. intros H. apply H6. unfold s in H. lia.
Qed.

Lemma json_dumpb_correct_witness :
  let s := (print_json (chr ".") JSON_COMPACT (view_of example_tree)).1 in
  exists r buffer' o, json_dumpb (chr ".") (Some 4%positive) (mem_alloc 64) 64 JSON_COMPACT example_world =
    inr ((r, buffer'), set_oom o example_world) /\ length buffer' = 64%nat /\ 0 <= r <= Z.of_nat (length s) /\
    (w_oom example_world = [] -> o = [] /\ r = Z.of_nat (length s) /\ ((length s <= 64)%nat -> take (length s) buffer' = Some <$> s)).
Proof.
  destruct example_held as [Hinv Hsees].
  apply (json_dumpb_correct (chr ".") JSON_COMPACT example_world {[+ 4%positive +]} 4%positive
           (view_of example_tree) (mem_alloc 64)).
  - exact Hinv.
  - multiset_solver.
  - vm_compute. split; done.
  - exact Hsees.
  - vm_compute. reflexivity.
Defined.

(** *** What the code does not guarantee *)

(** A write that fails inside a key goes unnoticed: the sink takes every write
    but the third one, the text lacks the key, and the result is 0. *)
Example json_dumpf_lost_key :
  match run_dump (json_dump_callback dump_to_file (chr ".") (Some 4%positive) 0)
          {| f_out := []; f_results := [true; true; false] |}
          (outcome (json_loads (chr ".") (Some (text "{'a': null}")) 0 None)) with
  | inr ((r, f), _) => r = 0 /\ f_out f = text "{': null}"
  | inl _ => False
  end.
Proof. vm_compute. split; reflexivity. Qed.

(** The token buffer is full and the next allocation fails. *)
Definition starved (s : lstate) (saved : bytes) : Prop :=
  sb_rep (lx_saved (l_lex s)) saved /\ sb_size (lx_saved (l_lex s)) = Z.of_nat (length saved) + 1 /\
  sb_size (lx_saved (l_lex s)) <= SB_LIMIT /\ exists o, w_oom (l_world s) = false :: o.

Lemma append_starved sb saved b o : sb_rep sb saved -> sb_size sb = Z.of_nat (length saved) + 1 -> sb_size sb <= SB_LIMIT ->
  strbuffer_append_byte sb b (false :: o) = inr ((-1, sb), o).
Proof.
  intros (blk & Hv & Hl & Hm & Hlen & Hlt & Hc & Hn) Hfull Hlim.
  unfold strbuffer_append_byte, strbuffer_append_bytes, STRBUFFER_SIZE_MAX, STRBUFFER_FACTOR, SB_LIMIT, SIZE_MAX in *.
  rewrite Hlen, Hfull. cbn [length].
  replace (size_t (Z.of_nat (length saved) + 1 - Z.of_nat (length saved))) with 1 by (rewrite size_t_small; unfold SIZE_MAX; lia).
  change (1 <=? Z.of_nat 1) with true. cbv iota.
  rewrite (proj2 (Z.ltb_ge _ _)) by (change ((2 ^ 64 - 1) / 2) with (2 ^ 63 - 1); lia). change (2 ^ 64 - 1 - 1 <? Z.of_nat 1) with false.
  rewrite (proj2 (Z.ltb_ge _ _)) by (rewrite size_t_small; unfold SIZE_MAX; lia). cbn [orb].
  unfold jsonp_malloc. rewrite (proj2 (Z.eqb_neq _ _)); [done|]. rewrite !size_t_small by (unfold SIZE_MAX; lia). lia.
Qed.

Lemma unget_saved c s s2 : stream_unget c s = inr (tt, s2) -> lx_saved (l_lex s2) = lx_saved (l_lex s).
Proof.
  unfold stream_unget, get_stream, put_stream, upd_lex, get_lex, gets, modify, bind, require, assert_, ret, fail.
  repeat case_match; intros E; simplify_eq; done.
Qed.
Lemma pop_rep sb saved d o : sb_rep sb (saved ++ [d]) -> is_byte d ->
  exists sb', strbuffer_pop sb o = inr ((schar d, sb'), o) /\ sb_rep sb' saved.
Proof.
  intros Hrep Hd. destruct (sb_ok_pop (Z.to_nat (sb_size sb)) sb saved d) as (sb' & E & [Hsb' _]); [|done|].
  - split; [done|]. destruct Hrep as (blk & _ & _ & Hm & Hlen & Hlt & _). lia.
  - exists sb'. split; [|done]. revert E. unfold strbuffer_pop, bind. destruct (0 <? sb_length sb); [|by intros [= <- <-]].
    destruct (sb_value sb) as [blk|]; [|done]. cbn [require ret].
    destruct (mem_load blk _ 1) as [c|]; [|done]. cbn [require ret]. destruct (mem_store blk _ [0]) as [v|]; [|done]. cbn. by intros [= <- <-].
Qed.
(** C37. The decoder loses bytes without memory, and nobody is told.  For every
    lexer whose token buffer is full when an allocation fails: [lex_save]
    returns as if it had saved the byte, with the text of the token, the stream
    and the error report as they were, and the token lacks the byte.  When the
    scanner then takes the byte back with [lex_unget_unsave], as it does at the
    end of every number, the byte before it is removed instead if it is equal,
    and else the assertion of [lex_unget_unsave] fails. *)
Theorem lex_save_lossy s saved b d :
  starved s (saved ++ [d]) -> is_byte b -> is_byte d ->
  exists s', lex_save (schar b) s = inr (tt, s') /\ l_lex s' = l_lex s /\ l_error s' = l_error s /\
    sb_rep (lx_saved (l_lex s')) (saved ++ [d]) /\
    (forall s2, stream_unget (schar b) s' = inr (tt, s2) -> is_end (schar b) = false ->
      if decide (b = d)
      then exists s3, lex_unget_unsave (schar b) s' = inr (tt, s3) /\ sb_rep (lx_saved (l_lex s3)) saved
      else lex_unget_unsave (schar b) s' = inl AssertFailure).
Proof.
  intros (Hrep & Hfull & Hlim & o & Ho) Hb Hd. unfold lex_save, get_lex.
  assert (E : in_alloc (strbuffer_append_byte (lx_saved (l_lex s)) (schar b)) s = inr ((-1, lx_saved (l_lex s)), set_world (set_oom o (l_world s)) s)).
  { unfold in_alloc, in_world, zoom, run_am, zoom. rewrite Ho. by rewrite (append_starved _ _ _ o Hrep Hfull Hlim). }
  unfold bind at 1 2, gets. rewrite E. unfold upd_lex, modify. set (s' := set_lex _ _).
  assert (Eself : l_lex s' = l_lex s) by (cbn; by destruct (l_lex s)).
  exists s'. split; [done|]. split; [done|]. split; [done|]. split; [by rewrite Eself|].
  intros s2 Hun Hend. pose proof (unget_saved _ _ _ Hun) as Hsame. rewrite Eself in Hsame.
  destruct (pop_rep _ saved d (w_oom (l_world s2)) Hrep Hd) as (sb' & Epop & Hsb').
  assert (Ep : in_alloc (strbuffer_pop (lx_saved (l_lex s2))) s2 = inr ((schar d, sb'), set_world (set_oom (w_oom (l_world s2)) (l_world s2)) s2)).
  { unfold in_alloc, in_world, zoom, run_am, zoom. by rewrite Hsame, Epop. }
  set (s3 := set_world (set_oom (w_oom (l_world s2)) (l_world s2)) s2) in *.
  assert (Eall : lex_unget_unsave (schar b) s' = assert_ (schar b =? schar d) (set_lex (lex_with_saved sb' (l_lex s3)) s3)).
  { unfold lex_unget_unsave, get_lex. rewrite Hend. unfold bind at 1. rewrite Hun. unfold bind at 1 2, gets. by rewrite Ep. }
  rewrite Eall. unfold assert_. case_decide as Hbd.
  - subst d. rewrite Z.eqb_refl. eexists. split; [reflexivity|]. done.
  - rewrite (proj2 (Z.eqb_neq _ _)); [done|]. intros Eq. by apply Hbd, schar_inj.
Qed.
(** The lexer behind the digit 6 of "1234567890123456", with 15 digits saved. *)
Definition full_lexer : lstate := {|
  l_lex := {| lx_stream := {| s_input := [Some (chr ",")]; s_buffer := [chr "6"; 0; 0; 0; 0]; s_pos := 1; s_state := STREAM_STATE_OK;
                              s_line := 1; s_column := 16; s_last_column := 0; s_position := 16 |};
              lx_saved := {| sb_value := Some (Some <$> lit "123456789012345" ++ [0]); sb_length := 15; sb_size := 16 |};
              lx_flags := 0; lx_depth := 0; lx_token := TOKEN_INVALID; lx_string := None; lx_integer := 0; lx_real := S754_zero false |};
  l_error := None; l_world := world_init [false] 5 |}.

Lemma lex_save_lossy_witness :
  exists s', lex_save (schar (chr "6")) full_lexer = inr (tt, s') /\ l_lex s' = l_lex full_lexer /\ l_error s' = l_error full_lexer /\
    sb_rep (lx_saved (l_lex s')) (lit "12345678901234" ++ [chr "5"]) /\
    (forall s2, stream_unget (schar (chr "6")) s' = inr (tt, s2) -> is_end (schar (chr "6")) = false ->
      if decide (chr "6" = chr "5")
      then exists s3, lex_unget_unsave (schar (chr "6")) s' = inr (tt, s3) /\ sb_rep (lx_saved (l_lex s3)) (lit "12345678901234")
      else lex_unget_unsave (schar (chr "6")) s' = inl AssertFailure).
Proof.
  apply (lex_save_lossy full_lexer (lit "12345678901234") (chr "6") (chr "5")).
  - split; [|split; [reflexivity|split; [vm_compute; discriminate|exists []; reflexivity]]].
    eexists. split; [reflexivity|]. split; [reflexivity|]. split; [vm_compute; discriminate|]. split; [reflexivity|]. split; [reflexivity|].
    split; reflexivity.
  - vm_compute. split; [discriminate|reflexivity].
  - vm_compute. split; [discriminate|reflexivity].
Defined.

(** Three of the ways in which a whole text then fares: the last digit of a
    number is lost and the wrong number accepted; the assertion fails; the
    closing quote of a string is lost, and [lex_scan_string] reads and writes
    behind the ends of its buffers. *)
Example json_loads_starved :
  match json_loads (chr ".") (Some (text "[1234567890123456]")) 0 None (world_init [true; true; true; false] 5) with
  | inr ((l, _), w) => json_dumps (chr ".") l JSON_COMPACT w = inr (Some (text "[123456789012345]"), w)
  | inl _ => False
  end /\
  json_loads (chr ".") (Some (text "[1234567890123456]")) 0 None (world_init [true; true; true; false; false] 5) = inl AssertFailure /\
  json_loads (chr ".") (Some (text "['12345678901234']")) 0 None (world_init [true; true; true; false] 5) = inl UndefinedBehaviour.
Proof.
  split; [vm_compute; reflexivity|]. split; vm_compute; reflexivity.
Qed.

(** The encoder survives, but a key that could not be written for lack of
    memory goes unnoticed in the same way: the text is not that of the value. *)
Example json_dumps_lost_key :
  match json_dumps (chr ".") (Some 4%positive) 0
          (set_oom [true; true; true; false] (outcome (json_loads (chr ".") (Some (text "{'abcdefghijklmnopqrst': 1}")) 0 None))) with
  | inr (t, _) => t = Some (text "{': 1}")
  | inl _ => False
  end.
Proof. vm_compute. reflexivity. Qed.

(** A NUL byte behind a number is lost: the text is accepted. *)
Example json_loadb_nul_behind_number :
  ref_parse 0 ([chr "["; chr "1"; 0; chr "]"]) = Some (JArray [JInteger 1]).
Proof. vm_compute. reflexivity. Qed.
