(* ===== verification/Equal.v ===== *)
(** * Equality of values

    [json_equal] compares two values structurally: arrays element by element,
    objects member by member whatever their order, reals as C compares
    doubles.  The comparison is an equivalence, and follows no pointer but
    those of the two values. *)

From stdpp Require Import gmultiset.
From Stdlib Require Import SpecFloat.
From S2P Require Import Prelude Utf8 Strbuffer Dlist Hashtable Value Arrays Refcount ValueSpec Iterate.
From S2P Require Import Client Strconv Load Dump Grammar Tree Building Print Views Dumps Codec.

(* ------------------------------------------------------------------ *)
(** ** Trees *)

Lemma json_nested_ind (P : json -> Prop) :
  (forall ms, Forall (fun m => P m.2) ms -> P (JObject ms)) ->
  (forall ts, Forall P ts -> P (JArray ts)) ->
  (forall s, P (JString s)) -> (forall z, P (JInteger z)) -> (forall d, P (JReal d)) ->
  P JTrue -> P JFalse -> P JNull -> forall t, P t.
Proof.
  intros Ho Ha Hs Hz Hd Ht Hf Hn. fix IH 1. intros [ms|ts|s|z|d| | |].
  - apply Ho. induction ms as [|m ms IHms]; constructor; [apply IH|exact IHms].
  - apply Ha. induction ts as [|t ts IHts]; constructor; [apply IH|exact IHts].
  - apply Hs.
  - apply Hz.
  - apply Hd.
  - exact Ht.
  - exact Hf.
  - exact Hn.
Qed.

(** The reference equality. *)
Fixpoint json_eqb (t1 t2 : json) {struct t1} : bool :=
  match t1, t2 with
  | JObject ms1, JObject ms2 =>
      (length ms1 =? length ms2)%nat &&
      forallb (fun m => match alookup m.1 ms2 with Some u => json_eqb m.2 u | None => false end) ms1
  | JArray ts1, JArray ts2 =>
      (length ts1 =? length ts2)%nat &&
      (fix elements (xs ys : list json) : bool :=
         match xs, ys with
         | x :: xs, y :: ys => json_eqb x y && elements xs ys
         | _, _ => true
         end) ts1 ts2
  | JString s1, JString s2 => bytes_eqb s1 s2
  | JInteger z1, JInteger z2 => z1 =? z2
  | JReal d1, JReal d2 => SFeqb d1 d2
  | JTrue, JTrue | JFalse, JFalse | JNull, JNull => true
  | _, _ => false
  end.

(** What the invariant guarantees of the trees in the heap. *)
Fixpoint well_formed (t : json) : Prop :=
  match t with
  | JObject ms =>
      NoDup ms.*1 /\
      (fix all (ms : list (bytes * json)) : Prop :=
         match ms with [] => True | m :: ms => well_formed m.2 /\ all ms end) ms
  | JArray ts =>
      (fix all (ts : list json) : Prop := match ts with [] => True | t :: ts => well_formed t /\ all ts end) ts
  | JReal d => not_finite d = false
  | _ => True
  end.

Lemma well_formed_object ms : well_formed (JObject ms) <-> NoDup ms.*1 /\ Forall (fun m => well_formed m.2) ms.
Proof.
  cbn [well_formed]. apply and_iff_compat_l. induction ms as [|m ms IH]; [by rewrite Forall_nil|].
  by rewrite Forall_cons, IH.
Qed.
Lemma well_formed_array ts : well_formed (JArray ts) <-> Forall well_formed ts.
Proof. cbn [well_formed]. induction ts as [|t ts IH]; [by rewrite Forall_nil|]. by rewrite Forall_cons, IH. Qed.

(** ** What the reference equality means *)

Definition is_zero (d : double) : bool := match d with S754_zero _ => true | _ => false end.

Lemma SFeqb_spec d1 d2 :
  not_finite d1 = false -> not_finite d2 = false ->
  SFeqb d1 d2 = true <-> d1 = d2 \/ is_zero d1 = true /\ is_zero d2 = true.
Proof.
  intros H1 H2. destruct d1 as [s1|s1| |s1 m1 e1], d2 as [s2|s2| |s2 m2 e2]; try done; unfold SFeqb; cbn.
  - split; [by right|done].
  - destruct s2; split; [done| |done|]; intros [?|[]]; done.
  - destruct s1; split; [done| |done|]; intros [?|[]]; done.
  - split.
    + intros H. left. destruct s1, s2; try done; destruct (Z.compare_spec e1 e2) as [->| |]; try done;
        destruct (Pos.compare_cont Eq m1 m2) eqn:E; try done; 
        change (Pos.compare_cont Eq m1 m2) with (m1 ?= m2)%positive in E;
        by apply Pos.compare_eq in E as ->.
    + intros [[= -> -> ->]|[]]; [|done]. rewrite Z.compare_refl. change (Pos.compare_cont Eq m2 m2) with (m2 ?= m2)%positive.
      rewrite Pos.compare_refl. by destruct s2.
Qed.

Lemma bytes_eqb_spec s1 s2 : bytes_eqb s1 s2 = true <-> s1 = s2.
Proof. unfold bytes_eqb. apply bool_decide_eq_true. Qed.

Lemma json_eqb_array ts1 ts2 :
  json_eqb (JArray ts1) (JArray ts2) = true <-> Forall2 (fun t u => json_eqb t u = true) ts1 ts2.
Proof.
  cbn [json_eqb]. rewrite andb_true_iff, Nat.eqb_eq. revert ts2.
  induction ts1 as [|t ts1 IH]; intros [|u ts2]; cbn [length].
  - split; [constructor|intros _; split; reflexivity].
  - split; [by intros [[=] _]|by inversion 1].
  - split; [by intros [[=] _]|by inversion 1].
  - rewrite andb_true_iff. specialize (IH ts2). split.
    + intros ([= Hlen] & Ht & Hts). constructor; [done|]. by apply IH.
    + intros H. inversion H; subst. destruct (proj2 IH) as [-> ?]; [done|]. by split_and!.
Qed.

Lemma json_eqb_object ms1 ms2 :
  json_eqb (JObject ms1) (JObject ms2) = true <->
  length ms1 = length ms2 /\
  Forall (fun m => exists u, alookup m.1 ms2 = Some u /\ json_eqb m.2 u = true) ms1.
Proof.
  cbn [json_eqb]. rewrite andb_true_iff, Nat.eqb_eq, forallb_forall, Forall_forall.
  apply and_iff_compat_l. split.
  - intros H m Hm. specialize (H m). rewrite <- list_elem_of_In in H. specialize (H Hm).
    destruct (alookup m.1 ms2) as [u|]; [|done]. by exists u.
  - intros H m Hm. rewrite <- list_elem_of_In in Hm. destruct (H m Hm) as (u & -> & Hu). done.
Qed.

Lemma alookup_elem {V} k (v : V) l : alookup k l = Some v -> (k, v) ∈ l.
Proof.
  induction l as [|[k' v'] l IH]; cbn [alookup]; [done|]. case_decide as E.
  - intros [= ->]. subst. by left.
  - intros H. right. auto.
Qed.
Lemma elem_alookup {V} k (v : V) l : NoDup l.*1 -> (k, v) ∈ l -> alookup k l = Some v.
Proof.
  intros Hnd (l1 & l2 & ->)%list_elem_of_split. apply alookup_split.
  rewrite fmap_app in Hnd. apply NoDup_app in Hnd as (_ & Hd & _). intros Hin. by apply (Hd _ Hin), elem_of_cons; left.
Qed.

(** The reference equality is an equivalence on well-formed trees. *)
Lemma json_eqb_refl t : well_formed t -> json_eqb t t = true.
Proof.
  induction t as [ms IH|ts IH|s|z|d| | |] using json_nested_ind; intros Hwf; try done.
  - apply well_formed_object in Hwf as [Hnd Hwf]. apply json_eqb_object. split; [done|].
    apply Forall_forall. intros [k t] Hm. exists t. split; [by apply elem_alookup|].
    rewrite Forall_forall in IH, Hwf. by apply (IH _ Hm), (Hwf _ Hm).
  - rewrite well_formed_array in Hwf. apply json_eqb_array.
    induction IH as [|t ts Ht _ IHts]; [constructor|]. apply Forall_cons in Hwf as [Hwf1 Hwf2]. constructor; auto.
  - by apply bytes_eqb_spec.
  - apply Z.eqb_refl.
  - apply SFeqb_spec; [done..|by left].
Qed.

Lemma json_eqb_sym t1 t2 : well_formed t1 -> well_formed t2 -> json_eqb t1 t2 = true -> json_eqb t2 t1 = true.
Proof.
  revert t2. induction t1 as [ms1 IH|ts1 IH|s1|z1|d1| | |] using json_nested_ind;
    intros [ms2|ts2|s2|z2|d2| | |] H1 H2; try done.
  - apply well_formed_object in H1 as [Hnd1 H1]. apply well_formed_object in H2 as [Hnd2 H2].
    rewrite !json_eqb_object. intros [Hlen Hall]. split; [done|]. rewrite Forall_forall in IH, H1, H2, Hall.
    assert (Hsub : ms1.*1 ⊆ ms2.*1).
    { intros k ([k' t] & -> & Hm)%list_elem_of_fmap. destruct (Hall _ Hm) as (u & Hu & _).
      apply list_elem_of_fmap. exists (k', u). split; [done|]. by apply alookup_elem. }
    assert (Hperm : ms1.*1 ≡ₚ ms2.*1).
    { apply submseteq_length_Permutation; [by apply NoDup_submseteq|]. rewrite !length_fmap. lia. }
    apply Forall_forall. intros [k u] Hm. cbn [fst snd].
    assert (Hk : k ∈ ms1.*1) by (rewrite Hperm; by apply (list_elem_of_fmap_2 fst ms2 (k, u))).
    apply list_elem_of_fmap in Hk as ([k' t] & Ek & Ht). cbn in Ek. subst k'.
    exists t. split; [by apply elem_alookup|]. destruct (Hall _ Ht) as (u' & Hu' & Heq). cbn [fst snd] in *.
    rewrite (elem_alookup k u ms2) in Hu' by done. injection Hu' as <-.
    by apply (IH _ Ht); [apply (H1 _ Ht)|apply (H2 _ Hm)|].
  - rewrite well_formed_array in H1, H2. rewrite !json_eqb_array. intros H. apply Forall2_flip.
    eapply Forall2_same_length_lookup_2; [by apply Forall2_length in H|]. intros i t u Ht Hu.
    rewrite Forall_lookup in IH, H1, H2. eapply IH; eauto. by apply (Forall2_lookup_lr _ _ _ _ _ _ H Ht Hu).
  - cbn. rewrite !bytes_eqb_spec. done.
  - cbn. rewrite !Z.eqb_eq. done.
  - cbn. rewrite !SFeqb_spec by done. naive_solver.
Qed.

Lemma json_eqb_trans t1 t2 t3 :
  well_formed t1 -> well_formed t2 -> well_formed t3 ->
  json_eqb t1 t2 = true -> json_eqb t2 t3 = true -> json_eqb t1 t3 = true.
Proof.
  revert t2 t3. induction t1 as [ms1 IH|ts1 IH|s1|z1|d1| | |] using json_nested_ind;
    intros [ms2|ts2|s2|z2|d2| | |] [ms3|ts3|s3|z3|d3| | |] H1 H2 H3; try done.
  - apply well_formed_object in H1 as [_ H1]. apply well_formed_object in H2 as [_ H2].
    apply well_formed_object in H3 as [_ H3].
    rewrite !json_eqb_object. intros [L1 A1] [L2 A2]. split; [congruence|].
    rewrite Forall_forall in IH, H1, H2, H3, A1, A2. apply Forall_forall. intros [k t] Hm.
    destruct (A1 _ Hm) as (u & Hu & E1). cbn [fst snd] in *. pose proof (alookup_elem _ _ _ Hu) as Hu'.
    destruct (A2 _ Hu') as (v & Hv & E2). cbn [fst snd] in *. exists v. split; [done|].
    pose proof (alookup_elem _ _ _ Hv) as Hv'.
    by apply (IH _ Hm u v); [apply (H1 _ Hm)|apply (H2 _ Hu')|apply (H3 _ Hv')|..].
  - rewrite well_formed_array in H1, H2, H3. rewrite !json_eqb_array. intros A1 A2.
    pose proof (Forall2_length _ _ _ A1). pose proof (Forall2_length _ _ _ A2).
    apply Forall2_same_length_lookup_2; [congruence|]. intros i t v Ht Hv.
    destruct (Forall2_lookup_l _ _ _ _ _ A1 Ht) as (u & Hu & E1).
    pose proof (Forall2_lookup_lr _ _ _ _ _ _ A2 Hu Hv) as E2. rewrite Forall_lookup in IH, H1, H2, H3. by apply (IH i t Ht u v); [apply (H1 i)|apply (H2 i)|apply (H3 i)|..].
  - cbn. rewrite !bytes_eqb_spec. congruence.
  - cbn. rewrite !Z.eqb_eq. congruence.
  - cbn. rewrite !SFeqb_spec by done. naive_solver.
Qed.

(* ------------------------------------------------------------------ *)
(** ** Values in the heap *)

Lemma array_at_fun w l xs ys : array_at w l xs -> array_at w l ys -> xs = ys.
Proof.
  intros (a & Hb & Ha) (a' & Hb' & Ha'). pose proof (body_at_fun _ _ _ _ Hb Hb') as [= <-].
  apply array_items_ok in Ha, Ha'. congruence.
Qed.
Lemma object_at_perm w l items items' : object_at w l items -> object_at w l items' -> items ≡ₚ items'.
Proof.
  intros (ht & Hb & xs & Hwf) (ht' & Hb' & xs' & Hwf'). pose proof (body_at_fun _ _ _ _ Hb Hb') as [= <-].
  assert (Hnd : forall xs items, ht_wf (w_seed w) ht xs items -> NoDup items).
  { intros ys its H. pose proof (wf_keys _ _ _ _ H) as Hk. by apply NoDup_fmap_1 in Hk. }
  apply NoDup_Permutation; [by eapply Hnd|by eapply Hnd|]. intros [n pr].
  by rewrite <- (wf_pairs _ _ _ _ Hwf), <- (wf_pairs _ _ _ _ Hwf').
Qed.

(** The view of a node that is a tree, without the views. *)
Section shapes.
Context (w : world) (anc : list loc) (l : loc).

Lemma sees_JArray ts :
  sees w anc l (view_of (JArray ts)) ->
  l ∉ anc /\ exists xs, array_at w l xs /\ Forall2 (fun x t => sees w (l :: anc) x (view_of t)) xs ts.
Proof.
  cbn [view_of]. intros H. inversion H as [| |? ? xs vs Hl Ha Hvs|]; subst. split; [done|]. exists xs. split; [done|].
  by apply (Forall2_fmap_r view_of) in Hvs.
Qed.
Lemma sees_JObject ms :
  sees w anc l (view_of (JObject ms)) ->
  l ∉ anc /\ exists items, object_at w l items /\
    Forall2 (fun a m => a.1 = m.1 /\ sees w (l :: anc) a.2 (view_of m.2)) (kvs items) ms.
Proof.
  cbn [view_of]. intros H. inversion H as [| | |? ? items vs Hl Ho Hvs]; subst. split; [done|]. exists items.
  split; [done|]. by apply (Forall2_fmap_r (fun m : bytes * json => (m.1, view_of m.2))) in Hvs.
Qed.

Definition leaf_of (t : json) : option body :=
  match t with
  | JString s => Some (Str s)
  | JInteger z => Some (Integer z)
  | JReal d => Some (Real d)
  | JTrue => Some True_
  | JFalse => Some False_
  | JNull => Some Null_
  | _ => None
  end.
Lemma sees_leaf_of t b : leaf_of t = Some b -> sees w anc l (view_of t) -> body_at w l b.
Proof. intros Hb H. destruct t; simplify_eq/=; by inversion H. Qed.

Definition type_of_tree (t : json) : json_type :=
  match t with
  | JObject _ => JSON_OBJECT | JArray _ => JSON_ARRAY | JString _ => JSON_STRING | JInteger _ => JSON_INTEGER
  | JReal _ => JSON_REAL | JTrue => JSON_TRUE | JFalse => JSON_FALSE | JNull => JSON_NULL
  end.
Lemma sees_type t : sees w anc l (view_of t) -> exists b, body_at w l b /\ type_of b = type_of_tree t.
Proof.
  intros H. destruct (leaf_of t) as [b|] eqn:E.
  - exists b. split; [by eapply sees_leaf_of|]. by destruct t; simplify_eq/=.
  - destruct t; try done.
    + apply sees_JObject in H as (_ & items & (ht & Hb & _) & _). by eexists.
    + apply sees_JArray in H as (_ & xs & (a & Hb & _) & _). by eexists.
Qed.
End shapes.

Lemma same_leaf w anc anc' l t t' :
  sees w anc' l (view_of t') -> sees w anc l (view_of t) -> is_Some (leaf_of t) -> t = t'.
Proof.
  intros H' H [b Hb]. pose proof (sees_leaf_of _ _ _ _ _ Hb H) as H1.
  destruct (sees_type _ _ _ _ H') as (b' & H2 & Et). pose proof (body_at_fun _ _ _ _ H1 H2). subst b'.
  assert (Ht : type_of_tree t = type_of_tree t') by (rewrite <- Et; by destruct t; simplify_eq/=).
  destruct (leaf_of t') as [b'|] eqn:Hb'; [|by destruct t, t'].
  pose proof (body_at_fun _ _ _ _ H1 (sees_leaf_of _ _ _ _ _ Hb' H')). subst b'. by destruct t, t'; simplify_eq/=.
Qed.

(** The constants are compared by their addresses. *)
Lemma static_same w roots l l' b :
  Inv w roots ∅ -> body_at w l b -> body_at w l' b -> ~ body_ok (w_seed w) b -> l = l'.
Proof.
  intros Hinv Hb Hb' Hok.
  assert (Hs : forall m, body_at w m b -> m ∈ statics).
  { intros m Hm. destruct (decide (m ∈ statics)); [done|]. by destruct Hok; eapply leaf_body. }
  destruct (static_body _ _ _ _ _ Hinv Hb (Hs _ Hb)) as [[-> E]|[[-> E]|[-> E]]];
    destruct (static_body _ _ _ _ _ Hinv Hb' (Hs _ Hb')) as [[-> E']|[[-> E']|[-> E']]]; congruence.
Qed.

Section heap.
Context (w : world) (roots : gmultiset loc) (Hinv : Inv w roots ∅).

Lemma sees_well_formed t anc l : sees w anc l (view_of t) -> well_formed t.
Proof using Hinv.
  revert anc l. induction t as [ms IH|ts IH|s|z|d| | |] using json_nested_ind; intros anc l H; try done.
  - apply sees_JObject in H as (_ & items & (ht & _ & xs & Hwf) & Hms). apply well_formed_object. split.
    + pose proof (wf_keys _ _ _ _ Hwf) as Hk. rewrite keys_kvs in Hk. replace ms.*1 with (kvs items).*1; [done|].
      clear - Hms. induction Hms as [|a m as_ ms [E _] _ IH]; [done|]. cbn. by rewrite E, IH.
    + rewrite Forall_lookup in IH |- *. intros i m Hm. destruct (Forall2_lookup_r _ _ _ _ _ Hms Hm) as (a & _ & _ & Ha).
      by eapply IH.
  - apply sees_JArray in H as (_ & xs & _ & Hts). apply well_formed_array.
    rewrite Forall_lookup in IH |- *. intros i t Ht. destruct (Forall2_lookup_r _ _ _ _ _ Hts Ht) as (a & _ & Ha).
    by eapply IH.
  - pose proof (sees_leaf_of w anc l (JReal d) _ eq_refl H) as Hb. destruct (decide (l ∈ statics)) as [Hs|Hs].
    + by destruct (static_body _ _ _ _ _ Hinv Hb Hs) as [[_ [=]]|[[_ [=]]|[_ [=]]]].
    + by apply (leaf_body _ _ _ _ _ Hinv Hb Hs).
Qed.

(** A node is equal to itself. *)
Lemma sees_same t : forall anc anc' l t', sees w anc l (view_of t) -> sees w anc' l (view_of t') -> json_eqb t t' = true.
Proof using Hinv.
  induction t as [ms IH|ts IH|s|z|d| | |] using json_nested_ind; intros anc anc' l t' H H'.
  1: destruct (sees_type _ _ _ _ H') as (b' & Hb' & Et); apply sees_JObject in H as (_ & items & Ho & Hms);
     pose proof Ho as (ht & Hb & _); pose proof (body_at_fun _ _ _ _ Hb Hb'); subst b'; destruct t' as [ms'| | | | | | |]; try done;
     apply sees_JObject in H' as (_ & items' & Ho' & Hms');
     pose proof (object_at_perm _ _ _ _ Ho Ho') as Hperm.
  2: destruct (sees_type _ _ _ _ H') as (b' & Hb' & Et); apply sees_JArray in H as (_ & xs & Ha & Hts);
     pose proof Ha as (a & Hb & _); pose proof (body_at_fun _ _ _ _ Hb Hb'); subst b'; destruct t' as [|ts'| | | | | |]; try done;
     apply sees_JArray in H' as (_ & xs' & Ha' & Hts'); pose proof (array_at_fun _ _ _ _ Ha Ha'); subst xs'.
  3-8: pose proof (sees_well_formed _ _ _ H) as Hwf; pose proof (same_leaf _ _ _ _ _ _ H' H (ex_intro _ _ eq_refl)); subst t'; by apply json_eqb_refl.
  - apply json_eqb_object. split.
    { apply Forall2_length in Hms, Hms'. unfold kvs in *. rewrite length_fmap in *. rewrite Hperm in Hms. congruence. }
    apply Forall_lookup. intros i m Hm. destruct (Forall2_lookup_r _ _ _ _ _ Hms Hm) as (a & Ha & Ek & Hx).
    assert (Ha' : a ∈ kvs items') by (unfold kvs; rewrite <- Hperm; by eapply list_elem_of_lookup_2).
    apply list_elem_of_lookup in Ha' as (j & Hj). destruct (Forall2_lookup_l _ _ _ _ _ Hms' Hj) as ([k' t'] & Hm' & Ek' & Hx').
    cbn [fst snd] in *. exists t'. split.
    + rewrite <- Ek, Ek'. apply elem_alookup; [|by eapply list_elem_of_lookup_2].
      destruct Ho' as (ht' & _ & xs & Hwf). pose proof (wf_keys _ _ _ _ Hwf) as Hk. rewrite keys_kvs in Hk.
      replace ms'.*1 with (kvs items').*1; [done|].
      clear - Hms'. induction Hms' as [|a m as_ ms [E _] _ IH]; [done|]. cbn. by rewrite E, IH.
    + rewrite Forall_lookup in IH. by eapply (IH i m Hm).
  - apply json_eqb_array. apply Forall2_same_length_lookup_2.
    { apply Forall2_length in Hts, Hts'. congruence. }
    intros i t t' Ht Ht'. destruct (Forall2_lookup_r _ _ _ _ _ Hts Ht) as (x & Hx & Hs).
    pose proof (Forall2_lookup_lr _ _ _ _ _ _ Hts' Hx Ht') as Hs'. rewrite Forall_lookup in IH. exact (IH i t Ht _ _ _ _ Hs Hs').
Qed.

(** ** [json_equal] *)

(** [f] compares the node [x], a tree [t], with any other tree. *)
Definition compares (f : json_ptr -> json_ptr -> W bool) (x : loc) (t : json) : Prop :=
  forall anc2 y u, sees w anc2 y (view_of u) ->
  wp (f (Some x) (Some y)) w (fun r w' => w' = w /\ r = json_eqb t u).

Lemma array_equal_loop_spec f l1 l2 anc2 xs ys i ts us :
  array_at w l1 xs -> array_at w l2 ys -> length ts = length us ->
  Forall2 (compares f) (drop i xs) ts -> Forall2 (fun y u => sees w anc2 y (view_of u)) (drop i ys) us ->
  wp (array_equal_loop f l1 l2 (length ts) (Z.of_nat i)) w (fun r w' =>
    w' = w /\ (r = true <-> Forall2 (fun t u => json_eqb t u = true) ts us)).
Proof using.
  intros Hx Hy. revert i us. induction ts as [|t ts IH]; intros i [|u us] Hlen Hts Hus; try discriminate Hlen; cbn [array_equal_loop length].
  - rewrite wp_ret. split; [done|]. by split; [constructor|].
  - inversion Hts as [|x ? xs' ? Hxt Hts' Ex]; subst. inversion Hus as [|y ? ys' ? Hyu Hus' Ey]; subst.
    assert (Hxi : xs !! i = Some x) by (by rewrite <- (Nat.add_0_r i), <- lookup_drop, <- Ex).
    assert (Hyi : ys !! i = Some y) by (by rewrite <- (Nat.add_0_r i), <- lookup_drop, <- Ey).
    wp_step. eapply wp_mono; [apply json_array_get_spec; [done|lia]|]. cbv beta. intros ? ? [-> ->]. rewrite Nat2Z.id, Hxi.
    wp_step. eapply wp_mono; [apply json_array_get_spec; [done|lia]|]. cbv beta. intros ? ? [-> ->]. rewrite Nat2Z.id, Hyi.
    wp_step. eapply wp_mono; [by apply (Hxt anc2 y u)|]. intros r ? [-> ->]. destruct (json_eqb t u) eqn:E; cbn [negb].
    + replace (Z.of_nat i + 1) with (Z.of_nat (S i)) by lia.
      rewrite (drop_S _ _ _ Hxi) in Ex. injection Ex as ->. rewrite (drop_S _ _ _ Hyi) in Ey. injection Ey as ->.
      eapply wp_mono; [apply (IH (S i) us); [by injection Hlen|done|done]|].
      intros r w' [-> Hr]. split; [done|]. rewrite Hr. split; [by constructor|by inversion 1].
    + rewrite wp_ret. split; [done|]. split; [done|]. inversion 1; congruence.
Qed.

Lemma json_array_equal_spec f l1 l2 anc2 xs ts us :
  array_at w l1 xs -> Forall2 (compares f) xs ts -> sees w anc2 l2 (view_of (JArray us)) ->
  wp (json_array_equal f l1 l2) w (fun r w' => w' = w /\ r = json_eqb (JArray ts) (JArray us)).
Proof using.
  intros Hx Hts H2. apply sees_JArray in H2 as (_ & ys & Hy & Hus). unfold json_array_equal.
  wp_step. eapply wp_mono; [by apply json_array_size_spec|]. cbv beta. intros ? ? [-> ->].
  wp_step. eapply wp_mono; [by apply json_array_size_spec|]. cbv beta. intros ? ? [-> ->].
  pose proof (Forall2_length _ _ _ Hts) as L1. pose proof (Forall2_length _ _ _ Hus) as L2.
  destruct (Z.eqb_spec (Z.of_nat (length xs)) (Z.of_nat (length ys))) as [E|E]; cbn [negb].
  - rewrite Nat2Z.id, L1. eapply wp_mono; [by apply (array_equal_loop_spec f l1 l2 (l2 :: anc2) xs ys 0 ts us); [| |lia|..]|].
    intros r w' [-> Hr]. split; [done|]. apply eq_true_iff_eq. by rewrite Hr, json_eqb_array.
  - rewrite wp_ret. split; [done|]. symmetry. apply not_true_is_false. rewrite json_eqb_array. intros H%Forall2_length. lia.
Qed.

Lemma json_object_equal_spec f l1 l2 anc2 items ms us :
  (forall x, wp (f (Some x) None) w (fun r w' => w' = w /\ r = false)) ->
  object_at w l1 items -> Forall2 (fun a m => a.1 = m.1 /\ compares f a.2 m.2) (kvs items) ms ->
  sees w anc2 l2 (view_of (JObject us)) ->
  wp (json_object_equal f l1 l2) w (fun r w' => w' = w /\ r = json_eqb (JObject ms) (JObject us)).
Proof using.
  intros Hnone Hx Hms H2. pose proof H2 as H2'. apply sees_JObject in H2 as (_ & items2 & Hy & Hus). unfold json_object_equal.
  wp_step. eapply wp_mono; [by apply json_object_size_spec|]. cbv beta. intros ? ? [-> ->].
  wp_step. eapply wp_mono; [by apply json_object_size_spec|]. cbv beta. intros ? ? [-> ->].
  pose proof (Forall2_length _ _ _ Hms) as L1. pose proof (Forall2_length _ _ _ Hus) as L2.
  unfold kvs in L1, L2. rewrite length_fmap in L1, L2. cbn [json_eqb].
  destruct (Z.eqb_spec (Z.of_nat (length items)) (Z.of_nat (length items2))) as [E|E]; cbn [negb].
  2:{ rewrite wp_ret. split; [done|]. rewrite (proj2 (Nat.eqb_neq _ _)) by lia. done. }
  rewrite (proj2 (Nat.eqb_eq _ _)), andb_true_l by lia. set (eqm := fun m : bytes * json => _). wp_step.
  apply (wp_object_foreach l1 items _ (fun i w' => w' = w /\ forallb eqm (take i ms) = true)).
  - intros i w' [-> _]. by exists items.
  - intros i k v w' Hkv [-> Hall]. destruct (Forall2_lookup_l _ _ _ _ _ Hms Hkv) as ([k' t] & Hm & Ek & Hc).
    cbn [fst snd] in Ek, Hc. subst k'. wp_step. eapply wp_mono; [by apply json_object_get_spec|]. cbv beta. intros ? ? [-> ->].
    wp_step. eapply (wp_mono _ _ (fun e w' => w' = w /\ e = eqm (k, t))).
    + unfold eqm. cbn [fst snd]. 
      assert (Hl : match alookup k (kvs items2), alookup k us with
        | Some y, Some u => sees w (l2 :: anc2) y (view_of u) | None, None => True | _, _ => False end).
      { clear - Hus. induction Hus as [|[k1 y] [k2 u] as_ us [Ek Hs] _ IH]; [done|]. cbn in Ek. subst k2. cbn [alookup].
        by case_decide. }
      destruct (alookup k (kvs items2)) as [y|], (alookup k us) as [u|]; try done; by apply (Hc (l2 :: anc2)).
    + intros e w' [-> ->]. rewrite wp_ret. destruct (eqm (k, t)) eqn:Em; cbn [negb].
      * split; [done|]. rewrite (take_S_r _ _ _ Hm), forallb_app, Hall. cbn [forallb]. by rewrite Em.
      * rewrite wp_ret. split; [done|]. symmetry. apply not_true_is_false. rewrite forallb_forall. intros H.
        rewrite (H (k, t)) in Em; [done|]. apply list_elem_of_In. by eapply list_elem_of_lookup_2.
  - intros w' [-> Hall]. rewrite wp_ret. split; [done|]. by rewrite take_ge in Hall by lia.
  - done.
Qed.

Lemma equal_fuel_spec fuel : forall t anc l, sees w anc l (view_of t) -> path_ok w anc ->
  (size (w_heap w) < length anc + fuel)%nat -> compares (equal_fuel fuel) l t.
Proof using Hinv.
  induction fuel as [|fuel IH]; intros t anc l Ht Hpath Hf anc2 l2 u Hu.
  { pose proof (path_length _ _ Hpath). lia. }
  cbn [equal_fuel]. destruct (sees_type _ _ _ _ Ht) as (b1 & Hb1 & E1). destruct (sees_type _ _ _ _ Hu) as (b2 & Hb2 & E2).
  wp_step. eapply wp_json_typeof; [exact Hb1|]. wp_step. eapply wp_json_typeof; [exact Hb2|]. rewrite E1, E2.
  case_bool_decide as Et; cbn [negb].
  2:{ rewrite wp_ret. split; [done|]. by destruct t, u. }
  case_bool_decide as El.
  { subst l2. rewrite wp_ret. split; [done|]. symmetry. by eapply sees_same. }
  assert (Hpath' : l ∉ anc -> path_ok w (l :: anc)).
  { intros Hn. split; [constructor; [done|apply (path_nodup _ _ Hpath)]|].
    intros m [->|Hm]%elem_of_cons; [destruct Hb1 as (n & Hn' & _); by exists n|by apply (path_heap _ _ Hpath)]. }
  destruct t as [ms|ts|s|z|d| | |], u as [us|us|s'|z'|d'| | |]; try done; cbn [type_of_tree].
  - apply sees_JObject in Ht as (Hn & items & Ho & Hms). specialize (Hpath' Hn).
    apply (json_object_equal_spec _ l l2 anc2 items ms us); try done.
    + intros x. pose proof (path_length _ _ Hpath') as Hlen. simpl in Hlen. destruct fuel as [|fuel]; [lia|].
      cbn [equal_fuel]. by rewrite wp_ret.
    + eapply Forall2_impl; [exact Hms|]. intros a m [Ek Hs]. split; [done|]. eapply IH; [exact Hs|done|simpl; lia].
  - apply sees_JArray in Ht as (Hn & xs & Ha & Hts). specialize (Hpath' Hn).
    apply (json_array_equal_spec _ l l2 anc2 xs ts us); try done.
    eapply Forall2_impl; [exact Hts|]. intros x t Hs. eapply IH; [exact Hs|done|simpl; lia].
  - apply (sees_leaf_of _ _ _ _ (Str s)) in Ht as (n1 & Hn1 & Eb1); [|done].
    apply (sees_leaf_of _ _ _ _ (Str s')) in Hu as (n2 & Hn2 & Eb2); [|done].
    unfold json_string_equal, json_to_string. wp_step. wp_step. eapply wp_deref; [exact Hn1|]. rewrite Eb1. wp_step.
    wp_step. wp_step. eapply wp_deref; [exact Hn2|]. rewrite Eb2. wp_step. by rewrite wp_ret.
  - apply (sees_leaf_of _ _ _ _ (Integer z)) in Ht as (n1 & Hn1 & Eb1); [|done].
    apply (sees_leaf_of _ _ _ _ (Integer z')) in Hu as (n2 & Hn2 & Eb2); [|done].
    unfold json_integer_equal, json_integer_value. wp_step. wp_step. eapply wp_deref; [exact Hn1|]. rewrite Eb1. wp_step.
    wp_step. wp_step. eapply wp_deref; [exact Hn2|]. rewrite Eb2. wp_step. by rewrite wp_ret.
  - apply (sees_leaf_of _ _ _ _ (Real d)) in Ht as (n1 & Hn1 & Eb1); [|done].
    apply (sees_leaf_of _ _ _ _ (Real d')) in Hu as (n2 & Hn2 & Eb2); [|done].
    unfold json_real_equal, json_real_value. wp_step. wp_step. eapply wp_deref; [exact Hn1|]. rewrite Eb1. wp_step.
    wp_step. wp_step. eapply wp_deref; [exact Hn2|]. rewrite Eb2. wp_step. by rewrite wp_ret.
  - destruct El. exact (static_same w roots l l2 True_ Hinv (sees_leaf_of _ _ _ JTrue _ eq_refl Ht) (sees_leaf_of _ _ _ JTrue _ eq_refl Hu) id).
  - destruct El. exact (static_same w roots l l2 False_ Hinv (sees_leaf_of _ _ _ JFalse _ eq_refl Ht) (sees_leaf_of _ _ _ JFalse _ eq_refl Hu) id).
  - destruct El. exact (static_same w roots l l2 Null_ Hinv (sees_leaf_of _ _ _ JNull _ eq_refl Ht) (sees_leaf_of _ _ _ JNull _ eq_refl Hu) id).
Qed.

Lemma json_equal_spec l1 l2 anc2 t1 t2 :
  sees w [] l1 (view_of t1) -> sees w anc2 l2 (view_of t2) ->
  json_equal (Some l1) (Some l2) w = inr (json_eqb t1 t2, w).
Proof using Hinv.
  intros H1 H2. assert (H : wp (json_equal (Some l1) (Some l2)) w (fun r w' => w' = w /\ r = json_eqb t1 t2)).
  { unfold json_equal. wp_step. apply wp_gets. eapply equal_fuel_spec; [exact H1| |simpl; lia|exact H2].
    split; [constructor|]. by intros ? ?%elem_of_nil. }
  apply wp_inv in H as (r & w' & E & -> & ->). done.
Qed.
End heap.

(* ------------------------------------------------------------------ *)
(** ** The claim *)

(** C23. [json_equal] decides the reference equality of the trees at its
    arguments, in either order of the arguments, and changes nothing. *)
Theorem json_equal_correct w roots l1 l2 t1 t2 :
  Inv w roots ∅ -> sees w [] l1 (view_of t1) -> sees w [] l2 (view_of t2) ->
  json_equal (Some l1) (Some l2) w = inr (json_eqb t1 t2, w) /\
  json_equal (Some l2) (Some l1) w = inr (json_eqb t1 t2, w).
Proof.
  intros Hinv H1 H2. split; [by eapply json_equal_spec|]. rewrite (json_equal_spec w roots Hinv l2 l1 [] t2 t1 H2 H1).
  do 2 f_equal. apply eq_true_iff_eq. split; apply json_eqb_sym; by eapply sees_well_formed.
Qed.

(** Members in another order. *)
Definition shuffled_client : W (json_ptr * json_ptr) :=
  let* (a, _) := json_loads (chr ".") (Some (text "{'x': 1, 'y': [0.0]}")) 0 None in
  let* (b, _) := json_loads (chr ".") (Some (text "{'y': [-0.0], 'x': 1}")) 0 None in
  ret (a, b).

Lemma json_equal_correct_witness :
  json_equal (Some 4%positive) (Some 4%positive) example_world = inr (json_eqb example_tree example_tree, example_world).
Proof.
  destruct example_held as [Hinv Hsees].
  apply (json_equal_correct example_world {[+ 4%positive +]} 4%positive 4%positive example_tree example_tree);
    [exact Hinv|exact Hsees|exact Hsees].
Defined.

(** Objects with their members in another order are equal, and so are the two
    zeros. *)
Example json_equal_shuffled :
  match shuffled_client (world_init [] 5) with
  | inr ((a, b), w) => json_equal a b w = inr (true, w)
  | inl _ => False
  end.
Proof. vm_compute. reflexivity. Qed.
