(* ===== verification/Exact.v ===== *)
(** * Values come back exactly

    With 17 digits or more, the value that [json_loads] reads from what
    [json_dumps] has written is [json_equal] to the first one, and without
    sorting it is the same tree, down to the last bit of every real. *)

From stdpp Require Import gmultiset.
From Stdlib Require Import SpecFloat.
From S2P Require Import Prelude Utf8 Strbuffer Dlist Hashtable Value Arrays Refcount ValueSpec Iterate.
From S2P Require Import Client Error Strconv Load Dump Grammar Numbers Tree Decode.
From S2P Require Import Print Views Encode Dumps Reals RoundTrip Rounding Doubles Codec Equal.

Section writable.
Context (allow_nul : bool).

(** Trees of depth at most [depth] with the doubles of IEEE 754 as reals. *)
Fixpoint writable (depth : nat) (t : json) : Prop :=
  match depth with
  | O => False
  | S depth' =>
      match t with
      | JObject ms =>
          NoDup ms.*1 /\
          Forall (fun m => (utf8 m.1 /\ has_nul m.1 = false) /\ writable depth' m.2) ms
      | JArray ts => Forall (writable depth') ts
      | JString s => utf8 s /\ (allow_nul = true \/ has_nul s = false)
      | JInteger z => INT64_MIN <= z <= INT64_MAX
      | JReal d => valid_binary DBL_PREC DBL_EMAX d = true /\ not_finite d = false
      | _ => True
      end
  end.

Lemma double_ok_valid d : valid_binary DBL_PREC DBL_EMAX d = true -> not_finite d = false -> double_ok d.
Proof. intros Hv Hf. destruct d as [s|s| |s m e]; try done. pose proof (canonical_range _ _ (valid_canonical _ _ _ Hv)). cbn. lia. Qed.

Section flags.
Context (pf : Z) (Hprec : 17 <= precision_of (FLAGS_TO_PRECISION pf)).

Lemma writable_printable depth t : writable depth t -> printable pf allow_nul depth t.
Proof using Hprec.
  revert t. induction depth as [|depth IH]; [done|]. intros [ms|ts|s|z|d| | |]; cbn [writable printable]; try done.
  - intros [Hnd Hms]. split; [done|]. eapply Forall_impl; [exact Hms|]. intros m [Hk Hm]. auto.
  - intros Hts. by eapply Forall_impl; [exact Hts|].
  - intros [Hv Hf]. split; [by apply double_ok_valid|]. by rewrite reread_exact.
Qed.

Lemma norm_exact depth t : has_flag pf JSON_SORT_KEYS = false -> writable depth t -> norm pf t = t.
Proof using Hprec.
  intros Hsort. revert t. induction depth as [|depth IH]; [done|]. intros [ms|ts|s|z|d| | |]; cbn [writable norm]; try done.
  - intros [_ Hms]. f_equal. unfold in_order. rewrite Hsort. induction Hms as [|[k u] ms [_ Hu] _ IHms]; [done|].
    cbn in *. by rewrite (IH u Hu), IHms.
  - intros Hts. f_equal. induction Hts as [|u ts Hu _ IHts]; [done|]. cbn. by rewrite (IH u Hu), IHts.
  - intros [Hv Hf]. by rewrite reread_exact.
Qed.

(** Sorted or not, the tree that comes back is equal. *)
Lemma norm_equal depth t : writable depth t -> json_eqb t (norm pf t) = true.
Proof using Hprec.
  revert t. induction depth as [|depth IH]; [done|]. intros [ms|ts|s|z|d| | |]; cbn [writable norm]; try done.
  - intros [Hnd Hms]. set (ms' := map _ ms). assert (Hperm : in_order pf ms' ≡ₚ ms').
    { unfold in_order. case_match; [apply sort_members_perm|done]. }
    assert (Hkeys : ms'.*1 = ms.*1) by (unfold ms'; clear; induction ms as [|m ms IH]; [done|]; cbn in *; by rewrite IH).
    apply json_eqb_object. split; [by rewrite Hperm; unfold ms'; rewrite length_map|].
    rewrite Forall_forall in Hms |- *. intros m Hm. exists (norm pf m.2). split; [|by apply IH, Hms].
    apply elem_alookup; [by rewrite Hperm, Hkeys|]. rewrite Hperm. unfold ms'. apply list_elem_of_In, in_map_iff.
    exists m. by rewrite <- list_elem_of_In.
  - intros Hts. apply json_eqb_array. induction Hts as [|u ts Hu _ IHts]; constructor; auto.
  - intros _. by apply bytes_eqb_spec.
  - intros _. apply Z.eqb_refl.
  - intros [Hv Hf]. rewrite reread_exact by done. apply SFeqb_spec; auto.
Qed.
End flags.
End writable.

(** A tenth, the least double and the greatest one. *)
Definition doubles_text : bytes := text "{'b': [0.1, 5e-324, 1.7976931348623157e308], 'a': -0.0}".
Definition doubles_tree : json :=
  JObject [(lit "b", JArray [JReal (S754_finite false 7205759403792794 (-56)); JReal (S754_finite false 1 (-1074));
                             JReal (S754_finite false 9007199254740991 971)]);
           (lit "a", JReal (S754_zero true))].
Definition doubles_world : world := outcome (json_loads (chr ".") (Some doubles_text) 0 None).

Lemma doubles_held : Inv doubles_world {[+ 4%positive +]} ∅ /\ sees doubles_world [] 4%positive (view_of doubles_tree).
Proof. apply decoded_held; [vm_compute; reflexivity|by repeat constructor|done|vm_compute; reflexivity]. Qed.

Lemma doubles_writable allow_nul n : (3 <= n)%nat -> writable allow_nul n doubles_tree.
Proof.
  intros Hn. destruct n as [|[|[|n]]]; [lia..|]. cbn [writable doubles_tree].
  assert (Ha : utf8 (lit "a") /\ utf8 (lit "b")) by (split; by apply utf8_ascii).
  split; [by apply (bool_decide_unpack (NoDup _)); vm_compute|]. repeat constructor; try apply Ha; done.
Qed.

(* ------------------------------------------------------------------ *)
(** ** Properties *)

(** C3. Nothing is lost between [json_dumps] and [json_loads]: for every value
    a client holds that is a tree of UTF-8 strings, 64-bit integers and finite
    doubles, at most 2048 deep, with the default precision or one of 17 to 31
    digits, with any indentation, escaping and sorting flags and in any two
    locales, [json_dumps] writes a text and changes nothing, [json_loads]
    reads it as a new value that the client owns, and [json_equal] says that
    the two values are equal.  Without [JSON_SORT_KEYS] the new value is the
    same tree, with the members in the same order and every real the same
    double. *)
Theorem json_dumps_loads_exact point point' pf df error w roots l t :
  Inv w roots ∅ -> l ∈ roots -> w_oom w = [] -> fits w -> sees w [] l (view_of t) ->
  point_prints point -> point_ok point' ->
  has_flag pf JSON_EMBED = false -> has_flag df JSON_DECODE_INT_AS_REAL = false ->
  is_container t = true \/ has_flag pf JSON_ENCODE_ANY = true /\ has_flag df JSON_DECODE_ANY = true ->
  17 <= precision_of (FLAGS_TO_PRECISION pf) ->
  writable (has_flag df JSON_ALLOW_NUL) (Z.to_nat JSON_PARSER_MAX_DEPTH) t ->
  Z.of_nat (length (print_json point pf (view_of t)).1) < 2 ^ 31 ->
  exists s, json_dumps point (Some l) pf w = inr (Some s, w) /\
    exists l' e w', json_loads point' (Some s) df error w = inr ((Some l', e), w') /\
      Inv w' (roots ⊎ {[+ l' +]}) ∅ /\ json_equal (Some l) (Some l') w' = inr (true, w') /\
      (has_flag pf JSON_SORT_KEYS = false -> tree w' (w_next w) l' t).
Proof.
  intros Hinv Hl Ho Hfits Hsees Hpt Hpt' Hemb Hint Hany Hprec Hw Hlen.
  destruct (held_view w roots l Hinv Hl Hfits) as [Htv _].
  destruct (parse_print point pf df t Hpt Hemb Hint Hany (writable_printable _ pf Hprec _ _ Hw)) as (txt & Htxt & [Hu Hc] & Hparse).
  exists txt. rewrite (json_dumps_nil point pf w l _ Ho Htv Hsees) by lia. rewrite Htxt in *. cbn [fst snd put] in *.
  split; [by rewrite until_nul_cstr|].
  destruct (json_loads_spec point' df error txt w roots) as (r & e & w' & E & Hfr & H); [done..|]. rewrite Hparse in H.
  destruct H as (l' & -> & Hinv' & Htree). exists l', e, w'. split_and!; [done|done| |].
  - rewrite (json_equal_spec w' _ Hinv' l l' [] t (norm pf t)).
    + by rewrite (norm_equal _ pf Hprec _ _ Hw).
    + eapply sees_keep; [exact Hinv|exact Hinv'|exact Hfr| |exact Hsees].
      apply gmultiset_elem_of_disj_union. right. apply gmultiset_elem_of_disj_union. by left.
    + eapply tree_sees; [done|done|]. by intros ? ?%elem_of_nil.
  - intros Hsort. by rewrite (norm_exact _ pf Hprec _ _ Hsort Hw) in Htree.
Qed.

Lemma json_dumps_loads_exact_witness :
  exists s, json_dumps (chr ",") (Some 4%positive) JSON_SORT_KEYS doubles_world = inr (Some s, doubles_world) /\
    exists l' e w', json_loads (chr ".") (Some s) 0 None doubles_world = inr ((Some l', e), w') /\
      Inv w' ({[+ 4%positive +]} ⊎ {[+ l' +]}) ∅ /\ json_equal (Some 4%positive) (Some l') w' = inr (true, w') /\
      (has_flag JSON_SORT_KEYS JSON_SORT_KEYS = false -> tree w' (w_next doubles_world) l' doubles_tree).
Proof.
  destruct doubles_held as [Hinv Hsees].
  apply (json_dumps_loads_exact (chr ",") (chr ".") JSON_SORT_KEYS 0 None doubles_world {[+ 4%positive +]} 4%positive doubles_tree).
  - exact Hinv.
  - multiset_solver.
  - vm_compute. reflexivity.
  - vm_compute. split; done.
  - exact Hsees.
  - done.
  - done.
  - reflexivity.
  - reflexivity.
  - by left.
  - vm_compute. discriminate.
  - apply doubles_writable. apply Nat2Z.inj_le. rewrite Z2Nat.id; unfold JSON_PARSER_MAX_DEPTH; lia.
  - vm_compute. reflexivity.
Defined.
