(* ===== verification/Copy.v ===== *)
(** * Deep copies

    [json_deep_copy] of any value a client holds: a tree is copied to a tree
    of new nodes that shares nothing with it, a value that contains itself is
    refused, and nothing that existed is changed. *)

From stdpp Require Import gmultiset.
From Stdlib Require Import SpecFloat.
From S2P Require Import Prelude Utf8 Strbuffer Dlist Hashtable Value Arrays Refcount ValueSpec Iterate.
From S2P Require Import Client Strconv Load Dump Grammar Tree Building Print Views Dumps Codec Equal.

(** Arrays, strings and keys fit in memory. *)
Definition body_fits (b : body) : Prop :=
  match b with
  | Array a => a_entries a <= ARRAY_MAX
  | Str s => Z.of_nat (length s) < SIZE_MAX
  | Object ht => map_Forall (fun _ pr => Z.of_nat (length (p_key pr)) < MAX_KEY) (ht_pairs ht)
  | _ => True
  end.
#[export] Instance body_fits_dec b : Decision (body_fits b).
Proof. destruct b; cbn [body_fits]; apply _. Defined.
Definition contents_fit (w : world) : Prop := map_Forall (fun _ n => body_fits (n_body n)) (w_heap w).

Lemma cf_body w l b : contents_fit w -> body_at w l b -> body_fits b.
Proof. intros H (n & Hn & <-). by apply (H l n). Qed.
Lemma cf_arrays w l xs : contents_fit w -> array_at w l xs -> Z.of_nat (length xs) <= ARRAY_MAX.
Proof. intros H (a & Hb & Ha). rewrite <- (ar_entries _ _ Ha). apply (cf_body _ _ _ H Hb). Qed.
Lemma cf_keys w l items k : contents_fit w -> object_at w l items -> k ∈ keys items -> Z.of_nat (length k) < MAX_KEY.
Proof.
  intros H (ht & Hb & xs & Hwf) ([n pr] & -> & Hin)%list_elem_of_fmap.
  by apply (cf_body _ _ _ H Hb n), (wf_pairs _ _ _ _ Hwf).
Qed.

(** Constructors of arrays and leaves do not touch the seed. *)
Definition keeps_seed {A} (m : W A) : Prop :=
  forall w, match m w with inr (_, w') => w_seed w' = w_seed w | inl _ => True end.

Lemma keeps_seed_ret {A} (a : A) : keeps_seed (ret a).
Proof. done. Qed.
Lemma keeps_seed_bind {A B} (m : W A) (k : A -> W B) :
  keeps_seed m -> (forall a, keeps_seed (k a)) -> keeps_seed (bind m k).
Proof.
  intros Hm Hk w. unfold bind. specialize (Hm w). destruct (m w) as [|[a w1]]; [done|].
  specialize (Hk a w1). destruct (k a w1) as [|[b w2]]; [done|]. congruence.
Qed.
Lemma keeps_seed_am {A} (m : AM A) : keeps_seed (run_am m).
Proof. intros w. unfold run_am, zoom. by destruct (m (w_oom w)) as [|[a o]]. Qed.
Lemma keeps_seed_init b : keeps_seed (json_init b).
Proof. intros w. done. Qed.

Lemma wp_keeps_seed {A} (m : W A) w (Q : A -> world -> Prop) :
  keeps_seed m -> wp m w Q -> wp m w (fun r w' => Q r w' /\ w_seed w' = w_seed w).
Proof. intros Hm. unfold wp. specialize (Hm w). by destruct (m w) as [|[]]. Qed.

Ltac keeps_seed :=
  repeat first
    [ apply keeps_seed_ret | apply keeps_seed_am | apply keeps_seed_init
    | apply keeps_seed_bind; [|intros ?] | case_match ].

Lemma keeps_seed_array : keeps_seed json_array.
Proof. unfold json_array. keeps_seed. Qed.
Lemma keeps_seed_integer z : keeps_seed (json_integer z).
Proof. unfold json_integer. keeps_seed. Qed.
Lemma keeps_seed_real d : keeps_seed (json_real d).
Proof. unfold json_real. keeps_seed. Qed.
Lemma keeps_seed_string s : keeps_seed (json_stringn_nocheck s).
Proof. unfold json_stringn_nocheck, string_create. keeps_seed. Qed.

Section copy.
Context (w0 : world) (roots0 : gmultiset loc).
Hypothesis (Hinv0 : Inv w0 roots0 ∅) (Hfits : fits w0) (Hcf : contents_fit w0).

(** The states while values of [w0] are being copied. *)
Record during (w : world) (roots : gmultiset loc) : Prop := {
  du_inv : Inv w roots ∅;
  du_frame : frame ∅ w0 w;
  du_roots : roots0 ⊆ roots;
  du_seed : w_seed w = w_seed w0
}.

(** Values that stay alive. *)
Definition anchored (l : loc) : Prop :=
  forall w roots, during w roots -> l ∈ refs (w_heap w) ⊎ roots.

Lemma anchored_root l : l ∈ roots0 -> anchored l.
Proof.
  intros Hl w roots Hd. apply gmultiset_elem_of_disj_union. right.
  eapply gmultiset_elem_of_subseteq; [exact Hl|]. apply Hd.
Qed.

Lemma array_during l xs w roots :
  anchored l -> array_at w0 l xs -> during w roots -> array_at w l xs.
Proof using All.
  intros Hl Ha Hd. eapply (array_keep _ _ _ _ _ _ _ Hinv0 (du_inv _ _ Hd) (du_frame _ _ Hd)); [by apply Hl|apply not_elem_of_empty|done].
Qed.
Lemma object_during l items w roots :
  anchored l -> object_at w0 l items -> during w roots -> object_at w l items.
Proof using All.
  intros Hl Ha Hd. eapply (object_keep _ _ _ _ _ _ _ Hinv0 (du_inv _ _ Hd) (du_frame _ _ Hd)); [by apply Hl|apply not_elem_of_empty|done].
Qed.
Lemma body_during l b w roots : anchored l -> body_at w0 l b -> during w roots -> body_at w l b.
Proof using All.
  intros Hl Hb Hd. eapply (body_keep _ _ _ _ _ _ _ Hinv0 (du_inv _ _ Hd) (du_frame _ _ Hd)); [by apply Hl|apply not_elem_of_empty|done].
Qed.
Lemma anchored_element l xs x : anchored l -> array_at w0 l xs -> x ∈ xs -> anchored x.
Proof using All.
  intros Hl Ha Hx w roots Hd. eapply (array_child _ _ _ (du_inv _ _ Hd)); [by apply Hl|by eapply array_during|done].
Qed.
Lemma anchored_member l items a : anchored l -> object_at w0 l items -> a ∈ kvs items -> anchored a.2.
Proof using All.
  intros Hl Ha Hx w roots Hd. eapply (object_child _ _ _ (du_inv _ _ Hd)); [by apply Hl|by eapply object_during|done].
Qed.

(** A copy is refused if the value is not a tree, or for lack of memory. *)
Definition refused (v : view) : Prop := (forall t, v <> view_of t) \/ w_oom w0 <> [].

Lemma during_oom w roots : during w roots -> w_oom w <> [] -> w_oom w0 <> [].
Proof using. intros Hd H H0. by apply H, (fr_oom _ _ _ (du_frame _ _ Hd)). Qed.

(** The outcome of copying a value with the view [v]. *)
Definition copied (w : world) (roots : gmultiset loc) (v : view) (r : json_ptr) (w' : world) : Prop :=
  frame ∅ w w' /\ w_seed w' = w_seed w /\
  match r with
  | Some l' => exists t, v = view_of t /\ Inv w' (roots ⊎ {[+ l' +]}) ∅ /\ tree w' (w_next w) l' t
  | None => refused v /\ Inv w' roots ∅
  end.

(** [f] copies the value [x] with the view [v] behind the path [anc]. *)
Definition copies (f : json_ptr -> hashtable_t -> W (json_ptr * hashtable_t)) (anc : list loc)
    (x : loc) (v : view) : Prop :=
  forall w roots parents, during w roots -> parents_ok w0 anc parents ->
  wp (f (Some x) parents) w (fun r w' => copied w roots v r.1 w' /\ parents_ok w0 anc r.2).

(** ** Leaves *)

Lemma copied_new w roots (m : W json_ptr) (P : world -> loc -> Prop) t :
  during w roots -> keeps_seed m -> wp m w (new_post w roots ∅ P) ->
  (forall w' l, P w' l -> (w_next w <= l)%positive -> tree w' (w_next w) l t) ->
  wp m w (copied w roots (view_of t)).
Proof using.
  intros Hd Hm Hnew Ht. eapply wp_mono; [by apply wp_keeps_seed|]. intros r w' [Hpost Hs].
  pose proof Hpost as (Hfr & _ & _ & _). split; [done|]. split; [done|].
  destruct (new_post_cases _ _ _ _ _ Hpost) as [(l & -> & Hinv & Hl & HP)|(-> & Hinv & Ho)].
  - exists t. split_and!; [done|done|by apply Ht].
  - split; [right; by eapply during_oom|done].
Qed.

Lemma copies_leaf fuel anc l b : anchored l -> body_at w0 l b -> is_leaf b = true -> copies (do_deep_copy (S fuel)) anc l (VLeaf b).
Proof using All.
  intros Hl Hb Hlf w roots parents Hd Hp. pose proof (body_during l b w roots Hl Hb Hd) as Hbw.
  pose proof (du_inv _ _ Hd) as Hinv. cbn [do_deep_copy]. wp_step. eapply wp_json_typeof; [exact Hbw|].
  destruct (decide (l ∈ statics)) as [Hs|Hs].
  - assert (Hcopy : forall t, tree w (w_next w) l t -> copied w roots (view_of t) (Some l) w).
    { intros t Ht. split_and!; try done. exists t. split_and!; try done.
      eapply inv_static_root; [exact Hinv|]. intros m Hm. rewrite multiplicity_disj_union, multiplicity_singleton_ne; [lia|].
      by intros ->. }
    destruct (static_body _ _ _ _ _ Hinv Hbw Hs) as [[-> ->]|[[-> ->]|[-> ->]]]; cbn [type_of]; rewrite wp_ret; (split; [|done]).
    + apply (Hcopy JTrue). constructor.
    + apply (Hcopy JFalse). constructor.
    + apply (Hcopy JNull). constructor.
  - pose proof (leaf_body _ _ _ _ _ Hinv Hbw Hs) as Hok.
    assert (Hret : forall (m : W json_ptr) t, wp m w (copied w roots (view_of t)) ->
      wp (let* c := m in ret (c, parents)) w (fun r w' => copied w roots (view_of t) r.1 w' /\ parents_ok w0 anc r.2)).
    { intros m t Hm. wp_step. eapply wp_mono; [exact Hm|]. intros r w' Hr. rewrite wp_ret. by split. }
    destruct Hbw as (n & Hn & Eb).
    destruct b as [| |s|z|d| | |]; try done; cbn [type_of].
    + apply (Hret _ (JString s)). unfold json_string_copy, json_to_string. wp_step. wp_step. eapply wp_deref; [exact Hn|].
      rewrite Eb. cbv iota. wp_step.
      eapply copied_new; [done|apply keeps_seed_string|apply json_stringn_nocheck_spec; [done|by apply (cf_body _ _ _ Hcf Hb)]|].
      intros. by constructor.
    + apply (Hret _ (JInteger z)). unfold json_integer_copy, json_integer_value. wp_step. wp_step.
      eapply wp_deref; [exact Hn|].
      rewrite Eb. cbv iota. wp_step.
      eapply copied_new; [done|apply keeps_seed_integer|by apply json_integer_spec|].
      intros. by constructor.
    + apply (Hret _ (JReal d)). unfold json_real_copy, json_real_value. wp_step. wp_step.
      eapply wp_deref; [exact Hn|].
      rewrite Eb. cbv iota. wp_step.
      eapply copied_new; [done|apply keeps_seed_real|by apply json_real_spec|].
      intros. by constructor.
Qed.

(** ** Containers *)

Lemma parents_seed w anc parents : w_seed w = w_seed w0 -> parents_ok w anc parents <-> parents_ok w0 anc parents.
Proof using. intros E. unfold parents_ok. by rewrite E. Qed.

(** [l] is a new container, being filled since [wb]. *)
Record building (wb : world) (roots : gmultiset loc) (l : loc) (w : world) : Prop := {
  bu_during : during w (roots ⊎ {[+ l +]});
  bu_frame : frame ∅ wb w;
  bu_new : (w_next w0 <= w_next wb)%positive /\ (w_next wb <= l)%positive;
  bu_base : roots0 ⊆ roots /\ w_seed wb = w_seed w0
}.

(** A child is copied ([w1]) and put into the container ([w2]). *)
Lemma building_step wb roots l w w1 w2 :
  building wb roots l w -> frame ∅ w w1 -> frame {[l]} w1 w2 -> Inv w2 (roots ⊎ {[+ l +]}) ∅ ->
  w_seed w2 = w_seed w -> building wb roots l w2.
Proof using.
  intros [Hd Hfr Hnew Hbase] H1 H2 Hinv Hseed. split; try done.
  - split; [done| |apply (du_roots _ _ Hd)|].
    + eapply (frame_new ∅ w0 w1 w2 l); [|done|lia]. etransitivity; [apply Hd|done].
    + rewrite Hseed. apply (du_seed _ _ Hd).
  - eapply (frame_new ∅ wb w1 w2 l); [|done|lia]. by etransitivity.
Qed.

(** What a loop over the children leaves behind. *)
Definition filled (wb : world) (roots : gmultiset loc) (l : loc) (anc : list loc) (v : view)
    (r : bool * hashtable_t) (w : world) : Prop :=
  building wb roots l w /\ parents_ok w0 anc r.2 /\
  if r.1 then exists t, v = view_of t /\ tree w (w_next wb) l t else refused v.

Lemma deep_copy_out_spec wb roots l a anc v ok parents w :
  filled wb roots l (a :: anc) v (ok, parents) w ->
  wp (deep_copy_out (Some l) ok parents (loop_key a)) w (fun r w' =>
    copied wb roots v r.1 w' /\ parents_ok w0 anc r.2).
Proof using All.
  intros ([Hd Hfr Hnew [Hsub Hseed]] & Hp & Hv). cbn [fst snd] in *. unfold deep_copy_out.
  assert (Hdel : forall r w', copied wb roots v r w' -> (exists rs, Inv w' rs ∅) -> w_seed w' = w_seed w0 ->
    wp (let* parents := parents_del parents (loop_key a) in ret (r, parents)) w' (fun r w' =>
      copied wb roots v r.1 w' /\ parents_ok w0 anc r.2)).
  { intros r w' Hc [rs Hinv] Hs. apply (parents_seed w') in Hp; [|done].
    destruct (parents_del_spec w' (inv_quiet _ _ _ Hinv) anc parents a Hp) as (p' & Hp' & E).
    wp_step. eapply wp_eq; [exact E|]. rewrite wp_ret. split; [done|]. by apply (parents_seed w'). }
  destruct ok.
  - wp_step. wp_step. destruct Hv as (t & -> & Ht). apply Hdel.
    + split_and!; [done|rewrite (du_seed _ _ Hd); done|]. exists t. split_and!; [done|apply (du_inv _ _ Hd)|done].
    + eexists. apply (du_inv _ _ Hd).
    + apply (du_seed _ _ Hd).
  - wp_step. wp_step. eapply wp_mono; [apply json_decref_spec, (du_inv _ _ Hd)|]. intros _ w' (Hinv & Hsh & _). wp_step.
    assert (Hs : w_seed w' = w_seed w0) by (rewrite (sh_seed _ _ Hsh); apply (du_seed _ _ Hd)).
    apply Hdel; try done; [|by eexists].
    split_and!; [|congruence|done|done]. etransitivity; [exact Hfr|]. by apply shrink_frame.
Qed.

Lemma not_tree_element vs1 v vs2 :
  refused v -> refused (VArray (vs1 ++ v :: vs2)).
Proof using.
  intros [Hv|Ho]; [left|by right]. intros [ms|ts|s|z|d| | |]; cbn [view_of]; try done. intros [= E]. symmetry in E.
  apply map_eq_app in E as (ts1 & ts2 & _ & _ & E). apply map_eq_cons in E as (t & ts3 & _ & E & _). by apply (Hv t).
Qed.
Lemma not_tree_member ms1 k v ms2 :
  refused v -> refused (VObject (ms1 ++ (k, v) :: ms2)).
Proof using.
  intros [Hv|Ho]; [left|by right]. intros [ms|ts|s|z|d| | |]; cbn [view_of]; try done. intros [= E]. symmetry in E.
  apply map_eq_app in E as (ts1 & ts2 & _ & _ & E). apply map_eq_cons in E as (t & ts3 & _ & [= _ E] & _). by apply (Hv t.2).
Qed.

Section loops.
Context (copy : json_ptr -> hashtable_t -> W (json_ptr * hashtable_t)) (anc : list loc).
Context (wb : world) (roots : gmultiset loc) (l a : loc).
Hypothesis (Ha : anchored a).

Lemma array_copies_spec xs fuel :
  array_at w0 a xs -> forall i vs ys ts parents w, Forall2 (copies copy anc) (drop i xs) vs ->
  (length xs = i + fuel)%nat -> building wb roots l w ->
  array_at w l ys -> Forall2 (tree w (Pos.succ l)) ys ts -> length ys = i -> parents_ok w0 anc parents ->
  wp (array_deep_copy_loop copy fuel a (Some l) (Z.of_nat i) parents) w
     (filled wb roots l anc (VArray (map view_of ts ++ vs))).
Proof using All.
  intros Hxs. induction fuel as [|fuel IH]; intros i vs ys ts parents w Hvs Hf Hbu Hys Hts Hi Hp;
    pose proof (array_during _ _ _ _ Ha Hxs (bu_during _ _ _ _ Hbu)) as Hxs'; cbn [array_deep_copy_loop];
    (wp_step; eapply wp_mono; [by apply json_array_size_spec|]; cbv beta; intros ? ? [-> ->]).
  - rewrite (proj2 (Z.ltb_ge _ _)) by lia. rewrite wp_ret. split_and!; try done. cbn [fst].
    rewrite drop_ge in Hvs by lia. inversion Hvs; subst. rewrite app_nil_r. exists (JArray ts). split; [done|].
    eapply tree_array; [apply (bu_new _ _ _ _ Hbu)|done|done].
  - rewrite (proj2 (Z.ltb_lt _ _)) by lia.
    destruct (lookup_lt_is_Some_2 xs i ltac:(lia)) as [x Hx].
    rewrite (drop_S _ _ _ Hx) in Hvs. inversion Hvs as [|? v ? vs' Hv Hvs']; subst.
    wp_step. eapply wp_mono; [apply json_array_get_spec; [done|lia]|]. cbv beta. intros ? ? [-> ->]. rewrite Nat2Z.id, Hx.
    wp_step. eapply wp_mono; [by apply Hv; [apply Hbu|]|]. intros [r p'] w1 [(Hfr & Hs & Hr) Hp']. cbn [fst snd] in *.
    destruct r as [y|].
    + destruct Hr as (t & -> & Hinv1 & Ht). wp_step.
      eapply wp_mono; [apply (append_any w w1 roots l y t (du_inv _ _ (bu_during _ _ _ _ Hbu)) Hinv1 Hfr Ht ys ts Hys Hts)|].
      { pose proof (cf_arrays _ a xs Hcf Hxs). lia. }
      intros r w2 (Hinv2 & Hfr2 & Hs2 & Hr).
      assert (Hbu2 : building wb roots l w2) by (eapply building_step; try done; congruence).
      destruct Hr as [(-> & Hys2 & Hts2)|[-> Ho]]; cbn [negb Z.eqb Z.opp].
      2:{ rewrite wp_ret. split_and!; try done. right. intros H0. apply Ho, (fr_oom _ _ _ Hfr). by apply (fr_oom _ _ _ (du_frame _ _ (bu_during _ _ _ _ Hbu))). }
      replace (Z.of_nat (length ys) + 1) with (Z.of_nat (S (length ys))) by lia.
      replace (map view_of ts ++ view_of t :: vs') with (map view_of (ts ++ [t]) ++ vs') by by rewrite map_app, <- app_assoc.
      eapply IH; try done; [lia|rewrite length_app; simpl; lia].
    + destruct Hr as [Hno Hinv1]. wp_step. cbn [json_array_append_new]. wp_step. cbn [negb Z.eqb Z.opp].
      rewrite wp_ret. split_and!; try done.
      * eapply building_step; [done|done|reflexivity|done|done].
      * cbn [fst]. by apply not_tree_element.
Qed.

Lemma object_copies_spec items fuel :
  object_at w0 a items -> forall i ms its acc parents w,
  Forall2 (fun a b => a.1 = b.1 /\ copies copy anc a.2 b.2) (drop i (kvs items)) ms ->
  (length items < i + fuel)%nat -> building wb roots l w ->
  object_at w l its -> members w (Pos.succ l) (kvs its) acc -> acc.*1 = take i (kvs items).*1 ->
  parents_ok w0 anc parents ->
  wp (object_deep_copy_loop copy fuel a (Some l) (items.*1 !! i) parents) w
     (filled wb roots l anc (VObject (map (fun m => (m.1, view_of m.2)) acc ++ ms))).
Proof using All.
  intros Hitems. induction fuel as [|fuel IH]; intros i ms its acc parents w Hms Hf Hbu Hits Hacc Hkeys Hp;
    pose proof (object_during _ _ _ _ Ha Hitems (bu_during _ _ _ _ Hbu)) as Hitems'.
  all: destruct (items !! i) as [[n pr]|] eqn:Hi.
  1: apply lookup_lt_Some in Hi; lia.
  1, 3: assert (items.*1 !! i = None) as -> by (by rewrite list_lookup_fmap, Hi);
     apply lookup_ge_None in Hi; cbn [object_deep_copy_loop]; rewrite wp_ret; split_and!; try done; cbn [fst];
     rewrite drop_ge in Hms by (unfold kvs; by rewrite length_fmap);
     inversion Hms; subst; rewrite app_nil_r; exists (JObject acc); (split; [done|]);
     (eapply tree_object; [apply (bu_new _ _ _ _ Hbu)|done|done]).
  destruct (items_kvs _ _ _ _ Hi) as [Hn Hkv]. rewrite Hn. cbn [object_deep_copy_loop].
  rewrite (drop_S _ _ _ Hkv) in Hms. inversion Hms as [|? [k v] ? ms' [Hk Hv] Hms']; subst. cbn [fst snd] in Hk, Hv. subst k.
  wp_step. eapply wp_mono; [by apply (json_object_iter_key_spec w a items Hitems' i n pr)|]. cbv beta. intros ? ? [-> ->].
  wp_step. eapply wp_mono; [by apply (json_object_iter_value_spec w a items Hitems' i n pr)|]. cbv beta. intros ? ? [-> ->].
  wp_step. eapply wp_mono; [by apply Hv; [apply Hbu|]|]. intros [r p'] w1 [(Hfr & Hs & Hr) Hp']. cbn [fst snd] in *.
  assert (Hlen : length its = i).
  { apply Forall2_length in Hacc. unfold kvs in Hacc. rewrite length_fmap in Hacc. rewrite Hacc.
    apply (f_equal length) in Hkeys. rewrite length_fmap, length_take, length_fmap in Hkeys.
    apply lookup_lt_Some in Hkv. lia. }
  assert (Hfit : Z.of_nat (length items) <= 2 ^ 31).
  { destruct Hitems as (ht & _ & xs & Hwf). pose proof (wf_max _ _ _ _ Hwf) as Hmax. by rewrite (wf_size _ _ _ _ Hwf) in Hmax. }
  pose proof (lookup_lt_Some _ _ _ Hi) as Hlt.
  destruct r as [y|].
  + destruct Hr as (t & -> & Hinv1 & Ht). wp_step.
    eapply wp_mono; [apply (set_any w w1 roots l y t (du_inv _ _ (bu_during _ _ _ _ Hbu)) Hinv1 Hfr Ht its acc (p_key pr) Hits Hacc)|].
    { lia. }
    { eapply (cf_keys _ _ _ _ Hcf Hitems). rewrite keys_kvs. apply list_elem_of_fmap. eexists (_, _).
      split; [|by eapply list_elem_of_lookup_2]. done. }
    intros r w2 (Hinv2 & Hfr2 & Hs2 & Hr).
    assert (Hbu2 : building wb roots l w2) by (eapply building_step; try done; congruence).
    destruct Hr as [(-> & its2 & Hits2 & _ & Hacc2)|[-> Ho]]; cbn [negb Z.eqb Z.opp].
    2:{ rewrite wp_ret. split_and!; try done. right. intros H0. apply Ho, (fr_oom _ _ _ Hfr). by apply (fr_oom _ _ _ (du_frame _ _ (bu_during _ _ _ _ Hbu))). }
    pose proof (object_during _ _ _ _ Ha Hitems (bu_during _ _ _ _ Hbu2)) as Hitems2.
    wp_step. eapply wp_mono; [by apply (json_object_iter_next_spec w2 a items Hitems2 i n)|]. cbv beta. intros ? ? [-> ->].
    assert (Hnew : p_key pr ∉ acc.*1).
    { destruct Hitems as (ht & _ & xs & Hwf). pose proof (wf_keys _ _ _ _ Hwf) as Hnd. rewrite keys_kvs in Hnd.
      rewrite <- (take_drop_middle (kvs items).*1 i (p_key pr)) in Hnd by (by rewrite list_lookup_fmap, Hkv).
      rewrite Hkeys. apply NoDup_app in Hnd as (_ & Hdis & _). intros Hin. by apply (Hdis _ Hin), elem_of_cons; left. }
    rewrite aset_new in Hacc2 by done.
    replace (map (fun m => (m.1, view_of m.2)) acc ++ (p_key pr, view_of t) :: ms')
      with (map (fun m : bytes * json => (m.1, view_of m.2)) (acc ++ [(p_key pr, t)]) ++ ms') by by rewrite map_app, <- app_assoc.
    eapply IH; try done; [lia|].
    rewrite fmap_app, Hkeys. cbn. symmetry. apply take_S_r. by rewrite list_lookup_fmap, Hkv.
  + destruct Hr as [Hno Hinv1]. wp_step. cbn [json_object_set_new_nocheck]. wp_step. cbn [negb Z.eqb Z.opp].
    rewrite wp_ret. split_and!; try done.
    * eapply building_step; [done|done|reflexivity|done|done].
    * cbn [fst]. by apply not_tree_member.
Qed.
End loops.

Lemma during_set_oom w roots o : during w roots -> (w_oom w = [] -> o = []) -> during (set_oom o w) roots.
Proof using.
  intros [H1 H2 H3 H4] Ho. split; try done; [by apply inv_set_oom|]. etransitivity; [exact H2|]. by apply frame_set_oom.
Qed.
Lemma copied_none w roots v o : during w roots -> (w_oom w = [] -> o = []) -> refused v -> copied w roots v None (set_oom o w).
Proof using.
  intros Hd Ho Hr. split; [by apply frame_set_oom|]. split; [done|]. split; [done|]. by apply inv_set_oom, (du_inv _ _ Hd).
Qed.

(** The start of both functions: the container is entered in the table of the
    path ([k] goes on) and the new one is created. *)
Lemma enter_spec w roots anc parents l v (k : Z * bytes * hashtable_t -> W (json_ptr * hashtable_t)) :
  during w roots -> parents_ok w0 anc parents -> path_ok w0 anc -> is_Some (w_heap w0 !! l) -> l ∉ anc ->
  (forall key parents', k (-1, key, parents') = ret (None, parents')) ->
  (forall o parents', during (set_oom o w) roots -> (w_oom w = [] -> o = []) -> parents_ok w0 (l :: anc) parents' -> path_ok w0 (l :: anc) ->
    wp (k (0, loop_key l, parents')) (set_oom o w) (fun r w' => copied (set_oom o w) roots v r.1 w' /\ parents_ok w0 anc r.2)) ->
  wp (bind (jsonp_loop_check parents l LOOP_KEY_LEN) k) w (fun r w' => copied w roots v r.1 w' /\ parents_ok w0 anc r.2).
Proof using All.
  intros Hd Hp Hpath Hl Hn Hk0 Hk. destruct Hfits as [Haddr Hsize].
  assert (Hpath' : path_ok w0 (l :: anc)).
  { split; [by constructor; [|apply (path_nodup _ _ Hpath)]|].
    intros m [->|Hm]%elem_of_cons; [done|]. by apply (path_heap _ _ Hpath). }
  apply (parents_seed w _ _ (du_seed _ _ Hd)) in Hp. wp_step. eapply wp_mono; [apply (loop_check_any w anc parents l Hp Hn)|].
  - intros m Hm. pose proof (inv_fresh _ _ _ Hinv0 m (path_heap _ _ Hpath' m Hm)). lia.
  - pose proof (path_length _ _ Hpath') as Hlen. simpl in Hlen. lia.
  - intros r w' (o & -> & Ho & [(p' & -> & Hp')|(p' & Hoom & -> & Hp')]); apply (parents_seed w _ _ (du_seed _ _ Hd)) in Hp'.
    + pose proof (during_set_oom w roots o Hd Ho) as Hd'. eapply wp_mono; [by apply Hk|]. intros r w2 [(H1 & H2 & H3) H4]. split; [|done].
      split; [etransitivity; [by apply (frame_set_oom ∅ w o Ho)|done]|]. done.
    + rewrite Hk0, wp_ret. split; [|done]. apply copied_none; [done|done|]. right. by eapply during_oom.
Qed.

Lemma building_start w roots v (m : W json_ptr) (P : world -> loc -> Prop) :
  during w roots -> wp m w (fun r w' => new_post w roots ∅ P r w' /\ w_seed w' = w_seed w) ->
  wp m w (fun r w' => match r with
    | Some l => building w roots l w' /\ P w' l
    | None => copied w roots v None w' /\ during w' roots
    end).
Proof using.
  intros Hd Hm. eapply wp_mono; [exact Hm|]. intros r w' [Hpost Hs]. pose proof Hpost as (Hfr & _ & _ & _).
  assert (Hd' : forall rs, Inv w' rs ∅ -> roots ⊆ rs -> during w' rs).
  { intros rs Hinv Hsub. split; [done|etransitivity; [apply (du_frame _ _ Hd)|done]|etransitivity; [apply (du_roots _ _ Hd)|done]|].
    rewrite Hs. apply (du_seed _ _ Hd). }
  destruct (new_post_cases _ _ _ _ _ Hpost) as [(l & -> & Hinv & Hl & HP)|(-> & Hinv & Ho)].
  - split; [|done]. pose proof (fr_next _ _ _ (du_frame _ _ Hd)). split; [|done|done|].
    + apply Hd'; [done|]. apply gmultiset_disj_union_subseteq_l.
    + split; [apply (du_roots _ _ Hd)|apply (du_seed _ _ Hd)].
  - split; [|by apply Hd']. split; [done|]. split; [done|]. split; [|done]. right. by eapply during_oom.
Qed.

(** There is no memory for the new container. *)
Lemma out_none_spec w roots v w' roots' a anc parents :
  copied w roots v None w' -> during w' roots' -> parents_ok w0 (a :: anc) parents ->
  wp (deep_copy_out None true parents (loop_key a)) w' (fun r w' => copied w roots v r.1 w' /\ parents_ok w0 anc r.2).
Proof using.
  intros Hc Hd Hp. unfold deep_copy_out. wp_step. wp_step. apply (parents_seed w' _ _ (du_seed _ _ Hd)) in Hp.
  destruct (parents_del_spec w' (inv_quiet _ _ _ (du_inv _ _ Hd)) anc parents a Hp) as (p' & Hp' & E).
  wp_step. eapply wp_eq; [exact E|]. rewrite wp_ret. split; [done|]. by apply (parents_seed w' _ _ (du_seed _ _ Hd)).
Qed.

Lemma array_copy_spec copy anc l xs vs :
  anchored l -> array_at w0 l xs -> l ∉ anc -> path_ok w0 anc ->
  (path_ok w0 (l :: anc) -> Forall2 (copies copy (l :: anc)) xs vs) ->
  forall w roots parents, during w roots -> parents_ok w0 anc parents ->
  wp (json_array_deep_copy copy l parents) w (fun r w' =>
    copied w roots (VArray vs) r.1 w' /\ parents_ok w0 anc r.2).
Proof using All.
  intros Hl Hxs Hn Hpath Hvs w1 roots parents Hd1 Hp. unfold json_array_deep_copy. apply (enter_spec w1 roots anc parents l); try done.
  { destruct Hxs as (a & (n & Hn' & _) & _). by exists n. }
  intros o parents' Hd _ Hp' Hpath'. set (w := set_oom o w1) in *. cbn [negb Z.eqb]. wp_step. clearbody w. clear w1 Hd1.
  eapply wp_mono.
  { eapply (building_start w roots (VArray vs)); [exact Hd|]. apply wp_keeps_seed; [apply keeps_seed_array|]. apply json_array_spec, (du_inv _ _ Hd). }
  intros [r|] w1; [intros [Hbu Hr]|intros [Hc Hd1]; by eapply out_none_spec]. wp_step.
  eapply wp_mono; [eapply json_array_size_spec, array_during; [done|done|apply (bu_during _ _ _ _ Hbu)]|].
  cbv beta. intros ? ? [-> ->]. wp_step. rewrite Nat2Z.id.
  eapply wp_mono; [eapply (array_copies_spec copy (l :: anc) w roots r l Hl xs (length xs) Hxs 0%nat vs [] [] parents' w1); try done|].
  - rewrite drop_0. by apply Hvs.
  - intros [ok p2] w2 Hfill. by apply deep_copy_out_spec.
Qed.

Lemma object_copy_spec copy anc l items ms :
  anchored l -> object_at w0 l items -> l ∉ anc -> path_ok w0 anc ->
  (path_ok w0 (l :: anc) -> Forall2 (fun a b => a.1 = b.1 /\ copies copy (l :: anc) a.2 b.2) (kvs items) ms) ->
  forall w roots parents, during w roots -> parents_ok w0 anc parents ->
  wp (json_object_deep_copy copy l parents) w (fun r w' =>
    copied w roots (VObject ms) r.1 w' /\ parents_ok w0 anc r.2).
Proof using All.
  intros Hl Hits Hn Hpath Hms w1 roots parents Hd1 Hp. unfold json_object_deep_copy. apply (enter_spec w1 roots anc parents l); try done.
  { destruct Hits as (a & (n & Hn' & _) & _). by exists n. }
  intros o parents' Hd _ Hp' Hpath'. set (w := set_oom o w1) in *. cbn [negb Z.eqb]. wp_step. clearbody w. clear w1 Hd1.
  eapply wp_mono.
  { eapply (building_start w roots (VObject ms)); [exact Hd|]. eapply wp_mono; [apply json_object_spec, (du_inv _ _ Hd)|].
    intros r w1 Hpost. split; [exact Hpost|]. destruct Hpost as (Hfr & _). apply (fr_seed _ _ _ Hfr).
    rewrite (du_seed _ _ Hd). eapply object_seed; [exact Hinv0|exact Hits]. }
  intros [r|] w1; [intros [Hbu Hr]|intros [Hc Hd1]; by eapply out_none_spec]. wp_step. apply wp_gets.
  pose proof (object_during _ _ _ _ Hl Hits (bu_during _ _ _ _ Hbu)) as Hits1. wp_step.
  eapply wp_mono; [by apply json_object_iter_spec|]. cbv beta. intros ? ? [-> ->]. wp_step.
  eapply wp_mono; [eapply (object_copies_spec copy (l :: anc) w roots r l Hl items _ Hits 0%nat ms [] [] parents' w1); try done|].
  - rewrite drop_0. by apply Hms.
  - pose proof (foreach_fuel_gt w1 l items Hits1). lia.
  - intros [ok p2] w2 Hfill. by apply deep_copy_out_spec.
Qed.

Theorem do_deep_copy_spec anc l v :
  sees w0 anc l v -> forall fuel, anchored l -> path_ok w0 anc -> (size (w_heap w0) < length anc + fuel)%nat ->
  copies (do_deep_copy fuel) anc l v.
Proof using All.
  intros Hs. induction Hs as [anc l b Hb Hlf|anc l b Hl Hb Hlf|anc l xs vs Hl Ha IH|anc l items ms Hl Ho IH]
    using sees_rect; intros fuel Hanch Hpath Hf; pose proof (path_length w0 anc Hpath) as Hlen;
    (destruct fuel as [|fuel]; [lia|]).
  - by apply copies_leaf.
  - intros w roots parents Hd Hp. pose proof (body_during l b w roots Hanch Hb Hd) as Hbw.
    cbn [do_deep_copy]. wp_step. eapply wp_json_typeof; [exact Hbw|].
    apply (parents_seed w _ _ (du_seed _ _ Hd)) in Hp.
    assert (Hend : wp (jsonp_loop_check parents l LOOP_KEY_LEN) w (fun r w' => w' = w /\ r = (-1, loop_key l, parents))).
    { by eapply loop_check_hit. }
    destruct b; try done; cbn [type_of]; unfold json_object_deep_copy, json_array_deep_copy;
      wp_step; (eapply wp_mono; [exact Hend|]); intros ? ? [-> ->]; cbn [negb Z.eqb Z.opp]; rewrite wp_ret; cbn [fst snd];
      (split; [|by apply (parents_seed w _ _ (du_seed _ _ Hd))]);
      (split_and!; [reflexivity|done| |apply (du_inv _ _ Hd)]); left; intros []; done.
  - intros w roots parents Hd Hp. pose proof Ha as (a & Hb & _). pose proof (body_during l _ w roots Hanch Hb Hd) as Hbw.
    cbn [do_deep_copy]. wp_step. eapply wp_json_typeof; [exact Hbw|]. cbn [type_of].
    apply (array_copy_spec _ anc l xs vs); try done. intros Hpath'.
    apply Forall2_same_length_lookup_2; [by apply Forall2_length in IH|]. intros j x v Hx Hv.
    apply (Forall2_lookup_lr _ _ _ _ _ _ IH Hx Hv); [|done|simpl; lia].
    eapply anchored_element; [done|done|by eapply list_elem_of_lookup_2].
  - intros w roots parents Hd Hp. pose proof Ho as (a & Hb & _). pose proof (body_during l _ w roots Hanch Hb Hd) as Hbw.
    cbn [do_deep_copy]. wp_step. eapply wp_json_typeof; [exact Hbw|]. cbn [type_of].
    apply (object_copy_spec _ anc l items ms); try done. intros Hpath'.
    apply Forall2_same_length_lookup_2; [by apply Forall2_length in IH|]. intros j x v Hx Hv.
    destruct (Forall2_lookup_lr _ _ _ _ _ _ IH Hx Hv) as [Hk IHx]. split; [done|].
    apply IHx; [|done|simpl; lia]. eapply anchored_member; [done|done|by eapply list_elem_of_lookup_2].
Qed.
End copy.

(** ** The entry point *)

Lemma json_deep_copy_spec w roots l v :
  Inv w roots ∅ -> l ∈ roots -> fits w -> contents_fit w -> sees w [] l v ->
  wp (json_deep_copy (Some l)) w (copied w w roots v).
Proof.
  intros Hinv Hl Hf Hcf Hv. unfold json_deep_copy. assert (Hd : during w roots w roots) by done.
  wp_step. apply wp_run_am. eapply wp_mono; [apply hashtable_init_spec|]. intros [ht|] o [Ho Hht].
  2:{ rewrite wp_ret. eapply copied_none; [done|done|by right]. }
  pose proof (during_set_oom w roots w roots o Hd Ho) as Hd'. wp_step. apply wp_gets. wp_step.
  eapply wp_mono; [apply (do_deep_copy_spec w roots Hinv Hf Hcf [] l v Hv _)|].
  - by apply anchored_root.
  - split; [constructor|]. by intros ? ?%elem_of_nil.
  - simpl. lia.
  - exact Hd'.
  - exists []. by split.
  - intros [r p] w' [Hc Hp]. cbn [fst snd] in *. wp_step. eapply wp_eq.
    + eapply (parents_close_spec w'); [|eapply (parents_seed w w'); [apply Hc|exact Hp]].
      destruct Hc as (_ & _ & Hr). destruct r as [l'|].
      * destruct Hr as (t & _ & Hinv' & _). by eapply inv_quiet.
      * destruct Hr as [_ Hinv']. by eapply inv_quiet.
    + rewrite wp_ret. destruct Hc as (H1 & H2 & H3). split; [|done]. etransitivity; [by apply (frame_set_oom ∅ w o Ho)|done].
Qed.

(** C18. [json_deep_copy] of any value a client holds returns, with any allocation
    failures.  A tree is copied to new nodes, none of them shared with the
    original, which [json_equal] finds equal to it; the result is NULL only
    for a value that contains itself, or for lack of memory.  In all cases the
    original is as it was and nothing leaks. *)
Theorem json_deep_copy_correct w roots l v :
  Inv w roots ∅ -> l ∈ roots -> fits w -> contents_fit w -> sees w [] l v ->
  exists r w', json_deep_copy (Some l) w = inr (r, w') /\ frame ∅ w w' /\ sees w' [] l v /\
  match r with
  | Some l' =>
      exists t, v = view_of t /\ Inv w' (roots ⊎ {[+ l' +]}) ∅ /\ tree w' (w_next w) l' t /\
      json_equal (Some l) (Some l') w' = inr (true, w')
  | None => ((forall t, v <> view_of t) \/ w_oom w <> []) /\ Inv w' roots ∅
  end.
Proof.
  intros Hinv Hl Hf Hcf Hv. pose proof (json_deep_copy_spec w roots l v Hinv Hl Hf Hcf Hv) as H.
  apply wp_inv in H as (r & w' & E & Hfr & _ & Hr). exists r, w'. split; [done|]. split; [done|].
  assert (Hkeep : forall rs, Inv w' rs ∅ -> l ∈ rs -> sees w' [] l v).
  { intros rs Hinv' Hl'. eapply sees_keep; [exact Hinv|exact Hinv'|exact Hfr| |exact Hv].
    apply gmultiset_elem_of_disj_union. by right. }
  destruct r as [l'|].
  - destruct Hr as (t & -> & Hinv' & Ht).
    assert (Hs : sees w' [] l (view_of t)) by (eapply Hkeep; [done|multiset_solver]).
    split; [done|]. exists t. split_and!; try done.
    assert (Hs' : sees w' [] l' (view_of t)) by (eapply tree_sees; [done|done|by intros ? ?%elem_of_nil]).
    rewrite (json_equal_spec w' _ Hinv' l l' [] t t Hs Hs'), json_eqb_refl; [done|by eapply sees_well_formed].
  - destruct Hr as [Hno Hinv']. by split; [eapply Hkeep|].
Qed.

Lemma json_deep_copy_correct_witness :
  exists r w', json_deep_copy (Some 4%positive) example_world = inr (r, w') /\ frame ∅ example_world w' /\
    sees w' [] 4%positive (view_of example_tree) /\
  match r with
  | Some l' =>
      exists t, view_of example_tree = view_of t /\ Inv w' ({[+ 4%positive +]} ⊎ {[+ l' +]}) ∅ /\
      tree w' (w_next example_world) l' t /\ json_equal (Some 4%positive) (Some l') w' = inr (true, w')
  | None => ((forall t, view_of example_tree <> view_of t) \/ w_oom example_world <> []) /\ Inv w' {[+ 4%positive +]} ∅
  end.
Proof.
  destruct example_held as [Hinv Hsees].
  apply (json_deep_copy_correct example_world {[+ 4%positive +]} 4%positive (view_of example_tree)).
  - exact Hinv.
  - multiset_solver.
  - vm_compute. split; done.
  - apply (bool_decide_unpack (contents_fit example_world)). vm_compute. exact I.
  - exact Hsees.
Defined.
