(* ===== verification/Api.v ===== *)
(** * The whole value interface

    The client of the file on clients, with the calls that update, extend and
    copy containers and change values in place: any sequence of them is safe,
    with any allocation failures. *)

From stdpp Require Import gmultiset.
From Stdlib Require Import SpecFloat.
From S2P Require Import Prelude Utf8 Strbuffer Dlist Hashtable Value Arrays Refcount ValueSpec Iterate Client.
From S2P Require Import Grammar Tree Building Views Equal Copy Update.

(** Room for any one call: two objects or arrays fit into one, and every
    reference count has room for the elements of an array. *)
Record spacious (w : world) (roots : gmultiset loc) : Prop := {
  sp_objects : forall l o items others, object_at w l items -> object_at w o others ->
    Z.of_nat (length items + length others) <= 2 ^ 31;
  sp_arrays : forall l o xs ys, array_at w l xs -> array_at w o ys -> Z.of_nat (length xs + length ys) < ARRAY_MAX;
  sp_counts : count_room (ARRAY_MAX + 2) w roots;
  sp_fits : fits w;
  sp_contents : contents_fit w
}.

Lemma count_room_le n m w roots : count_room n w roots -> m <= n -> count_room m w roots.
Proof. intros H Hle l. specialize (H l). lia. Qed.

Lemma spacious_roomy w roots : spacious w roots -> roomy w roots.
Proof.
  intros [Ho Ha Hc _ _]. split.
  - intros l items H. specialize (Ho l l items items H H). lia.
  - intros l xs H. specialize (Ha l l xs xs H H). lia.
  - intros l. specialize (Hc l). unfold ARRAY_MAX in Hc. lia.
Qed.

(** An object, or a value [json_is_object] rejects. *)
Lemma is_object_cases w roots l : Inv w roots ∅ -> l ∈ roots ->
  (exists items, object_at w l items) \/ (exists b, body_at w l b /\ bool_decide (type_of b = JSON_OBJECT) = false).
Proof.
  intros Hinv Hl. destruct (held_cases _ _ _ Hinv Hl) as [[items Ho]|[(xs & a & Hb & _)|(b & Hb & Ht & _)]]; [eauto|eauto|].
  right. exists b. split; [done|]. by apply bool_decide_false.
Qed.

(** Two containers of the same kind, or arguments that are rejected. *)
Lemma two_cases {A} (at_ : world -> loc -> A -> Prop) t w (roots : gmultiset loc) l o :
  (forall l, l ∈ roots -> (exists x, at_ w l x) \/ (exists b, body_at w l b /\ bool_decide (type_of b = t) = false)) ->
  (forall l x, at_ w l x -> exists b, body_at w l b) -> l ∈ roots -> o ∈ roots ->
  (exists x y, at_ w l x /\ at_ w o y /\ (l = o -> x = y)) \/
  (exists b b', body_at w l b /\ body_at w o b' /\ bool_decide (type_of b = t) && bool_decide (type_of b' = t) = false).
Proof.
  intros Hcases Hbody Hl Ho. destruct (Hcases l Hl) as [[x Hx]|(b & Hb & Ht)].
  - destruct (decide (l = o)) as [<-|Hne]; [left; by exists x, x|]. destruct (Hcases o Ho) as [[y Hy]|(b & Hb & Ht)]; [left; by exists x, y|].
    right. destruct (Hbody _ _ Hx) as [b' Hb']. exists b', b. by rewrite Ht, andb_false_r.
  - right. assert (Hb' : exists b', body_at w o b') by (destruct (Hcases o Ho) as [[y Hy]|(b' & Hb' & _)]; eauto).
    destruct Hb' as [b' Hb']. exists b, b'. by rewrite Ht.
Qed.
Lemma object_body w l items : object_at w l items -> exists b, body_at w l b.
Proof. intros (ht & Hb & _). eauto. Qed.
Lemma array_body w l xs : array_at w l xs -> exists b, body_at w l b.
Proof. intros (a & Hb & _). eauto. Qed.

Section safe.
Context (w : world) (roots : gmultiset loc).
Hypothesis (Hinv : Inv w roots ∅) (Hsp : spacious w roots).

Lemma two_objects l o : l ∈ roots -> o ∈ roots ->
  (exists items others, object_at w l items /\ object_at w o others /\ (l = o -> items = others)) \/
  (exists b b', body_at w l b /\ body_at w o b' /\ bool_decide (type_of b = JSON_OBJECT) && bool_decide (type_of b' = JSON_OBJECT) = false).
Proof using Hinv.
  apply (two_cases object_at); [intros m Hm; by eapply is_object_cases|apply object_body].
Qed.
Lemma two_arrays l o : l ∈ roots -> o ∈ roots ->
  (exists xs ys, array_at w l xs /\ array_at w o ys /\ (l = o -> xs = ys)) \/
  (exists b b', body_at w l b /\ body_at w o b' /\ bool_decide (type_of b = JSON_ARRAY) && bool_decide (type_of b' = JSON_ARRAY) = false).
Proof using All.
  apply (two_cases array_at); [intros m Hm; eapply is_array_cases; eauto using roomy_at, spacious_roomy|apply array_body].
Qed.

Lemma update_safe l o : l ∈ roots -> o ∈ roots ->
  wp (json_object_update (Some l) (Some o)) w (fun _ w' => Inv w' roots ∅).
Proof using All.
  intros Hl Ho. destruct (two_objects l o Hl Ho) as [(items & others & Hi & Hoth & Hself)|(b & b' & Hb & Hb' & Ht)].
  - eapply wp_mono; [eapply (json_object_update_spec w roots l o items others); try done|].
    + eapply count_room_le; [apply Hsp|unfold ARRAY_MAX; lia].
    + by eapply (sp_objects _ _ Hsp).
    + by intros r w' (? & _).
  - unfold json_object_update. wp_step. eapply wp_json_is; [exact Hb|]. wp_step. eapply wp_json_is; [exact Hb'|]. by rewrite Ht, wp_ret.
Qed.
Lemma update_if_safe b0 l o : l ∈ roots -> o ∈ roots ->
  wp (update_if b0 (Some l) (Some o)) w (fun _ w' => Inv w' roots ∅).
Proof using All.
  intros Hl Ho. destruct (two_objects l o Hl Ho) as [(items & others & Hi & Hoth & Hself)|(b & b' & Hb & Hb' & Ht)].
  - eapply wp_mono; [eapply (update_if_spec w roots l o items others); try done|].
    + eapply count_room_le; [apply Hsp|unfold ARRAY_MAX; lia].
    + by eapply (sp_objects _ _ Hsp).
    + by intros r w' (_ & ? & _).
  - unfold update_if. wp_step. eapply wp_json_is; [exact Hb|]. wp_step. eapply wp_json_is; [exact Hb'|]. by rewrite Ht, wp_ret.
Qed.
Lemma extend_safe l o : l ∈ roots -> o ∈ roots ->
  wp (json_array_extend (Some l) (Some o)) w (fun _ w' => Inv w' roots ∅).
Proof using All.
  intros Hl Ho. destruct (two_arrays l o Hl Ho) as [(xs & ys & Hx & Hy & Hself)|(b & b' & Hb & Hb' & Ht)].
  - pose proof (sp_arrays _ _ Hsp _ _ _ _ Hx Hy) as Hlen. eapply wp_mono; [eapply (json_array_extend_spec w roots l o xs ys); try done|].
    + eapply count_room_le; [apply Hsp|lia].
    + lia.
    + by intros r w' (? & _).
  - unfold json_array_extend. wp_step. eapply wp_json_is; [exact Hb|]. wp_step. eapply wp_json_is; [exact Hb'|]. by rewrite Ht, wp_ret.
Qed.
End safe.

(** [json_object_iter_set_new] at the iterator [json_object_iter_at] gives. *)
Definition iter_set_at (l : loc) (k : bytes) (v : loc) : W Z :=
  let* iter := json_object_iter_at (Some l) (Some k) in
  json_object_iter_set_new (Some l) iter (Some v).

Lemma iter_set_safe w roots l k v : Inv w (roots ⊎ {[+ v +]}) ∅ -> l ∈ roots ->
  wp (iter_set_at l k v) w (fun _ w' => Inv w' roots ∅).
Proof.
  intros Hinv Hl. assert (Hl' : l ∈ roots ⊎ {[+ v +]}) by multiset_solver. unfold iter_set_at, json_object_iter_at. wp_step. wp_step.
  assert (Hrej : forall r : Z, wp (json_decref (Some v) ;;; ret r) w (fun _ w' => Inv w' roots ∅)) by (intros r; by apply decref_return).
  destruct (is_object_cases _ _ l Hinv Hl') as [(items & ht & Hb & xs & Hwf)|(b & Hb & Ht)]; (eapply wp_json_is; [exact Hb|]).
  - cbn [type_of]. rewrite bool_decide_true by done. wp_step. eapply wp_json_to_object; [exact Hb|]. wp_step. apply wp_gets.
    destruct (hashtable_iter_at_spec _ _ _ _ Hwf k) as (o & E & Ho). eapply wp_eq; [unfold lift_res; by rewrite E|].
    destruct o as [n|].
    + destruct Ho as (i & pr & Hi & _). eapply wp_mono; [eapply (json_object_iter_set_new_spec w roots ∅ l (take i items) n pr (drop (S i) items) v Hinv)|].
      * rewrite (take_drop_middle _ _ _ Hi). exists ht. split; [done|]. by exists xs.
      * done.
      * by intros r w' (_ & ? & _).
    + unfold json_object_iter_set_new. wp_step. eapply wp_json_is; [exact Hb|]. apply Hrej.
  - rewrite Ht. wp_step. unfold json_object_iter_set_new. wp_step. eapply wp_json_is; [exact Hb|]. apply Hrej.
Qed.

(** What a copy is: a new reference, or nothing. *)
Definition copy_safe (roots : gmultiset loc) (r : json_ptr) (w' : world) : Prop := Inv w' (roots ⊎ opt_mset r) ∅.

Lemma new_copy_safe m w roots P : wp m w (new_post w roots ∅ P) -> wp m w (copy_safe roots).
Proof.
  intros H. eapply wp_mono; [exact H|]. intros r w' Hpost. unfold copy_safe.
  destruct (new_post_cases _ _ _ _ _ Hpost) as [(l & -> & Hinv & _)|(-> & Hinv & _)]; cbn; [done|]. by rewrite gmultiset_disj_union_right_id.
Qed.

Section copies.
Context (w : world) (roots : gmultiset loc).
Hypothesis (Hinv : Inv w roots ∅) (Hsp : spacious w roots).

Lemma leaf_copy_safe l b : body_at w l b -> type_of b <> JSON_OBJECT -> type_of b <> JSON_ARRAY ->
  wp (json_copy (Some l)) w (copy_safe roots).
Proof using All.
  intros Hb Hobj Harr. unfold json_copy. wp_step. eapply wp_json_typeof; [exact Hb|].
  destruct (decide (l ∈ statics)) as [Hs|Hs].
  - assert (Hret : wp (ret (Some l)) w (copy_safe roots)).
    { rewrite wp_ret. eapply inv_static_root; [exact Hinv|]. intros m Hm. cbn. rewrite multiplicity_disj_union, multiplicity_singleton_ne; [lia|congruence]. }
    destruct (static_body _ _ _ _ _ Hinv Hb Hs) as [[-> ->]|[[-> ->]|[-> ->]]]; exact Hret.
  - pose proof (leaf_body _ _ _ _ _ Hinv Hb Hs) as Hok. pose proof (cf_body _ _ _ (sp_contents _ _ Hsp) Hb) as Hfit.
    destruct Hb as (n & Hn & Eb). destruct b as [| |s|z|d| | |]; try done; cbn [type_of].
    + unfold json_string_copy, json_to_string. wp_step. wp_step. eapply wp_deref; [exact Hn|]. rewrite Eb. cbv iota. wp_step.
      eapply new_copy_safe. by apply json_stringn_nocheck_spec.
    + unfold json_integer_copy, json_integer_value. wp_step. wp_step. eapply wp_deref; [exact Hn|]. rewrite Eb. cbv iota. wp_step.
      eapply new_copy_safe. by apply json_integer_spec.
    + unfold json_real_copy, json_real_value. wp_step. wp_step. eapply wp_deref; [exact Hn|]. rewrite Eb. cbv iota. wp_step.
      eapply new_copy_safe. by apply json_real_spec.
Qed.

Lemma json_copy_safe l : l ∈ roots -> wp (json_copy (Some l)) w (copy_safe roots).
Proof using All.
  intros Hl. assert (Hnone : forall w', Inv w' roots ∅ -> copy_safe roots None w') by (intros; unfold copy_safe; cbn; by rewrite gmultiset_disj_union_right_id).
  destruct (held_cases _ _ _ Hinv Hl) as [[items Ho]|[[xs Ha]|(b & Hb & Ht & Ht')]]; [| |by eapply leaf_copy_safe].
  - unfold json_copy. wp_step. pose proof Ho as (ht & Hb & _). eapply wp_json_typeof; [exact Hb|]. cbn [type_of].
    eapply wp_mono; [eapply (json_object_copy_spec w roots l items); try done|].
    + eapply count_room_le; [apply Hsp|unfold ARRAY_MAX; lia].
    + intros [l'|] w' (_ & H); [by destruct H|]. apply Hnone, H.
  - unfold json_copy. wp_step. pose proof Ha as (a & Hb & _). eapply wp_json_typeof; [exact Hb|]. cbn [type_of].
    pose proof (sp_arrays _ _ Hsp _ _ _ _ Ha Ha) as Hlen. eapply wp_mono; [eapply (json_array_copy_spec w roots l xs); try done|].
    + eapply count_room_le; [apply Hsp|lia].
    + lia.
    + intros [l'|] w' (_ & H); [by destruct H|]. apply Hnone, H.
Qed.

Lemma json_deep_copy_safe l : l ∈ roots -> wp (json_deep_copy (Some l)) w (copy_safe roots).
Proof using All.
  intros Hl. destruct (sees_total w roots l Hinv ltac:(multiset_solver)) as [v Hv].
  eapply wp_mono; [by apply (json_deep_copy_spec w roots l v Hinv Hl (sp_fits _ _ Hsp) (sp_contents _ _ Hsp))|].
  intros [l'|] w' (_ & _ & H); unfold copy_safe; cbn; [by destruct H as (t & _ & ? & _)|]. rewrite gmultiset_disj_union_right_id. apply H.
Qed.
End copies.

(** ** The recursive update where nothing is merged *)

Definition is_object (w : world) (v : loc) : Prop := exists ht, body_at w v (Object ht).

Definition objectb (w : world) (v : loc) : bool :=
  match n_body <$> w_heap w !! v with Some (Object _) => true | _ => false end.
Lemma objectb_true w v : is_object w v -> objectb w v = true.
Proof. intros (ht & n & Hn & Hb). unfold objectb. rewrite Hn. cbn. by rewrite Hb. Qed.

(** No pair of the other object meets an object with an object: the recursive
    update never goes down. *)
Definition no_merge (w : world) (l o : loc) : Prop :=
  match n_body <$> w_heap w !! l, n_body <$> w_heap w !! o with
  | Some (Object a), Some (Object b) =>
      map_Forall (fun _ pr => map_Forall (fun _ pr' => p_key pr = p_key pr' ->
        objectb w (p_value pr) && objectb w (p_value pr') = false) (ht_pairs a)) (ht_pairs b)
  | _, _ => True
  end.
#[export] Instance no_merge_dec w l o : Decision (no_merge w l o).
Proof. unfold no_merge. repeat case_match; apply _. Defined.

Lemma no_merge_spec w l o items others k v v' : no_merge w l o -> object_at w l items -> object_at w o others ->
  (k, v) ∈ kvs others -> alookup k (kvs items) = Some v' -> is_object w v -> is_object w v' -> False.
Proof.
  intros Hm (a & (n & Hn & Hb) & xs & Hwf) (b & (n' & Hn' & Hb') & xs' & Hwf') Hin Hlk%alookup_elem Hv%objectb_true Hv'%objectb_true.
  unfold no_merge in Hm. rewrite Hn, Hn' in Hm. cbn in Hm. rewrite Hb, Hb' in Hm.
  apply list_elem_of_fmap in Hin as ([m pr] & [= -> ->] & Hpr%(wf_pairs _ _ _ _ Hwf')).
  apply list_elem_of_fmap in Hlk as ([m' pr'] & [= Ek ->] & Hpr'%(wf_pairs _ _ _ _ Hwf)).
  pose proof (Hm m pr Hpr m' pr' Hpr' Ek) as E. cbv beta in E. rewrite Hv, Hv' in E. done.
Qed.

Lemma alookup_updates k (kvs_ : list (bytes * loc)) : forall acc, k ∉ kvs_.*1 -> alookup k (updates kvs_ acc) = alookup k acc.
Proof.
  unfold updates. induction kvs_ as [|[k' v'] kvs_ IH]; intros acc Hk; cbn; [done|]. rewrite fmap_cons, not_elem_of_cons in Hk.
  destruct Hk as [Hne Hk]. rewrite IH by done. rewrite alookup_aset. by rewrite decide_False.
Qed.

Section recursive.
Context (w : world) (roots : gmultiset loc) (l o : loc) (items others : items_t).
Hypothesis (Hinv : Inv w roots ∅) (Hl : l ∈ roots) (Ho : o ∈ roots) (Hcount : count_room (2 ^ 31 + 1) w roots).
Hypothesis (Hitems : object_at w l items) (Hothers : object_at w o others) (Hself : l = o -> items = others).
Hypothesis (Hroom : Z.of_nat (length items + length others) <= 2 ^ 31) (Hmerge : no_merge w l o).

Definition merging (i : nat) (w' : world) (its : items_t) : Prop :=
  updating w roots l o items others i w' its /\ kvs its = updates (take i (kvs others)) (kvs items).

Lemma merging_object i w' its v : merging i w' its -> is_object w' v -> is_object w v.
Proof using All.
  intros [Hup _] (ht & n & Hn & Hb). destruct (decide (v = l)) as [->|Hne]; [destruct Hitems as (ht' & Hb' & _); by exists ht'|].
  pose proof (inv_fresh _ _ _ (up_inv _ _ _ _ _ _ _ _ _ Hup) v ltac:(by rewrite Hn)) as Hlt. rewrite (up_next _ _ _ _ _ _ _ _ _ Hup) in Hlt.
  destruct (fr_bodies _ _ _ (up_frame _ _ _ _ _ _ _ _ _ Hup) v n Hn ltac:(by apply not_elem_of_singleton) Hlt) as (n0 & Hn0 & Hb0).
  exists ht, n0. split; [done|]. congruence.
Qed.

(** The member that a pair meets is the one from before the update. *)
Lemma merging_lookup i w' its k v : merging i w' its -> kvs others !! i = Some (k, v) -> alookup k (kvs its) = alookup k (kvs items).
Proof using All.
  intros [_ ->] Hkv. apply alookup_updates. pose proof (object_nodup _ _ _ Hothers) as Hnd.
  rewrite <- (take_drop_middle _ _ _ Hkv) in Hnd. rewrite fmap_app in Hnd. apply NoDup_app in Hnd as (_ & Hdis & _).
  intros Hin. by apply (Hdis _ Hin), elem_of_cons; left.
Qed.

Lemma merging_is i w' its v : merging i w' its -> v ∈ refs (w_heap w') ⊎ roots ->
  wp (json_is JSON_OBJECT (Some v)) w' (fun b w'' => w'' = w' /\ (b = true -> is_object w v)).
Proof using All.
  intros Hm Hv. destruct (inv_live _ _ _ _ (up_inv _ _ _ _ _ _ _ _ _ (proj1 Hm)) Hv) as (n & Hn & _).
  eapply wp_json_is; [by exists n|]. split; [done|]. intros Ht%bool_decide_eq_true. eapply merging_object; [exact Hm|].
  destruct (n_body n) as [ht| | | | | | |] eqn:Hb; try done. by exists ht, n.
Qed.
Lemma updating_seed i w' its anc parents : updating w roots l o items others i w' its ->
  parents_ok w anc parents -> parents_ok w' anc parents.
Proof using All.
  intros Hup. unfold parents_ok. rewrite (fr_seed _ _ _ (up_frame _ _ _ _ _ _ _ _ _ Hup)); [done|].
  pose proof (object_not_static _ _ _ _ _ Hinv Hitems) as Hs. destruct Hitems as (ht & (n & Hn & Hb) & _).
  pose proof (inv_body _ _ _ Hinv l n Hn Hs) as Hok. rewrite Hb in Hok. by destruct Hok.
Qed.

Lemma update_loop_flat update fuel : forall i w' its parents, merging i w' its -> (i <= length others)%nat ->
  (length others < i + fuel)%nat ->
  wp (update_recursive_loop update fuel (Some l) o (others.*1 !! i) parents) w' (fun r w2 =>
    r.2 = parents /\ exists j its', updating w roots l o items others j w2 its').
Proof using All.
  induction fuel as [|fuel IH]; intros i w' its parents Hm Hi Hf; [lia|]. pose proof Hm as [Hup Ek].
  destruct (others !! i) as [[n pr]|] eqn:Hn.
  2:{ rewrite list_lookup_fmap, Hn. cbn [fmap option_fmap option_map update_recursive_loop]. rewrite wp_ret. split; [done|]. by exists i, its. }
  destruct (items_kvs _ _ _ _ Hn) as [En Ekv]. rewrite En. cbn [update_recursive_loop]. unfold json_object_key_to_iter.
  destruct (up_other _ _ _ _ _ _ _ _ _ Hup) as (oth & Hoth & Hsame). destruct (same_pairs_lookup _ _ _ _ _ Hsame Hn) as (pr' & Hn' & E1 & E2).
  wp_step. eapply wp_mono; [by apply (json_object_iter_key_spec w' o oth Hoth i n pr')|]. cbv beta. intros ? ? [-> ->].
  wp_step. eapply wp_mono; [by apply (json_object_iter_value_spec w' o oth Hoth i n pr')|]. cbv beta. intros ? ? [-> ->]. rewrite E1, E2.
  wp_step. eapply wp_mono; [apply json_object_get_spec, Hup|]. cbv beta. intros ? ? [-> ->].
  rewrite (merging_lookup i w' its _ _ Hm Ekv). wp_step.
  assert (Hv : p_value pr ∈ refs (w_heap w') ⊎ roots).
  { apply (object_child _ _ _ (up_inv _ _ _ _ _ _ _ _ _ Hup) o oth (p_key pr, p_value pr)); [multiset_solver|done|].
    rewrite (proj2 Hsame). by eapply list_elem_of_lookup_2. }
  eapply (wp_mono _ _ (fun b w2 => w2 = w' /\ (b = true -> exists v', alookup (p_key pr) (kvs items) = Some v' /\ is_object w v'))).
  { destruct (alookup (p_key pr) (kvs items)) as [v'|] eqn:Ev; [|by unfold json_is; rewrite wp_ret].
    assert (Hv' : v' ∈ refs (w_heap w') ⊎ roots).
    { apply (object_child _ _ _ (up_inv _ _ _ _ _ _ _ _ _ Hup) l its (p_key pr, v')); [multiset_solver|apply Hup|].
      rewrite <- (merging_lookup i w' its _ _ Hm Ekv) in Ev. by apply alookup_elem. }
    eapply wp_mono; [by eapply merging_is|]. cbv beta. intros b ? [-> Hb]. split; [done|]. intros ->. by exists v'; auto. }
  cbv beta. intros b1 ? [-> Hb1]. wp_step. eapply wp_mono; [by eapply merging_is|]. cbv beta. intros b2 ? [-> Hb2].
  replace (b1 && b2) with false.
  2:{ destruct b1, b2; try done. destruct (Hb1 eq_refl) as (v' & Ev & Hobj). exfalso.
      apply (no_merge_spec w l o items others (p_key pr) (p_value pr) v' Hmerge Hitems Hothers); auto. by eapply list_elem_of_lookup_2. }
  wp_step. wp_step.
  eapply wp_mono; [apply (updating_step w roots l o items others Hinv Hl Ho Hcount Hitems Hothers Hself Hroom i w' its _ _ Ekv Hup)|].
  intros r w2 (its2 & Hup2 & Hr). rewrite wp_ret. cbv iota beta.
  destruct Hr as [[-> Ek2]|(-> & Ek2 & _)]; cbn [negb Z.eqb Z.opp].
  - assert (Hm2 : merging (S i) w2 its2).
    { split; [done|]. rewrite (take_S_r _ _ _ Ekv). unfold updates. rewrite fold_left_app. cbn. by rewrite Ek2, Ek. }
    destruct (up_other _ _ _ _ _ _ _ _ _ Hup2) as (oth2 & Hoth2 & Hsame2).
    wp_step. eapply wp_mono; [apply (json_object_iter_next_spec w2 o oth2 Hoth2 i n)|]; [by rewrite (proj1 Hsame2)|].
    cbv beta. intros ? ? [-> ->]. rewrite (proj1 Hsame2). apply (IH (S i) w2 its2 parents Hm2); [|lia].
    apply lookup_lt_Some in Hn. lia.
  - rewrite wp_ret. split; [done|]. by exists (S i), its2.
Qed.
End recursive.

Lemma no_merge_oom w x l o : no_merge w l o -> no_merge (set_oom x w) l o.
Proof. done. Qed.

Lemma update_recursive_flat w roots l o items others :
  Inv w roots ∅ -> spacious w roots -> l ∈ roots -> o ∈ roots -> object_at w l items -> object_at w o others ->
  (l = o -> items = others) -> no_merge w l o ->
  wp (json_object_update_recursive (Some l) (Some o)) w (fun _ w' => Inv w' roots ∅).
Proof.
  intros Hinv Hsp Hl Ho Hi Hoth Hself Hmerge. unfold json_object_update_recursive.
  wp_step. apply wp_run_am. eapply wp_mono; [apply hashtable_init_spec|]. intros [ht|] x [Hx Hht].
  2:{ rewrite wp_ret. by apply inv_set_oom. }
  wp_step. apply wp_gets. wp_step. cbn [do_object_update_recursive].
  pose proof Hi as (ht1 & Hb1 & _). pose proof Hoth as (ht2 & Hb2 & _).
  wp_step. eapply wp_json_is; [exact Hb1|]. wp_step. eapply wp_json_is; [exact Hb2|]. cbn [type_of]. rewrite !bool_decide_true by done. cbn [andb].
  assert (Haddr : forall m, m ∈ [o] -> Zpos m < 2 ^ 64).
  { intros m ->%list_elem_of_singleton. destruct (inv_root _ _ _ o Hinv Ho) as (n & Hn & _).
    pose proof (inv_fresh _ _ _ Hinv o ltac:(by rewrite Hn)). destruct (sp_fits _ _ Hsp). lia. }
  wp_step. eapply wp_mono; [apply (loop_check_any (set_oom x w) [] ht o)|].
  { exists []. by split. } { apply not_elem_of_nil. } { done. } { done. }
  intros r w' (y & -> & _ & [(p & -> & Hp)|(p & _ & -> & Hp)]); cbv iota beta; cbn [negb Z.eqb Z.opp].
  - wp_step. apply wp_gets. set (w1 := set_oom y (set_oom x w)).
    assert (Hinv1 : Inv w1 roots ∅) by (by apply inv_set_oom, inv_set_oom).
    assert (Hi1 : object_at w1 l items) by done. assert (Hoth1 : object_at w1 o others) by done.
    assert (Hc1 : count_room (2 ^ 31 + 1) w1 roots) by (eapply (count_room_le _ _ w); [apply Hsp|unfold ARRAY_MAX; lia]).
    pose proof (sp_objects _ _ Hsp _ _ _ _ Hi Hoth) as Hroom. assert (Hm1 : no_merge w1 l o) by (by apply no_merge_oom, no_merge_oom).
    wp_step. eapply wp_mono; [by apply (json_object_iter_spec w1 o others)|]. cbv beta. intros ? ? [-> ->]. wp_step.
    eapply wp_mono; [apply (update_loop_flat w1 roots l o items others Hinv1 Hl Ho Hc1 Hi1 Hoth1 Hself Hroom Hm1 _ _ 0 w1 items p)|].
    { split; [by apply updating_start|done]. } { lia. } { by apply (foreach_fuel_gt w1 o others). }
    intros [r p'] w2 (Ep & j & its & Hup). cbn [snd] in Ep. subst p'. cbv iota beta. wp_step.
    pose proof (up_inv _ _ _ _ _ _ _ _ _ Hup) as Hinv2.
    assert (Hp2 : parents_ok w2 [o] p) by (by eapply (updating_seed w1 roots l o items others)).
    destruct (parents_del_spec w2 (inv_quiet _ _ _ Hinv2) [] p o Hp2) as (p2 & Hp2' & E). eapply wp_eq; [exact E|]. rewrite wp_ret.
    wp_step. eapply wp_eq; [exact (parents_close_spec w2 (inv_quiet _ _ _ Hinv2) [] p2 Hp2')|]. by rewrite wp_ret.
  - assert (Hinv1 : Inv (set_oom y (set_oom x w)) roots ∅) by (by apply inv_set_oom, inv_set_oom).
    rewrite wp_ret. wp_step. eapply wp_eq; [exact (parents_close_spec _ (inv_quiet _ _ _ Hinv1) [] p Hp)|]. by rewrite wp_ret.
Qed.

Lemma update_recursive_safe w roots l o : Inv w roots ∅ -> spacious w roots -> l ∈ roots -> o ∈ roots -> no_merge w l o ->
  wp (json_object_update_recursive (Some l) (Some o)) w (fun _ w' => Inv w' roots ∅).
Proof.
  intros Hinv Hsp Hl Ho Hm. destruct (two_objects w roots Hinv l o Hl Ho) as [(items & others & Hi & Hoth & Hself)|(b & b' & Hb & Hb' & Ht)].
  - by eapply update_recursive_flat.
  - unfold json_object_update_recursive. wp_step. apply wp_run_am. eapply wp_mono; [apply hashtable_init_spec|]. intros [ht|] x [Hx Hht].
    2:{ rewrite wp_ret. by apply inv_set_oom. }
    assert (Hinv1 : Inv (set_oom x w) roots ∅) by (by apply inv_set_oom).
    wp_step. apply wp_gets. wp_step. cbn [do_object_update_recursive]. wp_step. eapply wp_json_is; [exact Hb|]. wp_step. eapply wp_json_is; [exact Hb'|].
    rewrite Ht. rewrite wp_ret. wp_step. eapply wp_eq; [|by rewrite wp_ret].
    apply (parents_close_spec _ (inv_quiet _ _ _ Hinv1) [] ht). exists []. by split.
Qed.

(* ------------------------------------------------------------------ *)
(** ** Sequences of calls *)

(** The calls of [Client.call] and the ones of this file. *)
Inductive api_call : Type :=
| Basic (c : call)
| CallObjectUpdate (l o : loc)
| CallObjectUpdateExisting (l o : loc)
| CallObjectUpdateMissing (l o : loc)
| CallObjectUpdateRecursive (l o : loc)
| CallObjectIterSetNew (l : loc) (k : bytes) (v : loc)
| CallArrayExtend (l o : loc)
| CallStringSetn (l : loc) (s : bytes)
| CallIntegerSet (l : loc) (z : Z)
| CallRealSet (l : loc) (d : double)
| CallCopy (l : loc)
| CallDeepCopy (l : loc).

(** What is asked of the caller: containers and values are held by the client,
    stolen references are its own, and the recursive update meets no object
    with an object (it is not safe then, [update_recursive_dangling]). *)
Definition api_ok (w : world) (roots : gmultiset loc) (c : api_call) : Prop :=
  match c with
  | Basic c => call_ok w roots c
  | CallObjectUpdate l o | CallObjectUpdateExisting l o | CallObjectUpdateMissing l o | CallArrayExtend l o => l ∈ roots /\ o ∈ roots
  | CallObjectUpdateRecursive l o => l ∈ roots /\ o ∈ roots /\ no_merge w l o
  | CallObjectIterSetNew l _ v => {[+ v +]} ⊆ roots /\ l ∈ roots ∖ {[+ v +]}
  | CallStringSetn l s => l ∈ roots /\ Z.of_nat (length s) < SIZE_MAX
  | CallIntegerSet l z => l ∈ roots /\ INT64_MIN <= z <= INT64_MAX
  | CallRealSet l _ | CallCopy l | CallDeepCopy l => l ∈ roots
  end.

Definition run_api (roots : gmultiset loc) (c : api_call) : W (gmultiset loc) :=
  match c with
  | Basic c => run_call roots c
  | CallObjectUpdate l o => keep roots (json_object_update (Some l) (Some o))
  | CallObjectUpdateExisting l o => keep roots (json_object_update_existing (Some l) (Some o))
  | CallObjectUpdateMissing l o => keep roots (json_object_update_missing (Some l) (Some o))
  | CallObjectUpdateRecursive l o => keep roots (json_object_update_recursive (Some l) (Some o))
  | CallObjectIterSetNew l k v => keep (roots ∖ {[+ v +]}) (iter_set_at l k v)
  | CallArrayExtend l o => keep roots (json_array_extend (Some l) (Some o))
  | CallStringSetn l s => keep roots (json_string_setn (Some l) (Some s))
  | CallIntegerSet l z => keep roots (json_integer_set (Some l) z)
  | CallRealSet l d => keep roots (json_real_set (Some l) d)
  | CallCopy l => gain roots (json_copy (Some l))
  | CallDeepCopy l => gain roots (json_deep_copy (Some l))
  end.

Lemma wp_gain_copy m roots w : wp m w (copy_safe roots) -> wp (gain roots m) w (fun r w' => Inv w' r ∅).
Proof. intros H. unfold gain. wp_step. eapply wp_mono; [exact H|]. intros r w' Hr. by rewrite wp_ret. Qed.

Lemma run_api_spec w roots c : Inv w roots ∅ -> spacious w roots -> api_ok w roots c ->
  wp (run_api roots c) w (fun r w' => Inv w' r ∅).
Proof.
  intros Hinv Hsp Hok. destruct c as [c|l o|l o|l o|l o|l k v|l o|l s|l z|l d|l|l]; cbn [run_api api_ok] in *; destruct_and?.
  - apply run_call_spec; eauto using spacious_roomy.
  - by apply wp_keep, update_safe.
  - by apply wp_keep, update_if_safe.
  - by apply wp_keep, update_if_safe.
  - by apply wp_keep, update_recursive_safe.
  - apply wp_keep, iter_set_safe; [|done]. replace (roots ∖ {[+ v +]} ⊎ {[+ v +]}) with roots by multiset_solver. done.
  - by apply wp_keep, extend_safe.
  - by apply wp_keep, string_set_safe.
  - by apply wp_keep, integer_set_safe.
  - by apply wp_keep, real_set_safe.
  - by apply wp_gain_copy, json_copy_safe.
  - by apply wp_gain_copy, json_deep_copy_safe.
Qed.

(** States a correct client can reach from the start of the program. *)
Inductive reachable (oom : oracle) (entropy : Z) : world -> gmultiset loc -> Prop :=
| reach_init : reachable oom entropy (world_init oom entropy) ∅
| reach_call w roots c w' roots' :
    reachable oom entropy w roots -> spacious w roots -> api_ok w roots c ->
    run_api roots c w = inr (roots', w') ->
    reachable oom entropy w' roots'.

Lemma reachable_inv oom entropy w roots : reachable oom entropy w roots -> Inv w roots ∅.
Proof.
  induction 1 as [|w roots c w' roots' _ IH Hsp Hok E]; [apply inv_init|].
  pose proof (run_api_spec w roots c IH Hsp Hok) as H. unfold wp in H. by rewrite E in H.
Qed.

(* ------------------------------------------------------------------ *)
(** ** Properties *)

(** C14. A client that follows the documented ownership rules is safe, with and
    without allocation failures: from any state it can reach, every further
    call -- constructors, reference counting, changes of objects and arrays,
    updates, extensions, changes in place, shallow and deep copies -- returns
    (no access to freed or unallocated memory, no unbounded recursion), and
    the reference counts of all values are exact afterwards, being the number
    of references from live values and from the client.  The containers that
    are changed are ones the client owns a reference to (not borrowed ones),
    and [json_object_update_recursive] is called only where it merges no
    object into an object: elsewhere it may use freed memory
    ([update_recursive_dangling]). *)
Theorem client_safe oom entropy w roots c :
  reachable oom entropy w roots -> spacious w roots -> api_ok w roots c ->
  exists roots' w', run_api roots c w = inr (roots', w') /\ Inv w' roots' ∅.
Proof.
  intros Hr Hsp Hok. apply reachable_inv in Hr.
  apply (wp_inv _ _ _ (run_api_spec w roots c Hr Hsp Hok)).
Qed.

(** A heap that is small enough, decidably. *)
Definition small_body (b : body) : Prop :=
  body_fits b /\ match b with Object ht => ht_size ht <= 2 ^ 30 | Array a => a_entries a < 2 ^ 58 | _ => True end.
#[export] Instance small_body_dec b : Decision (small_body b).
Proof. unfold small_body. destruct b; apply _. Defined.
Definition small (w : world) (roots : gmultiset loc) : Prop :=
  map_Forall (fun _ n => small_body (n_body n)) (w_heap w) /\ Z.of_nat (size (refs (w_heap w) ⊎ roots)) <= 2 ^ 62 /\ fits w.
#[export] Instance small_dec w roots : Decision (small w roots).
Proof. unfold small, fits. apply _. Defined.

Lemma small_spacious w roots : small w roots -> spacious w roots.
Proof.
  intros (Hb & Hc & Hf).
  assert (Ho : forall l items, object_at w l items -> Z.of_nat (length items) <= 2 ^ 30).
  { intros l items (ht & (n & Hn & En) & xs & Hwf). destruct (Hb l n Hn) as [_ Hsz]. rewrite En in Hsz. by rewrite (wf_size _ _ _ _ Hwf) in Hsz. }
  assert (Ha : forall l xs, array_at w l xs -> Z.of_nat (length xs) < 2 ^ 58).
  { intros l xs (a & (n & Hn & En) & Hok). destruct (Hb l n Hn) as [_ Hsz]. rewrite En in Hsz. by rewrite (ar_entries _ _ Hok) in Hsz. }
  split; [| | |done|].
  - intros l o items others H1%Ho H2%Ho. lia.
  - intros l o xs ys H1%Ha H2%Ha. unfold ARRAY_MAX. lia.
  - intros m. pose proof (multiplicity_le_size m (refs (w_heap w) ⊎ roots)). unfold ARRAY_MAX, SIZE_MAX. lia.
  - intros l n Hn. by apply (Hb l n).
Qed.

#[export] Instance call_ok_dec w roots c : Decision (call_ok w roots c).
Proof. destruct c; cbn [call_ok]; apply _. Defined.
#[export] Instance api_ok_dec w roots c : Decision (api_ok w roots c).
Proof. destruct c; cbn [api_ok]; apply _. Defined.

(** A sequence of calls, each checked before it is made. *)
Fixpoint checked (roots : gmultiset loc) (cs : list api_call) (w : world) : option (gmultiset loc * world) :=
  match cs with
  | [] => Some (roots, w)
  | c :: cs' =>
      if bool_decide (small w roots /\ api_ok w roots c) then
        match run_api roots c w with inr (roots', w') => checked roots' cs' w' | inl _ => None end
      else None
  end.

Lemma checked_reachable oom entropy cs : forall w roots s,
  reachable oom entropy w roots -> checked roots cs w = Some s -> reachable oom entropy s.2 s.1.
Proof.
  induction cs as [|c cs IH]; intros w roots s Hr; cbn [checked]; [by intros [= <-]|].
  case_bool_decide as Hok; [|done]. destruct Hok as [Hsm Hok]. destruct (run_api roots c w) as [|[roots' w']] eqn:E; [done|].
  apply IH. eapply reach_call; [exact Hr|by apply small_spacious|exact Hok|exact E].
Qed.

Definition after (cs : list api_call) : gmultiset loc * world :=
  match checked ∅ cs (world_init [] 5) with Some s => s | None => (∅, world_init [] 5) end.
Lemma after_reachable cs : reachable [] 5 (after cs).2 (after cs).1.
Proof.
  unfold after. destruct (checked ∅ cs (world_init [] 5)) as [s|] eqn:E; [|constructor].
  eapply checked_reachable; [constructor|exact E].
Qed.

(** Two objects, 4 = {"k": 1} and 5 = {}. *)
Definition two_objects_calls : list api_call :=
  [Basic CallObject; Basic CallObject; Basic (CallInteger 1); Basic (CallObjectSetNew 4%positive (lit "k") 6%positive)].

Lemma two_objects_small : small (after two_objects_calls).2 (after two_objects_calls).1.
Proof. apply (bool_decide_unpack (small (after two_objects_calls).2 (after two_objects_calls).1)). by vm_compute. Qed.
Lemma two_objects_held l : bool_decide (l ∈ (after two_objects_calls).1) = true -> l ∈ (after two_objects_calls).1.
Proof. by intros ?%bool_decide_eq_true. Qed.

Lemma client_safe_witness :
  exists roots' w', run_api (after two_objects_calls).1 (CallObjectUpdate 5%positive 4%positive) (after two_objects_calls).2 = inr (roots', w') /\
    Inv w' roots' ∅.
Proof.
  apply (client_safe [] 5); [apply after_reachable|apply small_spacious, two_objects_small|].
  split; apply two_objects_held; by vm_compute.
Defined.

(** C15. [json_object_update] of one held object from another returns, with any
    allocation failures: on success the object has every pair of the other set
    in it, in the other's order (a key it had keeps its place, a new key goes
    last), and the other object is as it was; on failure a prefix of the other's pairs
    has been set and the next pair is one that could not be: its value is the object
    itself, its key is too long, or memory ran out.  The counts are exact in
    both cases, and updating an object from itself changes nothing. *)
Theorem json_object_update_correct w roots l o items others :
  Inv w roots ∅ -> spacious w roots -> l ∈ roots -> o ∈ roots ->
  object_at w l items -> object_at w o others -> (l = o -> items = others) ->
  exists r w', json_object_update (Some l) (Some o) w = inr (r, w') /\ Inv w' roots ∅ /\ frame {[l]} w w' /\
    (l <> o -> object_at w' o others) /\
    exists its i, object_at w' l its /\ kvs its = updates (take i (kvs others)) (kvs items) /\
    ((r = 0 /\ i = length others /\ (l = o -> kvs its = kvs items)) \/
     (r = -1 /\ exists k v, kvs others !! i = Some (k, v) /\ (v = l \/ w_oom w <> [] \/ MAX_KEY <= Z.of_nat (length k)))).
Proof.
  intros Hinv Hsp Hl Ho Hi Hoth Hself. destruct (wp_inv _ _ _ (json_object_update_spec w roots l o items others Hinv Hl Ho
    (count_room_le _ (2 ^ 31 + 1) _ _ (sp_counts _ _ Hsp) ltac:(unfold ARRAY_MAX; lia)) Hi Hoth Hself (sp_objects _ _ Hsp _ _ _ _ Hi Hoth)))
    as (r & w' & E & Hinv' & Hfr & its & i & Hat & Ek & Hr).
  exists r, w'. split_and!; try done.
  - intros Hne. eapply (object_keep _ _ _ _ _ _ _ Hinv Hinv' Hfr); [multiset_solver| |done]. apply not_elem_of_singleton. congruence.
  - exists its, i. split_and!; try done. destruct Hr as [[-> ->]|Hr]; [|by right]. left. split_and!; [done|done|]. intros Elo.
    rewrite Ek, (Hself Elo). unfold kvs. rewrite take_ge by (by rewrite length_fmap). apply updates_self. by eapply (object_nodup w o).
Qed.

Lemma json_object_update_correct_witness :
  let w := (after two_objects_calls).2 in let roots := (after two_objects_calls).1 in
  exists items r w', json_object_update (Some 5%positive) (Some 4%positive) w = inr (r, w') /\ Inv w' roots ∅ /\ frame {[5%positive]} w w' /\
    (5%positive <> 4%positive -> object_at w' 4%positive items) /\
    exists its i, object_at w' 5%positive its /\ kvs its = updates (take i (kvs items)) (kvs []) /\
    ((r = 0 /\ i = length items /\ (5%positive = 4%positive -> kvs its = kvs [])) \/
     (r = -1 /\ exists k v, kvs items !! i = Some (k, v) /\ (v = 5%positive \/ w_oom w <> [] \/ MAX_KEY <= Z.of_nat (length k)))).
Proof.
  intros w roots. assert (Hinv : Inv w roots ∅) by apply (reachable_inv [] 5), after_reachable.
  assert (H4 : 4%positive ∈ roots) by (by apply two_objects_held; vm_compute).
  assert (H5 : 5%positive ∈ roots) by (by apply two_objects_held; vm_compute).
  destruct (is_object_cases w roots 4%positive Hinv H4) as [[items Hi]|(b & (n & Hn & <-) & Ht)]; [|vm_compute in Hn; injection Hn as <-; by vm_compute in Ht].
  destruct (is_object_cases w roots 5%positive Hinv H5) as [[items' Hi']|(b & (n & Hn & <-) & Ht)]; [|vm_compute in Hn; injection Hn as <-; by vm_compute in Ht].
  exists items. assert (Hnil : items' = []).
  { destruct Hi' as (ht & (n & Hn & Eb) & xs & Hwf). vm_compute in Hn. injection Hn as <-. cbn in Eb. injection Eb as <-.
    pose proof (wf_size _ _ _ _ Hwf) as Hsz. cbn in Hsz. destruct items'; [done|cbn in Hsz; lia]. }
  subst items'. assert (Hsp : spacious w roots) by apply small_spacious, two_objects_small. clearbody w roots.
  apply (json_object_update_correct w roots 5%positive 4%positive [] items Hinv Hsp H5 H4 Hi' Hi). intros E. discriminate E.
Defined.

(** object = 4 = {"k": 5}, other = 5 = {"k": 6}, 6 = {"k": 1}; the client owns
    4 and 5. *)
Definition nested_calls : list api_call :=
  [Basic CallObject; Basic CallObject; Basic CallObject; Basic (CallInteger 1);
   Basic (CallObjectSetNew 6%positive (lit "k") 7%positive); Basic (CallObjectSetNew 5%positive (lit "k") 6%positive);
   Basic (CallIncref 5%positive); Basic (CallObjectSetNew 4%positive (lit "k") 5%positive)].

(** C36. [json_object_update_recursive] can use freed memory although its caller
    breaks no rule and memory does not run out: the client has made an object
    that contains the other one and owns both, and the counts are exact; the
    update of the object from the other one replaces the value it is iterating
    over, which is freed, and then asks it for the next pair. *)
Theorem update_recursive_dangling :
  let w := (after nested_calls).2 in let roots := (after nested_calls).1 in
  reachable [] 5 w roots /\ Inv w roots ∅ /\ roots = {[+ 4%positive; 5%positive +]} /\
  (exists ht, body_at w 4%positive (Object ht)) /\ (exists ht, body_at w 5%positive (Object ht)) /\
  json_object_update_recursive (Some 4%positive) (Some 5%positive) w = inl UndefinedBehaviour.
Proof.
  intros w roots. split; [apply after_reachable|]. split; [apply (reachable_inv [] 5), after_reachable|].
  split; [by vm_compute|]. split; [eexists; eexists; split; by vm_compute|]. split; [eexists; eexists; split; by vm_compute|].
  vm_compute. reflexivity.
Qed.
