(* ===== verification/PackFacts.v ===== *)
(** * What [json_pack] builds and [json_unpack] takes apart

    A description [fspec] of a value with its arguments stands for a format
    and two argument lists.  [json_pack] of a description builds the tree of
    it; [json_unpack] of that tree with the same format gives the arguments
    back, for any spacing and punctuation of the format. *)

From stdpp Require Import gmultiset.
From Stdlib Require Import SpecFloat.
From S2P Require Import Prelude Utf8 Strbuffer Dlist Hashtable Value Arrays Refcount ValueSpec.
From S2P Require Import Client Error Strconv Load Dump Grammar Tree Building Pack.

(* ------------------------------------------------------------------ *)
(** ** The scanner *)

(** The format without the characters it ignores. *)
Definition strip (f : bytes) : bytes := filter (fun c => is_ignored c = false) f.

Lemma skip_spec t line column pos : 1 <= line ->
  exists t' line' column' pos', skip_ignored t line column pos = (t', line', column', pos') /\ 1 <= line' /\
    fmt_char t' = fmt_char (strip t) /\ strip (drop 1 t') = drop 1 (strip t).
Proof.
  revert line column pos. induction t as [|c t IH]; intros line column pos Hl; [by exists [], line, column, pos|].
  cbn [skip_ignored]. unfold strip. rewrite filter_cons. destruct (is_ignored c) eqn:E; case_decide; try done.
  - destruct (c =? 10); apply IH; lia.
  - exists (c :: t), line, column, pos. done.
Qed.

(** The scanner has read the character [c], the characters [us] come next. *)
Definition scans (flags : Z) (s : scanner_t) (c : Z) (us : bytes) : Prop :=
  tk_token (sc_token s) = c /\ 1 <= tk_line (sc_token s) /\ 1 <= sc_line s /\ sc_has_error s = false /\ sc_flags s = flags /\
  if tk_line (sc_next s) =? 0 then strip (sc_fmt s) = us
  else tk_token (sc_next s) = fmt_char us /\ strip (sc_fmt s) = drop 1 us /\ 1 <= tk_line (sc_next s).

(** Reading on. *)
Lemma scan_on flags s : sc_has_error s = false -> sc_flags s = flags -> 1 <= sc_line s -> tk_line (sc_next s) = 0 ->
  ((tk_token (sc_token s) =? 0) && (fmt_char (sc_fmt s) =? 0)) = false ->
  scans flags (next_token s) (fmt_char (strip (sc_fmt s))) (drop 1 (strip (sc_fmt s))) /\
  sc_prev (next_token s) = sc_token s /\ tk_line (sc_next (next_token s)) = 0.
Proof.
  intros He Hf Hsl E Hgo. unfold next_token. rewrite E, Hgo. cbn [Z.eqb negb].
  destruct (skip_spec (sc_fmt s) (sc_line s) (sc_column s + 1) (size_t (sc_pos s + 1)) Hsl) as (t & line & column & pos & -> & Hline & Ht & Hd).
  unfold scans. cbn [sc_token sc_line sc_has_error sc_flags sc_next sc_fmt sc_prev tk_token tk_line]. rewrite E. cbn [Z.eqb]. done.
Qed.
Lemma scans_init error flags f : f <> [] -> Forall (fun c => c <> 0) f ->
  scans flags (next_token (scanner_init error flags f)) (fmt_char (strip f)) (drop 1 (strip f)).
Proof.
  intros Hne Hf. apply scan_on; try done. cbn. destruct f as [|c f]; [done|]. apply Forall_cons in Hf as [Hc _]. cbn. by apply Z.eqb_neq.
Qed.
Lemma scans_next flags s c us : scans flags s c us -> c <> 0 ->
  scans flags (next_token s) (fmt_char us) (drop 1 us) /\ sc_prev (next_token s) = sc_token s /\ tk_line (sc_next (next_token s)) = 0.
Proof.
  intros (Hc & Hl & Hsl & He & Hf & Hn) Hne. destruct (Z.eqb_spec (tk_line (sc_next s)) 0) as [E|E].
  - rewrite <- Hn. apply scan_on; try done. by rewrite Hc, (proj2 (Z.eqb_neq _ _)).
  - destruct Hn as (Ht & Hd & Hln). unfold next_token. rewrite (proj2 (Z.eqb_neq _ _)) by done. split; [|done]. done.
Qed.

(** [prev_token] undoes [next_token]. *)
Lemma scans_prev flags s c us : scans flags s c us -> c <> 0 -> scans flags (prev_token (next_token s)) c us.
Proof.
  intros Hs Hne. destruct (scans_next flags s c us Hs Hne) as ((Hc' & Hl' & Hsl' & He' & Hf' & Hn') & Hp & E).
  destruct Hs as (Hc & Hl & Hsl & He & Hf & _). rewrite E in Hn'. cbn [Z.eqb] in Hn'. unfold scans, prev_token.
  cbn [sc_token sc_line sc_has_error sc_flags sc_next sc_fmt sc_prev]. rewrite Hp, (proj2 (Z.eqb_neq _ _)) by lia. done.
Qed.

(* ------------------------------------------------------------------ *)
(** ** States of the interpreters *)

(** The scanner is at [c] with [us] to come, the arguments [args] are left. *)
Definition at_ (flags : Z) (p : pstate) (c : Z) (us : bytes) (args : list va) (st : list (positive * stored)) (w : world) : Prop :=
  scans flags (p_scanner p) c us /\ p_args p = args /\ p_stores p = st /\ p_world p = w.

Section steps.
Context (flags : Z) (p : pstate) (c : Z) (us : bytes) (args : list va) (st : list (positive * stored)) (w : world).
Hypothesis (Hp : at_ flags p c us args st w).

Lemma wp_token (Q : Z -> pstate -> Prop) : Q c p -> wp token p Q.
Proof using Hp. intros HQ. unfold token. rewrite wp_gets. by destruct Hp as ((-> & _) & _). Qed.
Lemma wp_has_error (Q : bool -> pstate -> Prop) : Q false p -> wp has_error p Q.
Proof using Hp. intros HQ. unfold has_error. rewrite wp_gets. by destruct Hp as ((_ & _ & _ & -> & _) & _). Qed.
Lemma wp_get_flags (Q : Z -> pstate -> Prop) : Q flags p -> wp get_flags p Q.
Proof using Hp. intros HQ. unfold get_flags. rewrite wp_gets. by destruct Hp as ((_ & _ & _ & _ & -> & _) & _). Qed.

(** Forward, and if need be back again. *)
Lemma wp_next (Q : unit -> pstate -> Prop) : c <> 0 ->
  (forall p', at_ flags p' (fmt_char us) (drop 1 us) args st w ->
    (forall Q' : unit -> pstate -> Prop, (forall p'', at_ flags p'' c us args st w -> Q' tt p'') -> wp p_prev p' Q') -> Q tt p') ->
  wp p_next p Q.
Proof using Hp.
  intros Hne HQ. destruct Hp as (Hs & Ha & Hst & Hw). unfold p_next, upd_scanner. rewrite wp_modify. apply HQ.
  - split_and!; [by eapply scans_next|done..].
  - intros Q' HQ'. unfold p_prev, upd_scanner. rewrite wp_modify. apply HQ'. split_and!; [by apply scans_prev|done..].
Qed.
Lemma wp_lookahead {A} (k : Z -> P A) (Q : A -> pstate -> Prop) : c <> 0 ->
  (forall p', at_ flags p' c us args st w -> wp (k (fmt_char us)) p' Q) ->
  wp (p_next ;;; let* t := token in p_prev ;;; k t) p Q.
Proof using Hp.
  intros Hne HQ. rewrite wp_bind. apply wp_next; [done|]. intros p1 Hp1 Hback. rewrite wp_bind. unfold token. rewrite wp_gets.
  destruct Hp1 as ((-> & _) & _). rewrite wp_bind. by apply Hback.
Qed.

(** Work on values. *)
Lemma wp_p_in_world {A} (m : W A) (Q : A -> pstate -> Prop) :
  wp m w (fun a w' => forall p', at_ flags p' c us args st w' -> Q a p') -> wp (p_in_world m) p Q.
Proof using Hp.
  intros Hm. destruct Hp as (Hs & Ha & Hst & Hw). unfold p_in_world. rewrite wp_zoom, Hw. eapply wp_mono; [exact Hm|].
  cbv beta. intros a w' HQ. by apply HQ.
Qed.
End steps.

Lemma wp_next_arg flags p c us a args st w (Q : va -> pstate -> Prop) :
  at_ flags p c us (a :: args) st w -> (forall p', at_ flags p' c us args st w -> Q a p') -> wp next_arg p Q.
Proof. intros (Hs & Ha & Hst & Hw) HQ. unfold next_arg, wp. rewrite Ha. by apply HQ. Qed.

Lemma fuel_bound flags p c us args st w : at_ flags p c us args st w -> (length us <= S (length (sc_fmt (p_scanner p))))%nat.
Proof.
  intros ((_ & _ & _ & _ & _ & Hn) & _). pose proof (length_filter (fun c => is_ignored c = false) (sc_fmt (p_scanner p))) as Hlen.
  fold (strip (sc_fmt (p_scanner p))) in Hlen. destruct (_ =? 0); [subst us; lia|]. destruct Hn as (_ & Hd & _).
  apply (f_equal length) in Hd. rewrite length_drop in Hd. lia.
Qed.

(* ------------------------------------------------------------------ *)
(** ** Descriptions *)

(** A value with the variable into which [json_unpack] is to store it. *)
#[warnings="-register-all"]
Inductive fspec : Type :=
| FNull
| FBool (t : positive) (z : Z)
| FInt (t : positive) (z : Z)
| FInt64 (t : positive) (z : Z)
| FReal (t : positive) (d : double)
| FString (t : positive) (s : bytes)
| FArray (xs : list fspec)
| FObject (ms : list (bytes * fspec)).

(** The format, the arguments of [json_pack], and the tree. *)
Fixpoint fmt_of (sp : fspec) : bytes :=
  match sp with
  | FNull => lit "n" | FBool _ _ => lit "b" | FInt _ _ => lit "i" | FInt64 _ _ => lit "I" | FReal _ _ => lit "f" | FString _ _ => lit "s"
  | FArray xs => lit "[" ++ mjoin (map fmt_of xs) ++ lit "]"
  | FObject ms => lit "{" ++ mjoin (map (fun m => lit "s" ++ fmt_of m.2) ms) ++ lit "}"
  end.
Fixpoint pack_args (sp : fspec) : list va :=
  match sp with
  | FNull => [] | FBool _ z | FInt _ z => [VaInt z] | FInt64 _ z => [VaInt64 z] | FReal _ d => [VaDouble d] | FString _ s => [VaString (Some s)]
  | FArray xs => mjoin (map pack_args xs)
  | FObject ms => mjoin (map (fun m => VaString (Some m.1) :: pack_args m.2) ms)
  end.
Fixpoint tree_of (sp : fspec) : json :=
  match sp with
  | FNull => JNull | FBool _ z => if z =? 0 then JFalse else JTrue | FInt _ z | FInt64 _ z => JInteger z | FReal _ d => JReal d
  | FString _ s => JString s
  | FArray xs => JArray (map tree_of xs)
  | FObject ms => JObject (foldl (fun acc m => aset m.1 m.2 acc) [] (map (fun m => (m.1, tree_of m.2)) ms))
  end.
Fixpoint depth (sp : fspec) : nat :=
  match sp with
  | FArray xs => S (list_max (map depth xs))
  | FObject ms => S (list_max (map (fun m => depth m.2) ms))
  | _ => 1
  end.

(** Texts that the interpreters take: C strings in UTF-8. *)
Definition text_ok (s : bytes) : Prop := is_cstr s /\ utf8_check_string s = true /\ Z.of_nat (length s) < 2 ^ 31.
Fixpoint spec_ok (sp : fspec) : Prop :=
  match sp with
  | FNull | FBool _ _ => True
  | FInt _ z => - 2 ^ 31 <= z < 2 ^ 31
  | FInt64 _ z => INT64_MIN <= z <= INT64_MAX
  | FReal _ d => not_finite d = false
  | FString _ s => text_ok s
  | FArray xs => Z.of_nat (length xs) < 2 ^ 31 /\ foldr and True (map spec_ok xs)
  | FObject ms => Z.of_nat (length ms) < 2 ^ 31 /\ foldr and True (map (fun m => text_ok m.1 /\ spec_ok m.2) ms)
  end.

Lemma foldr_and {A} (P : A -> Prop) (l : list A) : foldr and True (map P l) <-> Forall P l.
Proof. induction l as [|x l IH]; cbn; [by split|]. by rewrite Forall_cons, IH. Qed.

(** The first character of a format; what follows a format is none of the
    characters that the interpreters look for behind a string. *)
Definition follow (us : bytes) : Prop := has_char (fmt_char us) (lit "#%+?*") = false.
Lemma fmt_first sp us : exists c t, fmt_of sp = c :: t /\ c <> 0 /\ follow (fmt_of sp ++ us).
Proof. destruct sp; eexists _, _; (split; [reflexivity|]); done. Qed.

(** Characters that come next, read from a list. *)
Lemma at_shift flags p c us args st w : at_ flags p c us args st w -> forall d t, us = d :: t -> fmt_char us = d /\ drop 1 us = t.
Proof. by intros _ d t ->. Qed.

(* ------------------------------------------------------------------ *)
(** ** Packing *)

(** [pack] made the value of [sp] and read its format and arguments. *)
Definition packed (flags : Z) (sp : fspec) (us : bytes) (args : list va) (st : list (positive * stored)) (w : world)
    (roots : gmultiset loc) (r : json_ptr) (p' : pstate) : Prop :=
  exists l w' c, r = Some l /\ c <> 0 /\ at_ flags p' c us args st w' /\ Inv w' (roots ⊎ {[+ l +]}) ∅ /\ frame ∅ w w' /\
    w_oom w' = [] /\ tree w' (w_next w) l (tree_of sp).
Definition packs (flags : Z) (pack : P json_ptr) (sp : fspec) : Prop := forall p us args st w roots,
  at_ flags p (fmt_char (fmt_of sp)) (drop 1 (fmt_of sp) ++ us) (pack_args sp ++ args) st w -> follow us ->
  Inv w roots ∅ -> w_oom w = [] -> wp pack p (packed flags sp us args st w roots).

(** New leaves. *)
Lemma new_packed flags sp us args st w roots P r w' p' c : c <> 0 -> w_oom w = [] -> new_post w roots ∅ P r w' ->
  (forall l, (w_next w <= l)%positive -> P w' l -> tree w' (w_next w) l (tree_of sp)) ->
  at_ flags p' c us args st w' -> packed flags sp us args st w roots r p'.
Proof.
  intros Hc Ho Hnew Ht Hp. pose proof Hnew as (Hfr & _). destruct (new_post_some _ _ _ _ _ Hnew Ho) as (l & -> & Hinv & Hl & HP).
  exists l, w', c. split_and!; try done; [by apply (fr_oom _ _ _ Hfr)|by apply Ht].
Qed.
Lemma static_packed flags sp us args st w roots l p' c : c <> 0 -> w_oom w = [] -> Inv w roots ∅ -> l ∈ statics ->
  tree w (w_next w) l (tree_of sp) -> at_ flags p' c us args st w -> packed flags sp us args st w roots (Some l) p'.
Proof.
  intros Hc Ho Hinv Hl Ht Hp. exists l, w, c. split_and!; try done. eapply inv_static_root; [exact Hinv|].
  intros m Hm. rewrite multiplicity_disj_union, multiplicity_singleton_ne; [lia|]. by intros ->.
Qed.

Lemma follow_not us : follow us -> (fmt_char us =? chr "#") = false /\ (fmt_char us =? chr "%") = false /\ (fmt_char us =? chr "+") = false /\
  (fmt_char us =? chr "?") = false /\ (fmt_char us =? chr "*") = false.
Proof.
  unfold follow, has_char. cbn [existsb lit]. rewrite !orb_false_iff. intros H. rewrite !(Z.eqb_sym (fmt_char us)). naive_solver.
Qed.

(** A string argument. *)
Lemma read_string_spec flags p c us args st w purpose s (Q : option bytes * bool -> pstate -> Prop) :
  at_ flags p c us (VaString (Some s) :: args) st w -> c <> 0 -> follow us -> text_ok s ->
  (forall p', at_ flags p' c us args st w -> Q (Some s, false) p') -> wp (read_string purpose false) p Q.
Proof.
  intros Hp Hc Hf (Hs & Hu & _) HQ. destruct (follow_not us Hf) as (E1 & E2 & E3 & _). unfold read_string.
  eapply wp_lookahead; [exact Hp|exact Hc|]. intros p1 Hp1. rewrite E1, E2, E3. cbn [negb andb]. unfold arg_string.
  rewrite wp_bind, wp_bind. eapply wp_next_arg; [exact Hp1|]. intros p2 Hp2. rewrite wp_ret, (until_nul_cstr s Hs), Hu, wp_ret. by apply HQ.
Qed.

Lemma pack_string_packs flags v s : text_ok s -> forall p us args st w roots,
  at_ flags p (chr "s") us (VaString (Some s) :: args) st w -> follow us -> Inv w roots ∅ -> w_oom w = [] ->
  wp pack_string p (packed flags (FString v s) us args st w roots).
Proof.
  intros Hs p us args st w roots Hp Hf Hinv Ho. destruct (follow_not us Hf) as (_ & _ & _ & E4 & E5). unfold pack_string.
  rewrite wp_bind. eapply wp_next; [exact Hp|done|]. intros p1 Hp1 Hback. rewrite wp_bind. eapply wp_token; [exact Hp1|].
  rewrite E4, E5. cbn [orb]. rewrite wp_bind. apply Hback. intros p2 Hp2. rewrite wp_bind.
  eapply read_string_spec; [exact Hp2|done|done|done|]. intros p3 Hp3. rewrite wp_bind. eapply wp_has_error; [exact Hp3|].
  eapply wp_p_in_world; [exact Hp3|]. eapply wp_mono; [apply (json_stringn_nocheck_spec w roots ∅ s Hinv)|].
  - destruct Hs as (_ & _ & Hs). unfold SIZE_MAX. lia.
  - intros r w' Hnew p4 Hp4. eapply new_packed; [|done|exact Hnew| |exact Hp4]; [done|]. intros l Hl Hb. by constructor.
Qed.

Lemma pack_integer_packs flags sp z : tree_of sp = JInteger z -> INT64_MIN <= z <= INT64_MAX -> forall p c us args st w roots, c <> 0 ->
  at_ flags p c us args st w -> Inv w roots ∅ -> w_oom w = [] -> wp (pack_integer z) p (packed flags sp us args st w roots).
Proof.
  intros Esp Hz p c us args st w roots Hc Hp Hinv Ho. unfold pack_integer. rewrite wp_bind. eapply wp_p_in_world; [exact Hp|].
  eapply wp_mono; [by apply (json_integer_spec w roots ∅ z)|]. intros r w' Hnew p1 Hp1.
  assert (Hr : packed flags sp us args st w roots r p1).
  { eapply new_packed; [exact Hc|done|exact Hnew| |exact Hp1]. intros l Hl Hb. rewrite Esp. by constructor. }
  pose proof Hr as (l & _ & _ & -> & _). by rewrite wp_bind, !wp_ret.
Qed.

Lemma new_real w roots d : Inv w roots ∅ -> w_oom w = [] -> not_finite d = false ->
  wp (json_real (S754_zero false)) w (fun r w1 => exists l, r = Some l /\
    wp (json_real_set (Some l) d) w1 (fun r' w2 => r' = 0 /\ Inv w2 (roots ⊎ {[+ l +]}) ∅ /\ frame ∅ w w2 /\ w_oom w2 = [] /\
      (w_next w <= l)%positive /\ body_at w2 l (Real d))).
Proof.
  intros Hinv Ho Hd. eapply wp_mono; [by apply (json_real_spec w roots ∅)|]. intros r w1 Hnew. pose proof Hnew as (Hfr & _).
  destruct (new_post_some _ _ _ _ _ Hnew Ho) as (l & -> & Hinv1 & Hl & n & Hn & Hb). exists l. split; [done|].
  assert (Hs : l ∉ statics).
  { intros Hs. destruct (static_body _ _ _ l (n_body n) Hinv1 (ex_intro _ n (conj Hn eq_refl)) Hs) as [[_ E]|[[_ E]|[_ E]]]; congruence. }
  destruct (inv_live _ _ _ l Hinv1) as (n' & Hn' & Hrc); [multiset_solver|]. rewrite Hn in Hn'. injection Hn' as <-.
  unfold json_real_set. rewrite wp_bind. eapply wp_json_is; [by exists n|]. rewrite bool_decide_true by done. cbn [negb orb]. rewrite Hd.
  rewrite wp_bind. eapply wp_put_body; [exact Hn|]. rewrite wp_ret. set (w2 := set_heap _ w1).
  assert (Hfr2 : frame {[l]} w1 w2).
  { split; try done. intros m n' Hm Hne _. cbn in Hm. rewrite lookup_insert_ne in Hm by set_solver. by exists n'. }
  split_and!; [done| |by eapply frame_new|cbn; by apply (fr_oom _ _ _ Hfr)|done|].
  - eapply (inv_put w1 _ (roots ⊎ {[+ l +]})); [exact Hinv1|done|done|done|done|]. by rewrite Hb.
  - eexists. split; [apply lookup_insert_eq|done].
Qed.
Lemma pack_real_packs flags v d : not_finite d = false -> forall p c us args st w roots, c <> 0 ->
  at_ flags p c us args st w -> Inv w roots ∅ -> w_oom w = [] -> wp (pack_real d) p (packed flags (FReal v d) us args st w roots).
Proof.
  intros Hd p c us args st w roots Hc Hp Hinv Ho. unfold pack_real. rewrite wp_bind. eapply wp_p_in_world; [exact Hp|].
  eapply wp_mono; [by apply (new_real w roots d)|]. intros r w1 (l & -> & Hset) p1 Hp1. rewrite wp_bind. eapply wp_p_in_world; [exact Hp1|].
  eapply wp_mono; [exact Hset|]. intros r w2 (-> & Hinv2 & Hfr & Ho2 & Hl & Hb) p2 Hp2. cbn [Z.eqb negb]. rewrite wp_ret.
  exists l, w2, c. split_and!; try done. by constructor.
Qed.

(** *** Containers *)

(** A container [l] under construction since the world [w0]. *)
Definition filling (w0 w : world) (roots : gmultiset loc) (l : loc) : Prop :=
  Inv w (roots ⊎ {[+ l +]}) ∅ /\ frame ∅ w0 w /\ (w_next w0 <= l)%positive /\ w_oom w = [].

Section loops.
Context (flags : Z) (pack : P json_ptr) (us : bytes) (args : list va) (st : list (positive * stored)) (w0 : world) (roots : gmultiset loc) (l : loc).

Lemma filling_step w w1 w2 : filling w0 w roots l -> frame ∅ w w1 -> frame {[l]} w1 w2 -> Inv w2 (roots ⊎ {[+ l +]}) ∅ -> filling w0 w2 roots l.
Proof using.
  intros (Hinv & Hfr & Hl & Ho) H1 H2 Hinv2. assert (Hfr1 : frame ∅ w0 w1) by (by etrans). split_and!; [done|by eapply frame_new|done|].
  apply (fr_oom _ _ _ H2). by apply (fr_oom _ _ _ H1).
Qed.

Lemma pack_array_loop_spec xs : Forall (packs flags pack) xs -> forall fuel p ys ts w,
  (length xs < fuel)%nat -> filling w0 w roots l -> array_at w l ys -> Forall2 (tree w (Pos.succ l)) ys ts ->
  Z.of_nat (length ys) + Z.of_nat (length xs) <= ARRAY_MAX ->
  (let text := mjoin (map fmt_of xs) ++ chr "]" :: us in
   at_ flags p (fmt_char text) (drop 1 text) (mjoin (map pack_args xs) ++ args) st w) ->
  wp (pack_array_loop pack fuel (Some l)) p (fun r p' => exists w' ys', r = Some l /\ at_ flags p' (chr "]") us args st w' /\
    filling w0 w' roots l /\ array_at w' l ys' /\ Forall2 (tree w' (Pos.succ l)) ys' (ts ++ map tree_of xs)).
Proof using.
  induction 1 as [|sp xs Hsp Hxs IH]; intros [|fuel] p ys ts w Hfuel Hfill Ha Ht Hlen Hp; try (cbn in Hfuel; lia); cbn [pack_array_loop].
  - cbn in Hp. rewrite wp_bind. eapply wp_token; [exact Hp|]. change (chr "]" =? chr "]") with true. cbv iota. rewrite wp_bind.
    eapply wp_has_error; [exact Hp|]. rewrite wp_ret. exists w, ys. rewrite app_nil_r. done.
  - change (map fmt_of (sp :: xs)) with (fmt_of sp :: map fmt_of xs) in Hp. change (mjoin (fmt_of sp :: map fmt_of xs)) with (fmt_of sp ++ mjoin (map fmt_of xs)) in Hp.
    change (mjoin (map pack_args (sp :: xs))) with (pack_args sp ++ mjoin (map pack_args xs)) in Hp. cbv zeta in Hp. rewrite <- !app_assoc in Hp.
    set (next := mjoin (map fmt_of xs) ++ chr "]" :: us) in *.
    assert (Hstart : exists c t, fmt_of sp = c :: t /\ c <> 0 /\ c <> chr "]").
    { destruct sp; eexists _, _; (split; [reflexivity|]); done. }
    destruct Hstart as (c & t & Ef & Hc & Hbr). rewrite Ef in Hp. cbn [app fmt_char drop] in Hp.
    assert (Hnext : follow next /\ fmt_char next <> 0).
    { unfold next. destruct xs as [|sp' xs]; [done|]. cbn. rewrite <- app_assoc. destruct (fmt_first sp' (mjoin (map fmt_of xs) ++ chr "]" :: us)) as (c' & t' & E & Hc' & Hf).
      split; [exact Hf|]. by rewrite E. }
    rewrite wp_bind. eapply wp_token; [exact Hp|]. rewrite (proj2 (Z.eqb_neq _ _) Hbr), (proj2 (Z.eqb_neq _ _) Hc).
    unfold lookahead. rewrite wp_bind. rewrite wp_bind. eapply wp_next; [exact Hp|done|]. intros p1 Hp1 Hback.
    rewrite wp_bind. eapply wp_token; [exact Hp1|]. rewrite wp_bind. apply Hback. intros p2 Hp2. rewrite wp_ret, wp_bind.
    destruct Hfill as (Hinv & Hfr0 & Hl & Ho). eapply wp_mono; [eapply (Hsp p2); [by rewrite Ef|apply Hnext|exact Hinv|exact Ho]|].
    intros r p3 (x & w1 & c1 & -> & Hc1 & Hp3 & Hinv1 & Hfr1 & Ho1 & Hx). rewrite wp_bind. eapply wp_has_error; [exact Hp3|].
    rewrite wp_bind, wp_bind. eapply wp_p_in_world; [exact Hp3|].
    eapply wp_mono; [eapply (append_built w w1 roots l x _ Hinv Hinv1 Hfr1 Hx Ho1 ys ts Ha Ht); cbn in Hlen; lia|].
    intros r w2 (-> & Hinv2 & Hfr2 & _ & Ha2 & Ht2) p4 Hp4. cbn [Z.eqb negb]. rewrite wp_ret, wp_bind.
    eapply wp_next; [exact Hp4|exact Hc1|]. intros p5 Hp5 _. replace (ts ++ map tree_of (sp :: xs)) with ((ts ++ [tree_of sp]) ++ map tree_of xs) by (by rewrite <- app_assoc).
    eapply IH; [cbn in Hfuel; lia| |exact Ha2|exact Ht2|rewrite length_app; cbn in *; lia|exact Hp5].
    by eapply (filling_step w w1 w2).
Qed.

Definition add_members (acc : list (bytes * json)) (ms : list (bytes * fspec)) : list (bytes * json) :=
  foldl (fun acc m => aset m.1 m.2 acc) acc (map (fun m => (m.1, tree_of m.2)) ms).

Lemma pack_object_loop_spec ms : Forall (fun m => text_ok m.1 /\ packs flags pack m.2) ms -> forall fuel p items acc w,
  (length ms < fuel)%nat -> filling w0 w roots l -> object_at w l items -> members w (Pos.succ l) (kvs items) acc ->
  Z.of_nat (length items) + Z.of_nat (length ms) < 2 ^ 31 ->
  (let text := mjoin (map (fun m => lit "s" ++ fmt_of m.2) ms) ++ chr "}" :: us in
   at_ flags p (fmt_char text) (drop 1 text) (mjoin (map (fun m => VaString (Some m.1) :: pack_args m.2) ms) ++ args) st w) ->
  wp (pack_object_loop pack fuel (Some l)) p (fun r p' => exists w' items', r = Some l /\ at_ flags p' (chr "}") us args st w' /\
    filling w0 w' roots l /\ object_at w' l items' /\ members w' (Pos.succ l) (kvs items') (add_members acc ms)).
Proof using.
  induction 1 as [|[k sp] ms [Hk Hsp] Hms IH]; intros [|fuel] p items acc w Hfuel Hfill Ha Ht Hlen Hp; try (cbn in Hfuel; lia); cbn [pack_object_loop].
  - cbn in Hp. rewrite wp_bind. eapply wp_token; [exact Hp|]. change (chr "}" =? chr "}") with true. cbv iota. rewrite wp_bind.
    eapply wp_has_error; [exact Hp|]. rewrite wp_ret. by exists w, items.
  - cbn [fst snd] in Hk, Hsp. cbn [map fst snd] in Hp. change (mjoin (?x :: ?y)) with (x ++ mjoin y) in Hp.
    change (lit "s" ++ ?x) with (chr "s" :: x) in Hp. cbv zeta in Hp. cbn [app fmt_char drop] in Hp. rewrite <- !app_assoc in Hp.
    set (next := mjoin (map (fun m => lit "s" ++ fmt_of m.2) ms) ++ chr "}" :: us) in *.
    destruct (fmt_first sp next) as (c & t & Ef & Hc & Hfollow). rewrite drop_0 in Hp.
    assert (Hnext : follow next) by (unfold next; by destruct ms as [|[k' sp'] ms]).
    rewrite wp_bind. eapply wp_token; [exact Hp|]. change (chr "s" =? chr "}") with false. change (chr "s" =? 0) with false.
    change (chr "s" =? chr "s") with true. cbn [negb]. rewrite wp_bind. eapply read_string_spec; [exact Hp|done|exact Hfollow|exact Hk|].
    intros p1 Hp1. rewrite wp_bind. eapply wp_next; [exact Hp1|done|]. intros p2 Hp2 _. rewrite Ef in Hp2. cbn [app fmt_char drop] in Hp2. rewrite drop_0 in Hp2.
    unfold lookahead. rewrite wp_bind, wp_bind. eapply wp_next; [exact Hp2|done|]. intros p3 Hp3 Hback.
    rewrite wp_bind. eapply wp_token; [exact Hp3|]. rewrite wp_bind. apply Hback. intros p4 Hp4. rewrite wp_ret, wp_bind.
    destruct Hfill as (Hinv & Hfr0 & Hl & Ho). eapply wp_mono; [eapply (Hsp p4); [rewrite Ef; cbn [fmt_char drop]; by rewrite drop_0|exact Hnext|exact Hinv|exact Ho]|].
    intros r p5 (x & w1 & c1 & -> & Hc1 & Hp5 & Hinv1 & Hfr1 & Ho1 & Hx). rewrite wp_bind. eapply wp_has_error; [exact Hp5|].
    destruct Hk as (Hcs & _ & Hkl). cbn [fmap option_fmap option_map]. rewrite (until_nul_cstr k Hcs).
    rewrite wp_bind, wp_bind. eapply wp_p_in_world; [exact Hp5|].
    eapply wp_mono; [eapply (set_built w w1 roots l x _ Hinv Hinv1 Hfr1 Hx Ho1 items acc k Ha Ht); [cbn in Hlen; lia|]|].
    { change (Z.of_nat (length k) < SIZE_MAX - OFFSETOF_KEY). unfold SIZE_MAX, OFFSETOF_KEY. lia. }
    intros r w2 (-> & Hinv2 & Hfr2 & _ & items2 & Ha2 & Hlen2 & Ht2) p6 Hp6. cbn [Z.eqb negb]. rewrite wp_ret, wp_bind.
    eapply wp_next; [exact Hp6|exact Hc1|]. intros p7 Hp7 _.
    eapply (IH _ p7 items2 (aset k (tree_of sp) acc) w2); [cbn in Hfuel; lia| |exact Ha2|exact Ht2|cbn in Hlen; lia|exact Hp7].
    by eapply (filling_step w w1 w2).
Qed.
End loops.

(** *** Every description *)

Lemma depth_pos sp : (1 <= depth sp)%nat.
Proof. destruct sp; cbn; lia. Qed.
Lemma depth_elem sp xs : sp ∈ xs -> (depth sp < depth (FArray xs))%nat.
Proof.
  intros Hin. cbn. apply Nat.lt_succ_r. pose proof (proj1 (list_max_le (map depth xs) (list_max (map depth xs))) (Nat.le_refl _)) as Hall.
  rewrite Forall_forall in Hall. apply Hall. apply list_elem_of_fmap. eauto.
Qed.
Lemma depth_member m ms : m ∈ ms -> (depth m.2 < depth (FObject ms))%nat.
Proof.
  intros Hin. cbn. apply Nat.lt_succ_r. set (ds := map (fun m => depth m.2) ms).
  pose proof (proj1 (list_max_le ds (list_max ds)) (Nat.le_refl _)) as Hall.
  rewrite Forall_forall in Hall. apply Hall. unfold ds. apply list_elem_of_fmap. eauto.
Qed.
Lemma fmt_length sp : (1 <= length (fmt_of sp))%nat.
Proof. destruct (fmt_first sp []) as (c & t & -> & _). cbn. lia. Qed.
Lemma join_length {A} (f : A -> bytes) xs : (forall x, x ∈ xs -> (1 <= length (f x))%nat) -> (length xs <= length (mjoin (map f xs)))%nat.
Proof.
  induction xs as [|x xs IH]; intros Hf; [done|]. change (mjoin (map f (x :: xs))) with (f x ++ mjoin (map f xs)). rewrite length_app. cbn [length].
  pose proof (Hf x (list_elem_of_here _ _)). specialize (IH ltac:(intros; apply Hf; by right)). lia.
Qed.

Lemma pack_array_packs flags pk xs p us args st w roots : Forall (packs flags pk) xs -> Z.of_nat (length xs) < 2 ^ 31 ->
  at_ flags p (chr "[") (mjoin (map fmt_of xs) ++ chr "]" :: us) (mjoin (map pack_args xs) ++ args) st w -> Inv w roots ∅ -> w_oom w = [] ->
  wp (pack_array pk (pack_fuel (sc_fmt (p_scanner p)))) p (packed flags (FArray xs) us args st w roots).
Proof.
  intros Hxs Hlen Hp Hinv Ho. pose proof (fuel_bound _ _ _ _ _ _ _ Hp) as Hfb. rewrite length_app in Hfb. cbn [length] in Hfb.
  pose proof (join_length fmt_of xs (fun x _ => fmt_length x)) as Hjoin.
  unfold pack_array. rewrite wp_bind. eapply wp_p_in_world; [exact Hp|]. eapply wp_mono; [by apply (json_array_spec w roots ∅)|].
  intros r w1 Hnew p1 Hp1. pose proof Hnew as (Hfr & _). destruct (new_post_some _ _ _ _ _ Hnew Ho) as (l & -> & Hinv1 & Hl & Ha).
  rewrite wp_bind. eapply wp_next; [exact Hp1|done|]. intros p2 Hp2 _.
  eapply wp_mono; [eapply (pack_array_loop_spec flags pk us args st w roots l xs Hxs _ p2 [] [] w1); [| |done|constructor| |exact Hp2]|].
  - unfold pack_fuel. lia.
  - split_and!; [done..|]. by apply (fr_oom _ _ _ Hfr).
  - cbn. unfold ARRAY_MAX. lia.
  - intros r p3 (w2 & ys & -> & Hp3 & (Hinv2 & Hfr2 & _ & Ho2) & Ha2 & Ht2). exists l, w2, (chr "]"). split_and!; try done. by eapply tree_array.
Qed.
Lemma pack_object_packs flags pk ms p us args st w roots :
  Forall (fun m => text_ok m.1 /\ packs flags pk m.2) ms -> Z.of_nat (length ms) < 2 ^ 31 ->
  at_ flags p (chr "{") (mjoin (map (fun m => lit "s" ++ fmt_of m.2) ms) ++ chr "}" :: us)
    (mjoin (map (fun m => VaString (Some m.1) :: pack_args m.2) ms) ++ args) st w -> Inv w roots ∅ -> w_oom w = [] ->
  wp (pack_object pk (pack_fuel (sc_fmt (p_scanner p)))) p (packed flags (FObject ms) us args st w roots).
Proof.
  intros Hms Hlen Hp Hinv Ho. pose proof (fuel_bound _ _ _ _ _ _ _ Hp) as Hfb. rewrite length_app in Hfb. cbn [length] in Hfb.
  pose proof (join_length (fun m : bytes * fspec => lit "s" ++ fmt_of m.2) ms ltac:(intros m _; cbn; lia)) as Hjoin.
  unfold pack_object. rewrite wp_bind. eapply wp_p_in_world; [exact Hp|]. eapply wp_mono; [by apply (json_object_spec w roots ∅)|].
  intros r w1 Hnew p1 Hp1. pose proof Hnew as (Hfr & _). destruct (new_post_some _ _ _ _ _ Hnew Ho) as (l & -> & Hinv1 & Hl & Ha).
  rewrite wp_bind. eapply wp_next; [exact Hp1|done|]. intros p2 Hp2 _.
  eapply wp_mono; [eapply (pack_object_loop_spec flags pk us args st w roots l ms Hms _ p2 [] [] w1); [| |done|constructor| |exact Hp2]|].
  - unfold pack_fuel. lia.
  - split_and!; [done..|]. by apply (fr_oom _ _ _ Hfr).
  - cbn. lia.
  - intros r p3 (w2 & items & -> & Hp3 & (Hinv2 & Hfr2 & _ & Ho2) & Ha2 & Ht2). exists l, w2, (chr "}"). split_and!; try done. by eapply tree_object.
Qed.

Lemma pack_packs flags fuel : forall sp, (depth sp <= fuel)%nat -> spec_ok sp -> packs flags (pack fuel) sp.
Proof.
  induction fuel as [|fuel IH]; intros sp Hd Hok; [pose proof (depth_pos sp); lia|]. intros p us args st w roots Hp Hf Hinv Ho.
  cbn [pack]. rewrite wp_bind. eapply wp_token; [exact Hp|]. rewrite wp_bind. unfold get_scanner at 1. rewrite wp_gets.
  assert (Hst : the_true ∈ statics /\ the_false ∈ statics /\ the_null ∈ statics) by (unfold statics; set_solver). destruct Hst as (St & Sf & Sn).
  destruct sp as [|v z|v z|v z|v d|v s|xs|ms]; cbn [fmt_of fmt_char lit app] in *.
  - change (wp (ret json_null) p (packed flags FNull us args st w roots)). rewrite wp_ret. eapply static_packed; [|done|done|done|constructor|exact Hp]. done.
  - change (wp (let* z := arg_int in ret (if z =? 0 then json_false else json_true)) p (packed flags (FBool v z) us args st w roots)).
    unfold arg_int. rewrite wp_bind, wp_bind. eapply wp_next_arg; [exact Hp|]. intros p1 Hp1. rewrite wp_ret, wp_ret.
    destruct (z =? 0) eqn:E; (eapply static_packed; [|done|done|done| |exact Hp1]; [done|cbn; rewrite E; constructor]).
  - change (wp (let* z := arg_int in pack_integer z) p (packed flags (FInt v z) us args st w roots)).
    unfold arg_int. rewrite wp_bind, wp_bind. eapply wp_next_arg; [exact Hp|]. intros p1 Hp1. rewrite wp_ret.
    eapply pack_integer_packs; [done| | |exact Hp1|done|done]; [cbn in Hok; unfold INT64_MIN, INT64_MAX; lia|done].
  - change (wp (let* z := arg_int64 in pack_integer z) p (packed flags (FInt64 v z) us args st w roots)).
    unfold arg_int64. rewrite wp_bind, wp_bind. eapply wp_next_arg; [exact Hp|]. intros p1 Hp1. rewrite wp_ret.
    eapply pack_integer_packs; [done|exact Hok| |exact Hp1|done|done]. done.
  - change (wp (let* d := arg_double in pack_real d) p (packed flags (FReal v d) us args st w roots)).
    unfold arg_double. rewrite wp_bind, wp_bind. eapply wp_next_arg; [exact Hp|]. intros p1 Hp1. rewrite wp_ret.
    eapply pack_real_packs; [exact Hok| |exact Hp1|done|done]. done.
  - change (wp pack_string p (packed flags (FString v s) us args st w roots)). by eapply pack_string_packs.
  - change (wp (pack_array (pack fuel) (pack_fuel (sc_fmt (p_scanner p)))) p (packed flags (FArray xs) us args st w roots)).
    cbn [spec_ok] in Hok. rewrite foldr_and in Hok. destruct Hok as [Hlen Hok]. cbn [drop] in Hp. rewrite drop_0, <- app_assoc in Hp.
    apply pack_array_packs; try done. apply Forall_forall. intros x Hx. apply IH; [pose proof (depth_elem x xs Hx); lia|].
    rewrite Forall_forall in Hok. by apply Hok.
  - change (wp (pack_object (pack fuel) (pack_fuel (sc_fmt (p_scanner p)))) p (packed flags (FObject ms) us args st w roots)).
    cbn [spec_ok] in Hok. rewrite foldr_and in Hok. destruct Hok as [Hlen Hok]. cbn [drop] in Hp. rewrite drop_0, <- app_assoc in Hp.
    apply pack_object_packs; try done. apply Forall_forall. intros m Hm. rewrite Forall_forall in Hok. destruct (Hok m Hm) as [Hk Hv]. split; [done|].
    apply IH; [pose proof (depth_member m ms Hm); lia|done].
Qed.

(** *** The entry point *)

Lemma depth_length n : forall sp, (depth sp <= n)%nat -> (depth sp <= length (fmt_of sp))%nat.
Proof.
  assert (Hmax : forall {A} (f : A -> nat) (g : A -> bytes) xs, (forall x, x ∈ xs -> (f x <= length (g x))%nat) ->
    (list_max (map f xs) <= length (mjoin (map g xs)))%nat).
  { intros A f g xs Hx. induction xs as [|x xs IH]; [done|]. change (mjoin (map g (x :: xs))) with (g x ++ mjoin (map g xs)).
    change (list_max (map f (x :: xs))) with (f x `max` list_max (map f xs))%nat. rewrite length_app.
    pose proof (Hx x (list_elem_of_here _ _)). specialize (IH ltac:(intros; apply Hx; by right)). lia. }
  induction n as [|n IH]; intros sp Hd; [pose proof (depth_pos sp); lia|]. pose proof (fmt_length sp) as Hlen.
  destruct sp as [| | | | | |xs|ms]; try done; cbn [depth fmt_of] in *; rewrite !length_app in *.
  - change (length (lit "[")) with 1%nat. change (length (lit "]")) with 1%nat.
    pose proof (Hmax _ depth fmt_of xs) as Hx. specialize (Hx ltac:(intros x Hin; apply IH; pose proof (depth_elem x xs Hin); cbn in *; lia)). lia.
  - change (length (lit "{")) with 1%nat. change (length (lit "}")) with 1%nat.
    pose proof (Hmax _ (fun m => depth m.2) (fun m : bytes * fspec => lit "s" ++ fmt_of m.2) ms) as Hx.
    specialize (Hx ltac:(intros m Hin; cbv beta; rewrite length_app; specialize (IH m.2); pose proof (depth_member m ms Hin); cbn in *; lia)). lia.
Qed.

(** A format for [sp]: its characters in their order, with ignored characters
    anywhere. *)
Definition format_of (f : bytes) (sp : fspec) : Prop := strip f = fmt_of sp /\ is_cstr f.

Lemma format_start f sp error flags : format_of f sp ->
  f <> [] /\ (depth sp <= pack_fuel f)%nat /\
  scans flags (next_token (scanner_init error flags f)) (fmt_char (fmt_of sp)) (drop 1 (fmt_of sp)).
Proof.
  intros [Hf Hc]. assert (Hne : f <> []).
  { intros ->. destruct (fmt_first sp []) as (c & t & E & _). rewrite E in Hf. discriminate Hf. }
  split_and!; [done| |].
  - pose proof (depth_length _ sp (Nat.le_refl _)). unfold pack_fuel. rewrite <- Hf in *.
    pose proof (length_filter (fun c => is_ignored c = false) f). unfold strip in *. lia.
  - rewrite <- Hf. apply scans_init; [done|]. eapply Forall_impl; [exact Hc|]. cbn. lia.
Qed.

Lemma run_scanner_wp {A} error flags f ap (m : P A) w (Q : A -> pstate -> Prop) :
  wp m {| p_scanner := scanner_init error flags f; p_args := ap; p_stores := []; p_world := w |} Q ->
  exists a p', run_scanner error flags f ap m w = inr ((a, sc_error (p_scanner p'), p_stores p'), p_world p') /\ Q a p'.
Proof. intros Hm. apply wp_inv in Hm as (a & p' & E & HQ). exists a, p'. unfold run_scanner. by rewrite E. Qed.

Lemma start_at error flags f sp ap w (Q : unit -> pstate -> Prop) : format_of f sp ->
  (forall p, at_ flags p (fmt_char (fmt_of sp)) (drop 1 (fmt_of sp) ++ []) ap [] w -> Q tt p) ->
  wp p_next {| p_scanner := scanner_init error flags f; p_args := ap; p_stores := []; p_world := w |} Q.
Proof.
  intros Hf HQ. destruct (format_start f sp error flags Hf) as (_ & _ & Hscan). unfold p_next, upd_scanner. rewrite wp_modify.
  apply HQ. rewrite app_nil_r. done.
Qed.

Lemma json_pack_spec f sp error flags w roots : format_of f sp -> spec_ok sp -> Inv w roots ∅ -> w_oom w = [] ->
  exists l e w', json_pack_ex error flags (Some f) (pack_args sp) w = inr ((Some l, e), w') /\
    Inv w' (roots ⊎ {[+ l +]}) ∅ /\ frame ∅ w w' /\ w_oom w' = [] /\ tree w' (w_next w) l (tree_of sp).
Proof.
  intros Hf Hok Hinv Ho. destruct (format_start f sp None flags Hf) as (Hne & Hd & _). destruct f as [|c0 f]; [done|].
  unfold json_pack_ex, json_vpack_ex, bind at 1. set (main := (p_next ;;; _)).
  destruct (run_scanner_wp (jsonp_error_init error None) flags (c0 :: f) (pack_args sp) main w (fun r p' =>
    exists l, r = Some l /\ Inv (p_world p') (roots ⊎ {[+ l +]}) ∅ /\ frame ∅ w (p_world p') /\ w_oom (p_world p') = [] /\
      tree (p_world p') (w_next w) l (tree_of sp))) as (r & p' & E & l & -> & Hinv' & Hfr & Ho' & Ht).
  { unfold main. rewrite wp_bind. apply (start_at _ flags (c0 :: f) sp); [done|]. intros p Hp. rewrite wp_bind.
    eapply wp_mono; [apply (pack_packs flags _ sp Hd Hok p [] [] [] w roots); [by rewrite (app_nil_r (pack_args sp))|done|done|done]|].
    intros r p1 (l & w1 & c & -> & Hc & Hp1 & Hinv1 & Hfr1 & Ho1 & Ht1). rewrite wp_bind. eapply wp_next; [exact Hp1|exact Hc|].
    intros p2 Hp2 _. rewrite wp_bind. eapply wp_token; [exact Hp2|]. cbn [fmt_char Z.eqb negb]. rewrite wp_ret.
    destruct Hp2 as (_ & _ & _ & ->). by exists l. }
  rewrite E. unfold ret. by exists l, (sc_error (p_scanner p')), (p_world p').
Qed.

(** *** The theorem *)

(** C20. [json_pack] of any description of a value (nulls, booleans, integers of both
    widths, finite doubles, UTF-8 strings, and arrays and objects of them to any
    depth and length), written with any spacing and punctuation, returns a new
    value that is exactly the tree described, the last argument winning under
    equal keys; the caller holds its only reference, and no older value changes. *)
Theorem json_pack_builds f sp w roots : format_of f sp -> spec_ok sp -> Inv w roots ∅ -> w_oom w = [] ->
  exists l w', json_pack (Some f) (pack_args sp) w = inr (Some l, w') /\
    Inv w' (roots ⊎ {[+ l +]}) ∅ /\ frame ∅ w w' /\ tree w' (w_next w) l (tree_of sp).
Proof.
  intros Hf Hok Hinv Ho. destruct (json_pack_spec f sp None 0 w roots Hf Hok Hinv Ho) as (l & e & w' & E & Hinv' & Hfr & _ & Ht).
  exists l, w'. split_and!; try done. unfold json_pack. by rewrite (bind_inr _ _ _ _ _ E).
Qed.

(** [json_pack("{s:i, s:[b, n, s], s:{s:I}}", "id", 7, "l", 1, "x", "o", "n", -1)] *)
Definition example_spec : fspec :=
  FObject [(lit "id", FInt 1 7); (lit "l", FArray [FBool 2 1; FNull; FString 3 (lit "x")]);
           (lit "o", FObject [(lit "n", FInt64 4 (-1))])].
Definition example_format : bytes := lit "{s:i, s:[b, n, s], s:{s:I}}".

Lemma json_pack_builds_witness :
  exists l w', json_pack (Some example_format) (pack_args example_spec) (world_init [] 3) = inr (Some l, w') /\
    Inv w' (∅ ⊎ {[+ l +]}) ∅ /\ frame ∅ (world_init [] 3) w' /\
    tree w' 4%positive l (JObject [(lit "id", JInteger 7); (lit "l", JArray [JTrue; JNull; JString (lit "x")]);
                                   (lit "o", JObject [(lit "n", JInteger (-1))])]).
Proof.
  apply (json_pack_builds example_format example_spec (world_init [] 3) ∅); [| |apply inv_init|reflexivity].
  - split; [vm_compute; reflexivity|]. unfold is_cstr, example_format. repeat constructor; vm_compute; congruence.
  - cbn. unfold text_ok, is_cstr, INT64_MIN, INT64_MAX. split_and!; try lia; try (vm_compute; reflexivity);
      try exact I; repeat constructor; vm_compute; congruence.
Defined.
