(* ===== verification/UnpackFacts.v ===== *)
(** * [json_unpack] gives back what [json_pack] was given

    The same format, with the names of variables in the place of the values,
    stores the values in the variables, in order, and changes nothing else. *)

From stdpp Require Import gmultiset.
From Stdlib Require Import SpecFloat.
From S2P Require Import Prelude Utf8 Strbuffer Dlist Hashtable Value Arrays Refcount ValueSpec Iterate.
From S2P Require Import Client Error Strconv Load Dump Grammar Tree Building Equal Pack PackFacts.

(** The arguments of [json_unpack], and what it stores. *)
Fixpoint unpack_args (sp : fspec) : list va :=
  match sp with
  | FNull => []
  | FBool t _ | FInt t _ | FInt64 t _ | FReal t _ | FString t _ => [VaTarget (Some t)]
  | FArray xs => mjoin (map unpack_args xs)
  | FObject ms => mjoin (map (fun m => VaString (Some m.1) :: unpack_args m.2) ms)
  end.
Fixpoint stores_of (sp : fspec) : list (positive * stored) :=
  match sp with
  | FNull => []
  | FBool t z => [(t, StInt (if z =? 0 then 0 else 1))]
  | FInt t z | FInt64 t z => [(t, StInt z)]
  | FReal t d => [(t, StDouble d)]
  | FString t s => [(t, StString (Some s))]
  | FArray xs => mjoin (map stores_of xs)
  | FObject ms => mjoin (map (fun m => stores_of m.2) ms)
  end.
(** No object of the description has a key twice. *)
Fixpoint distinct (sp : fspec) : Prop :=
  match sp with
  | FArray xs => foldr and True (map distinct xs)
  | FObject ms => NoDup (map fst ms) /\ foldr and True (map (fun m => distinct m.2) ms)
  | _ => True
  end.

Lemma wp_store flags p c us args st w t v (Q : unit -> pstate -> Prop) :
  at_ flags p c us args st w -> (forall p', at_ flags p' c us args (st ++ [(t, v)]) w -> Q tt p') -> wp (store (Some t) v) p Q.
Proof.
  intros (Hs & Ha & Hst & Hw) HQ. unfold store. rewrite wp_bind. eapply wp_require; [reflexivity|]. rewrite wp_modify. apply HQ.
  split_and!; try done. cbn. by rewrite Hst.
Qed.
Lemma wp_arg_target flags p c us t args st w (Q : option positive -> pstate -> Prop) :
  at_ flags p c us (VaTarget t :: args) st w -> (forall p', at_ flags p' c us args st w -> Q t p') -> wp arg_target p Q.
Proof. intros Hp HQ. unfold arg_target. rewrite wp_bind. eapply wp_next_arg; [exact Hp|]. intros p' Hp'. rewrite wp_ret. by apply HQ. Qed.

Section unpacking.
Context (flags : Z) (Hvalid : has_flag flags JSON_VALIDATE_ONLY = false).

Definition unpacked (sp : fspec) (us : bytes) (args : list va) (st : list (positive * stored)) (w : world) (r : Z) (p' : pstate) : Prop :=
  r = 0 /\ exists c, c <> 0 /\ at_ flags p' c us args (st ++ stores_of sp) w.
Definition unpacks (u : json_ptr -> P Z) (sp : fspec) : Prop := forall p us args st w lo l roots,
  at_ flags p (fmt_char (fmt_of sp)) (drop 1 (fmt_of sp) ++ us) (unpack_args sp ++ args) st w -> follow us ->
  Inv w roots ∅ -> w_oom w = [] -> tree w lo l (tree_of sp) -> wp (u (Some l)) p (unpacked sp us args st w).

Lemma expect_type_wp p c us args st w ok name l b k (Q : Z -> pstate -> Prop) :
  at_ flags p c us args st w -> body_at w l b -> ok (type_of b) = true ->
  (forall p', at_ flags p' c us args st w -> wp k p' Q) -> wp (expect_type ok name (Some l) k) p Q.
Proof using.
  intros Hp Hb Hok Hk. unfold expect_type. rewrite wp_bind. eapply wp_p_in_world; [exact Hp|]. eapply wp_json_typeof; [exact Hb|].
  intros p' Hp'. rewrite Hok. by apply Hk.
Qed.

(** A value is read and stored. *)
Lemma assign_wp p c us args st w l t (value : W stored) v (Q : Z -> pstate -> Prop) :
  at_ flags p c us (VaTarget (Some t) :: args) st w -> value w = inr (v, w) ->
  (forall p', at_ flags p' c us args (st ++ [(t, v)]) w -> Q 0 p') -> wp (unless_validate (assign (Some l) value)) p Q.
Proof using Hvalid.
  intros Hp Hv HQ. unfold unless_validate. rewrite wp_bind. eapply wp_get_flags; [exact Hp|]. rewrite Hvalid, wp_bind. unfold assign.
  rewrite wp_bind. eapply wp_arg_target; [exact Hp|]. intros p1 Hp1. rewrite wp_bind. eapply wp_p_in_world; [exact Hp1|].
  eapply wp_eq; [exact Hv|]. intros p2 Hp2. eapply wp_store; [exact Hp2|]. intros p3 Hp3. rewrite wp_ret. by apply HQ.
Qed.

Lemma body_is w l b t : body_at w l b -> json_is t (Some l) w = inr (bool_decide (type_of b = t), w).
Proof using.
  intros Hb. assert (Hw : wp (json_is t (Some l)) w (fun r w' => r = bool_decide (type_of b = t) /\ w' = w)) by (by eapply wp_json_is).
  by apply wp_inv in Hw as (? & ? & -> & -> & ->).
Qed.

(** What the accessors of a value of the right type return. *)
Lemma deref_eq w l b : body_at w l b -> exists n, deref l w = inr (n, w) /\ n_body n = b.
Proof using. intros (n & Hn & Hb). exists n. unfold deref. by rewrite Hn. Qed.
Lemma integer_is w l z : body_at w l (Integer z) -> json_integer_value (Some l) w = inr (z, w).
Proof using. intros (n & E & Hb)%deref_eq. unfold json_integer_value. rewrite (bind_inr _ _ _ _ _ E). by rewrite Hb. Qed.
Lemma real_is w l d : body_at w l (Real d) -> json_real_value (Some l) w = inr (d, w).
Proof using. intros (n & E & Hb)%deref_eq. unfold json_real_value. rewrite (bind_inr _ _ _ _ _ E). by rewrite Hb. Qed.
Lemma string_is w l s : body_at w l (Str s) -> json_string_value (Some l) w = inr (Some s, w).
Proof using.
  intros H. pose proof (body_is w l (Str s) JSON_STRING H) as Ht. rewrite bool_decide_true in Ht by done.
  unfold json_string_value. rewrite (bind_inr _ _ _ _ _ Ht). unfold json_to_string. apply deref_eq in H as (n & E & Hb).
  rewrite (bind_inr _ _ _ s w); [done|]. rewrite (bind_inr _ _ _ _ _ E). by rewrite Hb.
Qed.
Lemma constant_at w roots l m : Inv w roots ∅ -> static_heap !! l = Some m -> body_at w l (n_body m).
Proof using. intros Hinv Hm. exists m. split; [|done]. by apply (inv_statics _ _ _ Hinv). Qed.

(** A string, behind which no length is asked for. *)
Lemma unpack_string_wp p us args st w l t s (Q : Z -> pstate -> Prop) :
  at_ flags p (chr "s") us (VaTarget (Some t) :: args) st w -> follow us -> body_at w l (Str s) ->
  (forall p', at_ flags p' (chr "s") us args (st ++ [(t, StString (Some s))]) w -> Q 0 p') -> wp (unpack_string (Some l)) p Q.
Proof using Hvalid.
  intros Hp Hf Hs HQ. destruct (follow_not us Hf) as (_ & E & _). unfold unpack_string. rewrite wp_bind. eapply wp_get_flags; [exact Hp|].
  rewrite Hvalid, wp_bind. eapply wp_arg_target; [exact Hp|]. intros p1 Hp1. rewrite wp_bind. eapply wp_next; [exact Hp1|done|].
  intros p2 Hp2 Hback. rewrite wp_bind. eapply wp_token; [exact Hp2|]. rewrite E, wp_bind, wp_bind. apply Hback. intros p3 Hp3.
  rewrite wp_ret, wp_bind, wp_bind. eapply wp_p_in_world; [exact Hp3|]. eapply wp_eq; [by apply string_is|]. intros p4 Hp4.
  rewrite wp_bind. eapply wp_store; [exact Hp4|]. intros p5 Hp5. rewrite !wp_ret. by apply HQ.
Qed.

(** *** Arrays *)

Lemma fmt_starts sp us : let c := fmt_char (fmt_of sp ++ us) in
  (c =? chr "]") = false /\ (c =? 0) = false /\ (c =? chr "!") || (c =? chr "*") = false /\ has_char c unpack_value_starters = true /\ (c =? chr "?") = false.
Proof using. by destruct sp. Qed.
Lemma fmt_tail sp us : fmt_char (fmt_of sp ++ us) = fmt_char (fmt_of sp) /\ drop 1 (fmt_of sp ++ us) = drop 1 (fmt_of sp) ++ us.
Proof using. destruct (fmt_first sp us) as (c & t & -> & _). done. Qed.

Lemma follow_elements sps us : follow (mjoin (map fmt_of sps) ++ chr "]" :: us).
Proof using.
  destruct sps as [|sp sps]; [done|]. cbn [map]. change (mjoin (?x :: ?y)) with (x ++ mjoin y). rewrite <- app_assoc.
  by destruct (fmt_first sp (mjoin (map fmt_of sps) ++ chr "]" :: us)) as (_ & _ & _ & _ & ?).
Qed.

Lemma elements_spec u w roots l xs us args : Inv w roots ∅ -> w_oom w = [] -> array_at w l xs -> Z.of_nat (length xs) < 2 ^ 31 ->
  forall rest sps, Forall2 (fun x sp => unpacks u sp /\ tree w (Pos.succ l) x (tree_of sp)) rest sps ->
  forall pre fuel p st, xs = pre ++ rest -> (length sps < fuel)%nat ->
  (let text := mjoin (map fmt_of sps) ++ chr "]" :: us in
   at_ flags p (fmt_char text) (drop 1 text) (mjoin (map unpack_args sps) ++ args) st w) ->
  wp (unpack_elements u fuel (Some l) 0 (Z.of_nat (length pre))) p (fun '(r, strict, i) p' =>
    r = 0 /\ strict = 0 /\ i = Z.of_nat (length xs) /\ at_ flags p' (chr "]") us args (st ++ mjoin (map stores_of sps)) w).
Proof using.
  intros Hinv Ho Ha Hlen. induction 1 as [|x sp rest sps [Hu Ht] Hrest IH]; intros pre [|fuel] p st Hxs Hfuel Hp; try (cbn in Hfuel; lia);
    cbn [unpack_elements].
  - cbn in Hp. rewrite wp_bind. eapply wp_token; [exact Hp|]. change (chr "]" =? chr "]") with true. cbv iota. rewrite wp_ret.
    rewrite app_nil_r in *. by subst pre.
  - cbn [map] in Hp. change (mjoin (?x :: ?y)) with (x ++ mjoin y) in Hp. cbv zeta in Hp. rewrite <- !app_assoc in Hp.
    set (next := mjoin (map fmt_of sps) ++ chr "]" :: us) in *.
    assert (Hnext : follow next) by apply follow_elements.
    destruct (fmt_starts sp next) as (E1 & E2 & E3 & E4 & _). rewrite wp_bind. eapply wp_token; [exact Hp|]. rewrite E1, E2, E3, E4.
    cbn [Z.eqb negb]. rewrite wp_bind. eapply wp_p_in_world; [exact Hp|]. eapply wp_mono; [apply (json_array_get_spec w l xs); [done|lia]|].
    intros v w' [-> ->] p1 Hp1. rewrite Nat2Z.id. subst xs. rewrite list_lookup_middle by done.
    destruct (fmt_tail sp next) as [Ec Ed]. rewrite Ec, Ed in Hp1. rewrite wp_bind. eapply wp_mono; [by eapply (Hu p1)|].
    intros r p2 (-> & c & Hc & Hp2). cbn [Z.eqb negb]. rewrite wp_bind. eapply wp_next; [exact Hp2|exact Hc|]. intros p3 Hp3 _.
    rewrite length_app in Hlen. cbn [length] in Hlen. rewrite size_t_small by (unfold SIZE_MAX; lia).
    replace (Z.of_nat (length pre) + 1) with (Z.of_nat (length (pre ++ [x]))) by (rewrite length_app; cbn; lia).
    eapply wp_mono; [eapply (IH (pre ++ [x]) fuel p3); [by rewrite <- app_assoc|cbn in Hfuel; lia|exact Hp3]|].
    intros [[r strict] i] p4 (-> & -> & -> & Hp4). split_and!; try done. cbn [map]. change (mjoin (?x :: ?y)) with (x ++ mjoin y).
    by rewrite app_assoc.
Qed.

(** *** Objects *)

(** The keys that were unpacked. *)
Definition keyset (w : world) (ht : hashtable_t) (ks : list bytes) : Prop :=
  exists items, ht_rep (w_seed w) ht items /\ kvs items = (fun k => (k, the_null)) <$> ks.

Lemma keyset_size w ht ks : keyset w ht ks -> ht_size ht = Z.of_nat (length ks).
Proof using.
  intros (items & [xs Hwf] & Hk). rewrite (wf_size _ _ _ _ Hwf). f_equal. apply (f_equal length) in Hk.
  unfold kvs in Hk. by rewrite !length_fmap in Hk.
Qed.
Lemma keyset_add w ht ks k : keyset w ht ks -> w_oom w = [] -> k ∉ ks -> Z.of_nat (length ks) < 2 ^ 31 -> Z.of_nat (length k) < 2 ^ 31 ->
  exists ht', run_am (hashtable_set (w_seed w) ht k the_null) w = inr ((0, ht', None), w) /\ keyset w ht' (ks ++ [k]).
Proof using.
  intros Hks Ho Hk Hlen Hlk. pose proof (keyset_size w ht ks Hks) as Hsize. destruct Hks as (items & Hrep & Hkvs).
  pose proof (hashtable_set_spec (w_seed w) ht items k the_null [] Hrep ltac:(lia)) as Hset.
  apply wp_inv in Hset as ([[r ht'] old] & o' & E & Ho' & items' & Hrep' & [(-> & Hkv & -> & _)|(_ & _ & _ & [?|Hbig])]); [|done|].
  - rewrite (Ho' eq_refl) in E. assert (Hnew : k ∉ (kvs items).*1) by (rewrite Hkvs, <- list_fmap_compose; unfold compose; cbn; by rewrite list_fmap_id).
    rewrite (proj2 (alookup_None k (kvs items)) Hnew) in E. exists ht'. split; [by apply run_am_nil|]. exists items'. split; [done|].
    rewrite Hkv, aset_new, Hkvs, fmap_app by done. done.
  - unfold MAX_KEY, SIZE_MAX, OFFSETOF_KEY in Hbig. lia.
Qed.

Lemma follow_members (ms : list (bytes * fspec)) us : follow (mjoin (map (fun m => lit "s" ++ fmt_of m.2) ms) ++ chr "}" :: us).
Proof using. by destruct ms. Qed.

Lemma members_spec u w roots l items us args : Inv w roots ∅ -> w_oom w = [] -> object_at w l items ->
  forall ms, Forall (fun m => text_ok m.1 /\ unpacks u m.2 /\ exists x, alookup m.1 (kvs items) = Some x /\ tree w (Pos.succ l) x (tree_of m.2)) ms ->
  forall fuel p st ht ks, (length ms < fuel)%nat -> keyset w ht ks -> NoDup (ks ++ map fst ms) -> Z.of_nat (length ks + length ms) < 2 ^ 31 ->
  (let text := mjoin (map (fun m => lit "s" ++ fmt_of m.2) ms) ++ chr "}" :: us in
   at_ flags p (fmt_char text) (drop 1 text) (mjoin (map (fun m => VaString (Some m.1) :: unpack_args m.2) ms) ++ args) st w) ->
  wp (unpack_members u fuel (Some l) 0 false ht) p (fun '(r, strict, gotopt, ht') p' => r = 0 /\ strict = 0 /\ gotopt = false /\
    keyset w ht' (ks ++ map fst ms) /\ at_ flags p' (chr "}") us args (st ++ mjoin (map (fun m => stores_of m.2) ms)) w).
Proof using.
  intros Hinv Ho Hobj. induction 1 as [|[k sp] ms (Hk & Hu & x & Hx & Ht) Hms IH]; intros [|fuel] p st ht ks Hfuel Hks Hnd Hlen Hp;
    try (cbn in Hfuel; lia); cbn [unpack_members].
  - cbn in Hp. rewrite wp_bind. eapply wp_token; [exact Hp|]. change (chr "}" =? chr "}") with true. cbv iota. rewrite wp_ret.
    cbn [map]. by rewrite !app_nil_r.
  - cbn [fst snd] in Hk, Hu, Hx, Ht. cbn [map fst snd] in Hp. change (mjoin (?x :: ?y)) with (x ++ mjoin y) in Hp.
    cbv zeta in Hp. rewrite <- !app_assoc in Hp. set (next := mjoin (map (fun m => lit "s" ++ fmt_of m.2) ms) ++ chr "}" :: us) in *.
    change (lit "s" ++ ?x) with (chr "s" :: x) in Hp. cbn [app fmt_char drop] in Hp. rewrite drop_0 in Hp.
    cbn [map fst] in Hnd. pose proof Hnd as (Hknd & Hdisj & _)%NoDup_app. assert (Hkn : k ∉ ks) by (intros Hin; apply (Hdisj k Hin); by left).
    rewrite wp_bind. eapply wp_token; [exact Hp|]. change (chr "s" =? chr "}") with false. change (chr "s" =? 0) with false.
    change ((chr "s" =? chr "!") || (chr "s" =? chr "*")) with false. change (chr "s" =? chr "s") with true. cbn [negb Z.eqb].
    unfold arg_string. rewrite wp_bind, wp_bind. eapply wp_next_arg; [exact Hp|]. intros p1 Hp1. rewrite wp_ret, wp_bind.
    eapply wp_next; [exact Hp1|done|]. intros p2 Hp2 _. destruct (fmt_starts sp next) as (_ & _ & _ & _ & E5).
    rewrite wp_bind. eapply wp_token; [exact Hp2|]. rewrite E5, wp_bind, wp_ret, wp_bind. destruct Hk as (Hcs & _ & Hkl).
    rewrite (until_nul_cstr k Hcs). eapply wp_p_in_world; [exact Hp2|]. eapply wp_mono; [by apply (json_object_get_spec w l items)|].
    intros v w' [-> ->] p3 Hp3. rewrite Hx. destruct (fmt_tail sp next) as [Ec Ed]. rewrite Ec, Ed in Hp3. rewrite wp_bind.
    eapply wp_mono; [eapply (Hu p3); [exact Hp3|apply follow_members|exact Hinv|exact Ho|exact Ht]|].
    intros r p4 (-> & c & Hc & Hp4). cbn [Z.eqb negb orb]. rewrite wp_bind. eapply wp_p_in_world; [exact Hp4|]. rewrite wp_gets.
    intros p5 Hp5. cbn [length] in Hlen. destruct (keyset_add w ht ks k Hks Ho Hkn) as (ht' & Eset & Hks'); [lia..|].
    rewrite wp_bind. eapply wp_p_in_world; [exact Hp5|]. eapply wp_eq; [exact Eset|]. intros p6 Hp6. rewrite wp_bind.
    eapply wp_p_in_world; [exact Hp6|]. eapply wp_eq; [reflexivity|]. intros p7 Hp7. rewrite wp_bind. eapply wp_next; [exact Hp7|exact Hc|].
    intros p8 Hp8 _. eapply wp_mono; [eapply (IH fuel p8 _ ht' (ks ++ [k])); [cbn in Hfuel; lia|done| | |exact Hp8]|].
    + by rewrite <- app_assoc.
    + rewrite length_app. cbn [length]. lia.
    + intros [[[r strict] gotopt] ht''] p9 (-> & -> & -> & Hks'' & Hp9). split_and!; try done; [by rewrite <- app_assoc in Hks''|].
      cbn [map]. change (mjoin (?x :: ?y)) with (x ++ mjoin y). by rewrite app_assoc.
Qed.

(** *** Every description *)

Lemma array_size_is w l xs : array_at w l xs -> json_array_size (Some l) w = inr (Z.of_nat (length xs), w).
Proof using. intros Ha. pose proof (json_array_size_spec w l xs Ha) as H. by apply wp_inv in H as (? & ? & -> & -> & ->). Qed.
Lemma object_size_is w l items : object_at w l items -> json_object_size (Some l) w = inr (Z.of_nat (length items), w).
Proof using. intros Ho. pose proof (json_object_size_spec w l items Ho) as H. by apply wp_inv in H as (? & ? & -> & -> & ->). Qed.
Lemma set_init w : w_oom w = [] -> exists ht, run_am hashtable_init w = inr (Some ht, w) /\ keyset w ht [].
Proof using.
  intros Ho. pose proof (hashtable_init_spec []) as H. apply wp_inv in H as ([ht|] & o' & E & Ho' & Hrep); [|done].
  rewrite (Ho' eq_refl) in E. exists ht. split; [by apply run_am_nil|]. by exists [].
Qed.

Lemma paired {A B C} (P : A -> Prop) (f : A -> B) (R : C -> B -> Prop) xs ys :
  Forall P ys -> Forall2 R xs (map f ys) -> Forall2 (fun x y => P y /\ R x (f y)) xs ys.
Proof using.
  intros Hys. revert xs. induction Hys as [|y ys Hy Hys IH]; intros xs Hxs; cbn in Hxs; inversion Hxs; subst; constructor; auto.
Qed.

Lemma unpack_array_unpacks u xs p us args st w lo l roots : Forall (unpacks u) xs -> Z.of_nat (length xs) < 2 ^ 31 ->
  at_ flags p (chr "[") (mjoin (map fmt_of xs) ++ chr "]" :: us) (mjoin (map unpack_args xs) ++ args) st w -> Inv w roots ∅ -> w_oom w = [] ->
  tree w lo l (tree_of (FArray xs)) ->
  wp (unpack_array u (pack_fuel (sc_fmt (p_scanner p))) (Some l)) p (unpacked (FArray xs) us args st w).
Proof using.
  intros Hxs Hlen Hp Hinv Ho Ht. pose proof (fuel_bound _ _ _ _ _ _ _ Hp) as Hfb. rewrite length_app in Hfb. cbn [length] in Hfb.
  pose proof (join_length fmt_of xs (fun x _ => fmt_length x)) as Hjoin. cbn [tree_of] in Ht. inversion Ht as [| | | | | |? ? ys ? _ Ha Hys|]; subst.
  pose proof (Forall2_length _ _ _ Hys) as Hly. rewrite length_map in Hly. pose proof Ha as (a & Hb & _).
  unfold unpack_array. eapply expect_type_wp; [exact Hp|exact Hb|done|]. intros p1 Hp1. rewrite wp_bind. eapply wp_next; [exact Hp1|done|].
  intros p2 Hp2 _. rewrite wp_bind.
  eapply wp_mono; [eapply (elements_spec u w roots l ys us args Hinv Ho Ha ltac:(lia) ys xs (paired _ _ _ _ _ Hxs Hys) [] _ p2 st); [done| |exact Hp2]|].
  - unfold pack_fuel. lia.
  - intros [[r strict] i] p3 (-> & -> & -> & Hp3). cbn [Z.eqb negb andb]. rewrite wp_bind. eapply wp_get_flags; [exact Hp3|].
    rewrite wp_bind. eapply wp_p_in_world; [exact Hp3|]. eapply wp_eq; [by apply array_size_is|]. intros p4 Hp4.
    rewrite Z.eqb_refl, andb_false_r, wp_ret. split; [done|]. by exists (chr "]").
Qed.

(** Members under distinct keys are kept as they come. *)
Lemma aset_all {V} (ms acc : list (bytes * V)) : NoDup (acc ++ ms).*1 -> foldl (fun acc m => aset m.1 m.2 acc) acc ms = acc ++ ms.
Proof using.
  revert acc. induction ms as [|[k v] ms IH]; intros acc Hnd; [by rewrite app_nil_r|]. cbn [foldl fst snd].
  rewrite aset_new; [rewrite IH; rewrite <- app_assoc; done|]. rewrite fmap_app in Hnd. apply NoDup_app in Hnd as (_ & Hd & _).
  intros Hk. apply (Hd k Hk). by left.
Qed.
Lemma members_find w lo items (ms : list (bytes * fspec)) : NoDup (keys items) ->
  Forall2 (fun a b => a.1 = b.1 /\ tree w lo a.2 b.2) (kvs items) (map (fun m => (m.1, tree_of m.2)) ms) ->
  forall m, m ∈ ms -> exists x, alookup m.1 (kvs items) = Some x /\ tree w lo x (tree_of m.2).
Proof using.
  intros Hnd Hall m [i Hi]%list_elem_of_lookup.
  destruct (Forall2_lookup_r _ _ _ i (m.1, tree_of m.2) Hall) as ([k x] & Hx & Hk & Ht); [by apply (list_lookup_fmap_Some_2 (fun m => (m.1, tree_of m.2)))|].
  cbn [fst snd] in *. subst k. exists x. split; [|done]. apply elem_alookup; [|by eapply list_elem_of_lookup_2].
  unfold keys in Hnd. unfold kvs. by rewrite <- list_fmap_compose.
Qed.

Lemma unpack_object_unpacks u ms p us args st w lo l roots : Forall (fun m => text_ok m.1 /\ unpacks u m.2) ms -> NoDup (map fst ms) ->
  Z.of_nat (length ms) < 2 ^ 31 ->
  at_ flags p (chr "{") (mjoin (map (fun m => lit "s" ++ fmt_of m.2) ms) ++ chr "}" :: us)
    (mjoin (map (fun m => VaString (Some m.1) :: unpack_args m.2) ms) ++ args) st w -> Inv w roots ∅ -> w_oom w = [] ->
  tree w lo l (tree_of (FObject ms)) ->
  wp (unpack_object u (pack_fuel (sc_fmt (p_scanner p))) (Some l)) p (unpacked (FObject ms) us args st w).
Proof using.
  intros Hms Hnd Hlen Hp Hinv Ho Ht. pose proof (fuel_bound _ _ _ _ _ _ _ Hp) as Hfb. rewrite length_app in Hfb. cbn [length] in Hfb.
  pose proof (join_length (fun m : bytes * fspec => lit "s" ++ fmt_of m.2) ms ltac:(intros m _; cbn; lia)) as Hjoin.
  cbn [tree_of] in Ht. rewrite aset_all in Ht by (rewrite app_nil_l, <- (list_fmap_compose (fun m : bytes * fspec => (m.1, tree_of m.2)) fst); exact Hnd).
  rewrite app_nil_l in Ht. inversion Ht as [| | | | | | |? ? items ? _ Ha Hall]; subst. pose proof Ha as (oht & Hb & xs & Hwf).
  pose proof (Forall2_length _ _ _ Hall) as Hli. unfold kvs in Hli. rewrite length_fmap, length_map in Hli.
  destruct (set_init w Ho) as (ht0 & E0 & Hks0). unfold unpack_object. rewrite wp_bind. eapply wp_p_in_world; [exact Hp|].
  eapply wp_eq; [exact E0|]. intros p1 Hp1. eapply expect_type_wp; [exact Hp1|exact Hb|done|]. intros p2 Hp2. rewrite wp_bind.
  eapply wp_next; [exact Hp2|done|]. intros p3 Hp3 _. rewrite wp_bind.
  eapply wp_mono; [eapply (members_spec u w roots l items us args Hinv Ho Ha ms _ _ p3 st ht0 []); [|exact Hks0|exact Hnd| |exact Hp3]|].
  - unfold pack_fuel. lia.
  - cbn [length]. lia.
  - intros [[[r strict] gotopt] ht] p4 (-> & -> & -> & Hks & Hp4). pose proof (keyset_size _ _ _ Hks) as Hsize. rewrite app_nil_l, length_map in Hsize.
    assert (Hclose : forall p, at_ flags p (chr "}") us args (st ++ stores_of (FObject ms)) w ->
      wp (p_in_world (parents_close ht) ;;; ret 0) p (unpacked (FObject ms) us args st w)).
    { intros p5 Hp5. rewrite wp_bind. eapply wp_p_in_world; [exact Hp5|]. destruct Hks as (kitems & Hrep & Hk).
      eapply wp_eq; [eapply (close_nulls w (inv_quiet _ _ _ Hinv)); [exact Hrep|]; rewrite Hk; by apply Forall_fmap, Forall_true|].
      intros p6 Hp6. rewrite wp_ret. split; [done|]. by exists (chr "}"). }
    rewrite wp_bind. eapply wp_get_flags; [exact Hp4|]. cbn [Z.eqb negb andb orb].
    destruct (has_flag flags JSON_STRICT); cbn [Z.eqb Pos.eqb]; rewrite wp_bind; [|rewrite wp_ret; by apply Hclose].
    rewrite wp_bind. eapply wp_p_in_world; [exact Hp4|]. eapply wp_eq; [by apply object_size_is|]. intros p5 Hp5.
    rewrite Hsize, Hli, Z.eqb_refl. cbn [negb]. rewrite wp_ret. by apply Hclose.
  Unshelve. apply Forall_forall. intros m Hm. rewrite Forall_forall in Hms. destruct (Hms m Hm) as [Hk Hu]. split_and!; [done..|].
  eapply (members_find w); [apply (wf_keys _ _ _ _ Hwf)|exact Hall|exact Hm].
Qed.

Lemma unpack_unpacks fuel : forall sp, (depth sp <= fuel)%nat -> spec_ok sp -> distinct sp -> unpacks (unpack fuel) sp.
Proof using Hvalid.
  induction fuel as [|fuel IH]; intros sp Hd Hok Hdis; [pose proof (depth_pos sp); lia|]. intros p us args st w lo l roots Hp Hf Hinv Ho Ht.
  cbn [unpack]. rewrite wp_bind. eapply wp_token; [exact Hp|]. rewrite wp_bind. unfold get_scanner at 1. rewrite wp_gets.
  assert (Hdone : forall c t v p', c <> 0 -> stores_of sp = [(t, v)] -> at_ flags p' c us args (st ++ [(t, v)]) w -> unpacked sp us args st w 0 p').
  { intros c t v p' Hc E Hp'. split; [done|]. exists c. by rewrite E. }
  destruct sp as [|v z|v z|v z|v d|v s|xs|ms]; cbn [fmt_of fmt_char lit app] in *.
  - inversion Ht; subst. eapply (expect_type_wp p (chr "n")); [exact Hp|by eapply (constant_at w roots the_null)|done|].
    intros p1 Hp1. rewrite wp_ret. split; [done|]. exists (chr "n"). cbn. by rewrite app_nil_r.
  - cbn [tree_of] in Ht. assert (Hb : exists b, body_at w l b /\ is_boolean (type_of b) = true /\ bool_decide (type_of b = JSON_TRUE) = negb (z =? 0)).
    { destruct (z =? 0); inversion Ht; subst; eexists; (split; [by eapply constant_at|done]). }
    destruct Hb as (b & Hb & Hbool & Htrue). eapply (expect_type_wp p (chr "b")); [exact Hp|exact Hb|exact Hbool|]. intros p1 Hp1.
    eapply assign_wp; [exact Hp1|rewrite (bind_inr _ _ _ _ _ (body_is w l b JSON_TRUE Hb)); reflexivity|]. intros p2 Hp2.
    eapply Hdone; [|reflexivity|]; [|rewrite Htrue in Hp2; by destruct (z =? 0)]. done.
  - inversion Ht; subst. eapply (expect_type_wp p (chr "i")); [exact Hp|eassumption|done|]. intros p1 Hp1.
    eapply assign_wp; [exact Hp1|rewrite (bind_inr _ _ _ z w) by (by apply integer_is); reflexivity|]. intros p2 Hp2.
    rewrite int32_small in Hp2 by exact Hok. eapply Hdone; [|reflexivity|exact Hp2]. done.
  - inversion Ht; subst. eapply (expect_type_wp p (chr "I")); [exact Hp|eassumption|done|]. intros p1 Hp1.
    eapply assign_wp; [exact Hp1|rewrite (bind_inr _ _ _ z w) by (by apply integer_is); reflexivity|]. intros p2 Hp2. eapply Hdone; [|reflexivity|exact Hp2]. done.
  - inversion Ht; subst. eapply (expect_type_wp p (chr "f")); [exact Hp|eassumption|done|]. intros p1 Hp1.
    eapply assign_wp; [exact Hp1|rewrite (bind_inr _ _ _ d w) by (by apply real_is); reflexivity|]. intros p2 Hp2. eapply Hdone; [|reflexivity|exact Hp2]. done.
  - inversion Ht; subst. eapply (expect_type_wp p (chr "s")); [exact Hp|eassumption|done|]. intros p1 Hp1.
    eapply unpack_string_wp; [exact Hp1|exact Hf|eassumption|]. intros p2 Hp2. eapply Hdone; [|reflexivity|exact Hp2]. done.
  - change (wp (unpack_array (unpack fuel) (pack_fuel (sc_fmt (p_scanner p))) (Some l)) p (unpacked (FArray xs) us args st w)).
    cbn [spec_ok distinct] in Hok, Hdis. rewrite foldr_and in Hok, Hdis. destruct Hok as [Hlen Hok]. cbn [drop] in Hp. rewrite drop_0, <- app_assoc in Hp.
    eapply unpack_array_unpacks; try done. apply Forall_forall. intros x Hx. rewrite Forall_forall in Hok, Hdis.
    apply IH; [pose proof (depth_elem x xs Hx); lia|by apply Hok|by apply Hdis].
  - change (wp (unpack_object (unpack fuel) (pack_fuel (sc_fmt (p_scanner p))) (Some l)) p (unpacked (FObject ms) us args st w)).
    cbn [spec_ok distinct] in Hok, Hdis. rewrite foldr_and in Hok, Hdis. destruct Hok as [Hlen Hok], Hdis as [Hnd Hdis].
    cbn [drop] in Hp. rewrite drop_0, <- app_assoc in Hp. eapply unpack_object_unpacks; try done. apply Forall_forall. intros m Hm.
    rewrite Forall_forall in Hok, Hdis. destruct (Hok m Hm) as [Hk Hv]. split; [done|].
    apply IH; [pose proof (depth_member m ms Hm); lia|done|by apply (Hdis m)].
Qed.
End unpacking.

(** *** The entry point *)

Lemma json_unpack_spec f sp error flags w roots lo l : format_of f sp -> spec_ok sp -> distinct sp ->
  has_flag flags JSON_VALIDATE_ONLY = false -> Inv w roots ∅ -> w_oom w = [] -> tree w lo l (tree_of sp) ->
  exists e, json_unpack_ex (Some l) error flags (Some f) (unpack_args sp) w = inr ((0, e, stores_of sp), w).
Proof.
  intros Hf Hok Hdis Hv Hinv Ho Ht. destruct (format_start f sp None flags Hf) as (Hne & Hd & _). destruct f as [|c0 f]; [done|].
  unfold json_unpack_ex, json_vunpack_ex. set (main := (p_next ;;; _)).
  destruct (run_scanner_wp (jsonp_error_init error None) flags (c0 :: f) (unpack_args sp) main w (fun r p' =>
    r = 0 /\ p_stores p' = stores_of sp /\ p_world p' = w)) as (r & p' & E & -> & Es & Ew).
  { unfold main. rewrite wp_bind. apply (start_at _ flags (c0 :: f) sp); [done|]. intros p Hp. rewrite wp_bind.
    eapply wp_mono; [eapply (unpack_unpacks flags Hv _ sp Hd Hok Hdis p [] [] [] w lo l roots); [by rewrite (app_nil_r (unpack_args sp))|done..]|].
    intros r p1 (-> & c & Hc & Hp1). cbn [Z.eqb negb]. rewrite wp_bind. eapply wp_next; [exact Hp1|exact Hc|].
    intros p2 Hp2 _. rewrite wp_bind. eapply wp_token; [exact Hp2|]. cbn [fmt_char Z.eqb negb]. rewrite wp_ret.
    by destruct Hp2 as (_ & _ & -> & ->). }
  rewrite E, Es, Ew. by eexists.
Qed.

(** *** The theorem *)

(** C19. [json_unpack] inverts [json_pack]: of the value that [json_pack] builds from a
    description without equal keys in one object, [json_unpack_ex] with a format of
    the same characters (the spacing and punctuation of the two may differ), with
    or without [JSON_STRICT], returns 0 and stores exactly the arguments of
    [json_pack], in order (a boolean as 0 or 1), in the variables it is given;
    the value and the rest of the heap are as before. *)
Theorem json_pack_unpack f g sp error flags w roots : format_of f sp -> format_of g sp -> spec_ok sp -> distinct sp ->
  has_flag flags JSON_VALIDATE_ONLY = false -> Inv w roots ∅ -> w_oom w = [] ->
  exists l w' e, json_pack (Some f) (pack_args sp) w = inr (Some l, w') /\
    json_unpack_ex (Some l) error flags (Some g) (unpack_args sp) w' = inr ((0, e, stores_of sp), w').
Proof.
  intros Hf Hg Hok Hdis Hv Hinv Ho. destruct (json_pack_spec f sp None 0 w roots Hf Hok Hinv Ho) as (l & e & w' & E & Hinv' & _ & Ho' & Ht).
  destruct (json_unpack_spec g sp error flags w' _ _ l Hg Hok Hdis Hv Hinv' Ho' Ht) as (e' & E'). exists l, w', e'. split; [|done].
  unfold json_pack. by rewrite (bind_inr _ _ _ _ _ E).
Qed.

Lemma json_pack_unpack_witness :
  exists l w' e, json_pack (Some example_format) (pack_args example_spec) (world_init [] 3) = inr (Some l, w') /\
    json_unpack_ex (Some l) None JSON_STRICT (Some (lit "{sis[bns]s{sI}}")) (unpack_args example_spec) w' =
      inr ((0, e, [(1%positive, StInt 7); (2%positive, StInt 1); (3%positive, StString (Some (lit "x"))); (4%positive, StInt (-1))]), w').
Proof.
  apply (json_pack_unpack example_format (lit "{sis[bns]s{sI}}") example_spec None JSON_STRICT (world_init [] 3) ∅);
    [| | | |reflexivity|apply inv_init|reflexivity].
  - split; [vm_compute; reflexivity|]. unfold is_cstr, example_format. repeat constructor; vm_compute; congruence.
  - split; [vm_compute; reflexivity|]. unfold is_cstr. repeat constructor; vm_compute; congruence.
  - cbn. unfold text_ok, is_cstr, INT64_MIN, INT64_MAX. split_and!; try lia; try (vm_compute; reflexivity);
      try exact I; repeat constructor; vm_compute; congruence.
  - cbn. split_and!; try exact I; apply (bool_decide_unpack _); vm_compute; exact I.
Defined.
