(* ===== verification/Natives.v ===== *)
(** * The JSON natives of the extension (src/json_natives.cpp)

    What a plugin can do with JSON: every native, as a function of its
    parameters, over the JSON library and SourceMod's handle system.  The
    handle system is not part of the repository: it is the class
    [HandleSystem], with the laws its documentation gives ([HandleLaws]). *)

From stdpp Require Import gmultiset.
From Stdlib Require Import SpecFloat.
From S2P Require Import Prelude Utf8 Strbuffer Dlist Hashtable Value Error Strconv Load Dump.

(* ------------------------------------------------------------------ *)
(** ** Handles *)

(** The handle types that [SDK_OnLoad] creates. *)
Inductive HandleType : Type :=
| htHTTPClient
| htHTTPRequest
| htHTTPResponse
| htJSON
| htJSONObjectKeys.
#[export] Instance HandleType_eq_dec : EqDecision HandleType.
Proof. solve_decision. Defined.

(** The pointers the extension stores in handles: JSON values, and addresses
    of [JSONObjectKeys] and of other C++ objects. *)
Inductive hobject : Type :=
| PJSON (json : json_ptr)
| PKeys (keys : positive)
| POther (object : positive).
#[export] Instance hobject_eq_dec : EqDecision hobject.
Proof. solve_decision. Defined.

Definition BAD_HANDLE : Z := 0.

(** [IHandleSys] *)
Class HandleSystem (HS : Type) : Type := {
  (** the new handle, or [BAD_HANDLE] and the error *)
  CreateHandleEx : HandleType -> hobject -> HS -> (Z * Z) * HS;
  (** the error, or the object *)
  ReadHandle : Z -> HandleType -> HS -> Z + hobject;
  (** the object to destroy, if this was the last handle to it *)
  FreeHandle : Z -> HS -> option (HandleType * hobject) * HS;
  (** the objects that handles own *)
  owned : HS -> list (HandleType * hobject)
}.

Class HandleLaws (HS : Type) `{HandleSystem HS} : Prop := {
  create_owned t o hs h err hs' :
    CreateHandleEx t o hs = ((h, err), hs') ->
    if h =? BAD_HANDLE then owned hs' ≡ₚ owned hs else owned hs' ≡ₚ (t, o) :: owned hs;
  read_owned h t hs o : ReadHandle h t hs = inr o -> (t, o) ∈ owned hs;
  free_owned h hs o hs' :
    FreeHandle h hs = (o, hs') ->
    match o with Some x => owned hs ≡ₚ x :: owned hs' | None => owned hs' ≡ₚ owned hs end
}.

(* ------------------------------------------------------------------ *)
(** ** State and environment *)

(** [struct JSONObjectKeys] of src/extension.h *)
Record JSONObjectKeys := { k_object : json_ptr; k_iter : option positive }.

(** What natives tell the plugin. *)
Inductive native_error : Type :=
| InvalidHandle (hndl err : Z)
| NoHandle (err : Z)
| NoKey (key : bytes)
| NoIndex (index : Z)
| InvalidJSON (line column : Z) (text : bytes)
| EmptyArgument
| NoForward
| NoSession
| NoFile (path : bytes).
Inductive event : Type :=
| ThrowNativeError (e : native_error)
| StringToLocalUTF8 (addr maxbytes : Z) (source : bytes)
| LogError (e : native_error).

Record nstate (HS : Type) := {
  n_world : world;
  n_handles : HS;
  n_keys : gmap positive JSONObjectKeys;   (* the allocated [JSONObjectKeys] *)
  n_fresh : positive;                      (* an address that was never used *)
  n_events : list event
}.
Arguments n_world {HS}.
Arguments n_handles {HS}.
Arguments n_keys {HS}.
Arguments n_fresh {HS}.
Arguments n_events {HS}.

(** The call as the native sees it: its parameters, the strings of the plugin,
    the paths and files of the server, and the locale. *)
Record env := {
  params : Z -> Z;
  LocalToString : Z -> bytes;
  BuildPath : bytes -> bytes;
  fopen_read : bytes -> bytes + list (option Z);
  fopen_write : bytes -> option file;
  fclose_result : Z;
  decimal_point : Z;
  error_block : json_error_t      (* the uninitialised local [json_error_t] *)
}.

(* ------------------------------------------------------------------ *)
(** ** Cells *)

(** [cell_t] is a 32-bit [int]; floats travel as their bits. *)
Definition FLT_PREC : Z := 24.
Definition FLT_EMAX : Z := 128.

Definition sp_ctof (c : Z) : spec_float :=
  let u := uint32 c in
  let s := Z.testbit u 31 in
  let e := Z.land (Z.shiftr u 23) 255 in
  let m := Z.land u (2 ^ 23 - 1) in
  if e =? 255 then (if m =? 0 then S754_infinity s else S754_nan)
  else
    let (m, e) := if e =? 0 then (m, -149) else (m + 2 ^ 23, e - 150) in
    match m with Zpos p => S754_finite s p e | _ => S754_zero s end.

Definition sp_ftoc (f : spec_float) : Z :=
  let sign (s : bool) := if s then 2 ^ 31 else 0 in
  int32 (match f with
         | S754_zero s => sign s
         | S754_infinity s => sign s + 255 * 2 ^ 23
         | S754_nan => 255 * 2 ^ 23 + 2 ^ 22
         | S754_finite s m e =>
             sign s + (if Zpos m <? 2 ^ 23 then Zpos m else (e + 150) * 2 ^ 23 + (Zpos m - 2 ^ 23))
         end).

(** the conversions between [float] and [double] *)
Definition convert_float (prec emax : Z) (f : spec_float) : spec_float :=
  match f with
  | S754_finite s m e => binary_normalize prec emax (if s then Zneg m else Zpos m) e s
  | _ => f
  end.
Definition double_of_float (f : spec_float) : double := convert_float DBL_PREC DBL_EMAX f.
Definition float_of_double (d : double) : spec_float := convert_float FLT_PREC FLT_EMAX d.

(** [strtoll(s, NULL, 10)] of any string: white space and a sign first *)
Fixpoint skip_isspace (s : bytes) : bytes :=
  match s with
  | c :: s' => if (c =? chr " ") || ((9 <=? c) && (c <=? 13)) then skip_isspace s' else s
  | [] => []
  end.
Definition strtoll_value (s : bytes) : Z :=
  match skip_isspace s with
  | c :: s' => if c =? chr "+" then
                 (if match s' with d :: _ => d =? chr "-" | [] => false end then 0 else (strtoll s').1.1)
               else (strtoll (c :: s')).1.1
  | [] => 0
  end.

(** the inline function of jansson.h *)
Definition json_array_set (array : json_ptr) (index : Z) (value : json_ptr) : W Z :=
  let* v := json_incref value in json_array_set_new array index v.

(* ------------------------------------------------------------------ *)
(** ** The natives *)

Section natives.
Context {HS : Type} `{HandleSystem HS}.
Abbreviation N := (ST (nstate HS)).

Definition set_n_world (w : world) (s : nstate HS) : nstate HS :=
  {| n_world := w; n_handles := n_handles s; n_keys := n_keys s; n_fresh := n_fresh s; n_events := n_events s |}.
Definition set_n_handles (hs : HS) (s : nstate HS) : nstate HS :=
  {| n_world := n_world s; n_handles := hs; n_keys := n_keys s; n_fresh := n_fresh s; n_events := n_events s |}.
Definition set_n_keys (ks : gmap positive JSONObjectKeys) (s : nstate HS) : nstate HS :=
  {| n_world := n_world s; n_handles := n_handles s; n_keys := ks; n_fresh := n_fresh s; n_events := n_events s |}.
Definition in_json {A} (m : W A) : N A := zoom n_world set_n_world m.
Definition tell (e : event) : N unit :=
  modify (fun s => {| n_world := n_world s; n_handles := n_handles s; n_keys := n_keys s; n_fresh := n_fresh s;
                      n_events := n_events s ++ [e] |}).

(** [return pContext->ThrowNativeError(...)] *)
Definition throw (e : native_error) : N Z := tell (ThrowNativeError e) ;;; ret 0.

(** [handlesys->CreateHandleEx(t, o, &sec, NULL, &err)] and what follows it:
    [undo] when there is no handle, [finish] when there is one *)
Definition create_handle (t : HandleType) (o : hobject) (undo finish : N unit) : N Z :=
  let* hs := gets n_handles in
  let '((hndl, err), hs') := CreateHandleEx t o hs in
  modify (set_n_handles hs') ;;;
  if hndl =? BAD_HANDLE then
    undo ;;;
    let* _ := throw (NoHandle err) in ret BAD_HANDLE
  else finish ;;; ret (int32 hndl).

Definition GetJSONFromHandle (hndl : Z) : N json_ptr :=
  let* hs := gets n_handles in
  match ReadHandle (uint32 hndl) htJSON hs with
  | inl err => let* _ := throw (InvalidHandle (uint32 hndl) err) in ret None
  | inr (PJSON json) => ret json
  | inr _ => fail UndefinedBehaviour
  end.

(** [json_t *object = GetJSONFromHandle(...); if (object == NULL) return 0;] *)
Definition with_json (hndl : Z) (k : json_ptr -> N Z) : N Z :=
  let* json := GetJSONFromHandle hndl in
  match json with None => ret 0 | Some _ => k json end.

(** [(call == 0)] as a cell *)
Definition succeeded (m : W Z) : N Z := let* r := in_json m in ret (if r =? 0 then 1 else 0).
Definition bool_cell (b : bool) : Z := if b then 1 else 0.

Section calls.
Variable e : env.
Abbreviation param i := (params e i).
Abbreviation string_param i := (LocalToString e (params e i)).
(** [int index = params[i]], passed as a [size_t] *)
Abbreviation index_param i := (size_t (params e i)).

(** *** Objects *)

Definition CreateObject : N Z :=
  let* object := in_json json_object in
  create_handle htJSON (PJSON object) (in_json (json_decref object)) (ret tt).

Definition GetObjectSize : N Z :=
  with_json (param 1) (fun object =>
    let* n := in_json (json_object_size object) in ret (int32 n)).

(** A value inside a container gets a handle of its own, with a reference. *)
Definition value_handle (value : json_ptr) (missing : native_error) : N Z :=
  match value with
  | None => throw missing
  | Some _ =>
      create_handle htJSON (PJSON value) (ret tt) (let* _ := in_json (json_incref value) in ret tt)
  end.

Definition GetObjectValue : N Z :=
  with_json (param 1) (fun object =>
    let key := string_param 2 in
    let* value := in_json (json_object_get object (Some key)) in
    value_handle value (NoKey key)).

(** The member of the key, or an error. *)
Definition object_member (k : json_ptr -> N Z) : N Z :=
  with_json (param 1) (fun object =>
    let key := string_param 2 in
    let* value := in_json (json_object_get object (Some key)) in
    match value with None => throw (NoKey key) | Some _ => k value end).

Definition bool_value (value : json_ptr) : N Z :=
  let* b := in_json (json_is JSON_TRUE value) in ret (bool_cell b).
Definition float_value (value : json_ptr) : N Z :=
  let* d := in_json (json_number_value value) in ret (sp_ftoc (float_of_double d)).
Definition int_value (value : json_ptr) : N Z :=
  let* z := in_json (json_integer_value value) in ret (int32 z).
Definition null_value (value : json_ptr) : N Z :=
  let* b := in_json (json_is JSON_NULL value) in ret (bool_cell b).

Definition GetObjectBoolValue : N Z := object_member bool_value.
Definition GetObjectFloatValue : N Z := object_member float_value.
Definition GetObjectIntValue : N Z := object_member int_value.
Definition IsObjectNullValue : N Z := object_member null_value.

(** [char result[20]] *)
Definition INT64_BUFFER : Z := 20.
Definition write_int64 (value : json_ptr) : N Z :=
  let* z := in_json (json_integer_value value) in
  let result := snprintf INT64_BUFFER (printf_d z) in
  tell (StringToLocalUTF8 (param 3) (param 4) result) ;;;
  ret 1.
Definition write_string (value : json_ptr) : N Z :=
  let* result := in_json (json_string_value value) in
  match result with
  | None => ret 0
  | Some s => tell (StringToLocalUTF8 (param 3) (param 4) (until_nul s)) ;;; ret 1
  end.

Definition GetObjectInt64Value : N Z :=
  with_json (param 1) (fun object =>
    let* value := in_json (json_object_get object (Some (string_param 2))) in
    match value with None => ret 0 | Some _ => write_int64 value end).
Definition GetObjectStringValue : N Z :=
  with_json (param 1) (fun object =>
    let* value := in_json (json_object_get object (Some (string_param 2))) in
    match value with None => ret 0 | Some _ => write_string value end).
Definition IsObjectKeyValid : N Z :=
  with_json (param 1) (fun object =>
    let* value := in_json (json_object_get object (Some (string_param 2))) in
    ret (bool_cell (bool_decide (is_Some value)))).

Definition SetObjectValue : N Z :=
  with_json (param 1) (fun object =>
    let key := string_param 2 in
    with_json (param 3) (fun value => succeeded (json_object_set object (Some key) value))).

(** [json_t *value = ...; return json_object_set_new(object, key, value) == 0;] *)
Definition set_object (make : W json_ptr) : N Z :=
  with_json (param 1) (fun object =>
    let key := string_param 2 in
    let* value := in_json make in
    succeeded (json_object_set_new object (Some key) value)).

Definition make_bool (c : Z) : W json_ptr := ret (if c =? 0 then json_false else json_true).
Definition make_float (c : Z) : W json_ptr := json_real (double_of_float (sp_ctof c)).

Definition SetObjectBoolValue : N Z := set_object (make_bool (param 3)).
Definition SetObjectFloatValue : N Z := set_object (make_float (param 3)).
Definition SetObjectIntValue : N Z := set_object (json_integer (param 3)).
Definition SetObjectInt64Value : N Z := set_object (json_integer (strtoll_value (string_param 3))).
Definition SetObjectNullValue : N Z := set_object (ret json_null).
Definition SetObjectStringValue : N Z := set_object (json_string (Some (string_param 3))).

Definition RemoveFromObject : N Z :=
  with_json (param 1) (fun object => succeeded (json_object_del object (Some (string_param 2)))).
Definition ClearObject : N Z :=
  with_json (param 1) (fun object => succeeded (json_object_clear object)).

(** *** Keys *)

(** [new JSONObjectKeys(object)] and [delete] *)
Definition new_keys (object : json_ptr) : N positive :=
  let* iter := in_json (json_object_iter object) in
  let* k := gets n_fresh in
  modify (fun s => {| n_world := n_world s; n_handles := n_handles s;
                      n_keys := <[k := {| k_object := object; k_iter := iter |}]> (n_keys s);
                      n_fresh := Pos.succ k; n_events := n_events s |}) ;;;
  ret k.
Definition delete_keys (k : positive) : N unit :=
  let* ks := gets n_keys in
  let* _ := require (ks !! k) in
  modify (set_n_keys (delete k ks)).

Definition CreateObjectKeys : N Z :=
  with_json (param 1) (fun object =>
    let* keys := new_keys object in
    create_handle htJSONObjectKeys (PKeys keys) (delete_keys keys) (ret tt)).

(** [keys->GetKey()] and [keys->Next()] *)
Definition GetKey (keys : JSONObjectKeys) : N (option bytes) :=
  match k_iter keys, k_object keys with
  | None, _ => ret None
  | Some _, Some l => in_json (json_object_iter_key l (k_iter keys))
  | Some _, None => fail UndefinedBehaviour
  end.
Definition Next (k : positive) (keys : JSONObjectKeys) : N unit :=
  let* iter := in_json (json_object_iter_next (k_object keys) (k_iter keys)) in
  let* ks := gets n_keys in
  modify (set_n_keys (<[k := {| k_object := k_object keys; k_iter := iter |}]> ks)).

Definition ReadObjectKey : N Z :=
  let* hs := gets n_handles in
  match ReadHandle (uint32 (param 1)) htJSONObjectKeys hs with
  | inl err => throw (InvalidHandle (uint32 (param 1)) err)
  | inr (PKeys k) =>
      let* ks := gets n_keys in
      let* keys := require (ks !! k) in
      let* key := GetKey keys in
      match key with
      | None => ret 0
      | Some key =>
          tell (StringToLocalUTF8 (param 2) (param 3) (until_nul key)) ;;;
          Next k keys ;;;
          ret 1
      end
  | inr _ => fail UndefinedBehaviour
  end.

(** *** Arrays *)

Definition CreateArray : N Z :=
  let* object := in_json json_array in
  create_handle htJSON (PJSON object) (in_json (json_decref object)) (ret tt).
Definition GetArraySize : N Z :=
  with_json (param 1) (fun object =>
    let* n := in_json (json_array_size object) in ret (int32 n)).

Definition GetArrayValue : N Z :=
  with_json (param 1) (fun object =>
    let* value := in_json (json_array_get object (index_param 2)) in
    value_handle value (NoIndex (param 2))).

(** The element at the index, or an error. *)
Definition array_element (k : json_ptr -> N Z) : N Z :=
  with_json (param 1) (fun object =>
    let* value := in_json (json_array_get object (index_param 2)) in
    match value with None => throw (NoIndex (param 2)) | Some _ => k value end).

Definition GetArrayBoolValue : N Z := array_element bool_value.
Definition GetArrayFloatValue : N Z := array_element float_value.
Definition GetArrayIntValue : N Z := array_element int_value.
Definition GetArrayInt64Value : N Z := array_element write_int64.
Definition GetArrayStringValue : N Z := array_element write_string.
Definition IsArrayNullValue : N Z := array_element null_value.

Definition SetArrayValue : N Z :=
  with_json (param 1) (fun object =>
    with_json (param 3) (fun value =>
      succeeded (json_array_set object (index_param 2) value))).
Definition set_array (make : W json_ptr) : N Z :=
  with_json (param 1) (fun object =>
    let* value := in_json make in
    succeeded (json_array_set_new object (index_param 2) value)).
Definition SetArrayBoolValue : N Z := set_array (make_bool (param 3)).
Definition SetArrayFloatValue : N Z := set_array (make_float (param 3)).
Definition SetArrayIntValue : N Z := set_array (json_integer (param 3)).
Definition SetArrayInt64Value : N Z := set_array (json_integer (strtoll_value (string_param 3))).
Definition SetArrayNullValue : N Z := set_array (ret json_null).
Definition SetArrayStringValue : N Z := set_array (json_string (Some (string_param 3))).

Definition PushArrayValue : N Z :=
  with_json (param 1) (fun object =>
    with_json (param 2) (fun value => succeeded (json_array_append object value))).
Definition push_array (make : W json_ptr) : N Z :=
  with_json (param 1) (fun object =>
    let* value := in_json make in
    succeeded (json_array_append_new object value)).
Definition PushArrayBoolValue : N Z := push_array (make_bool (param 2)).
Definition PushArrayFloatValue : N Z := push_array (make_float (param 2)).
Definition PushArrayIntValue : N Z := push_array (json_integer (param 2)).
Definition PushArrayInt64Value : N Z := push_array (json_integer (strtoll_value (string_param 2))).
Definition PushArrayNullValue : N Z := push_array (ret json_null).
Definition PushArrayStringValue : N Z := push_array (json_string (Some (string_param 2))).

Definition RemoveFromArray : N Z :=
  with_json (param 1) (fun object => succeeded (json_array_remove object (index_param 2))).
Definition ClearArray : N Z :=
  with_json (param 1) (fun object => succeeded (json_array_clear object)).

(** *** Texts and files *)

(** A decoded value becomes a handle; a rejected text an error.  [error] is the
    local variable of the native, which always exists. *)
Definition handle_of_text (load : json_error_ptr -> W (json_ptr * json_error_ptr)) : N Z :=
  let* (object, error) := in_json (load (Some (error_block e))) in
  match object with
  | None =>
      let err := default (error_block e) error in
      let* _ := throw (InvalidJSON (e_line err) (e_column err) (e_text err)) in ret BAD_HANDLE
  | Some _ => create_handle htJSON (PJSON object) (in_json (json_decref object)) (ret tt)
  end.

Definition FromString : N Z :=
  handle_of_text (json_loads (decimal_point e) (Some (string_param 1)) (size_t (param 2))).
Definition FromFile : N Z :=
  let path := BuildPath e (string_param 1) in
  handle_of_text (json_load_file (decimal_point e) (Some path) (fopen_read e path) (size_t (param 2))).

Definition ToString : N Z :=
  with_json (param 1) (fun object =>
    let* result := in_json (json_dumps (decimal_point e) object (size_t (param 4))) in
    match result with
    | None => ret 0
    | Some s => tell (StringToLocalUTF8 (param 2) (param 3) s) ;;; ret 1
    end).
(** the file is kept by the file system *)
Definition ToFile : N Z :=
  with_json (param 1) (fun object =>
    let path := BuildPath e (string_param 2) in
    let* (r, _) := in_json (json_dump_file (decimal_point e) object (fopen_write e path) (fclose_result e)
                              (size_t (param 3))) in
    ret (bool_cell (r =? 0))).
End calls.

(** *** Closing a handle (src/extension.cpp) *)

(** [JSONHandler::OnHandleDestroy] and [JSONObjectKeysHandler::OnHandleDestroy];
    the objects of the other types are not modelled here *)
Definition OnHandleDestroy (t : HandleType) (o : hobject) : N unit :=
  match t, o with
  | htJSON, PJSON json => in_json (json_decref json)
  | htJSONObjectKeys, PKeys k => delete_keys k
  | htJSON, _ | htJSONObjectKeys, _ => fail UndefinedBehaviour
  | _, _ => ret tt
  end.

(** The plugin closes a handle with [delete]. *)
Definition CloseHandle (hndl : Z) : N unit :=
  let* hs := gets n_handles in
  let (o, hs') := FreeHandle (uint32 hndl) hs in
  modify (set_n_handles hs') ;;;
  match o with Some (t, o) => OnHandleDestroy t o | None => ret tt end.

(** *** The table of natives *)

Definition json_natives : list (string * (env -> N Z)) := [
  ("JSONObject.JSONObject", fun _ => CreateObject);
  ("JSONObject.Size.get", GetObjectSize);
  ("JSONObject.Get", GetObjectValue);
  ("JSONObject.GetBool", GetObjectBoolValue);
  ("JSONObject.GetFloat", GetObjectFloatValue);
  ("JSONObject.GetInt", GetObjectIntValue);
  ("JSONObject.GetInt64", GetObjectInt64Value);
  ("JSONObject.GetString", GetObjectStringValue);
  ("JSONObject.IsNull", IsObjectNullValue);
  ("JSONObject.HasKey", IsObjectKeyValid);
  ("JSONObject.Set", SetObjectValue);
  ("JSONObject.SetBool", SetObjectBoolValue);
  ("JSONObject.SetFloat", SetObjectFloatValue);
  ("JSONObject.SetInt", SetObjectIntValue);
  ("JSONObject.SetInt64", SetObjectInt64Value);
  ("JSONObject.SetNull", SetObjectNullValue);
  ("JSONObject.SetString", SetObjectStringValue);
  ("JSONObject.Remove", RemoveFromObject);
  ("JSONObject.Clear", ClearObject);
  ("JSONObject.Keys", CreateObjectKeys);
  ("JSONObjectKeys.ReadKey", ReadObjectKey);
  ("JSONArray.JSONArray", fun _ => CreateArray);
  ("JSONArray.Length.get", GetArraySize);
  ("JSONArray.Get", GetArrayValue);
  ("JSONArray.GetBool", GetArrayBoolValue);
  ("JSONArray.GetFloat", GetArrayFloatValue);
  ("JSONArray.GetInt", GetArrayIntValue);
  ("JSONArray.GetInt64", GetArrayInt64Value);
  ("JSONArray.GetString", GetArrayStringValue);
  ("JSONArray.IsNull", IsArrayNullValue);
  ("JSONArray.Set", SetArrayValue);
  ("JSONArray.SetBool", SetArrayBoolValue);
  ("JSONArray.SetFloat", SetArrayFloatValue);
  ("JSONArray.SetInt", SetArrayIntValue);
  ("JSONArray.SetInt64", SetArrayInt64Value);
  ("JSONArray.SetNull", SetArrayNullValue);
  ("JSONArray.SetString", SetArrayStringValue);
  ("JSONArray.Push", PushArrayValue);
  ("JSONArray.PushBool", PushArrayBoolValue);
  ("JSONArray.PushFloat", PushArrayFloatValue);
  ("JSONArray.PushInt", PushArrayIntValue);
  ("JSONArray.PushInt64", PushArrayInt64Value);
  ("JSONArray.PushNull", PushArrayNullValue);
  ("JSONArray.PushString", PushArrayStringValue);
  ("JSONArray.Remove", RemoveFromArray);
  ("JSONArray.Clear", ClearArray);
  ("JSONObject.FromString", FromString);
  ("JSONObject.FromFile", FromFile);
  ("JSONArray.FromString", FromString);
  ("JSONArray.FromFile", FromFile);
  ("JSON.ToString", ToString);
  ("JSON.ToFile", ToFile)
]%string.
End natives.
