(* ===== verification/Plugin.v ===== *)
(** * Plugins are safe

    Whatever a plugin does with the JSON natives -- any handles, valid or not,
    any keys, indices and texts, closing handles in any order -- every
    reference count stays exact: each handle owns one reference, and freed
    memory is never touched. *)

From stdpp Require Import gmultiset.
From Stdlib Require Import SpecFloat.
From S2P Require Import Prelude Utf8 Strbuffer Dlist Hashtable Value Arrays Refcount ValueSpec Iterate.
From S2P Require Import Client Error Strconv Load Dump Grammar Numbers Stream Tree Decode Print Views Dumps Equal Natives.

(* ------------------------------------------------------------------ *)
(** ** Reading values a client can reach *)

Section reading.
Context (w : world) (roots : gmultiset loc) (Hinv : Inv w roots ∅).

(** Looking into a container gives something alive. *)
Definition child_post (r : json_ptr) (w' : world) : Prop :=
  w' = w /\ match r with Some v => v ∈ refs (w_heap w) ⊎ roots | None => True end.

Lemma in_held_roots l : l ∈ roots -> l ∈ refs (w_heap w) ⊎ roots.
Proof using. intros Hl. apply gmultiset_elem_of_disj_union. by right. Qed.

Lemma object_get_safe l k : l ∈ roots -> wp (json_object_get (Some l) (Some k)) w child_post.
Proof using Hinv.
  intros Hl. destruct (held_cases _ _ _ Hinv Hl) as [[items Ho]|Hother].
  - eapply wp_mono; [by apply json_object_get_spec|]. intros r w' [-> ->]. split; [done|].
    destruct (alookup k (kvs items)) as [v|] eqn:E; [|done].
    apply (object_child w roots ∅ Hinv l items (k, v)); [by apply in_held_roots|done|by apply alookup_elem].
  - assert (exists b, body_at w l b /\ type_of b <> JSON_OBJECT) as (b & Hb & Ht).
    { destruct Hother as [(xs & a & Hb & _)|(b & Hb & ? & _)]; eauto. }
    unfold json_object_get. wp_step. eapply wp_json_is; [exact Hb|]. by rewrite bool_decide_false.
Qed.

Lemma array_get_safe l i : l ∈ roots -> 0 <= i -> wp (json_array_get (Some l) i) w child_post.
Proof using Hinv.
  intros Hl Hi. destruct (held_cases _ _ _ Hinv Hl) as [(items & ht & Hb & _)|[[xs Ha]|(b & Hb & _ & Ht)]].
  - unfold json_array_get. wp_step. by eapply wp_json_is; [exact Hb|].
  - eapply wp_mono; [by apply json_array_get_spec|]. intros r w' [-> ->]. split; [done|].
    destruct (xs !! Z.to_nat i) as [v|] eqn:E; [|done].
    apply (array_child w roots ∅ Hinv l xs v); [by apply in_held_roots|done|by eapply list_elem_of_lookup_2].
  - unfold json_array_get. wp_step. eapply wp_json_is; [exact Hb|]. by rewrite bool_decide_false.
Qed.

(** Accessors of one node only read. *)
Definition reads {A} (m : W A) : Prop := wp m w (fun _ w' => w' = w).

Section node.
Context (v : loc) (Hv : v ∈ refs (w_heap w) ⊎ roots).
Lemma live_body : exists b, body_at w v b.
Proof using Hinv Hv. destruct (inv_live _ _ _ _ Hinv Hv) as (n & Hn & _). by exists (n_body n), n. Qed.

Lemma json_is_reads t : reads (json_is t (Some v)).
Proof using Hinv Hv. destruct live_body as (b & Hb). by eapply wp_json_is. Qed.
Lemma integer_value_reads : reads (json_integer_value (Some v)).
Proof using Hinv Hv.
  destruct live_body as (b & n & Hn & _). unfold reads, json_integer_value. wp_step. eapply wp_deref; [exact Hn|].
  by destruct (n_body n).
Qed.
Lemma real_value_reads : reads (json_real_value (Some v)).
Proof using Hinv Hv.
  destruct live_body as (b & n & Hn & _). unfold reads, json_real_value. wp_step. eapply wp_deref; [exact Hn|].
  by destruct (n_body n).
Qed.
Lemma number_value_reads : reads (json_number_value (Some v)).
Proof using Hinv Hv.
  unfold reads, json_number_value. wp_step. eapply wp_mono; [apply json_is_reads|]. cbv beta. intros i ? ->.
  wp_step. eapply wp_mono; [apply json_is_reads|]. cbv beta. intros r ? ->. destruct i; [|destruct r; [apply real_value_reads|done]].
  wp_step. eapply wp_mono; [apply integer_value_reads|]. cbv beta. intros z ? ->. done.
Qed.
Lemma string_value_reads : reads (json_string_value (Some v)).
Proof using Hinv Hv.
  destruct live_body as (b & Hb). unfold reads, json_string_value. wp_step. eapply wp_json_is; [exact Hb|].
  case_bool_decide as E; [|done]. destruct Hb as (n & Hn & <-). unfold json_to_string. wp_step. wp_step.
  eapply wp_deref; [exact Hn|]. by destruct (n_body n).
Qed.
End node.

Lemma object_size_reads l : l ∈ roots -> reads (json_object_size (Some l)).
Proof using Hinv.
  intros Hl. destruct (held_cases _ _ _ Hinv Hl) as [[items Ho]|Hother].
  - eapply wp_mono; [by apply json_object_size_spec|]. by intros r w' [-> _].
  - assert (exists b, body_at w l b /\ type_of b <> JSON_OBJECT) as (b & Hb & Ht).
    { destruct Hother as [(xs & a & Hb & _)|(b & Hb & ? & _)]; eauto. }
    unfold reads, json_object_size. wp_step. eapply wp_json_is; [exact Hb|]. by rewrite bool_decide_false.
Qed.
Lemma array_size_reads l : l ∈ roots -> reads (json_array_size (Some l)).
Proof using Hinv.
  intros Hl. destruct (held_cases _ _ _ Hinv Hl) as [(items & ht & Hb & _)|[[xs Ha]|(b & Hb & _ & Ht)]].
  - unfold reads, json_array_size. wp_step. by eapply wp_json_is; [exact Hb|].
  - eapply wp_mono; [by apply json_array_size_spec|]. by intros r w' [-> _].
  - unfold reads, json_array_size. wp_step. eapply wp_json_is; [exact Hb|]. by rewrite bool_decide_false.
Qed.
Lemma object_iter_reads l : l ∈ roots -> reads (json_object_iter (Some l)).
Proof using Hinv.
  intros Hl. destruct (held_cases _ _ _ Hinv Hl) as [[items Ho]|Hother].
  - eapply wp_mono; [by apply json_object_iter_spec|]. by intros r w' [-> _].
  - assert (exists b, body_at w l b /\ type_of b <> JSON_OBJECT) as (b & Hb & Ht).
    { destruct Hother as [(xs & a & Hb & _)|(b & Hb & ? & _)]; eauto. }
    unfold reads, json_object_iter. wp_step. eapply wp_json_is; [exact Hb|]. by rewrite bool_decide_false.
Qed.
End reading.

(** Containers keep their room while others change. *)
Lemma room_keep w w' rs rs' l :
  Inv w rs ∅ -> Inv w' rs' ∅ -> frame ∅ w w' -> l ∈ rs -> l ∈ rs' -> room_at w l -> room_at w' l.
Proof.
  intros Hinv Hinv' Hfr Hl Hl' [Ho Ha].
  pose proof (in_held_roots w' rs' l Hl') as Hlive.
  assert (Hkeep : forall b, body_at w l b -> body_at w' l b).
  { intros b. eapply body_keep; [done|done|done|done|apply not_elem_of_empty]. }
  destruct (held_cases _ _ _ Hinv Hl) as [[items H]|[[xs H]|(b & Hb & H1 & H2)]].
  - pose proof (object_keep _ _ _ _ _ _ _ Hinv Hinv' Hfr l items Hlive (not_elem_of_empty _) H) as H'.
    split.
    + intros items' Hi. rewrite <- (object_at_perm _ _ _ _ H' Hi). by apply Ho.
    + intros xs' (a & Hb' & _). destruct H' as (ht & Hb & _). by pose proof (body_at_fun _ _ _ _ Hb Hb').
  - pose proof (array_keep _ _ _ _ _ _ _ Hinv Hinv' Hfr l xs Hlive (not_elem_of_empty _) H) as H'.
    split.
    + intros items' (ht & Hb' & _). destruct H' as (a & Hb & _). by pose proof (body_at_fun _ _ _ _ Hb Hb').
    + intros xs' Hx. rewrite <- (array_at_fun _ _ _ _ H' Hx). by apply Ha.
  - split.
    + intros items' (ht & Hb' & _). pose proof (body_at_fun _ _ _ _ (Hkeep _ Hb) Hb'). by subst b.
    + intros xs' (a & Hb' & _). pose proof (body_at_fun _ _ _ _ (Hkeep _ Hb) Hb'). by subst b.
Qed.

(** ** Making values and giving them to containers *)

(** A constructor: the caller owns the result. *)
Definition makes (w : world) (roots : gmultiset loc) (m : W json_ptr) : Prop :=
  wp m w (fun r w' => frame ∅ w w' /\ Inv w' (roots ⊎ opt_mset r) ∅).

Lemma new_makes w roots m P : wp m w (new_post w roots ∅ P) -> makes w roots m.
Proof.
  intros Hm. eapply wp_mono; [exact Hm|]. intros r w' (Hfr & _ & _ & Hr). split; [done|].
  destruct r as [l|]; [apply Hr|]. destruct Hr as [Hr _]. cbn. by rewrite gmultiset_disj_union_right_id.
Qed.
Lemma ret_none_makes w roots : Inv w roots ∅ -> makes w roots (ret None).
Proof. intros Hinv. unfold makes. rewrite wp_ret. split; [done|]. cbn. by rewrite gmultiset_disj_union_right_id. Qed.
Lemma static_makes w roots l : Inv w roots ∅ -> l ∈ statics -> makes w roots (ret (Some l)).
Proof.
  intros Hinv Hl. unfold makes. rewrite wp_ret. split; [done|]. cbn. eapply inv_static_root; [exact Hinv|].
  intros m Hm. rewrite multiplicity_disj_union, multiplicity_singleton_ne; [lia|]. by intros ->.
Qed.
Lemma bool_makes w roots c : Inv w roots ∅ -> makes w roots (make_bool c).
Proof. intros Hinv. unfold make_bool. destruct (c =? 0); apply static_makes; try done; unfold statics; set_solver. Qed.
Lemma null_makes w roots : Inv w roots ∅ -> makes w roots (ret json_null).
Proof. intros Hinv. apply static_makes; [done|]. unfold statics. set_solver. Qed.
Lemma real_makes w roots d : Inv w roots ∅ -> makes w roots (json_real d).
Proof.
  intros Hinv. destruct (not_finite d) eqn:E; [|by eapply new_makes, json_real_spec].
  unfold json_real. rewrite E. by apply ret_none_makes.
Qed.
Lemma integer_makes w roots z : Inv w roots ∅ -> INT64_MIN <= z <= INT64_MAX -> makes w roots (json_integer z).
Proof. intros Hinv Hz. by eapply new_makes, json_integer_spec. Qed.
Lemma string_makes w roots t : Inv w roots ∅ -> Z.of_nat (length t) < SIZE_MAX -> makes w roots (json_string (Some t)).
Proof.
  intros Hinv Ht. unfold json_string. destruct (utf8_check_string t) eqn:E; [by eapply new_makes, json_stringn_spec|].
  unfold json_stringn. rewrite E. by apply ret_none_makes.
Qed.

(** A container operation on [l] that steals the reference to the value. *)
Definition steals (roots : gmultiset loc) (l : loc) (f : json_ptr -> W Z) : Prop :=
  forall w r, Inv w (roots ⊎ opt_mset r) ∅ -> room_at w l -> wp (f r) w (fun _ w' => Inv w' roots ∅).

Lemma none_roots w roots : Inv w (roots ⊎ opt_mset None) ∅ -> Inv w roots ∅.
Proof. cbn. by rewrite gmultiset_disj_union_right_id. Qed.

Lemma set_new_steals roots l k : l ∈ roots -> steals roots l (json_object_set_new (Some l) (Some k)).
Proof.
  intros Hl w [v|] Hinv Hroom; [by apply set_new_safe|]. apply none_roots in Hinv. unfold json_object_set_new.
  destruct (utf8_check_string k); [|unfold json_decref; wp_step; by rewrite !wp_ret]. unfold json_object_set_new_nocheck. by rewrite wp_ret.
Qed.
Lemma array_set_steals roots l i : l ∈ roots -> 0 <= i -> steals roots l (json_array_set_new (Some l) i).
Proof.
  intros Hl Hi w [v|] Hinv Hroom; [by apply set_new_array_safe|]. apply none_roots in Hinv.
  unfold json_array_set_new. by rewrite wp_ret.
Qed.
Lemma append_steals roots l : l ∈ roots -> steals roots l (json_array_append_new (Some l)).
Proof.
  intros Hl w [v|] Hinv Hroom; [by apply append_new_safe|]. apply none_roots in Hinv.
  unfold json_array_append_new. by rewrite wp_ret.
Qed.

(* ------------------------------------------------------------------ *)
(** ** The invariant: every handle owns one reference *)

Definition handle_root (x : HandleType * hobject) : list loc :=
  match x with (htJSON, PJSON (Some l)) => [l] | _ => [] end.
Definition handle_key (x : HandleType * hobject) : list positive :=
  match x with (htJSONObjectKeys, PKeys k) => [k] | _ => [] end.
Definition handle_roots (L : list (HandleType * hobject)) : gmultiset loc := mset (L ≫= handle_root).
Definition handle_keys (L : list (HandleType * hobject)) : list positive := L ≫= handle_key.
Definition well_typed (x : HandleType * hobject) : bool :=
  match x with
  | (htJSON, PJSON _) | (htJSONObjectKeys, PKeys _) => true
  | (htJSON, _) | (htJSONObjectKeys, _) => false
  | _ => true
  end.

Lemma handle_roots_perm L L' : L ≡ₚ L' -> handle_roots L = handle_roots L'.
Proof. intros H. unfold handle_roots. apply mset_perm. by rewrite H. Qed.
Lemma handle_roots_json json L : handle_roots ((htJSON, PJSON json) :: L) = handle_roots L ⊎ opt_mset json.
Proof.
  unfold handle_roots. rewrite bind_cons, list_to_set_disj_app, (comm_L (⊎)). f_equal.
  destruct json as [l|]; [|done]. change (mset [l] = {[+ l +]}). rewrite list_to_set_disj_cons. apply (right_id_L ∅ (⊎)).
Qed.
Lemma handle_roots_other x L : handle_root x = [] -> handle_roots (x :: L) = handle_roots L.
Proof. unfold handle_roots. cbn. by intros ->. Qed.
Lemma elem_handle_roots l L : (htJSON, PJSON (Some l)) ∈ L -> l ∈ handle_roots L.
Proof.
  intros H. unfold handle_roots. apply elem_of_list_to_set_disj, list_elem_of_bind. eexists. split; [|exact H]. by left.
Qed.

Section plugin.
#[local] Set Default Proof Using "All".
Context {HS : Type} `{HandleLaws HS}.
Abbreviation N := (ST (nstate HS)).
Implicit Types s : nstate HS.

Abbreviation objects s := (owned (n_handles s)).
Abbreviation held s := (handle_roots (objects s)).

Record plugin_ok (s : nstate HS) : Prop := {
  po_inv : Inv (n_world s) (held s) ∅;
  po_types : Forall (fun x => well_typed x = true) (objects s);
  po_keys : forall k, k ∈ handle_keys (objects s) -> is_Some (n_keys s !! k);
  po_nodup : NoDup (handle_keys (objects s));
  po_fresh : forall k, is_Some (n_keys s !! k) -> (k < n_fresh s)%positive
}.

Lemma plugin_ok_world s w : plugin_ok s -> Inv w (held s) ∅ -> plugin_ok (set_n_world w s).
Proof. intros [H1 H2 H3 H4 H5] Hw. by split. Qed.

(** Computations that keep the invariant. *)
Definition safe {A} (m : N A) (s : nstate HS) : Prop := wp m s (fun _ s' => plugin_ok s').

Lemma wp_in_json {A} (m : W A) s (Q : A -> nstate HS -> Prop) :
  wp m (n_world s) (fun a w => Q a (set_n_world w s)) -> wp (in_json m) s Q.
Proof. intros Hm. unfold in_json. by wp_step. Qed.

Lemma set_n_world_id s : set_n_world (n_world s) s = s.
Proof. by destruct s. Qed.

Lemma reads_in_json {A} (m : W A) s (Q : A -> nstate HS -> Prop) :
  reads (n_world s) m -> (forall a, Q a s) -> wp (in_json m) s Q.
Proof.
  intros Hm HQ. apply wp_in_json. eapply wp_mono; [exact Hm|]. cbv beta. intros a w ->. by rewrite set_n_world_id.
Qed.

Lemma tell_safe {A} ev (m : N A) s : plugin_ok s -> (forall s', plugin_ok s' -> safe m s') -> safe (tell ev ;;; m) s.
Proof.
  intros [H1 H2 H3 H4 H5] Hm. unfold safe. wp_step. unfold tell. wp_step. apply Hm. by split.
Qed.
Lemma ret_safe {A} (a : A) s : plugin_ok s -> safe (ret a) s.
Proof. intros Hs. unfold safe. by rewrite wp_ret. Qed.
Lemma throw_safe e s : plugin_ok s -> safe (throw e) s.
Proof. intros Hs. unfold throw. apply tell_safe; [done|]. intros. by apply ret_safe. Qed.
Lemma throw_then_safe {A} e (m : N A) s :
  plugin_ok s -> (forall s', plugin_ok s' -> safe m s') -> safe (let* _ := throw e in m) s.
Proof. intros Hs Hm. unfold safe. wp_step. eapply wp_mono; [by apply throw_safe|]. intros ? s' Hs'. by apply Hm. Qed.

(** The object of a JSON handle is held. *)
Lemma with_json_safe h (k : json_ptr -> N Z) s :
  plugin_ok s -> (forall l, l ∈ held s -> safe (k (Some l)) s) -> safe (with_json h k) s.
Proof.
  intros Hs Hk. unfold safe, with_json, GetJSONFromHandle. wp_step. wp_step. apply wp_gets.
  destruct (ReadHandle (uint32 h) htJSON (n_handles s)) as [err|o] eqn:E.
  - wp_step. eapply wp_mono; [by apply throw_safe|]. intros ? s' Hs'. rewrite wp_ret. by apply ret_safe.
  - apply read_owned in E. pose proof (proj1 (Forall_forall _ _) (po_types _ Hs) _ E) as Ht.
    destruct o as [[l|]| |]; try done. rewrite wp_ret. cbv beta iota. apply Hk. by apply elem_handle_roots.
Qed.

Lemma create_handle_safe t o (undo finish : N unit) s :
  (forall hs, owned hs ≡ₚ objects s -> safe undo (set_n_handles hs s)) ->
  (forall hs, owned hs ≡ₚ (t, o) :: objects s -> safe finish (set_n_handles hs s)) ->
  safe (create_handle t o undo finish) s.
Proof.
  intros Hu Hf. unfold safe, create_handle. wp_step. apply wp_gets.
  destruct (CreateHandleEx t o (n_handles s)) as [[h err] hs] eqn:E. apply create_owned in E. wp_step. wp_step.
  destruct (h =? BAD_HANDLE).
  - wp_step. eapply wp_mono; [by apply Hu|]. intros ? s' Hs'. by apply throw_then_safe; [|intros; apply ret_safe].
  - wp_step. eapply wp_mono; [by apply Hf|]. intros ? s' Hs'. by rewrite wp_ret.
Qed.

(** The same objects in another order. *)
Lemma plugin_ok_perm s hs : plugin_ok s -> owned hs ≡ₚ objects s -> plugin_ok (set_n_handles hs s).
Proof.
  intros [H1 H2 H3 H4 H5] Hp. unfold handle_keys in *. split; cbn; unfold handle_keys.
  - by rewrite (handle_roots_perm _ _ Hp).
  - by rewrite Hp.
  - intros k. rewrite Hp. apply H3.
  - by rewrite Hp.
  - done.
Qed.

(** A new JSON value [json], owned by the native, becomes a handle or is
    released. *)
Lemma create_json_safe json s :
  plugin_ok s -> forall w, Inv w (held s ⊎ opt_mset json) ∅ ->
  safe (create_handle htJSON (PJSON json) (in_json (json_decref json)) (ret tt)) (set_n_world w s).
Proof.
  intros Hs w Hw. apply create_handle_safe; intros hs Hp.
  - apply wp_in_json. cbn. eapply wp_mono; [by apply json_decref_opt_spec|]. intros ? w' [Hw' _].
    apply (plugin_ok_world (set_n_handles hs s)); [by apply plugin_ok_perm|]. cbn. by rewrite (handle_roots_perm _ _ Hp).
  - apply ret_safe. destruct Hs as [H1 H2 H3 H4 H5]. unfold handle_keys in *. split; cbn in *; unfold handle_keys.
    + by rewrite (handle_roots_perm _ _ Hp), handle_roots_json.
    + rewrite Hp. by constructor.
    + intros k. rewrite Hp. apply H3.
    + by rewrite Hp.
    + done.
Qed.

(** A value inside a container gets a handle and a reference of its own. *)
Lemma value_handle_safe s value missing :
  plugin_ok s -> (forall l, Z.of_nat (multiplicity l (refs (w_heap (n_world s)) ⊎ held s)) + 1 < SIZE_MAX) ->
  match value with Some v => v ∈ refs (w_heap (n_world s)) ⊎ held s | None => True end ->
  safe (value_handle value missing) s.
Proof.
  intros Hs Hroom Hv. destruct value as [v|]; cbn [value_handle]; [|by apply throw_safe].
  apply create_handle_safe; intros hs Hp.
  - by apply ret_safe, plugin_ok_perm.
  - unfold safe. wp_step. apply wp_in_json. change (n_world (set_n_handles hs s)) with (n_world s).
    eapply wp_mono; [apply (json_incref_spec _ (held s) ∅ v (po_inv _ Hs)); [done|by apply Hroom]|].
    intros r w' (_ & Hw & _). rewrite wp_ret.
    destruct Hs as [H1 H2 H3 H4 H5]. unfold handle_keys in *. split; cbn in *; unfold handle_keys.
    + by rewrite (handle_roots_perm _ _ Hp), handle_roots_json.
    + rewrite Hp. by constructor.
    + intros k. rewrite Hp. apply H3.
    + by rewrite Hp.
    + done.
Qed.

(** ** Calls *)

(** What the theorems assume of a call: cells are 32-bit integers, strings of
    plugins are C strings, containers have room for one more element. *)
Record call_fits (e : env) (s : nstate HS) : Prop := {
  ca_params : forall i, - 2 ^ 31 <= params e i < 2 ^ 31;
  ca_strings : forall a, is_cstr (LocalToString e a) /\ Z.of_nat (length (LocalToString e a)) < 2 ^ 31;
  ca_room : roomy (n_world s) (held s)
}.

Lemma size_t_nonneg z : 0 <= size_t z.
Proof using. apply size_t_range. Qed.

Lemma succeeded_safe (m : W Z) s :
  plugin_ok s -> wp m (n_world s) (fun _ w' => Inv w' (held s) ∅) -> safe (succeeded m) s.
Proof.
  intros Hs Hm. unfold safe, succeeded. wp_step. apply wp_in_json. eapply wp_mono; [exact Hm|]. intros r w Hw.
  rewrite wp_ret. by apply plugin_ok_world.
Qed.

(** [value = make(); container_op(object, ..., value)] *)
Lemma make_and_give_safe s l make (f : json_ptr -> W Z) :
  plugin_ok s -> l ∈ held s -> room_at (n_world s) l -> makes (n_world s) (held s) make -> steals (held s) l f ->
  safe (let* value := in_json make in succeeded (f value)) s.
Proof.
  intros Hs Hl Hroom Hmake Hf. unfold safe. wp_step. apply wp_in_json. eapply wp_mono; [exact Hmake|].
  intros r w [Hfr Hw]. unfold succeeded. wp_step. apply wp_in_json. cbn [n_world set_n_world].
  eapply wp_mono; [apply (Hf w r Hw)|].
  - eapply room_keep; [apply (po_inv _ Hs)|exact Hw|exact Hfr|exact Hl| |exact Hroom].
    apply gmultiset_elem_of_disj_union. by left.
  - intros ? w' Hw'. rewrite wp_ret. by apply (plugin_ok_world s w').
Qed.

(** [container_op(object, ..., json_incref(value))] of a value of a handle *)
Lemma incref_and_give_safe s l v (f : json_ptr -> W Z) :
  plugin_ok s -> roomy (n_world s) (held s) -> l ∈ held s -> v ∈ held s -> steals (held s) l f ->
  safe (succeeded (let* x := json_incref (Some v) in f x)) s.
Proof.
  intros Hs Hroom Hl Hv Hf. apply succeeded_safe; [done|]. wp_step. pose proof (po_inv _ Hs) as Hinv.
  eapply wp_mono; [apply (json_incref_spec _ _ _ v Hinv); [by apply in_held_roots|apply (room_counts _ _ Hroom)]|].
  intros r w (-> & Hw & _ & Hfr & _). apply (Hf w (Some v)); [done|].
  eapply room_keep; [exact Hinv|exact Hw|exact Hfr|exact Hl| |by eapply roomy_at].
  apply gmultiset_elem_of_disj_union. by left.
Qed.

(** ** Natives that read and change values *)

Section calls.
Context (e : env) (s : nstate HS) (Hs : plugin_ok s) (Hfit : call_fits e s).

Lemma held_room l : room_at (n_world s) l.
Proof. eapply roomy_at, (ca_room _ _ Hfit). Qed.

(** [with_json] on a parameter, then a computation that only reads. *)
Lemma child_safe (get : W json_ptr) (k : json_ptr -> N Z) :
  wp get (n_world s) (child_post (n_world s) (held s)) ->
  safe (k None) s -> (forall v, v ∈ refs (w_heap (n_world s)) ⊎ held s -> safe (k (Some v)) s) ->
  safe (let* value := in_json get in k value) s.
Proof using H0 Hs.
  intros Hget Hnone Hsome. unfold safe. wp_step. apply wp_in_json. eapply wp_mono; [exact Hget|].
  intros [v|] w' [-> Hv]; rewrite set_n_world_id; [by apply Hsome|apply Hnone].
Qed.
Lemma reads_safe {A} (m : W A) (k : A -> N Z) :
  reads (n_world s) m -> (forall a, safe (k a) s) -> safe (let* a := in_json m in k a) s.
Proof using H0 s. intros Hm Hk. unfold safe. wp_step. by apply reads_in_json. Qed.

(** Natives that look at one value. *)
Definition looks (k : json_ptr -> N Z) : Prop :=
  forall v, v ∈ refs (w_heap (n_world s)) ⊎ held s -> safe (k (Some v)) s.
Lemma bool_looks : looks bool_value.
Proof using H0 Hs. intros v Hv. apply reads_safe; [by eapply json_is_reads; [apply (po_inv _ Hs)|]|intros; by apply ret_safe]. Qed.
Lemma null_looks : looks null_value.
Proof using H0 Hs. intros v Hv. apply reads_safe; [by eapply json_is_reads; [apply (po_inv _ Hs)|]|intros; by apply ret_safe]. Qed.
Lemma int_looks : looks int_value.
Proof using H0 Hs. intros v Hv. apply reads_safe; [by eapply integer_value_reads; [apply (po_inv _ Hs)|]|intros; by apply ret_safe]. Qed.
Lemma float_looks : looks float_value.
Proof using H0 Hs. intros v Hv. apply reads_safe; [by eapply number_value_reads; [apply (po_inv _ Hs)|]|intros; by apply ret_safe]. Qed.
Lemma int64_looks : looks (write_int64 e).
Proof using H0 Hs.
  intros v Hv. apply reads_safe; [by eapply integer_value_reads; [apply (po_inv _ Hs)|]|]. intros z.
  apply tell_safe; [done|]. intros. by apply ret_safe.
Qed.
Lemma string_looks : looks (write_string e).
Proof using H0 Hs.
  intros v Hv. apply reads_safe; [by eapply string_value_reads; [apply (po_inv _ Hs)|]|]. intros [t|]; [|by apply ret_safe].
  apply tell_safe; [done|]. intros. by apply ret_safe.
Qed.

Lemma object_member_safe k : looks k -> safe (object_member e k) s.
Proof using H0 Hs.
  intros Hk. apply with_json_safe; [done|]. intros l Hl.
  apply child_safe; [by apply object_get_safe, Hl; apply (po_inv _ Hs)|by apply throw_safe|exact Hk].
Qed.
Lemma object_lookup_safe (k : json_ptr -> N Z) :
  (safe (k None) s) -> looks k ->
  safe (with_json (params e 1) (fun object =>
    let* value := in_json (json_object_get object (Some (LocalToString e (params e 2)))) in k value)) s.
Proof using H0 Hs.
  intros Hn Hk. apply with_json_safe; [done|]. intros l Hl.
  apply child_safe; [by apply object_get_safe, Hl; apply (po_inv _ Hs)|done|exact Hk].
Qed.
Lemma array_lookup_safe (k : json_ptr -> N Z) :
  (safe (k None) s) -> looks k ->
  safe (with_json (params e 1) (fun object =>
    let* value := in_json (json_array_get object (size_t (params e 2))) in k value)) s.
Proof using H0 Hs.
  intros Hn Hk. apply with_json_safe; [done|]. intros l Hl.
  apply child_safe; [apply array_get_safe; [apply (po_inv _ Hs)|done|apply size_t_nonneg]|done|exact Hk].
Qed.
Lemma value_handle_looks missing : looks (fun v => value_handle v missing).
Proof. intros v Hv. apply value_handle_safe; [done|apply (room_counts _ _ (ca_room _ _ Hfit))|done]. Qed.

(** Natives that change a container. *)
Lemma set_object_safe make : makes (n_world s) (held s) make -> safe (set_object e make) s.
Proof.
  intros Hm. apply with_json_safe; [done|]. intros l Hl.
  eapply make_and_give_safe; [done|exact Hl|apply held_room|done|by apply set_new_steals].
Qed.
Lemma set_array_safe make : makes (n_world s) (held s) make -> safe (set_array e make) s.
Proof.
  intros Hm. apply with_json_safe; [done|]. intros l Hl.
  eapply make_and_give_safe; [done|exact Hl|apply held_room|done|apply array_set_steals; [done|apply size_t_nonneg]].
Qed.
Lemma push_array_safe make : makes (n_world s) (held s) make -> safe (push_array e make) s.
Proof.
  intros Hm. apply with_json_safe; [done|]. intros l Hl.
  eapply make_and_give_safe; [done|exact Hl|apply held_room|done|by apply append_steals].
Qed.
Lemma give_held_safe h1 h2 (f : json_ptr -> json_ptr -> W Z) :
  (forall l, l ∈ held s -> steals (held s) l (f (Some l))) ->
  safe (with_json h1 (fun object => with_json h2 (fun value =>
    succeeded (let* v := json_incref value in f object v)))) s.
Proof.
  intros Hf. apply with_json_safe; [done|]. intros l Hl. apply with_json_safe; [done|]. intros v Hv.
  eapply incref_and_give_safe; [done|apply (ca_room _ _ Hfit)|exact Hl|exact Hv|by apply Hf].
Qed.
Lemma change_safe h (f : json_ptr -> W Z) :
  (forall l, l ∈ held s -> wp (f (Some l)) (n_world s) (fun _ w' => Inv w' (held s) ∅)) ->
  safe (with_json h (fun object => succeeded (f object))) s.
Proof using H0 Hs. intros Hf. apply with_json_safe; [done|]. intros l Hl. apply succeeded_safe; [done|]. by apply Hf. Qed.

Lemma strtoll_range t : INT64_MIN <= (strtoll t).1.1 <= INT64_MAX.
Proof using.
  unfold strtoll. destruct (scan_minus t) as [neg t1], (span_digits t1) as [[|d ds] r]; cbn; [unfold INT64_MIN, INT64_MAX; lia|].
  set (v := if neg then _ else _). unfold INT64_MIN, INT64_MAX in *.
  destruct (Z.ltb_spec v (- 2 ^ 63)); [cbn; lia|]. destruct (Z.ltb_spec (2 ^ 63 - 1) v); cbn; lia.
Qed.
Lemma strtoll_value_range t : INT64_MIN <= strtoll_value t <= INT64_MAX.
Proof using.
  unfold strtoll_value. destruct (skip_isspace t) as [|c t']; [unfold INT64_MIN, INT64_MAX; lia|].
  destruct (c =? chr "+"); [case_match; [unfold INT64_MIN, INT64_MAX; lia|]|]; apply strtoll_range.
Qed.
Lemma param_makes i : makes (n_world s) (held s) (json_integer (params e i)).
Proof.
  apply integer_makes; [apply (po_inv _ Hs)|]. pose proof (ca_params _ _ Hfit i). unfold INT64_MIN, INT64_MAX. lia.
Qed.
Lemma string_param_makes a : makes (n_world s) (held s) (json_string (Some (LocalToString e a))).
Proof.
  apply string_makes; [apply (po_inv _ Hs)|]. pose proof (ca_strings _ _ Hfit a). unfold SIZE_MAX. lia.
Qed.
End calls.

(** ** Keys *)

Lemma delete_keys_safe s k :
  plugin_ok s -> k ∉ handle_keys (objects s) -> is_Some (n_keys s !! k) -> safe (delete_keys k) s.
Proof.
  intros [H1 H2 H3 H4 H5] Hk [x Hx]. unfold safe, delete_keys. wp_step. apply wp_gets. wp_step.
  eapply wp_require; [exact Hx|]. wp_step. split; cbn; try done.
  - intros k' Hk'. rewrite lookup_delete_ne; [by apply H3|]. by intros ->.
  - intros k'. destruct (decide (k' = k)) as [->|]; [rewrite lookup_delete_eq; by intros []|].
    rewrite lookup_delete_ne by done. apply H5.
Qed.

Lemma create_keys_safe s l : plugin_ok s -> l ∈ held s ->
  safe (let* keys := new_keys (Some l) in create_handle htJSONObjectKeys (PKeys keys) (delete_keys keys) (ret tt)) s.
Proof.
  intros Hs Hl. unfold safe. wp_step. unfold new_keys. wp_step.
  apply reads_in_json; [by eapply object_iter_reads; [apply (po_inv _ Hs)|]|]. intros iter.
  wp_step. apply wp_gets. wp_step. wp_step. rewrite wp_ret.
  set (k := n_fresh s). set (s1 := {| n_world := _ |}).
  assert (Hnew : n_keys s !! k = None).
  { apply eq_None_not_Some. intros Hk%(po_fresh _ Hs). unfold k in Hk. lia. }
  assert (Hk : k ∉ handle_keys (objects s)).
  { intros Hin%(po_keys _ Hs). rewrite Hnew in Hin. by destruct Hin. }
  destruct Hs as [H1 H2 H3 H4 H5].
  assert (Hs1 : plugin_ok s1).
  { split; cbn; try done.
    - intros k' Hk'. rewrite lookup_insert_ne; [by apply H3|]. by intros <-.
    - intros k'. rewrite lookup_insert. case_decide; [subst; intros _; unfold k; lia|]. intros Hk'%H5. lia. }
  apply create_handle_safe; intros hs Hp.
  - apply delete_keys_safe; [by apply plugin_ok_perm| |].
    + cbn. unfold handle_keys in *. by rewrite Hp.
    + cbn. rewrite lookup_insert_eq. eauto.
  - apply ret_safe. destruct Hs1 as [G1 G2 G3 G4 G5]. unfold handle_keys in *. split; cbn in *; unfold handle_keys.
    + by rewrite (handle_roots_perm _ _ Hp), handle_roots_other.
    + rewrite Hp. by constructor.
    + intros k'. rewrite Hp. cbn. intros [->|Hk']%elem_of_cons; [rewrite lookup_insert_eq; eauto|by apply G3].
    + rewrite Hp. cbn. by constructor.
    + done.
Qed.

(** The position of a [JSONObjectKeys] is one in an object that is alive. *)
Definition keys_current (s : nstate HS) (keys : JSONObjectKeys) : Prop :=
  k_iter keys = None \/
  exists l items i n, k_object keys = Some l /\ l ∈ refs (w_heap (n_world s)) ⊎ held s /\
    object_at (n_world s) l items /\ items.*1 !! i = Some n /\ k_iter keys = Some n.

(** The call reads a key with a [JSONObjectKeys] whose position is not one: its
    object has been freed, or the pair it stands at has been removed. *)
Definition stale_keys (s : nstate HS) (e : env) : Prop :=
  exists k keys, ReadHandle (uint32 (params e 1)) htJSONObjectKeys (n_handles s) = inr (PKeys k) /\
    n_keys s !! k = Some keys /\ ~ keys_current s keys.

(** A position is current, or reading its key touches freed memory. *)
Lemma keys_cases s keys : plugin_ok s ->
  keys_current s keys \/ ((~ keys_current s keys) /\ GetKey keys s = inl UndefinedBehaviour).
Proof.
  intros Hs. unfold GetKey. destruct (k_iter keys) as [n|] eqn:En; [|left; by left].
  destruct (k_object keys) as [l|] eqn:El.
  2:{ right. split; [|done]. intros [H1|(l & items & i & m & H1 & _)]; congruence. }
  assert (Hno : (forall items, object_at (n_world s) l items -> n ∉ items.*1) -> ~ keys_current s keys).
  { intros Hno [H1|(l' & items & i & m & H1 & _ & Ho & Hi & H2)]; simplify_eq. apply (Hno items Ho). by eapply list_elem_of_lookup_2. }
  unfold in_json, zoom, json_object_iter_key, json_to_object, deref, bind. cbn.
  destruct (w_heap (n_world s) !! l) as [nd|] eqn:Hn.
  2:{ right. split; [|done]. apply Hno. intros items (ht & (nd & Hn' & _) & _). simplify_eq. }
  cbn. destruct (n_body nd) as [ht| | | | | | |] eqn:Hb;
    try (right; split; [|done]; apply Hno; intros items (ht & (nd' & Hn' & Hb') & _); congruence).
  destruct (ht_pairs ht !! n) as [pr|] eqn:Hp.
  - left. right. assert (Hst : l ∉ statics).
    { intros Hst. destruct (static_body _ _ _ l (Object ht) (po_inv _ Hs)) as [[_ ?]|[[_ ?]|[_ ?]]]; try done. by exists nd. }
    pose proof (inv_body _ _ _ (po_inv _ Hs) l nd Hn Hst) as Hok. rewrite Hb in Hok. destruct Hok as [_ [items [xs Hwf]]].
    apply (wf_pairs _ _ _ _ Hwf) in Hp. apply list_elem_of_lookup_1 in Hp as [i Hi]. exists l, items, i, n. split_and!; try done.
    + pose proof (inv_count _ _ _ (po_inv _ Hs) l nd Hn Hst) as (Hc & _ & Hz). apply elem_of_multiplicity.
      destruct (decide (refcount nd = 0)) as [E0|E0]; [by apply Hz, elem_of_empty in E0|lia].
    + exists ht. split; [by exists nd|by exists xs].
    + by rewrite list_lookup_fmap, Hi.
  - right. split.
    + apply Hno. intros items (ht' & (nd' & Hn' & Hb') & xs & Hwf). simplify_eq. rewrite Hb in Hb'. injection Hb' as <-.
      intros (pr & Hin)%list_elem_of_fmap. destruct Hin as [Hin1 Hin]. destruct pr as [m pr]. cbn in Hin1. subst m.
      apply (wf_pairs _ _ _ _ Hwf) in Hin. congruence.
    + unfold ret at 1. unfold hashtable_iter_key. by rewrite Hp.
Qed.

Lemma read_key_safe e s :
  plugin_ok s ->
  ~ stale_keys s e -> safe (ReadObjectKey e) s.
Proof.
  intros Hs Hcur. unfold safe, ReadObjectKey. wp_step. apply wp_gets.
  destruct (ReadHandle (uint32 (params e 1)) htJSONObjectKeys (n_handles s)) as [err|o] eqn:E; [by apply throw_safe|].
  pose proof (read_owned _ _ _ _ E) as Hin. pose proof (proj1 (Forall_forall _ _) (po_types _ Hs) _ Hin) as Ht.
  destruct o as [|k|]; try done.
  assert (Hk : k ∈ handle_keys (objects s)).
  { apply list_elem_of_bind. eexists. split; [|exact Hin]. by left. }
  destruct (po_keys _ Hs k Hk) as [keys Hkeys]. 
  assert (Hc : keys_current s keys).
  { destruct (keys_cases s keys Hs) as [?|[Hno _]]; [done|]. destruct Hcur. by exists k, keys. }
  wp_step. apply wp_gets. wp_step. eapply wp_require; [exact Hkeys|].
  destruct Hc as [En|(l & items & i & n & El & Hl & Ho & Hn & En)]; unfold GetKey; rewrite En.
  - wp_step. wp_step. rewrite wp_ret. done.
  - rewrite El. rewrite list_lookup_fmap in Hn. destruct (items !! i) as [[n' pr]|] eqn:Hi; [|done]. injection Hn as ->.
    wp_step. apply wp_in_json. eapply wp_mono; [by apply (json_object_iter_key_spec _ l items Ho i n pr)|].
    cbv beta. intros ? ? [-> ->]. rewrite set_n_world_id. wp_step. unfold tell. wp_step. unfold Next. wp_step. wp_step.
    rewrite El, En. set (s1 := {| n_world := n_world s |}). apply wp_in_json.
    eapply wp_mono; [apply (json_object_iter_next_spec _ l items Ho i n); by apply items_kvs in Hi as [Hi _]|].
    cbv beta. intros ? ? [-> ->]. change (set_n_world (n_world s) s1) with s1. wp_step. apply wp_gets. wp_step. rewrite wp_ret.
    destruct Hs as [H1 H2 H3 H4 H5]. split; cbn; try done.
    + intros k' Hk'. rewrite lookup_insert. case_decide; [eauto|by apply H3].
    + intros k'. rewrite lookup_insert. case_decide; [subst; intros _; apply H5; eauto|apply H5].
Qed.

(** Reading with a stale position is undefined behaviour; whether a call does is
    decidable. *)
Lemma read_key_stale e s : plugin_ok s -> stale_keys s e -> ReadObjectKey e s = inl UndefinedBehaviour.
Proof.
  intros Hs (k & keys & Eh & Ek & Hno). unfold ReadObjectKey, bind, gets. rewrite Eh, Ek. cbn.
  destruct (keys_cases s keys Hs) as [?|[_ E]]; [done|]. by rewrite E.
Qed.
Lemma stale_keys_dec e s : plugin_ok s -> stale_keys s e \/ ~ stale_keys s e.
Proof.
  intros Hs. destruct (ReadHandle (uint32 (params e 1)) htJSONObjectKeys (n_handles s)) as [err|o] eqn:E.
  { right. intros (k & keys & E' & _). congruence. }
  destruct o as [|k|]; try (right; intros (k' & keys & E' & _); congruence).
  destruct (n_keys s !! k) as [keys|] eqn:Ek; [|right; intros (k' & keys & E' & Ek' & _); congruence].
  destruct (keys_cases s keys Hs) as [Hc|[Hno _]]; [right|left; by exists k, keys]. intros (k' & keys' & E' & Ek' & Hno). congruence.
Qed.

(** ** Closing handles *)

Lemma close_handle_safe h s : plugin_ok s -> safe (CloseHandle h) s.
Proof.
  intros Hs. unfold safe, CloseHandle. wp_step. apply wp_gets.
  destruct (FreeHandle (uint32 h) (n_handles s)) as [o hs] eqn:E. apply free_owned in E. wp_step. wp_step.
  destruct o as [[t o]|]; [|rewrite wp_ret; by apply plugin_ok_perm].
  destruct Hs as [H1 H2 H3 H4 H5]. unfold handle_keys in *.
  rewrite (handle_roots_perm _ _ E) in H1. rewrite E in H2, H4. apply Forall_cons in H2 as [Ht H2].
  assert (H3' : forall k, k ∈ ((t, o) :: owned hs) ≫= handle_key -> is_Some (n_keys s !! k)).
  { intros k Hk. apply H3. by rewrite E. }
  clear H3. cbn in H4. apply NoDup_app in H4 as (_ & Hdis & H4).
  assert (Hrest : forall w, Inv w (handle_roots (owned hs)) ∅ -> plugin_ok (set_n_world w (set_n_handles hs s))).
  { intros w Hw. split; cbn; try done. intros k Hk. apply H3'. rewrite bind_cons. apply elem_of_app. by right. }
  destruct t, o as [json|k|p]; try done; cbn [OnHandleDestroy]; try (rewrite wp_ret; apply (Hrest (n_world s)); done).
  - apply wp_in_json. rewrite handle_roots_json in H1. eapply wp_mono; [by apply json_decref_opt_spec|].
    intros ? w' [Hw' _]. by apply Hrest.
  - apply delete_keys_safe.
    + apply (Hrest (n_world s)). done.
    + cbn. unfold handle_keys. apply (Hdis k). by left.
    + cbn. apply H3'. rewrite bind_cons. cbn. by left.
Qed.

(** ** Texts and files *)

(** What the natives that decode rely on: memory does not run out (without
    it the decoder is not safe), and texts and files are below 2 GiB. *)
Record load_fits (e : env) (s : nstate HS) : Prop := {
  ld_oom : w_oom (n_world s) = [];
  ld_point : point_ok (decimal_point e);
  ld_files : forall p cs, fopen_read e p = inr cs ->
    Forall is_byte (bytes_of cs) /\ Z.of_nat (length (bytes_of cs)) < 2 ^ 31
}.

(** What the natives that encode rely on: the values and their texts fit in the
    address space.  Allocations and writes to files may fail. *)
Record dump_fits (e : env) (s : nstate HS) : Prop := {
  du_fits : fits (n_world s);
  du_size : forall l v flags, sees (n_world s) [] l v ->
    Z.of_nat (length (print_json (decimal_point e) flags v).1) < 2 ^ 60
}.

Section texts.
Context (e : env) (s : nstate HS) (Hs : plugin_ok s).

Lemma handle_of_text_safe (load : json_error_ptr -> W (json_ptr * json_error_ptr)) :
  (forall error, wp (load error) (n_world s) (fun r w' => Inv w' (held s ⊎ opt_mset r.1) ∅)) ->
  safe (handle_of_text e load) s.
Proof.
  intros Hload. unfold safe, handle_of_text. wp_step. apply wp_in_json. eapply wp_mono; [apply Hload|].
  intros [[l|] err] w' Hw; cbn [fst] in Hw.
  - by apply create_json_safe.
  - apply throw_then_safe; [apply plugin_ok_world; [done|by apply none_roots]|]. intros. by apply ret_safe.
Qed.

Lemma decoded_inv w roots o r err w' : decoded w roots o r err w' -> Inv w' (roots ⊎ opt_mset r) ∅.
Proof using.
  intros [_ Hd]. destruct o as [t|].
  - by destruct Hd as (l & -> & Hw & _).
  - destruct Hd as (-> & Hw & _). cbn. by rewrite gmultiset_disj_union_right_id.
Qed.

Lemma from_string_safe : load_fits e s -> call_fits e s -> safe (FromString e) s.
Proof.
  intros Htx Hfit. apply handle_of_text_safe. intros error.
  destruct (ca_strings _ _ Hfit (params e 1)) as [Hc Hl].
  destruct (json_loads_spec (decimal_point e) (size_t (params e 2)) error _ _ _ (ld_point _ _ Htx) (po_inv _ Hs)
              (ld_oom _ _ Htx) Hc Hl) as (r & err & w' & E & Hd).
  eapply wp_eq; [exact E|]. by eapply decoded_inv.
Qed.

Lemma from_file_safe : load_fits e s -> safe (FromFile e) s.
Proof.
  intros Htx.  apply handle_of_text_safe. intros error. unfold json_load_file, json_loadf.
  set (path := BuildPath e _). destruct (fopen_read e path) as [msg|cs] eqn:E.
  - rewrite wp_ret. cbn. rewrite gmultiset_disj_union_right_id. apply (po_inv _ Hs).
  - destruct (ld_files _ _ Htx path cs E) as [Hb Hl].
    eapply wp_mono; [apply (load_source_spec (decimal_point e) _ (ld_point _ _ Htx) cs); [apply (po_inv _ Hs)|apply (ld_oom _ _ Htx)|done|done]|].
    intros [r err] w' Hd. by eapply decoded_inv.
Qed.

(** Encoding a held value leaves the world as it is, but for the memory that
    is left. *)
Definition spends {A} (m : W A) : Prop := wp m (n_world s) (fun _ w' => exists o, w' = set_oom o (n_world s)).
Lemma spends_safe {A} (m : W A) (k : A -> N Z) :
  spends m -> (forall a s', plugin_ok s' -> safe (k a) s') -> safe (let* a := in_json m in k a) s.
Proof.
  intros Hm Hk. unfold safe. wp_step. apply wp_in_json. eapply wp_mono; [exact Hm|]. intros a w' (o & ->).
  apply Hk, plugin_ok_world; [done|]. apply inv_set_oom, (po_inv _ Hs).
Qed.
Lemma dumps_spends l flags : dump_fits e s -> l ∈ held s -> spends (json_dumps (decimal_point e) (Some l) flags).
Proof.
  intros Hdu Hl. destruct (held_view _ _ _ (po_inv _ Hs) Hl (du_fits _ _ Hdu)) as [Htv [v Hv]].
  destruct (json_dumps_spec _ flags _ _ _ Htv Hv (du_size _ _ Hdu _ _ _ Hv)) as (r & o & E & _). eapply wp_eq; [exact E|]. by exists o.
Qed.
Lemma to_string_safe : dump_fits e s -> safe (ToString e) s.
Proof.
  intros Hdu. apply with_json_safe; [done|]. intros l Hl. apply spends_safe; [by apply dumps_spends|].
  intros [t|] s' Hs'; [apply tell_safe; [done|]; intros|]; by apply ret_safe.
Qed.
Lemma to_file_safe : dump_fits e s -> safe (ToFile e) s.
Proof.
  intros Hdu. apply with_json_safe; [done|]. intros l Hl. apply spends_safe; [|intros [r f] s' Hs'; by apply ret_safe].
  unfold json_dump_file, spends. set (path := BuildPath e _). destruct (fopen_write e path) as [f|] eqn:E.
  - destruct (held_view _ _ _ (po_inv _ Hs) Hl (du_fits _ _ Hdu)) as [Htv [v Hv]].
    destruct (json_dumpf_spec (decimal_point e) (size_t (params e 3)) _ l v f Htv Hv) as (r & f' & t & o & E' & _).
    wp_step. eapply wp_eq; [exact E'|]. apply wp_ret. by exists o.
  - apply wp_ret. exists (w_oom (n_world s)). by rewrite set_oom_id.
Qed.
End texts.

(* ------------------------------------------------------------------ *)
(** ** Every native *)

Definition is_decoder (name : string) : bool :=
  existsb (String.eqb name)
    ["JSONObject.FromString"; "JSONObject.FromFile"; "JSONArray.FromString"; "JSONArray.FromFile"]%string.
Definition is_encoder (name : string) : bool := existsb (String.eqb name) ["JSON.ToString"; "JSON.ToFile"]%string.

(** A call a plugin may make in the state [s]. *)
Record native_ok (s : nstate HS) (name : string) (e : env) : Prop := {
  no_fits : call_fits e s;
  no_loads : is_decoder name = true -> load_fits e s;
  no_dumps : is_encoder name = true -> dump_fits e s
}.

Lemma native_safe s name f e :
  plugin_ok s -> (name, f) ∈ json_natives -> native_ok s name e ->
  (name = "JSONObjectKeys.ReadKey"%string -> ~ stale_keys s e) -> safe (f e) s.
Proof.
  intros Hs Hin [Hfit Hld Hdu] Hkey. pose proof (po_inv _ Hs) as Hinv.
  assert (Hroom : forall l, room_at (n_world s) l) by (intros; by eapply held_room).
  assert (Hi : forall i, 0 <= size_t (params e i)) by (intros; apply size_t_nonneg).
  assert (H64 : forall t, makes (n_world s) (held s) (json_integer (strtoll_value t))).
  { intros t. apply integer_makes; [done|apply strtoll_value_range]. }
  unfold json_natives in Hin. repeat (apply elem_of_cons in Hin as [[= -> ->]|Hin]); [..|by apply elem_of_nil in Hin].
  all: cbn [is_decoder is_encoder existsb String.eqb Ascii.eqb Bool.eqb orb] in Hld, Hdu.
  - unfold safe, CreateObject. wp_step. apply wp_in_json.
    eapply wp_mono; [eapply new_makes, json_object_spec, Hinv|]. intros r w [_ Hw]. by apply create_json_safe.
  - apply with_json_safe; [done|]. intros l Hl. apply (reads_safe s); [by eapply object_size_reads|]. intros. by apply ret_safe.
  - eapply object_lookup_safe; [done|by apply throw_safe|]. by eapply value_handle_looks.
  - by eapply object_member_safe, bool_looks.
  - by eapply object_member_safe, float_looks.
  - by eapply object_member_safe, int_looks.
  - eapply object_lookup_safe; [done|by apply ret_safe|]. by eapply int64_looks.
  - eapply object_lookup_safe; [done|by apply ret_safe|]. by eapply string_looks.
  - by eapply object_member_safe, null_looks.
  - eapply object_lookup_safe; [done|by apply ret_safe|]. intros v _. by apply ret_safe.
  - apply (give_held_safe e); [done|done|]. intros l Hl. by apply set_new_steals.
  - apply set_object_safe; [done|done|]. by apply bool_makes.
  - apply set_object_safe; [done|done|]. by apply real_makes.
  - apply set_object_safe; [done|done|]. by apply param_makes.
  - apply set_object_safe; [done|done|]. apply H64.
  - apply set_object_safe; [done|done|]. by apply null_makes.
  - apply set_object_safe; [done|done|]. by apply string_param_makes.
  - apply change_safe; [done|]. intros l Hl. by apply object_del_safe.
  - apply change_safe; [done|]. intros l Hl. by apply object_clear_safe.
  - apply with_json_safe; [done|]. intros l Hl. by apply create_keys_safe.
  - apply read_key_safe; [done|]. by apply Hkey.
  - unfold safe, CreateArray. wp_step. apply wp_in_json.
    eapply wp_mono; [eapply new_makes, json_array_spec, Hinv|]. intros r w [_ Hw]. by apply create_json_safe.
  - apply with_json_safe; [done|]. intros l Hl. apply (reads_safe s); [by eapply array_size_reads|]. intros. by apply ret_safe.
  - eapply array_lookup_safe; [done|by apply throw_safe|]. by eapply value_handle_looks.
  - eapply array_lookup_safe; [done|by apply throw_safe|]. by apply bool_looks.
  - eapply array_lookup_safe; [done|by apply throw_safe|]. by apply float_looks.
  - eapply array_lookup_safe; [done|by apply throw_safe|]. by apply int_looks.
  - eapply array_lookup_safe; [done|by apply throw_safe|]. by apply int64_looks.
  - eapply array_lookup_safe; [done|by apply throw_safe|]. by apply string_looks.
  - eapply array_lookup_safe; [done|by apply throw_safe|]. by apply null_looks.
  - apply (give_held_safe e); [done|done|]. intros l Hl. by apply array_set_steals.
  - apply set_array_safe; [done|done|]. by apply bool_makes.
  - apply set_array_safe; [done|done|]. by apply real_makes.
  - apply set_array_safe; [done|done|]. by apply param_makes.
  - apply set_array_safe; [done|done|]. apply H64.
  - apply set_array_safe; [done|done|]. by apply null_makes.
  - apply set_array_safe; [done|done|]. by apply string_param_makes.
  - apply (give_held_safe e); [done|done|]. intros l Hl. by apply append_steals.
  - apply push_array_safe; [done|done|]. by apply bool_makes.
  - apply push_array_safe; [done|done|]. by apply real_makes.
  - apply push_array_safe; [done|done|]. by apply param_makes.
  - apply push_array_safe; [done|done|]. apply H64.
  - apply push_array_safe; [done|done|]. by apply null_makes.
  - apply push_array_safe; [done|done|]. by apply string_param_makes.
  - apply change_safe; [done|]. intros l Hl. by apply remove_safe.
  - apply change_safe; [done|]. intros l Hl. by apply array_clear_safe.
  - apply from_string_safe; [done|by apply Hld|done].
  - apply from_file_safe; [done|by apply Hld].
  - apply from_string_safe; [done|by apply Hld|done].
  - apply from_file_safe; [done|by apply Hld].
  - apply to_string_safe; [done|by apply Hdu].
  - apply to_file_safe; [done|by apply Hdu].
Qed.

(** A native is safe, or it is [ReadKey] with a stale position. *)
Lemma native_cases s name f e :
  plugin_ok s -> (name, f) ∈ json_natives -> native_ok s name e ->
  safe (f e) s \/ (name = "JSONObjectKeys.ReadKey"%string /\ stale_keys s e /\ f e s = inl UndefinedBehaviour).
Proof.
  intros Hs Hin Hok. destruct (decide (name = "JSONObjectKeys.ReadKey"%string)) as [->|Hne]; [|left; by eapply native_safe].
  destruct (stale_keys_dec e s Hs) as [Hst|Hst]; [|left; by eapply native_safe]. right. split_and!; [done|done|].
  assert (Ef : f = ReadObjectKey).
  { unfold json_natives in Hin. repeat (apply elem_of_cons in Hin as [Hin|Hin]; [by simplify_eq|]). by apply elem_of_nil in Hin. }
  rewrite Ef. by apply read_key_stale.
Qed.
End plugin.
