(* ===== verification/Sessions.v ===== *)
(** * Sessions of plugins

    Sequences of native calls and closed handles, from the start of the
    server: safety of every session, what the integer natives store and give
    back, and the two places where the natives do not keep what they promise. *)

From stdpp Require Import gmultiset.
From Stdlib Require Import SpecFloat.
From S2P Require Import Prelude Utf8 Strbuffer Dlist Hashtable Value Arrays Refcount ValueSpec Iterate.
From S2P Require Import Client Error Strconv Load Dump Grammar Tree Building Equal Natives Plugin.

(* ------------------------------------------------------------------ *)
(** ** A handle system *)

(** Handles are the keys of a table. *)
Definition table_handles : Type := gmap positive (HandleType * hobject).

#[export] Instance table_handle_system : HandleSystem table_handles := {
  CreateHandleEx t o hs := let h := fresh (dom hs) in ((Zpos h, 0), <[h := (t, o)]> hs);
  ReadHandle h t hs :=
    match hs !! Z.to_pos h with
    | Some (t', o) => if decide (t' = t) then inr o else inl 2
    | None => inl 1
    end;
  FreeHandle h hs := (hs !! Z.to_pos h, delete (Z.to_pos h) hs);
  owned hs := (map_to_list hs).*2
}.

#[export] Instance table_handle_laws : HandleLaws table_handles.
Proof.
  split; unfold CreateHandleEx, ReadHandle, FreeHandle, owned, table_handle_system.
  - intros t o hs h err hs' [= <- <- <-]. change (Zpos _ =? BAD_HANDLE) with false. cbv iota.
    apply (fmap_Permutation snd _ ((fresh (dom hs), (t, o)) :: map_to_list hs)), map_to_list_insert.
    apply not_elem_of_dom, is_fresh.
  - intros h t hs o. destruct (hs !! Z.to_pos h) as [[t' o']|] eqn:E; [|done]. case_decide; [|done]. intros [= ->]. subst.
    apply list_elem_of_fmap. exists (Z.to_pos h, (t, o)). split; [done|]. by apply elem_of_map_to_list.
  - intros h hs o hs' [= <- <-]. destruct (hs !! Z.to_pos h) as [x|] eqn:E.
    + symmetry. by apply (fmap_Permutation snd ((Z.to_pos h, x) :: map_to_list (delete (Z.to_pos h) hs))), map_to_list_delete.
    + assert (delete (Z.to_pos h) hs = hs) as -> by (by apply delete_id). done.
Qed.

(* ------------------------------------------------------------------ *)
(** ** Sessions *)

Section sessions.
Context {HS : Type} `{HandleLaws HS}.

Definition n_init (oom : oracle) (entropy : Z) (hs : HS) : nstate HS :=
  {| n_world := world_init oom entropy; n_handles := hs; n_keys := ∅; n_fresh := 1; n_events := [] |}.

Inductive session (s0 : nstate HS) : nstate HS -> Prop :=
| session_start : session s0 s0
| session_native s name f e r s' :
    session s0 s -> (name, f) ∈ json_natives -> native_ok s name e -> f e s = inr (r, s') -> session s0 s'
| session_close s h s' : session s0 s -> CloseHandle h s = inr (tt, s') -> session s0 s'.

Lemma plugin_ok_init oom entropy hs : owned hs = [] -> plugin_ok (n_init oom entropy hs).
Proof.
  intros Hhs. split; cbn; rewrite ?Hhs; try done.
  - apply inv_init.
  - by intros k ?%elem_of_nil.
  - constructor.
  - intros k [? Hk]. by rewrite lookup_empty in Hk.
Qed.

Lemma session_ok s0 s : plugin_ok s0 -> session s0 s -> plugin_ok s.
Proof using H0.
  intros Hs0. induction 1 as [|s name f e r s' _ IH Hin Hok E|s h s' _ IH E]; [done| |].
  - destruct (native_cases s name f e IH Hin Hok) as [Hsafe|(_ & _ & E')]; [|by rewrite E in E'].
    unfold safe, wp in Hsafe. by rewrite E in Hsafe.
  - pose proof (close_handle_safe h s IH) as Hsafe. unfold safe, wp in Hsafe. by rewrite E in Hsafe.
Qed.

(** C4. In every state a plugin can bring about with the JSON natives and by
    closing handles, with any pattern of allocation failures, every next call
    returns without touching freed memory, and afterwards each handle owns
    exactly one reference and every reference count is exact -- with one
    exception, which is no more and no less than this: [ReadKey] on keys whose
    object has been freed, or whose pair has been removed, is undefined
    behaviour.  A call is one whose strings and texts have the sizes the
    library is made for and which, if it decodes a text, has the memory for it
    ([native_ok]); closing a handle has no condition. *)
Theorem plugin_safe oom entropy hs s :
  owned hs = [] -> session (n_init oom entropy hs) s ->
  (forall name f e, (name, f) ∈ json_natives -> native_ok s name e ->
    (exists r s', f e s = inr (r, s') /\ plugin_ok s') \/
    (name = "JSONObjectKeys.ReadKey"%string /\ stale_keys s e /\ f e s = inl UndefinedBehaviour)) /\
  (forall h, exists s', CloseHandle h s = inr (tt, s') /\ plugin_ok s').
Proof using H0.
  intros Hhs Hs. apply session_ok in Hs; [|by apply plugin_ok_init]. split.
  - intros name f e Hin Hok. destruct (native_cases s name f e Hs Hin Hok) as [Hsafe|Hst]; [left|by right].
    destruct (wp_inv _ _ _ Hsafe) as (r & s' & E & Hs'). by exists r, s'.
  - intros h. destruct (wp_inv _ _ _ (close_handle_safe h s Hs)) as ([] & s' & E & Hs'). by exists s'.
Qed.
End sessions.

(** An environment in which all parameters are [p] and all strings [t]. *)
Definition simple_env (ps : list Z) (t : bytes) : env := {|
  params := fun i => nth (Z.to_nat (i - 1)) ps 0;
  LocalToString := fun _ => t;
  BuildPath := fun p => p;
  fopen_read := fun _ => inl [];
  fopen_write := fun _ => None;
  fclose_result := 0;
  decimal_point := chr ".";
  error_block := {| e_line := 0; e_column := 0; e_position := 0; e_source := []; e_text := []; e_code := json_error_unknown |}
|}.

(* ------------------------------------------------------------------ *)
(** ** What the integer natives store and give back *)

Section values.
Context {HS : Type} `{HandleLaws HS}.
Implicit Types s : nstate HS.

(** The JSON handle [h] is open on [l]. *)
Definition opens_json (s : nstate HS) (h : Z) (l : loc) : Prop :=
  ReadHandle (uint32 h) htJSON (n_handles s) = inr (PJSON (Some l)).

Lemma with_json_open s h l (k : json_ptr -> ST (nstate HS) Z) Q :
  opens_json s h l -> wp (k (Some l)) s Q -> wp (with_json h k) s Q.
Proof.
  intros Hh Hk. unfold with_json, GetJSONFromHandle. wp_step. wp_step. apply wp_gets. rewrite Hh. by rewrite wp_ret.
Qed.

(** A member that exists. *)
Lemma object_get_open s h l items k v :
  opens_json s h l -> object_at (n_world s) l items -> alookup k (kvs items) = Some v ->
  forall (f : json_ptr -> ST (nstate HS) Z) Q, wp (f (Some v)) s Q ->
  wp (with_json h (fun object => let* value := in_json (json_object_get object (Some k)) in f value)) s Q.
Proof using H0.
  intros Hh Ho Hv f Q Hf. eapply with_json_open; [exact Hh|]. wp_step. apply wp_in_json.
  eapply wp_mono; [by apply json_object_get_spec|]. cbv beta. intros ? ? [-> ->]. rewrite Hv. by rewrite set_n_world_id.
Qed.

Lemma integer_value_spec w v z : body_at w v (Integer z) -> wp (json_integer_value (Some v)) w (fun r w' => w' = w /\ r = z).
Proof using. intros (n & Hn & Hb). unfold json_integer_value. wp_step. eapply wp_deref; [exact Hn|]. by rewrite Hb. Qed.

(** [SetObjectIntValue] that succeeds: the key maps to the integer, the other
    members are as they were. *)
Lemma set_int_spec e s l items :
  plugin_ok s -> call_fits e s -> opens_json s (params e 1) l -> object_at (n_world s) l items ->
  wp (SetObjectIntValue e) s (fun r s' => r = 1 ->
    plugin_ok s' /\ n_handles s' = n_handles s /\ n_events s' = n_events s /\
    exists items' v, object_at (n_world s') l items' /\ body_at (n_world s') v (Integer (params e 3)) /\
      kvs items' = aset (LocalToString e (params e 2)) v (kvs items)).
Proof using H0.
  intros Hs Hfit Hh Ho. pose proof (po_inv _ Hs) as Hinv. set (k := LocalToString e (params e 2)).
  assert (Hl : l ∈ handle_roots (owned (n_handles s))) by (by apply elem_handle_roots, (read_owned _ _ _ _ Hh)).
  assert (Hz : INT64_MIN <= params e 3 <= INT64_MAX).
  { pose proof (ca_params _ _ Hfit 3). unfold INT64_MIN, INT64_MAX. lia. }
  unfold SetObjectIntValue, set_object. eapply with_json_open; [exact Hh|]. fold k.
  wp_step. apply wp_in_json. eapply wp_mono; [by apply json_integer_spec|].
  intros r w (Hfr & Hb & _ & Hr). unfold succeeded. wp_step. apply wp_in_json. cbn [n_world set_n_world].
  destruct r as [v|].
  2:{ unfold json_object_set_new, json_decref. destruct (utf8_check_string k); [cbn [json_object_set_new_nocheck]|wp_step; wp_step];
      by rewrite !wp_ret. }
  destruct Hr as (Hinv1 & Hnew & Hv & Hbody). unfold json_object_set_new. destruct (utf8_check_string k).
  2:{ wp_step. eapply wp_mono; [by apply json_decref_spec|]. intros ? w2 _. rewrite !wp_ret. done. }
  assert (Hne : l <> v).
  { intros ->. destruct (inv_closed _ _ _ Hinv v) as [n Hn]; [by apply in_held_roots|congruence]. }
  assert (Ho1 : object_at w l items).
  { eapply object_keep; [exact Hinv|exact Hinv1|exact Hfr| |apply not_elem_of_empty|exact Ho]. 
    apply gmultiset_elem_of_disj_union. right. apply gmultiset_elem_of_disj_union. by left. }
  eapply wp_mono; [apply (json_object_set_new_nocheck_spec w _ ∅ l items k v Hinv1 Ho1 Hl Hne)|].
  { by apply (room_objects _ _ (ca_room _ _ Hfit) l). }
  intros r w2 (Hinv2 & Hfr2 & _ & Hr). rewrite wp_ret.
  destruct Hr as [(-> & items' & Ho2 & Ekv & _)|(-> & _)]; cbn [Z.eqb]; [|done]. intros _.
  split; [exact (plugin_ok_world s w2 Hs Hinv2)|]. split_and!; [done|done|]. exists items', v. cbn [n_world set_n_world].
  split_and!; [done| |done]. eapply body_keep; [exact Hinv1|exact Hinv2|exact Hfr2| | |exact Hbody].
  - eapply (object_child _ _ _ Hinv2 l items' (k, v)); [by apply in_held_roots|done|]. rewrite Ekv.
    apply alookup_elem. rewrite alookup_aset. by rewrite decide_True.
  - by intros ->%elem_of_singleton.
Qed.

Lemma int32_id z : - 2 ^ 31 <= z < 2 ^ 31 -> int32 z = z.
Proof using. intros Hz. unfold int32. rewrite Z.mod_small by lia. lia. Qed.

(** What [SetInt] stores [GetInt] gives back: after a call of the native
    with the result true, reading the same key of the same object returns the
    integer, and nothing is reported to the plugin. *)
Theorem set_get_int e e' s s' l items :
  plugin_ok s -> call_fits e s -> opens_json s (params e 1) l -> object_at (n_world s) l items ->
  SetObjectIntValue e s = inr (1, s') ->
  params e' 1 = params e 1 -> LocalToString e' (params e' 2) = LocalToString e (params e 2) ->
  GetObjectIntValue e' s' = inr (params e 3, s') /\ n_events s' = n_events s.
Proof using H0.
  intros Hs Hfit Hh Ho Hset E1 E2. pose proof (set_int_spec e s l items Hs Hfit Hh Ho) as Hspec.
  unfold wp in Hspec. rewrite Hset in Hspec. destruct (Hspec eq_refl) as (Hs' & Hhs & Hev & items' & v & Ho' & Hb & Ekv).
  split; [|done].
  assert (Hget : wp (GetObjectIntValue e') s' (fun r s'' => s'' = s' /\ r = params e 3)).
  { unfold GetObjectIntValue, object_member. rewrite E1, E2. eapply object_get_open; [|exact Ho'| |].
    - unfold opens_json. by rewrite Hhs.
    - rewrite Ekv, alookup_aset. by rewrite decide_True.
    - unfold int_value. wp_step. apply wp_in_json. eapply wp_mono; [by apply integer_value_spec|].
      cbv beta. intros ? ? [-> ->]. rewrite wp_ret, set_n_world_id. split; [done|]. apply int32_id, (ca_params _ _ Hfit). }
  apply wp_inv in Hget as (r & s'' & E & -> & ->). done.
Qed.
End values.

(* ------------------------------------------------------------------ *)
(** ** A small session *)

(** Room is decidable on a concrete world. *)
Definition body_roomy (b : body) : Prop :=
  match b with
  | Object ht => ht_size ht < 2 ^ 31
  | Array a => a_entries a + 1 <= ARRAY_MAX
  | _ => True
  end.
#[export] Instance body_roomy_dec b : Decision (body_roomy b).
Proof. destruct b; cbn [body_roomy]; apply _. Defined.

Lemma roomy_small w roots :
  map_Forall (fun _ n => body_roomy (n_body n)) (w_heap w) ->
  Z.of_nat (size (refs (w_heap w) ⊎ roots)) < 2 ^ 31 -> roomy w roots.
Proof.
  intros Hb Hsize. split.
  - intros l items (ht & (n & Hn & Eb) & xs & Hwf). specialize (Hb l n Hn). cbv beta in Hb. rewrite Eb in Hb. cbn [body_roomy] in Hb.
    by rewrite <- (wf_size _ _ _ _ Hwf).
  - intros l xs (a & (n & Hn & Eb) & Ha). specialize (Hb l n Hn). cbv beta in Hb. rewrite Eb in Hb. cbn [body_roomy] in Hb.
    by rewrite <- (ar_entries _ _ Ha).
  - intros l. pose proof (multiplicity_le_size l (refs (w_heap w) ⊎ roots)). unfold SIZE_MAX. lia.
Qed.

(** An empty object behind the handle 1. *)
Definition after {A} (m : ST (nstate table_handles) A) (s : nstate table_handles) : nstate table_handles :=
  match m s with inr (_, s') => s' | inl _ => s end.
Definition small_start : nstate table_handles := n_init [] 5 ∅.
Definition small_state : nstate table_handles := after CreateObject small_start.

Lemma simple_env_fits {HS} `{HandleSystem HS} ps t (s : nstate HS) :
  Forall (fun p => - 2 ^ 31 <= p < 2 ^ 31) ps -> is_cstr t -> Z.of_nat (length t) < 2 ^ 31 ->
  roomy (n_world s) (handle_roots (owned (n_handles s))) -> call_fits (simple_env ps t) s.
Proof.
  intros Hps Ht Hlen Hroom. split; [|by split|done]. intros i. cbn.
  destruct (nth_in_or_default (Z.to_nat (i - 1)) ps 0) as [Hin| ->]; [|lia].
  rewrite Forall_forall in Hps. by apply Hps, list_elem_of_In.
Qed.

Lemma small_state_session : session small_start small_state.
Proof.
  destruct (CreateObject small_start) as [er|[r s']] eqn:E; [by vm_compute in E|].
  replace small_state with s' by (unfold small_state, after; by rewrite E).
  apply (session_native _ small_start "JSONObject.JSONObject" (fun _ => CreateObject) (simple_env [] []) r); [constructor|by left| |done].
  split; [|done|done]. apply simple_env_fits; [constructor|constructor|done|apply roomy_init].
Qed.
Lemma small_state_ok :
  plugin_ok small_state /\ opens_json small_state 1 4 /\ exists items, object_at (n_world small_state) 4%positive items.
Proof.
  assert (Hok : plugin_ok small_state).
  { apply (session_ok small_start); [by apply plugin_ok_init|]. apply small_state_session. }
  split; [done|]. split; [vm_compute; reflexivity|].
  assert (Hl : 4%positive ∈ handle_roots (owned (n_handles small_state))) by (apply (bool_decide_unpack _); vm_compute; exact I).
  destruct (held_cases _ _ _ (po_inv _ Hok) Hl) as [Ho|Hother]; [done|].
  assert (exists b, body_at (n_world small_state) 4%positive b /\ type_of b <> JSON_OBJECT) as (b & (n & Hn & <-) & Ht).
  { destruct Hother as [(xs & a & Hb & _)|(b & Hb & ? & _)]; eauto. }
  exfalso. clear - Hn Ht. vm_compute in Hn. injection Hn as <-. by apply Ht.
Qed.

Definition set_env : env := simple_env [1; 7; -5] (lit "n").
Lemma set_env_fits : call_fits set_env small_state.
Proof.
  apply simple_env_fits.
  - repeat constructor; lia.
  - by repeat constructor.
  - vm_compute. reflexivity.
  - apply roomy_small; [|vm_compute; reflexivity]. apply (bool_decide_unpack _). vm_compute. exact I.
Qed.
Definition set_state : nstate table_handles := after (SetObjectIntValue set_env) small_state.

Lemma set_state_ok :
  plugin_ok set_state /\ opens_json set_state 1 4 /\
  exists items v, object_at (n_world set_state) 4%positive items /\ alookup (lit "n") (kvs items) = Some v /\
    body_at (n_world set_state) v (Integer (-5)).
Proof.
  destruct small_state_ok as (Hok & Hh & items & Ho).
  pose proof (set_int_spec set_env small_state 4%positive items Hok set_env_fits Hh Ho) as Hspec.
  assert (E : SetObjectIntValue set_env small_state = inr (1, set_state)) by (vm_compute; reflexivity).
  unfold wp in Hspec. rewrite E in Hspec. destruct (Hspec eq_refl) as (Hs & Hhs & _ & items' & v & Ho' & Hb & Ekv).
  split; [done|]. split; [unfold opens_json; by rewrite Hhs|]. exists items', v. split_and!; [done| |done].
  rewrite Ekv, alookup_aset. by rewrite decide_True.
Qed.

(** The next call sets a member of the open object. *)
Lemma plugin_safe_witness :
  exists r s', SetObjectIntValue set_env small_state = inr (r, s') /\ plugin_ok s'.
Proof.
  destruct (plugin_safe [] 5 (∅ : table_handles) small_state) as [Hn _].
  - reflexivity.
  - exact small_state_session.
  - destruct (Hn "JSONObject.SetInt"%string SetObjectIntValue set_env) as [Hsafe|(E & _)].
    + unfold json_natives. repeat (first [by left|right]).
    + split; [exact set_env_fits|done|done].
    + exact Hsafe.
    + discriminate E.
Defined.

(* ------------------------------------------------------------------ *)
(** ** 64-bit integers as strings *)

Lemma printf_d_length z : INT64_MIN <= z <= INT64_MAX -> (length (printf_d z) <= 19)%nat <-> - 10 ^ 18 < z.
Proof.
  intros Hz. unfold printf_d, INT64_MIN, INT64_MAX in *. rewrite length_app. unfold dec_chars. rewrite length_fmap.
  destruct (Z.ltb_spec z 0) as [Hn|Hn]; cbn [sign_chars length].
  - rewrite Z.abs_neq by lia. destruct (Z_lt_le_dec (- z) (10 ^ 18)) as [Hlt|Hge].
    + pose proof (length_digits 10 (- z) 18 ltac:(lia) ltac:(lia) ltac:(lia)). lia.
    + destruct (digits_spec 10 (- z) ltac:(lia) ltac:(lia)) as (Hd & Hv & _). apply of_digits_lt in Hd; [|lia].
      rewrite Hv in Hd. split; [|lia]. intros Hlen. exfalso.
      assert (10 ^ Z.of_nat (length (digits 10 (- z))) <= 10 ^ 18) by (apply Z.pow_le_mono_r; lia). lia.
  - rewrite Z.abs_eq by lia. pose proof (length_digits 10 z 19 ltac:(lia) ltac:(lia) ltac:(lia)). lia.
Qed.

Section int64.
Context {HS : Type} `{HandleLaws HS}.

(** C39. [GetInt64] gives the plugin the decimal text of the integer exactly
    when the integer is above -10^18; below that the last digit does not fit
    into the native's buffer and is lost. *)
Theorem get_int64_text e (s : nstate HS) l items v z :
  plugin_ok s -> opens_json s (params e 1) l -> object_at (n_world s) l items ->
  alookup (LocalToString e (params e 2)) (kvs items) = Some v -> body_at (n_world s) v (Integer z) ->
  exists s' text, GetObjectInt64Value e s = inr (1, s') /\ n_world s' = n_world s /\
    n_events s' = n_events s ++ [StringToLocalUTF8 (params e 3) (params e 4) text] /\
    (text = printf_d z <-> - 10 ^ 18 < z).
Proof using H0.
  intros Hs Hh Ho Hv Hb.
  assert (Hz : INT64_MIN <= z <= INT64_MAX).
  { destruct (decide (v ∈ statics)) as [Hst|Hst]; [|by apply (leaf_body _ _ _ _ _ (po_inv _ Hs) Hb)].
    by destruct (static_body _ _ _ _ _ (po_inv _ Hs) Hb Hst) as [[_ [=]]|[[_ [=]]|[_ [=]]]]. }
  assert (Hget : wp (GetObjectInt64Value e) s (fun r s' => r = 1 /\ n_world s' = n_world s /\
    n_events s' = n_events s ++ [StringToLocalUTF8 (params e 3) (params e 4) (snprintf INT64_BUFFER (printf_d z))])).
  { unfold GetObjectInt64Value. eapply object_get_open; [exact Hh|exact Ho|exact Hv|]. cbv iota.
    unfold write_int64. wp_step. apply wp_in_json. eapply wp_mono; [by apply integer_value_spec|].
    cbv beta. intros ? ? [-> ->]. rewrite set_n_world_id. wp_step. unfold tell. wp_step. by rewrite wp_ret. }
  apply wp_inv in Hget as (r & s' & E & -> & Hw & Hev). exists s', (snprintf INT64_BUFFER (printf_d z)).
  split_and!; try done. rewrite <- (printf_d_length z Hz). unfold snprintf.
  change (Z.to_nat (INT64_BUFFER - 1)) with 19%nat. split.
  - intros Ht. apply (f_equal length) in Ht. rewrite length_take in Ht. lia.
  - intros Hlen. by apply take_ge.
Qed.
End int64.

Lemma get_int64_text_witness :
  exists s' text, GetObjectInt64Value (simple_env [1; 7; 8; 9] (lit "n")) set_state = inr (1, s') /\
    n_world s' = n_world set_state /\
    n_events s' = n_events set_state ++ [StringToLocalUTF8 8 9 text] /\ (text = printf_d (-5) <-> - 10 ^ 18 < -5).
Proof.
  destruct set_state_ok as (Hok & Hh & items & v & Ho & Hv & Hb).
  apply (get_int64_text (simple_env [1; 7; 8; 9] (lit "n")) set_state 4%positive items v (-5)).
  - exact Hok.
  - exact Hh.
  - exact Ho.
  - exact Hv.
  - exact Hb.
Defined.

(* ------------------------------------------------------------------ *)
(** ** Keys *)

Section keys.
Context {HS : Type} `{HandleLaws HS}.
Implicit Types s : nstate HS.

(** [while (keys.ReadKey(buffer, maxlength))]: the number of keys read. *)
Fixpoint read_keys (fuel : nat) (e : env) : ST (nstate HS) Z :=
  match fuel with
  | O => fail OutOfFuel
  | S fuel' =>
      let* r := ReadObjectKey e in
      if r =? 0 then ret 0 else let* n := read_keys fuel' e in ret (n + 1)
  end.

(** The handle [h] is open on keys of [l] at the position [i]. *)
Definition reading (s : nstate HS) (h : Z) (l : loc) (items : items_t) (i : nat) : Prop :=
  object_at (n_world s) l items /\
  exists k, ReadHandle (uint32 h) htJSONObjectKeys (n_handles s) = inr (PKeys k) /\
    n_keys s !! k = Some {| k_object := Some l; k_iter := items.*1 !! i |}.

Definition key_event (e : env) (key : bytes) : event :=
  StringToLocalUTF8 (params e 2) (params e 3) (until_nul key).

Lemma read_key_step e s l items i :
  reading s (params e 1) l items i ->
  wp (ReadObjectKey e) s (fun r s' => reading s' (params e 1) l items (S i) /\ n_world s' = n_world s /\
    match keys items !! i with
    | Some key => r = 1 /\ n_events s' = n_events s ++ [key_event e key]
    | None => r = 0 /\ n_events s' = n_events s
    end).
Proof using H0.
  intros (Ho & k & Hh & Hk). unfold ReadObjectKey. wp_step. apply wp_gets. rewrite Hh.
  wp_step. apply wp_gets. wp_step. eapply wp_require; [exact Hk|]. unfold GetKey. cbn [k_iter k_object].
  rewrite (list_lookup_fmap _ items i : keys items !! i = _). destruct (items !! i) as [[n pr]|] eqn:Hi.
  - destruct (items_kvs _ _ _ _ Hi) as [Hn _]. rewrite Hn. wp_step. apply wp_in_json.
    eapply wp_mono; [by apply (json_object_iter_key_spec _ l items Ho i n pr)|].
    cbv beta. intros ? ? [-> ->]. rewrite set_n_world_id. wp_step. unfold tell. wp_step. unfold Next. wp_step. wp_step.
    cbn [k_iter k_object]. set (s1 := {| n_world := n_world s |}). apply wp_in_json.
    eapply wp_mono; [by apply (json_object_iter_next_spec _ l items Ho i n)|].
    cbv beta. intros ? ? [-> ->]. change (set_n_world (n_world s) s1) with s1. wp_step. apply wp_gets. wp_step.
    rewrite wp_ret. split; [|done]. split; [done|]. exists k. split; [done|]. cbn. by rewrite lookup_insert_eq.
  - assert (Hnone : items.*1 !! i = None) by (by rewrite list_lookup_fmap, Hi). rewrite Hnone. wp_step. wp_step.
    rewrite wp_ret. split; [|done]. split; [done|]. exists k. split; [done|]. rewrite Hk, Hnone.
    apply lookup_ge_None in Hi. do 2 f_equal. rewrite list_lookup_fmap, (proj2 (lookup_ge_None items (S i))) by lia. done.
Qed.

Lemma read_keys_spec e l items fuel : forall s i,
  reading s (params e 1) l items i -> (i <= length items)%nat -> (length items < i + fuel)%nat ->
  wp (read_keys fuel e) s (fun r s' => r = Z.of_nat (length items - i) /\ n_world s' = n_world s /\
    n_events s' = n_events s ++ (key_event e <$> drop i (keys items))).
Proof using H0.
  induction fuel as [|fuel IH]; intros s i Hr Hi Hf; [lia|]. cbn [read_keys]. wp_step.
  eapply wp_mono; [by apply read_key_step|]. intros r s' (Hr' & Hw & Hc).
  destruct (keys items !! i) as [key|] eqn:Hk; destruct Hc as [-> Hev].
  - pose proof (lookup_lt_Some _ _ _ Hk) as Hlt. unfold keys in Hlt. rewrite length_fmap in Hlt. cbn [Z.eqb]. wp_step.
    eapply wp_mono; [apply (IH s' (S i) Hr'); lia|]. intros n s'' (-> & Hw' & Hev'). rewrite wp_ret.
    split; [lia|]. split; [congruence|]. by rewrite Hev', Hev, <- app_assoc, (drop_S _ _ _ Hk).
  - apply lookup_ge_None in Hk. unfold keys in Hk. rewrite length_fmap in Hk. cbn [Z.eqb]. rewrite wp_ret.
    split; [lia|]. split; [done|]. rewrite drop_ge by (unfold keys; by rewrite length_fmap). by rewrite app_nil_r.
Qed.

(** As long as the object is not changed, a loop over [ReadKey] ends and
    gives the plugin every key of the object once, in the order of
    insertion. *)
Theorem read_keys_enumerates e s l items :
  reading s (params e 1) l items 0 ->
  exists s', read_keys (S (length items)) e s = inr (Z.of_nat (length items), s') /\ n_world s' = n_world s /\
    n_events s' = n_events s ++ (key_event e <$> keys items).
Proof using H0.
  intros Hr. pose proof (read_keys_spec e l items (S (length items)) s 0 Hr ltac:(lia) ltac:(lia)) as Hspec.
  apply wp_inv in Hspec as (r & s' & E & -> & Hw & Hev). exists s'. rewrite Nat.sub_0_r in E. by rewrite drop_0 in Hev.
Qed.
End keys.

(** The table of the object in [set_state]. *)
Definition set_table : option hashtable_t :=
  match n_body <$> w_heap (n_world set_state) !! 4%positive with Some (Object ht) => Some ht | _ => None end.

Lemma set_table_items items :
  object_at (n_world set_state) 4%positive items ->
  length items = 1%nat /\ items.*1 = [1%positive] /\ keys items = [lit "n"].
Proof.
  intros (ht & (n & Hn & Hb) & xs & Hwf).
  assert (Eht : set_table = Some ht) by (unfold set_table; rewrite Hn; cbn [fmap option_fmap option_map]; by rewrite Hb).
  assert (E : (fun ht => (ht_size ht, prod_map id p_key <$> map_to_list (ht_pairs ht))) <$> set_table =
              Some (1, [(1%positive, lit "n")])) by (vm_compute; reflexivity).
  rewrite Eht in E. cbn [fmap option_fmap option_map] in E. injection E as Esize Epairs.
  rewrite (wf_size _ _ _ _ Hwf) in Esize. destruct items as [|[m pr] [|]]; try (cbn [length] in Esize; lia).
  assert (Hin : (m, p_key pr) ∈ prod_map id p_key <$> map_to_list (ht_pairs ht)).
  { apply list_elem_of_fmap. exists (m, pr). split; [done|]. apply elem_of_map_to_list, (wf_pairs _ _ _ _ Hwf). by left. }
  rewrite Epairs in Hin. apply list_elem_of_singleton in Hin. injection Hin as -> Ek. split; [done|]. split; [done|].
  unfold keys. cbn. by rewrite Ek.
Qed.

