(* ===== verification/Requests.v ===== *)
(** * The request queues (src/queue.h, src/extension.cpp)

    Two threads share two queues: the game thread adds requests and hands
    completed ones to the plugins, the event loop starts transfers and
    collects the finished ones.  The model interleaves the threads at every
    lock operation and at every test of a queue, the ones the code makes
    without the lock included; libcurl is the choice of which transfer ends
    when, and whether a transfer can be started. *)

From stdpp Require Import gmultiset.
From S2P Require Import Prelude.

(* ------------------------------------------------------------------ *)
(** ** State *)

(** Addresses of [IHTTPContext] objects. *)
Abbreviation ctx := positive.

Inductive thread : Type := Game | Loop.
#[export] Instance thread_eq_dec : EqDecision thread.
Proof. solve_decision. Defined.

(** [LockedQueue] *)
Record LockedQueue := { mutex : option thread; queue : list ctx }.

Definition Lock (t : thread) (q : LockedQueue) : option LockedQueue :=
  match mutex q with None => Some {| mutex := Some t; queue := queue q |} | Some _ => None end.
Definition Unlock (q : LockedQueue) : LockedQueue := {| mutex := None; queue := queue q |}.
(** [front] of an empty queue is undefined *)
Definition Pop (q : LockedQueue) : res (ctx * LockedQueue) :=
  match queue q with
  | c :: cs => inr (c, {| mutex := mutex q; queue := cs |})
  | [] => inl UndefinedBehaviour
  end.
Definition Push (c : ctx) (q : LockedQueue) : LockedQueue := {| mutex := mutex q; queue := queue q ++ [c] |}.
Definition Empty (q : LockedQueue) : bool := bool_decide (queue q = []).

Definition MAX_PROCESS : Z := 10.

(** Where the game thread is: in the engine and plugins, in [FrameHook], or
    adding a request (from the engine, or from the callback of a completed
    request). *)
Inductive game_pc : Type :=
| GIdle
| FrameRequests                     (* if (!g_RequestQueue.Empty()) *)
| FrameCompleted                    (* if (!g_CompletedRequestQueue.Empty()) *)
| FrameLock                         (* g_CompletedRequestQueue.Lock() *)
| FramePop                          (* ... Pop() *)
| FrameCallback (c : ctx)           (* context->OnCompleted() *)
| FrameDelete (c : ctx)             (* delete context *)
| FrameUnlock                       (* ... Unlock() *)
| AddLock (c : ctx) (back : option ctx)      (* g_RequestQueue.Lock() *)
| AddPush (c : ctx) (back : option ctx)      (* ... Push(context) *)
| AddUnlock (back : option ctx).             (* ... Unlock() *)

#[export] Instance game_pc_eq_dec : EqDecision game_pc.
Proof. solve_decision. Defined.

(** Where the event loop is. *)
Inductive loop_pc : Type :=
| LIdle
| AsyncLock                         (* g_RequestQueue.Lock() *)
| AsyncTest (count : Z)             (* while (!Empty() && count < MAX_PROCESS) *)
| AsyncPop (count : Z)              (* context = Pop() *)
| AsyncInit (c : ctx) (count : Z)   (* if (!context->InitCurl()) *)
| AsyncUnlock                       (* ... Unlock() *)
| CheckLock (c : ctx)               (* g_CompletedRequestQueue.Lock() *)
| CheckPush (c : ctx)               (* ... Push(context) *)
| CheckUnlock.                      (* ... Unlock() *)

#[export] Instance loop_pc_eq_dec : EqDecision loop_pc.
Proof. solve_decision. Defined.

Record sys := {
  g_RequestQueue : LockedQueue;
  g_CompletedRequestQueue : LockedQueue;
  g_Curl : list ctx;                (* the transfers in the multi handle *)
  g_Async : bool;                   (* [uv_async_send] was called since the last wake-up *)
  game : game_pc;
  loop : loop_pc;
  next_ctx : ctx;                   (* an address that was never used *)
  allocated : list ctx;             (* contexts that exist *)
  called : list ctx                 (* contexts whose [OnCompleted] ran *)
}.

Definition sys_init : sys := {|
  g_RequestQueue := {| mutex := None; queue := [] |};
  g_CompletedRequestQueue := {| mutex := None; queue := [] |};
  g_Curl := []; g_Async := false; game := GIdle; loop := LIdle; next_ctx := 1; allocated := []; called := [] |}.

Definition with_requests (q : LockedQueue) (s : sys) : sys := {|
  g_RequestQueue := q; g_CompletedRequestQueue := g_CompletedRequestQueue s; g_Curl := g_Curl s; g_Async := g_Async s;
  game := game s; loop := loop s; next_ctx := next_ctx s; allocated := allocated s; called := called s |}.
Definition with_completed (q : LockedQueue) (s : sys) : sys := {|
  g_RequestQueue := g_RequestQueue s; g_CompletedRequestQueue := q; g_Curl := g_Curl s; g_Async := g_Async s;
  game := game s; loop := loop s; next_ctx := next_ctx s; allocated := allocated s; called := called s |}.
Definition with_curl (cs : list ctx) (s : sys) : sys := {|
  g_RequestQueue := g_RequestQueue s; g_CompletedRequestQueue := g_CompletedRequestQueue s; g_Curl := cs; g_Async := g_Async s;
  game := game s; loop := loop s; next_ctx := next_ctx s; allocated := allocated s; called := called s |}.
Definition with_async (b : bool) (s : sys) : sys := {|
  g_RequestQueue := g_RequestQueue s; g_CompletedRequestQueue := g_CompletedRequestQueue s; g_Curl := g_Curl s; g_Async := b;
  game := game s; loop := loop s; next_ctx := next_ctx s; allocated := allocated s; called := called s |}.
Definition at_game (pc : game_pc) (s : sys) : sys := {|
  g_RequestQueue := g_RequestQueue s; g_CompletedRequestQueue := g_CompletedRequestQueue s; g_Curl := g_Curl s; g_Async := g_Async s;
  game := pc; loop := loop s; next_ctx := next_ctx s; allocated := allocated s; called := called s |}.
Definition at_loop (pc : loop_pc) (s : sys) : sys := {|
  g_RequestQueue := g_RequestQueue s; g_CompletedRequestQueue := g_CompletedRequestQueue s; g_Curl := g_Curl s; g_Async := g_Async s;
  game := game s; loop := pc; next_ctx := next_ctx s; allocated := allocated s; called := called s |}.

(** [new] and [delete] of a context; only a context that exists can be used or
    deleted *)
Definition new_ctx (s : sys) : ctx * sys :=
  (next_ctx s,
   {| g_RequestQueue := g_RequestQueue s; g_CompletedRequestQueue := g_CompletedRequestQueue s; g_Curl := g_Curl s;
      g_Async := g_Async s; game := game s; loop := loop s; next_ctx := Pos.succ (next_ctx s);
      allocated := next_ctx s :: allocated s; called := called s |}).
Definition use_ctx (c : ctx) (s : sys) : res unit :=
  if bool_decide (c ∈ allocated s) then inr tt else inl UndefinedBehaviour.
Definition delete_ctx (c : ctx) (s : sys) : res sys :=
  if bool_decide (c ∈ allocated s) then
    inr {| g_RequestQueue := g_RequestQueue s; g_CompletedRequestQueue := g_CompletedRequestQueue s; g_Curl := g_Curl s;
           g_Async := g_Async s; game := game s; loop := loop s; next_ctx := next_ctx s;
           allocated := filter (fun d => d <> c) (allocated s); called := called s |}
  else inl UndefinedBehaviour.
Definition called_ctx (c : ctx) (s : sys) : sys := {|
  g_RequestQueue := g_RequestQueue s; g_CompletedRequestQueue := g_CompletedRequestQueue s; g_Curl := g_Curl s; g_Async := g_Async s;
  game := game s; loop := loop s; next_ctx := next_ctx s; allocated := allocated s; called := called s ++ [c] |}.

(* ------------------------------------------------------------------ *)
(** ** Steps: [None] when the thread has to wait *)

Definition step_res : Type := res (option sys).
Definition goto (s : sys) : step_res := inr (Some s).
Definition waits : step_res := inr None.
Definition rbind {A B} (r : res A) (k : A -> res B) : res B :=
  match r with inl e => inl e | inr a => k a end.

(** [AddRequestToQueue], from where a native created the context *)
Definition add_return (back : option ctx) : game_pc :=
  match back with None => GIdle | Some c => FrameCallback c end.
Definition AddRequestToQueue (s : sys) : step_res :=
  match game s with
  | AddLock c back =>
      match Lock Game (g_RequestQueue s) with
      | Some q => goto (at_game (AddPush c back) (with_requests q s))
      | None => waits
      end
  | AddPush c back => goto (at_game (AddUnlock back) (with_requests (Push c (g_RequestQueue s)) s))
  | AddUnlock back => goto (at_game (add_return back) (with_requests (Unlock (g_RequestQueue s)) s))
  | _ => waits
  end.

(** [FrameHook]; the callback itself ends by the choice [CallbackReturns] *)
Definition FrameHook (s : sys) : step_res :=
  match game s with
  | FrameRequests =>
      goto (at_game FrameCompleted (if negb (Empty (g_RequestQueue s)) then with_async true s else s))
  | FrameCompleted =>
      goto (at_game (if negb (Empty (g_CompletedRequestQueue s)) then FrameLock else GIdle) s)
  | FrameLock =>
      match Lock Game (g_CompletedRequestQueue s) with
      | Some q => goto (at_game FramePop (with_completed q s))
      | None => waits
      end
  | FramePop =>
      rbind (Pop (g_CompletedRequestQueue s)) (fun '(c, q) =>
      rbind (use_ctx c s) (fun _ =>
      goto (at_game (FrameCallback c) (with_completed q s))))
  | FrameDelete c => rbind (delete_ctx c s) (fun s => goto (at_game FrameUnlock s))
  | FrameUnlock => goto (at_game GIdle (with_completed (Unlock (g_CompletedRequestQueue s)) s))
  | _ => waits
  end.

(** [AsyncPerformRequests]; [ok] is the result of [InitCurl] *)
Definition AsyncPerformRequests (ok : bool) (s : sys) : step_res :=
  match loop s with
  | AsyncLock =>
      match Lock Loop (g_RequestQueue s) with
      | Some q => goto (at_loop (AsyncTest 0) (with_requests q s))
      | None => waits
      end
  | AsyncTest count =>
      goto (at_loop (if negb (Empty (g_RequestQueue s)) && (count <? MAX_PROCESS) then AsyncPop count else AsyncUnlock) s)
  | AsyncPop count =>
      rbind (Pop (g_RequestQueue s)) (fun '(c, q) => goto (at_loop (AsyncInit c count) (with_requests q s)))
  | AsyncInit c count =>
      rbind (use_ctx c s) (fun _ =>
      if negb ok then rbind (delete_ctx c s) (fun s => goto (at_loop (AsyncTest count) s))
      else goto (at_loop (AsyncTest (count + 1)) (with_curl (g_Curl s ++ [c]) s)))
  | AsyncUnlock => goto (at_loop LIdle (with_requests (Unlock (g_RequestQueue s)) s))
  | _ => waits
  end.

(** [CheckCompletedRequests] behind the message that the transfer [c] is done *)
Definition CheckCompletedRequests (s : sys) : step_res :=
  match loop s with
  | CheckLock c =>
      match Lock Loop (g_CompletedRequestQueue s) with
      | Some q => goto (at_loop (CheckPush c) (with_completed q s))
      | None => waits
      end
  | CheckPush c => goto (at_loop CheckUnlock (with_completed (Push c (g_CompletedRequestQueue s)) s))
  | CheckUnlock => goto (at_loop LIdle (with_completed (Unlock (g_CompletedRequestQueue s)) s))
  | _ => waits
  end.

(** What happens next: a thread makes a step, or the outside world acts. *)
Inductive choice : Type :=
| GameStep                (* the game thread goes on *)
| LoopStep (ok : bool)    (* the event loop goes on *)
| PluginRequest           (* a native creates a context and adds it *)
| GameFrame               (* the engine calls [FrameHook] *)
| CallbackReturns         (* the plugin's callback in [OnCompleted] returns *)
| AsyncWakeUp             (* libuv calls [AsyncPerformRequests] *)
| TransferDone (c : ctx). (* [curl_multi_info_read] reports the transfer *)

Definition step (ch : choice) (s : sys) : step_res :=
  match ch with
  | GameStep =>
      match game s with AddLock _ _ | AddPush _ _ | AddUnlock _ => AddRequestToQueue s | _ => FrameHook s end
  | LoopStep ok =>
      match loop s with CheckLock _ | CheckPush _ | CheckUnlock => CheckCompletedRequests s | _ => AsyncPerformRequests ok s end
  | PluginRequest =>
      let (c, s') := new_ctx s in
      match game s with
      | GIdle => goto (at_game (AddLock c None) s')
      | FrameCallback d => goto (at_game (AddLock c (Some d)) s')
      | _ => waits
      end
  | GameFrame => match game s with GIdle => goto (at_game FrameRequests s) | _ => waits end
  | CallbackReturns =>
      match game s with FrameCallback c => goto (at_game (FrameDelete c) (called_ctx c s)) | _ => waits end
  | AsyncWakeUp =>
      match loop s with
      | LIdle => if g_Async s then goto (at_loop AsyncLock (with_async false s)) else waits
      | _ => waits
      end
  | TransferDone c =>
      match loop s with
      | LIdle =>
          if bool_decide (c ∈ g_Curl s)
          then goto (at_loop (CheckLock c) (with_curl (filter (fun d => d <> c) (g_Curl s)) s))
          else waits
      | _ => waits
      end
  end.

Inductive reaches : sys -> sys -> Prop :=
| reaches_refl s : reaches s s
| reaches_step s s1 ch s2 : reaches s s1 -> step ch s1 = inr (Some s2) -> reaches s s2.

(* ------------------------------------------------------------------ *)
(** ** The invariant *)

(** The contexts a thread has in hand. *)
Definition game_hand (pc : game_pc) : list ctx :=
  match pc with
  | FrameCallback c | FrameDelete c => [c]
  | AddLock c back | AddPush c back => c :: option_list back
  | AddUnlock back => option_list back
  | _ => []
  end.
Definition loop_hand (pc : loop_pc) : list ctx :=
  match pc with AsyncInit c _ | CheckLock c | CheckPush c => [c] | _ => [] end.

(** Every context that exists is in one of these places. *)
Definition bag (l : list ctx) : gmultiset ctx := list_to_set_disj l.
Definition places (s : sys) : gmultiset ctx :=
  bag (queue (g_RequestQueue s)) ⊎ bag (queue (g_CompletedRequestQueue s)) ⊎ bag (g_Curl s) ⊎
  bag (game_hand (game s)) ⊎ bag (loop_hand (loop s)).

(** Who holds which lock. *)
Definition game_has_requests (pc : game_pc) : bool :=
  match pc with AddPush _ _ | AddUnlock _ => true | _ => false end.
Definition loop_has_requests (pc : loop_pc) : bool :=
  match pc with AsyncTest _ | AsyncPop _ | AsyncInit _ _ | AsyncUnlock => true | _ => false end.
Definition game_has_completed (pc : game_pc) : bool :=
  match pc with
  | FramePop | FrameCallback _ | FrameDelete _ | FrameUnlock => true
  | AddLock _ back | AddPush _ back | AddUnlock back => bool_decide (is_Some back)
  | _ => false
  end.
Definition loop_has_completed (pc : loop_pc) : bool :=
  match pc with CheckPush _ | CheckUnlock => true | _ => false end.
Definition lock_ok (m : option thread) (by_game by_loop : bool) : Prop :=
  match m with
  | None => by_game = false /\ by_loop = false
  | Some Game => by_game = true /\ by_loop = false
  | Some Loop => by_game = false /\ by_loop = true
  end.

Record sys_ok (s : sys) : Prop := {
  so_places : bag (allocated s) = places s;
  so_nodup : NoDup (allocated s);
  so_next : forall c, c ∈ allocated s \/ c ∈ called s -> (c < next_ctx s)%positive;
  so_requests : lock_ok (mutex (g_RequestQueue s)) (game_has_requests (game s)) (loop_has_requests (loop s));
  so_completed : lock_ok (mutex (g_CompletedRequestQueue s)) (game_has_completed (game s)) (loop_has_completed (loop s));
  so_pop_completed : game s = FrameLock \/ game s = FramePop -> queue (g_CompletedRequestQueue s) <> [];
  so_pop_requests : forall n, loop s = AsyncPop n -> queue (g_RequestQueue s) <> [];
  so_called : NoDup (called s);
  so_once : forall c, c ∈ called s -> c ∈ allocated s -> game s = FrameDelete c;
  so_deleting : forall c, game s = FrameDelete c -> c ∈ called s
}.

Lemma lock_free t q q' g l : Lock t q = Some q' -> lock_ok (mutex q) g l ->
  q' = {| mutex := Some t; queue := queue q |} /\ g = false /\ l = false.
Proof. unfold Lock. destruct (mutex q) eqn:E; [done|]. intros [= <-]. cbn. by intros [-> ->]. Qed.

Lemma bag_nil : bag [] = ∅.
Proof. done. Qed.
Lemma bag_cons c l : bag (c :: l) = {[+ c +]} ⊎ bag l.
Proof. done. Qed.
Lemma bag_app l l' : bag (l ++ l') = bag l ⊎ bag l'.
Proof. apply list_to_set_disj_app. Qed.
Lemma elem_of_bag c l : c ∈ bag l <-> c ∈ l.
Proof. apply elem_of_list_to_set_disj. Qed.
Lemma bag_remove c l : NoDup l -> c ∈ l -> bag l = {[+ c +]} ⊎ bag (filter (fun d => d <> c) l).
Proof.
  induction l as [|d l IH]; intros Hnd Hc; [by apply elem_of_nil in Hc|].
  apply NoDup_cons in Hnd as [Hd Hnd]. destruct (decide (d = c)) as [->|Hne].
  - rewrite filter_cons_False by (by intros []). rewrite bag_cons. do 2 f_equal. clear - Hd.
    induction l as [|x l IH]; [done|]. apply not_elem_of_cons in Hd as [Hx Hd]. rewrite filter_cons_True by done.
    f_equal. by apply IH.
  - rewrite filter_cons_True by done. apply elem_of_cons in Hc as [Hc|Hc]; [done|].
    rewrite !bag_cons, (IH Hnd Hc). multiset_solver.
Qed.

(** Equations between bags. *)
#[local] Ltac bags :=
  match goal with Hpl : bag _ = _ |- _ => rewrite ?bag_app, ?bag_cons, ?bag_nil in Hpl; rewrite ?bag_app, ?bag_cons, ?bag_nil; clear - Hpl; multiset_solver end.

(** A context in one of the places exists. *)
Lemma placed s c : sys_ok s -> c ∈ places s -> c ∈ allocated s.
Proof. intros Hok Hc. apply elem_of_bag. by rewrite (so_places _ Hok). Qed.

Definition keeps_ok (r : step_res) : Prop :=
  match r with inl _ => False | inr None => True | inr (Some s') => sys_ok s' end.

(** Opens the invariant of [s], with the positions of the threads known. *)
Ltac open_ok H :=
  destruct H as [Hpl Hnd Hnx Hrq Hcp Hpc Hpr Hcd Hon Hdl]; unfold places in Hpl;
  repeat match goal with E : game _ = _ |- _ => rewrite E in * end;
  repeat match goal with E : loop _ = _ |- _ => rewrite E in * end;
  cbn [game_hand loop_hand game_has_requests loop_has_requests game_has_completed loop_has_completed] in *.
(** The parts of the invariant that a step does not touch. *)
Ltac close_ok :=
  split; cbn [g_RequestQueue g_CompletedRequestQueue g_Curl g_Async game loop next_ctx allocated called mutex queue
    with_requests with_completed with_curl with_async at_game at_loop Push Unlock
    game_hand loop_hand game_has_requests loop_has_requests game_has_completed loop_has_completed] in *;
  unfold places; cbn [g_RequestQueue g_CompletedRequestQueue g_Curl game loop queue with_requests with_completed
    with_curl with_async at_game at_loop Push Unlock game_hand loop_hand];
  try done; try (by intros [?|?]); try (intros; discriminate);
  try (let d := fresh in let H1 := fresh in let H2 := fresh in
       intros d H1 H2; match goal with H : forall _, _ -> _ -> _ = FrameDelete _ |- _ => discriminate (H d H1 H2) end);
  try match goal with |- bag _ = _ => bags end.

(** A lock that is released was held by the thread. *)
Lemma unlocked m (g l : bool) : lock_ok m g l -> (g = true -> l = false) /\ (l = true -> g = false).
Proof. destruct m as [[]|]; cbn; intros [-> ->]; done. Qed.

Lemma add_request_ok s : sys_ok s -> keeps_ok (AddRequestToQueue s).
Proof.
  intros Hok. unfold AddRequestToQueue. destruct (game s) as [| | | | | | | |c back|c back|back] eqn:Eg; try done.
  - destruct (Lock Game (g_RequestQueue s)) as [q|] eqn:El; [|done]. open_ok Hok.
    destruct (lock_free _ _ _ _ _ El Hrq) as (-> & _ & Hl). close_ok.
  - open_ok Hok. close_ok. intros n En Ee. destruct (queue (g_RequestQueue s)); discriminate.
  - open_ok Hok. destruct (unlocked _ _ _ Hrq) as [Hl _]. specialize (Hl eq_refl). destruct back as [d|]; close_ok.
Qed.

Lemma frame_ok s : sys_ok s -> keeps_ok (FrameHook s).
Proof.
  intros Hok. unfold FrameHook. destruct (game s) as [| | | | |c|c| |c back|c back|back] eqn:Eg; try done.
  - open_ok Hok. destruct (negb (Empty (g_RequestQueue s))); close_ok.
  - open_ok Hok. unfold Empty. case_bool_decide as E; cbn [negb]; close_ok.
  - destruct (Lock Game (g_CompletedRequestQueue s)) as [q|] eqn:El; [|done]. open_ok Hok.
    destruct (lock_free _ _ _ _ _ El Hcp) as (-> & _ & Hl). close_ok.
    intros _. apply Hpc. by left.
  - pose proof (placed s) as Hplaced. unfold Pop. destruct (queue (g_CompletedRequestQueue s)) as [|c cs] eqn:Eq.
    { by destruct (so_pop_completed _ Hok (or_intror Eg)). }
    cbn [rbind]. unfold use_ctx. rewrite bool_decide_true; [cbn [rbind]|].
    2:{ apply Hplaced; [done|]. unfold places. rewrite Eq, bag_cons. multiset_solver. }
    open_ok Hok. rewrite Eq in *. close_ok.
  - unfold delete_ctx. rewrite bool_decide_true; cbn [rbind].
    2:{ apply (placed s c Hok). unfold places. rewrite Eg. cbn [game_hand]. rewrite bag_cons. multiset_solver. }
    pose proof (bag_remove c (allocated s) (so_nodup _ Hok)) as Hrm. open_ok Hok.
    assert (Hc : c ∈ allocated s).
    { apply elem_of_bag. rewrite Hpl, bag_cons. multiset_solver. }
    specialize (Hrm Hc). close_ok.
    + rewrite Hpl, bag_cons, bag_nil in Hrm. rewrite bag_nil. clear - Hrm. multiset_solver.
    + by apply NoDup_filter.
    + intros d Hd. apply Hnx. destruct Hd as [Hd|Hd]; [|by right]. left. by apply list_elem_of_filter in Hd as [_ Hd].
    + intros d Hd1 Hd2. apply list_elem_of_filter in Hd2 as [Hne Hd2]. specialize (Hon d Hd1 Hd2). congruence.
  - open_ok Hok. destruct (unlocked _ _ _ Hcp) as [Hl _]. specialize (Hl eq_refl). close_ok.
Qed.

Lemma async_ok ok s : sys_ok s -> keeps_ok (AsyncPerformRequests ok s).
Proof.
  intros Hok. unfold AsyncPerformRequests. destruct (loop s) as [| |n|n|c n| |c|c|] eqn:El; try done.
  - destruct (Lock Loop (g_RequestQueue s)) as [q|] eqn:Elk; [|done]. open_ok Hok.
    destruct (lock_free _ _ _ _ _ Elk Hrq) as (-> & Hg & _). close_ok.
  - open_ok Hok. unfold Empty. case_bool_decide as E; cbn [negb andb]; [close_ok|].
    destruct (n <? MAX_PROCESS); close_ok.
  - unfold Pop. destruct (queue (g_RequestQueue s)) as [|c cs] eqn:Eq.
    { by destruct (so_pop_requests _ Hok n El). }
    cbn [rbind]. open_ok Hok. rewrite Eq in *. close_ok.
  - assert (Hc : c ∈ allocated s).
    { apply (placed s c Hok). unfold places. rewrite El. cbn [loop_hand]. rewrite bag_cons. multiset_solver. }
    unfold use_ctx, delete_ctx. rewrite bool_decide_true by done. cbn [rbind].
    pose proof (bag_remove c (allocated s) (so_nodup _ Hok) Hc) as Hrm. open_ok Hok. destruct ok; cbn [negb]; [close_ok|].
    close_ok.
    + rewrite Hpl, bag_cons, bag_nil in Hrm. rewrite bag_nil. clear - Hrm. multiset_solver.
    + by apply NoDup_filter.
    + intros d Hd. apply Hnx. destruct Hd as [Hd|Hd]; [|by right]. left. by apply list_elem_of_filter in Hd as [_ Hd].
    + intros d Hd1 Hd2. apply list_elem_of_filter in Hd2 as [_ Hd2]. by apply Hon.
  - open_ok Hok. destruct (unlocked _ _ _ Hrq) as [_ Hl]. specialize (Hl eq_refl). close_ok.
Qed.

Lemma check_ok s : sys_ok s -> keeps_ok (CheckCompletedRequests s).
Proof.
  intros Hok. unfold CheckCompletedRequests. destruct (loop s) as [| |n|n|c n| |c|c|] eqn:El; try done.
  - destruct (Lock Loop (g_CompletedRequestQueue s)) as [q|] eqn:Elk; [|done]. open_ok Hok.
    destruct (lock_free _ _ _ _ _ Elk Hcp) as (-> & Hg & _). close_ok.
  - open_ok Hok. close_ok. intros Hg E. by destruct (queue (g_CompletedRequestQueue s)).
  - open_ok Hok. destruct (unlocked _ _ _ Hcp) as [_ Hl]. specialize (Hl eq_refl). close_ok.
Qed.

Lemma NoDup_bag l : NoDup l <-> forall c, (multiplicity c (bag l) <= 1)%nat.
Proof.
  induction l as [|d l IH].
  - split; [intros _ c; rewrite bag_nil, multiplicity_empty; lia|constructor].
  - rewrite NoDup_cons, IH. split.
    + intros [Hd Hl] c. rewrite bag_cons, multiplicity_disj_union. specialize (Hl c).
      destruct (decide (c = d)) as [->|Hne]; [|rewrite multiplicity_singleton_ne by done; lia].
      rewrite multiplicity_singleton_eq. rewrite <- elem_of_bag, elem_of_multiplicity in Hd. lia.
    + intros Hc. split; [|intros c]; [|specialize (Hc c); rewrite bag_cons, multiplicity_disj_union in Hc; lia].
      rewrite <- elem_of_bag, elem_of_multiplicity. specialize (Hc d).
      rewrite bag_cons, multiplicity_disj_union, multiplicity_singleton_eq in Hc. lia.
Qed.

Lemma step_ok ch s : sys_ok s -> keeps_ok (step ch s).
Proof.
  intros Hok. destruct ch as [|ok| | | | |c]; cbn [step].
  - destruct (game s); by first [apply add_request_ok|apply frame_ok].
  - destruct (loop s); by first [apply check_ok|apply async_ok].
  - destruct (game s) as [| | | | |c|c| |c back|c back|back] eqn:Eg; try done; open_ok Hok.
    + close_ok.
      * constructor; [|done]. intros Hin. specialize (Hnx _ (or_introl Hin)). lia.
      * intros c [[->|Hc]%elem_of_cons|Hc]; [lia| |]; [specialize (Hnx c (or_introl Hc))|specialize (Hnx c (or_intror Hc))]; lia.
      * intros c Hc [->|Hin]%elem_of_cons; [specialize (Hnx _ (or_intror Hc)); lia|discriminate (Hon c Hc Hin)].
    + close_ok.
      * constructor; [|done]. intros Hin. specialize (Hnx _ (or_introl Hin)). lia.
      * intros d [[->|Hc]%elem_of_cons|Hc]; [lia| |]; [specialize (Hnx d (or_introl Hc))|specialize (Hnx d (or_intror Hc))]; lia.
      * intros d Hc [->|Hin]%elem_of_cons; [specialize (Hnx _ (or_intror Hc)); lia|discriminate (Hon d Hc Hin)].
  - destruct (game s) eqn:Eg; try done; open_ok Hok. close_ok.
  - destruct (game s) as [| | | | |c|c| |c back|c back|back] eqn:Eg; try done.
    assert (Hc : c ∈ allocated s).
    { apply (placed s c Hok). unfold places. rewrite Eg. cbn [game_hand]. rewrite bag_cons. multiset_solver. }
    open_ok Hok. assert (Hnew : c ∉ called s) by (intros Hin; discriminate (Hon c Hin Hc)). close_ok.
    + intros d [Hd|[Hd| ->%list_elem_of_singleton]%elem_of_app]; apply Hnx; auto.
    + apply NoDup_app. split_and!; [done| |apply NoDup_singleton]. by intros d Hd ->%list_elem_of_singleton.
    + intros d [Hd| ->%list_elem_of_singleton]%elem_of_app Hin; [discriminate (Hon d Hd Hin)|done].
    + intros d [= ->]. cbn. set_solver.
  - destruct (loop s) eqn:El; try done. destruct (g_Async s); [|done]. open_ok Hok. close_ok.
  - destruct (loop s) eqn:El; try done. case_bool_decide as Hc; [|done]. open_ok Hok.
    assert (Hcurl : NoDup (g_Curl s)).
    { apply NoDup_bag. intros d. pose proof (proj1 (NoDup_bag _) Hnd d) as Hd. rewrite Hpl in Hd.
      rewrite !multiplicity_disj_union in Hd. lia. }
    pose proof (bag_remove c _ Hcurl Hc) as Hrm. close_ok.
    rewrite Hrm, bag_nil in Hpl. rewrite bag_cons, bag_nil. clear - Hpl. multiset_solver.
Qed.

Lemma reaches_ok s s' : sys_ok s -> reaches s s' -> sys_ok s'.
Proof.
  intros Hok. induction 1 as [|s s1 ch s2 _ IH E]; [done|]. specialize (IH Hok). pose proof (step_ok ch s1 IH) as H.
  by rewrite E in H.
Qed.

Lemma sys_init_ok : sys_ok sys_init.
Proof.
  split; cbn; try done; try constructor.
  - intros c [Hc|Hc]; by apply elem_of_nil in Hc.
  - by intros [?|?].
  - intros c Hc. by apply elem_of_nil in Hc.
Qed.

(** C5. Under every interleaving of the two threads, with plugins that add
    requests at any time, in callbacks too, and with transfers that end in any
    order or cannot be started: no queue is popped when it is empty, no
    context is used or deleted after its deletion, every context that exists
    is in exactly one place, and the callback of a request runs at most
    once. *)
Theorem requests_safe s :
  reaches sys_init s ->
  (forall ch e, step ch s <> inl e) /\ bag (allocated s) = places s /\ NoDup (allocated s) /\ NoDup (called s).
Proof.
  intros Hr. pose proof (reaches_ok _ _ sys_init_ok Hr) as Hok. split_and!; try apply Hok.
  intros ch e E. pose proof (step_ok ch s Hok) as H. by rewrite E in H.
Qed.

(** A request that was added, started, has ended and was handed to its plugin. *)
Definition first_request : list choice :=
  [PluginRequest; GameStep; GameStep; GameStep; GameFrame; GameStep; GameStep; AsyncWakeUp] ++
  replicate 6 (LoopStep true) ++ [TransferDone 1] ++ replicate 3 (LoopStep true) ++
  [GameFrame] ++ replicate 4 GameStep ++ [PluginRequest].

Fixpoint run (chs : list choice) (s : sys) : step_res :=
  match chs with
  | [] => goto s
  | ch :: chs => match step ch s with inr (Some s') => run chs s' | r => r end
  end.

Lemma reaches_trans s1 s2 s3 : reaches s1 s2 -> reaches s2 s3 -> reaches s1 s3.
Proof. intros H12. induction 1 as [|s s' ch s'' _ IH E]; [done|]. by eapply reaches_step; [apply IH|]. Qed.
Lemma reaches_one ch s s' : step ch s = inr (Some s') -> reaches s s'.
Proof. intros E. by eapply reaches_step; [apply reaches_refl|]. Qed.
Lemma run_reaches chs s s' : run chs s = inr (Some s') -> reaches s s'.
Proof.
  revert s. induction chs as [|ch chs IH]; intros s; cbn [run]; [intros [= ->]; apply reaches_refl|].
  destruct (step ch s) as [|[s1|]] eqn:E; [done| |done]. intros H. eapply reaches_trans; [by apply (reaches_one ch)|by apply IH].
Qed.

Definition ran (chs : list choice) : sys := match run chs sys_init with inr (Some s) => s | _ => sys_init end.

Lemma requests_safe_witness :
  game (ran first_request) = AddLock 2 (Some 1%positive) /\ allocated (ran first_request) = [2; 1]%positive /\
  NoDup (allocated (ran first_request)).
Proof.
  split_and!; [vm_compute; reflexivity..|].
  apply (requests_safe (ran first_request)). apply (run_reaches first_request). vm_compute. reflexivity.
Defined.

(* ------------------------------------------------------------------ *)
(** ** The threads come to rest *)

(** The moves of the two threads and of the plugin's callback. *)
Definition is_move (ch : choice) : bool :=
  match ch with GameStep | LoopStep _ | CallbackReturns => true | _ => false end.
Definition at_rest (s : sys) : Prop := game s = GIdle /\ loop s = LIdle.

(** How many moves are left when the outside world does nothing more. *)
Definition game_work (pc : game_pc) : nat :=
  match pc with
  | GIdle => 0 | FrameRequests => 7 | FrameCompleted => 6 | FrameLock => 5 | FramePop => 4
  | FrameCallback _ => 3 | FrameDelete _ => 2 | FrameUnlock => 1
  | AddLock _ back => 6 + 3 * length (option_list back)
  | AddPush _ back => 5 + 3 * length (option_list back)
  | AddUnlock back => 1 + 3 * length (option_list back)
  end%nat.
Definition loop_work (pc : loop_pc) (n : nat) : nat :=
  match pc with
  | LIdle => 0 | AsyncLock => 3 * n + 3 | AsyncTest _ => 3 * n + 2 | AsyncPop _ => 3 * n + 1
  | AsyncInit _ _ => 3 * n + 3 | AsyncUnlock => 1
  | CheckLock _ => 3 | CheckPush _ => 2 | CheckUnlock => 1
  end%nat.
Definition work (s : sys) : nat := game_work (game s) + loop_work (loop s) (length (queue (g_RequestQueue s))).

Lemma loop_work_push pc n : (loop_work pc (n + 1) <= loop_work pc n + 3)%nat.
Proof. destruct pc; cbn; lia. Qed.

Lemma move_works ch s s' : is_move ch -> step ch s = inr (Some s') -> (S (work s') <= work s)%nat.
Proof.
  unfold work. destruct ch as [|ok| | | | |c]; try done; intros _; cbn [step].
  - pose proof (loop_work_push (loop s) (length (queue (g_RequestQueue s)))) as Hp.
    unfold AddRequestToQueue, FrameHook, Lock, Pop, use_ctx, delete_ctx, goto.
    destruct (game s) as [| | | | |c|c| |c back|c back|back] eqn:Eg; try done;
      repeat (case_match; cbn [rbind]; try done); intros [= <-]; simplify_eq; cbn;
      rewrite ?length_app; cbn [length]; try lia. destruct back; cbn; lia.
  - unfold CheckCompletedRequests, AsyncPerformRequests, Lock, Pop, use_ctx, delete_ctx, goto.
    destruct (loop s) as [| |n|n|c n| |c|c|] eqn:El; try done;
      repeat (case_match; cbn [rbind]; try done); intros [= <-]; simplify_eq; cbn;
      rewrite ?length_app; repeat case_match; cbn [length]; simplify_eq; cbn [length]; try lia.
  - destruct (game s) eqn:Eg; try done. intros [= <-]. cbn. lia.
Qed.

(** The moves when transfers can be started. *)
Definition good_move (ch : choice) : bool :=
  match ch with GameStep | LoopStep true | CallbackReturns => true | _ => false end.
Lemma good_is_move ch : good_move ch -> is_move ch.
Proof. by destruct ch as [|[]| | | | |]. Qed.

(** A step that does not wait is made. *)
Lemma step_made ch s : sys_ok s -> good_move ch -> step ch s <> waits -> exists ch s', good_move ch /\ step ch s = inr (Some s').
Proof.
  intros Hok Hm Hw. pose proof (step_ok ch s Hok) as Hk. destruct (step ch s) as [|[s'|]] eqn:E; [done|by exists ch, s'|done].
Qed.

(** Only a lock that is held makes a thread wait. *)
Lemma game_moves s : sys_ok s -> game s <> GIdle ->
  (game s = FrameLock -> mutex (g_CompletedRequestQueue s) = None) ->
  (forall c back, game s = AddLock c back -> mutex (g_RequestQueue s) = None) ->
  exists ch s', good_move ch /\ step ch s = inr (Some s').
Proof.
  intros Hok Hg Hcp Hrq.
  apply (step_made (match game s with FrameCallback _ => CallbackReturns | _ => GameStep end) s Hok); [by destruct (game s)|].
  unfold waits. destruct (game s) as [| | | | |c|c| |c back|c back|back] eqn:Eg; try done; cbn [step]; rewrite Eg; try done;
    unfold AddRequestToQueue, FrameHook, Lock, Pop, use_ctx, delete_ctx; rewrite Eg;
    rewrite ?Hcp, ?(Hrq _ _ eq_refl) by done; try done; repeat (case_match; cbn [rbind]; try done).
Qed.

Lemma loop_moves s : sys_ok s -> loop s <> LIdle ->
  (loop s = AsyncLock -> mutex (g_RequestQueue s) = None) ->
  (forall c, loop s = CheckLock c -> mutex (g_CompletedRequestQueue s) = None) ->
  exists ch s', good_move ch /\ step ch s = inr (Some s').
Proof.
  intros Hok Hl Hrq Hcp. apply (step_made (LoopStep true) s Hok); [done|].
  unfold waits. cbn [step]. destruct (loop s) as [| |n|n|c n| |c|c|] eqn:El; try done;
    unfold CheckCompletedRequests, AsyncPerformRequests, Lock, Pop, use_ctx; rewrite El;
    rewrite ?Hrq, ?(Hcp _ eq_refl) by done; try done; repeat (case_match; cbn [rbind]; try done).
Qed.

Lemma lock_ok_free m : lock_ok m false false -> m = None.
Proof. by destruct m as [[]|]; [intros []..|]. Qed.

(** The threads never wait for each other. *)
Lemma no_deadlock s : sys_ok s -> at_rest s \/ exists ch s', good_move ch /\ step ch s = inr (Some s').
Proof.
  intros Hok. pose proof (so_requests _ Hok) as Hrq. pose proof (so_completed _ Hok) as Hcp.
  destruct (loop_has_requests (loop s) || loop_has_completed (loop s)) eqn:Hl.
  { right. apply loop_moves; [done|by intros E; rewrite E in Hl|by intros E; rewrite E in Hl|by intros c E; rewrite E in Hl]. }
  apply orb_false_iff in Hl as [Hl1 Hl2]. rewrite Hl1 in Hrq. rewrite Hl2 in Hcp.
  destruct (decide (game s = GIdle)) as [Eg|Eg].
  - rewrite Eg in Hrq, Hcp. apply lock_ok_free in Hrq, Hcp. destruct (loop s) eqn:El; [by left|right; apply loop_moves..];
      by rewrite ?El.
  - right. apply game_moves; [done..| |].
    + intros E. rewrite E in Hcp. by apply lock_ok_free in Hcp.
    + intros c back E. rewrite E in Hrq. by apply lock_ok_free in Hrq.
Qed.

(** A number of moves of the threads, in any order. *)
Inductive moves : nat -> sys -> sys -> Prop :=
| moves_0 s : moves 0 s s
| moves_S n s s1 ch s2 : moves n s s1 -> is_move ch -> step ch s1 = inr (Some s2) -> moves (S n) s s2.

Lemma moves_reaches n s s' : moves n s s' -> reaches s s'.
Proof. induction 1; [apply reaches_refl|by eapply reaches_step]. Qed.
Lemma moves_work n s s' : moves n s s' -> (n + work s' <= work s)%nat.
Proof. induction 1 as [|n s s1 ch s2 _ IH Hm E]; [done|]. pose proof (move_works ch s1 s2 Hm E). lia. Qed.

(** C28. There is no deadlock and no endless work: from every state the
    extension can reach, when the outside world does nothing more, every order
    in which the threads go on takes at most [work] moves (a number of the
    size of the request queue), and as long as the threads are not both idle,
    one of them can go on.  So every order ends with both idle. *)
Theorem threads_come_to_rest n s s' :
  reaches sys_init s -> moves n s s' ->
  (n + work s' <= work s)%nat /\ (at_rest s' \/ exists s'', moves (S n) s s'').
Proof.
  intros Hr Hm. split; [by apply moves_work|].
  assert (Hok : sys_ok s') by (eapply reaches_ok; [apply sys_init_ok|]; eapply reaches_trans; [done|by eapply moves_reaches]).
  destruct (no_deadlock s' Hok) as [|(ch & s'' & Hch & E)]; [by left|right]. exists s''. eapply moves_S; [done|by apply good_is_move|done].
Qed.

Lemma threads_come_to_rest_witness :
  work (ran first_request) = 9%nat /\ exists s'', moves 1 (ran first_request) s''.
Proof.
  split; [vm_compute; reflexivity|].
  destruct (threads_come_to_rest 0 (ran first_request) (ran first_request)) as [_ [Hr|Hm]].
  - apply (run_reaches first_request). vm_compute. reflexivity.
  - constructor.
  - destruct Hr as [Hr _]. vm_compute in Hr. discriminate Hr.
  - exact Hm.
Defined.

(* ------------------------------------------------------------------ *)
(** ** Every request can be completed *)

(** Makes the step of a choice and computes the next state. *)
#[local] Ltac make ch :=
  eapply reaches_trans;
    [apply (reaches_one ch); cbn -[MAX_PROCESS]; unfold use_ctx, delete_ctx; cbn -[MAX_PROCESS];
     rewrite ?bool_decide_true by set_solver; reflexivity|cbn -[MAX_PROCESS]].

(** One call of [AsyncPerformRequests] whose transfers can all be started. *)
Lemma async_batch q n s :
  loop s = AsyncTest n -> queue (g_RequestQueue s) = q -> (forall c, c ∈ q -> c ∈ allocated s) -> 0 <= n <= MAX_PROCESS ->
  reaches s (at_loop LIdle (with_requests {| mutex := None; queue := drop (Z.to_nat (MAX_PROCESS - n)) q |}
    (with_curl (g_Curl s ++ take (Z.to_nat (MAX_PROCESS - n)) q) s))).
Proof.
  revert n s. induction q as [|c q IH]; intros n s El Eq Hal Hn; destruct s as [[m q'] cq cu a g l nx al ca];
    cbn in El, Eq, Hal; subst.
  - do 2 make (LoopStep true). rewrite drop_nil, take_nil, app_nil_r. apply reaches_refl.
  - destruct (n <? MAX_PROCESS) eqn:En.
    + make (LoopStep true). rewrite En. do 2 make (LoopStep true). apply Z.ltb_lt in En.
      eapply reaches_trans; [apply IH; [done..|set_solver|lia]|]. cbn -[MAX_PROCESS].
      replace (Z.to_nat (MAX_PROCESS - n)) with (S (Z.to_nat (MAX_PROCESS - (n + 1)))) by lia.
      cbn -[MAX_PROCESS]. rewrite <- app_assoc. apply reaches_refl.
    + assert (n = MAX_PROCESS) as -> by (apply Z.ltb_ge in En; lia).
      do 2 make (LoopStep true). rewrite app_nil_r. apply reaches_refl.
Qed.

(** The states in which both threads are idle. *)
Lemma at_rest_free s : sys_ok s -> at_rest s ->
  mutex (g_RequestQueue s) = None /\ mutex (g_CompletedRequestQueue s) = None /\
  bag (allocated s) = bag (queue (g_RequestQueue s)) ⊎ bag (queue (g_CompletedRequestQueue s)) ⊎ bag (g_Curl s).
Proof.
  intros Hok [Eg El]. open_ok Hok. split_and!; [by apply lock_ok_free..|]. rewrite bag_nil in Hpl. rewrite Hpl. multiset_solver.
Qed.

(** One frame: the oldest completed request is handed to its plugin. *)
Lemma frame_round s : sys_ok s -> at_rest s ->
  exists s', reaches s s' /\ at_rest s' /\ queue (g_RequestQueue s') = queue (g_RequestQueue s) /\ g_Curl s' = g_Curl s /\
    queue (g_CompletedRequestQueue s') = tail (queue (g_CompletedRequestQueue s)) /\
    called s' = called s ++ take 1 (queue (g_CompletedRequestQueue s)) /\
    (queue (g_RequestQueue s) <> [] -> g_Async s' = true).
Proof.
  intros Hok Hr. destruct (at_rest_free s Hok Hr) as (Em1 & Em2 & Hb). destruct Hr as [Eg El].
  assert (Hin : forall c, c ∈ queue (g_CompletedRequestQueue s) -> c ∈ allocated s)
    by (intros c; rewrite <- !elem_of_bag, Hb; multiset_solver).
  clear Hok Hb. destruct s as [[m q] [m' cq] cu a g l nx al ca]. cbn in *. subst.
  destruct cq as [|d cq].
  - destruct q as [|c q]; (eexists; split; [make GameFrame; do 2 make GameStep; apply reaches_refl|cbn; by rewrite app_nil_r]).
  - assert (Hd : d ∈ al) by set_solver.
    destruct q as [|c q]; (eexists; split;
      [make GameFrame; do 4 make GameStep; make CallbackReturns; do 2 make GameStep; apply reaches_refl|done]).
Qed.

(** One wake-up of the event loop: up to ten requests are started. *)
Lemma wake_up_round s : sys_ok s -> at_rest s -> g_Async s = true ->
  exists s', reaches s s' /\ at_rest s' /\ queue (g_RequestQueue s') = drop 10 (queue (g_RequestQueue s)) /\
    g_Curl s' = g_Curl s ++ take 10 (queue (g_RequestQueue s)) /\ g_CompletedRequestQueue s' = g_CompletedRequestQueue s /\
    called s' = called s.
Proof.
  intros Hok Hr Ha. destruct (at_rest_free s Hok Hr) as (Em & _ & Hb). destruct Hr as [Eg El].
  assert (Hin : forall c, c ∈ queue (g_RequestQueue s) -> c ∈ allocated s)
    by (intros c; rewrite <- !elem_of_bag, Hb; multiset_solver).
  clear Hok Hb. destruct s as [[m q] cq cu a g l nx al ca]. cbn in *. subst. eexists. split.
  { make AsyncWakeUp. make (LoopStep true). by eapply async_batch. }
  done.
Qed.

(** One transfer ends. *)
Lemma transfer_round s c : sys_ok s -> at_rest s -> c ∈ g_Curl s ->
  exists s', reaches s s' /\ at_rest s' /\ queue (g_CompletedRequestQueue s') = queue (g_CompletedRequestQueue s) ++ [c].
Proof.
  intros Hok Hr Hc. destruct (at_rest_free s Hok Hr) as (_ & Em & _). destruct Hr as [Eg El].
  clear Hok. destruct s as [q [m cq] cu a g l nx al ca]. cbn in *. subst. eexists. split.
  { make (TransferDone c). do 3 make (LoopStep true). apply reaches_refl. }
  done.
Qed.

(** A request is not lost by the moves of the threads. *)
Lemma good_move_keeps ch s s' c : sys_ok s -> good_move ch -> step ch s = inr (Some s') ->
  c ∈ allocated s \/ c ∈ called s -> c ∈ allocated s' \/ c ∈ called s'.
Proof.
  intros Hok Hm. pose proof (so_deleting _ Hok) as Hdel. destruct ch as [|[]| | | | |]; try done; cbn [step].
  - unfold AddRequestToQueue, FrameHook, Lock, Pop, use_ctx, delete_ctx, goto.
    destruct (game s) as [| | | | |d|d| |d back|d back|back] eqn:Eg; try done;
      repeat (case_match; cbn [rbind]; try done); intros [= <-]; cbn; try done.
    intros [Hc|Hc]; [|by right]. destruct (decide (c = d)) as [->|Hne]; [right; by apply Hdel|].
    left. by apply list_elem_of_filter.
  - unfold CheckCompletedRequests, AsyncPerformRequests, Lock, Pop, use_ctx, goto.
    destruct (loop s) as [| |n|n|d n| |d|d|] eqn:El; try done;
      repeat (case_match; cbn [rbind negb]; try done); intros [= <-]; cbn; done.
  - destruct (game s); try done. intros [= <-]. cbn. set_solver.
Qed.

Lemma comes_to_rest s c : sys_ok s -> c ∈ allocated s \/ c ∈ called s ->
  exists s', reaches s s' /\ at_rest s' /\ (c ∈ allocated s' \/ c ∈ called s').
Proof.
  remember (work s) as n eqn:En. revert s En. induction n as [n IH] using lt_wf_ind. intros s -> Hok Hc.
  destruct (no_deadlock s Hok) as [Hr|(ch & s1 & Hm & E)]; [by exists s; split; [apply reaches_refl|]|].
  pose proof (move_works ch s s1 (good_is_move _ Hm) E) as Hw.
  destruct (IH (work s1) ltac:(lia) s1 eq_refl) as (s' & Hr & Hs').
  - eapply reaches_ok; [done|by apply (reaches_one ch)].
  - by eapply good_move_keeps.
  - exists s'. split; [|done]. eapply reaches_trans; [by apply (reaches_one ch)|done].
Qed.

(** From where the request is, when both threads are idle, to its callback. *)
Lemma completed_called s c : sys_ok s -> at_rest s -> c ∈ queue (g_CompletedRequestQueue s) ->
  exists s', reaches s s' /\ c ∈ called s'.
Proof.
  remember (queue (g_CompletedRequestQueue s)) as cq eqn:Eq. revert s Eq. induction cq as [|d cq IH]; intros s Eq Hok Hr Hc.
  { by apply elem_of_nil in Hc. }
  destruct (frame_round s Hok Hr) as (s1 & H1 & Hr1 & _ & _ & Eq1 & Ec1 & _). rewrite <- Eq in Eq1, Ec1. cbn in Eq1, Ec1.
  apply elem_of_cons in Hc as [->|Hc]; [exists s1; split; [done|rewrite Ec1; set_solver]|].
  destruct (IH s1 (eq_sym Eq1) (reaches_ok _ _ Hok H1) Hr1 Hc) as (s2 & H2 & Hin).
  exists s2. split; [by eapply reaches_trans|done].
Qed.

Lemma started_called s c : sys_ok s -> at_rest s -> c ∈ g_Curl s -> exists s', reaches s s' /\ c ∈ called s'.
Proof.
  intros Hok Hr Hc. destruct (transfer_round s c Hok Hr Hc) as (s1 & H1 & Hr1 & Eq).
  destruct (completed_called s1 c (reaches_ok _ _ Hok H1) Hr1) as (s2 & H2 & Hin); [rewrite Eq; set_solver|].
  exists s2. split; [by eapply reaches_trans|done].
Qed.

Lemma queued_called s c : sys_ok s -> at_rest s -> c ∈ queue (g_RequestQueue s) -> exists s', reaches s s' /\ c ∈ called s'.
Proof.
  remember (length (queue (g_RequestQueue s))) as n eqn:En. revert s En.
  induction n as [n IH] using lt_wf_ind. intros s -> Hok Hr Hc.
  destruct (frame_round s Hok Hr) as (s1 & H1 & Hr1 & Eq1 & _ & _ & _ & Ha).
  assert (Hok1 := reaches_ok _ _ Hok H1).
  destruct (wake_up_round s1 Hok1 Hr1) as (s2 & H2 & Hr2 & Eq2 & Ec2 & _); [apply Ha; by destruct (queue (g_RequestQueue s)); [apply elem_of_nil in Hc|]|].
  assert (Hok2 := reaches_ok _ _ Hok1 H2). rewrite Eq1 in Eq2, Ec2.
  assert (exists s', reaches s2 s' /\ c ∈ called s') as (s3 & H3 & Hin).
  - rewrite <- (take_drop 10 (queue (g_RequestQueue s))) in Hc. apply elem_of_app in Hc as [Hc|Hc].
    + apply started_called; [done..|]. rewrite Ec2. set_solver.
    + apply (IH (length (queue (g_RequestQueue s2)))); [|done..|by rewrite Eq2]. rewrite Eq2, length_drop.
      destruct (queue (g_RequestQueue s)); [by apply elem_of_nil in Hc|cbn; lia].
  - exists s3. split; [|done]. eapply reaches_trans; [done|]. by eapply reaches_trans.
Qed.

(** C30. No request is stranded: from every state the extension can reach, under
    whatever history of interleavings, failed transfers and requests added by
    callbacks, the callback of every request that exists can still be
    reached by game frames, wake-ups of the event loop and the end of its
    transfer, however long the queues are.  [curl_multi_add_handle], whose
    result the code ignores, is taken to succeed. *)
Theorem every_request_completes s c :
  reaches sys_init s -> c ∈ allocated s -> exists s', reaches s s' /\ c ∈ called s'.
Proof.
  intros Hr Hc. pose proof (reaches_ok _ _ sys_init_ok Hr) as Hok.
  destruct (comes_to_rest s c Hok (or_introl Hc)) as (s1 & H1 & Hr1 & Hc1).
  assert (Hok1 := reaches_ok _ _ Hok H1). destruct Hc1 as [Hc1|Hc1]; [|by exists s1].
  destruct (at_rest_free s1 Hok1 Hr1) as (_ & _ & Hb). rewrite <- elem_of_bag, Hb in Hc1.
  assert (exists s', reaches s1 s' /\ c ∈ called s') as (s2 & H2 & Hin).
  { apply gmultiset_elem_of_disj_union in Hc1 as [[Hc1|Hc1]%gmultiset_elem_of_disj_union|Hc1]; apply elem_of_bag in Hc1.
    - by apply queued_called.
    - by apply completed_called.
    - by apply started_called. }
  exists s2. split; [by eapply reaches_trans|done].
Qed.

Lemma every_request_completes_witness : exists s', reaches (ran first_request) s' /\ 2%positive ∈ called s'.
Proof.
  apply (every_request_completes (ran first_request) 2).
  - apply (run_reaches first_request). vm_compute. reflexivity.
  - replace (allocated (ran first_request)) with [2; 1]%positive by (vm_compute; reflexivity). left.
Defined.
