(* ===== verification/EventLoop.v ===== *)
(** * The sockets and the timer of the event loop

    src/extension.cpp drives libcurl from libuv: libcurl calls
    [CurlSocketCallback] and [CurlTimeoutCallback] when it wants to wait for
    sockets or time, libuv calls [CurlSocketActivity] and [PerformRequests]
    when something happened.  The state is that of all three: the
    [CurlContext] objects of extension.h with their poll handles, libuv's
    table of watchers (libuv/src/unix/poll.c, core.c), and libcurl's table of
    sockets with the sockets each transfer uses (curl/lib/multi.c).

    Waiting for a socket that libcurl has open does not fail in libuv but for
    a descriptor that is already watched; the other errors of [uv_poll_init]
    are those of descriptors that are not open. *)

From S2P Require Import Prelude Strbuffer.

(* ------------------------------------------------------------------ *)
(** ** State *)

(** Addresses of [CurlContext] objects and of transfers. *)
Abbreviation cctx := positive.
Abbreviation easy := positive.

Definition UV_READABLE : Z := 1.
Definition UV_WRITABLE : Z := 2.
Definition UV_DISCONNECT : Z := 4.
Definition UV_PRIORITIZED : Z := 8.
Definition UV_EEXIST : Z := -17.
Definition UV_EBADF : Z := -9.
Definition CURL_POLL_NONE : Z := 0.
Definition CURL_POLL_IN : Z := 1.
Definition CURL_POLL_OUT : Z := 2.
Definition CURL_POLL_INOUT : Z := 3.
Definition CURL_POLL_REMOVE : Z := 4.
Definition CURL_CSELECT_IN : Z := 1.
Definition CURL_CSELECT_OUT : Z := 2.
Definition CURL_SOCKET_TIMEOUT : Z := -1.
Definition CURLM_OK : Z := 0.
Definition CURLM_OUT_OF_MEMORY : Z := 3.
Definition CURLM_BAD_SOCKET : Z := 5.

(** A poll handle: the descriptor and events of its watcher ([pevents], in the
    bits of [uv_poll_start]), and whether [uv_close] was called. *)
Record uv_poll_t := { io_fd : Z; io_pevents : Z; uv_closing : bool }.

(** The poll handle is inside the object; [None] before [uv_poll_init]. *)
Record CurlContext := { cc_socket : Z; poll_handle : option uv_poll_t }.

Record Curl_sh_entry := {
  sh_transfers : gset easy;
  sh_action : Z;
  sh_users : Z;
  sh_socketp : option cctx;
  sh_readers : Z;
  sh_writers : Z
}.

Record estate := {
  e_oom : oracle;
  e_contexts : gmap cctx CurlContext;        (* the contexts that exist *)
  e_fresh : cctx;                            (* an address that was never used *)
  e_watchers : gmap Z cctx;                  (* [loop->watchers], each inside a context *)
  e_sockhash : gmap Z Curl_sh_entry;         (* [multi->sockhash] *)
  e_easies : gmap easy (list (Z * Z));       (* [data->sockets] with [data->actions] *)
  e_timer : option Z;                        (* [g_Timeout] *)
  e_actions : list (Z * Z);                  (* the calls of [curl_multi_socket_action] *)
  e_failed : list Z                          (* sockets for which libuv reported an error *)
}.
Abbreviation EM := (ST estate).

Definition estate_init (oom : oracle) : estate :=
  {| e_oom := oom; e_contexts := ∅; e_fresh := 1; e_watchers := ∅; e_sockhash := ∅; e_easies := ∅;
     e_timer := None; e_actions := []; e_failed := [] |}.

Definition set_e_oom (o : oracle) (s : estate) : estate :=
  {| e_oom := o; e_contexts := e_contexts s; e_fresh := e_fresh s; e_watchers := e_watchers s; e_sockhash := e_sockhash s;
     e_easies := e_easies s; e_timer := e_timer s; e_actions := e_actions s; e_failed := e_failed s |}.
Definition set_contexts (m : gmap cctx CurlContext) (s : estate) : estate :=
  {| e_oom := e_oom s; e_contexts := m; e_fresh := e_fresh s; e_watchers := e_watchers s; e_sockhash := e_sockhash s;
     e_easies := e_easies s; e_timer := e_timer s; e_actions := e_actions s; e_failed := e_failed s |}.
Definition set_fresh (c : cctx) (s : estate) : estate :=
  {| e_oom := e_oom s; e_contexts := e_contexts s; e_fresh := c; e_watchers := e_watchers s; e_sockhash := e_sockhash s;
     e_easies := e_easies s; e_timer := e_timer s; e_actions := e_actions s; e_failed := e_failed s |}.
Definition set_watchers (m : gmap Z cctx) (s : estate) : estate :=
  {| e_oom := e_oom s; e_contexts := e_contexts s; e_fresh := e_fresh s; e_watchers := m; e_sockhash := e_sockhash s;
     e_easies := e_easies s; e_timer := e_timer s; e_actions := e_actions s; e_failed := e_failed s |}.
Definition set_sockhash (m : gmap Z Curl_sh_entry) (s : estate) : estate :=
  {| e_oom := e_oom s; e_contexts := e_contexts s; e_fresh := e_fresh s; e_watchers := e_watchers s; e_sockhash := m;
     e_easies := e_easies s; e_timer := e_timer s; e_actions := e_actions s; e_failed := e_failed s |}.
Definition set_easies (m : gmap easy (list (Z * Z))) (s : estate) : estate :=
  {| e_oom := e_oom s; e_contexts := e_contexts s; e_fresh := e_fresh s; e_watchers := e_watchers s; e_sockhash := e_sockhash s;
     e_easies := m; e_timer := e_timer s; e_actions := e_actions s; e_failed := e_failed s |}.
Definition set_timer (t : option Z) (s : estate) : estate :=
  {| e_oom := e_oom s; e_contexts := e_contexts s; e_fresh := e_fresh s; e_watchers := e_watchers s; e_sockhash := e_sockhash s;
     e_easies := e_easies s; e_timer := t; e_actions := e_actions s; e_failed := e_failed s |}.
Definition add_action (a : Z * Z) (s : estate) : estate :=
  {| e_oom := e_oom s; e_contexts := e_contexts s; e_fresh := e_fresh s; e_watchers := e_watchers s; e_sockhash := e_sockhash s;
     e_easies := e_easies s; e_timer := e_timer s; e_actions := e_actions s ++ [a]; e_failed := e_failed s |}.
Definition add_failed (fd : Z) (s : estate) : estate :=
  {| e_oom := e_oom s; e_contexts := e_contexts s; e_fresh := e_fresh s; e_watchers := e_watchers s; e_sockhash := e_sockhash s;
     e_easies := e_easies s; e_timer := e_timer s; e_actions := e_actions s; e_failed := fd :: e_failed s |}.

Definition e_malloc (size : Z) : EM bool := zoom e_oom set_e_oom (do_malloc size).

(** Access through a pointer to a context. *)
Definition get_cctx (c : cctx) : EM CurlContext := let* m := gets e_contexts in require (m !! c).
Definition put_cctx (c : cctx) (x : CurlContext) : EM unit := modify (fun s => set_contexts (<[c := x]> (e_contexts s)) s).
Definition get_handle (c : cctx) : EM uv_poll_t := let* x := get_cctx c in require (poll_handle x).
Definition put_handle (c : cctx) (h : uv_poll_t) : EM unit :=
  let* x := get_cctx c in put_cctx c {| cc_socket := cc_socket x; poll_handle := Some h |}.

(* ------------------------------------------------------------------ *)
(** ** Poll handles (libuv) *)

Definition uv__fd_exists (fd : Z) : EM bool := let* m := gets e_watchers in ret (bool_decide (is_Some (m !! fd))).

(** [uv__io_stop] of all events *)
Definition uv__io_stop (c : cctx) : EM unit :=
  let* h := get_handle c in
  put_handle c {| io_fd := io_fd h; io_pevents := 0; uv_closing := uv_closing h |} ;;;
  let* m := gets e_watchers in
  if bool_decide (m !! io_fd h = Some c) then modify (set_watchers (delete (io_fd h) m)) else ret tt.

Definition uv__io_start (c : cctx) (events : Z) : EM unit :=
  let* h := get_handle c in
  assert_ (negb (events =? 0)) ;;;
  assert_ (0 <=? io_fd h) ;;;
  put_handle c {| io_fd := io_fd h; io_pevents := Z.lor (io_pevents h) events; uv_closing := uv_closing h |} ;;;
  let* m := gets e_watchers in
  match m !! io_fd h with
  | None => modify (set_watchers (<[io_fd h := c]> m))
  | Some _ => ret tt
  end.

Definition uv_poll_init_socket (c : cctx) (socket : Z) : EM Z :=
  let* exists_ := uv__fd_exists socket in
  if exists_ then ret UV_EEXIST
  else put_handle c {| io_fd := socket; io_pevents := 0; uv_closing := false |} ;;; ret 0.

Definition uv__poll_stop (c : cctx) : EM unit := uv__io_stop c.

Definition uv_poll_stop (c : cctx) : EM Z :=
  let* h := get_handle c in
  assert_ (negb (uv_closing h)) ;;;
  uv__poll_stop c ;;;
  ret 0.

Definition uv_poll_start (c : cctx) (pevents : Z) : EM Z :=
  let* h := get_handle c in
  assert_ (Z.ldiff pevents (Z.lor (Z.lor UV_READABLE UV_WRITABLE) (Z.lor UV_DISCONNECT UV_PRIORITIZED)) =? 0) ;;;
  assert_ (negb (uv_closing h)) ;;;
  let* m := gets e_watchers in
  if bool_decide (is_Some (m !! io_fd h)) && negb (bool_decide (m !! io_fd h = Some c)) then ret UV_EEXIST
  else
    uv__poll_stop c ;;;
    if pevents =? 0 then ret 0 else uv__io_start c pevents ;;; ret 0.

(** [uv_close] of a poll handle; the loop calls [OnClosed] later *)
Definition uv_close (c : cctx) : EM unit :=
  let* h := get_handle c in
  assert_ (negb (uv_closing h)) ;;;
  put_handle c {| io_fd := io_fd h; io_pevents := io_pevents h; uv_closing := true |} ;;;
  uv__poll_stop c.

(* ------------------------------------------------------------------ *)
(** ** extension.h and extension.cpp *)

(** [new CurlContext(socket)] *)
Definition new_CurlContext (socket : Z) : EM cctx :=
  let* c := gets e_fresh in
  modify (set_fresh (Pos.succ c)) ;;;
  put_cctx c {| cc_socket := socket; poll_handle := None |} ;;;
  let* _ := uv_poll_init_socket c socket in
  ret c.
Definition Destroy (c : cctx) : EM unit := let* _ := uv_poll_stop c in uv_close c.
Definition OnClosed (c : cctx) : EM unit :=
  let* _ := get_cctx c in modify (fun s => set_contexts (delete c (e_contexts s)) s).

(** [curl_multi_assign].  [multi->in_callback], which would make it return
    [CURLM_RECURSIVE_API_CALL], is false here: multi.c does not set it around
    the socket callback. *)
Definition curl_multi_assign (s : Z) (hashp : option cctx) : EM Z :=
  let* m := gets e_sockhash in
  match m !! s with
  | None => ret CURLM_BAD_SOCKET
  | Some there =>
      modify (set_sockhash (<[s := {| sh_transfers := sh_transfers there; sh_action := sh_action there; sh_users := sh_users there;
                                      sh_socketp := hashp; sh_readers := sh_readers there; sh_writers := sh_writers there |}]> m)) ;;;
      ret CURLM_OK
  end.

(** What [curl_multi_socket_action] does with transfers is up to libcurl: the
    events below that follow.  [CurlSocketActivity] and [PerformRequests] use
    nothing of this state behind the call: the [CheckCompletedRequests] that
    follows in both moves finished transfers to a queue, the steps
    [TransferDone] of the model of the queues. *)
Definition curl_multi_socket_action (s ev_bitmask : Z) : EM unit := modify (add_action (s, ev_bitmask)).

Definition PerformRequests : EM unit := curl_multi_socket_action CURL_SOCKET_TIMEOUT 0.

Definition CurlSocketActivity (c : cctx) (status events : Z) : EM unit :=
  let* context := get_cctx c in
  let flags := Z.lor (if negb (Z.land events UV_READABLE =? 0) then CURL_CSELECT_IN else 0)
                     (if negb (Z.land events UV_WRITABLE =? 0) then CURL_CSELECT_OUT else 0) in
  curl_multi_socket_action (cc_socket context) flags.

Definition CurlSocketCallback (socket action : Z) (socketdata : option cctx) : EM Z :=
  (if (action =? CURL_POLL_IN) || (action =? CURL_POLL_OUT) || (action =? CURL_POLL_INOUT) then
     let* context := (match socketdata with Some c => ret c | None => new_CurlContext socket end) in
     let* _ := curl_multi_assign socket (Some context) in
     let events := Z.lor (if negb (action =? CURL_POLL_IN) then UV_WRITABLE else 0)
                         (if negb (action =? CURL_POLL_OUT) then UV_READABLE else 0) in
     let* _ := uv_poll_start context events in
     ret tt
   else if action =? CURL_POLL_REMOVE then
     match socketdata with
     | Some context => Destroy context ;;; let* _ := curl_multi_assign socket None in ret tt
     | None => ret tt
     end
   else ret tt) ;;;
  ret 0.

(** [uv_timer_start] and [uv_timer_stop] set when the timer fires. *)
Definition CurlTimeoutCallback (timeout_ms : Z) : EM Z :=
  if timeout_ms =? -1 then modify (set_timer None) ;;; ret 0
  else modify (set_timer (Some timeout_ms)) ;;; ret 0.

(* ------------------------------------------------------------------ *)
(** ** The socket table (multi.c) *)

Definition SIZEOF_SH_ENTRY : Z := 80.
Definition TRHASH_SIZE : Z := 13.
Definition SIZEOF_LLIST : Z := 32.
Definition SIZEOF_HASH_ELEMENT : Z := 64.

Definition sh_getentry (s : Z) : EM (option Curl_sh_entry) :=
  let* m := gets e_sockhash in ret (if negb (s =? -1) then m !! s else None).
Definition upd_entry (s : Z) (f : Curl_sh_entry -> Curl_sh_entry) : EM Curl_sh_entry :=
  let* m := gets e_sockhash in
  let* e := require (m !! s) in
  modify (set_sockhash (<[s := f e]> m)) ;;;
  ret (f e).

(** [sh_addentry] of a socket that is not in the table *)
Definition sh_addentry (s : Z) : EM bool :=
  let* ok := e_malloc SIZEOF_SH_ENTRY in
  if negb ok then ret false else
  let* ok := e_malloc (TRHASH_SIZE * SIZEOF_LLIST) in
  if negb ok then ret false else
  let* ok := e_malloc SIZEOF_HASH_ELEMENT in
  if negb ok then ret false else
  modify (fun st => set_sockhash (<[s := {| sh_transfers := ∅; sh_action := 0; sh_users := 0; sh_socketp := None;
                                            sh_readers := 0; sh_writers := 0 |}]> (e_sockhash st)) st) ;;;
  ret true.
Definition sh_delentry (s : Z) : EM unit := modify (fun st => set_sockhash (delete s (e_sockhash st)) st).

(** The number of transfers that read or write, after one of them changed. *)
Definition bit (action flag : Z) : bool := negb (Z.land action flag =? 0).
Definition more (b : bool) (n : Z) : Z := if b then uint32 (n + 1) else n.
Definition less (b : bool) (n : Z) : Z := if b then uint32 (n - 1) else n.

Definition change_user (prevaction action : Z) (e : Curl_sh_entry) : Curl_sh_entry :=
  {| sh_transfers := sh_transfers e; sh_action := sh_action e; sh_users := sh_users e; sh_socketp := sh_socketp e;
     sh_readers := more (bit action CURL_POLL_IN) (less (bit prevaction CURL_POLL_IN) (sh_readers e));
     sh_writers := more (bit action CURL_POLL_OUT) (less (bit prevaction CURL_POLL_OUT) (sh_writers e)) |}.
Definition new_user (action : Z) (e : Curl_sh_entry) : Curl_sh_entry :=
  {| sh_transfers := sh_transfers e; sh_action := sh_action e; sh_users := more true (sh_users e); sh_socketp := sh_socketp e;
     sh_readers := more (bit action CURL_POLL_IN) (sh_readers e);
     sh_writers := more (bit action CURL_POLL_OUT) (sh_writers e) |}.
Definition drop_user (oldactions : Z) (e : Curl_sh_entry) : Curl_sh_entry :=
  {| sh_transfers := sh_transfers e; sh_action := sh_action e; sh_users := less true (sh_users e); sh_socketp := sh_socketp e;
     sh_readers := less (bit oldactions CURL_POLL_IN) (sh_readers e);
     sh_writers := less (bit oldactions CURL_POLL_OUT) (sh_writers e) |}.
Definition with_transfers (f : gset easy -> gset easy) (e : Curl_sh_entry) : Curl_sh_entry :=
  {| sh_transfers := f (sh_transfers e); sh_action := sh_action e; sh_users := sh_users e; sh_socketp := sh_socketp e;
     sh_readers := sh_readers e; sh_writers := sh_writers e |}.
Definition with_action (action : Z) (e : Curl_sh_entry) : Curl_sh_entry :=
  {| sh_transfers := sh_transfers e; sh_action := action; sh_users := sh_users e; sh_socketp := sh_socketp e;
     sh_readers := sh_readers e; sh_writers := sh_writers e |}.

(** [Curl_hash_add(&entry->transfers, data)]: an element of the same key goes
    first *)
Definition add_transfer (data : easy) (s : Z) : EM bool :=
  let* _ := upd_entry s (with_transfers (fun t => t ∖ {[data]})) in
  let* ok := e_malloc SIZEOF_HASH_ELEMENT in
  if ok then let* _ := upd_entry s (with_transfers (fun t => {[data]} ∪ t)) in ret true else ret false.

(** The first socket [s] of a list. *)
Fixpoint find_socket (s : Z) (socks : list (Z * Z)) : option Z :=
  match socks with
  | [] => None
  | (s', action) :: rest => if s =? s' then Some action else find_socket s rest
  end.

Definition comboaction (e : Curl_sh_entry) : Z :=
  Z.lor (if negb (sh_writers e =? 0) then CURL_POLL_OUT else 0) (if negb (sh_readers e =? 0) then CURL_POLL_IN else 0).

(** The socket callback and the new action of the entry. *)
Definition notify (s action : Z) : EM unit :=
  let* m := gets e_sockhash in
  let* e := require (m !! s) in
  let* _ := CurlSocketCallback s action (sh_socketp e) in
  let* _ := upd_entry s (with_action action) in
  ret tt.
(** The socket callback when the socket is not used any more. *)
Definition forget (s : Z) (e : Curl_sh_entry) : EM unit :=
  let* _ := CurlSocketCallback s CURL_POLL_REMOVE (sh_socketp e) in
  sh_delentry s.

(** The first loop of [singlesocket], over the sockets [multi_getsock] gave;
    [old] are the sockets the transfer had. *)
Fixpoint supervise (data : easy) (old socks : list (Z * Z)) : EM Z :=
  match socks with
  | [] => ret CURLM_OK
  | (s, action) :: rest =>
      let* entry := sh_getentry s in
      let* added := (match entry with Some _ => ret true | None => sh_addentry s end) in
      if negb added then ret CURLM_OUT_OF_MEMORY
      else
        let before := match entry with Some _ => find_socket s old | None => None end in
        let* ok :=
          (match before with
           | Some prevaction =>
               if negb (prevaction =? action) then let* _ := upd_entry s (change_user prevaction action) in ret true
               else ret true
           | None => let* _ := upd_entry s (new_user action) in add_transfer data s
           end) in
        if negb ok then ret CURLM_OUT_OF_MEMORY
        else
          let* e := upd_entry s (fun e => e) in
          (if bool_decide (is_Some before) && (sh_action e =? comboaction e) then ret tt
           else notify s (comboaction e)) ;;;
          supervise data old rest
  end.

(** The second loop, over the sockets the transfer had. *)
Fixpoint release_old (data : easy) (socks old : list (Z * Z)) : EM unit :=
  match old with
  | [] => ret tt
  | (s, oldactions) :: rest =>
      (if bool_decide (is_Some (find_socket s socks)) then ret tt
       else
         let* entry := sh_getentry s in
         match entry with
         | None => ret tt
         | Some _ =>
             let* e := upd_entry s (drop_user oldactions) in
             if sh_users e =? 0 then forget s e
             else let* _ := upd_entry s (with_transfers (fun t => t ∖ {[data]})) in ret tt
         end) ;;;
      release_old data socks rest
  end.

Definition singlesocket (data : easy) (socks : list (Z * Z)) : EM Z :=
  let* m := gets e_easies in
  let old := default [] (m !! data) in
  let* r := supervise data old socks in
  if negb (r =? CURLM_OK) then ret r
  else
    release_old data socks old ;;;
    modify (set_easies (<[data := socks]> m)) ;;;
    ret CURLM_OK.

Definition Curl_multi_closed (s : Z) : EM unit :=
  let* entry := sh_getentry s in
  match entry with Some e => forget s e | None => ret tt end.

(* ------------------------------------------------------------------ *)
(** ** What can happen *)

Inductive event : Type :=
| Update (data : easy) (socks : list (Z * Z))    (* libcurl: [singlesocket] *)
| Closed (s : Z)                                 (* libcurl closes a socket *)
| TimerAsked (ms : Z)                              (* libcurl: [CURLMOPT_TIMERFUNCTION] *)
| Ready (c : cctx) (events : Z)                  (* libuv: a watched socket is ready *)
| PollError (c : cctx)                           (* libuv: ... has an error *)
| HandleClosed (c : cctx)                        (* libuv: the close callback *)
| TimerFires.                                    (* libuv: [g_Timeout] *)

(** [uv__poll_io] *)
Definition uv__poll_io (c : cctx) (events : option Z) : EM unit :=
  match events with
  | None =>
      let* h := get_handle c in
      modify (add_failed (io_fd h)) ;;;
      uv__io_stop c ;;;
      CurlSocketActivity c UV_EBADF 0
  | Some pevents => CurlSocketActivity c 0 pevents
  end.

Definition run_event (ev : event) : EM unit :=
  match ev with
  | Update data socks => let* _ := singlesocket data socks in ret tt
  | Closed s => Curl_multi_closed s
  | TimerAsked ms => let* _ := CurlTimeoutCallback ms in ret tt
  | Ready c events => uv__poll_io c (Some events)
  | PollError c => uv__poll_io c None
  | HandleClosed c => OnClosed c
  | TimerFires => modify (set_timer None) ;;; PerformRequests
  end.

(** The events a handle waits for. *)
Definition handle_events (s : estate) (c : cctx) : Z :=
  match e_contexts s !! c with
  | Some {| poll_handle := Some h |} => io_pevents h
  | _ => 0
  end.
Definition is_closing (s : estate) (c : cctx) : bool :=
  match e_contexts s !! c with
  | Some {| poll_handle := Some h |} => uv_closing h
  | _ => false
  end.

(** libcurl asks for open sockets, at most five per transfer, with something
    to wait for; libuv reports events of watched handles among those waited
    for, closed handles once, and the timer when it is set. *)
Definition event_ok (s : estate) (ev : event) : Prop :=
  match ev with
  | Update _ socks => (length socks <= 5)%nat /\ Forall (fun sa => 0 <= sa.1 /\ 1 <= sa.2 <= 3) socks
  | Closed fd => 0 <= fd
  | TimerAsked ms => -1 <= ms
  | Ready c events => handle_events s c <> 0 /\ events <> 0 /\ Z.land events (handle_events s c) = events
  | PollError c => handle_events s c <> 0
  | HandleClosed c => is_closing s c = true
  | TimerFires => is_Some (e_timer s)
  end.

Inductive reached (oom : oracle) : estate -> Prop :=
| reached_init : reached oom (estate_init oom)
| reached_event s ev s' : reached oom s -> event_ok s ev -> run_event ev s = inr (tt, s') -> reached oom s'.
