(* ===== verification/SocketFacts.v ===== *)
(** * libuv watches what libcurl waits for

    Under any sequence of socket updates and closes by libcurl, events, errors
    and close callbacks of libuv, and allocation failures of libcurl, the
    [CurlContext] objects of the extension connect the two tables: no context
    is used after its deletion or leaked, and a socket is polled for the
    action libcurl stored for it. *)

From S2P Require Import Prelude Strbuffer EventLoop.

(* ------------------------------------------------------------------ *)
(** ** The invariant *)

Definition open_ctx (s ev : Z) : CurlContext :=
  {| cc_socket := s; poll_handle := Some {| io_fd := s; io_pevents := ev; uv_closing := false |} |}.
Definition closing_ctx (s : Z) : CurlContext :=
  {| cc_socket := s; poll_handle := Some {| io_fd := s; io_pevents := 0; uv_closing := true |} |}.

(** The context of an entry of libcurl's table. *)
Definition entry_ok (st : estate) (s : Z) (e : Curl_sh_entry) : Prop :=
  0 <= s /\ 0 <= sh_action e <= 3 /\
  match sh_socketp e with
  | None => sh_action e = 0
  | Some a => exists ev, e_contexts st !! a = Some (open_ctx s ev) /\ 0 <= ev <= 3 /\ (ev = 0 -> s ∈ e_failed st) /\
      (ev <> 0 -> sh_action e <> 0 -> ev = sh_action e)
  end.

Record watch_ok (st : estate) : Prop := {
  wo_entry : forall s e, e_sockhash st !! s = Some e -> entry_ok st s e;
  wo_context : forall a c, e_contexts st !! a = Some c ->
    (exists s, c = closing_ctx s) \/ (exists s ev e, c = open_ctx s ev /\ e_sockhash st !! s = Some e /\ sh_socketp e = Some a);
  wo_watchers : forall fd a, e_watchers st !! fd = Some a <-> exists ev, e_contexts st !! a = Some (open_ctx fd ev) /\ ev <> 0;
  wo_fresh : forall a, is_Some (e_contexts st !! a) -> (a < e_fresh st)%positive
}.

Lemma watch_init oom : watch_ok (estate_init oom).
Proof.
  split; cbn; intros *; rewrite lookup_empty; try done. split; [done|]. intros (ev & H & _). by rewrite lookup_empty in H.
Qed.

Lemma open_inj s ev s' ev' : open_ctx s ev = open_ctx s' ev' -> s = s' /\ ev = ev'.
Proof. unfold open_ctx. intros H. by injection H. Qed.
Lemma open_closing s ev s' : open_ctx s ev <> closing_ctx s'.
Proof. discriminate. Qed.

(** Only the context of its entry watches a socket. *)
Lemma watcher_is st s e : watch_ok st -> e_sockhash st !! s = Some e ->
  e_watchers st !! s = None \/ exists a, sh_socketp e = Some a /\ e_watchers st !! s = Some a.
Proof.
  intros Hok He. destruct (e_watchers st !! s) as [b|] eqn:E; [right|by left]. apply (wo_watchers _ Hok) in E as (ev & Hb & Hev).
  exists b. split; [|done]. destruct (wo_context _ Hok b _ Hb) as [[s' E]|(s' & ev' & e' & [-> ->]%open_inj & He' & Hp)]; [by apply open_closing in E|]. by simplify_eq.
Qed.

(* ------------------------------------------------------------------ *)
(** ** Poll handles *)

Ltac eta st := destruct st; reflexivity.

Lemma wp_get_cctx st a c (Q : CurlContext -> estate -> Prop) : e_contexts st !! a = Some c -> Q c st -> wp (get_cctx a) st Q.
Proof. intros Hc HQ. unfold get_cctx. rewrite wp_bind, wp_gets. by eapply wp_require. Qed.
Lemma wp_get_handle st a c h (Q : uv_poll_t -> estate -> Prop) :
  e_contexts st !! a = Some c -> poll_handle c = Some h -> Q h st -> wp (get_handle a) st Q.
Proof. intros Hc Hh HQ. unfold get_handle. rewrite wp_bind. eapply wp_get_cctx; [exact Hc|]. by eapply wp_require. Qed.
Lemma wp_put_handle st a c h (Q : unit -> estate -> Prop) : e_contexts st !! a = Some c ->
  Q tt (set_contexts (<[a := {| cc_socket := cc_socket c; poll_handle := Some h |}]> (e_contexts st)) st) -> wp (put_handle a h) st Q.
Proof. intros Hc HQ. unfold put_handle. rewrite wp_bind. eapply wp_get_cctx; [exact Hc|]. unfold put_cctx. by rewrite wp_modify. Qed.

(** A handle stops, from any state. *)
Lemma wp_io_stop st a c h (Q : unit -> estate -> Prop) : e_contexts st !! a = Some c -> poll_handle c = Some h ->
  Q tt (set_watchers (if bool_decide (e_watchers st !! io_fd h = Some a) then delete (io_fd h) (e_watchers st) else e_watchers st)
       (set_contexts (<[a := {| cc_socket := cc_socket c; poll_handle := Some {| io_fd := io_fd h; io_pevents := 0; uv_closing := uv_closing h |} |}]> (e_contexts st)) st)) ->
  wp (uv__io_stop a) st Q.
Proof.
  intros Hc Hh HQ. unfold uv__io_stop. rewrite wp_bind. eapply wp_get_handle; [exact Hc|exact Hh|]. rewrite wp_bind.
  eapply wp_put_handle; [exact Hc|]. rewrite wp_bind, wp_gets. cbn [e_watchers set_contexts]. case_bool_decide.
  - rewrite wp_modify. exact HQ.
  - rewrite wp_ret. by destruct st.
Qed.

Definition watching (st : estate) (a : cctx) (s ev : Z) : estate :=
  set_watchers (<[s := a]> (e_watchers st)) (set_contexts (<[a := open_ctx s ev]> (e_contexts st)) st).

Lemma poll_start_wp st a s ev pe (Q : Z -> estate -> Prop) : e_contexts st !! a = Some (open_ctx s ev) ->
  e_watchers st !! s = None \/ e_watchers st !! s = Some a -> 1 <= pe <= 3 -> 0 <= s ->
  Q 0 (watching st a s pe) -> wp (uv_poll_start a pe) st Q.
Proof.
  intros Hc Hw Hpe Hs HQ. unfold uv_poll_start. rewrite wp_bind. eapply wp_get_handle; [exact Hc|reflexivity|]. cbn [io_fd uv_closing].
  assert (Hbits : Z.ldiff pe (Z.lor (Z.lor UV_READABLE UV_WRITABLE) (Z.lor UV_DISCONNECT UV_PRIORITIZED)) =? 0 = true)
    by (assert (pe = 1 \/ pe = 2 \/ pe = 3) as [-> | [-> | ->]] by lia; reflexivity).
  rewrite wp_bind. apply wp_assert; [exact Hbits|]. rewrite wp_bind. apply wp_assert; [done|]. rewrite wp_bind, wp_gets.
  replace (bool_decide _ && negb _) with false by (destruct Hw as [-> | ->]; case_bool_decide; rewrite ?bool_decide_true by done; done).
  rewrite wp_bind. eapply wp_io_stop; [exact Hc|reflexivity|]. cbn [io_fd uv_closing cc_socket]. rewrite (proj2 (Z.eqb_neq pe 0)) by lia.
  rewrite wp_bind. unfold uv__io_start. rewrite wp_bind. eapply wp_get_handle; [cbn; apply lookup_insert_eq|reflexivity|]. cbn [io_fd uv_closing io_pevents].
  rewrite wp_bind. apply wp_assert; [by rewrite (proj2 (Z.eqb_neq pe 0)) by lia|]. rewrite wp_bind. apply wp_assert; [by apply Z.leb_le|].
  rewrite wp_bind. eapply wp_put_handle; [cbn; apply lookup_insert_eq|]. rewrite wp_bind, wp_gets. cbn.
  assert (Hw' : (if bool_decide (e_watchers st !! s = Some a) then delete s (e_watchers st) else e_watchers st) !! s = None).
  { destruct Hw as [E|E]; rewrite E; [by rewrite bool_decide_false|]. rewrite bool_decide_true by done. apply lookup_delete_eq. }
  rewrite Hw', wp_modify. revert HQ. unfold watching, set_watchers, set_contexts, open_ctx. cbn.
  rewrite insert_insert_eq. case_bool_decide; [rewrite insert_delete_eq|]; done.
Qed.

(* ------------------------------------------------------------------ *)
(** ** The socket callback *)

Definition with_socketp (p : option cctx) (e : Curl_sh_entry) : Curl_sh_entry :=
  {| sh_transfers := sh_transfers e; sh_action := sh_action e; sh_users := sh_users e; sh_socketp := p;
     sh_readers := sh_readers e; sh_writers := sh_writers e |}.

Lemma assign_sock_wp st s e p (Q : Z -> estate -> Prop) : e_sockhash st !! s = Some e ->
  Q CURLM_OK (set_sockhash (<[s := with_socketp p e]> (e_sockhash st)) st) -> wp (curl_multi_assign s p) st Q.
Proof. intros He HQ. unfold curl_multi_assign. rewrite wp_bind, wp_gets, He, wp_bind, wp_modify, wp_ret. exact HQ. Qed.
Lemma upd_entry_wp st s e f (Q : Curl_sh_entry -> estate -> Prop) : e_sockhash st !! s = Some e ->
  Q (f e) (set_sockhash (<[s := f e]> (e_sockhash st)) st) -> wp (upd_entry s f) st Q.
Proof. intros He HQ. unfold upd_entry. rewrite wp_bind, wp_gets, wp_bind. eapply wp_require; [exact He|]. rewrite wp_bind, wp_modify, wp_ret. exact HQ. Qed.

(** A new context, whose handle is not started. *)
Definition created (st : estate) (s : Z) : estate :=
  set_contexts (<[e_fresh st := open_ctx s 0]> (e_contexts st)) (set_fresh (Pos.succ (e_fresh st)) st).
Lemma new_context_wp st s (Q : cctx -> estate -> Prop) : e_watchers st !! s = None ->
  Q (e_fresh st) (created st s) -> wp (new_CurlContext s) st Q.
Proof.
  intros Hw HQ. unfold new_CurlContext. rewrite wp_bind, wp_gets, wp_bind, wp_modify, wp_bind. unfold put_cctx. rewrite wp_modify.
  rewrite wp_bind. unfold uv_poll_init_socket, uv__fd_exists. rewrite wp_bind, wp_bind, wp_gets, wp_ret. cbn. rewrite Hw, bool_decide_false by (by intros []).
  rewrite wp_bind. eapply wp_put_handle; [cbn; apply lookup_insert_eq|]. cbn.
  revert HQ. unfold created, set_contexts, set_fresh, open_ctx. cbn. by rewrite insert_insert_eq.
Qed.

(** Where an action is stored for a socket of the table, the socket is watched
    for it. *)
Definition noted (st : estate) (s : Z) (e : Curl_sh_entry) (a : cctx) (action : Z) : estate :=
  set_sockhash (<[s := with_action action (with_socketp (Some a) e)]> (e_sockhash st)) (watching st a s action).

Lemma poll_events action : 1 <= action <= 3 ->
  (action =? CURL_POLL_IN) || (action =? CURL_POLL_OUT) || (action =? CURL_POLL_INOUT) = true /\
  Z.lor (if negb (action =? CURL_POLL_IN) then UV_WRITABLE else 0) (if negb (action =? CURL_POLL_OUT) then UV_READABLE else 0) = action.
Proof. intros H. assert (action = 1 \/ action = 2 \/ action = 3) as [-> | [-> | ->]] by lia; done. Qed.

Lemma notify_wp st s e action (Q : unit -> estate -> Prop) : watch_ok st -> e_sockhash st !! s = Some e -> 1 <= action <= 3 ->
  (forall a, sh_socketp e = Some a -> Q tt (noted st s e a action)) ->
  (sh_socketp e = None -> Q tt (noted (created st s) s e (e_fresh st) action)) -> wp (notify s action) st Q.
Proof.
  intros Hok He Hact Hold Hnew. destruct (poll_events action Hact) as [Eact Eev]. destruct (wo_entry _ Hok s e He) as (Hs & _ & Hp).
  unfold notify. rewrite wp_bind, wp_gets, wp_bind. eapply wp_require; [exact He|]. rewrite wp_bind. unfold CurlSocketCallback.
  rewrite Eact, wp_bind. rewrite Eev.
  assert (Hgo : forall st' a ev, e_sockhash st' = e_sockhash st -> e_contexts st' !! a = Some (open_ctx s ev) ->
    e_watchers st' !! s = None \/ e_watchers st' !! s = Some a -> Q tt (noted st' s e a action) ->
    wp (let* _ := curl_multi_assign s (Some a) in let* _ := uv_poll_start a action in ret tt) st'
      (fun _ s' => wp (ret 0) s' (fun _ s'0 => wp (let* _ := upd_entry s (with_action action) in ret tt) s'0 Q))).
  { intros st' a ev Hsh Hc Hw HQ. rewrite wp_bind. eapply assign_sock_wp; [by rewrite Hsh|]. rewrite wp_bind.
    eapply poll_start_wp; [exact Hc|exact Hw|lia|exact Hs|]. rewrite !wp_ret, wp_bind. eapply upd_entry_wp; [cbn; apply lookup_insert_eq|].
    rewrite wp_ret. revert HQ. unfold noted, watching. cbn. by rewrite insert_insert_eq. }
  destruct (watcher_is st s e Hok He) as [Hw|(b & Hb & Hw)].
  - destruct (sh_socketp e) as [a|] eqn:Ep; rewrite wp_bind.
    + destruct Hp as (ev & Hc & _). rewrite wp_ret. eapply Hgo; [done|exact Hc|by left|by apply Hold].
    + apply new_context_wp; [exact Hw|]. eapply (Hgo _ _ 0); [done|cbn; apply lookup_insert_eq|by left|by apply Hnew].
  - rewrite Hb in *. destruct Hp as (ev & Hc & _). rewrite wp_bind, wp_ret. eapply Hgo; [done|exact Hc|by right|by apply Hold].
Qed.

(** *** The invariant is kept *)

(** Changes of counts and of the transfers of an entry. *)
Lemma entry_upd_ok st s e e' : watch_ok st -> e_sockhash st !! s = Some e -> sh_action e' = sh_action e -> sh_socketp e' = sh_socketp e ->
  watch_ok (set_sockhash (<[s := e']> (e_sockhash st)) st).
Proof.
  intros Hok He Ha Hp. split; cbn.
  - intros s' x [(<- & <-)|(Hne & Hx)]%lookup_insert_Some; [|by apply (wo_entry _ Hok)].
    unfold entry_ok. rewrite Ha, Hp. exact (wo_entry _ Hok s e He).
  - intros a c Hc. destruct (wo_context _ Hok a c Hc) as [?|(s' & ev & x & -> & Hx & Hxp)]; [by left|right]. exists s', ev.
    destruct (decide (s' = s)) as [->|]; [|exists x; by rewrite lookup_insert_ne by done]. simplify_eq. exists e'. rewrite lookup_insert_eq. by rewrite Hp.
  - apply (wo_watchers _ Hok).
  - apply (wo_fresh _ Hok).
Qed.

(** The entry [e] of [s] has the context [a], an old or a new one. *)
Definition owner (st : estate) (e : Curl_sh_entry) (a : cctx) : Prop :=
  sh_socketp e = Some a \/ sh_socketp e = None /\ e_contexts st !! a = None.

Section noted.
Context (st st' : estate) (s : Z) (e : Curl_sh_entry) (a : cctx) (action : Z).
Hypotheses (Hok : watch_ok st) (He : e_sockhash st !! s = Some e) (Hact : 1 <= action <= 3) (Howner : owner st e a).
Hypotheses (Hhash : e_sockhash st' = <[s := with_action action (with_socketp (Some a) e)]> (e_sockhash st))
  (Hcontexts : e_contexts st' = <[a := open_ctx s action]> (e_contexts st)) (Hwatchers : e_watchers st' = <[s := a]> (e_watchers st))
  (Hfailed : e_failed st' = e_failed st) (Hfresh : (e_fresh st <= e_fresh st')%positive) (Ha : (a < e_fresh st')%positive).

Lemma owner_socket s' ev : e_contexts st !! a = Some (open_ctx s' ev) -> s' = s.
Proof using Hok He Howner.
  intros Hc. destruct Howner as [Hp|[_ Hn]]; [|by rewrite Hn in Hc]. destruct (wo_entry _ Hok s e He) as (_ & _ & Hx).
  rewrite Hp in Hx. destruct Hx as (ev' & Hx & _). rewrite Hx in Hc. by injection Hc.
Qed.
Lemma other_socket b s' ev : b <> a -> e_contexts st !! b = Some (open_ctx s' ev) -> s' <> s.
Proof using Hok He Howner.
  intros Hne Hb ->. destruct (wo_context _ Hok b _ Hb) as [[? E]|(? & ? & x & [<- _]%open_inj & Hx & Hxp)]; [by apply open_closing in E|].
  destruct Howner as [?|[? _]]; simplify_eq.
Qed.

Lemma noted_ok : watch_ok st'.
Proof using All.
  split.
  - intros s' x. rewrite Hhash. intros [(<- & <-)|(Hne & Hx)]%lookup_insert_Some; unfold entry_ok; cbn; rewrite Hcontexts, Hfailed.
    + destruct (wo_entry _ Hok s e He) as (Hs & _). split_and!; [done|lia..|]. exists action. rewrite lookup_insert_eq. split_and!; [done|lia..|done].
    + destruct (wo_entry _ Hok s' x Hx) as (Hs' & Ha' & Hx'). split_and!; [done|lia..|]. destruct (sh_socketp x) as [b|]; [|done].
      destruct Hx' as (ev' & Hb & Hx'). exists ev'. split; [|done]. rewrite lookup_insert_ne; [done|]. intros <-. by apply owner_socket in Hb.
  - intros b c. rewrite Hhash, Hcontexts. intros [(<- & <-)|(Hne & Hb)]%lookup_insert_Some.
    + right. exists s, action, (with_action action (with_socketp (Some a) e)). by rewrite lookup_insert_eq.
    + destruct (wo_context _ Hok b c Hb) as [?|(s' & ev' & x & -> & Hx & Hxp)]; [by left|right]. exists s', ev', x. split_and!; try done.
      rewrite lookup_insert_ne; [done|]. intros <-. by apply (other_socket b s ev').
  - intros fd b. rewrite Hcontexts, Hwatchers. destruct (decide (b = a)) as [->|Hne].
    + rewrite lookup_insert_eq. split.
      * intros [(<- & _)|(Hfd & Hw)]%lookup_insert_Some; [exists action; split; [done|lia]|]. apply (wo_watchers _ Hok) in Hw as (ev' & Hw & _).
        by apply owner_socket in Hw.
      * intros (ev' & [-> _]%(inj Some)%open_inj & _). apply lookup_insert_eq.
    + rewrite (lookup_insert_ne (e_contexts st)) by done. destruct (decide (fd = s)) as [->|Hfd].
      * rewrite lookup_insert_eq. split; [by intros [= ->]|]. intros (ev' & Hb & _). by apply (other_socket b s ev') in Hb.
      * rewrite lookup_insert_ne by done. apply (wo_watchers _ Hok).
  - intros b. rewrite Hcontexts. intros Hb. destruct (decide (a = b)) as [<-|Hne]; [done|]. rewrite lookup_insert_ne in Hb by done.
    apply (wo_fresh _ Hok) in Hb. lia.
Qed.
End noted.

(** Everything but the socket table, the contexts and the watchers. *)
Definition rest (st st' : estate) : Prop :=
  (e_oom st = [] -> e_oom st' = []) /\ e_easies st' = e_easies st /\ e_timer st' = e_timer st /\ e_actions st' = e_actions st /\ e_failed st' = e_failed st.

Lemma notify_ok st s e action : watch_ok st -> e_sockhash st !! s = Some e -> 0 <= action <= 3 ->
  wp (notify s action) st (fun _ st' => watch_ok st' /\ rest st st' /\
    exists p, e_sockhash st' = <[s := with_action action (with_socketp p e)]> (e_sockhash st)).
Proof.
  intros Hok He Hact. destruct (decide (action = 0)) as [->|Hne].
  - unfold notify. rewrite wp_bind, wp_gets, wp_bind. eapply wp_require; [exact He|]. rewrite wp_bind. unfold CurlSocketCallback.
    cbn [Z.eqb orb]. change (0 =? CURL_POLL_REMOVE) with false. cbn. rewrite wp_bind. eapply upd_entry_wp; [exact He|]. rewrite wp_ret.
    split_and!; try done; [|exists (sh_socketp e); by destruct e]. destruct (wo_entry _ Hok s e He) as (Hs & _ & Hp).
    split; cbn; [| |apply (wo_watchers _ Hok)|apply (wo_fresh _ Hok)].
    + intros s' x [(<- & <-)|(Hne & Hx)]%lookup_insert_Some; [|by apply (wo_entry _ Hok)]. unfold entry_ok. cbn. split_and!; [done|lia..|].
      destruct (sh_socketp e) as [a|]; [|done]. destruct Hp as (ev & Hc & H1 & H2 & _). by exists ev.
    + intros a c Hc. destruct (wo_context _ Hok a c Hc) as [?|(s' & ev & x & -> & Hx & Hxp)]; [by left|right]. exists s', ev.
      destruct (decide (s' = s)) as [->|]; [|exists x; by rewrite lookup_insert_ne by done]. simplify_eq. eexists. by rewrite lookup_insert_eq.
  - eapply notify_wp; [exact Hok|exact He|lia| |].
    + intros a Hp. split_and!; [|done..|by exists (Some a)]. eapply (noted_ok st _ s e a action); try done; [lia|by left|].
      cbn. destruct (wo_entry _ Hok s e He) as (_ & _ & Hx). rewrite Hp in Hx. destruct Hx as (ev & Hx & _). apply (wo_fresh _ Hok). by exists (open_ctx s ev).
    + intros Hp. split_and!; [|done..|by exists (Some (e_fresh st))]. eapply (noted_ok st _ s e (e_fresh st) action); try done; cbn; [lia| | |lia..].
      * right. split; [done|]. destruct (e_contexts st !! e_fresh st) eqn:E; [|done]. pose proof (wo_fresh _ Hok (e_fresh st) ltac:(by eexists)). lia.
      * by rewrite insert_insert_eq.
Qed.
Lemma rest_refl st : rest st st.
Proof. done. Qed.
Lemma rest_trans st st1 st2 : rest st st1 -> rest st1 st2 -> rest st st2.
Proof. unfold rest. intros (? & ? & ? & ? & ?) (? & ? & ? & ? & ?). split_and!; try congruence. auto. Qed.

(** A socket leaves the table: its context is closed. *)
Definition unwatch (m : gmap Z cctx) (s : Z) (a : cctx) : gmap Z cctx := if bool_decide (m !! s = Some a) then delete s m else m.

Lemma unwatch_twice m s a : unwatch (unwatch m s a) s a = unwatch m s a.
Proof.
  unfold unwatch. destruct (decide (m !! s = Some a)) as [E|E]; [rewrite (bool_decide_true _ E)|by rewrite !(bool_decide_false _ E)].
  rewrite bool_decide_false; [done|]. by rewrite lookup_delete_eq.
Qed.
Lemma Destroy_wp st a s ev (Q : unit -> estate -> Prop) : e_contexts st !! a = Some (open_ctx s ev) ->
  Q tt (set_watchers (unwatch (e_watchers st) s a) (set_contexts (<[a := closing_ctx s]> (e_contexts st)) st)) -> wp (Destroy a) st Q.
Proof.
  intros Hc HQ. unfold Destroy, uv_poll_stop. rewrite wp_bind, wp_bind. eapply wp_get_handle; [exact Hc|reflexivity|]. rewrite wp_bind. apply wp_assert; [done|].
  rewrite wp_bind. eapply wp_io_stop; [exact Hc|reflexivity|]. rewrite wp_ret. unfold uv_close. rewrite wp_bind.
  eapply wp_get_handle; [cbn; apply lookup_insert_eq|reflexivity|]. rewrite wp_bind. apply wp_assert; [done|]. rewrite wp_bind.
  eapply wp_put_handle; [cbn; apply lookup_insert_eq|]. eapply wp_io_stop; [cbn; apply lookup_insert_eq|reflexivity|]. cbn. rewrite !insert_insert_eq.
  fold (unwatch (e_watchers st) s a). fold (unwatch (unwatch (e_watchers st) s a) s a). by rewrite unwatch_twice.
Qed.

Section closed.
Context (st : estate) (s : Z) (e : Curl_sh_entry) (a : cctx) (ev : Z).
Hypotheses (Hok : watch_ok st) (He : e_sockhash st !! s = Some e) (Hp : sh_socketp e = Some a) (Hc : e_contexts st !! a = Some (open_ctx s ev)).

Lemma unwatch_spec fd b : unwatch (e_watchers st) s a !! fd = Some b <-> e_watchers st !! fd = Some b /\ b <> a.
Proof using All.
  assert (Hfd : forall c, e_watchers st !! c = Some a -> c = s).
  { intros c Hw. apply (wo_watchers _ Hok) in Hw as (ev' & Hw & _). rewrite Hw in Hc. by injection Hc. }
  assert (Hsa : forall c, e_watchers st !! s = Some c -> c = a).
  { intros c Hw. destruct (watcher_is st s e Hok He) as [E|(a' & E1 & E2)]; congruence. }
  unfold unwatch. case_bool_decide as E; [rewrite lookup_delete_Some|]; split; try tauto.
  - intros [Hne Hb]. split; [done|]. intros ->. by apply Hne, eq_sym, Hfd.
  - intros [Hb Hne]. split; [|done]. intros <-. by apply Hne, Hsa.
  - intros Hb. split; [done|]. intros ->. pose proof (Hfd _ Hb) as ->. done.
Qed.

Lemma closed_ok st' : e_sockhash st' = delete s (e_sockhash st) -> e_contexts st' = <[a := closing_ctx s]> (e_contexts st) ->
  e_watchers st' = unwatch (e_watchers st) s a -> e_failed st' = e_failed st -> e_fresh st' = e_fresh st -> watch_ok st'.
Proof using All.
  intros Hh' Hc' Hw' Hf' Hn'. split; rewrite ?Hh', ?Hc', ?Hw', ?Hn'.
  - intros s' x [Hne Hx]%lookup_delete_Some. destruct (wo_entry _ Hok s' x Hx) as (Hs' & Ha' & Hx').
    unfold entry_ok. rewrite Hc', Hf'. split_and!; [done|lia..|]. destruct (sh_socketp x) as [b|]; [|done]. destruct Hx' as (ev' & Hb & Hx'). exists ev'.
    split; [|done]. rewrite lookup_insert_ne; [done|]. intros <-. rewrite Hb in Hc. apply (inj Some), open_inj in Hc as [-> _]. done.
  - intros b c [(<- & <-)|(Hne & Hb)]%lookup_insert_Some; [left; by exists s|].
    destruct (wo_context _ Hok b c Hb) as [?|(s' & ev' & x & -> & Hx & Hxp)]; [by left|right]. exists s', ev', x. split_and!; try done.
    rewrite lookup_delete_ne; [done|]. intros <-. simplify_eq.
  - intros fd b. rewrite unwatch_spec, (wo_watchers _ Hok). destruct (decide (b = a)) as [->|Hne].
    + rewrite lookup_insert_eq. split; [by intros [_ []]|]. intros (ev' & E & _). by apply (inj Some), eq_sym, open_closing in E.
    + rewrite lookup_insert_ne by done. naive_solver.
  - intros b Hb. apply (wo_fresh _ Hok). destruct (decide (a = b)) as [<-|]; [by exists (open_ctx s ev)|by rewrite lookup_insert_ne in Hb by done].
Qed.
End closed.

Lemma forget_ok st s e : watch_ok st -> e_sockhash st !! s = Some e ->
  wp (forget s e) st (fun _ st' => watch_ok st' /\ rest st st' /\ e_sockhash st' = delete s (e_sockhash st)).
Proof.
  intros Hok He. destruct (wo_entry _ Hok s e He) as (Hs & _ & Hp). unfold forget, CurlSocketCallback. rewrite wp_bind.
  change ((CURL_POLL_REMOVE =? CURL_POLL_IN) || _ || _) with false. change (CURL_POLL_REMOVE =? CURL_POLL_REMOVE) with true. cbv iota. rewrite wp_bind.
  destruct (sh_socketp e) as [a|] eqn:Ep; [destruct Hp as (ev & Hc & _)|].
  - rewrite wp_bind. eapply Destroy_wp; [exact Hc|]. rewrite wp_bind. eapply assign_sock_wp; [exact He|]. rewrite !wp_ret. unfold sh_delentry. rewrite wp_modify.
    assert (Ed : delete s (<[s := with_socketp None e]> (e_sockhash st)) = delete s (e_sockhash st)) by apply delete_insert_eq.
    split_and!; try done. by eapply (closed_ok st s e a ev).
  - rewrite !wp_ret. unfold sh_delentry. rewrite wp_modify. split_and!; try done. split; cbn; [| |apply (wo_watchers _ Hok)|apply (wo_fresh _ Hok)].
    + intros s' x [Hne Hx]%lookup_delete_Some. by apply (wo_entry _ Hok).
    + intros b c Hb. destruct (wo_context _ Hok b c Hb) as [?|(s' & ev' & x & -> & Hx & Hxp)]; [by left|right]. exists s', ev', x. split_and!; try done.
      rewrite lookup_delete_ne; [done|]. intros <-. simplify_eq.
Qed.

(* ------------------------------------------------------------------ *)
(** ** One socket of a transfer *)

Definition counts (e : Curl_sh_entry) : Z * Z * Z := (sh_users e, sh_readers e, sh_writers e).
Definition empty_entry : Curl_sh_entry :=
  {| sh_transfers := ∅; sh_action := 0; sh_users := 0; sh_socketp := None; sh_readers := 0; sh_writers := 0 |}.
(** The entry and the action the transfer had on the socket. *)
Definition entry_of (st : estate) (s : Z) : Curl_sh_entry := default empty_entry (e_sockhash st !! s).
Definition prev_action (st : estate) (s : Z) (old : list (Z * Z)) : option Z :=
  match e_sockhash st !! s with Some _ => find_socket s old | None => None end.
(** The counts with the new action of the transfer. *)
Definition joined (before : option Z) (action : Z) (e : Curl_sh_entry) : Curl_sh_entry :=
  match before with
  | Some prev => if negb (prev =? action) then change_user prev action e else e
  | None => new_user action e
  end.

Lemma combo_range e : 0 <= comboaction e <= 3.
Proof. unfold comboaction. by destruct (negb (sh_writers e =? 0)), (negb (sh_readers e =? 0)). Qed.
Lemma combo_counts e e' : counts e' = counts e -> comboaction e' = comboaction e.
Proof. unfold counts, comboaction. by intros [= _ -> ->]. Qed.

(** libcurl's allocator. *)
Lemma wp_e_malloc size st (Q : bool -> estate -> Prop) :
  (forall b o, (e_oom st = [] -> b = true /\ o = []) -> Q b (set_e_oom o st)) -> wp (e_malloc size) st Q.
Proof. intros HQ. unfold e_malloc. apply wp_zoom. unfold do_malloc, wp. destruct (e_oom st) as [|b o]; by apply HQ. Qed.
Lemma oom_ok st o : watch_ok st -> watch_ok (set_e_oom o st).
Proof. intros [H1 H2 H3 H4]. by split. Qed.

(** The state after the table changed at [s]. *)
Definition changed (st st' : estate) (s : Z) (e : Curl_sh_entry) : Prop :=
  watch_ok st' /\ rest st st' /\ e_sockhash st' = <[s := e]> (e_sockhash st).
Lemma changed_upd st st' s e e' : changed st st' s e -> sh_action e' = sh_action e -> sh_socketp e' = sh_socketp e ->
  changed st (set_sockhash (<[s := e']> (e_sockhash st')) st') s e'.
Proof.
  intros (Hok & Hr & Hh) Ha Hp. split_and!; [|done|cbn; by rewrite Hh, insert_insert_eq].
  eapply entry_upd_ok; [done|rewrite Hh; apply lookup_insert_eq|done..].
Qed.
Lemma changed_oom st st' s e o : changed st st' s e -> (e_oom st' = [] -> o = []) -> changed st (set_e_oom o st') s e.
Proof. intros (Hok & (Hr1 & Hr) & Hh) Ho. split_and!; [by apply oom_ok| |done]. split; [intros E; cbn; auto|done]. Qed.

(** The socket is in the table. *)
Lemma sh_addentry_wp st s (Q : bool -> estate -> Prop) : watch_ok st -> 0 <= s -> e_sockhash st !! s = None ->
  (forall st', changed st st' s empty_entry -> Q true st') ->
  (forall st', e_oom st <> [] -> watch_ok st' -> rest st st' -> Q false st') -> wp (sh_addentry s) st Q.
Proof.
  intros Hok Hs Hn HQ HF. unfold sh_addentry.
  assert (Hlast : forall o, (e_oom st = [] -> o = []) ->
    Q true (set_sockhash (<[s := empty_entry]> (e_sockhash (set_e_oom o st))) (set_e_oom o st))).
  { intros o Ho. apply HQ. split_and!; [|done..]. split; cbn; [| |apply (wo_watchers _ Hok)|apply (wo_fresh _ Hok)].
    - intros s' x [(<- & <-)|(Hne & Hx)]%lookup_insert_Some; [|by apply (wo_entry _ Hok)]. by split_and!.
    - intros a c Hc. destruct (wo_context _ Hok a c Hc) as [?|(s' & ev & x & -> & Hx & Hxp)]; [by left|right]. exists s', ev, x.
      rewrite lookup_insert_ne; [done|]. intros <-. simplify_eq. }
  assert (Hfail : forall o, e_oom st <> [] -> Q false (set_e_oom o st)).
  { intros o Ho. apply HF; [done|by apply oom_ok|]. done. }
  rewrite wp_bind. apply wp_e_malloc. intros [] o1 H1; cbn [negb]; [|rewrite wp_ret; apply Hfail; intros E; by destruct (H1 E)].
  rewrite wp_bind. apply wp_e_malloc. intros [] o2 H2; cbn [negb];
    [|rewrite wp_ret; apply Hfail; intros E; destruct (H1 E) as [_ ->]; by destruct (H2 eq_refl)].
  rewrite wp_bind. apply wp_e_malloc. intros [] o3 H3; cbn [negb];
    [|rewrite wp_ret; apply Hfail; intros E; destruct (H1 E) as [_ ->]; destruct (H2 eq_refl) as [_ ->]; by destruct (H3 eq_refl)].
  rewrite wp_bind, wp_modify, wp_ret. apply Hlast. intros E. destruct (H1 E) as [_ ->]. destruct (H2 eq_refl) as [_ ->]. by destruct (H3 eq_refl).
Qed.

(** *** The first loop *)

Lemma add_transfer_wp st st' data s e (Q : bool -> estate -> Prop) : changed st st' s e ->
  (forall st2 tr, changed st st2 s (with_transfers (fun _ => tr) e) -> Q true st2) ->
  (forall st2, e_oom st' <> [] -> watch_ok st2 -> rest st st2 -> Q false st2) -> wp (add_transfer data s) st' Q.
Proof.
  intros Hch HQ HF. assert (He : e_sockhash st' !! s = Some e) by (destruct Hch as (_ & _ & ->); apply lookup_insert_eq).
  unfold add_transfer. rewrite wp_bind. eapply upd_entry_wp; [exact He|].
  pose proof (changed_upd st st' s e (with_transfers (fun t => t ∖ {[data]}) e) Hch eq_refl eq_refl) as Hch1.
  rewrite wp_bind. apply wp_e_malloc. intros ok o Ho. cbn [e_oom set_sockhash] in Ho.
  pose proof (changed_oom _ _ _ _ o Hch1 ltac:(cbn; intros E; by destruct (Ho E))) as Hch2. destruct ok.
  - rewrite wp_bind. eapply upd_entry_wp; [cbn; apply lookup_insert_eq|]. rewrite wp_ret.
    apply (HQ _ (sh_transfers (with_transfers (fun t => {[data]} ∪ t) (with_transfers (fun t => t ∖ {[data]}) e)))).
    by apply (changed_upd _ _ _ _ (with_transfers (fun t => {[data]} ∪ t) (with_transfers (fun t => t ∖ {[data]}) e)) Hch2).
  - rewrite wp_ret. destruct Hch2 as (? & ? & _). apply HF; [|done..]. intros E. by destruct (Ho E).
Qed.

(** The counts change, and the socket is watched for what all its transfers
    need. *)
Lemma supervise_one data old rest_ s action st (Q : Z -> estate -> Prop) : watch_ok st -> 0 <= s -> 1 <= action <= 3 ->
  (forall st' e', changed st st' s e' -> counts e' = counts (joined (prev_action st s old) action (entry_of st s)) ->
     sh_action e' = comboaction e' -> wp (supervise data old rest_) st' Q) ->
  (forall st', e_oom st <> [] -> watch_ok st' -> rest st st' -> Q CURLM_OUT_OF_MEMORY st') ->
  wp (supervise data old ((s, action) :: rest_)) st Q.
Proof.
  intros Hok Hs Hact HQ HF. set (before := prev_action st s old). set (e1 := joined before action (entry_of st s)).
  assert (Hnotify : forall st2 e, changed st st2 s e -> counts e = counts e1 ->
    wp (let* e := upd_entry s (fun e => e) in
        (if bool_decide (is_Some before) && (sh_action e =? comboaction e) then ret tt else notify s (comboaction e)) ;;;
        supervise data old rest_) st2 Q).
  { intros st2 e Hch Hcnt. assert (He : e_sockhash st2 !! s = Some e) by (destruct Hch as (_ & _ & ->); apply lookup_insert_eq).
    rewrite wp_bind. eapply upd_entry_wp; [exact He|]. pose proof (changed_upd st st2 s e e Hch eq_refl eq_refl) as Hch2. rewrite wp_bind.
    destruct (bool_decide (is_Some before) && (sh_action e =? comboaction e)) eqn:Esame.
    - rewrite wp_ret. apply (HQ _ e); [exact Hch2|exact Hcnt|]. apply andb_true_iff in Esame as [_ E]. by apply Z.eqb_eq.
    - eapply wp_mono; [eapply (notify_ok _ s e); [apply Hch2|cbn; apply lookup_insert_eq|apply combo_range]|].
      intros [] st3 (Hok3 & Hr3 & p & Hh3). apply (HQ _ (with_action (comboaction e) (with_socketp p e))); [|exact Hcnt|reflexivity].
      destruct Hch2 as (_ & Hr2 & Hh2). split_and!; [done|by eapply rest_trans|]. rewrite Hh3. cbn in Hh2 |- *. by rewrite Hh2, insert_insert_eq. }
  assert (Hjoin : forall st2 e0, changed st st2 s e0 -> counts e0 = counts (entry_of st s) ->
    wp (match before with
        | Some prevaction => if negb (prevaction =? action) then let* _ := upd_entry s (change_user prevaction action) in ret true else ret true
        | None => let* _ := upd_entry s (new_user action) in add_transfer data s
        end) st2 (fun ok st3 => wp (if negb ok then ret CURLM_OUT_OF_MEMORY else
          let* e := upd_entry s (fun e => e) in
          (if bool_decide (is_Some before) && (sh_action e =? comboaction e) then ret tt else notify s (comboaction e)) ;;;
          supervise data old rest_) st3 Q)).
  { intros st2 e0 Hch Hcnt. assert (He : e_sockhash st2 !! s = Some e0) by (destruct Hch as (_ & _ & ->); apply lookup_insert_eq).
    unfold e1, joined in Hnotify. injection Hcnt as Hu Hrd Hwr. destruct before as [prev|] eqn:Eb; [destruct (negb (prev =? action))|].
    - rewrite wp_bind. eapply upd_entry_wp; [exact He|]. rewrite wp_ret. eapply Hnotify; [eapply changed_upd; [exact Hch|reflexivity..]|].
      unfold counts. cbn. by rewrite Hu, Hrd, Hwr.
    - rewrite wp_ret. eapply Hnotify; [exact Hch|]. unfold counts. by rewrite Hu, Hrd, Hwr.
    - rewrite wp_bind. eapply upd_entry_wp; [exact He|]. eapply add_transfer_wp; [eapply changed_upd; [exact Hch|reflexivity..]| |].
      + intros st3 tr Hch3. eapply Hnotify; [exact Hch3|]. unfold counts. cbn. by rewrite Hu, Hrd, Hwr.
      + intros st3 Ho Hok3 Hr3. cbn [negb]. rewrite wp_ret. apply HF; try done. intros E. destruct Hch as (_ & (Hr & _) & _). by apply Ho, Hr. }
  cbn [supervise]. rewrite wp_bind. unfold sh_getentry. rewrite wp_bind, wp_gets, wp_ret, (proj2 (Z.eqb_neq s (-1))) by lia. cbn [negb].
  rewrite wp_bind. unfold before, prev_action in *. destruct (e_sockhash st !! s) as [e0|] eqn:He.
  - rewrite wp_ret. cbn [negb]. rewrite wp_bind. apply (Hjoin st e0); [|unfold entry_of; by rewrite He].
    split_and!; [done|done|]. by rewrite insert_id.
  - apply sh_addentry_wp; [done..| |].
    + intros st2 Hch2. cbn [negb]. rewrite wp_bind. apply (Hjoin st2 empty_entry Hch2). unfold entry_of. by rewrite He.
    + intros st2 Ho Hok2 Hr2. cbn [negb]. rewrite wp_ret. by apply HF.
Qed.

(** *** The second loop *)

Lemma sh_getentry_wp st s (Q : option Curl_sh_entry -> estate -> Prop) : watch_ok st -> Q (e_sockhash st !! s) st -> wp (sh_getentry s) st Q.
Proof.
  intros Hok HQ. unfold sh_getentry. rewrite wp_bind, wp_gets, wp_ret. destruct (Z.eqb_spec s (-1)) as [->|]; [|done]. cbn [negb].
  destruct (e_sockhash st !! -1) as [e|] eqn:E; [|done]. destruct (wo_entry _ Hok _ _ E) as [? _]. lia.
Qed.

Lemma release_one data socks rest_ s oa st (Q : unit -> estate -> Prop) : watch_ok st ->
  (is_Some (find_socket s socks) \/ e_sockhash st !! s = None -> wp (release_old data socks rest_) st Q) ->
  (forall e st', find_socket s socks = None -> e_sockhash st !! s = Some e -> watch_ok st' -> rest st st' ->
     (if sh_users (drop_user oa e) =? 0 then e_sockhash st' = delete s (e_sockhash st)
      else exists e', e_sockhash st' = <[s := e']> (e_sockhash st) /\ counts e' = counts (drop_user oa e) /\ sh_action e' = sh_action e) ->
     wp (release_old data socks rest_) st' Q) ->
  wp (release_old data socks ((s, oa) :: rest_)) st Q.
Proof.
  intros Hok Hskip HQ. cbn [release_old]. rewrite wp_bind. case_bool_decide as Hin; [rewrite wp_ret; apply Hskip; by left|].
  rewrite wp_bind. apply sh_getentry_wp; [exact Hok|]. destruct (e_sockhash st !! s) as [e|] eqn:He; [|rewrite wp_ret; apply Hskip; by right].
  assert (Hno : find_socket s socks = None) by (destruct (find_socket s socks); [by destruct Hin|done]).
  specialize (HQ e). rewrite wp_bind. eapply upd_entry_wp; [exact He|].
  assert (Hch : changed st (set_sockhash (<[s := drop_user oa e]> (e_sockhash st)) st) s (drop_user oa e)).
  { split_and!; try done. by eapply entry_upd_ok. }
  destruct (sh_users (drop_user oa e) =? 0).
  - eapply wp_mono; [eapply (forget_ok _ s); [apply Hch|cbn; apply lookup_insert_eq]|]. intros [] st2 (Hok2 & Hr2 & Hh2).
    apply HQ; try done. rewrite Hh2. cbn. apply delete_insert_eq.
  - rewrite wp_bind. eapply upd_entry_wp; [cbn; apply lookup_insert_eq|]. rewrite wp_ret.
    assert (Hch2 : changed st (set_sockhash (<[s := with_transfers (fun t => t ∖ {[data]}) (drop_user oa e)]>
      (<[s := drop_user oa e]> (e_sockhash st))) (set_sockhash (<[s := drop_user oa e]> (e_sockhash st)) st)) s (with_transfers (fun t => t ∖ {[data]}) (drop_user oa e)))
      by (by apply (changed_upd _ _ _ _ (with_transfers (fun t => t ∖ {[data]}) (drop_user oa e)) Hch)).
    destruct Hch2 as (Hok2 & Hr2 & Hh2). apply HQ; try done. by exists (with_transfers (fun t => t ∖ {[data]}) (drop_user oa e)).
Qed.

(* ------------------------------------------------------------------ *)
(** ** Every event *)

Definition socks_ok (socks : list (Z * Z)) : Prop := Forall (fun sa => 0 <= sa.1 /\ 1 <= sa.2 <= 3) socks.

Lemma supervise_ok data old socks : socks_ok socks -> forall st, watch_ok st ->
  wp (supervise data old socks) st (fun r st' => watch_ok st' /\ rest st st' /\ (e_oom st = [] -> r = CURLM_OK)).
Proof.
  induction 1 as [|[s action] socks [Hs Ha] Hsocks IH]; intros st Hok; [cbn [supervise]; by rewrite wp_ret|].
  apply supervise_one; [done..| |].
  - intros st' e' (Hok' & Hr & _) _ _. eapply wp_mono; [by apply IH|]. intros r st2 (Hok2 & Hr2 & Ho2). split_and!; [done|by eapply rest_trans|].
    intros E. apply Ho2, Hr, E.
  - intros st' Ho Hok' Hr. split_and!; [done..|]. by intros.
Qed.
Lemma release_ok data socks old : forall st, watch_ok st -> wp (release_old data socks old) st (fun _ st' => watch_ok st' /\ rest st st').
Proof.
  induction old as [|[s oa] old IH]; intros st Hok; [cbn [release_old]; by rewrite wp_ret|].
  apply release_one; [done|intros _; by apply IH|]. intros e st' _ _ Hok' Hr _. eapply wp_mono; [by apply IH|].
  intros [] st2 [Hok2 Hr2]. split; [done|by eapply rest_trans].
Qed.

Lemma easies_ok st m : watch_ok st -> watch_ok (set_easies m st).
Proof. intros [H1 H2 H3 H4]. by split. Qed.
Lemma action_ok st x : watch_ok st -> watch_ok (add_action x st).
Proof. intros [H1 H2 H3 H4]. by split. Qed.
Lemma timer_ok st t : watch_ok st -> watch_ok (set_timer t st).
Proof. intros [H1 H2 H3 H4]. by split. Qed.

Lemma singlesocket_ok st data socks : watch_ok st -> socks_ok socks -> wp (singlesocket data socks) st (fun _ st' => watch_ok st').
Proof.
  intros Hok Hs. unfold singlesocket. rewrite wp_bind, wp_gets, wp_bind. eapply wp_mono; [by apply supervise_ok|].
  intros r st1 (Hok1 & Hr1 & _). destruct (negb (r =? CURLM_OK)); [by rewrite wp_ret|]. rewrite wp_bind.
  eapply wp_mono; [by apply release_ok|]. intros [] st2 [Hok2 _]. rewrite wp_bind, wp_modify, wp_ret. by apply easies_ok.
Qed.

(** *** What libuv reports *)

Lemma active_open st a : watch_ok st -> handle_events st a <> 0 ->
  exists s e, e_contexts st !! a = Some (open_ctx s (handle_events st a)) /\ e_sockhash st !! s = Some e /\ sh_socketp e = Some a.
Proof.
  unfold handle_events. intros Hok Hev. destruct (e_contexts st !! a) as [c|] eqn:Hc; [|done].
  destruct (wo_context _ Hok a c Hc) as [[s ->]|(s & ev & e & -> & He & Hp)]; [done|]. by exists s, e.
Qed.
Lemma closing_is st a : watch_ok st -> is_closing st a = true -> exists s, e_contexts st !! a = Some (closing_ctx s).
Proof.
  unfold is_closing. intros Hok Hc. destruct (e_contexts st !! a) as [c|] eqn:E; [|done].
  destruct (wo_context _ Hok a c E) as [[s ->]|(s & ev & e & -> & _)]; [by exists s|done].
Qed.

(** A handle that failed is stopped. *)
Lemma failed_ok st s e a ev st' : watch_ok st -> e_sockhash st !! s = Some e -> sh_socketp e = Some a -> e_contexts st !! a = Some (open_ctx s ev) ->
  e_sockhash st' = e_sockhash st -> e_contexts st' = <[a := open_ctx s 0]> (e_contexts st) -> e_watchers st' = unwatch (e_watchers st) s a ->
  e_failed st' = s :: e_failed st -> e_fresh st' = e_fresh st -> watch_ok st'.
Proof.
  intros Hok He Hp Hc Hh' Hc' Hw' Hf' Hn'. split; rewrite ?Hh', ?Hc', ?Hw', ?Hn'.
  - intros s' x Hx. destruct (wo_entry _ Hok s' x Hx) as (Hs' & Ha' & Hx'). unfold entry_ok. rewrite Hc', Hf'. split_and!; [done|lia..|].
    destruct (sh_socketp x) as [b|] eqn:Exp; [|done]. destruct Hx' as (ev' & Hb & Hx'). destruct (decide (a = b)) as [<-|Hne].
    + rewrite Hb in Hc. apply (inj Some), open_inj in Hc as [-> _]. exists 0. rewrite lookup_insert_eq. split_and!; try done; [lia..|]. intros _. by left.
    + exists ev'. rewrite lookup_insert_ne by done. destruct Hx' as (? & Hin & ?). split_and!; try done; [lia..|]. intros E. right. by apply Hin.
  - intros b c [(<- & <-)|(Hne & Hb)]%lookup_insert_Some; [right; by exists s, 0, e|]. by apply (wo_context _ Hok).
  - intros fd b. rewrite (unwatch_spec st s e a ev Hok He Hp Hc), (wo_watchers _ Hok). destruct (decide (b = a)) as [->|Hne].
    + rewrite lookup_insert_eq. split; [by intros [_ []]|]. intros (ev' & [_ <-]%(inj Some)%open_inj & ?). done.
    + rewrite lookup_insert_ne by done. naive_solver.
  - intros b Hb. apply (wo_fresh _ Hok). destruct (decide (a = b)) as [<-|]; [by exists (open_ctx s ev)|by rewrite lookup_insert_ne in Hb by done].
Qed.

Lemma OnClosed_ok st a s : watch_ok st -> e_contexts st !! a = Some (closing_ctx s) ->
  wp (OnClosed a) st (fun _ st' => watch_ok st' /\ st' = set_contexts (delete a (e_contexts st)) st).
Proof.
  intros Hok Hc. unfold OnClosed. rewrite wp_bind. eapply wp_get_cctx; [exact Hc|]. rewrite wp_modify. split; [|done].
  assert (Hopen : forall b s' ev, e_contexts st !! b = Some (open_ctx s' ev) -> a <> b)
    by (intros b s' ev Hb ->; rewrite Hc in Hb; by apply (inj Some), eq_sym, open_closing in Hb).
  split; cbn.
  - intros s' x Hx. destruct (wo_entry _ Hok s' x Hx) as (Hs' & Ha' & Hx'). unfold entry_ok. cbn. split_and!; [done|lia..|].
    destruct (sh_socketp x) as [b|]; [|done]. destruct Hx' as (ev & Hb & Hx'). exists ev. split; [|done]. rewrite lookup_delete_ne by (by eapply Hopen). done.
  - intros b c [Hne Hb]%lookup_delete_Some. by apply (wo_context _ Hok).
  - intros fd b. rewrite (wo_watchers _ Hok). split; intros (ev & Hb & Hev); exists ev; (split; [|done]).
    + by rewrite lookup_delete_ne by (by eapply Hopen).
    + by apply lookup_delete_Some in Hb as [_ ?].
  - intros b [c [_ Hb]%lookup_delete_Some]. apply (wo_fresh _ Hok). by exists c.
Qed.

(** Only updates add to the table of sockets. *)
Definition no_more (st st' : estate) : Prop :=
  e_easies st' = e_easies st /\ e_oom st' = e_oom st /\ forall s e, e_sockhash st' !! s = Some e -> e_sockhash st !! s = Some e.

Lemma forget_no_more st s e : watch_ok st -> e_sockhash st !! s = Some e -> e_oom st = [] -> wp (forget s e) st (fun _ st' => watch_ok st' /\ no_more st st').
Proof.
  intros Hok He Ho. eapply wp_mono; [by apply forget_ok|]. intros [] st' (Hok' & (Hr1 & Hr2 & _) & Hh). split; [done|]. split_and!; [done|by rewrite Ho, Hr1|].
  rewrite Hh. intros s' x Hx. by apply lookup_delete_Some in Hx as [_ ?].
Qed.

Lemma run_event_ok st ev : watch_ok st -> event_ok st ev ->
  wp (run_event ev) st (fun _ st' => watch_ok st' /\ match ev with Update _ _ => True | _ => e_oom st = [] -> no_more st st' end).
Proof.
  intros Hok Hev. destruct ev as [data socks|s|ms|c events|c|c|]; cbn [run_event event_ok] in *.
  - rewrite wp_bind. eapply wp_mono; [apply singlesocket_ok; [done|apply Hev]|]. intros r st' Hok'. by rewrite wp_ret.
  - unfold Curl_multi_closed. rewrite wp_bind. apply sh_getentry_wp; [done|]. destruct (e_sockhash st !! s) as [e|] eqn:He; [|by rewrite wp_ret].
    destruct (decide (e_oom st = [])) as [Ho|]; [|eapply wp_mono; [by apply forget_ok|]; by intros [] st' [? _]].
    eapply wp_mono; [by apply forget_no_more|]. by intros [] st' [? ?].
  - unfold CurlTimeoutCallback. destruct (ms =? -1); rewrite wp_bind, wp_bind, wp_modify, !wp_ret; (split; [by apply timer_ok|done]).
  - destruct Hev as (Hev & _). destruct (active_open st c Hok Hev) as (s & e & Hc & _). unfold uv__poll_io, CurlSocketActivity.
    rewrite wp_bind. eapply wp_get_cctx; [exact Hc|]. unfold curl_multi_socket_action. rewrite wp_modify. split; [by apply action_ok|done].
  - destruct (active_open st c Hok Hev) as (s & e & Hc & He & Hp). unfold uv__poll_io. rewrite wp_bind.
    eapply wp_get_handle; [exact Hc|reflexivity|]. rewrite wp_bind, wp_modify, wp_bind. eapply wp_io_stop; [exact Hc|reflexivity|]. cbn [io_fd].
    unfold CurlSocketActivity. rewrite wp_bind. eapply wp_get_cctx; [cbn; apply lookup_insert_eq|]. unfold curl_multi_socket_action. rewrite wp_modify.
    split; [|done]. apply action_ok. by eapply (failed_ok st s e c).
  - destruct (closing_is st c Hok Hev) as [s Hc]. eapply wp_mono; [by eapply OnClosed_ok|]. by intros [] st' [? ->].
  - unfold PerformRequests, curl_multi_socket_action. rewrite wp_bind, wp_modify, wp_modify. split; [by apply action_ok, timer_ok|done].
Qed.

Lemma reached_ok oom st : reached oom st -> watch_ok st.
Proof.
  induction 1 as [|st ev st' _ IH Hev E]; [apply watch_init|]. pose proof (run_event_ok st ev IH Hev) as H. unfold wp in H. rewrite E in H. apply H.
Qed.

(** The events for which libuv watches a socket. *)
Definition polled (st : estate) (s : Z) : Z := match e_watchers st !! s with Some a => handle_events st a | None => 0 end.

Lemma polled_open st s a ev : watch_ok st -> e_contexts st !! a = Some (open_ctx s ev) -> polled st s = ev.
Proof.
  intros Hok Hc. unfold polled. destruct (e_watchers st !! s) as [b|] eqn:Hw.
  - destruct (wo_context _ Hok a _ Hc) as [[? E]|(s' & ev' & e & [-> ->]%open_inj & He & Hp)]; [by apply open_closing in E|].
    destruct (watcher_is st s' e Hok He) as [?|(b' & Hb & Hw')]; [congruence|]. simplify_eq. unfold handle_events. by rewrite Hc.
  - destruct (decide (ev = 0)) as [->|Hne]; [done|]. assert (H : e_watchers st !! s = Some a) by (apply (wo_watchers _ Hok); by exists ev). congruence.
Qed.
Lemma polled_action st s e : watch_ok st -> e_sockhash st !! s = Some e -> sh_action e <> 0 ->
  polled st s = sh_action e \/ polled st s = 0 /\ s ∈ e_failed st.
Proof.
  intros Hok He Ha. destruct (wo_entry _ Hok s e He) as (_ & _ & Hp). destruct (sh_socketp e) as [a|]; [|done].
  destruct Hp as (ev & Hc & _ & Hf & Hev). rewrite (polled_open st s a ev Hok Hc). destruct (decide (ev = 0)) as [->|]; [right|left]; auto.
Qed.

(* ------------------------------------------------------------------ *)
(** ** Nothing a transfer waits for is missed *)

(** What a transfer waits for on a socket, as a function. *)
Definition wants (m : gmap easy (list (Z * Z))) (d : easy) (s : Z) : option Z := find_socket s (default [] (m !! d)).
Definition rewant (w : easy -> Z -> option Z) (d : easy) (s : Z) (v : option Z) : easy -> Z -> option Z :=
  fun d' s' => if decide (d' = d /\ s' = s) then v else w d' s'.

(** Counting transfers. *)
Definition uses (v : option Z) : bool := bool_decide (is_Some v).
Definition reads_ (v : option Z) : bool := match v with Some a => bit a CURL_POLL_IN | None => false end.
Definition writes_ (v : option Z) : bool := match v with Some a => bit a CURL_POLL_OUT | None => false end.
Definition tally (f : option Z -> bool) (w : easy -> Z -> option Z) (X : gset easy) (s : Z) : Z :=
  Z.of_nat (size (filter (fun d => f (w d s) = true) X)).
Definition tallies (w : easy -> Z -> option Z) (X : gset easy) (s : Z) : Z * Z * Z :=
  (tally uses w X s, tally reads_ w X s, tally writes_ w X s).
Definition one (b : bool) : Z := if b then 1 else 0.

Lemma tally_split f w X d s : d ∈ X -> tally f w X s = tally f w (X ∖ {[d]}) s + one (f (w d s)).
Proof.
  intros Hd. unfold tally.
  assert (E : filter (fun d => f (w d s) = true) X = (if f (w d s) then {[d]} else ∅) ∪ filter (fun d => f (w d s) = true) (X ∖ {[d]})).
  { apply set_eq. intros x. rewrite elem_of_union, !elem_of_filter. destruct (decide (x = d)) as [->|]; destruct (f (w d s)) eqn:Ef; set_solver. }
  rewrite E, size_union; [|destruct (f (w d s)); set_solver]. destruct (f (w d s)); cbn [one]; rewrite ?size_singleton, ?size_empty; lia.
Qed.
Lemma tally_rewant f w X d s v : d ∈ X -> tally f (rewant w d s v) X s = tally f w X s - one (f (w d s)) + one (f v).
Proof.
  intros Hd. rewrite (tally_split f w X d s Hd), (tally_split f (rewant w d s v) X d s Hd). unfold rewant at 2. rewrite decide_True by done.
  assert (E : tally f (rewant w d s v) (X ∖ {[d]}) s = tally f w (X ∖ {[d]}) s); [|lia].
  unfold tally. do 2 f_equal. apply set_eq. intros x. rewrite !elem_of_filter. unfold rewant. split; intros [Hf Hx]; (split; [|done]).
  - rewrite decide_False in Hf by set_solver. done.
  - by rewrite decide_False by set_solver.
Qed.
Lemma tally_other f w X d s v s' : s' <> s -> tally f (rewant w d s v) X s' = tally f w X s'.
Proof.
  intros Hne. unfold tally. do 2 f_equal. apply set_eq. intros x. rewrite !elem_of_filter. unfold rewant. by rewrite decide_False by naive_solver.
Qed.
Lemma tally_range f w X s : 0 <= tally f w X s <= Z.of_nat (size X).
Proof. unfold tally. assert (size (filter (fun d => f (w d s) = true) X) <= size X)%nat by (apply subseteq_size; set_solver). lia. Qed.
Lemma tally_pos f w X d s : d ∈ X -> f (w d s) = true -> 1 <= tally f w X s.
Proof. intros Hd Hf. rewrite (tally_split f w X d s Hd), Hf. pose proof (tally_range f w (X ∖ {[d]}) s). cbn [one]. lia. Qed.
Lemma tally_alone f w X d s v : d ∈ X -> f None = false -> (forall d', d' ∈ X -> d' <> d -> w d' s = None) ->
  tally f (rewant w d s v) X s = one (f v).
Proof.
  intros Hd Hn Hw. rewrite (tally_split _ _ X d s Hd). unfold rewant at 2. rewrite decide_True by done.
  assert (E : tally f (rewant w d s v) (X ∖ {[d]}) s = 0); [|lia]. unfold tally. rewrite (proj2 (size_empty_iff _)); [done|].
  intros x. split; [|set_solver]. rewrite elem_of_filter. intros [Hf Hx]. unfold rewant in Hf.
  rewrite decide_False, Hw in Hf by set_solver. congruence.
Qed.

(** The counts of every entry are those of the transfers, and its action has
    all that they wait for. *)
Definition covers (e : Curl_sh_entry) : Prop :=
  (sh_readers e <> 0 -> bit (sh_action e) CURL_POLL_IN = true) /\ (sh_writers e <> 0 -> bit (sh_action e) CURL_POLL_OUT = true).
Definition exact_counts (st : estate) (w : easy -> Z -> option Z) (X : gset easy) : Prop :=
  forall s e, e_sockhash st !! s = Some e -> counts e = tallies w X s /\ covers e.

Lemma combo_covers e : sh_action e = comboaction e -> covers e.
Proof.
  intros E. unfold covers. rewrite E. unfold comboaction. split; intros Hn; rewrite (proj2 (Z.eqb_neq _ 0) Hn); cbn [negb];
    [by destruct (negb (sh_writers e =? 0))|by destruct (negb (sh_readers e =? 0))].
Qed.

Section counting.
Context (X : gset easy) (data : easy) (Hdata : data ∈ X) (HX : Z.of_nat (size X) < 2 ^ 32).

Lemma more_less f w s v (n : Z) : n = tally f w X s ->
  more (f v) (less (f (w data s)) n) = tally f (rewant w data s v) X s.
Proof using Hdata HX.
  intros ->. rewrite (tally_rewant f w X data s v Hdata). pose proof (tally_range f (rewant w data s v) X s) as Hr'.
  rewrite (tally_rewant f w X data s v Hdata) in Hr'. pose proof (tally_range f w X s) as Hr. unfold more, less, uint32.
  destruct (f (w data s)) eqn:E; [pose proof (tally_pos f w X data s Hdata E)|]; destruct (f v); cbn [one] in *;
    rewrite ?Z.mod_small; rewrite ?Z.mod_small; lia.
Qed.

(** A transfer joins, changes or leaves a socket. *)
Lemma joined_counts w s action before e : counts e = tallies w X s -> w data s = before ->
  counts (joined before action e) = tallies (rewant w data s (Some action)) X s.
Proof using Hdata HX.
  intros Hc Hb. injection Hc as Hu Hr Hw. unfold tallies, counts.
  assert (Hsame : forall f, f (w data s) = f (Some action) -> tally f (rewant w data s (Some action)) X s = tally f w X s)
    by (intros f Hf; rewrite (tally_rewant f w X data s (Some action) Hdata), Hf; lia).
  destruct before as [prev|]; cbn [joined]; [destruct (Z.eqb_spec prev action) as [->|Hne]; cbn [negb]|].
  - rewrite !Hsame by (by rewrite Hb). by rewrite Hu, Hr, Hw.
  - cbn. rewrite (Hsame uses) by (by rewrite Hb). rewrite <- (more_less reads_ w s (Some action) _ Hr), <- (more_less writes_ w s (Some action) _ Hw), Hb, Hu. done.
  - cbn. rewrite <- (more_less uses w s (Some action) _ Hu), <- (more_less reads_ w s (Some action) _ Hr), <- (more_less writes_ w s (Some action) _ Hw), Hb. done.
Qed.
Lemma alone_counts w s action : (forall d, d ∈ X -> d <> data -> w d s = None) ->
  counts (joined None action empty_entry) = tallies (rewant w data s (Some action)) X s.
Proof using Hdata.
  intros Hw. unfold tallies. rewrite !(tally_alone _ w X data s (Some action) Hdata) by done. unfold joined, counts, new_user. cbn.
  unfold more, uint32. by destruct (bit action CURL_POLL_IN), (bit action CURL_POLL_OUT).
Qed.
Lemma drop_counts w s oa e : counts e = tallies w X s -> w data s = Some oa -> counts (drop_user oa e) = tallies (rewant w data s None) X s.
Proof using Hdata HX.
  intros Hc Hb. injection Hc as Hu Hr Hw. unfold tallies, counts. cbn.
  rewrite <- (more_less uses w s None _ Hu), <- (more_less reads_ w s None _ Hr), <- (more_less writes_ w s None _ Hw), Hb. done.
Qed.

(** *** The loops *)

Definition over (w : easy -> Z -> option Z) (socks : list (Z * Z)) : easy -> Z -> option Z :=
  foldl (fun w sa => rewant w data sa.1 (Some sa.2)) w socks.
Definition without (socks : list (Z * Z)) (w : easy -> Z -> option Z) (old : list (Z * Z)) : easy -> Z -> option Z :=
  foldl (fun w sa => if bool_decide (is_Some (find_socket sa.1 socks)) then w else rewant w data sa.1 None) w old.

Lemma supervise_exact old socks : socks_ok socks -> NoDup (map fst socks) -> forall st w, watch_ok st -> e_oom st = [] -> exact_counts st w X ->
  (forall s, s ∈ map fst socks -> w data s = find_socket s old) ->
  (forall s, s ∈ map fst socks -> e_sockhash st !! s = None -> forall d, d ∈ X -> d <> data -> w d s = None) ->
  wp (supervise data old socks) st (fun r st' => r = CURLM_OK /\ watch_ok st' /\ rest st st' /\ exact_counts st' (over w socks) X).
Proof using Hdata HX.
  induction 1 as [|[s action] socks [Hs Ha] Hsocks IH]; intros Hnd st w Hok Ho Hex Hw Hnew; [cbn [supervise]; by rewrite wp_ret|].
  cbn [map fst] in *. apply NoDup_cons in Hnd as [Hns Hnd]. apply supervise_one; [done..| |by intros].
  intros st1 e1 (Hok1 & Hr1 & Hh1) Hcnt Hact. pose proof Hr1 as (Ho1 & _).
  assert (Hcnt1 : counts e1 = tallies (rewant w data s (Some action)) X s).
  { rewrite Hcnt. unfold prev_action, entry_of. destruct (e_sockhash st !! s) as [e0|] eqn:He; cbn [default].
    - apply joined_counts; [by apply Hex|]. apply Hw. by left.
    - apply alone_counts. apply Hnew; [by left|done]. }
  eapply wp_mono; [apply (IH Hnd st1 (rewant w data s (Some action)) Hok1 (Ho1 Ho))|].
  - intros s' e' He'. rewrite Hh1 in He'. apply lookup_insert_Some in He' as [(<- & <-)|(Hne & He')]; [split; [done|by apply combo_covers]|].
    destruct (Hex s' e' He') as [Hc Hcov]. split; [|done]. rewrite Hc. unfold tallies. by rewrite !tally_other by done.
  - intros s' Hin. unfold rewant. rewrite decide_False by (intros [_ ->]; by apply Hns). apply Hw. by right.
  - intros s' Hin Hn d Hd Hne. unfold rewant. rewrite decide_False by naive_solver. apply Hnew; [by right| |done..].
    rewrite Hh1 in Hn. by apply lookup_insert_None in Hn as [? _].
  - intros r st2 (-> & Hok2 & Hr2 & Hex2). split_and!; try done. by eapply rest_trans.
Qed.

Lemma release_exact socks old : NoDup (map fst old) -> forall st w, watch_ok st -> exact_counts st w X ->
  (forall s a, (s, a) ∈ old -> find_socket s socks = None -> w data s = Some a) ->
  wp (release_old data socks old) st (fun _ st' => watch_ok st' /\ rest st st' /\ exact_counts st' (without socks w old) X).
Proof using Hdata HX.
  induction old as [|[s oa] old IH]; intros Hnd st w Hok Hex Hw; [cbn [release_old]; by rewrite wp_ret|].
  cbn [map fst] in Hnd. apply NoDup_cons in Hnd as [Hns Hnd].
  assert (Hgo : forall st1, watch_ok st1 -> rest st st1 -> exact_counts st1 (if bool_decide (is_Some (find_socket s socks)) then w else rewant w data s None) X ->
    wp (release_old data socks old) st1 (fun _ st' => watch_ok st' /\ rest st st' /\ exact_counts st' (without socks w ((s, oa) :: old)) X)).
  { intros st1 Hok1 Hr1 Hex1. eapply wp_mono; [apply (IH Hnd st1 _ Hok1 Hex1)|].
    - intros s' a Hin Hf. case_bool_decide; [apply Hw; [by right|done]|]. unfold rewant. rewrite decide_False; [apply Hw; [by right|done]|].
      intros [_ ->]. apply Hns. apply list_elem_of_fmap. by exists (s, a).
    - intros [] st2 (Hok2 & Hr2 & Hex2). split_and!; try done. by eapply rest_trans. }
  assert (Hother : forall s' e, s' <> s -> e_sockhash st !! s' = Some e -> counts e = tallies (rewant w data s None) X s' /\ covers e).
  { intros s' e Hne He. destruct (Hex s' e He) as [Hc Hcov]. split; [|done]. rewrite Hc. unfold tallies. by rewrite !tally_other by done. }
  apply release_one; [done| |].
  - intros Hskip. apply Hgo; [done..|]. case_bool_decide as Hin; [done|]. destruct Hskip as [?|Hn]; [done|].
    intros s' e He. apply Hother; [|done]. intros ->. congruence.
  - intros e st1 Hf He Hok1 Hr1 Hh1. apply Hgo; [done..|]. rewrite bool_decide_false by (rewrite Hf; by intros []).
    destruct (Hex s e He) as [Hc [Hin Hout]]. pose proof (drop_counts w s oa e Hc ltac:(by apply Hw; [left|])) as Hdrop.
    destruct (sh_users (drop_user oa e) =? 0).
    + intros s' x Hx. rewrite Hh1 in Hx. apply lookup_delete_Some in Hx as [Hne Hx]. by apply Hother.
    + destruct Hh1 as (e1 & Hh1 & Hc1 & Ha1). intros s' x Hx. rewrite Hh1 in Hx. apply lookup_insert_Some in Hx as [(<- & <-)|(Hne & Hx)]; [|by apply Hother].
      split; [by rewrite Hc1|]. rewrite Hdrop in Hc1. unfold counts in Hc, Hc1. unfold tallies in Hc, Hc1.
      rewrite !(tally_rewant _ w X data s None Hdata) in Hc1. injection Hc as _ Hr Hwr. injection Hc1 as _ Hr' Hwr'.
      unfold covers. rewrite Ha1, Hr', Hwr', <- Hr, <- Hwr. pose proof (tally_range reads_ w X s). pose proof (tally_range writes_ w X s).
      pose proof (tally_rewant reads_ w X data s None Hdata) as E1. pose proof (tally_range reads_ (rewant w data s None) X s).
      pose proof (tally_rewant writes_ w X data s None Hdata) as E2. pose proof (tally_range writes_ (rewant w data s None) X s).
      unfold one in *. cbn [reads_ writes_] in *. split; intros Hn; [apply Hin|apply Hout]; intros E; rewrite E in *;
        destruct (reads_ (w data s)), (writes_ (w data s)); lia.
Qed.
End counting.

Lemma over_spec data w socks d s : NoDup (map fst socks) ->
  over data w socks d s = if decide (d = data) then match find_socket s socks with Some a => Some a | None => w d s end else w d s.
Proof.
  revert w. induction socks as [|[s1 a1] socks IH]; intros w Hnd; cbn; [by case_decide|]. cbn in Hnd. apply NoDup_cons in Hnd as [Hn Hnd].
  change (foldl _ _ socks) with (over data (rewant w data s1 (Some a1)) socks). rewrite IH by done. unfold rewant.
  destruct (decide (d = data)) as [->|]; [|by rewrite decide_False by naive_solver].
  destruct (Z.eqb_spec s s1) as [->|Hne]; [|by rewrite decide_False by naive_solver]. rewrite decide_True by done.
  destruct (find_socket s1 socks) as [a|] eqn:E; [|done]. destruct Hn. clear -E. induction socks as [|[s2 a2] socks IH]; [done|]. cbn in *.
  destruct (Z.eqb_spec s1 s2) as [->|]; [by left|right; by apply IH].
Qed.
Lemma find_socket_elem s socks : is_Some (find_socket s socks) <-> s ∈ map fst socks.
Proof.
  induction socks as [|[s' a] socks IH]; cbn; [split; [by intros []|by intros ?%elem_of_nil]|]. rewrite elem_of_cons.
  destruct (Z.eqb_spec s s') as [->|]; [split; [by left|done]|]. rewrite IH. naive_solver.
Qed.
Lemma find_socket_in s a socks : NoDup (map fst socks) -> (s, a) ∈ socks -> find_socket s socks = Some a.
Proof.
  induction socks as [|[s' a'] socks IH]; [by intros _ ?%elem_of_nil|]. cbn. intros [Hn Hnd]%NoDup_cons [[= -> ->]|Hin]%elem_of_cons; [by rewrite Z.eqb_refl|].
  destruct (Z.eqb_spec s s') as [->|]; [|by apply IH]. destruct Hn. apply list_elem_of_fmap. by exists (s', a).
Qed.
Lemma without_spec data socks w old d s :
  without data socks w old d s = if decide (d = data /\ s ∈ map fst old /\ find_socket s socks = None) then None else w d s.
Proof.
  revert w. induction old as [|[s1 a1] old IH]; intros w; cbn; [rewrite decide_False; [done|]; intros (_ & ?%elem_of_nil & _); done|].
  change (foldl _ ?x old) with (without data socks x old). rewrite IH. case_decide as H1; [rewrite decide_True; [done|]; destruct H1 as (? & ? & ?); split_and!; [done|by right|done]|].
  case_bool_decide as Hin; unfold rewant.
  - case_decide as H2; [|done]. destruct H2 as (-> & [->|?]%elem_of_cons & E); [rewrite E in Hin; by destruct Hin|]. by destruct H1.
  - assert (E : find_socket s1 socks = None) by (destruct (find_socket s1 socks); [by destruct Hin|done]).
    case_decide as H2; [destruct H2 as [-> ->]; rewrite decide_True; [done|]; split_and!; [done|by left|done]|].
    rewrite decide_False; [done|]. intros (-> & [->|?]%elem_of_cons & ?); [by destruct H2|by destruct H1].
Qed.

(** *** Orderly histories *)

(** libcurl gives the sockets of a transfer once each, and puts a descriptor
    into use again only when no other transfer lists it from before it was
    closed; there are fewer than 2^32 transfers. *)
Definition orderly (st : estate) (ev : event) : Prop :=
  match ev with
  | Update data socks => NoDup (map fst socks) /\ Z.of_nat (size (e_easies st)) + 1 < 2 ^ 32 /\
      forall s d, s ∈ map fst socks -> e_sockhash st !! s = None -> d <> data -> wants (e_easies st) d s = None
  | _ => True
  end.
Inductive orderly_reached : estate -> Prop :=
| orderly_init : orderly_reached (estate_init [])
| orderly_event st ev st' : orderly_reached st -> event_ok st ev -> orderly st ev -> run_event ev st = inr (tt, st') -> orderly_reached st'.

Record orderly_ok (st : estate) : Prop := {
  or_watch : watch_ok st;
  or_oom : e_oom st = [];
  or_lists : forall d l, e_easies st !! d = Some l -> NoDup (map fst l);
  or_exact : exact_counts st (wants (e_easies st)) (dom (e_easies st))
}.

Lemma tallies_ext w X w' X' s :
  (forall d f, f None = false -> (d ∈ X /\ f (w d s) = true) <-> (d ∈ X' /\ f (w' d s) = true)) -> tallies w X s = tallies w' X' s.
Proof.
  intros H. assert (E : forall f, f None = false -> tally f w X s = tally f w' X' s).
  { intros f Hf. unfold tally. do 2 f_equal. apply set_eq. intros d. rewrite !elem_of_filter. specialize (H d f Hf). tauto. }
  unfold tallies. by rewrite !E.
Qed.

Lemma update_orderly st data socks : orderly_ok st -> event_ok st (Update data socks) -> orderly st (Update data socks) ->
  wp (run_event (Update data socks)) st (fun _ st' => orderly_ok st').
Proof.
  intros [Hok Ho Hl Hex] [_ Hs] (Hnd & Hsize & Hnew). set (X := dom (e_easies st) ∪ {[data]}). set (old := default [] (e_easies st !! data)).
  assert (Hdata : data ∈ X) by set_solver.
  assert (HX : Z.of_nat (size X) < 2 ^ 32).
  { assert (size X <= size (dom (e_easies st)) + 1)%nat; [|rewrite size_dom in *; lia]. unfold X. rewrite size_union_alt.
    pose proof (subseteq_size ({[data]} ∖ dom (e_easies st)) {[data]} ltac:(set_solver)) as H. rewrite size_singleton in H. lia. }
  assert (Hold : NoDup (map fst old)) by (unfold old; destruct (e_easies st !! data) eqn:E; [by eapply Hl|constructor]).
  assert (HexX : exact_counts st (wants (e_easies st)) X).
  { intros s e He. destruct (Hex s e He) as [Hc Hcov]. split; [|done]. rewrite Hc. apply tallies_ext. intros d f Hf. unfold X. rewrite elem_of_union, elem_of_singleton.
    split; [intros []; auto|]. intros [[?| ->] Hd]; [done|]. destruct (decide (data ∈ dom (e_easies st))) as [?|Hn]; [done|].
    apply not_elem_of_dom in Hn. unfold wants in Hd. rewrite Hn in Hd. cbn in Hd. congruence. }
  cbn [run_event]. rewrite wp_bind. unfold singlesocket. rewrite wp_bind, wp_gets, wp_bind. fold old.
  eapply wp_mono; [apply (supervise_exact X data Hdata HX old socks Hs Hnd st (wants (e_easies st)) Hok Ho HexX)|].
  { intros s _. done. }
  { intros s Hin Hn d _ Hne. by apply Hnew. }
  intros r st1 (-> & Hok1 & Hr1 & Hex1). cbn [Z.eqb negb]. change (CURLM_OK =? CURLM_OK) with true. cbn [negb]. rewrite wp_bind.
  eapply wp_mono; [apply (release_exact X data Hdata HX socks old Hold st1 _ Hok1 Hex1)|].
  { intros s a Hin Hf. rewrite over_spec by done. rewrite decide_True, Hf by done. by apply find_socket_in. }
  intros [] st2 (Hok2 & Hr2 & Hex2). rewrite wp_bind, wp_modify, !wp_ret. destruct (rest_trans _ _ _ Hr1 Hr2) as (Ho2 & He2 & _). split.
  - by apply easies_ok.
  - by apply Ho2.
  - cbn. intros d l [(<- & <-)|(_ & Hd)]%lookup_insert_Some; [done|by eapply Hl].
  - intros s e He. destruct (Hex2 s e He) as [Hc Hcov]. split; [|done]. rewrite Hc. apply tallies_ext. intros d f Hf. cbn [e_easies set_easies].
    rewrite dom_insert_L, (union_comm_L {[data]}). fold X. rewrite without_spec, over_spec by done. unfold wants. destruct (decide (d = data)) as [->|Hne].
    + rewrite lookup_insert_eq. change (default [] (Some socks)) with socks. destruct (find_socket s socks) as [a|] eqn:E; [rewrite decide_False; [done|]; intros (_ & _ & ?); congruence|].
      case_decide as Hd; [done|]. fold old. destruct (find_socket s old) as [a|] eqn:Eo; [|done]. destruct Hd. split_and!; try done. by apply find_socket_elem; exists a.
    + rewrite decide_False by naive_solver. by rewrite lookup_insert_ne by done.
Qed.

Lemma orderly_reached_ok st : orderly_reached st -> orderly_ok st.
Proof.
  induction 1 as [|st ev st' _ IH Hev Hord E].
  - split; [apply watch_init|done|intros d l Hd; cbn in Hd; by rewrite lookup_empty in Hd|intros s e He; cbn in He; by rewrite lookup_empty in He].
  - pose proof (run_event_ok st ev (or_watch _ IH) Hev) as Hrun. assert (Hcase : (exists data socks, ev = Update data socks) \/ ~ (exists data socks, ev = Update data socks))
      by (destruct ev; [by left; eauto|right; intros (? & ? & [=])..]).
    destruct Hcase as [(data & socks & ->)|Hno].
    + pose proof (update_orderly st data socks IH Hev Hord) as H. unfold wp in H. by rewrite E in H.
    + unfold wp in Hrun. rewrite E in Hrun. destruct Hrun as [Hok' Hmore]. destruct IH as [Hok Ho Hl Hex].
      assert (Hn : no_more st st') by (destruct ev; [by destruct Hno; eauto|by apply Hmore..]). destruct Hn as (He & Ho' & Hh).
      split; [done|by rewrite Ho'|by rewrite He|]. intros s x Hx. rewrite He. by apply Hex, Hh.
Qed.

(* ------------------------------------------------------------------ *)
(** ** The theorems *)

(** C8. The event loop's sockets are safe: whatever sockets libcurl asks for and
    closes, whichever of its allocations fail and whatever libuv reports, the
    next event runs without using a deleted context or a closing handle and
    without failing an assertion of libuv; a socket in libcurl's table is
    watched by libuv for exactly the action stored there (or libuv reported an
    error on it), every other socket is not watched, and each context belongs
    to an entry of the table or is about to be deleted. *)
Theorem sockets_watched oom st : reached oom st ->
  (forall ev, event_ok st ev -> exists st', run_event ev st = inr (tt, st')) /\
  (forall s e, e_sockhash st !! s = Some e -> sh_action e <> 0 -> polled st s = sh_action e \/ polled st s = 0 /\ s ∈ e_failed st) /\
  (forall s, e_sockhash st !! s = None -> polled st s = 0) /\
  (forall a c, e_contexts st !! a = Some c ->
     is_closing st a = true \/ exists s e, cc_socket c = s /\ e_sockhash st !! s = Some e /\ sh_socketp e = Some a).
Proof.
  intros Hok%reached_ok. split_and!.
  - intros ev Hev. destruct (wp_inv _ _ _ (run_event_ok st ev Hok Hev)) as ([] & st' & E & _). by exists st'.
  - intros s e. by apply polled_action.
  - intros s Hn. unfold polled. destruct (e_watchers st !! s) as [a|] eqn:Hw; [|done]. apply (wo_watchers _ Hok) in Hw as (ev & Hc & _).
    destruct (wo_context _ Hok a _ Hc) as [[? E]|(s' & ev' & e & [-> ->]%open_inj & He & _)]; [by apply open_closing in E|congruence].
  - intros a c Hc. unfold is_closing. rewrite Hc. destruct (wo_context _ Hok a c Hc) as [[s ->]|(s & ev & e & -> & He & Hp)]; [by left|right]. by exists s, e.
Qed.

(** Two transfers on one socket, one that leaves, and a close. *)
Definition two_transfers : list event := [Update 1 [(7, 3)]; Update 2 [(7, 1); (9, 2)]; Update 1 []; Closed 9].
Definition replay (evs : list event) : EM unit := iterM run_event evs.
Definition after_events (evs : list event) : estate := match replay evs (estate_init []) with inr (_, st) => st | inl _ => estate_init [] end.

Definition orderly_check (st : estate) (ev : event) : bool :=
  match ev with
  | Update data socks => bool_decide (NoDup (map fst socks)) && (Z.of_nat (size (e_easies st)) + 1 <? 2 ^ 32) &&
      bool_decide (Forall (fun s => is_Some (e_sockhash st !! s) \/ map_Forall (fun d l => d = data \/ find_socket s l = None) (e_easies st)) (map fst socks))
  | _ => true
  end.
Lemma orderly_checked st ev : orderly_check st ev = true -> orderly st ev.
Proof.
  destruct ev as [data socks| | | | | |]; try done. cbn. rewrite !andb_true_iff, !bool_decide_eq_true, Z.ltb_lt. intros [[H1 H2] H3]. split_and!; [done|lia|].
  intros s d Hin Hn Hne. rewrite Forall_forall in H3. destruct (H3 s Hin) as [[e He]|Hall]; [congruence|]. unfold wants.
  destruct (e_easies st !! d) as [l|] eqn:Hd; [|done]. destruct (Hall d l Hd); done.
Qed.
Fixpoint all_orderly (evs : list event) (st : estate) : bool :=
  match evs with
  | [] => true
  | ev :: evs' => orderly_check st ev && match run_event ev st with inr (_, st') => all_orderly evs' st' | inl _ => false end
  end.
Lemma replay_orderly evs : Forall (fun ev => forall st, event_ok st ev) evs -> forall st st', orderly_reached st -> all_orderly evs st = true ->
  replay evs st = inr (tt, st') -> orderly_reached st'.
Proof.
  induction 1 as [|ev evs Hev Hevs IH]; intros st st' Hst Hall E; [by injection E as <-|]. unfold replay in E. cbn [iterM] in E. unfold bind in E.
  cbn [all_orderly] in Hall. destruct (run_event ev st) as [|[[] st1]] eqn:E1; [done|]. apply andb_true_iff in Hall as [Hord Hall].
  apply (IH st1 st'); [|done..]. eapply (orderly_event st ev); [done|done|by apply orderly_checked|done].
Qed.
Lemma orderly_reaches st : orderly_reached st -> reached [] st.
Proof. induction 1 as [|st ev st' _ IH Hev _ E]; [constructor|by eapply reached_event]. Qed.
Lemma two_transfers_run : orderly_reached (after_events two_transfers).
Proof.
  apply (replay_orderly two_transfers) with (estate_init []); [|constructor|vm_compute; reflexivity|vm_compute; reflexivity].
  unfold two_transfers. repeat constructor; cbn; lia.
Qed.

Lemma sockets_watched_witness :
  (forall ev, event_ok (after_events two_transfers) ev -> exists st', run_event ev (after_events two_transfers) = inr (tt, st')) /\
  polled (after_events two_transfers) 7 = 3 /\ polled (after_events two_transfers) 9 = 0 /\ is_closing (after_events two_transfers) 2 = true.
Proof.
  split; [|vm_compute; auto]. apply (sockets_watched []), orderly_reaches, two_transfers_run.
Defined.

(** C9. No wake-up is lost: in an orderly history with an allocator that does not
    fail, every event (reading or writing) that some transfer waits for on a
    socket of libcurl's table is watched for by libuv, whichever transfers share
    the socket and whichever have joined or left it, unless libuv reported an
    error on the socket. *)
Theorem waits_are_watched st d s a e : orderly_reached st -> (s, a) ∈ default [] (e_easies st !! d) -> e_sockhash st !! s = Some e ->
  s ∈ e_failed st \/
  (bit a CURL_POLL_IN = true -> bit (polled st s) UV_READABLE = true) /\ (bit a CURL_POLL_OUT = true -> bit (polled st s) UV_WRITABLE = true).
Proof.
  intros [Hok Ho Hl Hex]%orderly_reached_ok Hin He. destruct (e_easies st !! d) as [l|] eqn:Hd; [|by apply elem_of_nil in Hin].
  assert (Hw : wants (e_easies st) d s = Some a) by (unfold wants; rewrite Hd; by apply find_socket_in; [eapply Hl|]).
  assert (HdX : d ∈ dom (e_easies st)) by (by eapply elem_of_dom_2). destruct (Hex s e He) as [Hc [Hcin Hcout]]. injection Hc as _ Hr Hwr.
  assert (Hpos : forall f, f (Some a) = true -> tally f (wants (e_easies st)) (dom (e_easies st)) s <> 0)
    by (intros f Hf; pose proof (tally_pos f (wants (e_easies st)) _ d s HdX ltac:(by rewrite Hw)); lia).
  assert (Hact : forall b, bit (sh_action e) b = true -> s ∈ e_failed st \/ bit (polled st s) b = true).
  { intros b Hb. destruct (polled_action st s e Hok He) as [->|[_ ?]]; [intros E; by rewrite E in Hb|by right|by left]. }
  destruct (decide (s ∈ e_failed st)) as [?|Hnf]; [by left|right]. split; intros Hb.
  - destruct (Hact CURL_POLL_IN); [apply Hcin; rewrite Hr; by apply Hpos|done|done].
  - destruct (Hact CURL_POLL_OUT); [apply Hcout; rewrite Hwr; by apply Hpos|done|done].
Qed.

Lemma waits_are_watched_witness :
  (7, 1) ∈ default [] (e_easies (after_events two_transfers) !! 2%positive) /\ bit (polled (after_events two_transfers) 7) UV_READABLE = true.
Proof.
  assert (Hin : (7, 1) ∈ default [] (e_easies (after_events two_transfers) !! 2%positive)) by (vm_compute; by left).
  assert (He : e_sockhash (after_events two_transfers) !! 7 = Some (entry_of (after_events two_transfers) 7)) by (vm_compute; reflexivity).
  assert (Hf : e_failed (after_events two_transfers) = []) by (vm_compute; reflexivity).
  split; [exact Hin|].
  destruct (waits_are_watched (after_events two_transfers) 2 7 1 (entry_of (after_events two_transfers) 7) two_transfers_run Hin He) as [Hfail|[Hi _]].
  - rewrite Hf in Hfail. by apply elem_of_nil in Hfail.
  - apply Hi. reflexivity.
Defined.
