(* ===== verification/Seed.v ===== *)
(** * The hash seed (jansson/src/hashtable_seed.c)

    The sources of entropy, and the first use of the seed by several threads
    at once, in the three ways that [json_object_seed] synchronises: with the
    [__atomic] builtins, with the [__sync] builtins and with the interlocked
    functions of Windows.  A thread is at a point of the function; a step is
    one access to the shared variables, in any order of the threads. *)

From S2P Require Import Prelude Utf8 Strbuffer Hashtable Value.

(* ------------------------------------------------------------------ *)
(** ** The sources of entropy *)

(** [buf_to_uint32]: the bytes of [data], most significant first. *)
Definition buf_to_uint32 (data : bytes) : Z :=
  fold_left (fun result c => Z.lor (uint32 (Z.shiftl result 8)) (c mod 256)) (take 4 data) 0.

(** What the operating system answers. *)
Record sources : Type := {
  so_urandom : option bytes;      (* [open], then the bytes of the one [read]; [None]: cannot be opened *)
  so_functions : list bool;       (* the module and the three functions of the Crypto API are found *)
  so_context : bool;              (* [CryptAcquireContext] succeeds *)
  so_random : option bytes;       (* the bytes of [CryptGenRandom] *)
  so_sec : Z;                     (* [gettimeofday], or [time] on Windows *)
  so_usec : Z;
  so_pid : Z;
}.

Definition seed_from_urandom (so : sources) : option Z :=
  match so_urandom so with
  | None => None
  | Some data => if Z.of_nat (length data) =? 4 then Some (buf_to_uint32 data) else None
  end.

Definition seed_from_windows_cryptoapi (so : sources) : option Z :=
  if negb (forallb id (so_functions so)) then None
  else if negb (so_context so) then None
  else buf_to_uint32 <$> so_random so.

Definition seed_from_timestamp_and_pid (windows : bool) (so : sources) : Z :=
  let seed := if windows then uint32 (so_sec so) else Z.lxor (uint32 (so_sec so)) (uint32 (so_usec so)) in
  Z.lxor seed (uint32 (so_pid so)).

(** The part of [generate_seed] before a zero is replaced. *)
Definition entropy (windows : bool) (so : sources) : Z :=
  match (if windows then seed_from_windows_cryptoapi so else seed_from_urandom so) with
  | Some seed => seed
  | None => seed_from_timestamp_and_pid windows so
  end.

(* ------------------------------------------------------------------ *)
(** ** Threads in [json_object_seed] *)

Inductive port : Type := AtomicBuiltins | SyncBuiltins | Windows.
#[export] Instance port_eq_dec : EqDecision port.
Proof. solve_decision. Defined.

(** The next access of a thread, with its [new_seed]. *)
Inductive point : Type :=
| PTest (new_seed : Z)      (* [if(hashtable_seed == 0)] *)
| PClaim (new_seed : Z)     (* test-and-set, or increment, of [seed_initialized] *)
| PSeed (new_seed : Z)      (* [if(new_seed == 0) new_seed = generate_seed()] *)
| PStore (new_seed : Z)     (* the store, or the compare-and-swap, of [hashtable_seed] *)
| PWait (new_seed : Z)      (* [while(hashtable_seed == 0)] *)
| PDone.

Record shared : Type := { hashtable_seed : Z; seed_initialized : Z }.

(** [long] of Windows has 32 bits. *)
Definition InterlockedIncrement (n : Z) : Z := int32 (n + 1).

Definition on_windows (p : port) : bool := match p with Windows => true | _ => false end.

Definition enter (seed : Z) : point := PTest (uint32 seed).

Definition thread_step (p : port) (so : sources) (pc : point) (m : shared) : point * shared :=
  match pc with
  | PTest new_seed =>
      (if hashtable_seed m =? 0
       then match p with SyncBuiltins => PSeed new_seed | _ => PClaim new_seed end
       else PDone, m)
  | PClaim new_seed =>
      match p with
      | Windows =>
          let n := InterlockedIncrement (seed_initialized m) in
          (if n =? 1 then PSeed new_seed else PWait new_seed,
           {| hashtable_seed := hashtable_seed m; seed_initialized := n |})
      | _ =>
          (if seed_initialized m =? 0 then PSeed new_seed else PWait new_seed,
           {| hashtable_seed := hashtable_seed m; seed_initialized := 1 |})
      end
  | PSeed new_seed =>
      (PStore (if new_seed =? 0 then generate_seed (entropy (on_windows p) so) else new_seed), m)
  | PStore new_seed =>
      match p with
      | SyncBuiltins =>
          if hashtable_seed m =? 0
          then (PDone, {| hashtable_seed := new_seed; seed_initialized := seed_initialized m |})
          else (PWait new_seed, m)
      | _ => (PDone, {| hashtable_seed := new_seed; seed_initialized := seed_initialized m |})
      end
  | PWait new_seed =>
      (if hashtable_seed m =? 0
       then match p with SyncBuiltins => PStore new_seed | _ => PWait new_seed end
       else PDone, m)
  | PDone => (PDone, m)
  end.

Record sys : Type := { threads : list point; mem : shared }.

(** Thread [i] makes a step; [so] is what the system answers if it asks. *)
Definition seed_step (p : port) (i : nat) (so : sources) (s : sys) : sys :=
  match threads s !! i with
  | None => s
  | Some pc =>
      let '(pc', m) := thread_step p so pc (mem s) in {| threads := <[i := pc']> (threads s); mem := m |}
  end.

(** An order of steps. *)
Definition schedule : Type := list (nat * sources).
Definition seed_run (p : port) (sch : schedule) (s : sys) : sys :=
  fold_left (fun s c => seed_step p c.1 c.2 s) sch s.

(** No thread has used the seed; each is about to call with its argument. *)
Definition seed_start (seeds : list Z) : sys :=
  {| threads := enter <$> seeds; mem := {| hashtable_seed := 0; seed_initialized := 0 |} |}.

(* ------------------------------------------------------------------ *)
(** ** The entropy fits the seed *)

Definition is_uint32 (v : Z) : Prop := 0 <= v < 2 ^ 32.

Lemma uint32_is_uint32 z : is_uint32 (uint32 z).
Proof. unfold is_uint32, uint32. apply Z.mod_pos_bound. lia. Qed.
Lemma generate_seed_range e : is_uint32 (generate_seed e) /\ generate_seed e <> 0.
Proof. unfold generate_seed. pose proof (uint32_is_uint32 e). destruct (Z.eqb_spec (uint32 e) 0); unfold is_uint32 in *; lia. Qed.

Lemma lor_shift x y : 0 <= y < 256 -> Z.lor (Z.shiftl x 8) y = x * 256 + y.
Proof.
  intros Hy. assert (Hland : Z.land (Z.shiftl x 8) y = 0).
  { apply Z.bits_inj'. intros n Hn. rewrite Z.land_spec, Z.bits_0, Z.shiftl_spec by done. destruct (Z_lt_le_dec n 8).
    - by rewrite Z.testbit_neg_r by lia.
    - rewrite <- (Z.mod_small y (2 ^ 8)) by done. rewrite Z.mod_pow2_bits_high by lia. apply andb_false_r. }
  rewrite <- (Z.lxor_lor _ _ Hland), <- (Z.add_nocarry_lxor _ _ Hland), Z.shiftl_mul_pow2 by lia. done.
Qed.

(** Four bytes are a number in big-endian order. *)
Lemma buf_to_uint32_value data : length data = 4%nat -> Forall (fun c => 0 <= c < 256) data ->
  buf_to_uint32 data = of_digits 256 data.
Proof.
  intros Hlen Hb. destruct data as [|a [|b [|c [|d [|? ?]]]]]; try discriminate. rewrite !Forall_cons in Hb. destruct Hb as (Ha & Hb & Hc & Hd & _).
  assert (Hor : forall x y, 0 <= x < 2 ^ 24 -> 0 <= y < 256 -> Z.lor (uint32 (Z.shiftl x 8)) (y mod 256) = x * 256 + y).
  { intros x y Hx Hy. rewrite (Z.mod_small y) by done. unfold uint32. rewrite Z.mod_small; [by apply lor_shift|].
    rewrite Z.shiftl_mul_pow2 by lia. lia. }
  unfold buf_to_uint32. cbn [take fold_left]. rewrite (Hor 0 a), (Hor (0 * 256 + a) b), (Hor _ c), (Hor _ d) by lia.
  rewrite !of_digits_cons. cbn [length of_digits fold_left]. lia.
Qed.

(* ------------------------------------------------------------------ *)
(** ** The invariant *)

Section invariant.
Context (p : port).

Definition seeds (pc : point) : Prop := match pc with PSeed _ | PStore _ => True | _ => False end.
Definition unclaimed (pc : point) : nat := match pc with PTest _ | PClaim _ => 1 | _ => 0 end.

(** What a thread at [pc] has and knows. *)
Definition point_ok (m : shared) (pc : point) : Prop :=
  match pc with
  | PTest v | PSeed v => is_uint32 v
  | PClaim v => is_uint32 v /\ p <> SyncBuiltins
  | PStore v => is_uint32 v /\ v <> 0
  | PWait v => if decide (p = SyncBuiltins) then hashtable_seed m <> 0 else seed_initialized m <> 0
  | PDone => hashtable_seed m <> 0
  end.

Record seed_inv (s : sys) : Prop := {
  si_range : is_uint32 (hashtable_seed (mem s));
  si_points : Forall (point_ok (mem s)) (threads s);
  (** The claims so far; one thread has the first. *)
  si_claims : 0 <= seed_initialized (mem s) /\
    seed_initialized (mem s) + Z.of_nat (sum_list_with unclaimed (threads s)) <= Z.of_nat (length (threads s));
  si_unclaimed : seed_initialized (mem s) = 0 -> p <> SyncBuiltins -> hashtable_seed (mem s) = 0;
  si_seeder : p <> SyncBuiltins -> seed_initialized (mem s) <> 0 -> hashtable_seed (mem s) = 0 ->
    exists i pc, threads s !! i = Some pc /\ seeds pc;
  si_seeding : p <> SyncBuiltins -> forall i pc, threads s !! i = Some pc -> seeds pc ->
    seed_initialized (mem s) <> 0 /\ hashtable_seed (mem s) = 0;
  si_alone : p <> SyncBuiltins -> forall i j pc pc', threads s !! i = Some pc -> threads s !! j = Some pc' ->
    seeds pc -> seeds pc' -> i = j;
}.

Lemma sum_insert ts i pc pc' : ts !! i = Some pc ->
  (sum_list_with unclaimed (<[i := pc']> ts) + unclaimed pc = sum_list_with unclaimed ts + unclaimed pc')%nat.
Proof.
  revert i. induction ts as [|q ts IH]; intros [|i] H; [done..| |].
  - injection H as ->. cbn. lia.
  - change (<[S i := pc']> (q :: ts)) with (q :: <[i := pc']> ts). cbn [sum_list_with]. specialize (IH i H). lia.
Qed.
Lemma lookup_after (ts : list point) i pc pc' j q : ts !! i = Some pc ->
  <[i := pc']> ts !! j = Some q -> (j = i /\ q = pc') \/ (j <> i /\ ts !! j = Some q).
Proof.
  intros Hi. destruct (decide (j = i)) as [->|Hne].
  - rewrite list_lookup_insert_eq by (by eapply lookup_lt_Some). intros [= <-]. by left.
  - rewrite list_lookup_insert_ne by done. by right.
Qed.
Lemma points_after m m' ts i pc' : Forall (point_ok m) ts -> point_ok m' pc' ->
  (hashtable_seed m <> 0 -> hashtable_seed m' <> 0) -> (seed_initialized m <> 0 -> seed_initialized m' <> 0) ->
  Forall (point_ok m') (<[i := pc']> ts).
Proof.
  intros Hts Hpc Hs Hi. apply Forall_insert; [|done]. eapply Forall_impl; [exact Hts|].
  intros [v|v|v|v|v|] H; cbn in *; try done; [|auto]. case_decide; auto.
Qed.

(** A step that changes no shared variable. *)
Lemma quiet_step s i pc pc' : seed_inv s -> threads s !! i = Some pc -> point_ok (mem s) pc' ->
  (unclaimed pc' <= unclaimed pc)%nat -> (p <> SyncBuiltins -> seeds pc' <-> seeds pc) ->
  seed_inv {| threads := <[i := pc']> (threads s); mem := mem s |}.
Proof.
  intros [Hr Hp [Hc1 Hc2] Hu Hs Hg Ha] Hi Hok Hle Hiff. pose proof (sum_insert _ _ _ pc' Hi) as Hsum.
  pose proof (fun j q => lookup_after _ i pc pc' j q Hi) as Hlk.
  split; cbn [threads mem]; rewrite ?length_insert; try done; [by apply (points_after (mem s))|lia|..].
  - intros Hn H1 H2. destruct (Hs Hn H1 H2) as (j & q & Hj & Hq). destruct (decide (j = i)) as [->|Hne].
    + exists i, pc'. rewrite list_lookup_insert_eq by (by eapply lookup_lt_Some). split; [done|]. apply Hiff; [done|]. congruence.
    + exists j, q. by rewrite list_lookup_insert_ne.
  - intros Hn j q Hj Hq. destruct (Hlk _ _ Hj) as [[-> ->]|[_ Hj']]; [|by eapply Hg]. eapply Hg; [done|exact Hi|by apply Hiff].
  - intros Hn j k q q' Hj Hk Hq Hq'. destruct (Hlk _ _ Hj) as [[-> ->]|[_ Hj']], (Hlk _ _ Hk) as [[-> ->]|[_ Hk']]; try done.
    + by eapply (Ha Hn); [exact Hi|exact Hk'|apply Hiff|].
    + by eapply (Ha Hn); [exact Hj'|exact Hi| |apply Hiff].
    + by eapply (Ha Hn).
Qed.

(** The claim of the right to seed. *)
Lemma claim_step s i v n : p <> SyncBuiltins -> seed_inv s -> threads s !! i = Some (PClaim v) -> 0 < n <= seed_initialized (mem s) + 1 ->
  seed_inv {| threads := <[i := if seed_initialized (mem s) =? 0 then PSeed v else PWait v]> (threads s);
              mem := {| hashtable_seed := hashtable_seed (mem s); seed_initialized := n |} |}.
Proof.
  intros Hport [Hr Hp [Hc1 Hc2] Hu Hs Hg Ha] Hi Hn. set (pc' := if _ =? 0 then _ else _). pose proof (sum_insert _ _ _ pc' Hi) as Hsum.
  pose proof (fun j q => lookup_after _ i _ pc' j q Hi) as Hlk. pose proof (Forall_lookup_1 _ _ _ _ Hp Hi) as [Hv _]. assert (Hlt := lookup_lt_Some _ _ _ Hi).
  split; cbn [threads mem hashtable_seed seed_initialized]; rewrite ?length_insert; try done; [..|lia| | |].
  - apply (points_after (mem s)); cbn; try done; [|lia]. unfold pc'. destruct (_ =? 0); cbn; [done|]. case_decide; [done|lia].
  - cbn in Hsum. assert (unclaimed pc' = 0%nat) by (unfold pc'; by destruct (_ =? 0)). lia.
  - intros _ _ H0. unfold pc' in *. destruct (Z.eqb_spec (seed_initialized (mem s)) 0) as [E|E].
    + exists i, (PSeed v). by rewrite list_lookup_insert_eq.
    + destruct (Hs Hport E H0) as (j & q & Hj & Hq). exists j, q. rewrite list_lookup_insert_ne; [done|]. intros <-. rewrite Hi in Hj. injection Hj as <-. done.
  - intros _ j q Hj Hq. split; [lia|]. destruct (Hlk _ _ Hj) as [[-> ->]|[_ Hj']]; [|by eapply Hg]. unfold pc' in Hq.
    destruct (Z.eqb_spec (seed_initialized (mem s)) 0) as [E|E]; [by apply Hu|done].
  - assert (Hother : forall k q, threads s !! k = Some q -> seeds q -> seeds pc' -> False).
    { intros k q Hk Hq Hpc. unfold pc' in Hpc. destruct (Z.eqb_spec (seed_initialized (mem s)) 0) as [E|E]; [|done]. by destruct (Hg Hport _ _ Hk Hq). }
    intros _ j k q q' Hj Hk Hq Hq'. destruct (Hlk _ _ Hj) as [[-> ->]|[_ Hj']], (Hlk _ _ Hk) as [[-> ->]|[_ Hk']]; [done|exfalso; eauto..|by eapply (Ha Hport)].
Qed.

(** The store of the seed. *)
Lemma store_step s i v : seed_inv s -> threads s !! i = Some (PStore v) -> hashtable_seed (mem s) = 0 ->
  seed_inv {| threads := <[i := PDone]> (threads s); mem := {| hashtable_seed := v; seed_initialized := seed_initialized (mem s) |} |}.
Proof.
  intros [Hr Hp [Hc1 Hc2] Hu Hs Hg Ha] Hi H0. pose proof (sum_insert _ _ _ PDone Hi) as Hsum. cbn in Hsum.
  pose proof (fun j q => lookup_after _ i _ PDone j q Hi) as Hlk. pose proof (Forall_lookup_1 _ _ _ _ Hp Hi) as [Hv Hv0].
  assert (Hnone : p <> SyncBuiltins -> forall j q, <[i := PDone]> (threads s) !! j = Some q -> ~ seeds q).
  { intros Hn j q Hj Hq. destruct (Hlk _ _ Hj) as [[-> ->]|[Hne Hj']]; [done|]. apply Hne. by eapply (Ha Hn). }
  split; cbn [threads mem hashtable_seed seed_initialized]; rewrite ?length_insert; try done; [by apply (points_after (mem s))|lia|..].
  - intros E Hn. by destruct (Hg Hn _ _ Hi I).
  - intros Hn j q Hj Hq. by destruct (Hnone Hn j q Hj).
  - intros Hn j k q q' Hj _ Hq. by destruct (Hnone Hn j q Hj).
Qed.

Lemma step_inv i so s : Z.of_nat (length (threads s)) < 2 ^ 31 -> seed_inv s -> seed_inv (seed_step p i so s).
Proof.
  intros Hlen Hinv. unfold seed_step. destruct (threads s !! i) as [pc|] eqn:Hi; [|done]. pose proof Hinv as [Hr Hp [Hc1 Hc2] _ _ Hg _].
  pose proof (Forall_lookup_1 _ _ _ _ Hp Hi) as Hpc. destruct pc as [v|v|v|v|v|]; cbn [thread_step point_ok] in *.
  - destruct (Z.eqb_spec (hashtable_seed (mem s)) 0); [|apply (quiet_step s i (PTest v)); cbn; try done; lia].
    destruct p eqn:Ep; rewrite <- Ep in *; apply (quiet_step s i (PTest v)); cbn; try done; try lia; try congruence; (split; [done|congruence]).
  - destruct Hpc as [Hv Hsync]. assert (Hsum := sum_insert _ _ _ PDone Hi). cbn in Hsum.
    destruct p eqn:Ep; [|done|]; rewrite <- Ep in *.
    + apply claim_step; try done; lia.
    + assert (En : InterlockedIncrement (seed_initialized (mem s)) = seed_initialized (mem s) + 1).
      { unfold InterlockedIncrement, int32. rewrite Z.mod_small; lia. }
      rewrite En. replace (seed_initialized (mem s) + 1 =? 1) with (seed_initialized (mem s) =? 0) by (apply eq_true_iff_eq; rewrite !Z.eqb_eq; lia).
      apply claim_step; try done; lia.
  - apply (quiet_step s i (PSeed v)); try done. cbn. destruct (Z.eqb_spec v 0); [apply generate_seed_range|done].
  - destruct p eqn:Ep; rewrite <- Ep in *.
    + apply (store_step s i v); try done. apply (Hg ltac:(congruence) _ _ Hi I).
    + destruct (Z.eqb_spec (hashtable_seed (mem s)) 0); [by apply (store_step s i v)|]. apply (quiet_step s i (PStore v)); try done; try congruence. cbn. by case_decide.
    + apply (store_step s i v); try done. apply (Hg ltac:(congruence) _ _ Hi I).
  - destruct (Z.eqb_spec (hashtable_seed (mem s)) 0); [|by apply (quiet_step s i (PWait v))].
    destruct p eqn:Ep; rewrite <- Ep in *; apply (quiet_step s i (PWait v)); try done; by rewrite Ep in Hpc.
  - by apply (quiet_step s i PDone).
Qed.
End invariant.

(* ------------------------------------------------------------------ *)
(** ** Every order of steps *)

Lemma start_inv p seeds_ : seed_inv p (seed_start seeds_).
Proof.
  split; cbn [seed_start threads mem hashtable_seed seed_initialized]; try done.
  - apply Forall_fmap, Forall_true. intros v. apply uint32_is_uint32.
  - split; [done|]. apply Nat2Z.inj_le. induction seeds_ as [|v vs IH]; cbn in *; lia.
  - intros _ i pc Hi. rewrite list_lookup_fmap in Hi. destruct (seeds_ !! i); [|done]. by injection Hi as <-.
  - intros _ i j pc pc' Hi. rewrite list_lookup_fmap in Hi. destruct (seeds_ !! i); [|done]. by injection Hi as <-.
Qed.

Lemma step_length p i so s : length (threads (seed_step p i so s)) = length (threads s).
Proof. unfold seed_step. destruct (threads s !! i); [|done]. destruct (thread_step _ _ _ _). cbn. apply length_insert. Qed.
Lemma run_cons p c sch s : seed_run p (c :: sch) s = seed_run p sch (seed_step p c.1 c.2 s).
Proof. done. Qed.
Lemma run_length p sch s : length (threads (seed_run p sch s)) = length (threads s).
Proof. revert s. induction sch as [|c sch IH]; intros s; [done|]. rewrite run_cons, IH. apply step_length. Qed.

Lemma run_app p sch sch' s : seed_run p (sch ++ sch') s = seed_run p sch' (seed_run p sch s).
Proof. apply fold_left_app. Qed.

(** The states that threads reach; there are fewer than 2^31 of them. *)
Definition reachable (p : port) (s : sys) : Prop :=
  seed_inv p s /\ Z.of_nat (length (threads s)) < 2 ^ 31.

Lemma reachable_step p i so s : reachable p s -> reachable p (seed_step p i so s).
Proof. intros [Hinv Hlen]. split; [by apply step_inv|by rewrite step_length]. Qed.
Lemma reachable_run p sch s : reachable p s -> reachable p (seed_run p sch s).
Proof. revert s. induction sch as [|c sch IH]; intros s Hs; [done|]. rewrite run_cons. by apply IH, reachable_step. Qed.
Lemma reachable_start p seeds_ : Z.of_nat (length seeds_) < 2 ^ 31 -> reachable p (seed_start seeds_).
Proof. intros H. split; [apply start_inv|]. cbn. by rewrite length_fmap. Qed.

Lemma step_stable p i so s : reachable p s -> hashtable_seed (mem s) <> 0 -> hashtable_seed (mem (seed_step p i so s)) = hashtable_seed (mem s).
Proof.
  intros [Hinv _] H0. unfold seed_step. destruct (threads s !! i) as [pc|] eqn:Hi; [|done].
  destruct pc as [v|v|v|v|v|], p; cbn [thread_step mem hashtable_seed]; try done; [|by rewrite (proj2 (Z.eqb_neq _ _))|];
    by destruct (si_seeding _ _ Hinv ltac:(done) _ _ Hi I).
Qed.
Lemma run_stable p sch s : reachable p s -> hashtable_seed (mem s) <> 0 -> hashtable_seed (mem (seed_run p sch s)) = hashtable_seed (mem s).
Proof.
  revert s. induction sch as [|c sch IH]; intros s Hs H0; [done|]. pose proof (step_stable p c.1 c.2 s Hs H0) as E.
  rewrite run_cons, IH, E; [done|by apply reachable_step|]. by rewrite E.
Qed.

(* ------------------------------------------------------------------ *)
(** ** Progress *)

(** Steps before a thread has the seed or waits for it. *)
Definition rank (pc : point) : nat :=
  match pc with PTest _ => 4 | PClaim _ => 3 | PSeed _ => 2 | PStore _ => 1 | PWait _ | PDone => 0 end.

Definition ranked (s : sys) (i n : nat) : Prop := exists pc, threads s !! i = Some pc /\ (rank pc <= n)%nat.

Lemma step_self p i so s n : reachable p s -> ranked s i n -> ranked (seed_step p i so s) i (pred n).
Proof.
  intros [Hinv _] (pc & Hi & Hn). unfold seed_step, ranked. rewrite Hi. destruct (thread_step p so pc (mem s)) as [pc' m] eqn:E. exists pc'.
  cbn [threads]. rewrite list_lookup_insert_eq by (by eapply lookup_lt_Some). split; [done|].
  pose proof (Forall_lookup_1 _ _ _ _ (si_points _ _ Hinv) Hi) as Hpc.
  destruct pc as [v|v|v|v|v|]; cbn [thread_step rank point_ok] in *;
    repeat (case_match || case_decide || destruct p); simplify_eq; cbn in *; try lia; try done;
    try (apply Z.eqb_eq in H; done).
Qed.
Lemma step_other p i j so s n : i <> j -> ranked s i n -> ranked (seed_step p j so s) i n.
Proof.
  intros Hne (pc & Hi & Hn). exists pc. split; [|done]. unfold seed_step. destruct (threads s !! j); [|done]. destruct (thread_step _ _ _ _).
  cbn. by rewrite list_lookup_insert_ne.
Qed.
Lemma ranked_le s i n n' : (n <= n')%nat -> ranked s i n -> ranked s i n'.
Proof. intros Hle (pc & Hi & Hn). exists pc. split; [done|lia]. Qed.

Lemma run_ranked p sch s i n : reachable p s -> ranked s i n -> ranked (seed_run p sch s) i (if decide (i ∈ sch.*1) then pred n else n).
Proof.
  revert s n. induction sch as [|[j so] sch IH]; intros s n Hs Hr; [done|]. rewrite run_cons. cbn [fst snd].
  destruct (decide (j = i)) as [->|Hne].
  - eapply ranked_le; [|apply (IH _ _ (reachable_step _ _ _ _ Hs) (step_self _ _ so _ _ Hs Hr))]. repeat case_decide; cbn in *; try lia; set_solver.
  - eapply ranked_le; [|apply (IH _ n (reachable_step _ _ _ _ Hs)), step_other; [|exact Hr]; done]. repeat case_decide; cbn in *; try lia; set_solver.
Qed.

(** A round: every thread makes a step, in some order. *)
Definition is_round (s : sys) (sch : schedule) : Prop := forall i, (i < length (threads s))%nat -> i ∈ sch.*1.

Lemma rounds_ranked p rounds s i : reachable p s -> Forall (is_round s) rounds -> (i < length (threads s))%nat ->
  ranked (seed_run p (List.concat rounds) s) i (4 - length rounds).
Proof.
  intros Hs Hr Hi. induction rounds as [|sch rounds IH] using rev_ind.
  - destruct (lookup_lt_is_Some_2 _ _ Hi) as [pc Hpc]. exists pc. split; [done|]. destruct pc; cbn; lia.
  - apply Forall_app in Hr as [Hr Hlast]. apply Forall_inv in Hlast. rewrite concat_app, run_app, length_app. cbn [List.concat].
    rewrite app_nil_r. eapply ranked_le; [|apply run_ranked; [by apply reachable_run|by apply IH]].
    rewrite decide_True by by apply Hlast. cbn. lia.
Qed.

(** If no thread is on its way to the seed, it is there. *)
Lemma all_waiting p s : reachable p s -> (0 < length (threads s))%nat -> (forall i, (i < length (threads s))%nat -> ranked s i 0) ->
  hashtable_seed (mem s) <> 0.
Proof.
  intros [Hinv _] Hlen Hr H0. destruct (Hr O Hlen) as (pc & Hpc & Hrk). pose proof (Forall_lookup_1 _ _ _ _ (si_points _ _ Hinv) Hpc) as Hok.
  destruct pc as [v|v|v|v|v|]; cbn in Hrk; try lia; cbn in Hok; [|done]. case_decide as Hsync; [done|].
  destruct (si_seeder _ _ Hinv Hsync Hok H0) as (i & q & Hi & Hq). destruct (Hr i (lookup_lt_Some _ _ _ Hi)) as (q' & Hi' & Hrk').
  rewrite Hi in Hi'. injection Hi' as <-. destruct q; cbn in *; try done; lia.
Qed.

Lemma step_done p i j so s : threads s !! i = Some PDone -> threads (seed_step p j so s) !! i = Some PDone.
Proof.
  intros Hi. unfold seed_step. destruct (decide (i = j)) as [<-|Hne].
  - rewrite Hi. cbn. rewrite list_lookup_insert_eq; [done|by eapply lookup_lt_Some].
  - destruct (threads s !! j); [|done]. destruct (thread_step _ _ _ _). cbn. by rewrite list_lookup_insert_ne.
Qed.
Lemma run_done p sch i s : threads s !! i = Some PDone -> threads (seed_run p sch s) !! i = Some PDone.
Proof. revert s. induction sch as [|c sch IH]; intros s Hi; [done|]. rewrite run_cons. by apply IH, step_done. Qed.

Lemma last_round p sch s i : reachable p s -> hashtable_seed (mem s) <> 0 -> ranked s i 0 -> i ∈ sch.*1 ->
  threads (seed_run p sch s) !! i = Some PDone.
Proof.
  revert s. induction sch as [|[j so] sch IH]; intros s Hs H0 Hr Hi; [by apply elem_of_nil in Hi|]. rewrite run_cons. cbn [fst snd].
  destruct (decide (i = j)) as [<-|Hne].
  - apply run_done. destruct Hr as (pc & Hpc & Hrk). unfold seed_step. rewrite Hpc.
    destruct pc; cbn in Hrk; try lia; cbn [thread_step]; rewrite ?(proj2 (Z.eqb_neq _ _) H0); cbn; rewrite list_lookup_insert_eq; try done; by eapply lookup_lt_Some.
  - apply IH; [by apply reachable_step|by rewrite step_stable|by apply step_other|set_solver].
Qed.

(* ------------------------------------------------------------------ *)
(** ** One thread *)

(** A thread that is not disturbed does what [json_object_seed] does. *)
Theorem json_object_seed_alone p so seed n w : w_entropy w = entropy (on_windows p) so -> is_uint32 (w_seed w) ->
  let s := seed_run p (replicate (4 + n) (O, so)) {| threads := [enter seed]; mem := {| hashtable_seed := w_seed w; seed_initialized := 0 |} |} in
  threads s = [PDone] /\ json_object_seed seed w = inr (tt, set_seed (hashtable_seed (mem s)) w).
Proof.
  intros He Hw s. set (s4 := seed_run p (replicate 4 (O, so)) {| threads := [enter seed]; mem := {| hashtable_seed := w_seed w; seed_initialized := 0 |} |}).
  assert (H4 : threads s4 = [PDone] /\ json_object_seed seed w = inr (tt, set_seed (hashtable_seed (mem s4)) w)).
  { assert (Hseq : json_object_seed seed w = inr (tt, if w_seed w =? 0
      then set_seed (if uint32 seed =? 0 then generate_seed (entropy (on_windows p) so) else uint32 seed) w else w)).
    { rewrite <- He. unfold json_object_seed, gets, modify. cbn -[generate_seed uint32 Z.eqb]. by destruct (w_seed w =? 0). }
    rewrite Hseq. unfold s4. destruct (Z.eqb_spec (w_seed w) 0) as [E|E]; [rewrite E; by destruct p|].
    assert (Eb : (w_seed w =? 0) = false) by by apply Z.eqb_neq. unfold seed_run, seed_step. destruct p; cbn -[Z.eqb]; rewrite Eb; cbn; (split; [done|by destruct w]). }
  assert (Hend : s = s4); [|by rewrite Hend].
  unfold s. rewrite replicate_add, run_app. fold s4. destruct H4 as [H4 _]. clearbody s4. clear -H4. induction n as [|n IH]; [done|].
  cbn [replicate]. rewrite run_cons. cbn [fst snd]. assert (E : seed_step p 0 so s4 = s4); [|by rewrite E].
  destruct s4 as [ts m]. cbn in H4. by subst ts.
Qed.

(* ------------------------------------------------------------------ *)
(** ** Properties *)

(** C13. The seed is set once: however fewer than 2^31 threads call
    [json_object_seed] at the same time, whatever seeds they ask for and in
    whatever order their steps are taken, with each of the three ways of
    synchronising, a thread that has returned finds a seed that is a non-zero
    32-bit number, a seed that is set never changes again (so that no hash
    value that was computed with it becomes wrong), and where one thread
    seeds for all no other thread seeds at the same time. *)
Theorem seed_set_once p seeds_ sch sch' : Z.of_nat (length seeds_) < 2 ^ 31 ->
  let s := seed_run p sch (seed_start seeds_) in let s' := seed_run p sch' s in
  (forall i, threads s !! i = Some PDone -> 0 < hashtable_seed (mem s) < 2 ^ 32) /\
  (hashtable_seed (mem s) <> 0 -> hashtable_seed (mem s') = hashtable_seed (mem s)) /\
  (p <> SyncBuiltins -> forall i j pc pc', threads s !! i = Some pc -> threads s !! j = Some pc' -> seeds pc -> seeds pc' -> i = j).
Proof.
  intros Hlen s s'. pose proof (reachable_run p sch _ (reachable_start p _ Hlen)) as Hs. fold s in Hs. split_and!.
  - intros i Hi. pose proof (Forall_lookup_1 _ _ _ _ (si_points _ _ (proj1 Hs)) Hi) as H0. pose proof (si_range _ _ (proj1 Hs)) as Hr.
    cbn in H0. unfold is_uint32 in Hr. lia.
  - by apply run_stable.
  - apply Hs.
Qed.

(** C29. Nobody waits for ever: from every state that threads reach in
    [json_object_seed], five rounds in which each thread makes at least one
    step, in any order, end with every thread returned. *)
Theorem seed_five_rounds p seeds_ sch rounds : Z.of_nat (length seeds_) < 2 ^ 31 -> let s := seed_run p sch (seed_start seeds_) in
  Forall (is_round s) rounds -> length rounds = 5%nat -> Forall (eq PDone) (threads (seed_run p (List.concat rounds) s)).
Proof.
  intros Hlen s Hr H5. pose proof (reachable_run p sch _ (reachable_start p _ Hlen)) as Hs. fold s in Hs.
  destruct rounds as [|r1 rounds] using rev_ind; [done|]. clear IHrounds. rewrite length_app in H5. cbn in H5.
  apply Forall_app in Hr as [Hr Hlast]. apply Forall_inv in Hlast. rewrite concat_app, run_app. cbn [List.concat]. rewrite app_nil_r.
  set (s1 := seed_run p (List.concat rounds) s) in *. assert (Hs1 : reachable p s1) by by apply reachable_run.
  assert (Hlen1 : length (threads s1) = length (threads s)) by apply run_length.
  assert (Hrk : forall i, (i < length (threads s1))%nat -> ranked s1 i 0).
  { intros i Hi. pose proof (rounds_ranked p rounds s i Hs Hr ltac:(lia)) as H. by replace (4 - length rounds)%nat with O in H by lia. }
  apply Forall_lookup. intros i pc Hi. assert (Hlt : (i < length (threads s1))%nat) by (rewrite <- (run_length p r1); by eapply lookup_lt_Some).
  rewrite (last_round p r1 s1 i) in Hi; [by injection Hi as <-|done| |by apply Hrk|apply Hlast; lia]. apply (all_waiting p); [done|lia|done].
Qed.

(** Three threads, of which one asks for the seed 7; the second one is the
    first to claim. *)
Definition example_sources : sources :=
  {| so_urandom := Some [0; 0; 1; 2]; so_functions := []; so_context := false; so_random := None; so_sec := 5; so_usec := 6; so_pid := 7 |}.
Definition turns (order : list nat) : schedule := map (fun i => (i, example_sources)) order.

Lemma seed_set_once_witness :
  let s := seed_run AtomicBuiltins (turns [0; 1; 1; 0; 0; 1; 1]%nat) (seed_start [0; 7; 0]) in
  threads s !! 1%nat = Some PDone /\ 0 < hashtable_seed (mem s) < 2 ^ 32 /\
  hashtable_seed (mem (seed_run AtomicBuiltins (turns [0; 2; 2]%nat) s)) = hashtable_seed (mem s).
Proof.
  intros s. destruct (seed_set_once AtomicBuiltins [0; 7; 0] (turns [0; 1; 1; 0; 0; 1; 1]%nat) (turns [0; 2; 2]%nat)) as (H1 & H2 & _).
  - cbn. lia.
  - split; [vm_compute; reflexivity|]. split; [apply (H1 1%nat); vm_compute; reflexivity|]. apply H2. vm_compute. discriminate.
Defined.

Lemma seed_five_rounds_witness :
  Forall (eq PDone) (threads (seed_run Windows (List.concat (replicate 5 (turns [2; 0; 1]%nat))) (seed_run Windows (turns [0; 1; 1; 0]%nat) (seed_start [0; 7; 0])))).
Proof.
  apply (seed_five_rounds Windows [0; 7; 0] (turns [0; 1; 1; 0]%nat)).
  - cbn. lia.
  - apply Forall_replicate. intros i Hi. cbn in Hi. destruct i as [|[|[|i]]]; [| | |exfalso; lia]; apply (bool_decide_unpack (_ ∈ _)); vm_compute; exact I.
  - reflexivity.
Defined.
