(* ===== verification/Heap.v ===== *)
(** * The timer heap of libuv (libuv/src/heap-inl.h)

    A binary min heap of linked nodes: each node has pointers to its parent
    and to two children, and the heap has a pointer to the root and the number
    of nodes.  The comparison is an argument, as it is in C.  The theorems
    relate the pointers to positions: the node at position [i] of the tree has
    its children at [2i] and [2i + 1], written [i~0] and [i~1]. *)

From S2P Require Import Prelude.

Abbreviation node_ptr := (option positive).

Record heap_node : Type := { left : node_ptr; right : node_ptr; parent : node_ptr }.

(** [struct heap], and the nodes in memory. *)
Record heap : Type := { min : node_ptr; nelts : Z; nodes : gmap positive heap_node }.
Abbreviation HM := (ST heap).

Definition set_min (p : node_ptr) (h : heap) : heap := {| min := p; nelts := nelts h; nodes := nodes h |}.
Definition set_nelts (n : Z) (h : heap) : heap := {| min := min h; nelts := n; nodes := nodes h |}.
Definition set_nodes (m : gmap positive heap_node) (h : heap) : heap := {| min := min h; nelts := nelts h; nodes := m |}.

Definition with_left (p : node_ptr) (n : heap_node) : heap_node := {| left := p; right := right n; parent := parent n |}.
Definition with_right (p : node_ptr) (n : heap_node) : heap_node := {| left := left n; right := p; parent := parent n |}.
Definition with_parent (p : node_ptr) (n : heap_node) : heap_node := {| left := left n; right := right n; parent := p |}.

(** [*p], [*p = n] and [p->field = v] *)
Definition node_at (p : positive) : HM heap_node := let* m := gets nodes in require (m !! p).
Definition set_node (p : positive) (n : heap_node) : HM unit :=
  let* _ := node_at p in let* m := gets nodes in modify (set_nodes (<[p := n]> m)).
Definition set_field (p : positive) (f : heap_node -> heap_node) : HM unit := let* n := node_at p in set_node p (f n).
Definition deref (p : node_ptr) : HM positive := require p.

(** A [struct heap_node **]: the address of a pointer. *)
Inductive slot : Type := SMin | SLeft (p : positive) | SRight (p : positive).
Definition load (s : slot) : HM node_ptr :=
  match s with
  | SMin => gets min
  | SLeft p => let* n := node_at p in ret (left n)
  | SRight p => let* n := node_at p in ret (right n)
  end.
Definition store (s : slot) (v : node_ptr) : HM unit :=
  match s with
  | SMin => modify (set_min v)
  | SLeft p => set_field p (with_left v)
  | SRight p => set_field p (with_right v)
  end.

Definition heap_init : heap -> heap := fun h => set_nelts 0 (set_min None h).
Definition heap_min : HM node_ptr := gets min.

Definition ptr_eqb (p q : node_ptr) : bool := bool_decide (p = q).

(** [if(p != NULL) p->parent = q] *)
Definition adopt (p : node_ptr) (q : positive) : HM unit :=
  match p with Some p => set_field p (with_parent (Some q)) | None => ret tt end.

Definition heap_node_swap (par child : positive) : HM unit :=
  let* t := node_at par in
  let* c := node_at child in
  set_node par c ;;;
  set_node child t ;;;
  set_field par (with_parent (Some child)) ;;;
  let* c := node_at child in
  let* sibling :=
    (if ptr_eqb (left c) (Some child) then set_field child (with_left (Some par)) ;;; ret (right c)
     else set_field child (with_right (Some par)) ;;; ret (left c)) in
  adopt sibling child ;;;
  let* p := node_at par in
  adopt (left p) par ;;;
  let* p := node_at par in
  adopt (right p) par ;;;
  let* c := node_at child in
  match parent c with
  | None => modify (set_min (Some child))
  | Some g =>
      let* gn := node_at g in
      if ptr_eqb (left gn) (Some par) then set_field g (with_left (Some child))
      else set_field g (with_right (Some child))
  end.

(** [for(k = 0, n = ...; n >= 2; k += 1, n /= 2) path = (path << 1) | (n & 1);]
    An [unsigned int] is halved at most 32 times. *)
Fixpoint path_loop (fuel : nat) (path k n : Z) : HM (Z * Z) :=
  if n <? 2 then ret (path, k)
  else match fuel with
       | O => fail OutOfFuel
       | S fuel => path_loop fuel (Z.lor (uint32 (Z.shiftl path 1)) (Z.land n 1)) (uint32 (k + 1)) (n / 2)
       end.
Definition UINT_FUEL : nat := 32.

(** [while(k > 0)]: the slot at the end of the path, and the one before it. *)
Fixpoint walk (fuel : nat) (path k : Z) (par child : slot) : HM (slot * slot) :=
  if k <=? 0 then ret (par, child)
  else match fuel with
       | O => fail OutOfFuel
       | S fuel =>
           let* p := load child in
           let* p := deref p in
           let* _ := node_at p in
           walk fuel (Z.shiftr path 1) (k - 1) child (if Z.testbit path 0 then SRight p else SLeft p)
       end.

Section compare.
Context (less_than : positive -> positive -> bool).

(** [while(node->parent != NULL && less_than(node, node->parent)) heap_node_swap(...)] *)
Fixpoint walk_up (fuel : nat) (node : positive) : HM unit :=
  let* n := node_at node in
  match parent n with
  | None => ret tt
  | Some p =>
      if less_than node p then
        match fuel with
        | O => fail OutOfFuel
        | S fuel => heap_node_swap p node ;;; walk_up fuel node
        end
      else ret tt
  end.

Definition heap_insert (newnode : positive) : HM unit :=
  set_field newnode (with_left None) ;;;
  set_field newnode (with_right None) ;;;
  set_field newnode (with_parent None) ;;;
  let* n := gets nelts in
  let* (path, k) := path_loop UINT_FUEL 0 0 (uint32 (1 + n)) in
  let* (par, child) := walk UINT_FUEL path k SMin SMin in
  let* p := load par in
  set_field newnode (with_parent p) ;;;
  store child (Some newnode) ;;;
  modify (fun h => set_nelts (uint32 (nelts h + 1)) h) ;;;
  walk_up UINT_FUEL newnode.

(** The smaller of a node and its children. *)
Definition smallest_of (child : positive) : HM positive :=
  let* c := node_at child in
  let smallest := match left c with Some l => if less_than l child then l else child | None => child end in
  ret (match right c with Some r => if less_than r smallest then r else smallest | None => smallest end).

Fixpoint walk_down (fuel : nat) (child : positive) : HM unit :=
  let* smallest := smallest_of child in
  if bool_decide (smallest = child) then ret tt
  else match fuel with
       | O => fail OutOfFuel
       | S fuel => heap_node_swap child smallest ;;; walk_down fuel child
       end.

(** [child] takes the place of [node]. *)
Definition replace_node (node child : positive) : HM unit :=
  let* n := node_at node in
  set_field child (with_left (left n)) ;;;
  set_field child (with_right (right n)) ;;;
  set_field child (with_parent (parent n)) ;;;
  let* c := node_at child in
  adopt (left c) child ;;;
  let* c := node_at child in
  adopt (right c) child ;;;
  let* n := node_at node in
  match parent n with
  | None => modify (set_min (Some child))
  | Some p =>
      let* pn := node_at p in
      if ptr_eqb (left pn) (Some node) then set_field p (with_left (Some child))
      else set_field p (with_right (Some child))
  end.

Definition heap_remove (node : node_ptr) : HM unit :=
  let* n := gets nelts in
  if n =? 0 then ret tt
  else
    let* (path, k) := path_loop UINT_FUEL 0 0 n in
    let* (_, max) := walk UINT_FUEL path k SMin SMin in
    modify (fun h => set_nelts (uint32 (nelts h - 1)) h) ;;;
    let* child := load max in
    store max None ;;;
    if ptr_eqb child node then
      let* m := gets min in
      if ptr_eqb child m then modify (set_min None) else ret tt
    else
      let* child := deref child in
      let* node := deref node in
      replace_node node child ;;;
      walk_down UINT_FUEL child ;;;
      walk_up UINT_FUEL child.

Definition heap_dequeue : HM unit := let* m := gets min in heap_remove m.
End compare.

(* ------------------------------------------------------------------ *)
(** ** Positions *)

(** The position above. *)
Definition up (i : positive) : option positive :=
  match i with xH => None | xO j | xI j => Some j end.

(** The nodes of a heap by their positions. *)
Abbreviation layout := (gmap positive positive).

Definition entry (t : layout) (i : positive) : heap_node :=
  {| left := t !! xO i; right := t !! xI i; parent := up i ≫= (t !!.) |}.

(** The pointers of [h] are those of the layout [t], which fills the positions
    without a gap; of the other nodes nothing is known. *)
Record rep (h : heap) (t : layout) : Prop := {
  rep_nodes : forall i p, t !! i = Some p -> nodes h !! p = Some (entry t i);
  rep_inj : forall i j p, t !! i = Some p -> t !! j = Some p -> i = j;
  rep_min : min h = t !! xH;
  rep_full : forall i, is_Some (t !! i) <-> Zpos i <= nelts h;
  rep_size : 0 <= nelts h < 2 ^ 32;
}.
