(* ===== verification/HeapFacts.v ===== *)
(** * The timer heap is a priority queue

    The pointer operations of heap-inl.h on the positions of the tree, and
    what follows for the order of the elements. *)

From S2P Require Import Prelude Heap.

(* ------------------------------------------------------------------ *)
(** ** Access to nodes *)

Definition adopted (p : node_ptr) (q : positive) (m : gmap positive heap_node) : gmap positive heap_node :=
  match p with Some p => alter (with_parent (Some q)) p m | None => m end.

Lemma wp_node_at p h n (Q : heap_node -> heap -> Prop) : nodes h !! p = Some n -> Q n h -> wp (node_at p) h Q.
Proof. intros E HQ. unfold node_at. wp_steps. by eapply wp_require. Qed.
Lemma wp_set_node p h n n' (Q : unit -> heap -> Prop) : nodes h !! p = Some n -> Q tt (set_nodes (<[p := n']> (nodes h)) h) -> wp (set_node p n') h Q.
Proof. intros E HQ. unfold set_node. wp_step. eapply wp_node_at; [done|]. by wp_steps. Qed.
Lemma wp_set_field p h f (Q : unit -> heap -> Prop) : is_Some (nodes h !! p) -> Q tt (set_nodes (alter f p (nodes h)) h) -> wp (set_field p f) h Q.
Proof.
  intros [n E] HQ. unfold set_field. wp_step. eapply wp_node_at; [done|]. eapply wp_set_node; [done|].
  assert (Em : alter f p (nodes h) = <[p := f n]> (nodes h)); [|by rewrite <- Em].
  apply map_eq. intros q. destruct (decide (q = p)) as [->|Hne].
  - by rewrite lookup_alter_eq, lookup_insert_eq, E.
  - by rewrite lookup_alter_ne, lookup_insert_ne by done.
Qed.
Lemma wp_adopt p q h (Q : unit -> heap -> Prop) : (forall x, p = Some x -> is_Some (nodes h !! x)) ->
  Q tt (set_nodes (adopted p q (nodes h)) h) -> wp (adopt p q) h Q.
Proof.
  intros Hp HQ. destruct p as [x|]; cbn [adopt adopted] in *; [by apply wp_set_field; [apply Hp|]|]. apply wp_ret. by destruct h.
Qed.

Lemma lookup_adopted_ne o q m p : (forall x, o = Some x -> x <> p) -> adopted o q m !! p = m !! p.
Proof. destruct o as [x|]; [|done]. intros Hx. cbn. by rewrite lookup_alter_ne by by apply Hx. Qed.
Lemma lookup_adopted_eq q m p : adopted (Some p) q m !! p = with_parent (Some q) <$> m !! p.
Proof. apply lookup_alter_eq. Qed.
Lemma adopted_is_Some o q m p : is_Some (m !! p) -> is_Some (adopted o q m !! p).
Proof. intros Hp. destruct o as [x|]; [|done]. cbn. destruct (decide (x = p)) as [->|]; [rewrite lookup_alter_eq; by apply fmap_is_Some|by rewrite lookup_alter_ne]. Qed.

(* ------------------------------------------------------------------ *)
(** ** Layouts *)

Lemma rep_ne h t i j p q : rep h t -> t !! i = Some p -> t !! j = Some q -> i <> j -> p <> q.
Proof. intros Hr Hi Hj Hne ->. by destruct Hne; eapply rep_inj. Qed.

Definition swapped (t : layout) (i c : positive) (P C : positive) : layout := <[i := C]> (<[c := P]> t).
Lemma swapped_up t i c P C : i <> c -> swapped t i c P C !! i = Some C.
Proof. intros. apply lookup_insert_eq. Qed.
Lemma swapped_down t i c P C : i <> c -> swapped t i c P C !! c = Some P.
Proof. intros. unfold swapped. rewrite lookup_insert_ne by done. apply lookup_insert_eq. Qed.
Lemma swapped_other t i c P C j : j <> i -> j <> c -> swapped t i c P C !! j = t !! j.
Proof. intros. unfold swapped. by rewrite !lookup_insert_ne by done. Qed.

Lemma up_cases i : i = xH /\ up i = None \/ exists g, up i = Some g /\ (i = xO g \/ i = xI g).
Proof. destruct i; eauto 6. Qed.

Lemma up_ne c i : up c = Some i -> i <> c.
Proof. destruct c; cbn; intros [= <-]; lia. Qed.
Lemma up_lt c i : up c = Some i -> (i < c)%positive.
Proof. destruct c; cbn; intros [= <-]; lia. Qed.

Ltac positions := solve [congruence | lia].
(** Nodes at different positions differ. *)
Ltac apart :=
  match goal with Hrep : rep ?h ?t |- _ =>
    first [ eassumption
          | eapply (rep_ne h t); [exact Hrep|eassumption|eassumption|positions]
          | let x := fresh in let E := fresh in intros x E; eapply (rep_ne h t); [exact Hrep|exact E|eassumption|positions] ]
  end.
Ltac lookups :=
  repeat first [ rewrite lookup_alter_eq | rewrite lookup_alter_ne by apart
               | rewrite lookup_insert_eq | rewrite lookup_insert_ne by apart
               | rewrite lookup_adopted_ne by apart | rewrite lookup_adopted_eq ].

Lemma up_node h t i P g : rep h t -> t !! i = Some P -> up i = Some g -> exists G, t !! g = Some G.
Proof.
  intros Hrep HP Hg. assert (Hs : is_Some (t !! g)); [|by destruct Hs as [G HG]; exists G]. apply (rep_full _ _ Hrep).
  assert (Hi : is_Some (t !! i)) by by exists P. apply (rep_full _ _ Hrep) in Hi. apply up_lt in Hg. lia.
Qed.

(** The nodes in memory, as [heap_node_swap] leaves them. *)
Definition after_swap (h : heap) (t : layout) (i c P C : positive) : gmap positive heap_node :=
  let m := <[C := entry t i]> (<[P := entry t c]> (nodes h)) in
  let m := alter (with_parent (Some C)) P m in
  let m := match c with
           | xO _ => adopted (t !! xI i) C (alter (with_left (Some P)) C m)
           | _ => adopted (t !! xO i) C (alter (with_right (Some P)) C m)
           end in
  let m := adopted (t !! xI c) P (adopted (t !! xO c) P m) in
  match i with
  | xH => m
  | xO g => from_option (fun G => alter (with_left (Some C)) G m) m (t !! g)
  | xI g => from_option (fun G => alter (with_right (Some C)) G m) m (t !! g)
  end.

(** [heap_node_swap] behind the exchange of the fields: the neighbours of the
    two nodes are told. *)
Definition relinked (t : layout) (i c P C : positive) (sib : node_ptr) (m : gmap positive heap_node) : gmap positive heap_node :=
  let m := adopted (t !! xI c) P (adopted (t !! xO c) P (adopted sib C m)) in
  match i with
  | xH => m
  | xO g => from_option (fun G => alter (with_left (Some C)) G m) m (t !! g)
  | xI g => from_option (fun G => alter (with_right (Some C)) G m) m (t !! g)
  end.

Lemma wp_relink h0 h t i c P C s n (Q : unit -> heap -> Prop) : rep h0 t -> up c = Some i -> t !! i = Some P -> t !! c = Some C ->
  up s = Some i -> s <> c -> nodes h !! P = Some (with_parent (Some C) (entry t c)) -> nodes h !! C = Some n -> parent n = up i ≫= (t !!.) ->
  (forall j p, t !! j = Some p -> j <> i -> j <> c -> nodes h !! p = Some (entry t j)) ->
  Q tt {| min := match i with xH => Some C | _ => min h end; nelts := nelts h; nodes := relinked t i c P C (t !! s) (nodes h) |} ->
  wp (adopt (t !! s) C ;;;
      let* p := node_at P in
      adopt (left p) P ;;;
      let* p := node_at P in
      adopt (right p) P ;;;
      let* c := node_at C in
      match parent c with
      | None => modify (set_min (Some C))
      | Some g =>
          let* gn := node_at g in
          if ptr_eqb (left gn) (Some P) then set_field g (with_left (Some C))
          else set_field g (with_right (Some C))
      end) h Q.
Proof.
  intros Hrep Hup HP HC Hs Hsc HnP HnC Hpar Hn HQ. pose proof (up_ne _ _ Hup) as Hic. pose proof (up_ne _ _ Hs) as His. assert (HPC : P <> C) by apart.
  assert (HCP : C <> P) by done. pose proof (up_lt _ _ Hup) as Hlt. pose proof (up_lt _ _ Hs) as Hlt'.
  assert (Hsome : forall j p, t !! j = Some p -> is_Some (nodes h !! p)).
  { intros j p Hj. destruct (decide (j = i)) as [->|]; [replace p with P by congruence; eauto|]. destruct (decide (j = c)) as [->|]; [replace p with C by congruence; eauto|]. eauto. }
  wp_step. apply wp_adopt; [eauto|]. cbn [set_nodes nodes min nelts]. wp_step. eapply wp_node_at; [cbn; lookups; exact HnP|]. cbn [with_parent left entry].
  wp_step. apply wp_adopt; [cbn; intros x Hx; apply adopted_is_Some; eauto|]. cbn [set_nodes nodes min nelts].
  wp_step. eapply wp_node_at; [cbn; lookups; exact HnP|]. cbn [with_parent right entry].
  wp_step. apply wp_adopt; [cbn; intros x Hx; do 2 apply adopted_is_Some; eauto|]. cbn [set_nodes nodes min nelts].
  wp_step. eapply wp_node_at; [cbn; lookups; exact HnC|]. rewrite Hpar.
  destruct i as [g|g|]; cbn [up mbind option_bind] in *; [..|exact HQ];
    (destruct (up_node _ _ _ _ g Hrep HP eq_refl) as [G HG]; rewrite HG; cbn [relinked] in HQ; rewrite HG in HQ; cbn [from_option] in HQ;
     assert (HnG := Hn _ _ HG ltac:(lia) ltac:(lia)); wp_step; eapply wp_node_at; [cbn; lookups; exact HnG|]; cbn [entry left]; unfold ptr_eqb).
  - rewrite bool_decide_false; [|intros HP'; pose proof (rep_inj _ _ Hrep _ _ _ HP HP'); lia]. apply wp_set_field; [cbn; lookups; eauto|exact HQ].
  - rewrite bool_decide_true by done. apply wp_set_field; [cbn; lookups; eauto|exact HQ].
Qed.

Lemma wp_swap h t i c P C (Q : unit -> heap -> Prop) : rep h t -> up c = Some i -> t !! i = Some P -> t !! c = Some C ->
  Q tt {| min := match i with xH => Some C | _ => min h end; nelts := nelts h; nodes := after_swap h t i c P C |} ->
  wp (heap_node_swap P C) h Q.
Proof.
  intros Hrep Hup HP HC HQ. pose proof (up_ne _ _ Hup) as Hic. assert (HPC : P <> C) by apart. assert (HCP : C <> P) by done.
  pose proof (rep_nodes _ _ Hrep) as Hn. unfold heap_node_swap.
  wp_step. eapply wp_node_at; [by apply Hn|]. wp_step. eapply wp_node_at; [by apply Hn|].
  wp_step. eapply wp_set_node; [by apply Hn|]. wp_step. eapply wp_set_node; [cbn; rewrite lookup_insert_ne by done; by apply Hn|].
  wp_step. apply wp_set_field; [cbn; lookups; eauto|]. cbn [set_nodes nodes min nelts].
  wp_step. eapply wp_node_at; [cbn; lookups; reflexivity|].
  destruct c as [c|c|]; cbn in Hup; [injection Hup as ->..|done]; cbn [after_swap] in HQ; cbn [entry left right]; unfold ptr_eqb; rewrite wp_bind.
  - rewrite bool_decide_false; [|intros HC'; pose proof (rep_inj _ _ Hrep _ _ _ HC HC'); lia]. wp_step.
    apply wp_set_field; [cbn; lookups; eauto|]. rewrite wp_ret. cbn [set_nodes nodes min nelts].
    eapply (wp_relink h _ t i (xI i) P C (xO i)); try done; cbn; lookups; try done; try lia.
    + intros j p Hj Hji Hjc. cbn. lookups. by apply Hn.
  - rewrite bool_decide_true by done. wp_step.
    apply wp_set_field; [cbn; lookups; eauto|]. rewrite wp_ret. cbn [set_nodes nodes min nelts].
    eapply (wp_relink h _ t i (xO i) P C (xI i)); try done; cbn; lookups; try done; try lia.
    + intros j p Hj Hji Hjc. cbn. lookups. by apply Hn.
Qed.

(** The pointers to and from a position. *)
Lemma entry_same t t' j : (forall x, x = xO j \/ x = xI j \/ up j = Some x -> t' !! x = t !! x) -> entry t' j = entry t j.
Proof.
  intros Hx. unfold entry. f_equal; [apply Hx; auto..|]. destruct (up j) as [g|] eqn:E; [|done]. cbn. apply Hx. auto.
Qed.

Ltac layouts :=
  repeat first [ rewrite swapped_up by positions | rewrite swapped_down by positions | rewrite swapped_other by positions ].

Ltac settle :=
  cbn [fmap option_fmap option_map]; unfold entry, with_left, with_right, with_parent; cbn [left right parent up mbind option_bind];
  layouts; congruence.
Ltac at_position j q :=
  match goal with Hj : ?t !! j = Some ?p, Hn : forall i p, ?t !! i = Some p -> _ |- _ =>
    destruct (decide (j = q)) as [->|?]; [first [done|rewrite ?Hj; lookups; rewrite (Hn _ _ Hj); settle]|] end.
Ltac at_parent j g :=
  lazymatch goal with HG : ?t !! g = Some ?G, Hj : ?t !! j = Some ?p, Hn : forall i p, ?t !! i = Some p -> _ |- _ =>
    destruct (decide (j = g)) as [->|?]; [rewrite HG in Hj; injection Hj as <-; lookups; rewrite (Hn _ _ HG); unfold entry;
      let Ey := fresh in destruct (up g) eqn:Ey; [apply up_lt in Ey|]; settle|] end.
Ltac swap_cases j :=
  lazymatch goal with Hj : swapped ?t ?i ?c ?P ?C !! j = Some _ |- _ =>
    destruct (decide (j = i)) as [->|Hji]; [rewrite swapped_up in Hj by done; injection Hj as <-; lookups; settle|];
    destruct (decide (j = c)) as [->|Hjc]; [rewrite swapped_down in Hj by done; injection Hj as <-; lookups; settle|];
    rewrite swapped_other in Hj by done;
    at_position j (xO i); at_position j (xI i); at_position j (xO c); at_position j (xI c);
    lazymatch i with xO ?g => at_parent j g | xI ?g => at_parent j g | _ => idtac end
  end.

Lemma swap_entries h t i c P C : rep h t -> up c = Some i -> t !! i = Some P -> t !! c = Some C ->
  forall j p, swapped t i c P C !! j = Some p -> after_swap h t i c P C !! p = Some (entry (swapped t i c P C) j).
Proof.
  intros Hrep Hup HP HC j p Hj. pose proof (up_ne _ _ Hup) as Hic. pose proof (rep_nodes _ _ Hrep) as Hn.
  assert (HPC : P <> C) by apart. assert (HCP : C <> P) by done.
  assert (Hcase : c = xO i \/ c = xI i) by (destruct c; cbn in Hup; try injection Hup as ->; auto; done).
  assert (Hother : forall x, up x <> Some i -> up x <> Some c -> up i <> Some x -> x <> i -> entry (swapped t i c P C) x = entry t x).
  { intros x H1 H2 H3 H4. apply entry_same. intros y Hy. apply swapped_other; intros ->; destruct Hy as [Hy|[Hy|Hy]]; try done;
      subst; cbn in *; congruence. }
  destruct Hcase as [-> | ->]; destruct i as [g|g|]; cbn [after_swap];
    try (destruct (up_node _ _ _ _ g Hrep HP eq_refl) as [G HG]; rewrite HG; cbn [from_option]).
  all: swap_cases j.
  all: rewrite Hother; [lookups; by apply Hn|destruct j; cbn; congruence..].
Qed.

(** The nodes that exist stay. *)
Abbreviation same_dom h h' := (forall x : positive, is_Some (nodes h !! x) -> is_Some (nodes h' !! x)).

Lemma alter_is_Some (f : heap_node -> heap_node) p (m : gmap positive heap_node) x : is_Some (m !! x) -> is_Some (alter f p m !! x).
Proof. intros H. destruct (decide (p = x)) as [->|]; [rewrite lookup_alter_eq; by apply fmap_is_Some|by rewrite lookup_alter_ne]. Qed.
Lemma insert_is_Some n p (m : gmap positive heap_node) x : is_Some (m !! x) -> is_Some (<[p := n]> m !! x).
Proof. intros H. destruct (decide (p = x)) as [->|]; [rewrite lookup_insert_eq; eauto|by rewrite lookup_insert_ne]. Qed.

Create HintDb heap_nodes.
#[export] Hint Resolve alter_is_Some insert_is_Some adopted_is_Some : heap_nodes.

Lemma after_swap_dom h t i c P C x : is_Some (nodes h !! x) -> is_Some (after_swap h t i c P C !! x).
Proof.
  intros Hx. unfold after_swap.
  repeat match goal with |- context [match ?y with _ => _ end] => is_var y; destruct y end;
    repeat match goal with |- context [from_option _ _ ?o] => destruct o; cbn [from_option] end; auto 10 with heap_nodes.
Qed.

Lemma swap_spec h t i c P C : rep h t -> up c = Some i -> t !! i = Some P -> t !! c = Some C ->
  wp (heap_node_swap P C) h (fun _ h' => rep h' (swapped t i c P C) /\ nelts h' = nelts h /\ same_dom h h').
Proof.
  intros Hrep Hup HP HC. apply (wp_swap h t i c); try done. pose proof (up_ne _ _ Hup) as Hic. split_and!; [|done|].
  - split; cbn [nodes min nelts].
    + by apply swap_entries.
    + assert (Hx : forall j p, swapped t i c P C !! j = Some p -> exists k, t !! k = Some p /\
        (k = j /\ j <> i /\ j <> c \/ j = i /\ k = c \/ j = c /\ k = i)).
      { intros j p Hj. destruct (decide (j = i)) as [->|]; [rewrite swapped_up in Hj by done; injection Hj as <-; eauto 8|].
        destruct (decide (j = c)) as [->|]; [rewrite swapped_down in Hj by done; injection Hj as <-; eauto 8|].
        rewrite swapped_other in Hj by done. eauto 8. }
      intros j k p Hj Hk. destruct (Hx _ _ Hj) as (j' & Hj' & H1), (Hx _ _ Hk) as (k' & Hk' & H2).
      pose proof (rep_inj _ _ Hrep _ _ _ Hj' Hk'). intuition congruence.
    + destruct i; [..|by rewrite swapped_up]; rewrite swapped_other; try apply Hrep; try done; intros <-; done.
    + intros j. rewrite <- (rep_full _ _ Hrep). destruct (decide (j = i)) as [->|]; [rewrite swapped_up, HP by done; split; eauto|].
      destruct (decide (j = c)) as [->|]; [rewrite swapped_down, HC by done; split; eauto|]. by rewrite swapped_other.
    + apply Hrep.
  - intros x Hx. cbn [nodes]. by apply after_swap_dom.
Qed.

(* ------------------------------------------------------------------ *)
(** ** Order *)

(** A strict weak order. *)
Record weak_order (less : positive -> positive -> bool) : Prop := {
  wo_trans : forall a b c, less a b = true -> less b c = true -> less a c = true;
  wo_asym : forall a b, less a b = true -> less b a = false;
  wo_negtrans : forall a b c, less a b = false -> less b c = false -> less a c = false;
}.

(** The elements of a layout. *)
Definition elem (t : layout) (p : positive) : Prop := exists i, t !! i = Some p.

Lemma swapped_elem t i c P C p : t !! i = Some P -> t !! c = Some C -> i <> c -> elem (swapped t i c P C) p <-> elem t p.
Proof.
  intros HP HC Hic. split; intros [j Hj].
  - destruct (decide (j = i)) as [->|]; [rewrite swapped_up in Hj by done; injection Hj as <-; by exists c|].
    destruct (decide (j = c)) as [->|]; [rewrite swapped_down in Hj by done; injection Hj as <-; by exists i|].
    rewrite swapped_other in Hj by done. by exists j.
  - destruct (decide (j = i)) as [->|]; [exists c; rewrite swapped_down by done; congruence|].
    destruct (decide (j = c)) as [->|]; [exists i; rewrite swapped_up by done; congruence|]. exists j. by rewrite swapped_other.
Qed.

Section order.
Context (less : positive -> positive -> bool) (Hwo : weak_order less).

Definition ordered (t : layout) : Prop :=
  forall i j p q, up j = Some i -> t !! i = Some p -> t !! j = Some q -> less q p = false.

(** Ordered but for the node at [k], over which the order still holds. *)
Definition loose (t : layout) (k : positive) : Prop :=
  (forall i j p q, up j = Some i -> i <> k -> j <> k -> t !! i = Some p -> t !! j = Some q -> less q p = false) /\
  (forall g j p q, up k = Some g -> up j = Some k -> t !! g = Some p -> t !! j = Some q -> less q p = false).
Definition below_ok (t : layout) (k : positive) : Prop :=
  forall j p q, up j = Some k -> t !! k = Some p -> t !! j = Some q -> less q p = false.
Definition above_ok (t : layout) (k : positive) : Prop :=
  forall g p q, up k = Some g -> t !! g = Some p -> t !! k = Some q -> less q p = false.

Lemma loose_ordered t k : loose t k -> below_ok t k -> above_ok t k -> ordered t.
Proof.
  intros [H1 H2] Hb Ha i j p q Hup Hi Hj. destruct (decide (i = k)) as [->|]; [by eapply Hb|]. destruct (decide (j = k)) as [->|]; [by eapply Ha|]. by eapply H1.
Qed.

(** How a walk ends. *)
Definition arranged (h : heap) (t : layout) (h' : heap) : Prop :=
  exists t', rep h' t' /\ ordered t' /\ (forall p, elem t' p <-> elem t p) /\ nelts h' = nelts h /\ same_dom h h'.

Lemma arranged_step h t h1 t1 h' : (forall p, elem t1 p <-> elem t p) -> nelts h1 = nelts h -> same_dom h h1 -> arranged h1 t1 h' -> arranged h t h'.
Proof.
  intros He Hn Hd (t' & H1 & H2 & H3 & H4 & H5). exists t'. split_and!; [done|done| |congruence|auto]. intros p. by rewrite H3.
Qed.

Lemma up_step t k g P C : loose t k -> below_ok t k -> up k = Some g -> t !! g = Some P -> t !! k = Some C -> less C P = true ->
  loose (swapped t g k P C) g /\ below_ok (swapped t g k P C) g.
Proof using Hwo.
  intros [H1 H2] Hb Hup HP HC Hless. pose proof (up_ne _ _ Hup) as Hne. pose proof (up_lt _ _ Hup) as Hlt. split; [split|].
  - intros i j p q Hj Hig Hjg Hp Hq. destruct (decide (i = k)) as [->|Hik].
    + rewrite swapped_down in Hp by done. injection Hp as <-. assert (j <> k) by (intros ->; congruence). rewrite swapped_other in Hq by done. by eapply H2.
    + rewrite swapped_other in Hp by done. destruct (decide (j = k)) as [->|Hjk]; [congruence|]. rewrite swapped_other in Hq by done. by eapply H1.
  - intros gg j p q Hgg Hj Hp Hq. pose proof (up_lt _ _ Hgg). pose proof (up_lt _ _ Hj). rewrite swapped_other in Hp by lia.
    destruct (decide (j = k)) as [->|Hjk].
    + rewrite swapped_down in Hq by done. injection Hq as <-. eapply (H1 gg g); try done; lia.
    + rewrite swapped_other in Hq by lia. apply (wo_negtrans _ Hwo q P p); [eapply (H1 g j)|eapply (H1 gg g)]; try done; lia.
  - intros j p q Hj Hp Hq. pose proof (up_lt _ _ Hj). rewrite swapped_up in Hp by done. injection Hp as <-. destruct (decide (j = k)) as [->|Hjk].
    + rewrite swapped_down in Hq by done. injection Hq as <-. by apply (wo_asym _ Hwo).
    + rewrite swapped_other in Hq by lia. destruct (less q C) eqn:E; [|done]. pose proof (wo_trans _ Hwo _ _ _ E Hless).
      assert (less q P = false) by (eapply (H1 g j); try done; lia). congruence.
Qed.

Lemma walk_up_spec fuel : forall h t k C, rep h t -> t !! k = Some C -> loose t k -> below_ok t k -> Zpos k < 2 ^ (Z.of_nat fuel + 1) ->
  wp (walk_up less fuel C) h (fun _ h' => arranged h t h').
Proof using Hwo.
  induction fuel as [|fuel IH]; intros h t k C Hrep HC Hl Hb Hf; cbn [walk_up]; wp_step; (eapply wp_node_at; [by apply (rep_nodes _ _ Hrep)|]); cbn [entry parent];
    destruct (up_cases k) as [[-> Hup]|(g & Hup & Hg)]; rewrite Hup; cbn [mbind option_bind];
    try (apply wp_ret; exists t; split_and!; try done; apply (loose_ordered t _ Hl Hb); intros g' p q; by rewrite Hup).
  - change (2 ^ (Z.of_nat 0 + 1)) with 2 in Hf. pose proof (up_lt _ _ Hup). lia.
  - destruct (up_node _ _ _ _ _ Hrep HC Hup) as [P HP]. rewrite HP. destruct (less C P) eqn:El.
    + wp_step. eapply wp_mono; [by apply (swap_spec h t g k)|]. intros _ h1 (Hrep1 & Hn1 & Hd1).
      pose proof (up_ne _ _ Hup) as Hne. destruct (up_step t k g P C Hl Hb Hup HP HC El) as [Hl1 Hb1].
      eapply wp_mono; [apply (IH h1 _ g C Hrep1); try done; [by apply swapped_up|]|].
      * replace (Z.of_nat (S fuel) + 1) with (Z.succ (Z.of_nat fuel + 1)) in Hf by lia. rewrite Z.pow_succ_r in Hf by lia. destruct Hg as [-> | ->]; lia.
      * intros u h' Ha. eapply arranged_step; [|exact Hn1|exact Hd1|exact Ha]. intros p. by apply swapped_elem.
    + apply wp_ret. exists t. split_and!; try done. apply (loose_ordered t k Hl Hb). intros g' p q Hg' Hp Hq. rewrite Hup in Hg'. injection Hg' as <-. congruence.
Qed.

Lemma smallest_spec h t k C (Q : positive -> heap -> Prop) : rep h t -> t !! k = Some C ->
  (below_ok t k -> Q C h) ->
  (forall c m, up c = Some k -> t !! c = Some m -> less m C = true ->
     (forall j q, up j = Some k -> t !! j = Some q -> less q m = false) -> Q m h) ->
  wp (smallest_of less C) h Q.
Proof using Hwo.
  intros Hrep HC Hstop Hgo. unfold smallest_of. wp_step. eapply wp_node_at; [by apply (rep_nodes _ _ Hrep)|]. cbn [entry left right]. apply wp_ret.
  pose proof (wo_asym _ Hwo) as Ha. pose proof (wo_trans _ Hwo) as Ht. assert (Hirr : forall x, less x x = false) by (intros x; destruct (less x x) eqn:E; [rewrite (Ha _ _ E) in E; done|done]).
  assert (Hkids : forall j, up j = Some k -> j = xO k \/ j = xI k) by (intros j; destruct j; cbn; intros [= ->]; auto).
  destruct (t !! xO k) as [l|] eqn:El; [destruct (less l C) eqn:Ell|]; (destruct (t !! xI k) as [r|] eqn:Er; [match goal with |- context [if less ?a ?b then _ else _] => destruct (less a b) eqn:Err end|]).
  all: first [ apply (Hgo (xI k)); [done|done| |] | apply (Hgo (xO k)); [done|done| |] | apply Hstop ].
  all: try (intros j q Hj Hq; destruct (Hkids j Hj) as [-> | ->]; simplify_eq; auto).
  all: try (intros j p q Hj Hp Hq; destruct (Hkids j Hj) as [-> | ->]; simplify_eq; auto).
  all: eauto.
  destruct (less l r) eqn:E; [|done]. pose proof (Ht _ _ _ E Err). congruence.
Qed.

Lemma down_step t k c C m : loose t k -> up c = Some k -> t !! k = Some C -> t !! c = Some m -> less m C = true ->
  (forall j q, up j = Some k -> t !! j = Some q -> less q m = false) ->
  loose (swapped t k c C m) c /\ above_ok (swapped t k c C m) c.
Proof using Hwo.
  intros [H1 H2] Hup HC Hm Hless Hmin. pose proof (up_ne _ _ Hup) as Hne. pose proof (up_lt _ _ Hup) as Hlt. split; [split|].
  - intros i j p q Hj Hic Hjc Hp Hq. pose proof (up_lt _ _ Hj). destruct (decide (i = k)) as [->|Hik].
    + rewrite swapped_up in Hp by done. injection Hp as <-. rewrite swapped_other in Hq by lia. by eapply Hmin.
    + rewrite swapped_other in Hp by done. destruct (decide (j = k)) as [->|Hjk].
      * rewrite swapped_up in Hq by done. injection Hq as <-. by eapply (H2 i c).
      * rewrite swapped_other in Hq by done. by eapply H1.
  - intros g j p q Hg Hj Hp Hq. rewrite Hup in Hg. injection Hg as <-. pose proof (up_lt _ _ Hj). rewrite swapped_up in Hp by done. injection Hp as <-.
    rewrite swapped_other in Hq by lia. eapply (H1 c j); try done; lia.
  - intros g p q Hg Hp Hq. rewrite Hup in Hg. injection Hg as <-. rewrite swapped_up in Hp by done. rewrite swapped_down in Hq by done.
    injection Hp as <-. injection Hq as <-. by apply (wo_asym _ Hwo).
Qed.

(** How the walk down ends: the node is at a place where only its parent may be
    larger. *)
Definition sunk (h : heap) (t : layout) (C : positive) (h' : heap) : Prop :=
  exists t' k, rep h' t' /\ t' !! k = Some C /\ loose t' k /\ below_ok t' k /\ (forall p, elem t' p <-> elem t p) /\ nelts h' = nelts h /\ same_dom h h'.

Lemma walk_down_spec fuel : forall h t k C, rep h t -> t !! k = Some C -> loose t k -> nelts h < Zpos k * 2 ^ (Z.of_nat fuel + 1) ->
  wp (walk_down less fuel C) h (fun _ h' => sunk h t C h').
Proof using Hwo.
  induction fuel as [|fuel IH]; intros h t k C Hrep HC Hl Hf; cbn [walk_down]; wp_step; apply (smallest_spec h t k); try done.
  1, 3: intros Hb; rewrite bool_decide_true by done; apply wp_ret; exists t, k; by split_and!.
  - intros c m Hup Hm _ _. exfalso. assert (Hc : is_Some (t !! c)) by by exists m. apply (rep_full _ _ Hrep) in Hc. change (2 ^ (Z.of_nat 0 + 1)) with 2 in Hf.
    destruct c; cbn in Hup; try done; injection Hup as ->; lia.
  - intros c m Hup Hm Hless Hmin. pose proof (up_ne _ _ Hup) as Hne.
    rewrite bool_decide_false; [|intros ->; rewrite (wo_asym _ Hwo _ _ Hless) in Hless; done].
    wp_step. eapply wp_mono; [by apply (swap_spec h t k c)|]. intros _ h1 (Hrep1 & Hn1 & Hd1). destruct (down_step t k c C m Hl Hup HC Hm Hless Hmin) as [Hl1 _].
    eapply wp_mono; [apply (IH h1 _ c C Hrep1); try done; [by apply swapped_down|]|].
    + rewrite Hn1. replace (Z.of_nat (S fuel) + 1) with (Z.succ (Z.of_nat fuel + 1)) in Hf by lia. rewrite Z.pow_succ_r in Hf by lia.
      assert (2 * Zpos k <= Zpos c) by (destruct c; cbn in Hup; try done; injection Hup as ->; lia). pose proof (Z.pow_pos_nonneg 2 (Z.of_nat fuel + 1)). nia.
    + intros u h' (t' & k' & R1 & R2 & R3 & R4 & R5 & R6 & R7). exists t', k'. split_and!; try done; [|congruence|auto]. intros p. rewrite R5. by apply swapped_elem.
Qed.
End order.

(* ------------------------------------------------------------------ *)
(** ** The path to a position *)

(** The path of [path_loop] has the bits of the position, the highest first. *)
Fixpoint enc (m : positive) (path : Z) : Z :=
  match m with xH => path | xO j => enc j (2 * path) | xI j => enc j (2 * path + 1) end.
Fixpoint depth (m : positive) : nat := match m with xH => O | xO j | xI j => S (depth j) end.

Lemma depth_bound m n : Zpos m < 2 ^ (Z.of_nat n + 1) -> (depth m <= n)%nat.
Proof.
  revert n. induction m as [m IH|m IH|]; intros n Hn; cbn; [| |lia]; (destruct n as [|n]; [change (2 ^ (Z.of_nat 0 + 1)) with 2 in Hn; lia|]);
    (apply le_n_S, IH; replace (Z.of_nat (S n) + 1) with (Z.succ (Z.of_nat n + 1)) in Hn by lia; rewrite Z.pow_succ_r in Hn; lia).
Qed.

Lemma lor_bit path b : 0 <= path -> 0 <= b < 2 -> Z.lor (Z.shiftl path 1) b = 2 * path + b.
Proof.
  intros Hp Hb. rewrite Z.shiftl_mul_pow2 by lia. change (2 ^ 1) with 2. assert (b = 0 \/ b = 1) as [-> | ->] by lia.
  - rewrite Z.lor_0_r. lia.
  - replace (path * 2) with (2 * path) by lia. destruct path; [done|done|lia].
Qed.

Lemma path_loop_spec h (Q : Z * Z -> heap -> Prop) m : forall fuel path k, 0 <= path < 2 ^ Z.of_nat k -> (k + depth m <= 31)%nat -> (depth m <= fuel)%nat ->
  Q (enc m path, Z.of_nat (k + depth m)) h -> wp (path_loop fuel path (Z.of_nat k) (Zpos m)) h Q.
Proof.
  assert (Hstep : forall fuel path k b j, 0 <= path < 2 ^ Z.of_nat k -> (k + 1 <= 31)%nat -> 0 <= b < 2 ->
    path_loop (S fuel) path (Z.of_nat k) (2 * Zpos j + b) h = path_loop fuel (2 * path + b) (Z.of_nat (S k)) (Zpos j) h).
  { intros fuel path k b j Hp Hk Hb. cbn [path_loop]. rewrite (proj2 (Z.ltb_ge _ _)) by lia.
    replace (Z.land (2 * Zpos j + b) 1) with b by (change 1 with (Z.ones 1) at 1; rewrite Z.land_ones by lia; by apply (Z.mod_unique _ _ (Zpos j)); [left|]).
    replace ((2 * Zpos j + b) / 2) with (Zpos j) by (apply (Z.div_unique _ _ _ b); [by left|done]). f_equal.
    - unfold uint32. rewrite Z.mod_small; [apply lor_bit; lia|]. rewrite Z.shiftl_mul_pow2 by lia. change (2 ^ 1) with 2.
      pose proof (Z.pow_le_mono_r 2 (Z.of_nat k) 30 ltac:(lia) ltac:(lia)). change (2 ^ 30) with 1073741824 in *. lia.
    - unfold uint32. rewrite Z.mod_small; lia. }
  induction m as [m IH|m IH|]; intros fuel path k Hp Hk Hf HQ; cbn [depth enc] in *.
  3: { destruct fuel; cbn; by rewrite Nat.add_0_r in HQ. }
  all: destruct fuel as [|fuel]; [lia|]; unfold wp.
  - rewrite Pos2Z.inj_xI, (Hstep fuel path k 1 m Hp ltac:(lia) ltac:(lia)).
    apply IH; [rewrite Nat2Z.inj_succ, Z.pow_succ_r; lia|lia|lia|]. by replace (S k + depth m)%nat with (k + S (depth m))%nat by lia.
  - rewrite Pos2Z.inj_xO, <- (Z.add_0_r (2 * Zpos m)), (Hstep fuel path k 0 m Hp ltac:(lia) ltac:(lia)), Z.add_0_r.
    apply IH; [rewrite Nat2Z.inj_succ, Z.pow_succ_r; lia|lia|lia|]. by replace (S k + depth m)%nat with (k + S (depth m))%nat by lia.
Qed.

(** The slot whose pointer is at position [q]. *)
Definition slot_at (t : layout) (q : positive) (sl : slot) : Prop :=
  match q with
  | xH => sl = SMin
  | xO j => exists p, t !! j = Some p /\ sl = SLeft p
  | xI j => exists p, t !! j = Some p /\ sl = SRight p
  end.

Lemma load_slot_any n h t q sl (Q : node_ptr -> heap -> Prop) : rep h t -> slot_at t q sl -> Q (t !! q) (set_nelts n h) -> wp (load sl) (set_nelts n h) Q.
Proof.
  intros Hrep Hs HQ. destruct q as [j|j|]; cbn in Hs; [destruct Hs as (p & Hp & ->)..|subst sl]; cbn [load].
  - wp_step. eapply wp_node_at; [by apply (rep_nodes _ _ Hrep)|]. by apply wp_ret.
  - wp_step. eapply wp_node_at; [by apply (rep_nodes _ _ Hrep)|]. by apply wp_ret.
  - apply wp_gets. cbn. by rewrite (rep_min _ _ Hrep).
Qed.
Lemma load_slot h t q sl (Q : node_ptr -> heap -> Prop) : rep h t -> slot_at t q sl -> Q (t !! q) h -> wp (load sl) h Q.
Proof. intros Hrep Hs HQ. destruct h as [m n ns]. by apply (load_slot_any n {| min := m; nelts := n; nodes := ns |} t q). Qed.

Lemma walk_spec h t (Q : slot * slot -> heap -> Prop) : rep h t -> forall m fuel path k, 0 <= path -> 0 <= k ->
  (forall j, up m = Some j -> is_Some (t !! j)) ->
  (forall par child, slot_at t m child -> slot_at t (default xH (up m)) par -> wp (walk fuel path k par child) h Q) ->
  wp (walk (depth m + fuel) (enc m path) (k + Z.of_nat (depth m)) SMin SMin) h Q.
Proof.
  intros Hrep. assert (Hup : forall j j', is_Some (t !! j) -> up j = Some j' -> is_Some (t !! j')) by (intros j j' [p Hp] Hj; by eapply up_node).
  assert (Hgo : forall m b fuel path k par child, 0 <= path -> 0 <= k -> is_Some (t !! m) -> slot_at t m child ->
    (forall p, t !! m = Some p -> wp (walk fuel path k child (if b : bool then SRight p else SLeft p)) h Q) -> wp (walk (S fuel) (2 * path + Z.b2z b) (k + 1) par child) h Q).
  { intros m b fuel path k par child Hp Hk [p Hm] Hs HQ. cbn [walk]. rewrite (proj2 (Z.leb_gt _ _)) by lia. wp_step. eapply load_slot; [done|done|].
    rewrite Hm. wp_step. eapply wp_require; [done|]. wp_step. eapply wp_node_at; [by apply (rep_nodes _ _ Hrep)|].
    rewrite Z.shiftr_div_pow2 by lia. change (2 ^ 1) with 2. replace (k + 1 - 1) with k by lia.
    replace ((2 * path + Z.b2z b) / 2) with path by (apply (Z.div_unique _ _ _ (Z.b2z b)); [left; destruct b; cbn; lia|done]).
    rewrite Z.add_comm, Z.add_b2z_double_bit0. by apply HQ. }
  induction m as [m IH|m IH|]; intros fuel path k Hp Hk Hm HQ; cbn [depth enc up] in *.
  - replace (S (depth m) + fuel)%nat with (depth m + S fuel)%nat by lia. replace (k + Z.of_nat (S (depth m))) with (k + 1 + Z.of_nat (depth m)) by lia.
    apply IH; [lia|lia|intros j Hj; eapply Hup; [by apply Hm|done]|]. intros par child Hc _. apply (Hgo m true); try done; [by apply Hm|].
    intros p Hmp. apply HQ; [by exists p|done].
  - replace (S (depth m) + fuel)%nat with (depth m + S fuel)%nat by lia. replace (k + Z.of_nat (S (depth m))) with (k + 1 + Z.of_nat (depth m)) by lia.
    apply IH; [lia|lia|intros j Hj; eapply Hup; [by apply Hm|done]|]. intros par child Hc _. rewrite <- (Z.add_0_r (2 * path)). apply (Hgo m false); try done; [by apply Hm|].
    intros p Hmp. apply HQ; [by exists p|done].
  - rewrite Z.add_0_r. by apply HQ.
Qed.

(** The path is computed and followed. *)
Lemma find_slot h t m (K : slot -> slot -> HM unit) (Q : unit -> heap -> Prop) : rep h t -> (forall j, up m = Some j -> is_Some (t !! j)) -> Zpos m < 2 ^ 32 ->
  (forall par child, slot_at t m child -> slot_at t (default xH (up m)) par -> wp (K par child) h Q) ->
  wp (let* (path, k) := path_loop UINT_FUEL 0 0 (Zpos m) in let* (par, child) := walk UINT_FUEL path k SMin SMin in K par child) h Q.
Proof.
  intros Hrep Hm Hlt HQ. pose proof (depth_bound m 31 Hlt) as Hd. wp_step. apply (path_loop_spec h _ m UINT_FUEL 0 O); [lia|lia|unfold UINT_FUEL; lia|].
  wp_step. replace UINT_FUEL with (depth m + (32 - depth m))%nat by (unfold UINT_FUEL; lia). apply (walk_spec h t _ Hrep m _ 0 0); [lia|lia|done|].
  intros par child Hc Hp. destruct (32 - depth m)%nat; cbn; by apply HQ.
Qed.

(* ------------------------------------------------------------------ *)
(** ** The last position *)

(** A node outside the heap can change. *)
Lemma rep_frame h t f x : rep h t -> ~ elem t x -> rep (set_nodes (alter f x (nodes h)) h) t.
Proof.
  intros Hrep Hx. split; try apply Hrep. intros i p Hi. cbn [set_nodes nodes]. rewrite lookup_alter_ne; [by apply Hrep|]. intros <-. apply Hx. by exists i.
Qed.

(** What is stored through a slot. *)
Definition stored (h : heap) (sl : slot) (v : node_ptr) : heap :=
  match sl with
  | SMin => set_min v h
  | SLeft p => set_nodes (alter (with_left v) p (nodes h)) h
  | SRight p => set_nodes (alter (with_right v) p (nodes h)) h
  end.
Lemma wp_store_any n h t q sl v (Q : unit -> heap -> Prop) : rep h t -> slot_at t q sl -> Q tt (set_nelts n (stored h sl v)) -> wp (store sl v) (set_nelts n h) Q.
Proof.
  intros Hrep Hs HQ. destruct q as [j|j|]; cbn in Hs; [destruct Hs as (p & Hp & ->)..|subst sl]; cbn [store]; [..|by apply wp_modify];
    (apply wp_set_field; [cbn; rewrite (rep_nodes _ _ Hrep _ _ Hp); eauto|exact HQ]).
Qed.
Lemma wp_heap_store h t q sl v (Q : unit -> heap -> Prop) : rep h t -> slot_at t q sl -> Q tt (stored h sl v) -> wp (store sl v) h Q.
Proof.
  intros Hrep Hs HQ. destruct h as [m n ns]. apply (wp_store_any n {| min := m; nelts := n; nodes := ns |} t q); [done..|]. by destruct sl.
Qed.
Lemma stored_dom h sl v : same_dom h (stored h sl v).
Proof. intros x Hx. destruct sl; cbn; auto with heap_nodes. Qed.

(** Only the pointers to position [m] change. *)
Lemma entry_around t t' m v (j : positive) : (forall x, x <> m -> t' !! x = t !! x) -> t' !! m = v -> up j <> Some m ->
  entry t' j = if decide (m = xO j) then with_left v (entry t j) else if decide (m = xI j) then with_right v (entry t j) else entry t j.
Proof.
  intros Hx Hv Hup. assert (Hp : up j ≫= (t' !!.) = up j ≫= (t !!.)) by (destruct (up j) eqn:E; [|done]; cbn; apply Hx; congruence).
  unfold entry, with_left, with_right. case_decide as E1; [subst m; cbn; rewrite (Hx (xI j)) by lia; by rewrite Hv, Hp|].
  case_decide as E2; [subst m; cbn; rewrite (Hx (xO j)) by lia; by rewrite Hv, Hp|]. by rewrite (Hx (xO j)), (Hx (xI j)), Hp.
Qed.

Lemma stored_nodes h t m sl v j p : rep h t -> slot_at t m sl -> t !! j = Some p ->
  nodes (stored h sl v) !! p = Some (if decide (m = xO j) then with_left v (entry t j) else if decide (m = xI j) then with_right v (entry t j) else entry t j).
Proof.
  intros Hrep Hs Hj. pose proof (rep_nodes _ _ Hrep _ _ Hj) as Hn. destruct m as [g|g|]; cbn in Hs; [destruct Hs as (G & HG & ->)..|subst sl]; cbn [stored set_nodes nodes set_min].
  - rewrite decide_False by done. destruct (decide (j = g)) as [->|Hne].
    + rewrite decide_True by done. assert (G = p) as -> by congruence. by rewrite lookup_alter_eq, Hn.
    + rewrite decide_False by congruence. rewrite lookup_alter_ne; [done|]. by eapply (rep_ne h t g j).
  - destruct (decide (j = g)) as [->|Hne].
    + rewrite decide_True by done. assert (G = p) as -> by congruence. by rewrite lookup_alter_eq, Hn.
    + rewrite decide_False by congruence. rewrite decide_False by done. rewrite lookup_alter_ne; [done|]. by eapply (rep_ne h t g j).
  - by rewrite !decide_False by done.
Qed.
Lemma stored_other h t m sl v x : slot_at t m sl -> ~ elem t x -> nodes (stored h sl v) !! x = nodes h !! x.
Proof.
  intros Hs Hx. destruct m as [g|g|]; cbn in Hs; [destruct Hs as (G & HG & ->)..|subst sl]; cbn [stored set_nodes nodes set_min]; try done;
    (rewrite lookup_alter_ne; [done|]; intros ->; apply Hx; by exists g).
Qed.
Lemma stored_min h t m sl v : rep h t -> slot_at t m sl -> min (stored h sl v) = if decide (m = xH) then v else t !! xH.
Proof. intros Hrep Hs. rewrite <- (rep_min _ _ Hrep). destruct m as [g|g|]; cbn in Hs; [destruct Hs as (G & HG & ->)..|subst sl]; done. Qed.
Lemma stored_nelts h sl v : nelts (stored h sl v) = nelts h.
Proof. by destruct sl. Qed.

(** A node is put behind the last one. *)
Lemma attach_rep h t m sl x : rep h t -> Zpos m = nelts h + 1 -> nelts h + 1 < 2 ^ 32 -> slot_at t m sl -> ~ elem t x ->
  nodes h !! x = Some {| left := None; right := None; parent := up m ≫= (t !!.) |} ->
  rep (set_nelts (nelts h + 1) (stored h sl (Some x))) (<[m := x]> t).
Proof.
  intros Hrep Hm Hlt Hs Hx Hnew. assert (Hnone : forall j, (m <= j)%positive -> t !! j = None).
  { intros j Hj. apply eq_None_not_Some. rewrite (rep_full _ _ Hrep). lia. }
  split; cbn [set_nelts nodes min nelts].
  - intros j p Hj. destruct (decide (j = m)) as [->|Hne].
    + rewrite lookup_insert_eq in Hj. injection Hj as <-. rewrite (stored_other _ t m) by done. rewrite Hnew. unfold entry. f_equal.
      rewrite !lookup_insert_ne, (Hnone (xO m)), (Hnone (xI m)) by lia. f_equal. destruct (up m) as [g|] eqn:Eg; [|done]. cbn. apply up_ne in Eg. by rewrite lookup_insert_ne.
    + rewrite lookup_insert_ne in Hj by done. rewrite (stored_nodes h t m sl _ j p) by done. f_equal. symmetry. apply entry_around.
      * intros y Hy. by rewrite lookup_insert_ne.
      * apply lookup_insert_eq.
      * intros Hup. apply up_lt in Hup. rewrite (Hnone j) in Hj by lia. done.
  - intros i j p Hi Hj. destruct (decide (i = m)) as [->|Hi'], (decide (j = m)) as [->|Hj']; rewrite ?lookup_insert_eq in *; rewrite ?lookup_insert_ne in * by done.
    + done.
    + injection Hi as <-. destruct Hx. by exists j.
    + injection Hj as <-. destruct Hx. by exists i.
    + by eapply (rep_inj _ _ Hrep).
  - rewrite (stored_min _ t m) by done. case_decide; [subst m; by rewrite lookup_insert_eq|by rewrite lookup_insert_ne].
  - intros i. destruct (decide (i = m)) as [->|Hne]; [rewrite lookup_insert_eq; split; [lia|eauto]|]. rewrite lookup_insert_ne, (rep_full _ _ Hrep) by done. lia.
  - pose proof (rep_size _ _ Hrep). lia.
Qed.

(** The last node is taken off. *)
Lemma detach_rep h t m sl : rep h t -> Zpos m = nelts h -> slot_at t m sl -> rep (set_nelts (nelts h - 1) (stored h sl None)) (delete m t).
Proof.
  intros Hrep Hm Hs. assert (Hnone : forall j, (m < j)%positive -> t !! j = None).
  { intros j Hj. apply eq_None_not_Some. rewrite (rep_full _ _ Hrep). lia. }
  split; cbn [set_nelts nodes min nelts].
  - intros j p Hj. apply lookup_delete_Some in Hj as [Hne Hj]. rewrite (stored_nodes h t m sl _ j p) by done. f_equal. symmetry. apply entry_around.
    + intros y Hy. by rewrite lookup_delete_ne.
    + apply lookup_delete_eq.
    + intros Hup. apply up_lt in Hup. rewrite (Hnone j) in Hj by lia. done.
  - intros i j p [_ Hi]%lookup_delete_Some [_ Hj]%lookup_delete_Some. by eapply (rep_inj _ _ Hrep).
  - rewrite (stored_min _ t m) by done. case_decide; [subst m; by rewrite lookup_delete_eq|by rewrite lookup_delete_ne].
  - intros i. destruct (decide (i = m)) as [->|Hne]; [rewrite lookup_delete_eq; split; [by intros []|lia]|].
    rewrite lookup_delete_ne, (rep_full _ _ Hrep) by done. lia.
  - pose proof (rep_size _ _ Hrep). lia.
Qed.

(* ------------------------------------------------------------------ *)
(** ** A node takes the place of another *)

Definition after_replace (h : heap) (t : layout) (i x : positive) : gmap positive heap_node :=
  let m := alter (with_parent (up i ≫= (t !!.))) x (alter (with_right (t !! xI i)) x (alter (with_left (t !! xO i)) x (nodes h))) in
  let m := adopted (t !! xI i) x (adopted (t !! xO i) x m) in
  match i with
  | xH => m
  | xO g => from_option (fun G => alter (with_left (Some x)) G m) m (t !! g)
  | xI g => from_option (fun G => alter (with_right (Some x)) G m) m (t !! g)
  end.

Lemma after_replace_dom h t i x y : is_Some (nodes h !! y) -> is_Some (after_replace h t i x !! y).
Proof.
  intros Hy. unfold after_replace. destruct i;
    repeat match goal with |- context [from_option _ _ ?o] => destruct o; cbn [from_option] end; auto 10 with heap_nodes.
Qed.

Section replace.
Context (h : heap) (t : layout) (x : positive) (n0 : heap_node) (Hrep : rep h t) (Hx : ~ elem t x) (Hnx : nodes h !! x = Some n0).

Lemma not_new j p : t !! j = Some p -> p <> x.
Proof using Hx. intros Hj ->. apply Hx. by exists j. Qed.

Ltac off := first [apart | solve [eapply not_new; eassumption] | solve [apply not_eq_sym; eapply not_new; eassumption]
                  | solve [let y := fresh in let E := fresh in intros y E; eapply not_new; exact E] ].
Ltac lookups' :=
  repeat first [ rewrite lookup_alter_eq | rewrite lookup_alter_ne by off | rewrite lookup_adopted_ne by off | rewrite lookup_adopted_eq ].

Lemma wp_replace i N (Q : unit -> heap -> Prop) : t !! i = Some N ->
  Q tt {| min := match i with xH => Some x | _ => min h end; nelts := nelts h; nodes := after_replace h t i x |} ->
  wp (replace_node N x) h Q.
Proof using Hrep Hx Hnx.
  intros HN HQ. pose proof (rep_nodes _ _ Hrep) as Hn. pose proof (not_new _ _ HN) as HNx. unfold replace_node.
  wp_step. eapply wp_node_at; [by apply Hn|]. wp_step. apply wp_set_field; [eauto|]. wp_step. apply wp_set_field; [cbn; auto with heap_nodes|].
  wp_step. apply wp_set_field; [cbn; auto with heap_nodes|]. cbn [set_nodes nodes min nelts entry left right parent].
  wp_step. eapply wp_node_at; [cbn; lookups'; rewrite Hnx; reflexivity|]. cbn [with_left with_right with_parent left].
  wp_step. apply wp_adopt; [cbn; intros y Hy; rewrite !lookup_alter_ne by off; rewrite (Hn _ _ Hy); eauto|]. cbn [set_nodes nodes min nelts].
  wp_step. eapply wp_node_at; [cbn; lookups'; rewrite Hnx; reflexivity|]. cbn [with_left with_right with_parent right].
  wp_step. apply wp_adopt; [cbn; intros y Hy; apply adopted_is_Some; rewrite !lookup_alter_ne by off; rewrite (Hn _ _ Hy); eauto|]. cbn [set_nodes nodes min nelts].
  wp_step. eapply wp_node_at; [cbn; lookups'; by apply Hn|]. cbn [parent entry].
  destruct i as [g|g|]; cbn [up mbind option_bind] in *; [..|exact HQ];
    (destruct (up_node _ _ _ _ g Hrep HN eq_refl) as [G HG]; rewrite HG; cbn [after_replace up mbind option_bind] in HQ; rewrite HG in HQ; cbn [from_option] in HQ;
     wp_step; eapply wp_node_at; [cbn; lookups'; by apply Hn|]; cbn [entry left]; unfold ptr_eqb).
  - rewrite bool_decide_false; [|intros HN'; pose proof (rep_inj _ _ Hrep _ _ _ HN HN'); lia]. apply wp_set_field; [cbn; lookups'; rewrite (Hn _ _ HG); eauto|exact HQ].
  - rewrite bool_decide_true by done. apply wp_set_field; [cbn; lookups'; rewrite (Hn _ _ HG); eauto|exact HQ].
Qed.

Ltac settle' :=
  cbn [fmap option_fmap option_map]; unfold entry, with_left, with_right, with_parent; cbn [left right parent up mbind option_bind];
  repeat first [rewrite lookup_insert_eq | rewrite lookup_insert_ne by positions]; congruence.

Lemma replace_entries i N j p : t !! i = Some N -> <[i := x]> t !! j = Some p -> after_replace h t i x !! p = Some (entry (<[i := x]> t) j).
Proof using Hrep Hx Hnx.
  intros HN Hj. pose proof (rep_nodes _ _ Hrep) as Hn. assert (HNx := not_new _ _ HN).
  assert (Hother : forall y, y <> xO i -> y <> xI i -> up i <> Some y -> y <> i -> entry (<[i := x]> t) y = entry t y).
  { intros y H1 H2 H3 H4. apply entry_same. intros z Hz. apply lookup_insert_ne. intros <-. destruct Hz as [->|[->|Hz]]; cbn in *; try done.
    destruct y; cbn in Hz; congruence. }
  destruct i as [g|g|]; cbn [after_replace up mbind option_bind];
    try (destruct (up_node _ _ _ _ g Hrep HN eq_refl) as [G HG]; rewrite HG; cbn [from_option]).
  all: match type of HN with _ !! ?i = _ =>
    destruct (decide (j = i)) as [->|Hji];
    [ rewrite lookup_insert_eq in Hj; injection Hj as <-; lookups'; rewrite Hnx; settle'
    | rewrite lookup_insert_ne in Hj by done;
      destruct (decide (j = xO i)) as [->|]; [rewrite ?Hj; lookups'; rewrite (Hn _ _ Hj); settle'|];
      destruct (decide (j = xI i)) as [->|]; [rewrite ?Hj; lookups'; rewrite (Hn _ _ Hj); settle'|] ] end.
  3: rewrite Hother by (try done; cbn; congruence); lookups'; by apply Hn.
  all: destruct (decide (j = g)) as [->|]; [|rewrite Hother by (try done; cbn; congruence); lookups'; by apply Hn].
  all: rewrite HG in Hj; injection Hj as <-; lookups'; rewrite (Hn _ _ HG); unfold entry; destruct (up g) as [y|] eqn:Ey; [apply up_lt in Ey|]; settle'.
Qed.

Lemma replace_spec i N : t !! i = Some N ->
  wp (replace_node N x) h (fun _ h' => rep h' (<[i := x]> t) /\ nelts h' = nelts h /\ same_dom h h').
Proof using Hrep Hx Hnx.
  intros HN. apply (wp_replace i); [done|]. split_and!; [|done|intros y; apply after_replace_dom]. split; cbn [nodes min nelts].
  - intros j p. by apply (replace_entries i N).
  - intros j k p Hj Hk. destruct (decide (j = i)) as [->|Hj'], (decide (k = i)) as [->|Hk']; rewrite ?lookup_insert_eq in *; rewrite ?lookup_insert_ne in * by done.
    + done.
    + injection Hj as <-. by destruct (not_new _ _ Hk).
    + injection Hk as <-. by destruct (not_new _ _ Hj).
    + by eapply (rep_inj _ _ Hrep).
  - destruct i; rewrite ?lookup_insert_eq; rewrite ?lookup_insert_ne by done; try done; apply Hrep.
  - intros j. rewrite <- (rep_full _ _ Hrep). destruct (decide (j = i)) as [->|]; [rewrite lookup_insert_eq, HN; split; eauto|by rewrite lookup_insert_ne].
  - apply Hrep.
Qed.
End replace.

(* ------------------------------------------------------------------ *)
(** ** A priority queue *)

Section queue.
Context (less : positive -> positive -> bool) (Hwo : weak_order less).

(** The heap holds the set [X] of nodes, in order, and the nodes of [Y] are
    in memory. *)
Definition is_heap (h : heap) (X : gset positive) : Prop :=
  (exists t, rep h t /\ ordered less t /\ forall p, elem t p <-> p ∈ X) /\ nelts h = Z.of_nat (size X).

Lemma rep_count h t (X : gset positive) : rep h t -> (forall p, elem t p <-> p ∈ X) -> nelts h = Z.of_nat (size X).
Proof.
  intros Hrep He. pose proof (rep_size _ _ Hrep) as Hs. set (n := Z.to_nat (nelts h)).
  assert (Hget : forall i, (i < n)%nat -> is_Some (t !! Pos.of_succ_nat i)) by (intros i Hi; apply (rep_full _ _ Hrep); lia).
  set (f := fun i => default xH (t !! Pos.of_succ_nat i)).
  assert (Hl : X = list_to_set (f <$> seq 0 n)).
  { apply set_eq. intros p. rewrite <- He, elem_of_list_to_set, list_elem_of_fmap. split.
    - intros [i Hi]. assert (Hii : is_Some (t !! i)) by eauto. apply (rep_full _ _ Hrep) in Hii. exists (pred (Pos.to_nat i)).
      assert (Ei : Pos.of_succ_nat (pred (Pos.to_nat i)) = i) by lia. split; [unfold f; by rewrite Ei, Hi|]. apply elem_of_seq. lia.
    - intros (i & -> & Hi%elem_of_seq). destruct (Hget i ltac:(lia)) as [q Hq]. exists (Pos.of_succ_nat i). unfold f. by rewrite Hq. }
  rewrite Hl, size_list_to_set; [rewrite length_fmap, length_seq; lia|].
  apply NoDup_fmap_2_strong; [|apply NoDup_seq]. intros i j Hi%elem_of_seq Hj%elem_of_seq Hf. destruct (Hget i ltac:(lia)) as [p Hp], (Hget j ltac:(lia)) as [q Hq].
  unfold f in Hf. rewrite Hp, Hq in Hf. cbn in Hf. subst q. pose proof (rep_inj _ _ Hrep _ _ _ Hp Hq). lia.
Qed.

Lemma arranged_heap h t h' X : arranged less h t h' -> (forall p, elem t p <-> p ∈ X) -> is_heap h' X /\ nelts h' = nelts h /\ same_dom h h'.
Proof using Hwo.
  intros (t' & H1 & H2 & H3 & H4 & H5) He. assert (He' : forall p, elem t' p <-> p ∈ X) by (intros p; by rewrite H3).
  split_and!; [|done|done]. split; [by exists t'|by eapply rep_count].
Qed.

(** [heap_min] is the least element. *)
Lemma heap_min_least h X : is_heap h X ->
  match min h with None => X = ∅ | Some p => p ∈ X /\ forall q, q ∈ X -> less q p = false end.
Proof using Hwo.
  intros [(t & Hrep & Ho & He) Hn]. rewrite (rep_min _ _ Hrep). destruct (t !! xH) as [p|] eqn:Ep.
  - split; [apply He; by exists xH|]. intros q [i Hi]%He. revert q Hi.
    assert (Hirr : forall y, less y y = false) by (intros y; destruct (less y y) eqn:E; [rewrite (wo_asym _ Hwo _ _ E) in E; done|done]).
    induction i as [i IH|i IH|]; intros q Hi; [..|replace q with p by congruence; apply Hirr];
      (destruct (up_node _ _ _ _ i Hrep Hi eq_refl) as [P HP]; apply (wo_negtrans _ Hwo q P p); [eapply Ho; [|exact HP|exact Hi]; done|by apply IH]).
  - apply leibniz_equiv, size_empty_inv. assert (~ 1 <= nelts h); [|rewrite Hn in *; lia]. intros H1. apply (rep_full _ _ Hrep xH) in H1. rewrite Ep in H1. by destruct H1.
Qed.

Lemma heap_insert_spec h X x : is_heap h X -> x ∉ X -> is_Some (nodes h !! x) -> Z.of_nat (size X) + 1 < 2 ^ 32 ->
  wp (heap_insert less x) h (fun _ h' => is_heap h' ({[x]} ∪ X) /\ same_dom h h').
Proof using Hwo.
  intros [(t & Hrep & Ho & He) Hn] HxX Hsx Hlt. assert (Hnx : ~ elem t x) by by rewrite He. pose proof Hsx as [n0 Hx]. unfold heap_insert.
  do 3 (wp_step; apply wp_set_field; [cbn; auto with heap_nodes|]).
  match goal with |- wp _ ?s _ => set (h3 := s) end. assert (Hrep3 : rep h3 t) by (unfold h3; by repeat apply (rep_frame _ t _ x)).
  assert (Hx3 : nodes h3 !! x = Some {| left := None; right := None; parent := None |}) by (cbn; by rewrite !lookup_alter_eq, Hx).
  assert (Hd3 : same_dom h h3) by (intros y Hy; cbn; auto with heap_nodes). assert (Hn3 : nelts h3 = nelts h) by done.
  clearbody h3. wp_step. apply wp_gets. pose proof (rep_size _ _ Hrep) as Hsz. unfold uint32 at 1. rewrite Hn3, Z.mod_small by lia.
  destruct (1 + nelts h) as [|m|] eqn:Em; [lia| |lia].
  apply (find_slot h3 t m); [done| |lia|].
  { intros j Hj. apply (rep_full _ _ Hrep). apply up_lt in Hj. lia. }
  intros par child Hc Hp. wp_step. eapply load_slot; [done|exact Hp|].
  assert (Hpar : t !! default xH (up m) = up m ≫= (t !!.)).
  { destruct (up_cases m) as [[-> ->]|(g & -> & _)]; [|done]. cbn. apply eq_None_not_Some. rewrite (rep_full _ _ Hrep). lia. }
  rewrite Hpar. wp_step. apply wp_set_field; [eauto|]. match goal with |- wp _ ?s _ => set (h4 := s) end. assert (Hrep4 : rep h4 t) by by apply rep_frame.
  assert (Hx4 : nodes h4 !! x = Some {| left := None; right := None; parent := up m ≫= (t !!.) |}) by (cbn; by rewrite lookup_alter_eq, Hx3).
  assert (Hd4 : same_dom h h4) by (intros y Hy; cbn; auto with heap_nodes). assert (Hn4 : nelts h4 = nelts h) by done. clearbody h4.
  wp_step. eapply wp_heap_store; [done|done|]. wp_step. apply wp_modify. rewrite stored_nelts, Hn4. unfold uint32. rewrite Z.mod_small by lia.
  pose proof (attach_rep h4 t m child x Hrep4 ltac:(lia) ltac:(lia) Hc Hnx Hx4) as Hrep5. rewrite Hn4 in Hrep5.
  assert (Hnone : forall j, (m <= j)%positive -> t !! j = None) by (intros j Hj; apply eq_None_not_Some; rewrite (rep_full _ _ Hrep); lia).
  assert (Hkids : forall j q, up j = Some m -> <[m := x]> t !! j = Some q -> False).
  { intros j q Hj Hq. apply up_lt in Hj. rewrite lookup_insert_ne, Hnone in Hq by lia. done. }
  eapply wp_mono; [apply (walk_up_spec less Hwo _ _ _ m x Hrep5); [apply lookup_insert_eq| | |]|].
  - split; [|intros g j p q _ Hj _ Hq; by destruct (Hkids j q)]. intros i j p q Hj Him Hjm Hp' Hq. rewrite lookup_insert_ne in Hp', Hq by done. by eapply Ho.
  - intros j p q Hj _ Hq. by destruct (Hkids j q).
  - unfold UINT_FUEL. change (2 ^ (Z.of_nat 32 + 1)) with (2 ^ 33). lia.
  - intros u h' Ha. apply (arranged_heap _ _ _ ({[x]} ∪ X)) in Ha as (H1 & _ & H2).
    + split; [done|]. intros y Hy. apply H2. cbn. apply stored_dom. by apply Hd4.
    + intros p. rewrite elem_of_union, elem_of_singleton, <- He. split.
      * intros [j Hj]. destruct (decide (j = m)) as [->|]; [rewrite lookup_insert_eq in Hj; injection Hj as ->; by left|]. rewrite lookup_insert_ne in Hj by done. right. by exists j.
      * intros [->|[j Hj]]; [exists m; apply lookup_insert_eq|]. exists j. rewrite lookup_insert_ne; [done|]. intros <-. by rewrite Hnone in Hj.
Qed.

(** Putting the last node in the place of another one. *)
Lemma replaced_loose t i n N x : ordered less t -> t !! i = Some N -> t !! n = Some x -> i <> n -> loose less (<[i := x]> (delete n t)) i.
Proof using Hwo.
  intros Ho HN Hx Hin. split.
  - intros j k p q Hk Hj' Hk' Hp Hq. rewrite lookup_insert_ne in Hp, Hq by done. apply lookup_delete_Some in Hp as [_ Hp], Hq as [_ Hq]. by eapply Ho.
  - intros g j p q Hg Hj Hp Hq. pose proof (up_ne _ _ Hg). pose proof (up_ne _ _ Hj). rewrite lookup_insert_ne in Hp, Hq by done.
    apply lookup_delete_Some in Hp as [_ Hp], Hq as [_ Hq]. apply (wo_negtrans _ Hwo q N p); [eapply Ho; [exact Hj|exact HN|exact Hq]|eapply Ho; [exact Hg|exact Hp|exact HN]].
Qed.

Lemma replaced_elem h t i n N x p : rep h t -> t !! i = Some N -> t !! n = Some x -> i <> n -> elem (<[i := x]> (delete n t)) p <-> elem t p /\ p <> N.
Proof.
  intros Hrep HN Hx Hin. split.
  - intros [j Hj]. destruct (decide (j = i)) as [->|Hne].
    + rewrite lookup_insert_eq in Hj. injection Hj as <-. split; [by exists n|]. by eapply (rep_ne h t n i).
    + rewrite lookup_insert_ne in Hj by done. apply lookup_delete_Some in Hj as [_ Hj]. split; [by exists j|]. by eapply (rep_ne h t j i).
  - intros [[j Hj] Hp]. destruct (decide (j = n)) as [->|Hne]; [exists i; rewrite lookup_insert_eq; congruence|].
    exists j. rewrite lookup_insert_ne, lookup_delete_ne by congruence. done.
Qed.

Lemma heap_remove_spec h X x : is_heap h X -> x ∈ X ->
  wp (heap_remove less (Some x)) h (fun _ h' => is_heap h' (X ∖ {[x]}) /\ same_dom h h').
Proof using Hwo.
  intros [(t & Hrep & Ho & He) Hn] HxX. pose proof (proj2 (He x) HxX) as [i Hi]. pose proof (rep_size _ _ Hrep) as Hsz.
  assert (Hii : is_Some (t !! i)) by eauto. apply (rep_full _ _ Hrep) in Hii. unfold heap_remove. wp_step. apply wp_gets.
  rewrite (proj2 (Z.eqb_neq _ _)) by lia. destruct (nelts h) as [|n|] eqn:En; [lia| |lia].
  apply (find_slot h t n (fun _ max => _)); [done| |lia|].
  { intros j Hj. apply (rep_full _ _ Hrep). apply up_lt in Hj. lia. }
  intros _ sl Hsl _. wp_step. apply wp_modify. rewrite En. unfold uint32. rewrite Z.mod_small by lia.
  assert (Hc : is_Some (t !! n)) by (apply (rep_full _ _ Hrep); lia). destruct Hc as [C HC].
  wp_step. eapply load_slot_any; [done|done|]. rewrite HC. wp_step. eapply wp_store_any; [done|done|].
  pose proof (detach_rep h t n sl Hrep ltac:(lia) Hsl) as Hrep1. rewrite En in Hrep1. set (h1 := set_nelts _ _) in *.
  assert (Hd1 : same_dom h h1) by apply stored_dom. assert (Hn1 : nelts h1 = Zpos n - 1) by done.
  assert (HoD : ordered less (delete n t)) by (intros a b p q Hab [_ Hp]%lookup_delete_Some [_ Hq]%lookup_delete_Some; eapply Ho; [exact Hab|exact Hp|exact Hq]).
  assert (HCi : C = x <-> n = i) by (split; [intros ->; by apply (rep_inj _ _ Hrep n i x)|intros ->; congruence]).
  unfold ptr_eqb. destruct (decide (C = x)) as [->|HCx].
  - rewrite bool_decide_true by done. assert (n = i) as -> by by apply HCi. wp_step. apply wp_gets. rewrite (rep_min _ _ Hrep1).
    rewrite bool_decide_false; [|intros Ex; symmetry in Ex; apply lookup_delete_Some in Ex as [Hne Hx1]; apply Hne; by apply (rep_inj _ _ Hrep i xH x)].
    apply wp_ret. split; [|done]. assert (HeD : forall p, elem (delete i t) p <-> p ∈ X ∖ {[x]}).
    { intros p. rewrite elem_of_difference, elem_of_singleton, <- He. split.
      - intros [j [Hne Hj]%lookup_delete_Some]. split; [by exists j|]. intros ->. apply Hne. by apply (rep_inj _ _ Hrep i j x).
      - intros [[j Hj] Hp]. exists j. rewrite lookup_delete_ne; [done|]. intros <-. congruence. }
    split; [by exists (delete i t)|by eapply rep_count].
  - rewrite bool_decide_false by congruence. assert (Hin : i <> n) by naive_solver. wp_step. eapply wp_require; [done|]. wp_step. eapply wp_require; [done|].
    assert (HnC : ~ elem (delete n t) C) by (intros [j [Hne Hj]%lookup_delete_Some]; apply Hne; by apply (rep_inj _ _ Hrep n j C)).
    assert (HCn : is_Some (nodes h1 !! C)) by (apply Hd1; rewrite (rep_nodes _ _ Hrep _ _ HC); eauto). destruct HCn as [cn HCn].
    wp_step. eapply wp_mono; [apply (replace_spec h1 (delete n t) C cn Hrep1 HnC HCn i x); by rewrite lookup_delete_ne|].
    intros _ h2 (Hrep2 & Hn2 & Hd2). wp_step. eapply wp_mono; [apply (walk_down_spec less Hwo UINT_FUEL h2 _ i C Hrep2); [apply lookup_insert_eq|by eapply replaced_loose|]|].
    { rewrite Hn2, Hn1. unfold UINT_FUEL. change (2 ^ (Z.of_nat 32 + 1)) with (2 ^ 33). lia. }
    intros _ h3 (t3 & k & Hrep3 & Hk & Hl3 & Hb3 & He3 & Hn3 & Hd3). assert (Hkk : is_Some (t3 !! k)) by eauto. apply (rep_full _ _ Hrep3) in Hkk.
    eapply wp_mono; [apply (walk_up_spec less Hwo UINT_FUEL h3 t3 k C Hrep3 Hk Hl3 Hb3)|].
    { unfold UINT_FUEL. change (2 ^ (Z.of_nat 32 + 1)) with (2 ^ 33). lia. }
    intros u h' Ha. apply (arranged_heap _ _ _ (X ∖ {[x]})) in Ha as (H1 & _ & H2); [by split; [|auto]|].
    intros p. rewrite He3, (replaced_elem h t i n x C) by done. by rewrite elem_of_difference, elem_of_singleton, He.
Qed.
End queue.

(* ------------------------------------------------------------------ *)
(** ** Sequences of operations *)

Inductive heap_op : Type := HInsert (x : positive) | HRemove (x : positive).
Definition run_heap_op (less : positive -> positive -> bool) (op : heap_op) : HM unit :=
  match op with HInsert x => heap_insert less x | HRemove x => heap_remove less (Some x) end.
Definition set_op (X : gset positive) (op : heap_op) : gset positive :=
  match op with HInsert x => {[x]} ∪ X | HRemove x => X ∖ {[x]} end.

(** A node is inserted that is in memory and not in the heap, and removed when
    it is in the heap. *)
Fixpoint ops_ok (m : gmap positive heap_node) (X : gset positive) (ops : list heap_op) : Prop :=
  match ops with
  | [] => True
  | op :: ops =>
      match op with
      | HInsert x => x ∉ X /\ is_Some (m !! x) /\ Z.of_nat (size X) + 1 < 2 ^ 32
      | HRemove x => x ∈ X
      end /\ ops_ok m (set_op X op) ops
  end.

Definition heap_of (m : gmap positive heap_node) : heap := {| min := None; nelts := 0; nodes := m |}.

Lemma heap_of_empty less m : is_heap less (heap_of m) ∅.
Proof.
  split; [|by rewrite size_empty]. exists ∅. split_and!; [split; cbn; try done|done|].
  - intros i. rewrite lookup_empty. split; [by intros []|lia].
  - intros p. split; [by intros [i Hi]|set_solver].
Qed.

Lemma heap_ops_spec less (Hwo : weak_order less) m ops : forall h X, is_heap less h X -> (forall x, is_Some (m !! x) -> is_Some (nodes h !! x)) -> ops_ok m X ops ->
  wp (iterM (run_heap_op less) ops) h (fun _ h' => is_heap less h' (fold_left set_op ops X)).
Proof.
  induction ops as [|op ops IH]; intros h X Hh Hm Hops; cbn [iterM fold_left]; [by apply wp_ret|]. destruct Hops as [Hop Hops]. wp_step.
  assert (Hwp : wp (run_heap_op less op) h (fun _ h' => is_heap less h' (set_op X op) /\ same_dom h h')).
  { destruct op as [x|x]; cbn [run_heap_op set_op]; [destruct Hop as (H1 & H2 & H3); apply heap_insert_spec; auto|by apply heap_remove_spec]. }
  eapply wp_mono; [exact Hwp|]. intros u h' [Hh' Hd]. apply IH; auto.
Qed.

(** C12. The linked heap of libuv is a priority queue: for every strict weak
    order and every sequence of [heap_insert] and [heap_remove] calls on nodes
    in memory, starting with the empty heap, no pointer outside the nodes is
    followed and the calls return; then the heap counts the nodes that were
    inserted and not removed, they form a complete tree in which every node
    has correct pointers to its parent and its children, and [heap_min] is a
    least one of them, or NULL if there is none. *)
Theorem heap_priority_queue less m ops : weak_order less -> ops_ok m ∅ ops ->
  let X := fold_left set_op ops ∅ in
  exists h, iterM (run_heap_op less) ops (heap_of m) = inr (tt, h) /\ nelts h = Z.of_nat (size X) /\
    (exists t, rep h t /\ forall p, p ∈ X <-> exists i, t !! i = Some p) /\
    match min h with None => X = ∅ | Some p => p ∈ X /\ forall q, q ∈ X -> less q p = false end.
Proof.
  intros Hwo Hops X. destruct (wp_inv _ _ _ (heap_ops_spec less Hwo m ops (heap_of m) ∅ (heap_of_empty less m) ltac:(done) Hops)) as ([] & h & E & Hh).
  exists h. split; [done|]. fold X in Hh. pose proof (heap_min_least less Hwo h X Hh) as Hmin. destruct Hh as [(t & Hrep & Ho & He) Hn].
  split_and!; [done| |done]. exists t. split; [done|]. intros p. by rewrite <- He.
Qed.

Lemma heap_priority_queue_witness :
  let ops := [HInsert 5; HInsert 3; HInsert 4; HInsert 1; HInsert 2; HRemove 1; HRemove 5]%positive in
  let m := list_to_map ((fun x => (x, {| left := None; right := None; parent := None |})) <$> [1; 2; 3; 4; 5]%positive) in
  exists h, iterM (run_heap_op Pos.ltb) ops (heap_of m) = inr (tt, h) /\ nelts h = 3 /\ min h = Some 2%positive.
Proof.
  intros ops m. destruct (heap_priority_queue Pos.ltb m ops) as (h & E & Hn & _ & Hmin).
  - split; intros a b; [intros c| |intros c]; rewrite ?Pos.ltb_lt, ?Pos.ltb_ge; lia.
  - subst ops m. repeat split; try set_solver; try (vm_compute; by eexists); vm_compute; reflexivity.
  - exists h. split; [exact E|]. split; [rewrite Hn; vm_compute; reflexivity|]. clear Hn Hmin. vm_compute in E. injection E as <-. reflexivity.
Defined.
