(* ===== verification/Timers.v ===== *)
(** * Timers (libuv/src/timer.c) and the extension's timeout

    The timers of an event loop: handles with the time they are due, in the
    heap of Heap ordered by that time and by the order of starting.  The
    callbacks that [uv__run_timers] calls may start and stop timers; what they
    will do is the [script] of the loop, one list of calls for each callback;
    it is finite, so that a run in which callbacks start timers with a timeout
    of zero for ever, which does not return in timer.c, is not a run of the
    model.
    [CurlTimeoutCallback] and [PerformRequests] of extension.cpp work on the
    timer [g_Timeout]. *)

From S2P Require Import Prelude Heap HeapFacts.

Definition UV_EINVAL : Z := -22.
Definition INT_MAX : Z := 2 ^ 31 - 1.
Definition UINT64_MAX : Z := 2 ^ 64 - 1.

(** [uv_timer_t]; its [heap_node] is the node of the same address.  The flags
    are those of [uv__is_active] and [uv__is_closing]. *)
Record uv_timer_t : Type := {
  timer_cb : option Z;
  timeout : Z;
  repeat : Z;
  start_id : Z;
  is_active : bool;
  is_closing : bool;
}.

(** What a callback can do. *)
Inductive timer_call : Type :=
| TStart (h : positive) (cb timeout repeat : Z)
| TStop (h : positive)
| TAgain (h : positive)
| TSetRepeat (h : positive) (repeat : Z)
| TClose (h : positive).

Record uv_loop_t : Type := {
  time : Z;
  timer_counter : Z;
  timer_heap : heap;
  handles : gmap positive uv_timer_t;
  script : list (list timer_call);         (* what the next callbacks will do *)
  fired : list (positive * uv_timer_t);    (* the callbacks that were called, last first *)
}.
Abbreviation LM := (ST uv_loop_t).

Definition set_time (t : Z) (l : uv_loop_t) : uv_loop_t :=
  {| time := t; timer_counter := timer_counter l; timer_heap := timer_heap l; handles := handles l; script := script l; fired := fired l |}.
Definition set_counter (n : Z) (l : uv_loop_t) : uv_loop_t :=
  {| time := time l; timer_counter := n; timer_heap := timer_heap l; handles := handles l; script := script l; fired := fired l |}.
Definition set_heap (h : heap) (l : uv_loop_t) : uv_loop_t :=
  {| time := time l; timer_counter := timer_counter l; timer_heap := h; handles := handles l; script := script l; fired := fired l |}.
Definition set_handles (m : gmap positive uv_timer_t) (l : uv_loop_t) : uv_loop_t :=
  {| time := time l; timer_counter := timer_counter l; timer_heap := timer_heap l; handles := m; script := script l; fired := fired l |}.
Definition set_script (s : list (list timer_call)) (l : uv_loop_t) : uv_loop_t :=
  {| time := time l; timer_counter := timer_counter l; timer_heap := timer_heap l; handles := handles l; script := s; fired := fired l |}.
Definition add_fired (x : positive * uv_timer_t) (l : uv_loop_t) : uv_loop_t :=
  {| time := time l; timer_counter := timer_counter l; timer_heap := timer_heap l; handles := handles l; script := script l; fired := x :: fired l |}.

Definition with_active (b : bool) (x : uv_timer_t) : uv_timer_t :=
  {| timer_cb := timer_cb x; timeout := timeout x; repeat := repeat x; start_id := start_id x; is_active := b; is_closing := is_closing x |}.
Definition with_closing (x : uv_timer_t) : uv_timer_t :=
  {| timer_cb := timer_cb x; timeout := timeout x; repeat := repeat x; start_id := start_id x; is_active := is_active x; is_closing := true |}.
Definition with_repeat (r : Z) (x : uv_timer_t) : uv_timer_t :=
  {| timer_cb := timer_cb x; timeout := timeout x; repeat := r; start_id := start_id x; is_active := is_active x; is_closing := is_closing x |}.

Definition handle_at (h : positive) : LM uv_timer_t := let* m := gets handles in require (m !! h).
Definition set_handle (h : positive) (f : uv_timer_t -> uv_timer_t) : LM unit :=
  let* x := handle_at h in modify (fun l => set_handles (<[h := f x]> (handles l)) l).

(** What [timer_less_than] reads of a node. *)
Definition key (m : gmap positive uv_timer_t) (h : positive) : Z * Z :=
  match m !! h with Some x => (timeout x, start_id x) | None => (0, 0) end.
Definition timer_less_than (m : gmap positive uv_timer_t) (ha hb : positive) : bool :=
  let '(ta, ia) := key m ha in
  let '(tb, ib) := key m hb in
  if ta <? tb then true else if tb <? ta then false else ia <? ib.

Definition on_heap {A} (m : HM A) : LM A := zoom timer_heap set_heap m.

(** The handle and its node are memory of the caller. *)
Definition uv_timer_init (h : positive) : LM Z :=
  modify (fun l =>
    let old := handles l !! h in
    set_handles (<[h := {| timer_cb := None; timeout := 0; repeat := 0;
                           start_id := match old with Some x => start_id x | None => 0 end;
                           is_active := false; is_closing := false |}]> (handles l))
      (set_heap (set_nodes (match nodes (timer_heap l) !! h with
                            | Some _ => nodes (timer_heap l)
                            | None => <[h := {| left := None; right := None; parent := None |}]> (nodes (timer_heap l))
                            end) (timer_heap l)) l)) ;;;
  ret 0.

Definition uv_timer_stop (h : positive) : LM Z :=
  let* x := handle_at h in
  if negb (is_active x) then ret 0
  else
    let* m := gets handles in
    on_heap (heap_remove (timer_less_than m) (Some h)) ;;;
    set_handle h (with_active false) ;;;
    ret 0.

Definition uv_timer_start (h : positive) (cb : option Z) (timeout_ repeat_ : Z) : LM Z :=
  let* x := handle_at h in
  if is_closing x || bool_decide (cb = None) then ret UV_EINVAL
  else
    (if is_active x then let* _ := uv_timer_stop h in ret tt else ret tt) ;;;
    let* now := gets time in
    let clamped_timeout := (now + timeout_) mod 2 ^ 64 in
    let clamped_timeout := if clamped_timeout <? timeout_ then UINT64_MAX else clamped_timeout in
    let* id := gets timer_counter in
    set_handle h (fun x => {| timer_cb := cb; timeout := clamped_timeout; repeat := repeat_; start_id := id;
                              is_active := is_active x; is_closing := is_closing x |}) ;;;
    modify (set_counter ((id + 1) mod 2 ^ 64)) ;;;
    let* m := gets handles in
    on_heap (heap_insert (timer_less_than m) h) ;;;
    set_handle h (with_active true) ;;;
    ret 0.

Definition uv_timer_again (h : positive) : LM Z :=
  let* x := handle_at h in
  match timer_cb x with
  | None => ret UV_EINVAL
  | Some cb =>
      (if negb (repeat x =? 0) then
         let* _ := uv_timer_stop h in
         let* _ := uv_timer_start h (Some cb) (repeat x) (repeat x) in ret tt
       else ret tt) ;;;
      ret 0
  end.

Definition uv_timer_set_repeat (h : positive) (repeat_ : Z) : LM unit := set_handle h (with_repeat repeat_).
Definition uv_timer_get_repeat (h : positive) : LM Z := let* x := handle_at h in ret (repeat x).
Definition uv_timer_get_due_in (h : positive) : LM Z :=
  let* x := handle_at h in
  let* now := gets time in
  ret (if timeout x <=? now then 0 else timeout x - now).

Definition uv__timer_close (h : positive) : LM unit := let* _ := uv_timer_stop h in ret tt.
(** [uv_close] of a timer, up to the queue of handles whose [close_cb] the loop
    will call: a handle must not be closed twice. *)
Definition uv_close_timer (h : positive) : LM unit :=
  let* x := handle_at h in
  assert_ (negb (is_closing x)) ;;;
  set_handle h with_closing ;;;
  uv__timer_close h.

Definition uv__next_timeout : LM Z :=
  let* heap_node := on_heap heap_min in
  match heap_node with
  | None => ret (-1)
  | Some h =>
      let* x := handle_at h in
      let* now := gets time in
      if timeout x <=? now then ret 0
      else
        let diff := timeout x - now in
        ret (if INT_MAX <? diff then INT_MAX else diff)
  end.

(** A callback closes only handles for which [uv_is_closing] is false. *)
Definition run_call (c : timer_call) : LM unit :=
  match c with
  | TStart h cb t r => let* _ := uv_timer_start h (Some cb) t r in ret tt
  | TStop h => let* _ := uv_timer_stop h in ret tt
  | TAgain h => let* _ := uv_timer_again h in ret tt
  | TSetRepeat h r => uv_timer_set_repeat h r
  | TClose h => let* x := handle_at h in if is_closing x then ret tt else uv_close_timer h
  end.

(** [handle->timer_cb(handle)]: the next part of the script. *)
Definition run_callback (h : positive) : LM unit :=
  let* x := handle_at h in
  let* _ := require (timer_cb x) in
  let* s := gets script in
  match s with
  | [] => ret tt
  | calls :: s' => modify (set_script s') ;;; iterM run_call calls
  end.

Fixpoint run_timers_loop (fuel : nat) : LM unit :=
  let* heap_node := on_heap heap_min in
  match heap_node with
  | None => ret tt
  | Some h =>
      let* x := handle_at h in
      let* now := gets time in
      if now <? timeout x then ret tt
      else match fuel with
           | O => fail OutOfFuel
           | S fuel =>
               let* _ := uv_timer_stop h in
               let* _ := uv_timer_again h in
               modify (add_fired (h, x)) ;;;
               run_callback h ;;;
               run_timers_loop fuel
           end
  end.

(** Each callback takes a part of the script; behind it, each fires a timer
    that is not started again within the call. *)
Definition uv__run_timers : LM unit :=
  let* s := gets script in
  let* m := gets handles in
  run_timers_loop (length s + size m).

(* ------------------------------------------------------------------ *)
(** ** The timeout of the extension (extension.cpp) *)

Definition g_Timeout : positive := 1.
(** The function [PerformRequests], as the value of a [timer_cb]. *)
Definition cb_PerformRequests : Z := 1.

(** [CurlTimeoutCallback], as libuv sees it; [timeout_ms] is a [long]. *)
Definition curl_asks (timeout_ms : Z) : timer_call :=
  if timeout_ms =? -1 then TStop g_Timeout
  else TStart g_Timeout cb_PerformRequests (timeout_ms mod 2 ^ 64) 0.

(** The event loop between two rounds: libcurl asks for a timeout from a
    callback of a socket, or the clock has advanced to [now] and the timers
    run; [asks] is what libcurl asks for in each call of [PerformRequests]. *)
Inductive loop_event : Type :=
| Asks (timeout_ms : Z)
| Advance (now : Z) (asks : list (list Z)).

Definition run_loop_event (ev : loop_event) : LM unit :=
  match ev with
  | Asks ms => run_call (curl_asks ms)
  | Advance now asks =>
      modify (fun l => set_script (map (map curl_asks) asks) (set_time now l)) ;;;
      uv__run_timers ;;;
      modify (set_script [])
  end.

(** A loop with the one timer of [SDK_OnLoad]. *)
Definition loop_init (now : Z) : uv_loop_t :=
  {| time := now; timer_counter := 0; timer_heap := {| min := None; nelts := 0; nodes := ∅ |}; handles := ∅; script := []; fired := [] |}.
Definition loop_start (now : Z) : uv_loop_t :=
  match uv_timer_init g_Timeout (loop_init now) with inr (_, l) => l | inl _ => loop_init now end.
