(* ===== verification/TimerFacts.v ===== *)
(** * Timers fire when they are due, and in order

    The heap of an event loop holds the active timers; what each operation
    does to the table of handles; [uv__run_timers] calls the timers that are
    due in the order of their times. *)

From Stdlib Require Import Sorting.Sorted.
From S2P Require Import Prelude Heap HeapFacts Timers.

(* ------------------------------------------------------------------ *)
(** ** The order of timers *)

Definition key_lt (a b : Z * Z) : Prop := a.1 < b.1 \/ a.1 = b.1 /\ a.2 < b.2.

Lemma less_than_spec m a b : timer_less_than m a b = true <-> key_lt (key m a) (key m b).
Proof.
  unfold timer_less_than, key_lt. destruct (key m a) as [ta ia], (key m b) as [tb ib]. cbn.
  destruct (Z.ltb_spec ta tb), (Z.ltb_spec tb ta); rewrite ?Z.ltb_lt; split; intros; try done; lia.
Qed.
Lemma less_than_false m a b : timer_less_than m a b = false <-> ~ key_lt (key m a) (key m b).
Proof. rewrite <- less_than_spec. by destruct (timer_less_than m a b). Qed.

Lemma timer_order m : weak_order (timer_less_than m).
Proof.
  split; [intros a b c|intros a b|intros a b c]; rewrite ?less_than_spec, ?less_than_false; unfold key_lt; lia.
Qed.

(** Another comparison of the same elements. *)
Lemma is_heap_ext less less' h X : (forall p q, p ∈ X -> q ∈ X -> less p q = less' p q) -> is_heap less h X -> is_heap less' h X.
Proof.
  intros Hext [(t & Hrep & Ho & He) Hn]. split; [|done]. exists t. split_and!; [done| |done].
  intros i j p q Hup Hi Hj. rewrite <- Hext by (apply He; eexists; eassumption). by eapply Ho.
Qed.

(* ------------------------------------------------------------------ *)
(** ** The invariant *)

Definition active_set (m : gmap positive uv_timer_t) : gset positive := dom (filter (fun hx => is_active hx.2 = true) m).

Lemma elem_active m h : h ∈ active_set m <-> exists x, m !! h = Some x /\ is_active x = true.
Proof.
  unfold active_set. rewrite elem_of_dom. unfold is_Some. setoid_rewrite map_lookup_filter_Some. done.
Qed.

Definition is_uint64 (z : Z) : Prop := 0 <= z < 2 ^ 64.

Record loop_ok (l : uv_loop_t) : Prop := {
  lo_heap : is_heap (timer_less_than (handles l)) (timer_heap l) (active_set (handles l));
  lo_nodes : forall h, is_Some (handles l !! h) -> is_Some (nodes (timer_heap l) !! h);
  lo_size : Z.of_nat (size (handles l)) < 2 ^ 32;
  lo_time : 0 <= time l < UINT64_MAX;
  lo_counter : is_uint64 (timer_counter l);
  (** Active timers have callbacks, and numbers in the order of starting. *)
  lo_active : forall h x, handles l !! h = Some x -> is_active x = true ->
    is_Some (timer_cb x) /\ is_uint64 (timeout x) /\ 0 <= start_id x < timer_counter l;
  lo_ids : forall h h' x x', handles l !! h = Some x -> handles l !! h' = Some x' -> is_active x = true -> is_active x' = true ->
    start_id x = start_id x' -> h = h';
  lo_repeat : forall h x, handles l !! h = Some x -> is_uint64 (repeat x);
}.

(** A change of a handle that leaves the others as they are, in a heap that
    fits. *)
Lemma active_insert m h x : active_set (<[h := x]> m) = if is_active x then {[h]} ∪ active_set m else active_set m ∖ {[h]}.
Proof.
  apply set_eq. intros g. rewrite elem_active. destruct (decide (g = h)) as [->|Hne].
  - setoid_rewrite lookup_insert_eq. destruct (is_active x) eqn:E.
    + split; [set_solver|]. intros _. by exists x.
    + split; [intros (y & [= <-] & Hy); congruence|set_solver].
  - setoid_rewrite lookup_insert_ne; [|done]. rewrite <- elem_active. destruct (is_active x); set_solver.
Qed.

Lemma key_insert_ne m h x g : g <> h -> key (<[h := x]> m) g = key m g.
Proof. intros. unfold key. by rewrite lookup_insert_ne. Qed.
Lemma less_insert m h x p q : p <> h -> q <> h -> timer_less_than (<[h := x]> m) p q = timer_less_than m p q.
Proof. intros. unfold timer_less_than. by rewrite !key_insert_ne. Qed.

Lemma less_same_keys m h x y p q : m !! h = Some y -> timeout x = timeout y -> start_id x = start_id y ->
  timer_less_than (<[h := x]> m) p q = timer_less_than m p q.
Proof.
  intros Hh H1 H2. assert (Hk : forall g, key (<[h := x]> m) g = key m g); [|unfold timer_less_than; by rewrite !Hk].
  intros g. destruct (decide (g = h)) as [->|]; [|by apply key_insert_ne]. unfold key. by rewrite lookup_insert_eq, Hh, H1, H2.
Qed.

Lemma active_subset m : active_set m ⊆ dom m.
Proof. intros h (x & Hx & _)%elem_active. by apply elem_of_dom_2 in Hx. Qed.
Lemma active_size m : (size (active_set m) <= size m)%nat.
Proof. rewrite <- (size_dom m). apply subseteq_size, active_subset. Qed.
Lemma active_size_lt m h x : m !! h = Some x -> is_active x = false -> (size (active_set m) + 1 <= size m)%nat.
Proof.
  intros Hh Hx. assert (Hsub : {[h]} ∪ active_set m ⊆ dom m) by (apply union_least; [apply singleton_subseteq_l; by apply elem_of_dom_2 in Hh|apply active_subset]).
  apply subseteq_size in Hsub. rewrite size_union, size_singleton, size_dom in Hsub; [lia|].
  intros y Hy1%elem_of_singleton (x' & Hx' & Ha)%elem_active. subst. congruence.
Qed.

(* ------------------------------------------------------------------ *)
(** ** The operations *)

Lemma wp_handle_at h l x (Q : uv_timer_t -> uv_loop_t -> Prop) : handles l !! h = Some x -> Q x l -> wp (handle_at h) l Q.
Proof. intros E HQ. unfold handle_at. wp_steps. by eapply wp_require. Qed.
Lemma wp_set_handle h f l x (Q : unit -> uv_loop_t -> Prop) : handles l !! h = Some x ->
  Q tt (set_handles (<[h := f x]> (handles l)) l) -> wp (set_handle h f) l Q.
Proof. intros E HQ. unfold set_handle. wp_step. eapply wp_handle_at; [done|]. by apply wp_modify. Qed.

(** The table and the counter become [m] and [n]; the heap follows. *)
Definition becomes (l : uv_loop_t) (m : gmap positive uv_timer_t) (n : Z) (l' : uv_loop_t) : Prop :=
  loop_ok l' /\ handles l' = m /\ timer_counter l' = n /\ time l' = time l /\ script l' = script l /\ fired l' = fired l.

Lemma becomes_refl l : loop_ok l -> becomes l (handles l) (timer_counter l) l.
Proof. by intros. Qed.
Lemma becomes_trans l m n l1 m' n' l2 : becomes l m n l1 -> becomes l1 m' n' l2 -> becomes l m' n' l2.
Proof. intros (H1 & H2 & H3 & H4 & H5 & H6) (G1 & G2 & G3 & G4 & G5 & G6). split_and!; congruence. Qed.

(** A handle changes; the heap holds the active handles again. *)
Lemma loop_ok_change l h x y n hp : loop_ok l -> handles l !! h = Some x -> timer_counter l <= n < 2 ^ 64 ->
  let m := <[h := y]> (handles l) in
  is_heap (timer_less_than m) hp (active_set m) -> same_dom (timer_heap l) hp ->
  is_uint64 (repeat y) ->
  (is_active y = true -> is_Some (timer_cb y) /\ is_uint64 (timeout y) /\ 0 <= start_id y < n /\
    forall h' x', h' <> h -> handles l !! h' = Some x' -> is_active x' = true -> start_id y <> start_id x') ->
  loop_ok {| time := time l; timer_counter := n; timer_heap := hp; handles := m; script := script l; fired := fired l |}.
Proof.
  intros Hok Hh Hn m Hhp Hd Hr Hy. pose proof (lo_counter _ Hok) as Hc. unfold is_uint64 in Hc. split; cbn; try done.
  - intros g Hg. apply Hd, (lo_nodes _ Hok). unfold m in Hg. destruct (decide (g = h)) as [->|]; [eauto|by rewrite lookup_insert_ne in Hg].
  - unfold m. rewrite map_size_insert, Hh. cbn. apply Hok.
  - apply Hok.
  - unfold is_uint64. lia.
  - intros g z Hg Hz. unfold m in Hg. destruct (decide (g = h)) as [->|]; [rewrite lookup_insert_eq in Hg; injection Hg as <-; destruct (Hy Hz) as (?&?&?&_); split_and!; done || lia|].
    rewrite lookup_insert_ne in Hg by done. destruct (lo_active _ Hok _ _ Hg Hz) as (?&?&?). split_and!; try done; lia.
  - intros g g' z z' Hg Hg' Hz Hz' Hid. unfold m in *.
    destruct (decide (g = h)) as [->|Hgh], (decide (g' = h)) as [->|Hgh']; rewrite ?lookup_insert_eq in *; rewrite ?lookup_insert_ne in * by done; simplify_eq; try done.
    + destruct (Hy Hz) as (_&_&_&Hne). by destruct (Hne _ _ Hgh' Hg' Hz').
    + destruct (Hy Hz') as (_&_&_&Hne). by destruct (Hne _ _ Hgh Hg Hz).
    + by eapply (lo_ids _ Hok).
  - intros g z Hg. unfold m in Hg. destruct (decide (g = h)) as [->|]; [rewrite lookup_insert_eq in Hg; by injection Hg as <-|].
    rewrite lookup_insert_ne in Hg by done. by eapply (lo_repeat _ Hok).
Qed.

Lemma with_active_id x : is_active x = false -> with_active false x = x.
Proof. destruct x. cbn. by intros ->. Qed.

Lemma stop_spec l h x : loop_ok l -> handles l !! h = Some x ->
  wp (uv_timer_stop h) l (fun r l' => r = 0 /\ becomes l (<[h := with_active false x]> (handles l)) (timer_counter l) l').
Proof.
  intros Hok Hh. unfold uv_timer_stop. wp_step. eapply wp_handle_at; [done|]. destruct (is_active x) eqn:Ha; cbn [negb].
  - wp_step. apply wp_gets. wp_step. unfold on_heap. apply wp_zoom.
    eapply wp_mono; [apply (heap_remove_spec _ (timer_order _) _ _ h (lo_heap _ Hok)); apply elem_active; by exists x|].
    intros _ hp [Hhp Hd]. wp_step. eapply wp_set_handle; [done|]. apply wp_ret. split; [done|]. split; [|done].
    apply (loop_ok_change l h x); try done; [| |by apply (lo_repeat _ Hok h x)].
    + cbn. pose proof (lo_counter _ Hok). unfold is_uint64 in *. lia.
    + cbn [set_heap handles]. rewrite active_insert. cbn [with_active is_active]. eapply is_heap_ext; [|exact Hhp]. intros p q _ _. symmetry. by eapply less_same_keys.
  - apply wp_ret. split; [done|]. rewrite with_active_id, insert_id by done. by apply becomes_refl.
Qed.

Definition clamp (now t : Z) : Z := Z.min (now + t) UINT64_MAX.
Lemma clamp_spec now t : 0 <= now < 2 ^ 64 -> is_uint64 t ->
  (if (now + t) mod 2 ^ 64 <? t then UINT64_MAX else (now + t) mod 2 ^ 64) = clamp now t /\ is_uint64 (clamp now t).
Proof.
  intros Hn Ht. unfold clamp, UINT64_MAX, is_uint64 in *. destruct (Z_lt_le_dec (now + t) (2 ^ 64)).
  - rewrite Z.mod_small by lia. rewrite (proj2 (Z.ltb_ge _ _)) by lia. lia.
  - replace ((now + t) mod 2 ^ 64) with (now + t - 2 ^ 64) by (apply (Z.mod_unique _ _ 1); lia). rewrite (proj2 (Z.ltb_lt _ _)) by lia. lia.
Qed.

Definition armed (l : uv_loop_t) (x : uv_timer_t) (cb t r : Z) : uv_timer_t :=
  {| timer_cb := Some cb; timeout := clamp (time l) t; repeat := r; start_id := timer_counter l; is_active := true; is_closing := is_closing x |}.

Lemma start_spec l h x cb t r : loop_ok l -> handles l !! h = Some x -> is_closing x = false -> is_uint64 t -> is_uint64 r -> timer_counter l + 1 < 2 ^ 64 ->
  wp (uv_timer_start h (Some cb) t r) l (fun z l' => z = 0 /\ becomes l (<[h := armed l x cb t r]> (handles l)) (timer_counter l + 1) l').
Proof.
  intros Hok Hh Hcl Ht Hr Hc. unfold uv_timer_start. wp_step. eapply wp_handle_at; [done|]. rewrite Hcl. cbn [orb]. rewrite bool_decide_false by done.
  wp_step. assert (Hstop : wp (if is_active x then let* _ := uv_timer_stop h in ret tt else ret tt) l
    (fun _ l1 => becomes l (<[h := with_active false x]> (handles l)) (timer_counter l) l1)).
  { destruct (is_active x) eqn:Ha; [wp_step; eapply wp_mono; [by apply stop_spec|]; intros z l1 [_ H]; by apply wp_ret|].
    apply wp_ret. rewrite with_active_id, insert_id by done. by apply becomes_refl. }
  eapply wp_mono; [exact Hstop|]. clear Hstop. intros _ l1 (Hok1 & Hm1 & Hn1 & Ht1 & Hs1 & Hf1). set (x1 := with_active false x) in *.
  assert (Hh1 : handles l1 !! h = Some x1) by (rewrite Hm1; apply lookup_insert_eq).
  wp_step. apply wp_gets. wp_step. apply wp_gets. pose proof (lo_time _ Hok1) as Htime. unfold UINT64_MAX in Htime.
  destruct (clamp_spec (time l1) t ltac:(lia) Ht) as [-> Hclamp]. wp_step. eapply wp_set_handle; [done|]. wp_step. apply wp_modify. wp_step. apply wp_gets.
  cbn [set_counter set_handles handles time timer_counter timer_heap]. set (y := {| timer_cb := Some cb; timeout := clamp (time l1) t; repeat := r; start_id := timer_counter l1; is_active := is_active x1; is_closing := is_closing x1 |}).
  assert (Hnot : h ∉ active_set (handles l1)) by (intros (z & Hz & Hza)%elem_active; rewrite Hh1 in Hz; injection Hz as <-; done).
  wp_step. unfold on_heap. apply wp_zoom. cbn [timer_heap].
  eapply wp_mono; [apply (heap_insert_spec _ (timer_order (<[h := y]> (handles l1))) _ (active_set (handles l1)) h)|].
  { eapply is_heap_ext; [|apply (lo_heap _ Hok1)]. intros p q Hp Hq. symmetry. apply less_insert; intros ->; done. }
  { done. } { apply (lo_nodes _ Hok1). eauto. }
  { pose proof (active_size_lt (handles l1) h x1 Hh1 eq_refl). pose proof (lo_size _ Hok1). lia. }
  intros _ hp [Hhp Hd]. wp_step. eapply wp_set_handle; [apply lookup_insert_eq|]. apply wp_ret. split; [done|].
  cbn [set_heap set_counter set_handles handles time timer_counter timer_heap script fired]. rewrite insert_insert_eq.
  replace ((timer_counter l1 + 1) mod 2 ^ 64) with (timer_counter l1 + 1) by (rewrite Z.mod_small; [done|]; pose proof (lo_counter _ Hok1); unfold is_uint64 in *; lia).
  assert (Ey : with_active true y = armed l x cb t r) by (unfold y, armed, with_active; cbn; by rewrite Ht1, Hn1).
  split_and!; cbn; [| |by rewrite Hn1|done..].
  - apply (loop_ok_change l1 h x1 _ (timer_counter l1 + 1)); try done; [lia| |].
    + rewrite active_insert. cbn. eapply is_heap_ext; [|exact Hhp]. intros p q _ _. rewrite <- (insert_insert_eq (handles l1) h (with_active true y) y).
      symmetry. eapply less_same_keys; [apply lookup_insert_eq|done..].
    + intros _. cbn. pose proof (lo_counter _ Hok1) as Hc1. unfold is_uint64 in Hc1. split_and!; [eauto|apply Hclamp..|lia|lia|].
      intros g z _ Hg Hz. destruct (lo_active _ Hok1 _ _ Hg Hz) as (_ & _ & Hid). lia.
  - rewrite Ey, Hm1. by rewrite insert_insert_eq.
Qed.

(** A handle changes in what the heap does not read. *)
Lemma field_spec l h x f : loop_ok l -> handles l !! h = Some x -> timeout (f x) = timeout x -> start_id (f x) = start_id x ->
  is_active (f x) = is_active x -> timer_cb (f x) = timer_cb x -> is_uint64 (repeat (f x)) ->
  wp (set_handle h f) l (fun _ l' => becomes l (<[h := f x]> (handles l)) (timer_counter l) l').
Proof.
  intros Hok Hh H1 H2 H3 H4 H5. eapply wp_set_handle; [done|]. split; [|done]. pose proof (lo_counter _ Hok) as Hc. unfold is_uint64 in Hc.
  apply (loop_ok_change l h x); try done; [cbn; lia| |].
  - rewrite active_insert, H3. eapply is_heap_ext; [intros p q _ _; symmetry; by eapply less_same_keys|].
    pose proof (lo_heap _ Hok) as Hhp. assert (E : active_set (handles l) = if is_active x then {[h]} ∪ active_set (handles l) else active_set (handles l) ∖ {[h]}); [|by rewrite <- E].
    rewrite <- active_insert. by rewrite insert_id.
  - rewrite H1, H2, H3, H4. intros Ha. destruct (lo_active _ Hok _ _ Hh Ha) as (?&?&?). split_and!; try done; try lia.
    intros g z Hne Hg Hz Hid. destruct Hne. symmetry. by eapply (lo_ids _ Hok).
Qed.

(* ------------------------------------------------------------------ *)
(** ** What callbacks can do *)

Definition target (c : timer_call) : positive :=
  match c with TStart h _ _ _ | TStop h | TAgain h | TSetRepeat h _ | TClose h => h end.
(** The handle was initialised, and the numbers are of type [uint64_t]. *)
Definition call_ok (m : gmap positive uv_timer_t) (c : timer_call) : Prop :=
  is_Some (m !! target c) /\
  match c with TStart _ _ t r => is_uint64 t /\ is_uint64 r | TSetRepeat _ r => is_uint64 r | _ => True end.

(** What [k] calls on the handles [T] can change: timers that become active
    are due from now on and come behind all earlier ones. *)
Record moves (l : uv_loop_t) (T : positive -> Prop) (k : Z) (l' : uv_loop_t) : Prop := {
  mv_ok : loop_ok l';
  mv_time : time l' = time l;
  mv_fired : fired l' = fired l;
  mv_script : script l' = script l;
  mv_counter : timer_counter l <= timer_counter l' <= timer_counter l + k;
  mv_dom : forall h, is_Some (handles l' !! h) <-> is_Some (handles l !! h);
  mv_same : forall h, ~ T h -> handles l' !! h = handles l !! h;
  mv_later : forall h y, handles l' !! h = Some y -> is_active y = true ->
    (exists x, handles l !! h = Some x /\ is_active x = true /\ timeout x = timeout y /\ start_id x = start_id y) \/
    (time l <= timeout y /\ timer_counter l <= start_id y);
}.

Lemma moves_refl l T : loop_ok l -> moves l T 0 l.
Proof. intros Hok. split; try done; [lia|]. intros h y Hy Ha. left. by exists y. Qed.
Lemma moves_trans l T k l1 T' k' l2 : moves l T k l1 -> moves l1 T' k' l2 -> moves l (fun h => T h \/ T' h) (k + k') l2.
Proof.
  intros [A1 A2 A3 A0 A4 A5 A6 A7] [B1 B2 B3 B0 B4 B5 B6 B7]. split; try done; try congruence; [lia| | |].
  - intros h. by rewrite B5, A5.
  - intros h Hh. rewrite B6, A6; [done|tauto..].
  - intros h y Hy Ha. destruct (B7 h y Hy Ha) as [(x & Hx & Hxa & E1 & E2)|[E1 E2]]; [|right; lia].
    destruct (A7 h x Hx Hxa) as [(z & Hz & Hza & F1 & F2)|[F1 F2]]; [left; exists z; split_and!; try done; congruence|right; lia].
Qed.
Lemma moves_weaken l T k T' k' l' : (forall h, T h -> T' h) -> k <= k' -> moves l T k l' -> moves l T' k' l'.
Proof. intros HT Hk [A1 A2 A3 A0 A4 A5 A6 A7]. split; try done; [lia|]. intros h Hh. apply A6. auto. Qed.

(** A change of one handle. *)
Lemma becomes_moves l h x y n l' k : handles l !! h = Some x -> becomes l (<[h := y]> (handles l)) n l' -> timer_counter l <= n <= timer_counter l + k ->
  (is_active y = true -> (is_active x = true /\ timeout x = timeout y /\ start_id x = start_id y) \/ (time l <= timeout y /\ timer_counter l <= start_id y)) ->
  moves l (eq h) k l'.
Proof.
  intros Hh (Hok & Hm & Hn & Ht & Hs & Hf) Hk Hy. split; try done; [by rewrite Hn|..].
  - intros g. rewrite Hm. destruct (decide (g = h)) as [->|]; [rewrite lookup_insert_eq, Hh; split; eauto|by rewrite lookup_insert_ne].
  - intros g Hg. rewrite Hm, lookup_insert_ne; done.
  - intros g z Hz Ha. rewrite Hm in Hz. destruct (decide (g = h)) as [->|].
    + rewrite lookup_insert_eq in Hz. injection Hz as <-. destruct (Hy Ha) as [(?&?&?)|?]; [left; by exists x|by right].
    + rewrite lookup_insert_ne in Hz by done. left. by exists z.
Qed.

Lemma stop_moves l h : loop_ok l -> is_Some (handles l !! h) -> wp (uv_timer_stop h) l (fun _ l' => moves l (eq h) 0 l').
Proof.
  intros Hok [x Hh]. eapply wp_mono; [by apply (stop_spec l h x)|]. intros r l' [_ Hb]. eapply becomes_moves; [done|done|lia|done].
Qed.
Lemma clamp_ge now t : 0 <= now < UINT64_MAX -> is_uint64 t -> now <= clamp now t /\ (t <> 0 -> now < clamp now t).
Proof. intros Hn Ht. unfold clamp, is_uint64 in *. lia. Qed.
Lemma start_moves l h cb t r : loop_ok l -> is_Some (handles l !! h) -> is_uint64 t -> is_uint64 r -> timer_counter l + 1 < 2 ^ 64 ->
  wp (uv_timer_start h (Some cb) t r) l (fun _ l' => moves l (eq h) 1 l').
Proof.
  intros Hok [x Hh] Ht Hr Hc. destruct (is_closing x) eqn:Hcl.
  - unfold uv_timer_start. wp_step. eapply wp_handle_at; [done|]. rewrite Hcl. apply wp_ret. eapply moves_weaken; [| |by apply (moves_refl l (fun _ => False))]; [done|lia].
  - eapply wp_mono; [by apply (start_spec l h x)|]. intros z l' [_ Hb]. eapply becomes_moves; [done|done|lia|]. intros _. right. cbn.
    destruct (clamp_ge (time l) t (lo_time _ Hok) Ht). lia.
Qed.

(** [uv_timer_again] restarts a timer that repeats, later than now. *)
Lemma again_spec l h x : loop_ok l -> handles l !! h = Some x -> timer_counter l + 1 < 2 ^ 64 ->
  wp (uv_timer_again h) l (fun _ l' => moves l (eq h) 1 l' /\
    exists y, handles l' !! h = Some y /\ timer_cb y = timer_cb x /\ (is_active y = true -> y = x \/ time l < timeout y)).
Proof.
  intros Hok Hh Hc. unfold uv_timer_again. wp_step. eapply wp_handle_at; [done|].
  assert (Hnone : moves l (eq h) 1 l) by (eapply moves_weaken; [| |by apply (moves_refl l (fun _ => False))]; [done|lia]).
  destruct (timer_cb x) as [cb|] eqn:Ecb; [|apply wp_ret; split; [done|]; exists x; split_and!; auto].
  destruct (Z.eqb_spec (repeat x) 0) as [E0|E0]; cbn [negb]; wp_step.
  { apply wp_ret, wp_ret. split; [done|]. exists x. split_and!; auto. }
  wp_step. eapply wp_mono; [by apply (stop_spec l h x)|]. intros z l1 [_ Hb1]. pose proof Hb1 as (Hok1 & Hm1 & Hn1 & Ht1 & _).
  assert (Hh1 : handles l1 !! h = Some (with_active false x)) by (rewrite Hm1; apply lookup_insert_eq).
  assert (Hmv1 : moves l (eq h) 0 l1) by (eapply becomes_moves; [done|done|lia|done]).
  pose proof (lo_repeat _ Hok _ _ Hh) as Hr. wp_step. destruct (is_closing x) eqn:Hcl.
  - unfold uv_timer_start. wp_step. eapply wp_handle_at; [done|]. cbn [with_active is_closing]. rewrite Hcl. cbn [orb]. do 3 apply wp_ret.
    split; [by eapply moves_weaken; [| |exact Hmv1]; [done|lia]|]. exists (with_active false x). by split_and!.
  - eapply wp_mono; [apply (start_spec l1 h _ cb (repeat x) (repeat x) Hok1 Hh1); try done; lia|]. intros z' l2 [_ Hb2]. do 2 apply wp_ret.
    assert (Hlt : time l1 < clamp (time l1) (repeat x)) by (apply clamp_ge; [apply Hok1|done|done]). split.
    + eapply (moves_weaken l (fun g => h = g \/ h = g)); [tauto| |eapply moves_trans; [exact Hmv1|eapply (becomes_moves l1 h _ _ _ l2 1); [done|exact Hb2|lia|]]]; [lia|].
      intros _. right. cbn. lia.
    + destruct Hb2 as (_ & Hm2 & _). eexists. rewrite Hm2, lookup_insert_eq. split_and!; [done|done|]. intros _. right. cbn. by rewrite <- Ht1.
Qed.

Lemma run_call_moves l c : loop_ok l -> call_ok (handles l) c -> timer_counter l + 1 < 2 ^ 64 ->
  wp (run_call c) l (fun _ l' => moves l (eq (target c)) 1 l').
Proof.
  intros Hok [Ht Hc] Hn. destruct c as [h cb t r|h|h|h r|h]; cbn [run_call target] in *.
  - wp_step. destruct Hc as [Hc1 Hc2]. eapply wp_mono; [by apply start_moves|]. intros z l' Hmv. by apply wp_ret.
  - wp_step. eapply wp_mono; [by apply stop_moves|]. intros z l' Hmv. apply wp_ret. eapply moves_weaken; [| |exact Hmv]; [done|lia].
  - destruct Ht as [x Hx]. wp_step. eapply wp_mono; [by apply (again_spec l h x)|]. intros z l' [Hmv _]. by apply wp_ret.
  - destruct Ht as [x Hx]. eapply wp_mono; [by apply (field_spec l h x (with_repeat r))|].
    intros u l' Hb. eapply becomes_moves; [exact Hx|exact Hb|lia|]. cbn. auto.
  - destruct Ht as [x Hx]. wp_step. eapply wp_handle_at; [done|]. destruct (is_closing x) eqn:Hcl; [apply wp_ret; apply (moves_weaken l (eq h) 0); [done|lia|by apply moves_refl]|].
    unfold uv_close_timer. wp_step. eapply wp_handle_at; [done|]. wp_step. apply wp_assert; [by rewrite Hcl|]. wp_step. eapply wp_mono; [apply (field_spec l h x with_closing); try done; by apply (lo_repeat _ Hok h x)|].
    intros u l1 Hb1. assert (Hmv1 : moves l (eq h) 0 l1) by (eapply becomes_moves; [exact Hx|exact Hb1|lia|]; cbn; auto). unfold uv__timer_close. wp_step.
    eapply wp_mono; [apply stop_moves; [apply Hmv1|apply (mv_dom _ _ _ _ Hmv1); eauto]|]. intros z l2 Hmv2. apply wp_ret.
    eapply moves_weaken; [| |eapply moves_trans; [exact Hmv1|exact Hmv2]]; [cbn; tauto|lia].
Qed.

Lemma call_ok_moves l T k l' c : moves l T k l' -> call_ok (handles l) c -> call_ok (handles l') c.
Proof. intros Hmv [H1 H2]. split; [by apply (mv_dom _ _ _ _ Hmv)|done]. Qed.

Lemma run_calls_moves calls : forall l, loop_ok l -> Forall (call_ok (handles l)) calls -> timer_counter l + Z.of_nat (length calls) < 2 ^ 64 ->
  wp (iterM run_call calls) l (fun _ l' => moves l (fun h => h ∈ target <$> calls) (Z.of_nat (length calls)) l').
Proof.
  induction calls as [|c calls IH]; intros l Hok Hc Hn; cbn [iterM]; [by apply wp_ret, moves_refl|]. apply Forall_cons in Hc as [Hc Hcs]. cbn [length] in Hn.
  wp_step. eapply wp_mono; [apply run_call_moves; [done|done|lia]|]. intros u l1 Hmv1. cbv beta in Hmv1.
  eapply wp_mono; [apply IH; [apply Hmv1| |]|].
  - eapply Forall_impl; [exact Hcs|]. intros c'. by eapply (call_ok_moves l).
  - pose proof (mv_counter _ _ _ _ Hmv1). lia.
  - intros u' l2 Hmv2. eapply moves_weaken; [| |eapply moves_trans; [exact Hmv1|exact Hmv2]]; [|cbn [length]; lia].
    cbn. intros h [->|Hh]; [apply elem_of_cons; by left|apply elem_of_cons; by right].
Qed.

(* ------------------------------------------------------------------ *)
(** ** The loop over the timers that are due *)

Definition key_of (x : uv_timer_t) : Z * Z := (timeout x, start_id x).
Definition due (now : Z) (x : uv_timer_t) : Prop := is_active x = true /\ timeout x <= now.
Definition due_set (l : uv_loop_t) : gset positive := dom (filter (fun hx => is_active hx.2 = true /\ timeout hx.2 <= time l) (handles l)).
Lemma elem_due l h : h ∈ due_set l <-> exists x, handles l !! h = Some x /\ due (time l) x.
Proof. unfold due_set. rewrite elem_of_dom. unfold is_Some. setoid_rewrite map_lookup_filter_Some. done. Qed.

Definition script_calls (s : list (list timer_call)) : Z := Z.of_nat (length (List.concat s)).

(** What has happened so far: the callbacks were called in order, each when it
    was due, and before every timer that is active now. *)
Record fired_ok (l : uv_loop_t) : Prop := {
  fo_sorted : StronglySorted (fun a b => key_lt (key_of b.2) (key_of a.2)) (fired l);
  fo_due : forall h x, (h, x) ∈ fired l -> timeout x <= time l /\ start_id x < timer_counter l;
  fo_before : forall h x g y, (h, x) ∈ fired l -> handles l !! g = Some y -> is_active y = true -> key_lt (key_of x) (key_of y);
}.

(** The fuel is enough. *)
Definition enough (fuel : nat) (l : uv_loop_t) : Prop :=
  match script l with
  | [] => (size (due_set l) <= fuel)%nat
  | s => (length s + size (handles l) <= fuel)%nat
  end.

Lemma due_size l : (size (due_set l) <= size (handles l))%nat.
Proof. rewrite <- (size_dom (handles l)). apply subseteq_size. intros h (x & Hx & _)%elem_due. by apply elem_of_dom_2 in Hx. Qed.
Lemma moves_size l T k l' : moves l T k l' -> size (handles l') = size (handles l).
Proof. intros Hmv. rewrite <- !size_dom. apply f_equal, set_eq. intros h. rewrite !elem_of_dom. apply (mv_dom _ _ _ _ Hmv). Qed.

Lemma key_lt_trans a b c : key_lt a b -> key_lt b c -> key_lt a c.
Proof. unfold key_lt. lia. Qed.

(** The state behind a call of the timer [h]. *)
Record called (l : uv_loop_t) (h : positive) (x : uv_timer_t) (l' : uv_loop_t) : Prop := {
  ca_ok : loop_ok l';
  ca_fired_ok : fired_ok l';
  ca_fired : fired l' = (h, x) :: fired l;
  ca_time : time l' = time l;
  ca_script : script l' = script l;
  ca_counter : timer_counter l <= timer_counter l' <= timer_counter l + 1;
  ca_dom : forall g, is_Some (handles l' !! g) <-> is_Some (handles l !! g);
  ca_same : forall g, g <> h -> handles l' !! g = handles l !! g;
  ca_cb : exists y, handles l' !! h = Some y /\ is_Some (timer_cb y);
  ca_due : due_set l' ⊆ due_set l ∖ {[h]};
}.

(** The timer [h] is called: it is stopped, restarted if it repeats, and noted. *)
Lemma fire_step l h x (K : LM unit) (Q : unit -> uv_loop_t -> Prop) :
  loop_ok l -> fired_ok l -> min (timer_heap l) = Some h -> handles l !! h = Some x -> due (time l) x -> timer_counter l + 1 < 2 ^ 64 ->
  (forall l', called l h x l' -> wp K l' Q) ->
  wp (let* _ := uv_timer_stop h in let* _ := uv_timer_again h in modify (add_fired (h, x)) ;;; K) l Q.
Proof.
  intros Hok [F1 F2 F3] Hmin Hh [Ha Hdue] Hc HK. wp_step. eapply wp_mono; [by apply (stop_spec l h x)|]. intros z l1 [_ Hb1].
  pose proof Hb1 as (Hok1 & Hm1 & Hn1 & Ht1 & Hs1 & Hf1). assert (Hh1 : handles l1 !! h = Some (with_active false x)) by (rewrite Hm1; apply lookup_insert_eq).
  wp_step. eapply wp_mono; [apply (again_spec l1 h _ Hok1 Hh1); lia|]. intros z' l2 [[M1 M2 M3 M0 M4 M5 M6 M7] (y & Hy & Hcb & Hagain)]. wp_step. apply wp_modify. apply HK.
  destruct (lo_active _ Hok h x Hh Ha) as (Hcbx & Htx & Hidx).
  assert (Hsame : forall g, g <> h -> handles l2 !! g = handles l !! g) by (intros g Hg; rewrite M6, Hm1, lookup_insert_ne by done; done).
  assert (Hafter : forall g v, handles l2 !! g = Some v -> is_active v = true -> g <> h /\ handles l !! g = Some v \/ time l < timeout v).
  { intros g v Hv Hva. destruct (decide (g = h)) as [->|Hg]; [|left; by rewrite <- Hsame].
    rewrite Hy in Hv. injection Hv as <-. right. destruct (Hagain Hva) as [->|H]; [done|by rewrite <- Ht1]. }
  assert (Hx : forall g v, handles l2 !! g = Some v -> is_active v = true -> key_lt (key_of x) (key_of v)).
  { intros g v Hv Hva. destruct (Hafter g v Hv Hva) as [[Hg Hv']|Hlt]; [|left; cbn; lia].
    pose proof (heap_min_least _ (timer_order _) _ _ (lo_heap _ Hok)) as Hleast. rewrite Hmin in Hleast. destruct Hleast as [_ Hleast].
    assert (Hin : g ∈ active_set (handles l)) by (apply elem_active; by exists v). apply Hleast, less_than_false in Hin. unfold key in Hin. rewrite Hv', Hh in Hin.
    unfold key_lt, key_of in *. cbn in *. assert (start_id v <> start_id x); [|lia]. intros Hid. apply Hg. by eapply (lo_ids _ Hok). }
  split; cbn [add_fired fired time timer_counter handles script].
  - by destruct M1.
  - split; cbn [add_fired fired time timer_counter handles].
    + rewrite M3, Hf1. constructor; [done|]. apply Forall_forall. intros [g v] Hg. cbn. by eapply F3.
    + intros g v Hg. rewrite M3, Hf1 in Hg. apply elem_of_cons in Hg as [[= -> ->]|Hg]; [lia|]. pose proof (F2 _ _ Hg). lia.
    + intros g v g' w Hg Hw Hwa. rewrite M3, Hf1 in Hg. apply elem_of_cons in Hg as [[= -> ->]|Hg]; [by eapply Hx|].
      eapply key_lt_trans; [by eapply F3|by eapply Hx].
  - by rewrite M3, Hf1.
  - by rewrite M2.
  - by rewrite M0.
  - lia.
  - intros g. rewrite M5, Hm1. destruct (decide (g = h)) as [->|]; [rewrite lookup_insert_eq, Hh; split; eauto|by rewrite lookup_insert_ne].
  - done.
  - exists y. split; [done|]. by rewrite Hcb.
  - intros g (v & Hv & Hva & Hvt)%elem_due. cbn in *. rewrite M2, Ht1 in Hvt. destruct (Hafter g v Hv Hva) as [[Hg Hv']|]; [|lia].
    apply elem_of_difference. split; [apply elem_due; by exists v|]. by apply not_elem_of_singleton.
Qed.

Lemma moves_fired_ok l T k l' : fired_ok l -> moves l T k l' -> fired_ok l'.
Proof.
  intros [F1 F2 F3] [M1 M2 M3 M0 M4 M5 M6 M7]. split.
  - by rewrite M3.
  - intros h x Hx. rewrite M3 in Hx. rewrite M2. pose proof (F2 h x Hx). lia.
  - intros h x g y Hx Hy Ha. rewrite M3 in Hx. pose proof (F2 h x Hx). destruct (M7 g y Hy Ha) as [(v & Hv & Hva & E1 & E2)|[E1 E2]].
    + pose proof (F3 h x g v Hx Hv Hva) as Hlt. unfold key_lt, key_of in *. cbn in *. lia.
    + unfold key_lt, key_of. cbn. lia.
Qed.

Lemma set_script_ok s l : loop_ok l -> loop_ok (set_script s l).
Proof. by intros []. Qed.

Lemma callback_spec l h y : loop_ok l -> fired_ok l -> handles l !! h = Some y -> is_Some (timer_cb y) ->
  Forall (Forall (call_ok (handles l))) (script l) -> timer_counter l + script_calls (script l) < 2 ^ 64 ->
  wp (run_callback h) l (fun _ l' => fired_ok l' /\ script l' = tail (script l) /\ fired l' = fired l /\
    match script l with
    | [] => l' = l
    | calls :: s => moves (set_script s l) (fun g => g ∈ target <$> calls) (Z.of_nat (length calls)) l'
    end).
Proof.
  intros Hok Hf Hh [cb Hcb] Hs Hn. unfold run_callback. wp_step. eapply wp_handle_at; [done|]. wp_step. eapply wp_require; [done|]. wp_step. apply wp_gets.
  destruct (script l) as [|calls s] eqn:Es; [by apply wp_ret|]. apply Forall_cons in Hs as [Hc _]. unfold script_calls in Hn. cbn [List.concat] in Hn. rewrite length_app in Hn.
  wp_step. apply wp_modify. eapply wp_mono; [apply (run_calls_moves calls (set_script s l)); [by apply set_script_ok|done|cbn; lia]|].
  intros u l' Hmv. cbv beta in Hmv. split_and!; [|by rewrite (mv_script _ _ _ _ Hmv)|by rewrite (mv_fired _ _ _ _ Hmv)|done].
  eapply (moves_fired_ok (set_script s l)); [|exact Hmv]. by destruct Hf.
Qed.

(** How the loop ends, for the timers of [l0] and the handles [T] that the
    callbacks touch. *)
Record all_fired (l0 : uv_loop_t) (T : positive -> Prop) (l : uv_loop_t) : Prop := {
  af_ok : loop_ok l;
  af_fired : fired_ok l;
  af_time : time l = time l0;
  af_none : forall h x, handles l !! h = Some x -> is_active x = true -> time l < timeout x;
  af_all : forall h x, handles l0 !! h = Some x -> due (time l0) x -> (h, x) ∈ fired l \/ T h;
}.

Lemma enough_called fuel l h x l' l2 : enough (S fuel) l -> h ∈ due_set l -> called l h x l' -> script l2 = tail (script l') -> size (handles l2) = size (handles l') ->
  (script l' = [] -> l2 = l') -> enough fuel l2.
Proof.
  intros He Hh Hc Hs Hsz H0. unfold enough in *. rewrite (ca_script _ _ _ _ Hc) in *. assert (Hl : size (handles l') = size (handles l)).
  { rewrite <- !size_dom. apply f_equal, set_eq. intros g. rewrite !elem_of_dom. apply (ca_dom _ _ _ _ Hc). }
  rewrite Hs. destruct (script l) as [|calls s]; cbn [tail].
  - rewrite (H0 eq_refl). pose proof (ca_due _ _ _ _ Hc) as Hd. apply subseteq_size in Hd. rewrite size_difference, size_singleton in Hd by set_solver. lia.
  - cbn [length] in He. destruct s; [pose proof (due_size l2); lia|]. cbn [length] in *. lia.
Qed.

Lemma run_timers_spec l0 (T : positive -> Prop) fuel : forall l, loop_ok l -> fired_ok l -> time l = time l0 -> enough fuel l ->
  Forall (Forall (call_ok (handles l))) (script l) -> timer_counter l + Z.of_nat fuel + script_calls (script l) < 2 ^ 64 ->
  (forall calls c, calls ∈ script l -> c ∈ calls -> T (target c)) ->
  (forall h x, handles l0 !! h = Some x -> due (time l0) x -> (h, x) ∈ fired l \/ T h \/ handles l !! h = Some x) ->
  wp (run_timers_loop fuel) l (fun _ l' => all_fired l0 T l').
Proof.
  induction fuel as [|fuel IH]; intros l Hok Hf Ht He Hs Hn HT Hall; cbn [run_timers_loop]; wp_step; apply wp_zoom; unfold heap_min; apply wp_gets;
    pose proof (heap_min_least _ (timer_order _) _ _ (lo_heap _ Hok)) as Hleast; replace (set_heap (timer_heap l) l) with l by (by destruct l).
  all: assert (Hstop : (forall h x, handles l !! h = Some x -> is_active x = true -> time l < timeout x) -> all_fired l0 T l)
    by (intros Hnone; split; try done; intros h x Hh Hd; destruct (Hall h x Hh Hd) as [?|[?|Hx]]; auto; destruct Hd as [Ha Hle]; pose proof (Hnone _ _ Hx Ha); lia).
  all: destruct (min (timer_heap l)) as [h|] eqn:Emin;
    [|apply wp_ret, Hstop; intros h x Hh Ha; assert (Hin : h ∈ active_set (handles l)) by (apply elem_active; by exists x); rewrite Hleast in Hin; set_solver].
  all: destruct Hleast as [Hin Hleast]; apply elem_active in Hin as (x & Hh & Ha); wp_step; (eapply wp_handle_at; [done|]); wp_step; apply wp_gets;
    destruct (Z.ltb_spec (time l) (timeout x)) as [Hlt|Hge];
    [apply wp_ret, Hstop; intros g y Hg Hya; assert (Hin : g ∈ active_set (handles l)) by (apply elem_active; by exists y);
     apply Hleast, less_than_false in Hin; unfold key in Hin; rewrite Hg, Hh in Hin; unfold key_lt in Hin; cbn in Hin; lia|].
  all: assert (Hdue : h ∈ due_set l) by (apply elem_due; by exists x).
  - exfalso. unfold enough in He. pose proof (due_size l). assert (size (due_set l) <> 0%nat) by (intros E0%size_empty_inv; set_solver). destruct (script l); cbn in He; lia.
  - assert (0 <= script_calls (script l)) by (unfold script_calls; lia). apply fire_step; try done; [lia|]. intros l1 Hc. destruct (ca_cb _ _ _ _ Hc) as (y & Hy & Hycb). pose proof (ca_counter _ _ _ _ Hc) as Hcnt.
    assert (Hs1 : Forall (Forall (call_ok (handles l1))) (script l1)).
    { rewrite (ca_script _ _ _ _ Hc). eapply Forall_impl; [exact Hs|]. intros calls Hcs. eapply Forall_impl; [exact Hcs|]. intros c [C1 C2]. split; [by apply (ca_dom _ _ _ _ Hc)|done]. }
    wp_step. eapply wp_mono; [apply (callback_spec l1 h y (ca_ok _ _ _ _ Hc) (ca_fired_ok _ _ _ _ Hc) Hy Hycb Hs1); rewrite (ca_script _ _ _ _ Hc); lia|].
    intros u l2 (Hf2 & Hs2 & Hfd2 & Hcase). rewrite (ca_script _ _ _ _ Hc) in Hs2, Hcase.
    assert (Hmv : exists T' k, moves (set_script (tail (script l)) l1) T' k l2 /\ (forall g, T' g -> g ∈ target <$> List.concat (script l)) /\ k + script_calls (tail (script l)) <= script_calls (script l)).
    { destruct (script l) as [|calls s] eqn:Es; cbn [tail].
      - subst l2. exists (fun _ => False), 0. split_and!; [|done|unfold script_calls; cbn; lia].
        assert (E1 : script l1 = []) by (rewrite (ca_script _ _ _ _ Hc); done). assert (El : set_script [] l1 = l1) by (destruct l1; cbn in *; by rewrite E1).
        rewrite El. apply moves_refl, Hc.
      - exists (fun g => g ∈ target <$> calls), (Z.of_nat (length calls)). split_and!; [done| |unfold script_calls; cbn [List.concat]; rewrite length_app; lia].
        intros g Hg. cbn [List.concat]. rewrite fmap_app. apply elem_of_app. by left. }
    destruct Hmv as (T' & k & Hmv & HT' & Hk). pose proof (mv_counter _ _ _ _ Hmv) as Hcnt2. cbn [set_script timer_counter] in Hcnt2.
    apply IH.
    + apply Hmv.
    + done.
    + rewrite (mv_time _ _ _ _ Hmv). cbn. by rewrite (ca_time _ _ _ _ Hc).
    + eapply (enough_called fuel l h x l1); try done; [by rewrite (ca_script _ _ _ _ Hc)|by rewrite (moves_size _ _ _ _ Hmv)|].
      rewrite (ca_script _ _ _ _ Hc). intros E0. by rewrite E0 in Hcase.
    + rewrite Hs2. assert (Hs1' : Forall (Forall (call_ok (handles l1))) (tail (script l))) by (rewrite (ca_script _ _ _ _ Hc) in Hs1; destruct Hs1; done).
      eapply Forall_impl; [exact Hs1'|]. intros calls Hcs. eapply Forall_impl; [exact Hcs|]. intros c Hcc. by eapply (call_ok_moves _ _ _ _ c Hmv).
    + rewrite Hs2. lia.
    + intros calls c Hcs. apply HT. rewrite Hs2 in Hcs. destruct (script l); [done|]. by right.
    + intros g v Hg Hd. rewrite Hfd2, (ca_fired _ _ _ _ Hc). destruct (Hall g v Hg Hd) as [H1|[H1|H1]]; [left; by right|by right; left|].
      destruct (decide (g = h)) as [->|Hne]; [rewrite Hh in H1; injection H1 as ->; left; by left|].
      destruct (decide (g ∈ target <$> List.concat (script l))) as [Hin|Hnin].
      * right. left. apply list_elem_of_fmap in Hin as (c & -> & Hin). apply list_elem_of_In, in_concat in Hin as (calls & Hcs & Hcc).
        apply (HT calls c); by apply list_elem_of_In.
      * right. right. rewrite (mv_same _ _ _ _ Hmv) by auto. cbn. by rewrite (ca_same _ _ _ _ Hc).
Qed.

(* ------------------------------------------------------------------ *)
(** ** Initialisation *)

Lemma init_spec l h : loop_ok l -> (forall x, handles l !! h = Some x -> is_active x = false) -> Z.of_nat (size (handles l)) + 1 < 2 ^ 32 ->
  wp (uv_timer_init h) l (fun _ l' => loop_ok l' /\ timer_counter l' = timer_counter l /\ time l' = time l /\ script l' = script l /\ fired l' = fired l /\
    exists y, handles l' = <[h := y]> (handles l) /\ is_closing y = false).
Proof.
  intros Hok Hh Hsz. unfold uv_timer_init. wp_step. apply wp_modify. apply wp_ret. set (y := {| timer_cb := None |}).
  split_and!; try done; [|by exists y].
  assert (Hnot : h ∉ active_set (handles l)) by (intros (x & Hx & Ha)%elem_active; rewrite (Hh x Hx) in Ha; done).
  assert (Hact : active_set (<[h := y]> (handles l)) = active_set (handles l)) by (rewrite active_insert; cbn; set_solver).
  assert (Hy : forall g x, <[h := y]> (handles l) !! g = Some x -> is_active x = true -> handles l !! g = Some x).
  { intros g x Hg Ha. destruct (decide (g = h)) as [->|]; [rewrite lookup_insert_eq in Hg; by injection Hg as <-|by rewrite lookup_insert_ne in Hg]. }
  set (ns := match nodes (timer_heap l) !! h with Some _ => _ | None => _ end).
  assert (Hns : forall g, is_Some (nodes (timer_heap l) !! g) -> ns !! g = nodes (timer_heap l) !! g).
  { intros g Hg. unfold ns. destruct (nodes (timer_heap l) !! h) eqn:E; [done|]. rewrite lookup_insert_ne; [done|]. intros <-. rewrite E in Hg. by destruct Hg. }
  split; cbn [handles timer_heap time timer_counter set_handles set_heap set_nodes nodes].
  - rewrite Hact. eapply is_heap_ext; [intros p q Hp Hq; symmetry; apply less_insert; intros ->; done|].
    destruct (lo_heap _ Hok) as [(t & [R1 R2 R3 R4 R5] & Ho & He) Hn]. split; [|done]. exists t. split_and!; [|done|done]. split; try done.
    intros i p Hi. cbn [set_nodes nodes]. rewrite Hns by (rewrite (R1 _ _ Hi); eauto). by apply R1.
  - intros g Hg. destruct (decide (g = h)) as [->|Hne].
    + unfold ns. destruct (nodes (timer_heap l) !! h) eqn:E; [rewrite E|rewrite lookup_insert_eq]; eauto.
    + rewrite lookup_insert_ne in Hg by done. pose proof (lo_nodes _ Hok g Hg) as Hn. by rewrite Hns.
  - rewrite map_size_insert. destruct (handles l !! h); cbn; lia.
  - apply Hok.
  - apply Hok.
  - intros g x Hg Ha. apply (lo_active _ Hok g x); [by apply Hy|done].
  - intros g g' x x' Hg Hg' Ha Ha'. apply (lo_ids _ Hok); auto.
  - intros g x Hg. destruct (decide (g = h)) as [->|]; [rewrite lookup_insert_eq in Hg; by injection Hg as <-|].
    rewrite lookup_insert_ne in Hg by done. by apply (lo_repeat _ Hok g x).
Qed.

Lemma loop_init_ok now : 0 <= now < UINT64_MAX -> loop_ok (loop_init now).
Proof.
  intros Hnow. assert (Hact : active_set ∅ = ∅) by (apply set_eq; intros h; rewrite elem_active; split; [intros (x & Hx & _); by rewrite lookup_empty in Hx|set_solver]).
  split; cbn [loop_init handles timer_heap time timer_counter nodes]; try done.
  - rewrite Hact. split; [|by rewrite size_empty]. exists ∅. split_and!; [split; try done|done|].
    + intros i. rewrite lookup_empty. split; [by intros []|cbn; lia].
    + intros p. split; [by intros [i Hi]|set_solver].
  - intros h [x Hx]. by rewrite lookup_empty in Hx.
Qed.

(** Three timers, of which the second and the first are due at the same time;
    the callbacks restart the third one. *)
Definition example_timers : LM unit :=
  let* _ := uv_timer_init 1 in
  let* _ := uv_timer_init 2 in
  let* _ := uv_timer_init 3 in
  iterM run_call [TStart 2 7 5 0; TStart 1 8 5 0; TStart 3 9 20 4] ;;;
  modify (fun l => set_script [[TStart 3 9 0 4]; []] (set_time 110 l)).
Definition example_loop : uv_loop_t := match example_timers (loop_init 100) with inr (_, l) => l | inl _ => loop_init 100 end.

Lemma example_loop_ok : loop_ok example_loop /\ Forall (Forall (call_ok (handles example_loop))) (script example_loop).
Proof.
  assert (Hwp : wp example_timers (loop_init 100) (fun _ l => loop_ok l /\ Forall (Forall (call_ok (handles l))) (script l))).
  { unfold example_timers. assert (H0 : loop_ok (loop_init 100)) by (apply loop_init_ok; unfold UINT64_MAX; lia).
    wp_step. eapply wp_mono; [apply init_spec; [done|done|by vm_compute]|]. intros z1 l1 (O1 & N1 & T1 & _ & _ & y1 & M1 & _).
    wp_step. eapply wp_mono; [apply init_spec; [done| |]|]; [by rewrite M1|by rewrite M1; vm_compute|]. intros z2 l2 (O2 & N2 & T2 & _ & _ & y2 & M2 & _).
    wp_step. eapply wp_mono; [apply init_spec; [done| |]|]; [by rewrite M2, M1|by rewrite M2, M1; vm_compute|]. intros z3 l3 (O3 & N3 & T3 & _ & _ & y3 & M3 & _).
    assert (Hsome : forall h, h = 1%positive \/ h = 2%positive \/ h = 3%positive -> is_Some (handles l3 !! h))
      by (intros h Hh; rewrite M3, M2, M1; destruct Hh as [->|[->| ->]]; simplify_map_eq; eauto).
    wp_step. eapply wp_mono; [apply run_calls_moves; [done| |]|].
    - repeat apply Forall_cons_2; try apply Forall_nil_2; (split; [apply Hsome; cbn; auto|cbn; unfold is_uint64; lia]).
    - rewrite N3, N2, N1. cbn. lia.
    - intros u l4 Hmv. cbv beta in Hmv. apply wp_modify. destruct (mv_ok _ _ _ _ Hmv). split; [by split|]. cbn.
      repeat apply Forall_cons_2; try apply Forall_nil_2. split; [apply (mv_dom _ _ _ _ Hmv), Hsome; cbn; auto|cbn; unfold is_uint64; lia]. }
  unfold wp in Hwp. unfold example_loop. by destruct (example_timers (loop_init 100)) as [|[u l]].
Qed.

(* ------------------------------------------------------------------ *)
(** ** Properties *)

(** C11. [uv__run_timers] calls what is due, in order.  For every loop in a valid
    state, and whatever the callbacks start, stop, repeat and close in finitely
    many calls (the script of the loop; a callback that starts its timer with
    0 each time it is called makes the loop in timer.c endless), the call
    returns; afterwards no active timer is due, the ones that callbacks started
    with a timeout of zero included: they are called in the same run, not in the
    next iteration as docs/src/timer.rst has it; the callbacks were called in
    the order of their times, for equal times in the order in which the
    timers were started, and none before its time; and every timer that was
    due in the beginning was called, unless a callback has changed it. *)
Theorem uv__run_timers_fires l : loop_ok l -> fired l = [] -> Forall (Forall (call_ok (handles l))) (script l) ->
  timer_counter l + Z.of_nat (length (script l) + size (handles l)) + script_calls (script l) < 2 ^ 64 ->
  exists l', uv__run_timers l = inr (tt, l') /\ loop_ok l' /\
    (forall h x, handles l' !! h = Some x -> is_active x = true -> time l < timeout x) /\
    StronglySorted (fun a b => key_lt (key_of b.2) (key_of a.2)) (fired l') /\
    (forall h x, (h, x) ∈ fired l' -> timeout x <= time l) /\
    (forall h x, handles l !! h = Some x -> due (time l) x -> (h, x) ∈ fired l' \/ exists calls c, calls ∈ script l /\ c ∈ calls /\ target c = h).
Proof.
  intros Hok Hf Hs Hn. assert (Hf0 : fired_ok l) by (split; rewrite Hf; [constructor|intros ? ? H%elem_of_nil; done|intros ? ? ? ? H%elem_of_nil; done]).
  assert (Hwp : wp uv__run_timers l (fun _ l' => all_fired l (fun h => exists calls c, calls ∈ script l /\ c ∈ calls /\ target c = h) l')).
  { unfold uv__run_timers. wp_step. apply wp_gets. wp_step. apply wp_gets. apply run_timers_spec; try done.
    - unfold enough. destruct (script l) eqn:E; [pose proof (due_size l); cbn; lia|done].
    - intros calls c Hcs Hcc. by exists calls, c.
    - auto. }
  apply wp_inv in Hwp as ([] & l' & E & [A1 [B1 B2 B3] A3 A4 A5]). exists l'. rewrite A3 in *. split_and!; try done. intros h x Hx. apply (B2 h x Hx).
Qed.

Lemma uv__run_timers_fires_witness :
  exists l', uv__run_timers example_loop = inr (tt, l') /\ loop_ok l' /\
    (forall h x, handles l' !! h = Some x -> is_active x = true -> time example_loop < timeout x) /\
    StronglySorted (fun a b => key_lt (key_of b.2) (key_of a.2)) (fired l') /\
    (forall h x, (h, x) ∈ fired l' -> timeout x <= time example_loop) /\
    (forall h x, handles example_loop !! h = Some x -> due (time example_loop) x ->
       (h, x) ∈ fired l' \/ exists calls c, calls ∈ script example_loop /\ c ∈ calls /\ target c = h).
Proof.
  destruct example_loop_ok as [Hok Hs]. apply (uv__run_timers_fires example_loop).
  - exact Hok.
  - vm_compute. reflexivity.
  - exact Hs.
  - vm_compute. reflexivity.
Defined.

(** The order of the calls in the example. *)
Example example_order : match uv__run_timers example_loop with inr (_, l) => rev (map fst (fired l)) | inl _ => [] end = [2; 1; 3]%positive.
Proof. vm_compute. reflexivity. Qed.
