(* ===== verification/Timeout.v ===== *)
(** * The timeout of the extension is an alarm

    What libcurl relies on: [PerformRequests] is called when the time it asked
    for last has come, once for each time it asks, and not at all after it has
    cancelled. *)

From S2P Require Import Prelude Heap HeapFacts Timers TimerFacts.

(* ------------------------------------------------------------------ *)
(** ** The specification *)

(** An alarm is off or set to a time. *)
Definition asked (now : Z) (alarm : option Z) (timeout_ms : Z) : option Z :=
  if timeout_ms =? -1 then None else Some (now + timeout_ms).

(** The calls of [PerformRequests] when the clock shows [now], and the alarm
    behind them. *)
Fixpoint rings (now : Z) (alarm : option Z) (asks : list (list Z)) : nat * option Z :=
  match alarm with
  | None => (O, None)
  | Some t =>
      if t <=? now then
        match asks with
        | [] => (1%nat, None)
        | a :: asks => let '(n, d) := rings now (fold_left (asked now) a None) asks in (S n, d)
        end
      else (O, Some t)
  end.

Record clock : Type := { c_now : Z; c_alarm : option Z; c_calls : nat }.
Definition clock_event (c : clock) (ev : loop_event) : clock :=
  match ev with
  | Asks ms => {| c_now := c_now c; c_alarm := asked (c_now c) (c_alarm c) ms; c_calls := c_calls c |}
  | Advance now asks =>
      let '(n, d) := rings now (c_alarm c) asks in {| c_now := now; c_alarm := d; c_calls := c_calls c + n |}
  end.

(** Times of at most 2^62 milliseconds, and a clock that does not go back. *)
Definition ms_ok (ms : Z) : Prop := -1 <= ms <= 2 ^ 62.
Definition event_ok (now : Z) (ev : loop_event) : Prop :=
  match ev with
  | Asks ms => ms_ok ms
  | Advance now' asks => now <= now' <= 2 ^ 62 /\ Forall (Forall ms_ok) asks
  end.
Fixpoint events_ok (now : Z) (evs : list loop_event) : Prop :=
  match evs with
  | [] => True
  | ev :: evs => event_ok now ev /\ events_ok (match ev with Advance now' _ => now' | _ => now end) evs
  end.

(** The number of times that libcurl asks. *)
Definition asks_in (ev : loop_event) : Z :=
  match ev with Asks _ => 1 | Advance _ asks => Z.of_nat (length (List.concat asks)) end.

(* ------------------------------------------------------------------ *)
(** ** The timer follows the alarm *)

Record follows (l : uv_loop_t) (now : Z) (alarm : option Z) : Prop := {
  fw_ok : loop_ok l;
  fw_time : time l = now;
  fw_timer : exists x, handles l = {[g_Timeout := x]} /\ is_closing x = false /\ repeat x = 0 /\
    match alarm with
    | Some t => is_active x = true /\ timeout x = t
    | None => is_active x = false
    end;
}.

Lemma follows_ask l now alarm ms : follows l now alarm -> 0 <= now <= 2 ^ 62 -> ms_ok ms -> timer_counter l + 1 < 2 ^ 64 ->
  wp (run_call (curl_asks ms)) l (fun _ l' => follows l' now (asked now alarm ms) /\ script l' = script l /\ fired l' = fired l /\
    timer_counter l <= timer_counter l' <= timer_counter l + 1).
Proof.
  intros [Hok Ht (x & Hm & Hcl & Hr & Ha)] Hnow Hms Hc. assert (Hx : handles l !! g_Timeout = Some x) by (rewrite Hm; apply lookup_singleton_eq).
  unfold curl_asks, asked. destruct (Z.eqb_spec ms (-1)) as [->|Hne]; cbn [run_call]; wp_step.
  - eapply wp_mono; [by apply (stop_spec l g_Timeout x)|]. intros z l' [_ (Hok' & Hm' & Hn' & Ht' & Hs' & Hf')]. apply wp_ret. split_and!; try done; [|lia..].
    split; [done|congruence|]. exists (with_active false x). split_and!; try done. rewrite Hm', Hm. apply insert_singleton_eq.
  - unfold ms_ok in Hms. rewrite Z.mod_small by lia. eapply wp_mono; [apply (start_spec l g_Timeout x cb_PerformRequests ms 0); try done; unfold is_uint64; lia|].
    intros z l' [_ (Hok' & Hm' & Hn' & Ht' & Hs' & Hf')]. apply wp_ret. split_and!; try done; [|lia..].
    split; [done|congruence|]. eexists. split_and!; [rewrite Hm', Hm; apply insert_singleton_eq|done|done|done|]. cbn. unfold clamp, UINT64_MAX. lia.
Qed.

Lemma follows_asks now a : forall l alarm, follows l now alarm -> 0 <= now <= 2 ^ 62 -> Forall ms_ok a -> timer_counter l + Z.of_nat (length a) < 2 ^ 64 ->
  wp (iterM run_call (map curl_asks a)) l (fun _ l' => follows l' now (fold_left (asked now) a alarm) /\ script l' = script l /\ fired l' = fired l /\
    timer_counter l <= timer_counter l' <= timer_counter l + Z.of_nat (length a)).
Proof.
  induction a as [|ms a IH]; intros l alarm Hfw Hnow Hms Hc; cbn [map iterM fold_left]; [apply wp_ret; split_and!; try done; cbn; lia|].
  apply Forall_cons in Hms as [Hm Hms]. cbn [length] in Hc. wp_step. eapply wp_mono; [apply follows_ask; try done; lia|]. intros u l1 (Hfw1 & Hs1 & Hf1 & Hc1).
  eapply wp_mono; [apply IH; try done; lia|]. intros u' l2 (Hfw2 & Hs2 & Hf2 & Hc2). split_and!; try done; try congruence; cbn [length]; lia.
Qed.

(** The head of the heap is the timer, if it is active. *)
Lemma follows_min l now alarm : follows l now alarm -> min (timer_heap l) = match alarm with Some _ => Some g_Timeout | None => None end.
Proof.
  intros [Hok Ht (x & Hm & Hcl & Hr & Ha)]. pose proof (heap_min_least _ (timer_order _) _ _ (lo_heap _ Hok)) as Hleast. rewrite Hm in Hleast.
  destruct (min (timer_heap l)) as [h|].
  - destruct Hleast as [(y & Hy & Hya)%elem_active _]. apply lookup_singleton_Some in Hy as [<- <-]. destruct alarm; [done|congruence].
  - destruct alarm; [|done]. destruct Ha as [Ha _]. assert (Hin : g_Timeout ∈ active_set {[g_Timeout := x]}) by (apply elem_active; exists x; by rewrite lookup_singleton_eq).
    rewrite Hleast in Hin. set_solver.
Qed.

(** One call of [PerformRequests]. *)
Lemma follows_fire l now t asks (K : LM unit) (Q : unit -> uv_loop_t -> Prop) x :
  follows l now (Some t) -> handles l !! g_Timeout = Some x -> 0 <= now <= 2 ^ 62 -> script l = map (map curl_asks) asks -> Forall (Forall ms_ok) asks ->
  timer_counter l + Z.of_nat (length (List.concat asks)) < 2 ^ 64 ->
  (forall l', follows l' now (match asks with [] => None | a :: _ => fold_left (asked now) a None end) -> script l' = map (map curl_asks) (tail asks) ->
     length (fired l') = S (length (fired l)) -> timer_counter l' + Z.of_nat (length (List.concat (tail asks))) <= timer_counter l + Z.of_nat (length (List.concat asks)) ->
     wp K l' Q) ->
  wp (let* _ := uv_timer_stop g_Timeout in let* _ := uv_timer_again g_Timeout in
      modify (add_fired (g_Timeout, x)) ;;; run_callback g_Timeout ;;; K) l Q.
Proof.
  intros [Hok Ht (x' & Hm & Hcl & Hr & Ha & Hdue)] Hx Hnow Hs Hms Hc HK. assert (x' = x) as -> by (rewrite Hm, lookup_singleton_eq in Hx; congruence).
  destruct (lo_active _ Hok _ _ Hx Ha) as ([cb Hcb] & _).
  wp_step. eapply wp_mono; [by apply (stop_spec l g_Timeout x)|]. intros z l1 [_ (Hok1 & Hm1 & Hn1 & Ht1 & Hs1 & Hf1)].
  assert (Hx1 : handles l1 !! g_Timeout = Some (with_active false x)) by (rewrite Hm1; apply lookup_insert_eq).
  wp_step. unfold uv_timer_again. wp_step. eapply wp_handle_at; [done|]. cbn [with_active timer_cb repeat]. rewrite Hcb, Hr, Z.eqb_refl. cbn [negb]. wp_step. do 2 apply wp_ret.
  wp_step. apply wp_modify. wp_step. unfold run_callback. wp_step. eapply wp_handle_at; [done|]. wp_step. eapply wp_require; [done|]. wp_step. apply wp_gets.
  cbn [add_fired script]. rewrite Hs1, Hs. set (l2 := add_fired _ l1).
  assert (Hfw2 : follows l2 now None).
  { split; [by destruct Hok1|cbn; congruence|]. exists (with_active false x). split_and!; try done. change (handles l2) with (handles l1). rewrite Hm1, Hm. apply insert_singleton_eq. }
  destruct asks as [|a asks]; cbn [map].
  - apply wp_ret. apply HK; [done|cbn; by rewrite Hs1, Hs|cbn; by rewrite Hf1|cbn; lia].
  - apply Forall_cons in Hms as [Hma Hms]. cbn [List.concat] in Hc. rewrite length_app in Hc. wp_step. apply wp_modify.
    eapply wp_mono; [apply (follows_asks now a (set_script (map (map curl_asks) asks) l2) None); try done; [by destruct Hfw2 as [[] ? ?]|cbn; lia]|].
    intros u l3 (Hfw3 & Hs3 & Hf3 & Hc3). apply HK; [done|by rewrite Hs3|by rewrite Hf3; cbn; rewrite Hf1|]. cbn in Hc3. cbn [tail List.concat]. rewrite length_app. lia.
Qed.

Lemma follows_run now fuel : forall asks l alarm, follows l now alarm -> 0 <= now <= 2 ^ 62 -> script l = map (map curl_asks) asks -> Forall (Forall ms_ok) asks ->
  (length asks < fuel)%nat -> timer_counter l + Z.of_nat (length (List.concat asks)) < 2 ^ 64 ->
  wp (run_timers_loop fuel) l (fun _ l' => follows l' now (rings now alarm asks).2 /\ length (fired l') = (length (fired l) + (rings now alarm asks).1)%nat /\
    timer_counter l' <= timer_counter l + Z.of_nat (length (List.concat asks))).
Proof.
  induction fuel as [|fuel IH]; intros asks l alarm Hfw Hnow Hs Hms Hfuel Hc; [lia|]. pose proof (follows_min _ _ _ Hfw) as Hmin.
  pose proof Hfw as [Hok Ht (x & Hm & Hcl & Hr & Ha)]. assert (Hx : handles l !! g_Timeout = Some x) by (rewrite Hm; apply lookup_singleton_eq).
  cbn [run_timers_loop]. wp_step. apply wp_zoom. unfold heap_min. apply wp_gets. replace (set_heap (timer_heap l) l) with l by (by destruct l). rewrite Hmin.
  destruct alarm as [t|]; [|apply wp_ret; destruct asks; cbn; split_and!; try done; lia].
  wp_step. eapply wp_handle_at; [done|]. wp_step. apply wp_gets. rewrite Ht. destruct Ha as [Ha Et]. rewrite Et.
  destruct (Z.ltb_spec now t) as [Hlt|Hge]; cycle 1.
  - apply (follows_fire l now t asks _ _ x); try done. intros l' Hfw' Hs' Hf' Hc'. destruct asks as [|a asks]; cbn [rings]; rewrite (proj2 (Z.leb_le _ _)) by lia.
    + cbn [tail] in *. destruct fuel as [|fuel].
      { cbn [run_timers_loop]. wp_step. apply wp_zoom. unfold heap_min. apply wp_gets. replace (set_heap (timer_heap l') l') with l' by (by destruct l').
        rewrite (follows_min _ _ _ Hfw'). apply wp_ret. cbn in *. split_and!; [done|lia|lia]. }
      eapply wp_mono; [apply (IH [] l' None); try done; cbn in *; lia|]. intros u l2 (A1 & A2 & A3). cbn in *. split_and!; [done|lia|lia].
    + apply Forall_cons in Hms as [_ Hms]. cbn [tail] in *. cbn [length] in Hfuel. eapply wp_mono; [apply (IH asks l' _ Hfw'); try done; lia|].
      intros u l2 (A1 & A2 & A3). destruct (rings now (fold_left (asked now) a None) asks) as [n d]. cbn in *. split_and!; [done|lia|lia].
  - apply wp_ret. assert (E : rings now (Some t) asks = (O, Some t)) by (destruct asks; cbn; rewrite (proj2 (Z.leb_gt _ _)) by lia; done). rewrite E. cbn. split_and!; try done; lia.
Qed.

Lemma set_time_ok t s l : loop_ok l -> 0 <= t < UINT64_MAX -> loop_ok (set_script s (set_time t l)).
Proof. intros [] Ht. by split. Qed.

Lemma follows_event l c ev : follows l (c_now c) (c_alarm c) -> script l = [] -> length (fired l) = c_calls c -> 0 <= c_now c <= 2 ^ 62 -> event_ok (c_now c) ev ->
  timer_counter l + asks_in ev < 2 ^ 64 ->
  wp (run_loop_event ev) l (fun _ l' => let c' := clock_event c ev in
    follows l' (c_now c') (c_alarm c') /\ script l' = [] /\ length (fired l') = c_calls c' /\ timer_counter l' <= timer_counter l + asks_in ev).
Proof.
  intros Hfw Hs Hf Hnow Hev Hc. destruct ev as [ms|now' asks]; cbn [run_loop_event clock_event asks_in] in *.
  - eapply wp_mono; [by apply follows_ask|]. intros u l' (A1 & A2 & A3 & A4). cbn. split_and!; [done|congruence|congruence|lia].
  - destruct Hev as [Hn' Hms]. wp_step. apply wp_modify. wp_step. unfold uv__run_timers. wp_step. apply wp_gets. wp_step. apply wp_gets.
    pose proof Hfw as [Hok Ht (x & Hm & Hrest)].
    assert (Hfw' : follows (set_script (map (map curl_asks) asks) (set_time now' l)) now' (c_alarm c)).
    { split; [apply set_time_ok; [done|unfold UINT64_MAX; lia]|done|]. by exists x. }
    eapply wp_mono; [apply (follows_run now' _ asks _ _ Hfw'); try done; [lia|]|].
    + cbn. rewrite length_map, Hm, map_size_singleton. lia.
    + intros u l' (A1 & A2 & A3). apply wp_modify. destruct (rings now' (c_alarm c) asks) as [n d]. cbn in *.
      split_and!; [by destruct A1 as [[] ? ?]|done|lia|lia].
Qed.

Fixpoint all_asks (evs : list loop_event) : Z := match evs with [] => 0 | ev :: evs => asks_in ev + all_asks evs end.
Lemma asks_in_nonneg ev : 0 <= asks_in ev.
Proof. destruct ev; cbn; lia. Qed.
Lemma all_asks_nonneg evs : 0 <= all_asks evs.
Proof. induction evs as [|ev evs IH]; cbn; [done|]. pose proof (asks_in_nonneg ev). lia. Qed.

Lemma follows_events evs : forall l c, follows l (c_now c) (c_alarm c) -> script l = [] -> length (fired l) = c_calls c -> 0 <= c_now c <= 2 ^ 62 -> events_ok (c_now c) evs ->
  timer_counter l + all_asks evs < 2 ^ 64 ->
  wp (iterM run_loop_event evs) l (fun _ l' => let c' := fold_left clock_event evs c in follows l' (c_now c') (c_alarm c') /\ length (fired l') = c_calls c').
Proof.
  induction evs as [|ev evs IH]; intros l c Hfw Hs Hf Hnow Hev Hc; cbn [iterM fold_left]; [by apply wp_ret|]. destruct Hev as [Hev Hevs]. cbn [all_asks] in Hc.
  pose proof (all_asks_nonneg evs). wp_step. eapply wp_mono; [apply (follows_event l c ev); try done; lia|]. intros u l' (A1 & A2 & A3 & A4).
  assert (Hc' : c_now (clock_event c ev) = match ev with Advance now' _ => now' | _ => c_now c end) by (destruct ev; cbn; [done|by destruct (rings _ _ _)]).
  apply IH; try done; [|by rewrite Hc'|lia]. rewrite Hc'. destruct ev; [done|]. cbn in Hev. lia.
Qed.

Lemma loop_start_follows now : 0 <= now < UINT64_MAX -> follows (loop_start now) now None.
Proof.
  intros Hnow. set (x := {| timer_cb := None; timeout := 0; repeat := 0; start_id := 0; is_active := false; is_closing := false |}).
  assert (Hm : handles (loop_start now) = {[g_Timeout := x]}) by reflexivity.
  pose proof (init_spec (loop_init now) g_Timeout (loop_init_ok now Hnow) ltac:(done) ltac:(done)) as Hinit.
  split; [|done|by exists x]. apply Hinit.
Qed.

(** How long the loop may sleep. *)
Definition sleep (now : Z) (alarm : option Z) : Z :=
  match alarm with None => -1 | Some t => Z.min (Z.max (t - now) 0) INT_MAX end.

Lemma follows_next l now alarm : follows l now alarm -> uv__next_timeout l = inr (sleep now alarm, l).
Proof.
  intros Hfw. assert (Hwp : wp uv__next_timeout l (fun r l' => r = sleep now alarm /\ l' = l)).
  { unfold uv__next_timeout. wp_step. apply wp_zoom. unfold heap_min. apply wp_gets. replace (set_heap (timer_heap l) l) with l by (by destruct l).
    rewrite (follows_min _ _ _ Hfw). destruct Hfw as [Hok Ht (x & Hm & Hcl & Hr & Ha)]. destruct alarm as [t|]; [|by apply wp_ret].
    wp_step. eapply wp_handle_at; [rewrite Hm; apply lookup_singleton_eq|]. wp_step. apply wp_gets. destruct Ha as [_ ->]. rewrite Ht. unfold sleep.
    destruct (Z.leb_spec t now); [apply wp_ret; split; [unfold INT_MAX; lia|done]|]. apply wp_ret. split; [|done]. unfold INT_MAX. destruct (Z.ltb_spec (2 ^ 31 - 1) (t - now)); lia. }
  apply wp_inv in Hwp as (r & l' & E & -> & ->). exact E.
Qed.

(** Zero timeouts and the documentation.  docs/src/timer.rst of libuv says of
    [uv_timer_start]: "If timeout is zero, the callback fires on the next event
    loop iteration."  [uv__run_timers] does not wait: a timer that is started
    with 0 inside a callback is due at once and is called by the loop that is
    running.  When libcurl asks for 0 ms in each of [n] calls of
    [PerformRequests], all of them and one more are made in one iteration, at
    one time of the clock, for every [n]; and when it never stops to ask, the
    loop in timer.c does not end. *)
Lemma rings_zero now n : rings now (Some now) (replicate n [0]) = (S n, None).
Proof.
  induction n as [|n IH]; cbn [replicate rings]; rewrite Z.leb_refl; [done|].
  change (fold_left (asked now) [0] None) with (Some (now + 0)). by rewrite Z.add_0_r, IH.
Qed.
Theorem zero_timeout_same_run now n : 0 <= now <= 2 ^ 62 -> Z.of_nat n < 2 ^ 63 ->
  exists l, iterM run_loop_event [Asks 0; Advance now (replicate n [0])] (loop_start now) = inr (tt, l) /\
    time l = now /\ length (fired l) = S n.
Proof.
  intros Hnow Hn. pose proof (loop_start_follows now ltac:(unfold UINT64_MAX; lia)) as Hfw.
  set (evs := [Asks 0; Advance now (replicate n [0])]).
  assert (Hc : fold_left clock_event evs {| c_now := now; c_alarm := None; c_calls := 0 |} = {| c_now := now; c_alarm := None; c_calls := S n |}).
  { cbn. by rewrite Z.add_0_r, rings_zero. }
  assert (Hlen : length (List.concat (replicate n [0])) = n) by (clear; induction n; cbn; congruence).
  assert (Hev : events_ok now evs) by (cbn; unfold ms_ok; split_and!; try lia; try done; apply Forall_replicate; repeat constructor; lia).
  assert (Hasks : timer_counter (loop_start now) + all_asks evs < 2 ^ 64).
  { unfold evs. cbn [all_asks asks_in]. rewrite Hlen. change (timer_counter (loop_start now)) with 0. lia. }
  destruct (wp_inv _ _ _ (follows_events evs (loop_start now) {| c_now := now; c_alarm := None; c_calls := 0 |} Hfw eq_refl eq_refl Hnow Hev Hasks)) as ([] & l & E & Hl & Hf).
  rewrite Hc in Hl, Hf. exists l. split_and!; [exact E|apply Hl|exact Hf].
Qed.

(* ------------------------------------------------------------------ *)
(** ** Properties *)

(** C10. The timeout of the extension is an alarm, in [timer.c] as it is
    written: for every finite sequence of events, in which libcurl asks for
    timeouts or cancels them, between and inside the calls of
    [PerformRequests], and the clock advances, the timers of libuv (with the
    linked heap, the clamped sums and the repetitions) call [PerformRequests]
    exactly as often as the alarm rings that was set to the time asked for
    last; the loop is told to sleep until the alarm rings (at most [INT_MAX]
    milliseconds) and without limit if it is off.  An alarm that is set to 0 ms
    inside a call rings again before the iteration of the loop ends, where
    docs/src/timer.rst promises the next iteration
    ([zero_timeout_same_run]). *)
Theorem timeout_is_alarm now evs : 0 <= now <= 2 ^ 62 -> events_ok now evs -> all_asks evs < 2 ^ 64 ->
  let c := fold_left clock_event evs {| c_now := now; c_alarm := None; c_calls := 0 |} in
  exists l, iterM run_loop_event evs (loop_start now) = inr (tt, l) /\ loop_ok l /\ time l = c_now c /\
    length (fired l) = c_calls c /\ uv__next_timeout l = inr (sleep (c_now c) (c_alarm c), l).
Proof.
  intros Hnow Hev Hasks c. pose proof (loop_start_follows now ltac:(unfold UINT64_MAX; lia)) as Hfw.
  destruct (wp_inv _ _ _ (follows_events evs (loop_start now) {| c_now := now; c_alarm := None; c_calls := 0 |} Hfw eq_refl eq_refl Hnow Hev Hasks)) as ([] & l & E & Hl & Hf).
  fold c in Hl, Hf. exists l. split_and!; [done|apply Hl|apply Hl|done|by apply follows_next].
Qed.

(** A timeout of 10 ms that is replaced by one of 3 ms; the call asks for 0 ms,
    and the next one for 5. *)
Definition example_events : list loop_event := [Asks 10; Advance 1002 []; Asks 3; Advance 1004 []; Advance 1005 [[0]; [-1; 5]]; Advance 1009 []].

Lemma timeout_is_alarm_witness :
  let c := fold_left clock_event example_events {| c_now := 1000; c_alarm := None; c_calls := 0 |} in
  (exists l, iterM run_loop_event example_events (loop_start 1000) = inr (tt, l) /\ loop_ok l /\ time l = c_now c /\
    length (fired l) = c_calls c /\ uv__next_timeout l = inr (sleep (c_now c) (c_alarm c), l)) /\
  c_calls c = 2%nat /\ c_alarm c = Some 1010.
Proof.
  split; [|split; reflexivity]. apply (timeout_is_alarm 1000 example_events).
  - lia.
  - cbn. unfold ms_ok. repeat (split; try lia); repeat (apply Forall_cons_2 || apply Forall_nil_2 || lia).
  - cbn. lia.
Defined.
