(* ===== verification/Lifecycle.v ===== *)
(** * Loading and unloading the extension (src/extension.cpp)

    [SDK_OnLoad] and [SDK_OnUnload] as the sequence of their calls, on what
    these calls leave behind: the registrations with SourceMod, the state of
    libcurl ([initialized] and the multi handles that exist, curl/lib/easy.c
    and multi.c) and of libuv's default loop (libuv/src/uv-common.c).
    SourceMod's default access rights are an argument. *)

From S2P Require Import Prelude Natives.

(** Access rights of a handle type. *)
Record HandleAccess := { access_read : Z; access_delete : Z; access_clone : Z }.
Definition HANDLE_RESTRICT_IDENTITY : Z := 1.

(** A multi handle: its first member and the callbacks that were set. *)
Definition CURL_MULTI_HANDLE : Z := 0x000bab1e.
Record Curl_multi := { magic : Z; socket_cb : bool; timer_cb : bool }.

(** Handles that are open on the loop. *)
Inductive uv_handle : Type := HTimeout | HAsyncPerformRequests | HAsyncStopLoop.

Record ext := {
  x_natives : list bytes;                       (* tables given to [AddNatives] *)
  x_libraries : list bytes;
  x_initialized : Z;                            (* libcurl's [initialized] *)
  x_multis : gmap Z Curl_multi;                 (* multi handles, by address *)
  x_g_Curl : Z;                                 (* the pointer; 0 is NULL *)
  x_loop : option (list uv_handle);             (* the default loop, [None] before its first use *)
  x_thread : bool;                              (* the thread that runs the loop *)
  x_stop : bool;                                (* [uv_stop] was called *)
  x_types : list (HandleType * HandleAccess);
  x_hooked : bool;                              (* [FrameHook] *)
  x_caBundlePath : bytes;
  x_error : bytes
}.
Abbreviation X := (ST ext).

Definition ext_init : ext :=
  {| x_natives := []; x_libraries := []; x_initialized := 0; x_multis := ∅; x_g_Curl := 0; x_loop := None; x_thread := false;
     x_stop := false; x_types := []; x_hooked := false; x_caBundlePath := []; x_error := [] |}.

Definition upd_curl (n : Z) (ms : gmap Z Curl_multi) (p : Z) (x : ext) : ext :=
  {| x_natives := x_natives x; x_libraries := x_libraries x; x_initialized := n; x_multis := ms; x_g_Curl := p; x_loop := x_loop x;
     x_thread := x_thread x; x_stop := x_stop x; x_types := x_types x; x_hooked := x_hooked x; x_caBundlePath := x_caBundlePath x; x_error := x_error x |}.
Definition upd_uv (l : option (list uv_handle)) (thread stop : bool) (x : ext) : ext :=
  {| x_natives := x_natives x; x_libraries := x_libraries x; x_initialized := x_initialized x; x_multis := x_multis x; x_g_Curl := x_g_Curl x;
     x_loop := l; x_thread := thread; x_stop := stop; x_types := x_types x; x_hooked := x_hooked x; x_caBundlePath := x_caBundlePath x; x_error := x_error x |}.
Definition upd_sm (natives libraries : list bytes) (types : list (HandleType * HandleAccess)) (hooked : bool) (error : bytes) (x : ext) : ext :=
  {| x_natives := natives; x_libraries := libraries; x_initialized := x_initialized x; x_multis := x_multis x; x_g_Curl := x_g_Curl x;
     x_loop := x_loop x; x_thread := x_thread x; x_stop := x_stop x; x_types := types; x_hooked := hooked; x_caBundlePath := x_caBundlePath x; x_error := error |}.

(** *** SourceMod *)

Definition AddNatives (table : bytes) : X unit :=
  modify (fun x => upd_sm (x_natives x ++ [table]) (x_libraries x) (x_types x) (x_hooked x) (x_error x) x).
Definition RegisterLibrary (name : bytes) : X unit :=
  modify (fun x => upd_sm (x_natives x) (x_libraries x ++ [name]) (x_types x) (x_hooked x) (x_error x) x).
Definition Format (maxlength : Z) (text : bytes) : X unit :=
  modify (fun x => upd_sm (x_natives x) (x_libraries x) (x_types x) (x_hooked x) (take (Z.to_nat (maxlength - 1)) text) x).
Definition CreateType (t : HandleType) (a : HandleAccess) : X unit :=
  modify (fun x => upd_sm (x_natives x) (x_libraries x) (x_types x ++ [(t, a)]) (x_hooked x) (x_error x) x).
Definition RemoveType (t : HandleType) : X unit :=
  modify (fun x => upd_sm (x_natives x) (x_libraries x) (filter (fun ta => ta.1 <> t) (x_types x)) (x_hooked x) (x_error x) x).
Definition set_hook (b : bool) : X unit :=
  modify (fun x => upd_sm (x_natives x) (x_libraries x) (x_types x) b (x_error x) x).
(** [BuildPath] of the CA bundle; [path] is what it writes *)
Definition BuildPath_CA (path : bytes) : X unit :=
  modify (fun x => {| x_natives := x_natives x; x_libraries := x_libraries x; x_initialized := x_initialized x; x_multis := x_multis x;
    x_g_Curl := x_g_Curl x; x_loop := x_loop x; x_thread := x_thread x; x_stop := x_stop x; x_types := x_types x; x_hooked := x_hooked x;
    x_caBundlePath := path; x_error := x_error x |}).

(** *** libcurl *)

(** [curl_global_init]; [res] is the result of the first initialisation *)
Definition curl_global_init (res : Z) : X Z :=
  let* x := get_state in
  if negb (x_initialized x =? 0) then modify (upd_curl (x_initialized x + 1) (x_multis x) (x_g_Curl x)) ;;; ret 0
  else if res =? 0 then modify (upd_curl 1 (x_multis x) (x_g_Curl x)) ;;; ret 0
  else modify (upd_curl 0 (x_multis x) (x_g_Curl x)) ;;; ret res.
Definition curl_global_cleanup : X unit :=
  modify (fun x => upd_curl (if x_initialized x =? 0 then 0 else x_initialized x - 1) (x_multis x) (x_g_Curl x) x).

(** [curl_multi_init]; [m] is the address of the block, 0 without memory *)
Definition curl_multi_init (m : Z) : X Z :=
  (if m =? 0 then ret tt
   else modify (fun x => upd_curl (x_initialized x)
                  (<[m := {| magic := CURL_MULTI_HANDLE; socket_cb := false; timer_cb := false |}]> (x_multis x)) (x_g_Curl x) x)) ;;;
  ret m.

(** The four bytes at an address: the first member of a multi handle, or the
    low half of the pointer variable [g_Curl], whose address is [ADDR_g_Curl];
    anything else cannot be read. *)
Definition ADDR_g_Curl : Z := 0x4000.
Definition word_at (p : Z) (x : ext) : option Z :=
  match x_multis x !! p with
  | Some m => Some (magic m)
  | None => if p =? ADDR_g_Curl then Some (uint32 (x_g_Curl x)) else None
  end.
Definition GOOD_MULTI_HANDLE (p : Z) : X bool :=
  if p =? 0 then ret false
  else let* x := get_state in let* w := require (word_at p x) in ret (w =? CURL_MULTI_HANDLE).

(** [curl_multi_setopt] of the two callbacks *)
Definition set_callback (p : Z) (f : Curl_multi -> Curl_multi) : X Z :=
  let* good := GOOD_MULTI_HANDLE p in
  if good then
    let* x := get_state in
    let* m := require (x_multis x !! p) in
    modify (upd_curl (x_initialized x) (<[p := f m]> (x_multis x)) (x_g_Curl x)) ;;; ret 0
  else ret 1.
(** [curl_multi_cleanup] without transfers *)
Definition curl_multi_cleanup (p : Z) : X Z :=
  let* good := GOOD_MULTI_HANDLE p in
  if good then modify (fun x => upd_curl (x_initialized x) (delete p (x_multis x)) (x_g_Curl x) x) ;;; ret 0
  else ret 1.

(** *** libuv *)

Definition uv_default_loop : X unit :=
  modify (fun x => match x_loop x with Some _ => x | None => upd_uv (Some []) (x_thread x) (x_stop x) x end).
(** [uv_timer_init], [uv_async_init] *)
Definition uv_handle_init (h : uv_handle) : X unit :=
  let* x := get_state in
  let* hs := require (x_loop x) in
  modify (upd_uv (Some (hs ++ [h])) (x_thread x) (x_stop x)).
Definition uv_thread_create : X unit := modify (fun x => upd_uv (x_loop x) true (x_stop x) x).
(** The loop calls [AsyncStopLoop], which calls [uv_stop]. *)
Definition send_stop : X unit := modify (fun x => upd_uv (x_loop x) (x_thread x) true x).
(** [uv_thread_join] returns when [uv_run] has returned: the loop has open
    handles, so that it takes [uv_stop] to end it. *)
Definition uv_thread_join : X unit :=
  let* x := get_state in
  assert_ (x_stop x) ;;;
  modify (upd_uv (x_loop x) false false).
Definition UV_EBUSY : Z := -16.
Definition uv_loop_close : X Z :=
  let* x := get_state in
  match x_loop x with
  | Some (_ :: _) => ret UV_EBUSY
  | Some [] => modify (upd_uv None (x_thread x) (x_stop x)) ;;; ret 0
  | None => fail UndefinedBehaviour
  end.

(* ------------------------------------------------------------------ *)
(** ** The extension *)

Section extension.
(** [InitAccessDefaults] *)
Context (defaults : HandleAccess).

Definition haHTTPRequest : HandleAccess := {| access_read := access_read defaults; access_delete := 0; access_clone := access_clone defaults |}.
Definition haHTTPResponse : HandleAccess :=
  {| access_read := access_read defaults; access_delete := access_delete defaults; access_clone := HANDLE_RESTRICT_IDENTITY |}.
Definition haJSON : HandleAccess := {| access_read := access_read defaults; access_delete := 0; access_clone := access_clone defaults |}.

(** [res] is the result of initialising libcurl with its text, [m] the address
    of the multi handle (0 if there is no memory for it), [path] that of the CA
    bundle *)
Definition SDK_OnLoad (res : Z) (strerror : bytes) (maxlength m : Z) (path : bytes) : X bool :=
  AddNatives (lit "http_natives") ;;;
  AddNatives (lit "json_natives") ;;;
  RegisterLibrary (lit "ripext") ;;;
  let* res := curl_global_init res in
  if negb (res =? 0) then Format maxlength strerror ;;; ret false
  else
    let* p := curl_multi_init m in
    modify (fun x => upd_curl (x_initialized x) (x_multis x) p x) ;;;
    let* _ := set_callback p (fun c => {| magic := magic c; socket_cb := true; timer_cb := timer_cb c |}) in
    let* _ := set_callback p (fun c => {| magic := magic c; socket_cb := socket_cb c; timer_cb := true |}) in
    uv_default_loop ;;;
    uv_handle_init HTimeout ;;;
    uv_handle_init HAsyncPerformRequests ;;;
    uv_handle_init HAsyncStopLoop ;;;
    uv_thread_create ;;;
    CreateType htHTTPClient defaults ;;;
    CreateType htHTTPRequest haHTTPRequest ;;;
    CreateType htHTTPResponse haHTTPResponse ;;;
    CreateType htJSON haJSON ;;;
    CreateType htJSONObjectKeys defaults ;;;
    set_hook true ;;;
    BuildPath_CA path ;;;
    ret true.

Definition SDK_OnUnload : X unit :=
  send_stop ;;;
  uv_thread_join ;;;
  let* _ := uv_loop_close in
  let* _ := curl_multi_cleanup ADDR_g_Curl in
  curl_global_cleanup ;;;
  RemoveType htHTTPClient ;;;
  RemoveType htHTTPRequest ;;;
  RemoveType htHTTPResponse ;;;
  RemoveType htJSON ;;;
  RemoveType htJSONObjectKeys ;;;
  set_hook false.
End extension.

(** A pointer to an aligned block is not taken for the mark of a multi handle. *)
Lemma pointer_not_magic m : m mod 16 = 0 -> uint32 m =? CURL_MULTI_HANDLE = false.
Proof.
  intros Hm. apply Z.eqb_neq. unfold uint32, CURL_MULTI_HANDLE. intros E.
  assert (E16 : (m mod 2 ^ 32) mod 16 = 0) by (rewrite <- Hm; change (2 ^ 32) with (16 * 2 ^ 28); rewrite Z.rem_mul_r by lia; rewrite Z.mul_comm, Z.mod_add by lia; apply Z.mod_mod; lia).
  rewrite E in E16. vm_compute in E16. discriminate.
Qed.

(** The state with the extension loaded, and after it was unloaded; the multi
    handle is there if there was memory for it. *)
Definition full_multi : Curl_multi := {| magic := CURL_MULTI_HANDLE; socket_cb := true; timer_cb := true |}.
Definition all_handles : list uv_handle := [HTimeout; HAsyncPerformRequests; HAsyncStopLoop].
Definition multi_at (m : Z) : gmap Z Curl_multi := if m =? 0 then ∅ else {[m := full_multi]}.
Definition all_types (defaults : HandleAccess) : list (HandleType * HandleAccess) :=
  [(htHTTPClient, defaults); (htHTTPRequest, haHTTPRequest defaults); (htHTTPResponse, haHTTPResponse defaults);
   (htJSON, haJSON defaults); (htJSONObjectKeys, defaults)].
Definition both_tables : list bytes := [lit "http_natives"; lit "json_natives"].
Definition loaded_ext (defaults : HandleAccess) (m : Z) (path : bytes) : ext :=
  {| x_natives := both_tables; x_libraries := [lit "ripext"]; x_initialized := 1; x_multis := multi_at m; x_g_Curl := m;
     x_loop := Some all_handles; x_thread := true; x_stop := false; x_types := all_types defaults;
     x_hooked := true; x_caBundlePath := path; x_error := [] |}.
Definition unloaded_ext (m : Z) (path : bytes) : ext :=
  {| x_natives := both_tables; x_libraries := [lit "ripext"]; x_initialized := 0; x_multis := multi_at m; x_g_Curl := m;
     x_loop := Some all_handles; x_thread := false; x_stop := false; x_types := []; x_hooked := false; x_caBundlePath := path; x_error := [] |}.
Definition failed_ext (error : bytes) : ext :=
  {| x_natives := both_tables; x_libraries := [lit "ripext"]; x_initialized := 0; x_multis := ∅; x_g_Curl := 0; x_loop := None; x_thread := false;
     x_stop := false; x_types := []; x_hooked := false; x_caBundlePath := []; x_error := error |}.

Lemma set_callback_eq x p c f : p =? 0 = false -> x_multis x !! p = Some c -> magic c = CURL_MULTI_HANDLE ->
  set_callback p f x = inr (0, upd_curl (x_initialized x) (<[p := f c]> (x_multis x)) (x_g_Curl x) x).
Proof.
  intros Hp Hc Hm. unfold set_callback, GOOD_MULTI_HANDLE, word_at, bind, get_state, require, modify, ret. by rewrite Hp, Hc, Hm, Z.eqb_refl, Hc.
Qed.

Lemma load_eq defaults text maxlength m path :
  SDK_OnLoad defaults 0 text maxlength m path ext_init = inr (true, loaded_ext defaults m path).
Proof.
  set (c0 := {| magic := CURL_MULTI_HANDLE; socket_cb := false; timer_cb := false |}).
  unfold SDK_OnLoad, loaded_ext, multi_at. do 3 (erewrite bind_inr; [|reflexivity]). erewrite bind_inr; [|reflexivity]. cbn [Z.eqb negb].
  destruct (m =? 0) eqn:Hm.
  - apply Z.eqb_eq in Hm as ->. reflexivity.
  - erewrite bind_inr; [|unfold curl_multi_init; rewrite Hm; reflexivity]. erewrite bind_inr; [|reflexivity].
    erewrite bind_inr; [|eapply (set_callback_eq _ m c0); [exact Hm|apply lookup_insert_eq|reflexivity]].
    erewrite bind_inr; [|eapply (set_callback_eq _ m); [exact Hm|apply lookup_insert_eq|reflexivity]]. cbn [x_multis upd_curl]. rewrite !insert_insert_eq. reflexivity.
Qed.
Lemma load_fails defaults res text maxlength m path : res =? 0 = false ->
  SDK_OnLoad defaults res text maxlength m path ext_init = inr (false, failed_ext (take (Z.to_nat (maxlength - 1)) text)).
Proof.
  intros Er. unfold SDK_OnLoad, curl_global_init, bind, get_state, modify, ret. cbn -[lit]. rewrite Er. cbn -[lit]. rewrite Er. cbn -[lit]. reflexivity.
Qed.
Lemma cleanup_variable x m : x_g_Curl x = m -> m mod 16 = 0 -> x_multis x !! ADDR_g_Curl = None -> curl_multi_cleanup ADDR_g_Curl x = inr (1, x).
Proof.
  intros Hx Hm Hn. unfold curl_multi_cleanup, GOOD_MULTI_HANDLE, word_at, bind, get_state. change (ADDR_g_Curl =? 0) with false. cbv beta iota.
  rewrite Hn. change (ADDR_g_Curl =? ADDR_g_Curl) with true. cbv beta iota. unfold require, ret. by rewrite Hx, (pointer_not_magic m Hm).
Qed.
Lemma unload_eq defaults m path : m mod 16 = 0 -> m <> ADDR_g_Curl -> SDK_OnUnload (loaded_ext defaults m path) = inr (tt, unloaded_ext m path).
Proof.
  intros Hm Hne. unfold SDK_OnUnload. do 3 (erewrite bind_inr; [|reflexivity]).
  erewrite bind_inr; [|apply (cleanup_variable _ m); [reflexivity|exact Hm|]]; [reflexivity|].
  cbn. unfold multi_at. destruct (m =? 0); [apply lookup_empty|by apply lookup_singleton_ne].
Qed.


