(* ===== verification/Curl.v ===== *)
(** * What the extension uses of libcurl's helpers (src/curl/lib)

    Dynamic buffers (dynbuf.c), percent-encoding (escape.c) and string lists
    (slist.c): the functions with which src/httprequest.cpp and
    src/httpclient.cpp build URLs, forms and header lists.  Buffers are memory
    blocks, lists are linked cells, and every allocation can fail.  The
    assertions of a debug build are not part of the code. *)

From S2P Require Import Prelude Strbuffer.

(* ------------------------------------------------------------------ *)
(** ** State: the allocator and the cells of lists *)

Record curl_slist := { sl_data : bytes; sl_next : option positive }.

Record cstate := {
  c_oom : oracle;                       (* the outcomes of the next allocations *)
  c_lists : gmap positive curl_slist;   (* the cells that exist *)
  c_fresh : positive                    (* an address that was never used *)
}.
Abbreviation CM := (ST cstate).

Definition set_c_oom (o : oracle) (s : cstate) : cstate :=
  {| c_oom := o; c_lists := c_lists s; c_fresh := c_fresh s |}.
Definition set_c_lists (m : gmap positive curl_slist) (s : cstate) : cstate :=
  {| c_oom := c_oom s; c_lists := m; c_fresh := c_fresh s |}.
Definition c_malloc (size : Z) : CM bool := zoom c_oom set_c_oom (do_malloc size).

(** [strdup] of a C string *)
Definition strdup (s : bytes) : CM (option bytes) :=
  let* ok := c_malloc (Z.of_nat (length s) + 1) in ret (if ok then Some s else None).

(* ------------------------------------------------------------------ *)
(** ** dynbuf.c *)

Definition CURLE_OK : Z := 0.
Definition CURLE_URL_MALFORMAT : Z := 3.
Definition CURLE_OUT_OF_MEMORY : Z := 27.
Definition MIN_FIRST_ALLOC : Z := 32.

Record dynbuf := {
  bufr : option (memblock Z);
  leng : Z;
  allc : Z;
  toobig : Z
}.

Definition Curl_dyn_init (toobig : Z) : dynbuf := {| bufr := None; leng := 0; allc := 0; toobig := toobig |}.
Definition Curl_dyn_free (s : dynbuf) : dynbuf := {| bufr := None; leng := 0; allc := 0; toobig := toobig s |}.

(** [while(a < fit) a *= 2] *)
Fixpoint dyn_grow (fuel : nat) (a fit : Z) : option Z :=
  if a <? fit then match fuel with O => None | S fuel' => dyn_grow fuel' (size_t (a * 2)) fit end else Some a.
(** more doublings than a [size_t] has bits *)
Definition GROW_FUEL : nat := 64.

(** The block after [realloc(p, size)]: the old bytes that fit. *)
Definition realloc_block (p : option (memblock Z)) (size : Z) : memblock Z :=
  let old := take (Z.to_nat size) (default [] p) in old ++ mem_alloc (Z.to_nat size - length old).

(** [memcpy(&s->bufr[indx], mem, len)] and the terminator *)
Definition dyn_store (s : dynbuf) (indx : Z) (mem : bytes) : CM (Z * dynbuf) :=
  let len := Z.of_nat (length mem) in
  let* blk := require (bufr s) in
  let* blk := require (mem_store blk (Z.to_nat indx) mem) in
  let* blk := require (mem_store blk (Z.to_nat (indx + len)) [0]) in
  ret (CURLE_OK, {| bufr := Some blk; leng := size_t (indx + len); allc := allc s; toobig := toobig s |}).

Definition dyn_nappend (s : dynbuf) (mem : bytes) : CM (Z * dynbuf) :=
  let indx := leng s in
  let fit := size_t (Z.of_nat (length mem) + indx + 1) in
  if toobig s <? fit then ret (CURLE_OUT_OF_MEMORY, Curl_dyn_free s)
  else
    let* a :=
      (if allc s =? 0 then ret (if fit <? MIN_FIRST_ALLOC then MIN_FIRST_ALLOC else fit)
       else match dyn_grow GROW_FUEL (allc s) fit with Some a => ret a | None => fail OutOfFuel end) in
    if negb (a =? allc s) then
      let* p := c_malloc a in
      if p then
        dyn_store {| bufr := Some (realloc_block (bufr s) a); leng := leng s; allc := a; toobig := toobig s |} indx mem
      else ret (CURLE_OUT_OF_MEMORY, Curl_dyn_free s)
    else dyn_store s indx mem.

Definition Curl_dyn_addn (s : dynbuf) (mem : bytes) : CM (Z * dynbuf) := dyn_nappend s mem.
Definition Curl_dyn_add (s : dynbuf) (str : bytes) : CM (Z * dynbuf) := dyn_nappend s (until_nul str).
Definition Curl_dyn_reset (s : dynbuf) : CM dynbuf :=
  if leng s =? 0 then ret s
  else
    let* blk := require (bufr s) in
    let* blk := require (mem_store blk 0 [0]) in
    ret {| bufr := Some blk; leng := 0; allc := allc s; toobig := toobig s |}.

(** [Curl_dyn_tail]: keep the last [trail] bytes. *)
Definition CURLE_BAD_FUNCTION_ARGUMENT : Z := 43.
Definition Curl_dyn_tail (s : dynbuf) (trail : Z) : CM (Z * dynbuf) :=
  if leng s <? trail then ret (CURLE_BAD_FUNCTION_ARGUMENT, s)
  else if trail =? leng s then ret (CURLE_OK, s)
  else if trail =? 0 then let* s := Curl_dyn_reset s in ret (CURLE_OK, s)
  else
    let* blk := require (bufr s) in
    let* kept := require (mem_load blk (Z.to_nat (leng s - trail)) (Z.to_nat trail)) in
    let* blk := require (mem_store blk 0 kept) in
    let* blk := require (mem_store blk (Z.to_nat trail) [0]) in
    ret (CURLE_OK, {| bufr := Some blk; leng := trail; allc := allc s; toobig := toobig s |}).

(** [dprintf_formatf] gives [alloc_addbyter] the bytes of the formatted text,
    one by one, until one is refused: [true] for [info.fail]. *)
Fixpoint add_bytes (s : dynbuf) (text : bytes) : CM (bool * dynbuf) :=
  match text with
  | [] => ret (false, s)
  | outc :: text =>
      let* (r, s) := Curl_dyn_addn s [outc] in
      if negb (r =? 0) then ret (true, s) else add_bytes s text
  end.
(** The formatted text is an argument; [None] for a format [dprintf_formatf]
    rejects. *)
Definition Curl_dyn_vprintf (s : dynbuf) (text : option bytes) : CM (Z * dynbuf) :=
  let* (fail_, s) := (match text with Some t => add_bytes s t | None => ret (true, s) end) in
  if fail_ : bool then ret (1, Curl_dyn_free s) else ret (0, s).
Definition Curl_dyn_vaddf (s : dynbuf) (text : option bytes) : CM (Z * dynbuf) :=
  let* (rc, s) := Curl_dyn_vprintf s text in
  ret (if rc =? 0 then CURLE_OK else CURLE_OUT_OF_MEMORY, s).
Definition Curl_dyn_addf (s : dynbuf) (text : option bytes) : CM (Z * dynbuf) := Curl_dyn_vaddf s text.

Definition Curl_dyn_ptr (s : dynbuf) : option (memblock Z) := bufr s.
Definition Curl_dyn_len (s : dynbuf) : Z := leng s.

(* ------------------------------------------------------------------ *)
(** ** escape.c *)

Definition CURL_MAX_INPUT_LENGTH : Z := 8000000.

Definition Curl_isunreserved (c : Z) : bool :=
  ((chr "0" <=? c) && (c <=? chr "9")) || ((chr "a" <=? c) && (c <=? chr "z")) ||
  ((chr "A" <=? c) && (c <=? chr "Z")) ||
  (c =? chr "-") || (c =? chr ".") || (c =? chr "_") || (c =? chr "~").

Definition hex_upper (d : Z) : Z := if d <? 10 then d + chr "0" else d - 10 + chr "A".
(** the text of [%%%02X] *)
Definition percent (c : Z) : bytes := [chr "%"; hex_upper (c / 16); hex_upper (c mod 16)].

(** the loop of [curl_easy_escape] over the bytes at [string] *)
Fixpoint escape_loop (length : nat) (string : bytes) (d : dynbuf) : CM (option (memblock Z)) :=
  match length with
  | O => ret (Curl_dyn_ptr d)
  | S length =>
      let* c := require (head string) in
      let* (result, d) := (if Curl_isunreserved c then Curl_dyn_addn d [c] else Curl_dyn_add d (percent c)) in
      if negb (result =? 0) then ret None else escape_loop length (tail string) d
  end.

(** [string] is the memory at the pointer. *)
Definition curl_easy_escape (string : bytes) (inlength : Z) : CM (option (memblock Z)) :=
  if inlength <? 0 then ret None
  else
    let d := Curl_dyn_init (CURL_MAX_INPUT_LENGTH * 3) in
    let len := if inlength =? 0 then length (until_nul string) else Z.to_nat inlength in
    match len with
    | O => let* e := strdup [] in ret (match e with Some _ => Some [Some 0] | None => None end)
    | _ => escape_loop len string d
    end.

Inductive urlreject : Type := REJECT_NADA | REJECT_CTRL | REJECT_ZERO.

Definition Curl_isxdigit (c : Z) : bool :=
  ((chr "0" <=? c) && (c <=? chr "9")) || ((chr "a" <=? c) && (c <=? chr "f")) || ((chr "A" <=? c) && (c <=? chr "F")).
(** a digit of [strtoul(hexstr, &ptr, 16)] *)
Definition xdigit (c : Z) : Z :=
  if c <=? chr "9" then c - chr "0" else if c <=? chr "F" then c - chr "A" + 10 else c - chr "a" + 10.

Definition rejected (ctrl : urlreject) (c : Z) : bool :=
  match ctrl with REJECT_NADA => false | REJECT_CTRL => c <? 32 | REJECT_ZERO => c =? 0 end.

(** the loop of [Curl_urldecode]; [alloc] bytes of the string are left *)
Fixpoint urldecode_loop (ctrl : urlreject) (alloc : nat) (string : bytes) (ns : memblock Z) (strindex : nat)
    : CM (Z * option (memblock Z * Z)) :=
  let put (c : Z) (k : memblock Z -> CM (Z * option (memblock Z * Z))) : CM (Z * option (memblock Z * Z)) :=
    if rejected ctrl c then ret (CURLE_URL_MALFORMAT, None)
    else let* ns := require (mem_store ns strindex [c]) in k ns in
  match alloc with
  | O =>
      let* ns := require (mem_store ns strindex [0]) in
      ret (CURLE_OK, Some (ns, Z.of_nat strindex))
  | S n =>
      let* c := require (head string) in
      let plain := put c (fun ns => urldecode_loop ctrl n (tail string) ns (S strindex)) in
      match n with
      | S (S m) =>
          if c =? chr "%" then
            let* h := require (string !! 1%nat) in
            let* l := require (string !! 2%nat) in
            if Curl_isxdigit h && Curl_isxdigit l then
              put (uchar (xdigit h * 16 + xdigit l)) (fun ns => urldecode_loop ctrl m (drop 3 string) ns (S strindex))
            else plain
          else plain
      | _ => plain
      end
  end.

Definition Curl_urldecode (string : bytes) (len : Z) (ctrl : urlreject) : CM (Z * option (memblock Z * Z)) :=
  let n := if len =? 0 then length (until_nul string) else Z.to_nat len in
  let* ok := c_malloc (size_t (Z.of_nat n + 1)) in
  if ok then urldecode_loop ctrl n string (mem_alloc (n + 1)) 0
  else ret (CURLE_OUT_OF_MEMORY, None).

Definition INT_MAX : Z := 2 ^ 31 - 1.

(** the string, and the length stored in [*olen] where the caller gave [olen] *)
Definition curl_easy_unescape (string : bytes) (len : Z) (olen : bool) : CM (option (memblock Z) * option Z) :=
  if 0 <=? len then
    let* (res, out) := Curl_urldecode string len REJECT_NADA in
    match out with
    | Some (str, outputlen) =>
        if olen then
          if outputlen <=? INT_MAX then ret (Some str, Some (Z.land outputlen INT_MAX)) else ret (None, None)
        else ret (Some str, None)
    | None => ret (None, None)
    end
  else ret (None, None).

(* ------------------------------------------------------------------ *)
(** ** slist.c *)

Definition get_cell (p : positive) : CM curl_slist :=
  let* m := gets c_lists in require (m !! p).

(** [while(item->next) item = item->next] over at most all cells *)
Fixpoint last_loop (fuel : nat) (item : positive) : CM positive :=
  match fuel with
  | O => fail OutOfFuel
  | S fuel =>
      let* cell := get_cell item in
      match sl_next cell with Some next => last_loop fuel next | None => ret item end
  end.
Definition slist_get_last (list : option positive) : CM (option positive) :=
  match list with
  | None => ret None
  | Some p => let* m := gets c_lists in let* q := last_loop (S (size m)) p in ret (Some q)
  end.

Definition SIZEOF_SLIST : Z := 16.
Definition new_cell (cell : curl_slist) : CM positive :=
  let* p := gets c_fresh in
  modify (fun s => {| c_oom := c_oom s; c_lists := <[p := cell]> (c_lists s); c_fresh := Pos.succ p |}) ;;;
  ret p.

Definition Curl_slist_append_nodup (list : option positive) (data : bytes) : CM (option positive) :=
  let* ok := c_malloc SIZEOF_SLIST in
  if negb ok then ret None
  else
    let* new_item := new_cell {| sl_data := data; sl_next := None |} in
    match list with
    | None => ret (Some new_item)
    | Some _ =>
        let* last := slist_get_last list in
        let* last := require last in
        let* cell := get_cell last in
        let* m := gets c_lists in
        modify (set_c_lists (<[last := {| sl_data := sl_data cell; sl_next := Some new_item |}]> m)) ;;;
        ret list
    end.

Definition curl_slist_append (list : option positive) (data : bytes) : CM (option positive) :=
  let* dupdata := strdup data in
  match dupdata with
  | None => ret None
  | Some dupdata => Curl_slist_append_nodup list dupdata
  end.

Fixpoint free_loop (fuel : nat) (item : positive) : CM unit :=
  match fuel with
  | O => fail OutOfFuel
  | S fuel =>
      let* cell := get_cell item in
      let* m := gets c_lists in
      modify (set_c_lists (delete item m)) ;;;
      match sl_next cell with Some next => free_loop fuel next | None => ret tt end
  end.
Definition curl_slist_free_all (list : option positive) : CM unit :=
  match list with
  | None => ret tt
  | Some item => let* m := gets c_lists in free_loop (S (size m)) item
  end.

Fixpoint duplicate_loop (fuel : nat) (inlist outlist : option positive) : CM (option positive) :=
  match inlist with
  | None => ret outlist
  | Some p =>
      match fuel with
      | O => fail OutOfFuel
      | S fuel =>
          let* cell := get_cell p in
          let* tmp := curl_slist_append outlist (sl_data cell) in
          match tmp with
          | None => curl_slist_free_all outlist ;;; ret None
          | Some _ => duplicate_loop fuel (sl_next cell) tmp
          end
      end
  end.
Definition Curl_slist_duplicate (inlist : option positive) : CM (option positive) :=
  let* m := gets c_lists in duplicate_loop (S (size m)) inlist None.

(* ------------------------------------------------------------------ *)
(** ** Dynamic buffers hold byte strings *)

(** The largest limit of a buffer for which sizes do not wrap around. *)
Definition DYN_LIMIT : Z := 2 ^ 60.

Definition dyn_rep (d : dynbuf) (s : bytes) : Prop :=
  0 < toobig d <= DYN_LIMIT /\
  match bufr d with
  | None => allc d = 0 /\ leng d = 0 /\ s = []
  | Some blk =>
      length blk = Z.to_nat (allc d) /\ 0 < allc d <= 2 * toobig d + MIN_FIRST_ALLOC /\ leng d = Z.of_nat (length s) /\
      (length s < length blk)%nat /\ take (length s) blk = Some <$> s /\ blk !! length s = Some (Some 0)
  end.

(** Only the allocator's outcomes were used up. *)
Definition allocs (s s' : cstate) : Prop :=
  c_lists s' = c_lists s /\ c_fresh s' = c_fresh s /\ (c_oom s = [] -> c_oom s' = []).
#[export] Instance allocs_preorder : PreOrder allocs.
Proof.
  split; [by intros s|]. intros s1 s2 s3 (H1 & H2 & H3) (H4 & H5 & H6). split_and!; [congruence..|auto].
Qed.

Lemma wp_c_malloc size s (Q : bool -> cstate -> Prop) :
  (forall b s', allocs s s' -> (b = false -> c_oom s <> []) -> Q b s') -> wp (c_malloc size) s Q.
Proof.
  intros HQ. unfold c_malloc. apply wp_zoom. unfold do_malloc, wp. destruct (c_oom s) as [|b o] eqn:E; apply HQ; try done; split_and!; try done; congruence.
Qed.

Lemma dyn_grow_spec fuel a fit :
  0 < a -> fit <= 2 ^ 62 -> a <= 2 ^ 62 -> fit <= a * 2 ^ Z.of_nat fuel ->
  exists a', dyn_grow fuel a fit = Some a' /\ fit <= a' /\ a <= a' /\ (a' = a \/ a' < 2 * fit).
Proof.
  revert a. induction fuel as [|fuel IH]; intros a Ha Hfit Ha2 Hf; cbn [dyn_grow]; destruct (Z.ltb_spec a fit) as [Hlt|Hge];
    try (exists a; split; [done|lia]); [cbn in Hf; lia|].
  rewrite size_t_small by (unfold SIZE_MAX; lia).
  destruct (decide (2 * a <= 2 ^ 62)) as [Hs|Hs].
  - destruct (IH (a * 2)) as (a' & E & H1 & H2 & H3); [lia..| |exists a'; split; [done|]; lia].
    rewrite Nat2Z.inj_succ, Z.pow_succ_r in Hf by lia. lia.
  - destruct fuel; cbn [dyn_grow]; rewrite (proj2 (Z.ltb_ge _ _)) by lia; exists (a * 2); (split; [done|lia]).
Qed.

Lemma dyn_store_spec d s mem st blk :
  bufr d = Some blk -> 0 < toobig d <= DYN_LIMIT -> length blk = Z.to_nat (allc d) -> 0 < allc d <= 2 * toobig d + MIN_FIRST_ALLOC ->
  take (length s) blk = Some <$> s -> (length s + length mem < length blk)%nat ->
  exists d', dyn_store d (Z.of_nat (length s)) mem st = inr ((CURLE_OK, d'), st) /\ dyn_rep d' (s ++ mem) /\ toobig d' = toobig d /\ is_Some (bufr d').
Proof.
  intros Hb Ht Hl Ha Hs Hlen. destruct (sb_store blk s mem Hs Hlen) as (v & v' & E1 & E2 & Hl' & Ht' & Hn').
  unfold dyn_store, bind. rewrite Hb. cbn [require ret]. rewrite Nat2Z.id, E1. cbn [require ret].
  rewrite <- Nat2Z.inj_add, Nat2Z.id, E2. cbn [require ret]. eexists. split; [reflexivity|]. split; [|by split].
  unfold dyn_rep, DYN_LIMIT, MIN_FIRST_ALLOC in *. split; [done|]. cbn. rewrite length_app in *.
  rewrite size_t_small by (unfold SIZE_MAX; lia). split_and!; [congruence|lia..|done|done].
Qed.

Lemma take_realloc s blk a : take (length s) blk = Some <$> s -> (length s <= Z.to_nat a)%nat ->
  take (length s) (realloc_block (Some blk) a) = Some <$> s /\ length (realloc_block (Some blk) a) = Z.to_nat a.
Proof.
  intros Hs Hle. unfold realloc_block. cbn [default from_option id].
  pose proof (f_equal length Hs) as Hn. rewrite length_take, length_fmap in Hn. split.
  - rewrite take_app_le by (rewrite length_take; lia). rewrite take_take. by replace (length s `min` Z.to_nat a)%nat with (length s) by lia.
  - rewrite length_app, length_take, length_mem_alloc. lia.
Qed.

(** Appending concatenates, within the limit; a failure empties the buffer. *)
Lemma dyn_nappend_spec d s mem st :
  dyn_rep d s -> Z.of_nat (length mem) <= DYN_LIMIT ->
  wp (dyn_nappend d mem) st (fun '(r, d') st' =>
    allocs st st' /\ toobig d' = toobig d /\
    (r = CURLE_OK /\ dyn_rep d' (s ++ mem) /\ Z.of_nat (length (s ++ mem)) < toobig d /\ is_Some (bufr d') \/
     r = CURLE_OUT_OF_MEMORY /\ bufr d' = None /\ (toobig d <= Z.of_nat (length (s ++ mem)) \/ c_oom st <> []))).
Proof.
  intros Hrep Hm. destruct Hrep as [Ht Hd]. unfold DYN_LIMIT, MIN_FIRST_ALLOC in *.
  assert (Hleng : leng d = Z.of_nat (length s) /\ (allc d = 0 \/ 0 < allc d <= 2 * toobig d + MIN_FIRST_ALLOC) /\ Z.of_nat (length s) <= 2 * toobig d + MIN_FIRST_ALLOC).
  { destruct (bufr d) as [blk|]; [|destruct Hd as (-> & -> & ->); unfold MIN_FIRST_ALLOC; cbn; lia].
    destruct Hd as (? & ? & ? & ? & _). unfold MIN_FIRST_ALLOC. lia. }
  destruct Hleng as (Hleng & Halc & Hs). unfold MIN_FIRST_ALLOC in Halc, Hs. unfold dyn_nappend. rewrite Hleng.
  rewrite size_t_small by (unfold SIZE_MAX; lia). rewrite length_app.
  destruct (Z.ltb_spec (toobig d) (Z.of_nat (length mem) + Z.of_nat (length s) + 1)) as [Hbig|Hfit].
  { wp_steps. split_and!; [done..|right]. split_and!; [done..|]. left. lia. }
  assert (exists a, (if allc d =? 0 then ret (if Z.of_nat (length mem) + Z.of_nat (length s) + 1 <? MIN_FIRST_ALLOC
      then MIN_FIRST_ALLOC else Z.of_nat (length mem) + Z.of_nat (length s) + 1)
      else match dyn_grow GROW_FUEL (allc d) (Z.of_nat (length mem) + Z.of_nat (length s) + 1) with
           | Some a => ret a | None => fail OutOfFuel end) st = inr (a, st) /\
     Z.of_nat (length mem) + Z.of_nat (length s) + 1 <= a /\ a <= 2 * toobig d + 32) as (a & Ea & Ha1 & Ha2).
  { destruct (Z.eqb_spec (allc d) 0) as [E0|E0].
    - eexists. split; [reflexivity|]. unfold MIN_FIRST_ALLOC. case_if; lia.
    - destruct (dyn_grow_spec GROW_FUEL (allc d) (Z.of_nat (length mem) + Z.of_nat (length s) + 1)) as (a & -> & Ha);
        [unfold GROW_FUEL; lia..|]. exists a. split; [done|lia]. }
  rewrite wp_bind. eapply wp_eq; [exact Ea|]. destruct (Z.eqb_spec a (allc d)) as [E0|E0]; cbn [negb].
  - destruct (bufr d) as [blk|] eqn:Eb; [|destruct Hd; lia]. destruct Hd as (Hl & _ & _ & _ & Hs' & _).
    destruct (dyn_store_spec d s mem st blk Eb) as (d' & Ed & Hrep & Htb & His);
      [unfold DYN_LIMIT, MIN_FIRST_ALLOC; lia || done..|].
    eapply wp_eq; [exact Ed|]. split_and!; [done..|left]. split_and!; [done..|lia|done].
  - rewrite wp_bind. apply wp_c_malloc. intros ok st' Hal Hok. destruct ok.
    2:{ wp_steps. split_and!; [done..|right]. split_and!; [done..|]. right. by apply Hok. }
    assert (take (length s) (realloc_block (bufr d) a) = Some <$> s /\ length (realloc_block (bufr d) a) = Z.to_nat a) as [Hs1 Hs2].
    { destruct (bufr d) as [blk|].
      - destruct Hd as (_ & _ & _ & _ & Hs' & _). apply take_realloc; [done|lia].
      - destruct Hd as (_ & _ & ->). split; [done|]. unfold realloc_block. cbn. rewrite length_app, length_mem_alloc, length_take. cbn. lia. }
    edestruct (dyn_store_spec {| bufr := Some (realloc_block (bufr d) a); leng := leng d; allc := a; toobig := toobig d |} s mem st')
      as (d' & Ed & Hrep & Htb & His); [reflexivity|cbn; unfold DYN_LIMIT, MIN_FIRST_ALLOC; lia || done..|].
    rewrite Hleng in Ed. eapply wp_eq; [exact Ed|]. split_and!; [done..|left]. split_and!; [done..|lia|done].
Qed.

(** Printing byte by byte is one append: all of the text arrives or the buffer
    is freed. *)
Lemma add_bytes_spec text : forall d s st, dyn_rep d s ->
  wp (add_bytes d text) st (fun '(f, d') st' =>
    allocs st st' /\ toobig d' = toobig d /\
    (f = false /\ dyn_rep d' (s ++ text) \/
     f = true /\ bufr d' = None /\ (toobig d <= Z.of_nat (length (s ++ text)) \/ c_oom st <> []))).
Proof.
  induction text as [|b text IH]; intros d s st Hd; cbn [add_bytes].
  { apply wp_ret. rewrite app_nil_r. split; [done|]. split; [done|]. by left. }
  wp_step. eapply wp_mono; [apply (dyn_nappend_spec d s [b] st Hd); cbn; unfold DYN_LIMIT; lia|].
  intros [r d1] st1 (Ha & Ht & [(-> & Hd1 & _)|(-> & Hn & Hw)]); cbn [negb Z.eqb].
  - eapply wp_mono; [apply (IH d1 (s ++ [b]) st1 Hd1)|]. intros [f d2] st2 (Ha2 & Ht2 & H2). rewrite <- app_assoc in H2. rewrite Ht in Ht2, H2.
    split; [by etrans|]. split; [done|]. destruct H2 as [H2|(H3 & H4 & [H5|H5])]; [by left|right; auto|right].
    split_and!; try done. right. intros E. apply H5. by apply Ha.
  - apply wp_ret. split; [done|]. split; [done|]. right. split_and!; try done. destruct Hw as [Hw|Hw]; [left|by right].
    rewrite !length_app in *. cbn in *. lia.
Qed.
Lemma Curl_dyn_vaddf_spec d s text st : dyn_rep d s ->
  wp (Curl_dyn_addf d (Some text)) st (fun '(r, d') st' =>
    allocs st st' /\ toobig d' = toobig d /\
    (r = CURLE_OK /\ dyn_rep d' (s ++ text) \/
     r = CURLE_OUT_OF_MEMORY /\ dyn_rep d' [] /\ (toobig d <= Z.of_nat (length (s ++ text)) \/ c_oom st <> []))).
Proof.
  intros Hd. unfold Curl_dyn_addf, Curl_dyn_vaddf, Curl_dyn_vprintf. wp_step. wp_step. eapply wp_mono; [by apply add_bytes_spec|].
  intros [f d'] st' (Ha & Ht & [[-> Hd']|(-> & Hn & Hw)]); (split; [done|]); (split; [done|]); [by left|right]. split_and!; try done.
  split; [cbn; rewrite Ht; apply Hd|done].
Qed.

(** The tail of a buffer. *)
Lemma Curl_dyn_tail_spec d s trail st : dyn_rep d s -> 0 <= trail ->
  exists d', Curl_dyn_tail d trail st =
    inr ((if Z.of_nat (length s) <? trail then CURLE_BAD_FUNCTION_ARGUMENT else CURLE_OK, d'), st) /\
    dyn_rep d' (if Z.of_nat (length s) <? trail then s else drop (length s - Z.to_nat trail) s) /\ toobig d' = toobig d.
Proof.
  intros Hd Htr. assert (Hlen : leng d = Z.of_nat (length s)).
  { destruct Hd as [_ Hd]. destruct (bufr d); [by destruct Hd as (_ & _ & ? & _)|by destruct Hd as (_ & -> & ->)]. }
  unfold Curl_dyn_tail. rewrite Hlen. destruct (Z.ltb_spec (Z.of_nat (length s)) trail) as [Hlt|Hge]; [by exists d|].
  destruct (Z.eqb_spec trail (Z.of_nat (length s))) as [->|Hne].
  { exists d. rewrite Nat2Z.id, Nat.sub_diag, drop_0. done. }
  destruct Hd as [Ht Hd]. destruct (bufr d) as [blk|] eqn:Eb; [|destruct Hd as (_ & _ & ->); cbn in *; lia].
  destruct Hd as (H1 & H2 & _ & H4 & H5 & H6).
  destruct (Z.eqb_spec trail 0) as [->|Hpos].
  { unfold Curl_dyn_reset. rewrite Hlen, (proj2 (Z.eqb_neq _ _)) by lia. unfold bind. rewrite Eb. cbn [require ret].
    destruct (mem_store blk 0 [0]) as [blk'|] eqn:Es; [|unfold mem_store in Es; case_decide; [done|cbn in *; lia]].
    eexists. split; [reflexivity|]. split; [|done]. split; [done|]. cbn. pose proof (length_mem_store _ _ _ _ Es) as El.
    apply mem_store_inv in Es as [_ Es]. rewrite Nat.sub_0_r, drop_all. cbn. split_and!; try done; try lia. by rewrite Es. }
  unfold bind. cbn [require ret]. unfold mem_load. rewrite decide_True by lia.
  replace (Z.to_nat (Z.of_nat (length s) - trail)) with (length s - Z.to_nat trail)%nat by lia.
  set (kept := drop (length s - Z.to_nat trail) s). assert (Hk : length kept = Z.to_nat trail) by (unfold kept; rewrite length_drop; lia).
  assert (take (Z.to_nat trail) (drop (length s - Z.to_nat trail) blk) = Some <$> kept) as ->.
  { unfold kept. rewrite fmap_drop, <- H5, take_drop_commute. by replace (length s - Z.to_nat trail + Z.to_nat trail)%nat with (length s) by lia. }
  rewrite mapM_id_Some. cbn [require ret]. destruct (sb_store blk [] kept) as (v & v' & E1 & E2 & Hl' & Ht' & Hn'); [done|cbn; lia|].
  cbn in E1, E2. rewrite E1. cbn [require ret]. rewrite <- Hk, E2. cbn [require ret]. eexists. split; [reflexivity|]. split; [|done].
  split; [done|]. cbn. cbn [app] in Ht', Hn'. rewrite Hk in *. split_and!; try done; lia.
Qed.

(* ------------------------------------------------------------------ *)
(** ** Percent-encoding *)

(** The reference encoder and decoder. *)
Definition pct_byte (c : Z) : bytes := if Curl_isunreserved c then [c] else percent c.
Definition pct (s : bytes) : bytes := s ≫= pct_byte.
Fixpoint unpct (s : bytes) : bytes :=
  match s with
  | [] => []
  | c :: t =>
      match t with
      | h :: l :: u =>
          if (c =? chr "%") && (Curl_isxdigit h && Curl_isxdigit l) then xdigit h * 16 + xdigit l :: unpct u else c :: unpct t
      | _ => c :: unpct t
      end
  end.

Lemma pct_cons c s : pct (c :: s) = pct_byte c ++ pct s.
Proof. done. Qed.
Lemma pct_app s t : pct (s ++ t) = pct s ++ pct t.
Proof. apply bind_app. Qed.

(** A test that all bytes pass. *)
Lemma all_bytes (f : Z -> bool) : forallb (fun n => f (Z.of_nat n)) (seq 0 256) = true -> forall c, is_byte c -> f c = true.
Proof.
  intros Hall c [H0 H1]. rewrite forallb_forall in Hall. specialize (Hall (Z.to_nat c)).
  rewrite Z2Nat.id in Hall by lia. apply Hall, in_seq. lia.
Qed.

Lemma hex_upper_digit c : is_byte c ->
  Curl_isxdigit (hex_upper (c / 16)) = true /\ Curl_isxdigit (hex_upper (c mod 16)) = true /\
  xdigit (hex_upper (c / 16)) * 16 + xdigit (hex_upper (c mod 16)) = c /\
  Curl_isunreserved (hex_upper (c / 16)) = true /\ Curl_isunreserved (hex_upper (c mod 16)) = true.
Proof.
  intros Hc. refine (bool_decide_eq_true_1 _ (all_bytes (fun c => bool_decide _) _ c Hc)). vm_compute. reflexivity.
Qed.
Lemma unreserved_range c : Curl_isunreserved c = true -> 45 <= c <= 126 /\ c <> chr "%" /\ c <> chr "&" /\ c <> chr "=".
Proof.
  unfold Curl_isunreserved. unfold chr. cbn. rewrite !orb_true_iff, !andb_true_iff, !Z.leb_le, !Z.eqb_eq. lia.
Qed.
(** What the encoder writes: unreserved characters and percent signs. *)
Lemma pct_byte_chars c : is_byte c -> Forall (fun x => Curl_isunreserved x = true \/ x = chr "%") (pct_byte c).
Proof.
  intros Hc. destruct (hex_upper_digit c Hc) as (_ & _ & _ & H1 & H2). unfold pct_byte, percent.
  destruct (Curl_isunreserved c) eqn:E; repeat (apply Forall_nil_2 || apply Forall_cons_2); auto.
Qed.
Lemma pct_chars s : Forall is_byte s -> Forall (fun x => Curl_isunreserved x = true \/ x = chr "%") (pct s).
Proof. induction 1 as [|c s Hc _ IH]; [constructor|]. cbn. apply Forall_app. split; [by apply pct_byte_chars|done]. Qed.
Lemma pct_char_range x : Curl_isunreserved x = true \/ x = chr "%" -> 0 < x < 256 /\ x <> chr "&" /\ x <> chr "=".
Proof. intros [H| ->]; [apply unreserved_range in H; lia|unfold chr; cbn; lia]. Qed.
Lemma pct_cstr s : Forall is_byte s -> is_cstr (pct s).
Proof. intros Hs. eapply Forall_impl; [by apply pct_chars|]. intros x Hx. apply pct_char_range in Hx. tauto. Qed.
Lemma length_pct_byte c : (1 <= length (pct_byte c) <= 3)%nat.
Proof. unfold pct_byte. destruct (Curl_isunreserved c); cbn; lia. Qed.
Lemma length_pct s : (length s <= length (pct s) <= 3 * length s)%nat.
Proof. induction s as [|c s IH]; [done|]. rewrite pct_cons, length_app. pose proof (length_pct_byte c). cbn [length]. lia. Qed.

Lemma unpct_pct s : Forall is_byte s -> unpct (pct s) = s.
Proof.
  assert (Hplain : forall c t, c <> chr "%" -> unpct (c :: t) = c :: unpct t).
  { intros c t Hc. cbn. destruct t as [|h [|l u]]; [done..|]. by rewrite (proj2 (Z.eqb_neq _ _) Hc). }
  induction 1 as [|c s Hc _ IH]; [done|]. rewrite pct_cons. unfold pct_byte.
  destruct (Curl_isunreserved c) eqn:E.
  - cbn [app]. apply unreserved_range in E as (_ & E & _). by rewrite Hplain, IH.
  - destruct (hex_upper_digit c Hc) as (H1 & H2 & H3 & _). unfold percent. cbn -[chr]. by rewrite H1, H2, Z.eqb_refl, H3, IH.
Qed.

Lemma until_nul_end s rest : is_cstr s -> until_nul (s ++ 0 :: rest) = s.
Proof. induction 1 as [|c s Hc _ IH]; [done|]. cbn. rewrite (proj2 (Z.eqb_neq _ _)) by lia. by rewrite IH. Qed.

Lemma dyn_rep_read d s blk : dyn_rep d s -> bufr d = Some blk -> is_cstr s -> read_cstr blk = inr s.
Proof. intros [_ Hd] Hb Hs. rewrite Hb in Hd. destruct Hd as (_ & _ & _ & _ & H1 & H2). by apply read_cstr_spec. Qed.

Lemma escape_add_spec c d s st : is_byte c -> dyn_rep d s ->
  wp (if Curl_isunreserved c then Curl_dyn_addn d [c] else Curl_dyn_add d (percent c)) st (fun '(r, d') st' =>
    allocs st st' /\ toobig d' = toobig d /\
    (r = CURLE_OK /\ dyn_rep d' (s ++ pct_byte c) /\ Z.of_nat (length (s ++ pct_byte c)) < toobig d /\ is_Some (bufr d') \/
     r = CURLE_OUT_OF_MEMORY /\ bufr d' = None /\ (toobig d <= Z.of_nat (length (s ++ pct_byte c)) \/ c_oom st <> []))).
Proof.
  intros Hc Hd. pose proof (pct_byte_chars c Hc) as Hch. unfold pct_byte in *. destruct (Curl_isunreserved c).
  - apply dyn_nappend_spec; [done|cbn; unfold DYN_LIMIT; lia].
  - unfold Curl_dyn_add. rewrite until_nul_cstr.
    + apply dyn_nappend_spec; [done|cbn; unfold DYN_LIMIT; lia].
    + eapply Forall_impl; [exact Hch|]. intros x Hx. apply pct_char_range in Hx. tauto.
Qed.

Lemma escape_loop_spec todo rest d s st :
  dyn_rep d s -> Forall is_byte todo -> (todo = [] -> is_Some (bufr d)) ->
  wp (escape_loop (length todo) (todo ++ rest) d) st (fun r st' =>
    allocs st st' /\
    match r with
    | Some blk => exists d', dyn_rep d' (s ++ pct todo) /\ bufr d' = Some blk /\ toobig d' = toobig d
    | None => toobig d <= Z.of_nat (length (s ++ pct todo)) \/ c_oom st <> []
    end).
Proof.
  intros Hd Hb. revert d s st Hd. induction Hb as [|c todo Hc Hb IH]; intros d s st Hd Hne; cbn [length app escape_loop].
  - wp_steps. split; [done|]. destruct (Hne eq_refl) as [blk E]. unfold Curl_dyn_ptr. rewrite E. exists d. cbn.
    by rewrite app_nil_r.
  - rewrite wp_bind. eapply wp_require; [reflexivity|]. rewrite wp_bind.
    eapply wp_mono; [by apply escape_add_spec|]. intros [r d'] st1 (Hal & Ht & [(-> & Hd' & Hlen & His)|(-> & _ & Hfail)]).
    + cbn [negb Z.eqb CURLE_OK tail]. eapply wp_mono; [by apply IH|]. cbn beta. intros r st2 [Hal2 Hr].
      rewrite pct_cons, app_assoc. split; [by etrans|].
      rewrite Ht in Hr. destruct r as [blk|]; [done|]. destruct Hr as [Hr|Hr]; [by left|right].
      intros E. apply Hr. by apply Hal.
    + cbn [negb Z.eqb CURLE_OUT_OF_MEMORY]. wp_steps. split; [done|]. destruct Hfail as [Hf|Hf]; [left|by right].
      rewrite pct_cons, !length_app in *. lia.
Qed.

(** [curl_easy_escape] of a C string is the reference encoding, unless memory
    or the limit of the buffer is exceeded. *)
Lemma curl_easy_escape_spec s st : is_cstr s ->
  wp (curl_easy_escape (s ++ [0]) 0) st (fun r st' =>
    allocs st st' /\
    match r with
    | Some blk => read_cstr blk = inr (pct s) /\ Z.of_nat (length (pct s)) <= INT_MAX
    | None => CURL_MAX_INPUT_LENGTH * 3 <= Z.of_nat (length (pct s)) \/ c_oom st <> []
    end).
Proof.
  intros Hs. pose proof (is_cstr_bytes s Hs) as Hb. unfold curl_easy_escape. change (0 <? 0) with false. change (0 =? 0) with true.
  replace (until_nul (s ++ [0])) with s.
  2:{ by rewrite until_nul_end. }
  destruct s as [|c s]; cbn [length].
  - rewrite wp_bind. unfold strdup. rewrite wp_bind. apply wp_c_malloc. intros ok st' Hal Hok. wp_steps. split; [done|].
    destruct ok; [done|right; by apply Hok].
  - change (S (length s)) with (length (c :: s)). eapply wp_mono.
    + apply (escape_loop_spec (c :: s) [0] _ []); [|done|done]. split; [|done]. cbn. unfold DYN_LIMIT, CURL_MAX_INPUT_LENGTH. lia.
    + cbn beta. intros [blk|] st' [Hal Hr]; (split; [done|]); [|done]. destruct Hr as (d' & Hd' & E & Et).
      split; [eapply dyn_rep_read; [done..|]; by apply pct_cstr|].
      destruct Hd' as [_ Hd']. rewrite E, Et in Hd'. cbn [toobig Curl_dyn_init app] in Hd'.
      unfold CURL_MAX_INPUT_LENGTH, MIN_FIRST_ALLOC in Hd'. unfold INT_MAX. lia.
Qed.

(** The bytes [done] and [out] behind them, as [Curl_urldecode] returns them. *)
Definition decoded (ctrl : urlreject) (done out : bytes) (r : Z * option (memblock Z * Z)) : Prop :=
  if existsb (rejected ctrl) out then r = (CURLE_URL_MALFORMAT, None)
  else exists ns, r = (CURLE_OK, Some (ns, Z.of_nat (length (done ++ out)))) /\
    take (length (done ++ out)) ns = Some <$> done ++ out /\ ns !! length (done ++ out) = Some (Some 0).

Lemma mem_store_snoc (ns : memblock Z) out c :
  take (length out) ns = Some <$> out -> (length out < length ns)%nat ->
  exists ns', mem_store ns (length out) [c] = Some ns' /\ length ns' = length ns /\
    take (length (out ++ [c])) ns' = Some <$> out ++ [c].
Proof.
  intros Ht Hlen. destruct (mem_store ns (length out) [c]) as [ns'|] eqn:E; [|rewrite mem_store_ok in E by (cbn; lia); done].
  exists ns'. split_and!; [done|by eapply length_mem_store|]. rewrite length_app.
  rewrite (mem_store_prefix _ _ _ _ E), Ht. by rewrite fmap_app.
Qed.

Lemma url_xdigit_range c : Curl_isxdigit c = true -> 0 <= xdigit c < 16.
Proof.
  unfold Curl_isxdigit, xdigit, chr. cbn. rewrite !orb_true_iff, !andb_true_iff, !Z.leb_le. intros Hc.
  repeat case_if; lia.
Qed.

(** Writing a byte and going on. *)
Lemma put_spec ctrl c (ns : memblock Z) out rest (k : memblock Z -> CM (Z * option (memblock Z * Z))) (st : cstate) :
  take (length out) ns = Some <$> out -> (length out < length ns)%nat ->
  (forall ns', length ns' = length ns -> take (length (out ++ [c])) ns' = Some <$> out ++ [c] ->
    exists r, k ns' st = inr (r, st) /\ decoded ctrl (out ++ [c]) rest r) ->
  exists r, (if rejected ctrl c then ret (CURLE_URL_MALFORMAT, None)
             else let* ns := require (mem_store ns (length out) [c]) in k ns) st = inr (r, st) /\
    decoded ctrl out (c :: rest) r.
Proof.
  intros Ht Hlen Hk. unfold decoded. cbn [existsb]. destruct (rejected ctrl c); [by eexists|]. cbn [orb].
  destruct (mem_store_snoc ns out c Ht Hlen) as (ns' & E & Hl & Ht'). unfold bind. rewrite E. cbn [require ret].
  destruct (Hk ns' Hl Ht') as (r & Er & Hr). exists r. split; [done|]. unfold decoded in Hr. by rewrite <- app_assoc in Hr.
Qed.

(** [Curl_urldecode] is the reference decoder with the rejected bytes. *)
Lemma urldecode_loop_spec ctrl (n : nat) string ns out (st : cstate) :
  (n <= length string)%nat -> Forall is_byte string ->
  take (length out) ns = Some <$> out -> (length out + n < length ns)%nat ->
  exists r, urldecode_loop ctrl n string ns (length out) st = inr (r, st) /\ decoded ctrl out (unpct (take n string)) r.
Proof.
  revert string ns out. induction n as [n IH] using lt_wf_ind. intros string ns out Hn Hb Ht Hlen.
  destruct n as [|n].
  - destruct (mem_store_snoc ns out 0 Ht ltac:(lia)) as (ns' & E & Hl & Ht'). cbn [urldecode_loop take unpct]. unfold bind.
    rewrite E. eexists. split; [reflexivity|]. unfold decoded. cbn [existsb]. exists ns'. rewrite app_nil_r. split_and!; [done| |].
    + rewrite <- Ht. by eapply take_mem_store.
    + by eapply lookup_mem_store.
  - destruct string as [|c s]; [cbn in Hn; lia|]. apply Forall_cons in Hb as [Hc Hb]. cbn [length] in Hn.
    assert (Hplain : exists r, (if rejected ctrl c then ret (CURLE_URL_MALFORMAT, None)
        else let* ns := require (mem_store ns (length out) [c]) in urldecode_loop ctrl n s ns (S (length out))) st = inr (r, st) /\
        decoded ctrl out (c :: unpct (take n s)) r).
    { apply put_spec; [done|lia|]. intros ns' Hl Ht'. replace (S (length out)) with (length (out ++ [c])) by (rewrite length_app; cbn; lia).
      apply IH; [lia..|done|done|]. rewrite length_app. cbn. lia. }
    destruct n as [|[|m]]; [exact Hplain| |].
    { destruct s as [|h s]; [cbn in Hn; lia|exact Hplain]. }
    destruct s as [|h [|l s]]; cbn [length] in Hn; [lia..|].
    change (take (S (S (S m))) (c :: h :: l :: s)) with (c :: h :: l :: take m s).
    change (take (S (S m)) (h :: l :: s)) with (h :: l :: take m s) in Hplain.
    cbn [urldecode_loop head require tail drop] in *. unfold bind at 1. cbn [ret]. cbn [unpct] in *.
    destruct (c =? chr "%") eqn:Ec; cbn [andb]; [|exact Hplain].
    unfold bind at 1. cbn [lookup list_lookup require ret]. unfold bind at 1. cbn [ret].
    destruct (Curl_isxdigit h && Curl_isxdigit l) eqn:Ex; [|exact Hplain]. clear Hplain.
    apply andb_true_iff in Ex as [Hh Hl]. apply url_xdigit_range in Hh, Hl. rewrite uchar_small by lia.
    apply put_spec; [done|lia|]. intros ns' Hl' Ht'.
    replace (S (length out)) with (length (out ++ [xdigit h * 16 + xdigit l])) by (rewrite length_app; cbn; lia).
    apply IH; [lia..| |done|rewrite length_app; cbn; lia]. by do 2 apply Forall_cons in Hb as [_ Hb].
Qed.

Lemma unpct_cons c h l s : unpct (c :: h :: l :: s) =
  if (c =? chr "%") && (Curl_isxdigit h && Curl_isxdigit l) then xdigit h * 16 + xdigit l :: unpct s else c :: unpct (h :: l :: s).
Proof. done. Qed.
Lemma length_unpct s : (length (unpct s) <= length s)%nat.
Proof.
  remember (length s) as n eqn:En. revert s En. induction n as [n IH] using lt_wf_ind. intros s ->.
  destruct s as [|c [|h [|l s]]]; [done|cbn; lia..|]. rewrite unpct_cons. cbn [length] in *. case_match; cbn [length].
  - pose proof (IH (length s) ltac:(lia) s eq_refl). lia.
  - pose proof (IH (S (S (length s))) ltac:(lia) (h :: l :: s) eq_refl). lia.
Qed.

(** [curl_easy_unescape] of a C string is the reference decoding. *)
Lemma curl_easy_unescape_spec s st : is_cstr s -> Z.of_nat (length s) <= INT_MAX ->
  wp (curl_easy_unescape (s ++ [0]) 0 true) st (fun '(str, olen) st' =>
    allocs st st' /\
    match str with
    | Some ns => olen = Some (Z.of_nat (length (unpct s))) /\ take (length (unpct s)) ns = Some <$> unpct s /\
                 ns !! length (unpct s) = Some (Some 0)
    | None => c_oom st <> []
    end).
Proof.
  intros Hs Hlen. unfold curl_easy_unescape. change (0 <=? 0) with true. cbv iota. unfold Curl_urldecode. change (0 =? 0) with true.
  cbv iota. rewrite until_nul_end by done. rewrite !wp_bind. apply wp_c_malloc. intros ok st1 Hal Hok. destruct ok.
  2:{ wp_steps. split; [done|]. by apply Hok. }
  destruct (urldecode_loop_spec REJECT_NADA (length s) (s ++ [0]) (mem_alloc (length s + 1)) [] st1) as (r & E & Hr).
  - rewrite length_app. lia.
  - apply Forall_app. split; [by apply is_cstr_bytes|]. by repeat constructor.
  - done.
  - rewrite length_mem_alloc. cbn. lia.
  - cbn [length] in E. eapply wp_eq; [exact E|]. rewrite take_app_length in Hr. unfold decoded in Hr.
    replace (existsb (rejected REJECT_NADA) (unpct s)) with false in Hr by (clear; by induction (unpct s)).
    destruct Hr as (ns & -> & Ht & Hn). cbn [app] in *. pose proof (length_unpct s) as Hu. unfold INT_MAX in *.
    rewrite (proj2 (Z.leb_le _ _)) by lia. wp_steps. split_and!; [done| |done..]. f_equal.
    change (2 ^ 31 - 1) with (Z.ones 31). rewrite Z.land_ones by lia. apply Z.mod_small. lia.
Qed.

(** A string, encoded and decoded again. *)
Definition escape_unescape (s : bytes) : CM (option (memblock Z) * option Z) :=
  let* e := curl_easy_escape (s ++ [0]) 0 in
  match e with
  | None => ret (None, None)
  | Some blk => let* t := lift_res (read_cstr blk) in curl_easy_unescape (t ++ [0]) 0 true
  end.

(** C32. Percent-encoding loses nothing: what [curl_easy_escape] makes of any C
    string [curl_easy_unescape] turns back into it, with its length; a result is
    missing only when an allocation failed or the encoding has 24 million
    characters.  The encoding consists of unreserved characters and percent
    signs, whatever the string. *)
Theorem curl_escape_unescape s st :
  is_cstr s ->
  exists str olen st', escape_unescape s st = inr ((str, olen), st') /\ c_lists st' = c_lists st /\
    Forall (fun x => Curl_isunreserved x = true \/ x = chr "%") (pct s) /\
    match str with
    | Some ns => olen = Some (Z.of_nat (length s)) /\ take (length s) ns = Some <$> s /\ ns !! length s = Some (Some 0)
    | None => CURL_MAX_INPUT_LENGTH * 3 <= Z.of_nat (length (pct s)) \/ c_oom st <> []
    end.
Proof.
  intros Hs. pose proof (pct_chars s (is_cstr_bytes s Hs)) as Hch.
  assert (Hwp : wp (escape_unescape s) st (fun '(str, olen) st' => c_lists st' = c_lists st /\
    match str with
    | Some ns => olen = Some (Z.of_nat (length s)) /\ take (length s) ns = Some <$> s /\ ns !! length s = Some (Some 0)
    | None => CURL_MAX_INPUT_LENGTH * 3 <= Z.of_nat (length (pct s)) \/ c_oom st <> []
    end)).
  - unfold escape_unescape. rewrite wp_bind. eapply wp_mono; [by apply curl_easy_escape_spec|].
    intros [blk|] st1 [Hal Hr]; [|wp_steps; split; [apply Hal|done]]. destruct Hr as [Hr Hlen].
    rewrite wp_bind. eapply wp_lift_res; [exact Hr|]. eapply wp_mono; [apply curl_easy_unescape_spec; [|done]|].
    { by apply pct_cstr, is_cstr_bytes. }
    rewrite unpct_pct by (by apply is_cstr_bytes). intros [[ns|] olen] st2 [Hal2 Hr2]; (split; [etrans; [apply Hal2|apply Hal]|]); [done|].
    right. intros E. by apply Hr2, Hal.
  - apply wp_inv in Hwp as ([str olen] & st' & E & Hl & Hr). by exists str, olen, st'.
Qed.

Lemma curl_escape_unescape_witness :
  exists st', escape_unescape (lit "a b&c=%") {| c_oom := []; c_lists := ∅; c_fresh := 1 |} =
    inr ((Some ((Some <$> lit "a b&c=%") ++ Some 0 :: replicate 8 None), Some 7), st').
Proof.
  destruct (curl_escape_unescape (lit "a b&c=%") {| c_oom := []; c_lists := ∅; c_fresh := 1 |}) as (str & olen & st' & E & _).
  - vm_compute. repeat (constructor; [split; reflexivity|]). constructor.
  - eexists. vm_compute. reflexivity.
Defined.

(* ------------------------------------------------------------------ *)
(** ** String lists *)

(** The cells of a list at the addresses [ps] with the strings [ds]. *)
Fixpoint cells (ps : list positive) (ds : list bytes) : gmap positive curl_slist :=
  match ps, ds with
  | p :: ps, d :: ds => <[p := {| sl_data := d; sl_next := head ps |}]> (cells ps ds)
  | _, _ => ∅
  end.

(** The caller owns the list [l] with the strings [ds]; the other cells are
    [F]. *)
Definition owns_at (s : cstate) (l : option positive) (ps : list positive) (ds : list bytes) (F : gmap positive curl_slist) : Prop :=
  NoDup ps /\ length ps = length ds /\ l = head ps /\ c_lists s = cells ps ds ∪ F /\
  (forall p, p ∈ ps -> F !! p = None) /\ (forall p, is_Some (c_lists s !! p) -> (p < c_fresh s)%positive).
Definition owns (s : cstate) (l : option positive) (ds : list bytes) (F : gmap positive curl_slist) : Prop :=
  exists ps, owns_at s l ps ds F.

Lemma cells_none ps ds p : p ∉ ps -> cells ps ds !! p = None.
Proof.
  revert ds. induction ps as [|q ps IH]; intros [|d ds] Hp; cbn; try apply lookup_empty.
  apply not_elem_of_cons in Hp as [Hne Hp]. rewrite lookup_insert_ne by done. by apply IH.
Qed.
Lemma cells_app ps ds p d : length ps = length ds -> p ∉ ps -> NoDup ps -> ps <> [] ->
  cells (ps ++ [p]) (ds ++ [d]) =
  <[p := {| sl_data := d; sl_next := None |}]>
    (match last ps with
     | Some q => <[q := {| sl_data := default [] (last ds); sl_next := Some p |}]> (cells ps ds)
     | None => cells ps ds
     end).
Proof.
  revert ds. induction ps as [|q ps IH]; intros [|e ds] Hlen Hp Hnd Hne; try done.
  apply not_elem_of_cons in Hp as [Hpq Hp]. apply NoDup_cons in Hnd as [Hq Hnd]. cbn in Hlen. injection Hlen as Hlen.
  destruct ps as [|q' ps]; destruct ds as [|e' ds]; try done.
  - cbn. rewrite insert_insert_eq. rewrite insert_insert_ne by done. done.
  - change (cells ((q :: q' :: ps) ++ [p]) ((e :: e' :: ds) ++ [d])) with
      (<[q := {| sl_data := e; sl_next := Some q' |}]> (cells ((q' :: ps) ++ [p]) ((e' :: ds) ++ [d]))).
    change (cells (q :: q' :: ps) (e :: e' :: ds)) with (<[q := {| sl_data := e; sl_next := Some q' |}]> (cells (q' :: ps) (e' :: ds))).
    rewrite (IH (e' :: ds)) by done. rewrite !last_cons_cons.
    destruct (last (q' :: ps)) as [z|] eqn:El; [|by apply last_None in El].
    assert (q <> z) by (intros ->; apply Hq; by apply last_Some_elem_of).
    rewrite (insert_insert_ne _ q p) by done. f_equal. by rewrite (insert_insert_ne _ q z) by done.
Qed.

Lemma cells_lookup ps ds i p : NoDup ps -> length ps = length ds -> ps !! i = Some p ->
  exists d, ds !! i = Some d /\ cells ps ds !! p = Some {| sl_data := d; sl_next := ps !! S i |}.
Proof.
  revert ds i. induction ps as [|q ps IH]; intros [|d ds] i Hnd Hlen Hi; try done. apply NoDup_cons in Hnd as [Hq Hnd].
  injection Hlen as Hlen. destruct i as [|i]; cbn in Hi |- *.
  - injection Hi as ->. exists d. split; [done|]. rewrite lookup_insert_eq. by destruct ps.
  - destruct (IH ds i Hnd Hlen Hi) as (e & He & Hc). exists e. split; [done|]. rewrite lookup_insert_ne; [done|].
    intros ->. apply Hq. by eapply list_elem_of_lookup_2.
Qed.

Lemma owns_lookup s l ps ds F i p : owns_at s l ps ds F -> ps !! i = Some p ->
  exists d, ds !! i = Some d /\ c_lists s !! p = Some {| sl_data := d; sl_next := ps !! S i |}.
Proof.
  intros (Hnd & Hlen & _ & Hm & _) Hi. destruct (cells_lookup ps ds i p Hnd Hlen Hi) as (d & Hd & Hc).
  exists d. split; [done|]. rewrite Hm. by apply lookup_union_Some_l.
Qed.

(** The number of cells bounds the length of the list. *)
Lemma owns_size s l ps ds F : owns_at s l ps ds F -> (length ps <= size (c_lists s))%nat.
Proof.
  intros Ho. pose proof Ho as (Hnd & _ & _ & _). rewrite <- (size_list_to_set (C := gset positive)) by done.
  rewrite <- (size_dom (D := gset positive)).
  apply subseteq_size. intros p Hp. apply elem_of_list_to_set, list_elem_of_lookup in Hp as [i Hi].
  destruct (owns_lookup _ _ _ _ _ _ _ Ho Hi) as (d & _ & E). by apply elem_of_dom_2 in E.
Qed.

Lemma wp_get_cell s p cell (Q : curl_slist -> cstate -> Prop) : c_lists s !! p = Some cell -> Q cell s -> wp (get_cell p) s Q.
Proof. intros E HQ. unfold get_cell. rewrite wp_bind. apply wp_gets. by eapply wp_require. Qed.

Lemma last_loop_spec s l ps ds F fuel i p :
  owns_at s l ps ds F -> ps !! i = Some p -> (length ps <= i + fuel)%nat ->
  exists q, last ps = Some q /\ last_loop fuel p s = inr (q, s).
Proof.
  intros Ho. revert i p. induction fuel as [|fuel IH]; intros i p Hi Hf.
  { apply lookup_lt_Some in Hi. lia. }
  destruct (owns_lookup _ _ _ _ _ _ _ Ho Hi) as (d & _ & Ec). cbn [last_loop].
  unfold bind, get_cell, gets, bind. rewrite Ec. cbn [require ret sl_next].
  destruct (ps !! S i) as [p'|] eqn:Hi'; [apply (IH (S i)); [done|lia]|].
  exists p. split; [|done]. rewrite last_lookup. apply lookup_ge_None in Hi'. apply lookup_lt_Some in Hi as Hlt.
  by replace (pred (length ps)) with i by lia.
Qed.

(** [curl_slist_append] adds one string at the end; when it fails, the list is
    as it was and still belongs to the caller. *)
Lemma append_nodup_spec s l ds F data : owns s l ds F ->
  wp (Curl_slist_append_nodup l data) s (fun r s' =>
    (c_oom s = [] -> c_oom s' = []) /\
    match r with Some _ => owns s' r (ds ++ [data]) F | None => owns s' l ds F /\ c_oom s <> [] end).
Proof.
  intros [ps Ho]. unfold Curl_slist_append_nodup. rewrite wp_bind. apply wp_c_malloc.
  intros ok s1 (Hl1 & Hf1 & Ho1) Hok. destruct ok; cbn [negb].
  2:{ wp_steps. split; [done|]. split; [|by apply Hok]. exists ps. unfold owns_at in *. by rewrite Hl1, Hf1. }
  destruct Ho as (Hnd & Hlen & Hh & Hm & HF & Hfr).
  assert (Hnew : c_lists s !! c_fresh s = None).
  { apply eq_None_not_Some. intros Hs. specialize (Hfr _ Hs). lia. }
  assert (Hnp : c_fresh s ∉ ps).
  { intros Hin. apply list_elem_of_lookup in Hin as [i Hi]. destruct (cells_lookup _ _ _ _ Hnd Hlen Hi) as (d & _ & E).
    rewrite Hm in Hnew. by rewrite (lookup_union_Some_l _ _ _ _ E) in Hnew. }
  rewrite wp_bind. unfold new_cell. wp_steps. rewrite Hf1, Hl1. set (new := {| sl_data := data; sl_next := None |}).
  assert (Hfr' : forall m : gmap positive curl_slist, (forall p, is_Some (m !! p) -> p = c_fresh s \/ is_Some (c_lists s !! p)) ->
    forall p, is_Some (m !! p) -> (p < Pos.succ (c_fresh s))%positive).
  { intros m Hp p Hs. destruct (Hp p Hs) as [->|Hs']; [lia|]. specialize (Hfr p Hs'). lia. }
  destruct l as [p|].
  - destruct ps as [|p' ps']; [done|]. injection Hh as <-. set (s2 := Build_cstate _ _ _).
    assert (Ho2 : owns_at s2 (Some p) (p :: ps') ds (<[c_fresh s := new]> F)).
    { split_and!; try done; unfold s2; cbn [c_lists c_fresh].
      - rewrite Hm. apply insert_union_r, cells_none, Hnp.
      - intros q Hq. rewrite lookup_insert_ne by (by intros <-). by apply HF.
      - apply Hfr'. intros q [c Hc]. apply lookup_insert_Some in Hc as [[-> _]|[_ Hc]]; eauto. }
    destruct (last_loop_spec s2 _ _ _ _ (S (size (c_lists s2))) 0 p Ho2 eq_refl) as (q & Eq & El).
    { pose proof (owns_size _ _ _ _ _ Ho2). lia. }
    pose proof (last_Some_elem_of _ _ Eq) as Hq. rewrite last_lookup in Eq.
    destruct (owns_lookup _ _ _ _ _ _ _ Ho2 Eq) as (d & Ed & Ec).
    rewrite wp_bind. unfold slist_get_last. rewrite wp_bind. apply wp_gets. rewrite wp_bind. eapply wp_eq; [exact El|]. wp_steps.
    eapply wp_require; [done|]. rewrite wp_bind. eapply wp_get_cell; [exact Ec|]. wp_steps. split; [done|]. exists ((p :: ps') ++ [c_fresh s]).
    rewrite <- last_lookup in Eq. assert (Edl : last ds = Some d).
    { rewrite last_lookup, <- Hlen. exact Ed. }
    split_and!.
    + apply NoDup_app. split_and!; [done| |apply NoDup_singleton]. by intros x Hx ->%list_elem_of_singleton.
    + rewrite !length_app, Hlen. done.
    + done.
    + cbn [c_lists set_c_lists s2]. rewrite cells_app, Eq, Edl by done. cbn [default sl_data].
      rewrite Hm, insert_insert_ne by (intros ->; done). by rewrite !insert_union_l.
    + intros x [Hx| ->%list_elem_of_singleton]%elem_of_app; [by apply HF|]. rewrite Hm in Hnew. by apply lookup_union_None in Hnew as [_ ?].
    + cbn [c_lists c_fresh set_c_lists s2]. apply Hfr'. intros x [c Hc].
      apply lookup_insert_Some in Hc as [[<- _]|[_ Hc]]; [right|apply lookup_insert_Some in Hc as [[-> _]|[_ Hc]]; eauto].
      rewrite Hm. apply list_elem_of_lookup in Hq as [i Hi]. destruct (cells_lookup _ _ _ _ Hnd Hlen Hi) as (e & _ & E).
      eexists. by apply lookup_union_Some_l.
  - destruct ps; [|done]. destruct ds; [|done]. wp_steps. split; [done|]. exists [c_fresh s]. cbn in Hm. rewrite map_empty_union in Hm.
    split_and!; [apply NoDup_singleton|done|done| | |]; cbn [c_lists c_fresh].
    + cbn. by rewrite Hm, <- insert_union_l, map_empty_union.
    + intros x ->%list_elem_of_singleton. by rewrite <- Hm.
    + apply Hfr'. intros x [c Hc]. apply lookup_insert_Some in Hc as [[-> _]|[_ Hc]]; eauto.
Qed.

Lemma wp_strdup data s (Q : option bytes -> cstate -> Prop) :
  (forall s', allocs s s' -> Q (Some data) s') -> (forall s', allocs s s' -> c_oom s <> [] -> Q None s') -> wp (strdup data) s Q.
Proof.
  intros H1 H2. unfold strdup. rewrite wp_bind. apply wp_c_malloc. intros [] s' Hal Hok; wp_steps; [by apply H1|].
  apply H2; [done|]. by apply Hok.
Qed.

Lemma owns_allocs s s' l ds F : allocs s s' -> owns s l ds F -> owns s' l ds F.
Proof. intros (Hl & Hf & _) [ps Ho]. exists ps. unfold owns_at in *. by rewrite Hl, Hf. Qed.

Lemma slist_append_spec s l ds F data : owns s l ds F ->
  wp (curl_slist_append l data) s (fun r s' =>
    (c_oom s = [] -> c_oom s' = []) /\
    match r with Some _ => owns s' r (ds ++ [data]) F | None => owns s' l ds F /\ c_oom s <> [] end).
Proof.
  intros Ho. unfold curl_slist_append. rewrite wp_bind. apply wp_strdup; intros s1 Hal.
  - eapply wp_mono; [apply append_nodup_spec; by eapply owns_allocs|]. intros r s' [Hoom Hr]. destruct Hal as (_ & _ & Ha).
    split; [auto|]. destruct r; [done|]. destruct Hr as [Hr Hne]. split; [done|]. intros E. by apply Hne, Ha.
  - intros Hne. wp_steps. split; [apply Hal|]. split; [by eapply owns_allocs|done].
Qed.

Lemma free_loop_spec ps : forall s ds F fuel p,
  owns_at s (Some p) (p :: ps) ds F -> (length ps < fuel)%nat ->
  exists s', free_loop fuel p s = inr (tt, s') /\ c_lists s' = F /\ c_fresh s' = c_fresh s /\ c_oom s' = c_oom s.
Proof.
  induction ps as [|q ps IH]; intros s ds F fuel p Ho Hf; (destruct fuel as [|fuel]; [lia|]);
    destruct (owns_lookup _ _ _ _ _ 0 _ Ho eq_refl) as (d & Ed & Ec); pose proof Ho as (Hnd & Hlen & _ & Hm & HF & Hfr);
    (destruct ds as [|d' ds]; [done|]); injection Ed as ->;
    cbn [free_loop]; unfold bind, get_cell, gets, bind, modify; rewrite Ec; cbn [require ret sl_next lookup list_lookup];
    apply NoDup_cons in Hnd as [Hp Hnd].
  - assert (delete p (c_lists s) = F) as E.
    { rewrite Hm. injection Hlen as Hlen. destruct ds; [|done]. cbn. rewrite <- insert_union_l, map_empty_union.
      apply delete_insert_id, HF. by left. }
    eexists. split; [reflexivity|]. done.
  - destruct (IH (set_c_lists (delete p (c_lists s)) s) ds F fuel q) as (s' & E' & Hs'); [|cbn in Hf; lia|by exists s'].
    injection Hlen as Hlen.
    assert (delete p (c_lists s) = cells (q :: ps) ds ∪ F) as E.
    { rewrite Hm. change (cells (p :: q :: ps) (d :: ds)) with (<[p := {| sl_data := d; sl_next := Some q |}]> (cells (q :: ps) ds)).
      rewrite <- insert_union_l. apply delete_insert_id. apply lookup_union_None.
      split; [by apply cells_none|apply HF; by left]. }
    split_and!; cbn [c_lists c_fresh set_c_lists]; [done|done|done|done| |].
    + intros x Hx. apply HF. by right.
    + intros x Hx. apply Hfr. rewrite lookup_delete_is_Some in Hx. tauto.
Qed.

(** [curl_slist_free_all] frees the cells of the list and no others. *)
Lemma slist_free_spec s l ds F : owns s l ds F ->
  exists s', curl_slist_free_all l s = inr (tt, s') /\ c_lists s' = F /\ c_fresh s' = c_fresh s /\ c_oom s' = c_oom s.
Proof.
  intros [ps Ho]. pose proof Ho as (_ & Hlen & Hh & Hm & _ & _). destruct l as [p|]; unfold curl_slist_free_all.
  - unfold bind, gets. destruct ps as [|p' ps]; [done|]. injection Hh as <-. eapply free_loop_spec; [done|].
    pose proof (owns_size _ _ _ _ _ Ho) as Hs. cbn in Hs. lia.
  - exists s. destruct ps; [|done]. cbn in Hm. rewrite map_empty_union in Hm. done.
Qed.

Lemma owns_frame s l ds F p cell : owns s l ds F -> F !! p = Some cell -> c_lists s !! p = Some cell.
Proof.
  intros (ps & Hnd & Hlen & _ & Hm & HF & _) Hp. rewrite Hm. rewrite lookup_union_r; [done|].
  apply cells_none. intros Hin. by rewrite (HF p Hin) in Hp.
Qed.

Lemma owns_nothing s : (forall p, is_Some (c_lists s !! p) -> (p < c_fresh s)%positive) -> owns s None [] (c_lists s).
Proof.
  intros Hfr. exists []. split_and!; try done; [apply NoDup_nil_2| |].
  - cbn. by rewrite map_empty_union.
  - intros p Hp. by apply elem_of_nil in Hp.
Qed.

Lemma duplicate_loop_spec s0 l ps ds F : owns_at s0 l ps ds F -> forall fuel i out s,
  (length ps <= i + fuel)%nat -> (i <= length ps)%nat -> owns s out (take i ds) (c_lists s0) ->
  wp (duplicate_loop fuel (ps !! i) out) s (fun r s' =>
    (c_oom s = [] -> c_oom s' = []) /\
    (owns s' r ds (c_lists s0) \/ r = None /\ c_lists s' = c_lists s0 /\ c_oom s <> [])).
Proof.
  intros Ho. assert (Hlen : length ps = length ds) by apply Ho.
  induction fuel as [|fuel IH]; intros i out s Hf Hi Hout.
  - assert (i = length ps) as -> by lia. rewrite lookup_ge_None_2 by done. cbn. wp_steps. split; [done|left].
    by rewrite Hlen, firstn_all in Hout.
  - destruct (ps !! i) as [p|] eqn:Ep; cbn [duplicate_loop].
    2:{ apply lookup_ge_None in Ep. wp_steps. split; [done|left]. by rewrite take_ge in Hout by lia. }
    destruct (owns_lookup _ _ _ _ _ _ _ Ho Ep) as (d & Ed & Ec).
    rewrite wp_bind. eapply wp_get_cell; [by eapply owns_frame|]. cbn [sl_data sl_next]. rewrite wp_bind.
    eapply wp_mono; [by apply slist_append_spec|]. intros [q|] s1 [Hoom Hr]; cbn beta.
    + eapply wp_mono; [apply IH; [lia|apply lookup_lt_Some in Ep; lia|]|].
      * erewrite take_S_r by done. done.
      * cbn beta. intros r s2 [Ho2 Hr2]. split; [auto|]. destruct Hr2 as [?|(? & ? & Hne)]; [by left|right]. split_and!; try done.
        intros E. by apply Hne, Hoom.
    + destruct Hr as [Hr Hne]. destruct (slist_free_spec _ _ _ _ Hr) as (s2 & E & Hl & _ & Hoo).
      rewrite wp_bind. eapply wp_eq; [exact E|]. wp_steps. split; [by rewrite Hoo|]. by right.
Qed.

(** The life of a string list: a list grows by one string per append, is
    copied by [Curl_slist_duplicate] to cells of its own, and freeing a list
    frees its cells and no others; an append or a copy that fails leaves every
    existing list as it was and nothing behind. *)
Theorem slist_correct s l ds F data :
  owns s l ds F ->
  (exists r s', curl_slist_append l data s = inr (r, s') /\
     match r with Some _ => owns s' r (ds ++ [data]) F | None => owns s' l ds F /\ c_oom s <> [] end) /\
  (exists r s', Curl_slist_duplicate l s = inr (r, s') /\
     (owns s' r ds (c_lists s) \/ r = None /\ c_lists s' = c_lists s /\ c_oom s <> [])) /\
  (exists s', curl_slist_free_all l s = inr (tt, s') /\ c_lists s' = F).
Proof.
  intros Ho. split_and!.
  - destruct (wp_inv _ _ _ (slist_append_spec s l ds F data Ho)) as (r & s' & E & _ & Hr). by exists r, s'.
  - destruct Ho as [ps Ho]. pose proof (owns_size _ _ _ _ _ Ho) as Hs. pose proof Ho as (_ & _ & Hh & _ & _ & Hfr).
    destruct (wp_inv _ _ _ (duplicate_loop_spec s l ps ds F Ho (S (size (c_lists s))) 0 None s ltac:(lia) ltac:(lia) (owns_nothing s Hfr)))
      as (r & s' & E & _ & Hr). exists r, s'. split; [|done]. unfold Curl_slist_duplicate, bind, gets. rewrite Hh.
    by destruct ps.
  - destruct (slist_free_spec s l ds F Ho) as (s' & E & Hl & _). by exists s'.
Qed.

