(* ===== verification/Http.v ===== *)
(** * Requests and transfers (src/httprequest.cpp, httpclient.cpp,
      httprequestcontext.cpp, httpfilecontext.cpp, httpformcontext.cpp)

    How a request is put together (URL, query, form, headers, options of the
    transfer) and how its body is sent and its response received.  The map of
    headers is SourceMod's [StringHashMap]: the class [HeaderMap] with the laws
    of a map.  A [std::string] is its bytes; [new] and the containers of C++ do
    not fail.  What libcurl does between the callbacks is not modelled: the
    options it is given and the calls it makes are arguments and results. *)

From S2P Require Import Prelude Strbuffer Error Curl.

(** [StringHashMap<std::string>]: [replace], [find], and the pairs in the order
    of its iterator *)
Class HeaderMap (HM : Type) : Type := {
  hm_init : HM;
  hm_replace : bytes -> bytes -> HM -> HM;
  hm_find : bytes -> HM -> option bytes;
  hm_iter : HM -> list (bytes * bytes)
}.
Class HeaderMapLaws (HM : Type) `{HeaderMap HM} : Prop := {
  hm_iter_init : hm_iter hm_init = [];
  hm_iter_nodup m : NoDup (hm_iter m).*1;
  hm_find_iter k m v : hm_find k m = Some v <-> (k, v) ∈ hm_iter m;
  hm_find_replace k v m k' : hm_find k' (hm_replace k v m) = if decide (k' = k) then Some v else hm_find k' m
}.

Section http.
Context {HM : Type} `{HeaderMap HM}.

(* ------------------------------------------------------------------ *)
(** ** HTTPRequest *)

(** The members of a request, and of each kind of context, that say how a
    transfer is made; constructors take and set them one by one. *)
Record settings := {
  connectTimeout : Z;
  maxRedirects : Z;
  timeout : Z;
  maxSendSpeed : Z;
  maxRecvSpeed : Z;
  useBasicAuth : bool;
  username : bytes;
  password : bytes
}.

Record HTTPRequest := {
  r_url : bytes;
  r_query : bytes;
  r_formData : bytes;
  r_headers : HM;
  r_settings : settings
}.

Definition default_settings : settings :=
  {| connectTimeout := 10; maxRedirects := 5; timeout := 30; maxSendSpeed := 0; maxRecvSpeed := 0;
     useBasicAuth := false; username := []; password := [] |}.

Definition SetHeader (name value : bytes) (r : HTTPRequest) : HTTPRequest :=
  {| r_url := r_url r; r_query := r_query r; r_formData := r_formData r;
     r_headers := hm_replace name value (r_headers r); r_settings := r_settings r |}.

(** the constructor *)
Definition new_HTTPRequest (url : bytes) : HTTPRequest :=
  SetHeader (lit "Content-Type") (lit "application/json")
    (SetHeader (lit "Accept") (lit "application/json")
      {| r_url := url; r_query := []; r_formData := []; r_headers := hm_init; r_settings := default_settings |}).

Definition BuildURL (r : HTTPRequest) : bytes := r_url r ++ r_query r.

Definition with_query (q : bytes) (r : HTTPRequest) : HTTPRequest :=
  {| r_url := r_url r; r_query := q; r_formData := r_formData r; r_headers := r_headers r; r_settings := r_settings r |}.
Definition with_form (f : bytes) (r : HTTPRequest) : HTTPRequest :=
  {| r_url := r_url r; r_query := r_query r; r_formData := f; r_headers := r_headers r; r_settings := r_settings r |}.
Definition with_settings (f : settings -> settings) (r : HTTPRequest) : HTTPRequest :=
  {| r_url := r_url r; r_query := r_query r; r_formData := r_formData r; r_headers := r_headers r; r_settings := f (r_settings r) |}.

(** the two escaped texts, when the session and both could be allocated;
    [curl] says whether [curl_easy_init] returned a session *)
Definition escape_param (curl : bool) (name value : bytes) : CM (option (bytes * bytes)) :=
  if negb curl then ret None
  else
    let* escapedName := curl_easy_escape (name ++ [0]) 0 in
    let* escapedValue := curl_easy_escape (value ++ [0]) 0 in
    match escapedName, escapedValue with
    | Some n, Some v =>
        let* n := lift_res (read_cstr n) in
        let* v := lift_res (read_cstr v) in
        ret (Some (n, v))
    | _, _ => ret None
    end.

Definition AppendQueryParam (curl : bool) (name value : bytes) (r : HTTPRequest) : CM HTTPRequest :=
  let* p := escape_param curl name value in
  match p with
  | Some (n, v) =>
      ret (with_query (r_query r ++ (if (length (r_query r) =? 0)%nat then lit "?" else lit "&") ++ n ++ lit "=" ++ v) r)
  | None => ret r
  end.
Definition AppendFormParam (curl : bool) (name value : bytes) (r : HTTPRequest) : CM HTTPRequest :=
  let* p := escape_param curl name value in
  match p with
  | Some (n, v) =>
      ret (with_form (r_formData r ++ (if (length (r_formData r) =? 0)%nat then [] else lit "&") ++ n ++ lit "=" ++ v) r)
  | None => ret r
  end.

Definition HEADER_BUFFER : Z := 8192.
(** [snprintf(header, sizeof(header), "%s: %s", ...)] *)
Definition header_line (name value : bytes) : bytes := snprintf HEADER_BUFFER (name ++ lit ": " ++ value).
(** the loop over the map, behind the headers that are in the list *)
Fixpoint append_headers (headers : option positive) (pairs : list (bytes * bytes)) : CM (option positive) :=
  match pairs with
  | [] => ret headers
  | (name, value) :: pairs =>
      let* headers := curl_slist_append headers (header_line name value) in append_headers headers pairs
  end.
Definition BuildHeaders (r : HTTPRequest) : CM (option positive) := append_headers None (hm_iter (r_headers r)).

Definition SetBasicAuth (user pass : bytes) : HTTPRequest -> HTTPRequest := with_settings (fun o =>
  {| connectTimeout := connectTimeout o; maxRedirects := maxRedirects o; timeout := timeout o; maxSendSpeed := maxSendSpeed o;
     maxRecvSpeed := maxRecvSpeed o; useBasicAuth := true; username := user; password := pass |}).
Definition SetConnectTimeout (z : Z) : HTTPRequest -> HTTPRequest := with_settings (fun o =>
  {| connectTimeout := z; maxRedirects := maxRedirects o; timeout := timeout o; maxSendSpeed := maxSendSpeed o;
     maxRecvSpeed := maxRecvSpeed o; useBasicAuth := useBasicAuth o; username := username o; password := password o |}).
Definition SetMaxRedirects (z : Z) : HTTPRequest -> HTTPRequest := with_settings (fun o =>
  {| connectTimeout := connectTimeout o; maxRedirects := z; timeout := timeout o; maxSendSpeed := maxSendSpeed o;
     maxRecvSpeed := maxRecvSpeed o; useBasicAuth := useBasicAuth o; username := username o; password := password o |}).
Definition SetTimeout (z : Z) : HTTPRequest -> HTTPRequest := with_settings (fun o =>
  {| connectTimeout := connectTimeout o; maxRedirects := maxRedirects o; timeout := z; maxSendSpeed := maxSendSpeed o;
     maxRecvSpeed := maxRecvSpeed o; useBasicAuth := useBasicAuth o; username := username o; password := password o |}).
Definition SetMaxSendSpeed (z : Z) : HTTPRequest -> HTTPRequest := with_settings (fun o =>
  {| connectTimeout := connectTimeout o; maxRedirects := maxRedirects o; timeout := timeout o; maxSendSpeed := z;
     maxRecvSpeed := maxRecvSpeed o; useBasicAuth := useBasicAuth o; username := username o; password := password o |}).
Definition SetMaxRecvSpeed (z : Z) : HTTPRequest -> HTTPRequest := with_settings (fun o =>
  {| connectTimeout := connectTimeout o; maxRedirects := maxRedirects o; timeout := timeout o; maxSendSpeed := maxSendSpeed o;
     maxRecvSpeed := z; useBasicAuth := useBasicAuth o; username := username o; password := password o |}).

(* ------------------------------------------------------------------ *)
(** ** HTTPClient *)

Record HTTPClient := {
  c_baseURL : bytes;
  c_headers : HM;
  c_connectTimeout : Z;
  c_followLocation : bool;
  c_timeout : Z;
  c_maxRecvSpeed : Z;
  c_maxSendSpeed : Z
}.
Definition new_HTTPClient (baseURL : bytes) : HTTPClient :=
  {| c_baseURL := baseURL; c_headers := hm_init; c_connectTimeout := 10; c_followLocation := true; c_timeout := 30;
     c_maxRecvSpeed := 0; c_maxSendSpeed := 0 |}.

Definition client_BuildURL (endpoint : bytes) (c : HTTPClient) : bytes := c_baseURL c ++ lit "/" ++ endpoint.
Definition client_BuildHeaders (acceptTypes contentType : bytes) (c : HTTPClient) : CM (option positive) :=
  let* headers := curl_slist_append None (snprintf HEADER_BUFFER (lit "Accept: " ++ acceptTypes)) in
  let* headers := curl_slist_append headers (snprintf HEADER_BUFFER (lit "Content-Type: " ++ contentType)) in
  append_headers headers (hm_iter (c_headers c)).
Definition client_SetHeader (name value : bytes) (c : HTTPClient) : HTTPClient :=
  {| c_baseURL := c_baseURL c; c_headers := hm_replace name value (c_headers c); c_connectTimeout := c_connectTimeout c;
     c_followLocation := c_followLocation c; c_timeout := c_timeout c; c_maxRecvSpeed := c_maxRecvSpeed c;
     c_maxSendSpeed := c_maxSendSpeed c |}.
Definition client_SetConnectTimeout (z : Z) (c : HTTPClient) : HTTPClient :=
  {| c_baseURL := c_baseURL c; c_headers := c_headers c; c_connectTimeout := z; c_followLocation := c_followLocation c;
     c_timeout := c_timeout c; c_maxRecvSpeed := c_maxRecvSpeed c; c_maxSendSpeed := c_maxSendSpeed c |}.
Definition client_SetFollowLocation (b : bool) (c : HTTPClient) : HTTPClient :=
  {| c_baseURL := c_baseURL c; c_headers := c_headers c; c_connectTimeout := c_connectTimeout c; c_followLocation := b;
     c_timeout := c_timeout c; c_maxRecvSpeed := c_maxRecvSpeed c; c_maxSendSpeed := c_maxSendSpeed c |}.
Definition client_SetTimeout (z : Z) (c : HTTPClient) : HTTPClient :=
  {| c_baseURL := c_baseURL c; c_headers := c_headers c; c_connectTimeout := c_connectTimeout c;
     c_followLocation := c_followLocation c; c_timeout := z; c_maxRecvSpeed := c_maxRecvSpeed c; c_maxSendSpeed := c_maxSendSpeed c |}.
Definition client_SetMaxSendSpeed (z : Z) (c : HTTPClient) : HTTPClient :=
  {| c_baseURL := c_baseURL c; c_headers := c_headers c; c_connectTimeout := c_connectTimeout c;
     c_followLocation := c_followLocation c; c_timeout := c_timeout c; c_maxRecvSpeed := c_maxRecvSpeed c; c_maxSendSpeed := z |}.
Definition client_SetMaxRecvSpeed (z : Z) (c : HTTPClient) : HTTPClient :=
  {| c_baseURL := c_baseURL c; c_headers := c_headers c; c_connectTimeout := c_connectTimeout c;
     c_followLocation := c_followLocation c; c_timeout := c_timeout c; c_maxRecvSpeed := z; c_maxSendSpeed := c_maxSendSpeed c |}.

(* ------------------------------------------------------------------ *)
(** ** Responses *)

(** [struct HTTPResponse] of src/extension.h; [body] is a block of memory *)
Record HTTPResponse := {
  status : Z;
  data : option positive;
  hndlData : Z;
  p_headers : HM;
  p_body : option (memblock Z);
  p_size : Z
}.
Definition new_HTTPResponse : HTTPResponse :=
  {| status := 0; data := None; hndlData := 0; p_headers := hm_init; p_body := None; p_size := 0 |}.
Definition with_body (body : option (memblock Z)) (size : Z) (p : HTTPResponse) : HTTPResponse :=
  {| status := status p; data := data p; hndlData := hndlData p; p_headers := p_headers p; p_body := body; p_size := size |}.
Definition with_headers (hs : HM) (p : HTTPResponse) : HTTPResponse :=
  {| status := status p; data := data p; hndlData := hndlData p; p_headers := hs; p_body := p_body p; p_size := p_size p |}.

(** the [n] bytes at a pointer to the memory [mem] *)
Definition read_bytes (mem : bytes) (n : Z) : CM bytes :=
  if Z.of_nat (length mem) <? n then fail UndefinedBehaviour else ret (take (Z.to_nat n) mem).

(** [WriteResponseBody] of the request and of the form context; the result is
    what libcurl compares with [size * nmemb] *)
Definition WriteResponseBody (body : bytes) (size nmemb : Z) (response : HTTPResponse) : CM (Z * HTTPResponse) :=
  let total := size_t (size * nmemb) in
  let need := size_t (p_size response + total + 1) in
  let* temp := c_malloc need in
  if negb temp then ret (0, response)
  else
    let blk := realloc_block (p_body response) need in
    let* chunk := read_bytes body total in
    let* blk := require (mem_store blk (Z.to_nat (p_size response)) chunk) in
    let size := size_t (p_size response + total) in
    let* blk := require (mem_store blk (Z.to_nat size) [0]) in
    ret (total, with_body (Some blk) size response).

Definition CURL_MAX_HTTP_HEADER : Z := 100 * 1024.

(** what [strncat] copies: at most [n] characters, up to a NUL *)
Fixpoint strncat_src (n : Z) (mem : bytes) : res bytes :=
  if n =? 0 then inr []
  else match mem with
       | [] => inl UndefinedBehaviour
       | c :: mem =>
           if c =? 0 then inr []
           else match strncat_src (n - 1) mem with inr s => inr (c :: s) | inl e => inl e end
       end.
(** [strncat(header, buffer, n)] into the empty [header[CURL_MAX_HTTP_HEADER]] *)
Definition strncat_header (n : Z) (mem : bytes) : res bytes :=
  match strncat_src n mem with
  | inr s => if Z.of_nat (length s) <? CURL_MAX_HTTP_HEADER then inr s else inl UndefinedBehaviour
  | inl e => inl e
  end.
(** [strstr(header, ": ")]: what is before and what is behind the first match *)
Fixpoint split_header (s : bytes) : option (bytes * bytes) :=
  match s with
  | [] => None
  | c :: t =>
      match t with
      | d :: u =>
          if (c =? chr ":") && (d =? chr " ") then Some ([], u)
          else match split_header t with Some (n, v) => Some (c :: n, v) | None => None end
      | [] => None
      end
  end.
(** [tolower] of the C locale *)
Definition tolower (c : Z) : Z := if (chr "A" <=? c) && (c <=? chr "Z") then c + 32 else c.

Definition ReceiveResponseHeader (buffer : bytes) (size nmemb : Z) (response : HTTPResponse) : res (Z * HTTPResponse) :=
  let total := size_t (size * nmemb) in
  match strncat_header (size_t (total - 2)) buffer with
  | inl e => inl e
  | inr header =>
      match split_header header with
      | None => inr (total, response)
      | Some (name, value) => inr (total, with_headers (hm_replace (tolower <$> name) value (p_headers response)) response)
      end
  end.

(* ------------------------------------------------------------------ *)
(** ** Contexts *)

(** The request body as [ReadRequestBody] sees it.  Contexts refer to the
    forward that calls the plugin back by its address. *)
Record upload := { u_body : option bytes; u_pos : Z; u_size : Z }.

(** the bytes copied to libcurl's buffer; nothing is read when nothing is
    copied *)
Definition ReadRequestBody (size nmemb : Z) (u : upload) : res (Z * bytes * upload) :=
  let total := size_t (size * nmemb) in
  let left := size_t (u_size u - u_pos u) in
  let to_copy := if left <? total then left else total in
  let copied :=
    if to_copy =? 0 then Some []
    else match u_body u with
         | Some b => if Z.of_nat (length b) <? u_pos u + to_copy then None
                     else Some (take (Z.to_nat to_copy) (drop (Z.to_nat (u_pos u)) b))
         | None => None
         end in
  match copied with
  | Some c => inr ((to_copy, c), {| u_body := u_body u; u_pos := size_t (u_pos u + to_copy); u_size := u_size u |})
  | None => inl UndefinedBehaviour
  end.

Record HTTPRequestContext := {
  x_method : bytes;
  x_url : bytes;
  x_upload : upload;
  x_headers : option positive;
  x_forward : positive;
  x_value : Z;
  x_settings : settings;
  x_response : HTTPResponse
}.
Record HTTPFileContext := {
  f_isUpload : bool;
  f_url : bytes;
  f_path : bytes;
  f_headers : option positive;
  f_forward : positive;
  f_value : Z;
  f_settings : settings
}.
Record HTTPFormContext := {
  m_url : bytes;
  m_formData : bytes;
  m_headers : option positive;
  m_forward : positive;
  m_value : Z;
  m_settings : settings;
  m_response : HTTPResponse
}.
(** [body] is the result of [json_dumps], or [None] when there is no data *)
Definition new_HTTPRequestContext (method url : bytes) (body : option bytes) (headers : option positive) (forward : positive)
    (value : Z) (connectTimeout_ maxRedirects_ timeout_ maxSendSpeed_ maxRecvSpeed_ : Z) (useBasicAuth_ : bool) (username_ password_ : bytes) : HTTPRequestContext :=
  {| x_method := method; x_url := url;
     x_upload := {| u_body := body; u_pos := 0; u_size := Z.of_nat (length (default [] body)) |};
     x_headers := headers; x_forward := forward; x_value := value;
     x_settings := {| connectTimeout := connectTimeout_; maxRedirects := maxRedirects_; timeout := timeout_; maxSendSpeed := maxSendSpeed_;
                   maxRecvSpeed := maxRecvSpeed_; useBasicAuth := useBasicAuth_; username := username_; password := password_ |};
     x_response := new_HTTPResponse |}.
Definition new_HTTPFileContext (isUpload : bool) (url path : bytes) (headers : option positive) (forward : positive)
    (value : Z) (connectTimeout_ maxRedirects_ timeout_ maxSendSpeed_ maxRecvSpeed_ : Z) (useBasicAuth_ : bool) (username_ password_ : bytes) : HTTPFileContext :=
  {| f_isUpload := isUpload; f_url := url; f_path := path; f_headers := headers; f_forward := forward; f_value := value;
     f_settings := {| connectTimeout := connectTimeout_; maxRedirects := maxRedirects_; timeout := timeout_; maxSendSpeed := maxSendSpeed_;
                   maxRecvSpeed := maxRecvSpeed_; useBasicAuth := useBasicAuth_; username := username_; password := password_ |} |}.
Definition new_HTTPFormContext (url formData : bytes) (headers : option positive) (forward : positive)
    (value : Z) (connectTimeout_ maxRedirects_ timeout_ maxSendSpeed_ maxRecvSpeed_ : Z) (useBasicAuth_ : bool) (username_ password_ : bytes) : HTTPFormContext :=
  {| m_url := url; m_formData := formData; m_headers := headers; m_forward := forward; m_value := value;
     m_settings := {| connectTimeout := connectTimeout_; maxRedirects := maxRedirects_; timeout := timeout_; maxSendSpeed := maxSendSpeed_;
                   maxRecvSpeed := maxRecvSpeed_; useBasicAuth := useBasicAuth_; username := username_; password := password_ |};
     m_response := new_HTTPResponse |}.

Inductive IHTTPContext : Type :=
| RequestContext (x : HTTPRequestContext)
| FileContext (f : HTTPFileContext)
| FormContext (m : HTTPFormContext).

(** The options of a transfer. *)
Inductive CURLoption : Type :=
| CURLOPT_POST | CURLOPT_POSTFIELDSIZE_LARGE | CURLOPT_UPLOAD | CURLOPT_INFILESIZE_LARGE | CURLOPT_CUSTOMREQUEST
| CURLOPT_ACCEPT_ENCODING | CURLOPT_CAINFO | CURLOPT_CONNECTTIMEOUT | CURLOPT_ERRORBUFFER | CURLOPT_FOLLOWLOCATION
| CURLOPT_HEADERDATA | CURLOPT_HEADERFUNCTION | CURLOPT_HTTPHEADER | CURLOPT_MAXREDIRS | CURLOPT_NOSIGNAL | CURLOPT_PIPEWAIT
| CURLOPT_PRIVATE | CURLOPT_READDATA | CURLOPT_READFUNCTION | CURLOPT_TIMEOUT | CURLOPT_URL | CURLOPT_USERAGENT
| CURLOPT_WRITEDATA | CURLOPT_WRITEFUNCTION | CURLOPT_MAX_RECV_SPEED_LARGE | CURLOPT_MAX_SEND_SPEED_LARGE
| CURLOPT_USERNAME | CURLOPT_PASSWORD | CURLOPT_POSTFIELDS.
#[export] Instance CURLoption_eq_dec : EqDecision CURLoption.
Proof. solve_decision. Defined.
(** Their values: numbers, strings, header lists, and pointers into the context
    or to functions, by name. *)
Inductive optval : Type :=
| VLong (z : Z)
| VString (s : bytes)
| VList (l : option positive)
| VPointer (what : string).
Definition options : Type := list (CURLoption * optval).

(** the options every context sets last *)
Definition limit_options (o : settings) : options :=
  (if 0 <? maxRecvSpeed o then [(CURLOPT_MAX_RECV_SPEED_LARGE, VLong (maxRecvSpeed o))] else []) ++
  (if 0 <? maxSendSpeed o then [(CURLOPT_MAX_SEND_SPEED_LARGE, VLong (maxSendSpeed o))] else []) ++
  (if useBasicAuth o then [(CURLOPT_USERNAME, VString (username o)); (CURLOPT_PASSWORD, VString (password o))] else []).

Section init_curl.
(** [g_RipExt.caBundlePath] and [SM_RIPEXT_USER_AGENT] *)
Variables caBundlePath user_agent : bytes.

(** the part of [HTTPRequestContext::InitCurl] that depends on the method *)
Definition method_options (x : HTTPRequestContext) : options :=
  let size := u_size (x_upload x) in
  if bytes_eqb (x_method x) (lit "POST") then
    [(CURLOPT_POST, VLong 1); (CURLOPT_POSTFIELDSIZE_LARGE, VLong size)]
  else if bytes_eqb (x_method x) (lit "PUT") then
    [(CURLOPT_UPLOAD, VLong 1); (CURLOPT_INFILESIZE_LARGE, VLong size)]
  else if bytes_eqb (x_method x) (lit "PATCH") then
    [(CURLOPT_CUSTOMREQUEST, VString (x_method x)); (CURLOPT_POST, VLong 1); (CURLOPT_POSTFIELDSIZE_LARGE, VLong size)]
  else if bytes_eqb (x_method x) (lit "DELETE") then
    [(CURLOPT_CUSTOMREQUEST, VString (x_method x))]
  else [].

(** [HTTPRequestContext::InitCurl], once there is a session: the calls of
    [curl_easy_setopt] in order *)
Definition request_InitCurl (x : HTTPRequestContext) : options :=
  let o := x_settings x in
  method_options x ++
  [(CURLOPT_ACCEPT_ENCODING, VString []); (CURLOPT_CAINFO, VString caBundlePath);
   (CURLOPT_CONNECTTIMEOUT, VLong (connectTimeout o)); (CURLOPT_ERRORBUFFER, VPointer "error");
   (CURLOPT_FOLLOWLOCATION, VLong 1); (CURLOPT_HEADERDATA, VPointer "response");
   (CURLOPT_HEADERFUNCTION, VPointer "ReceiveResponseHeader"); (CURLOPT_HTTPHEADER, VList (x_headers x));
   (CURLOPT_MAXREDIRS, VLong (maxRedirects o)); (CURLOPT_NOSIGNAL, VLong 1); (CURLOPT_PIPEWAIT, VLong 1);
   (CURLOPT_PRIVATE, VPointer "this"); (CURLOPT_READDATA, VPointer "this"); (CURLOPT_READFUNCTION, VPointer "ReadRequestBody");
   (CURLOPT_TIMEOUT, VLong (timeout o)); (CURLOPT_URL, VString (x_url x)); (CURLOPT_USERAGENT, VString user_agent);
   (CURLOPT_WRITEDATA, VPointer "response"); (CURLOPT_WRITEFUNCTION, VPointer "WriteResponseBody")] ++
  limit_options o.

(** [HTTPFormContext::InitCurl] *)
Definition form_InitCurl (m : HTTPFormContext) : options :=
  let o := m_settings m in
  [(CURLOPT_ACCEPT_ENCODING, VString []); (CURLOPT_CAINFO, VString caBundlePath);
   (CURLOPT_CONNECTTIMEOUT, VLong (connectTimeout o)); (CURLOPT_ERRORBUFFER, VPointer "error");
   (CURLOPT_FOLLOWLOCATION, VLong 1); (CURLOPT_HEADERDATA, VPointer "response");
   (CURLOPT_HEADERFUNCTION, VPointer "ReceiveResponseHeader"); (CURLOPT_HTTPHEADER, VList (m_headers m));
   (CURLOPT_MAXREDIRS, VLong (maxRedirects o)); (CURLOPT_NOSIGNAL, VLong 1); (CURLOPT_PIPEWAIT, VLong 1);
   (CURLOPT_POST, VLong 1); (CURLOPT_POSTFIELDS, VString (m_formData m)); (CURLOPT_PRIVATE, VPointer "this");
   (CURLOPT_TIMEOUT, VLong (timeout o)); (CURLOPT_URL, VString (m_url m)); (CURLOPT_USERAGENT, VString user_agent);
   (CURLOPT_WRITEDATA, VPointer "response"); (CURLOPT_WRITEFUNCTION, VPointer "WriteResponseBody")] ++
  limit_options o.

(** [HTTPFileContext::InitCurl] with a session; [file] is the size of the
    opened file ([FileSize]), or [None] when it cannot be opened *)
Definition file_InitCurl (file : option Z) (f : HTTPFileContext) : option options :=
  let o := f_settings f in
  match file with
  | None => None
  | Some size => Some (
      (if f_isUpload f then
         [(CURLOPT_READDATA, VPointer "file"); (CURLOPT_READFUNCTION, VPointer "fread"); (CURLOPT_UPLOAD, VLong 1);
          (CURLOPT_WRITEFUNCTION, VPointer "IgnoreResponseBody"); (CURLOPT_INFILESIZE_LARGE, VLong size)]
       else [(CURLOPT_WRITEDATA, VPointer "file"); (CURLOPT_WRITEFUNCTION, VPointer "fwrite")]) ++
      [(CURLOPT_ACCEPT_ENCODING, VString []); (CURLOPT_CAINFO, VString caBundlePath);
       (CURLOPT_CONNECTTIMEOUT, VLong (connectTimeout o)); (CURLOPT_ERRORBUFFER, VPointer "error");
       (CURLOPT_FOLLOWLOCATION, VLong 1); (CURLOPT_HTTPHEADER, VList (f_headers f));
       (CURLOPT_MAXREDIRS, VLong (maxRedirects o)); (CURLOPT_NOSIGNAL, VLong 1); (CURLOPT_PIPEWAIT, VLong 1);
       (CURLOPT_PRIVATE, VPointer "this"); (CURLOPT_TIMEOUT, VLong (timeout o)); (CURLOPT_URL, VString (f_url f));
       (CURLOPT_USERAGENT, VString user_agent)] ++
      limit_options o)
  end.
End init_curl.

(** [IgnoreResponseBody] *)
Definition IgnoreResponseBody (size nmemb : Z) : Z := size_t (size * nmemb).
End http.
