(* ===== verification/Setopt.v ===== *)
(** * What libcurl is told about a transfer (src/curl/lib/setopt.c)

    [curl_easy_setopt] for the options that the three kinds of contexts set: the
    member of [struct UserDefined] that each changes, the values that each
    rejects, and the copies of strings, which may fail.  Then what the next
    request is made of: its method ([Curl_http_method] of http.c) and the size
    of its body ([Curl_pretransfer] of transfer.c). *)

From S2P Require Import Prelude Strbuffer Curl Http.

(** The strings that libcurl copies, [enum dupstring]. *)
Inductive dupstring : Type :=
| STRING_COPYPOSTFIELDS | STRING_CUSTOMREQUEST | STRING_ENCODING | STRING_SSL_CAFILE_ORIG | STRING_SET_URL | STRING_USERAGENT
| STRING_USERNAME | STRING_PASSWORD.
#[export] Instance dupstring_eq_dec : EqDecision dupstring.
Proof. solve_decision. Defined.
Inductive Curl_HttpReq : Type := HTTPREQ_GET | HTTPREQ_POST | HTTPREQ_POST_FORM | HTTPREQ_POST_MIME | HTTPREQ_PUT | HTTPREQ_HEAD.
(** The members that are pointers to data or to functions. *)
Inductive pointer : Type :=
| P_errorbuffer | P_writeheader | P_fwrite_header | P_private_data | P_in_set | P_fread_func_set | P_out | P_fwrite_func.
#[export] Instance pointer_eq_dec : EqDecision pointer.
Proof. solve_decision. Defined.

(** [struct UserDefined], as far as the options reach it; [timeout_ms] and
    [connecttimeout_ms] are its [timeout] and [connecttimeout].  The flags that
    tell a callback of the caller from the default one are not part of it. *)
Record UserDefined := {
  str : dupstring -> option bytes;
  method : Curl_HttpReq;
  upload : bool;
  opt_no_body : bool;
  postfields : option bytes;
  postfieldsize : Z;
  filesize : Z;
  timeout_ms : Z;
  connecttimeout_ms : Z;
  maxredirs : Z;
  max_send_speed : Z;
  max_recv_speed : Z;
  headers : option positive;
  http_follow_location : bool;
  no_signal : bool;
  pipewait : bool;
  ptr : pointer -> option string
}.

(** [Curl_init_userdefined] *)
Definition Curl_init_userdefined : UserDefined := {|
  str := fun _ => None; method := HTTPREQ_GET; upload := false; opt_no_body := false; postfields := None; postfieldsize := -1;
  filesize := -1; timeout_ms := 0; connecttimeout_ms := 0; maxredirs := -1; max_send_speed := 0; max_recv_speed := 0; headers := None;
  http_follow_location := false; no_signal := false; pipewait := false;
  ptr := fun p => match p with
                  | P_out => Some "stdout" | P_in_set => Some "stdin" | P_fwrite_func => Some "fwrite" | P_fread_func_set => Some "fread"
                  | _ => None end%string |}.

Definition update {A B} `{EqDecision A} (f : A -> B) (k : A) (v : B) : A -> B := fun k' => if decide (k' = k) then v else f k'.

Definition with_str (k : dupstring) (v : option bytes) (d : UserDefined) : UserDefined :=
  {| str := update (str d) k v; method := method d; upload := upload d; opt_no_body := opt_no_body d; postfields := postfields d;
     postfieldsize := postfieldsize d; filesize := filesize d; timeout_ms := timeout_ms d; connecttimeout_ms := connecttimeout_ms d;
     maxredirs := maxredirs d; max_send_speed := max_send_speed d; max_recv_speed := max_recv_speed d; headers := headers d;
     http_follow_location := http_follow_location d; no_signal := no_signal d; pipewait := pipewait d; ptr := ptr d |}.
Definition with_method (m : Curl_HttpReq) (up nobody : bool -> bool) (fields : option bytes -> option bytes) (d : UserDefined) : UserDefined :=
  {| str := str d; method := m; upload := up (upload d); opt_no_body := nobody (opt_no_body d); postfields := fields (postfields d);
     postfieldsize := postfieldsize d; filesize := filesize d; timeout_ms := timeout_ms d; connecttimeout_ms := connecttimeout_ms d;
     maxredirs := maxredirs d; max_send_speed := max_send_speed d; max_recv_speed := max_recv_speed d; headers := headers d;
     http_follow_location := http_follow_location d; no_signal := no_signal d; pipewait := pipewait d; ptr := ptr d |}.
Definition with_sizes (post file : Z -> Z) (d : UserDefined) : UserDefined :=
  {| str := str d; method := method d; upload := upload d; opt_no_body := opt_no_body d; postfields := postfields d;
     postfieldsize := post (postfieldsize d); filesize := file (filesize d); timeout_ms := timeout_ms d; connecttimeout_ms := connecttimeout_ms d;
     maxredirs := maxredirs d; max_send_speed := max_send_speed d; max_recv_speed := max_recv_speed d; headers := headers d;
     http_follow_location := http_follow_location d; no_signal := no_signal d; pipewait := pipewait d; ptr := ptr d |}.
Definition with_limits (t ct redirs send recv : Z -> Z) (d : UserDefined) : UserDefined :=
  {| str := str d; method := method d; upload := upload d; opt_no_body := opt_no_body d; postfields := postfields d;
     postfieldsize := postfieldsize d; filesize := filesize d; timeout_ms := t (timeout_ms d); connecttimeout_ms := ct (connecttimeout_ms d);
     maxredirs := redirs (maxredirs d); max_send_speed := send (max_send_speed d); max_recv_speed := recv (max_recv_speed d); headers := headers d;
     http_follow_location := http_follow_location d; no_signal := no_signal d; pipewait := pipewait d; ptr := ptr d |}.
Definition with_http (hs : option positive -> option positive) (follow nosig wait : bool -> bool) (d : UserDefined) : UserDefined :=
  {| str := str d; method := method d; upload := upload d; opt_no_body := opt_no_body d; postfields := postfields d;
     postfieldsize := postfieldsize d; filesize := filesize d; timeout_ms := timeout_ms d; connecttimeout_ms := connecttimeout_ms d;
     maxredirs := maxredirs d; max_send_speed := max_send_speed d; max_recv_speed := max_recv_speed d; headers := hs (headers d);
     http_follow_location := follow (http_follow_location d); no_signal := nosig (no_signal d); pipewait := wait (pipewait d); ptr := ptr d |}.
Definition with_ptr (k : pointer) (v : option string) (d : UserDefined) : UserDefined :=
  {| str := str d; method := method d; upload := upload d; opt_no_body := opt_no_body d; postfields := postfields d;
     postfieldsize := postfieldsize d; filesize := filesize d; timeout_ms := timeout_ms d; connecttimeout_ms := connecttimeout_ms d;
     maxredirs := maxredirs d; max_send_speed := max_send_speed d; max_recv_speed := max_recv_speed d; headers := headers d;
     http_follow_location := http_follow_location d; no_signal := no_signal d; pipewait := pipewait d; ptr := update (ptr d) k v |}.

(** [Curl_setstropt]: the old copy is freed first. *)
Definition Curl_setstropt (k : dupstring) (s : option bytes) (d : UserDefined) : CM (Z * UserDefined) :=
  let d := with_str k None d in
  match s with
  | None => ret (CURLE_OK, d)
  | Some s =>
      let* copy := strdup s in
      match copy with
      | Some t => if CURL_MAX_INPUT_LENGTH <? Z.of_nat (length t) then ret (CURLE_BAD_FUNCTION_ARGUMENT, d)
                  else ret (CURLE_OK, with_str k (Some t) d)
      | None => ret (CURLE_OUT_OF_MEMORY, d)
      end
  end.

Definition INT_MAX_S : Z := (2 ^ 31 - 1) / 1000.     (* INT_MAX/1000 *)

Section setopt.
(** [Curl_all_content_encodings]: the encodings of the build *)
Context (all_encodings : bytes).

(** [Curl_vsetopt], for these options, with the line of setopt.c at which the
    case of each begins; an argument of another type than the option takes
    cannot be read. *)
Definition Curl_vsetopt (tag : CURLoption) (arg : optval) (d : UserDefined) : CM (Z * UserDefined) :=
  match tag, arg with
  | CURLOPT_POST, VLong z => (* 621 *)
      ret (CURLE_OK, if negb (z =? 0) then with_method HTTPREQ_POST id (const false) id d
                     else with_method HTTPREQ_GET id id id d)
  | CURLOPT_UPLOAD, VLong z => (* 296 *)
      ret (CURLE_OK, if negb (z =? 0) then with_method HTTPREQ_PUT (const true) (const false) id d
                     else with_method HTTPREQ_GET (const false) id id d)
  | CURLOPT_POSTFIELDS, VString s => (* 491 *)
      let* (_, d) := Curl_setstropt STRING_COPYPOSTFIELDS None d in
      ret (CURLE_OK, with_method HTTPREQ_POST id id (const (Some s)) d)
  | CURLOPT_POSTFIELDSIZE_LARGE, VLong z => (* 520 *)
      if z <? -1 then ret (CURLE_BAD_FUNCTION_ARGUMENT, d)
      else
        (* [postfields] is the copy only if neither was set: nothing here sets the copy *)
        let d := if (postfieldsize d <? z) && bool_decide (postfields d = None) && bool_decide (str d STRING_COPYPOSTFIELDS = None)
                 then with_str STRING_COPYPOSTFIELDS None d else d in
        ret (CURLE_OK, with_sizes (const z) id d)
  | CURLOPT_INFILESIZE_LARGE, VLong z => (* 1278 *)
      if z <? -1 then ret (CURLE_BAD_FUNCTION_ARGUMENT, d) else ret (CURLE_OK, with_sizes id (const z) d)
  | CURLOPT_MAXREDIRS, VLong z => (* 592 *)
      if z <? -1 then ret (CURLE_BAD_FUNCTION_ARGUMENT, d)
      else ret (CURLE_OK, with_limits id id (const z) id id d)
  | CURLOPT_TIMEOUT, VLong z => (* 1356 *)
      if (0 <=? z) && (z <=? INT_MAX_S)
      then ret (CURLE_OK, with_limits (const (z * 1000)) id id id id d)
      else ret (CURLE_BAD_FUNCTION_ARGUMENT, d)
  | CURLOPT_CONNECTTIMEOUT, VLong z => (* 1375 *)
      if (0 <=? z) && (z <=? INT_MAX_S)
      then ret (CURLE_OK, with_limits id (const (z * 1000)) id id id d)
      else ret (CURLE_BAD_FUNCTION_ARGUMENT, d)
  | CURLOPT_MAX_SEND_SPEED_LARGE, VLong z => (* 1298 *)
      if z <? 0 then ret (CURLE_BAD_FUNCTION_ARGUMENT, d)
      else ret (CURLE_OK, with_limits id id id (const z) id d)
  | CURLOPT_MAX_RECV_SPEED_LARGE, VLong z => (* 1308 *)
      if z <? 0 then ret (CURLE_BAD_FUNCTION_ARGUMENT, d)
      else ret (CURLE_OK, with_limits id id id id (const z) d)
  | CURLOPT_HTTPHEADER, VList l => (* 691 *) ret (CURLE_OK, with_http (const l) id id id d)
  | CURLOPT_FOLLOWLOCATION, VLong z => (* 576 *) ret (CURLE_OK, with_http id (const (negb (z =? 0))) id id d)
  | CURLOPT_NOSIGNAL, VLong z => (* 2132 *) ret (CURLE_OK, with_http id id (const (negb (z =? 0))) id d)
  | CURLOPT_PIPEWAIT, VLong z => (* 2788 *) ret (CURLE_OK, with_http id id id (const (negb (z =? 0))) d)
  | CURLOPT_CUSTOMREQUEST, VString s => (* 968 *) Curl_setstropt STRING_CUSTOMREQUEST (Some s) d
  | CURLOPT_ACCEPT_ENCODING, VString [] => (* 547 *)
      let* all := strdup all_encodings in
      match all with
      | None => ret (CURLE_OUT_OF_MEMORY, d)
      | Some a => Curl_setstropt STRING_ENCODING (Some a) d
      end
  | CURLOPT_ACCEPT_ENCODING, VString s => (* 547 *) Curl_setstropt STRING_ENCODING (Some s) d
  | CURLOPT_CAINFO, VString s => (* 1991 *) Curl_setstropt STRING_SSL_CAFILE_ORIG (Some s) d
  | CURLOPT_URL, VString s => (* 1334 *) Curl_setstropt STRING_SET_URL (Some s) d
  | CURLOPT_USERAGENT, VString s => (* 683 *) Curl_setstropt STRING_USERAGENT (Some s) d
  | CURLOPT_USERNAME, VString s => (* 1412 *) Curl_setstropt STRING_USERNAME (Some s) d
  | CURLOPT_PASSWORD, VString s => (* 1420 *) Curl_setstropt STRING_PASSWORD (Some s) d
  | CURLOPT_ERRORBUFFER, VPointer p => (* 1143 *) ret (CURLE_OK, with_ptr P_errorbuffer (Some p) d)
  | CURLOPT_HEADERDATA, VPointer p => (* 1137 *) ret (CURLE_OK, with_ptr P_writeheader (Some p) d)
  | CURLOPT_HEADERFUNCTION, VPointer p => (* 1591 *) ret (CURLE_OK, with_ptr P_fwrite_header (Some p) d)
  | CURLOPT_PRIVATE, VPointer p => (* 2211 *) ret (CURLE_OK, with_ptr P_private_data (Some p) d)
  | CURLOPT_READDATA, VPointer p => (* 1261 *) ret (CURLE_OK, with_ptr P_in_set (Some p) d)
  | CURLOPT_READFUNCTION, VPointer p => (* 1610 *) ret (CURLE_OK, with_ptr P_fread_func_set (Some p) d)
  | CURLOPT_WRITEDATA, VPointer p => (* 1150 *) ret (CURLE_OK, with_ptr P_out (Some p) d)
  | CURLOPT_WRITEFUNCTION, VPointer p => (* 1597 *) ret (CURLE_OK, with_ptr P_fwrite_func (Some p) d)
  | _, _ => fail UndefinedBehaviour
  end.

(** The calls of [curl_easy_setopt] that [InitCurl] makes; nobody looks at the
    results. *)
Fixpoint set_options (opts : options) (d : UserDefined) : CM UserDefined :=
  match opts with
  | [] => ret d
  | (tag, arg) :: opts => let* (_, d) := Curl_vsetopt tag arg d in set_options opts d
  end.
End setopt.

(** [Curl_http_method], for HTTP *)
Definition Curl_http_method (d : UserDefined) : bytes :=
  let httpreq := if upload d then HTTPREQ_PUT else method d in
  match str d STRING_CUSTOMREQUEST with
  | Some request => request
  | None =>
      if opt_no_body d then lit "HEAD"
      else match httpreq with HTTPREQ_POST | HTTPREQ_POST_FORM | HTTPREQ_POST_MIME => lit "POST" | HTTPREQ_PUT => lit "PUT" | HTTPREQ_GET => lit "GET" | HTTPREQ_HEAD => lit "HEAD" end
  end.
(** [data->state.infilesize] as [Curl_pretransfer] sets it *)
Definition infilesize (d : UserDefined) : Z :=
  match method d with
  | HTTPREQ_PUT => filesize d
  | HTTPREQ_GET | HTTPREQ_HEAD => 0
  | HTTPREQ_POST | HTTPREQ_POST_FORM | HTTPREQ_POST_MIME =>
      match postfields d with
      | Some s => if postfieldsize d =? -1 then Z.of_nat (length s) else postfieldsize d
      | None => postfieldsize d
      end
  end.
