(* ===== verification/HttpFacts.v ===== *)
(** * Requests and transfers are what the plugin asked for

    The query and the form of a request read back as the parameters that were
    appended; the body is sent and received byte by byte; header lines reach
    the map; the options of a transfer are the ones of the request. *)

From S2P Require Import Prelude Strbuffer Error Curl Http.

(** An instance of the interface of header maps. *)
#[export] Instance gmap_headers : HeaderMap (gmap bytes bytes) := {|
  hm_init := ∅;
  hm_replace k v m := <[k := v]> m;
  hm_find k m := m !! k;
  hm_iter m := map_to_list m
|}.
#[export] Instance gmap_headers_laws : HeaderMapLaws (gmap bytes bytes).
Proof.
  split; cbn.
  - apply map_to_list_empty.
  - apply NoDup_fst_map_to_list.
  - intros k m v. by rewrite elem_of_map_to_list.
  - intros k v m k'. destruct (decide (k' = k)) as [->|Hne]; [apply lookup_insert_eq|by apply lookup_insert_ne].
Qed.

(* ------------------------------------------------------------------ *)
(** ** Parameters *)

(** The reference reader: the pieces between ampersands, the parts around the
    first equals sign, percent signs decoded. *)
Fixpoint split_on (sep : Z) (s : bytes) : list bytes :=
  match s with
  | [] => [[]]
  | c :: s =>
      if c =? sep then [] :: split_on sep s
      else match split_on sep s with p :: ps => (c :: p) :: ps | [] => [[c]] end
  end.
Fixpoint cut_at (sep : Z) (s : bytes) : bytes * bytes :=
  match s with
  | [] => ([], [])
  | c :: s => if c =? sep then ([], s) else let '(a, b) := cut_at sep s in (c :: a, b)
  end.
Definition read_param (s : bytes) : bytes * bytes := let '(n, v) := cut_at (chr "=") s in (unpct n, unpct v).
Definition read_params (s : bytes) : list (bytes * bytes) :=
  match s with [] => [] | _ => read_param <$> split_on (chr "&") s end.
(** The query of a URL: behind its first question mark, before its number sign. *)
Definition url_query (url : bytes) : bytes := (cut_at (chr "?") (cut_at (chr "#") url).1).2.

Definition param_text (p : bytes * bytes) : bytes := pct p.1 ++ lit "=" ++ pct p.2.
(** The text of parameters. *)
Fixpoint params_text (ps : list (bytes * bytes)) : bytes :=
  match ps with
  | [] => []
  | [p] => param_text p
  | p :: ps => param_text p ++ lit "&" ++ params_text ps
  end.

Definition param_ok (p : bytes * bytes) : Prop := is_cstr p.1 /\ is_cstr p.2.

Lemma split_on_app sep a b : sep ∉ a -> split_on sep (a ++ sep :: b) = a :: split_on sep b.
Proof.
  induction a as [|c a IH]; intros Ha; cbn; [by rewrite Z.eqb_refl|]. apply not_elem_of_cons in Ha as [Hc Ha].
  rewrite (proj2 (Z.eqb_neq _ _)) by done. by rewrite IH.
Qed.
Lemma split_on_none sep a : sep ∉ a -> split_on sep a = [a].
Proof.
  induction a as [|c a IH]; intros Ha; cbn; [done|]. apply not_elem_of_cons in Ha as [Hc Ha].
  rewrite (proj2 (Z.eqb_neq _ _)) by done. by rewrite IH.
Qed.
Lemma cut_at_app sep a b : sep ∉ a -> cut_at sep (a ++ sep :: b) = (a, b).
Proof.
  induction a as [|c a IH]; intros Ha; cbn; [by rewrite Z.eqb_refl|]. apply not_elem_of_cons in Ha as [Hc Ha].
  rewrite (proj2 (Z.eqb_neq _ _)) by done. by rewrite IH.
Qed.

Lemma cut_at_none sep a : sep ∉ a -> cut_at sep a = (a, []).
Proof.
  induction a as [|c a IH]; intros Ha; cbn; [done|]. apply not_elem_of_cons in Ha as [Hc Ha].
  rewrite (proj2 (Z.eqb_neq _ _)) by done. by rewrite IH.
Qed.
Lemma cut_at_in sep a b : sep ∈ a -> cut_at sep (a ++ b) = ((cut_at sep a).1, (cut_at sep a).2 ++ b).
Proof.
  induction a as [|c a IH]; intros Ha; [by apply elem_of_nil in Ha|]. cbn. destruct (Z.eqb_spec c sep) as [->|Hne]; [done|].
  apply elem_of_cons in Ha as [->|Ha]; [done|]. rewrite (IH Ha). by destruct (cut_at sep a).
Qed.

Lemma not_in_pct s : is_cstr s -> chr "&" ∉ pct s /\ chr "=" ∉ pct s.
Proof.
  intros Hs. pose proof (pct_chars s (is_cstr_bytes s Hs)) as Hp. rewrite Forall_forall in Hp.
  split; intros Hin; specialize (Hp _ Hin); apply pct_char_range in Hp; naive_solver.
Qed.
Lemma read_param_text p : param_ok p -> read_param (param_text p) = p.
Proof.
  intros [Hn Hv]. destruct p as [n v]. unfold read_param, param_text. cbn [fst snd] in *.
  change (lit "=" ++ pct v) with (chr "=" :: pct v). rewrite cut_at_app by (by apply not_in_pct).
  by rewrite !unpct_pct by (by apply is_cstr_bytes).
Qed.
Lemma amp_param_text p : param_ok p -> chr "&" ∉ param_text p.
Proof.
  intros [Hn Hv] Hin. unfold param_text in Hin. rewrite !elem_of_app in Hin. destruct Hin as [Hin|[Hin|Hin]].
  - by apply (not_in_pct p.1) in Hin.
  - by apply list_elem_of_singleton in Hin.
  - by apply (not_in_pct p.2) in Hin.
Qed.
Lemma param_text_ne p : param_text p <> [].
Proof. unfold param_text. intros E. by destruct (pct p.1). Qed.

Lemma read_params_text ps : Forall param_ok ps -> read_params (params_text ps) = ps.
Proof.
  assert (Hne : forall p ps, params_text (p :: ps) <> []).
  { intros p [|q qs]; cbn; [apply param_text_ne|]. intros E. by apply app_eq_nil in E as [E%param_text_ne _]. }
  assert (Hread : forall s, s <> [] -> read_params s = read_param <$> split_on (chr "&") s) by (by intros []).
  induction 1 as [|p ps Hp Hps IH]; [done|]. rewrite Hread by apply Hne. destruct ps as [|q ps].
  - cbn [params_text]. rewrite split_on_none by (by apply amp_param_text). cbn. by rewrite read_param_text.
  - change (params_text (p :: q :: ps)) with (param_text p ++ chr "&" :: params_text (q :: ps)).
    rewrite split_on_app by (by apply amp_param_text). rewrite fmap_cons, <- Hread by apply Hne. by rewrite IH, read_param_text.
Qed.
Lemma params_text_snoc ps p : params_text (ps ++ [p]) = params_text ps ++ (match ps with [] => [] | _ => lit "&" end) ++ param_text p.
Proof.
  induction ps as [|q ps IH]; [done|]. destruct ps as [|q' ps]; [done|].
  change (params_text ((q :: q' :: ps) ++ [p])) with (param_text q ++ lit "&" ++ params_text ((q' :: ps) ++ [p])).
  rewrite IH. change (params_text (q :: q' :: ps)) with (param_text q ++ lit "&" ++ params_text (q' :: ps)). by rewrite <- !app_assoc.
Qed.
Lemma params_text_nil ps : params_text ps = [] <-> ps = [].
Proof.
  split; [|by intros ->]. destruct ps as [|p [|q ps]]; [done| |]; cbn; intros E; [by apply param_text_ne in E|].
  by apply app_eq_nil in E as [E%param_text_ne _].
Qed.

Lemma sublist_Forall {A} (P : A -> Prop) l k : sublist k l -> Forall P l -> Forall P k.
Proof. induction 1; intros Hl; [constructor|apply Forall_cons in Hl as []; constructor; auto|apply Forall_cons in Hl as []; auto]. Qed.

Section params.
Context {HM : Type} `{HeaderMap HM}.

(** A session was obtained and the encoding fits libcurl's limit. *)
Definition escapes (curl : bool) (p : bytes * bytes) : Prop :=
  curl = true /\ Z.of_nat (length p.1) < CURL_MAX_INPUT_LENGTH /\ Z.of_nat (length p.2) < CURL_MAX_INPUT_LENGTH.

Lemma escape_param_spec curl p st : param_ok p ->
  wp (escape_param curl p.1 p.2) st (fun r st' =>
    allocs st st' /\
    match r with Some x => x = (pct p.1, pct p.2) | None => c_oom st = [] -> ~ escapes curl p end).
Proof.
  intros [Hn Hv]. unfold escape_param. destruct curl; cbn [negb].
  2:{ wp_steps. split; [done|]. by intros _ [? _]. }
  rewrite wp_bind. eapply wp_mono; [by apply curl_easy_escape_spec|]. intros rn st1 [Hal1 Hr1].
  rewrite wp_bind. eapply wp_mono; [by apply curl_easy_escape_spec|]. intros rv st2 [Hal2 Hr2].
  assert (Hal : allocs st st2) by (by etrans).
  destruct rn as [bn|]; [destruct rv as [bv|]|].
  - rewrite wp_bind. eapply wp_lift_res; [apply Hr1|]. rewrite wp_bind. eapply wp_lift_res; [apply Hr2|]. wp_steps. done.
  - wp_steps. split; [done|]. intros Eo (_ & _ & Hl). destruct Hr2 as [Hr2|Hr2]; [|by apply Hr2, Hal1].
    pose proof (length_pct p.2). lia.
  - wp_steps. split; [done|]. intros Eo (_ & Hl & _). destruct Hr1 as [Hr1|Hr1]; [|done].
    pose proof (length_pct p.1). lia.
Qed.

(** A plugin's calls of [AppendQueryParam] or [AppendFormParam], one for each
    parameter, with the result of [curl_easy_init] in each call. *)
Fixpoint append_all (append : bool -> bytes -> bytes -> @HTTPRequest HM -> CM (@HTTPRequest HM))
    (ps : list (bool * (bytes * bytes))) (r : @HTTPRequest HM) : CM (@HTTPRequest HM) :=
  match ps with
  | [] => ret r
  | (curl, (n, v)) :: ps => let* r := append curl n v r in append_all append ps r
  end.

(** The text of a query. *)
Definition query_text (ps : list (bytes * bytes)) : bytes := match ps with [] => [] | _ => lit "?" ++ params_text ps end.

Lemma append_query_spec curl p (r : @HTTPRequest HM) ps st :
  param_ok p -> r_query r = query_text ps ->
  wp (AppendQueryParam curl p.1 p.2 r) st (fun r' st' =>
    allocs st st' /\
    (r' = with_query (query_text (ps ++ [p])) r \/ r' = r /\ (c_oom st = [] -> ~ escapes curl p))).
Proof.
  intros Hp Hq. unfold AppendQueryParam. rewrite wp_bind. eapply wp_mono; [by apply escape_param_spec|].
  intros [x|] st1 [Hal Hr]; [|wp_steps; split; [done|by right]]. subst x. wp_steps. split; [done|left]. f_equal. rewrite Hq.
  destruct ps as [|q ps]; [done|]. cbn [query_text].
  change (query_text ((q :: ps) ++ [p])) with (lit "?" ++ params_text ((q :: ps) ++ [p])).
  rewrite params_text_snoc, length_app. cbn [length Nat.add Nat.eqb]. by rewrite <- !app_assoc.
Qed.

Lemma append_form_spec curl p (r : @HTTPRequest HM) ps st :
  param_ok p -> r_formData r = params_text ps ->
  wp (AppendFormParam curl p.1 p.2 r) st (fun r' st' =>
    allocs st st' /\
    (r' = with_form (params_text (ps ++ [p])) r \/ r' = r /\ (c_oom st = [] -> ~ escapes curl p))).
Proof.
  intros Hp Hq. unfold AppendFormParam. rewrite wp_bind. eapply wp_mono; [by apply escape_param_spec|].
  intros [x|] st1 [Hal Hr]; [|wp_steps; split; [done|by right]]. subst x. wp_steps. split; [done|left]. f_equal.
  rewrite params_text_snoc, Hq. destruct ps as [|q ps]; [done|].
  destruct (Nat.eqb_spec (length (params_text (q :: ps))) 0) as [E|_]; [|done].
  apply nil_length_inv in E. by apply params_text_nil in E.
Qed.

(** Both kinds of parameters at once: [text] is how the request keeps them. *)
Lemma append_all_spec append (text : list (bytes * bytes) -> bytes) (get : @HTTPRequest HM -> bytes) put :
  (forall curl p r ps st, param_ok p -> get r = text ps ->
    wp (append curl p.1 p.2 r) st (fun r' st' => allocs st st' /\
      (r' = put (text (ps ++ [p])) r \/ r' = r /\ (c_oom st = [] -> ~ escapes curl p)))) ->
  (forall t r, get (put t r) = t) -> (forall t u r, put t (put u r) = put t r) -> (forall r, put (get r) r = r) ->
  forall ps r before st, Forall param_ok ps.*2 -> get r = text before ->
  wp (append_all append ps r) st (fun r' st' => allocs st st' /\
    exists kept, r' = put (text (before ++ kept)) r /\ sublist kept ps.*2 /\
      (c_oom st = [] -> Forall (fun x => escapes x.1 x.2) ps -> kept = ps.*2)).
Proof.
  intros Happ Hgp Hpp Hpg. induction ps as [|[curl [n v]] ps IH]; intros r before st Hps Hr; cbn [append_all].
  - wp_steps. split; [done|]. exists []. split_and!; [by rewrite app_nil_r, <- Hr, Hpg|constructor|done].
  - apply Forall_cons in Hps as [Hp Hps]. rewrite wp_bind. eapply wp_mono; [apply (Happ curl (n, v)); done|].
    intros r1 st1 (Hal & [->|[-> Hno]]); cbn beta.
    + eapply wp_mono; [by apply (IH _ (before ++ [(n, v)]))|]. cbn beta. intros r' st' (Hal' & kept & -> & Hsub & Hall).
      split; [by etrans|]. exists ((n, v) :: kept). rewrite Hpp, <- app_assoc. split_and!; [done|by constructor|].
      intros Eo Hes. apply Forall_cons in Hes as [_ Hes]. cbn. f_equal. apply Hall; [by apply Hal|done].
    + eapply wp_mono; [by apply (IH _ before)|]. cbn beta. intros r' st' (Hal' & kept & -> & Hsub & Hall).
      split; [by etrans|]. exists kept. split_and!; [done|by constructor|].
      intros Eo Hes. apply Forall_cons in Hes as [He _]. by destruct (Hno Eo).
Qed.

Lemma no_hash ps : Forall param_ok ps -> chr "#" ∉ query_text ps.
Proof.
  assert (Hpct : forall t, is_cstr t -> chr "#" ∉ pct t).
  { intros t Ht Hin. pose proof (pct_chars t (is_cstr_bytes t Ht)) as Hp. rewrite Forall_forall in Hp. specialize (Hp _ Hin). vm_compute in Hp. naive_solver. }
  assert (Hparam : forall p, param_ok p -> chr "#" ∉ param_text p).
  { intros p [Hn Hv]. unfold param_text. rewrite !not_elem_of_app. split_and!; [by apply Hpct| |by apply Hpct]. by intros ?%list_elem_of_singleton. }
  intros Hps. destruct ps as [|p ps]; [by intros ?%elem_of_nil|]. cbn [query_text]. intros [Hq%list_elem_of_singleton|Hin]%elem_of_app; [done|].
  revert Hin. revert p Hps. induction ps as [|q ps IH]; intros p Hps; apply Forall_cons in Hps as [Hp Hps]; [by apply Hparam|].
  change (params_text (p :: q :: ps)) with (param_text p ++ lit "&" ++ params_text (q :: ps)).
  rewrite !elem_of_app. intros [Hin|[Hin|Hin]]; [by apply Hparam in Hin|by apply list_elem_of_singleton in Hin|by apply IH in Hin].
Qed.

(** The query of a URL that something without a number sign is appended to. *)
Lemma url_query_app url q : chr "#" ∉ q ->
  url_query (url ++ q) =
  if decide (chr "#" ∈ url) then url_query url
  else if decide (chr "?" ∈ url) then url_query url ++ q else (cut_at (chr "?") q).2.
Proof.
  intros Hq. unfold url_query. case_decide as Hh; [by rewrite cut_at_in|].
  rewrite (cut_at_none (chr "#") (url ++ q)), (cut_at_none (chr "#") url) by (try done; rewrite not_elem_of_app; done). cbn [fst].
  case_decide as Hm; [by rewrite cut_at_in|]. clear Hh. induction url as [|c url IH]; [done|]. apply not_elem_of_cons in Hm as [Hc Hm]. cbn.
  rewrite (proj2 (Z.eqb_neq _ _)) by done. rewrite <- (IH Hm). by destruct (cut_at (chr "?") (url ++ q)).
Qed.

(** C31. The parameters that a plugin appends to a request.  Whatever characters
    their names and values contain, reading the form with its separators and
    percent signs gives the parameters in their order; when allocations fail or
    a text has more than eight million characters, a parameter is left out as a
    whole.  Reading the query of the built URL gives the parameters back if the
    URL the request was made with has neither a question mark nor a number sign.
    If it has a query already, the new parameters are joined to it by a second
    question mark instead of an ampersand, so that the first of them becomes
    part of the last old one; and behind a fragment they are not part of the
    query at all. *)
Theorem params_round_trip url ps st :
  Forall param_ok ps.*2 ->
  (exists (r : @HTTPRequest HM) st' kept, append_all AppendQueryParam ps (new_HTTPRequest url) st = inr (r, st') /\
     sublist kept ps.*2 /\ (c_oom st = [] -> Forall (fun x => escapes x.1 x.2) ps -> kept = ps.*2) /\
     (if decide (chr "#" ∈ url) then url_query (BuildURL r) = url_query url
      else if decide (chr "?" ∈ url) then url_query (BuildURL r) = url_query url ++ (match kept with [] => [] | _ => lit "?" ++ params_text kept end)
      else read_params (url_query (BuildURL r)) = kept)) /\
  (exists (r : @HTTPRequest HM) st' kept, append_all AppendFormParam ps (new_HTTPRequest url) st = inr (r, st') /\
     read_params (r_formData r) = kept /\ sublist kept ps.*2 /\
     (c_oom st = [] -> Forall (fun x => escapes x.1 x.2) ps -> kept = ps.*2)).
Proof.
  intros Hps. assert (Hsub : forall kept, sublist kept ps.*2 -> Forall param_ok kept) by (intros kept Hk; by eapply sublist_Forall). split.
  - destruct (wp_inv _ _ _ (append_all_spec AppendQueryParam query_text r_query with_query append_query_spec
      ltac:(done) ltac:(done) ltac:(by intros []) ps (new_HTTPRequest url) [] st Hps eq_refl)) as (r & st' & E & _ & kept & -> & Hk & Hall).
    eexists _, st', kept. split_and!; [exact E|done|done|].
    change (BuildURL (with_query (query_text ([] ++ kept)) (new_HTTPRequest url))) with (url ++ query_text kept).
    rewrite (url_query_app url (query_text kept) (no_hash kept (Hsub kept Hk))). case_decide; [done|]. case_decide; [done|].
    rewrite <- (read_params_text kept) at 2 by auto. by destruct kept.
  - destruct (wp_inv _ _ _ (append_all_spec AppendFormParam params_text r_formData with_form append_form_spec
      ltac:(done) ltac:(done) ltac:(by intros []) ps (new_HTTPRequest url) [] st Hps eq_refl)) as (r & st' & E & _ & kept & -> & Hk & Hall).
    eexists _, st', kept. split_and!; [exact E| |done|done]. cbn [r_formData with_form app]. by apply read_params_text; auto.
Qed.
End params.

Definition no_lists : cstate := {| c_oom := []; c_lists := ∅; c_fresh := 1 |}.
Definition two_params : list (bool * (bytes * bytes)) :=
  [(true, (lit "q", lit "a&b=c d")); (true, (lit "100%", lit "?"))].

Lemma params_round_trip_witness :
  exists (r : @HTTPRequest (gmap bytes bytes)) st',
    append_all AppendQueryParam two_params (new_HTTPRequest (lit "http://h/")) no_lists = inr (r, st') /\
    read_params (url_query (BuildURL r)) = two_params.*2.
Proof.
  destruct (params_round_trip (HM := gmap bytes bytes) (lit "http://h/") two_params no_lists) as [(r & st' & kept & E & _ & Hall & Hq) _].
  - vm_compute. repeat (constructor || split || reflexivity).
  - exists r, st'. split; [exact E|]. rewrite <- Hall; [exact Hq|reflexivity|].
    unfold two_params. repeat (apply Forall_cons_2 || apply Forall_nil_2); by split_and!.
Defined.

(* ------------------------------------------------------------------ *)
(** ** Bodies *)

Section bodies.
Context {HM : Type} `{HeaderMap HM}.
Abbreviation response := (@HTTPResponse HM).

(** The response holds the bytes [s], with a terminator, in a block of its own. *)
Definition body_rep (p : response) (s : bytes) : Prop :=
  p_size p = Z.of_nat (length s) /\
  match p_body p with
  | None => s = []
  | Some blk => length blk = S (length s) /\ take (length s) blk = Some <$> s /\ blk !! length s = Some (Some 0)
  end.

(** The largest response, far above any memory. *)
Definition BODY_LIMIT : Z := 2 ^ 60.

Lemma write_body_spec (p : response) s chunk st :
  body_rep p s -> Z.of_nat (length s) + Z.of_nat (length chunk) <= BODY_LIMIT ->
  wp (WriteResponseBody chunk 1 (Z.of_nat (length chunk)) p) st (fun '(r, p') st' =>
    allocs st st' /\
    (r = Z.of_nat (length chunk) /\ body_rep p' (s ++ chunk) /\ p' = with_body (p_body p') (p_size p') p \/
     r = 0 /\ p' = p /\ c_oom st <> [])).
Proof.
  intros [Hsz Hb] Hlim. unfold BODY_LIMIT in Hlim. unfold WriteResponseBody. rewrite Z.mul_1_l, Hsz.
  rewrite (size_t_small (Z.of_nat (length chunk))) by (unfold SIZE_MAX; lia).
  rewrite !size_t_small by (unfold SIZE_MAX; lia). rewrite wp_bind. apply wp_c_malloc. intros ok st1 Hal Hok. destruct ok; cbn [negb].
  2:{ wp_steps. split; [done|right]. split_and!; [done..|]. by apply Hok. }
  set (need := Z.of_nat (length s) + Z.of_nat (length chunk) + 1).
  assert (take (length s) (realloc_block (p_body p) need) = Some <$> s /\ length (realloc_block (p_body p) need) = Z.to_nat need) as [Ht Hl].
  { destruct (p_body p) as [blk|].
    - destruct Hb as (Hl & Ht & _). apply take_realloc; [done|]. unfold need. lia.
    - subst s. split; [done|]. unfold realloc_block. cbn [default from_option]. rewrite take_nil, length_app, length_mem_alloc. cbn [length]. lia. }
  destruct (sb_store _ s chunk Ht) as (v & v' & E1 & E2 & Hl' & Ht' & Hn'); [rewrite Hl; unfold need; lia|].
  unfold read_bytes. rewrite (proj2 (Z.ltb_ge _ _)) by lia. rewrite Nat2Z.id, firstn_all. wp_steps.
  rewrite Nat2Z.id. eapply wp_require; [exact E1|]. wp_steps. rewrite <- Nat2Z.inj_add, Nat2Z.id. eapply wp_require; [exact E2|]. wp_steps.
  split; [done|left]. split_and!; [done| |done]. split; cbn; [by rewrite length_app|]. rewrite length_app in *.
  split_and!; [|done|done]. rewrite Hl', Hl. unfold need. lia.
Qed.

(** The callbacks of a transfer: libcurl passes the body in chunks and stops
    when a chunk is not taken. *)
Fixpoint receive (chunks : list bytes) (p : response) : CM (bool * response) :=
  match chunks with
  | [] => ret (true, p)
  | c :: chunks =>
      let* (r, p) := WriteResponseBody c 1 (Z.of_nat (length c)) p in
      if r =? Z.of_nat (length c) then receive chunks p else ret (false, p)
  end.

Lemma receive_spec chunks (p : response) s st :
  body_rep p s -> Z.of_nat (length s) + Z.of_nat (length (mjoin chunks)) <= BODY_LIMIT ->
  wp (receive chunks p) st (fun '(ok, p') st' =>
    allocs st st' /\ p' = with_body (p_body p') (p_size p') p /\
    exists k, body_rep p' (s ++ mjoin (take k chunks)) /\ (ok = true -> mjoin (take k chunks) = mjoin chunks) /\ (c_oom st = [] -> ok = true)).
Proof.
  revert p s st. induction chunks as [|c chunks IH]; intros p s st Hp Hlim; cbn [receive].
  - wp_steps. split_and!; [done|by destruct p|]. exists 0%nat. cbn. by rewrite app_nil_r.
  - change (mjoin (c :: chunks)) with (c ++ mjoin chunks) in *. rewrite length_app in Hlim. rewrite wp_bind.
    eapply wp_mono; [apply write_body_spec; [done|lia]|]. intros [r p1] st1 (Hal & [(-> & Hp1 & Hw)|(-> & -> & Ho)]).
    + rewrite Z.eqb_refl. eapply wp_mono; [apply (IH p1 (s ++ c)); [done|rewrite length_app; lia]|].
      intros [ok p2] st2 (Hal2 & Hw2 & k & Hp2 & Hk & Hok). split_and!; [by etrans|rewrite Hw2, Hw; done|].
      exists (S k). change (mjoin (take (S k) (c :: chunks))) with (c ++ mjoin (take k chunks)). rewrite app_assoc.
      split_and!; [done|by intros E; rewrite Hk|]. intros E. by apply Hok, Hal.
    + destruct (Z.eqb_spec 0 (Z.of_nat (length c))) as [E|_].
      * destruct c; [|done]. eapply wp_mono; [apply (IH p s); [done|cbn in Hlim; lia]|].
        intros [ok p2] st2 (Hal2 & Hw2 & k & Hp2 & Hk & Hok). split_and!; [by etrans|done|].
        exists (S k). split_and!; [done..|]. by intros E'.
      * wp_steps. split_and!; [done|by destruct p|]. exists 0%nat. cbn. rewrite app_nil_r. by split_and!.
Qed.
End bodies.

(** C34. However libcurl cuts the body of a response into chunks, the response
    holds exactly the bytes of the chunks that were taken, with a terminator
    and within its block; the transfer goes on as long as memory lasts, and
    then the whole body is there. *)
Theorem response_body_chunks {HM : Type} `{HeaderMap HM} chunks st :
  Z.of_nat (length (mjoin chunks)) <= BODY_LIMIT ->
  exists ok (p : @HTTPResponse HM) st' k, receive chunks new_HTTPResponse st = inr ((ok, p), st') /\
    body_rep p (mjoin (take k chunks)) /\ (ok = true -> mjoin (take k chunks) = mjoin chunks) /\ (c_oom st = [] -> ok = true) /\
    p_headers p = hm_init /\ c_lists st' = c_lists st.
Proof.
  intros Hlim. destruct (wp_inv _ _ _ (receive_spec (HM := HM) chunks new_HTTPResponse [] st (conj eq_refl eq_refl) Hlim))
    as ([ok p] & st' & E & Hal & Hw & k & Hp & Hk & Hok).
  exists ok, p, st', k. split_and!; [done..| |apply Hal]. by rewrite Hw.
Qed.

Lemma response_body_chunks_witness :
  exists ok (p : @HTTPResponse (gmap bytes bytes)) st' k,
    receive [lit "[1,"; lit "2]"] new_HTTPResponse no_lists = inr ((ok, p), st') /\
    body_rep p (mjoin (take k [lit "[1,"; lit "2]"])) /\ ok = true.
Proof.
  destruct (response_body_chunks (HM := gmap bytes bytes) [lit "[1,"; lit "2]"] no_lists) as (ok & p & st' & k & E & Hp & _ & Hok & _).
  - vm_compute. discriminate.
  - exists ok, p, st', k. split; [exact E|]. split; [exact Hp|]. by apply Hok.
Defined.

(** The read callback, called with buffers of the sizes [ns]. *)
Fixpoint send (ns : list Z) (u : upload) : res (list bytes * upload) :=
  match ns with
  | [] => inr ([], u)
  | n :: ns =>
      match ReadRequestBody 1 n u with
      | inl e => inl e
      | inr ((_, piece), u) => match send ns u with inr (pieces, u) => inr (piece :: pieces, u) | inl e => inl e end
      end
  end.

(** The context has sent the first [i] bytes of its body [b]. *)
Definition sent (u : upload) (b : bytes) (i : nat) : Prop :=
  u_body u = Some b /\ u_pos u = Z.of_nat i /\ u_size u = Z.of_nat (length b) /\ (i <= length b)%nat /\ Z.of_nat (length b) <= SIZE_MAX.

Lemma read_body_spec n u b i : sent u b i -> 0 <= n <= SIZE_MAX ->
  let k := Nat.min (length b - i) (Z.to_nat n) in
  exists u', ReadRequestBody 1 n u = inr ((Z.of_nat k, take k (drop i b)), u') /\ sent u' b (i + k).
Proof.
  intros (Hb & Hp & Hs & Hi & Hl) Hn k. unfold ReadRequestBody. rewrite Z.mul_1_l, Hs, Hp, Hb.
  rewrite (size_t_small n) by done. rewrite (size_t_small (_ - _)) by lia.
  assert ((if Z.of_nat (length b) - Z.of_nat i <? n then Z.of_nat (length b) - Z.of_nat i else n) = Z.of_nat k) as ->.
  { unfold k. destruct (Z.ltb_spec (Z.of_nat (length b) - Z.of_nat i) n); lia. }
  assert (k <= length b - i)%nat by (unfold k; lia).
  rewrite (proj2 (Z.ltb_ge _ _)) by lia. rewrite !Nat2Z.id. rewrite size_t_small by lia.
  destruct (Z.eqb_spec (Z.of_nat k) 0) as [E|_].
  - assert (k = 0)%nat as -> by lia. eexists. split; [done|]. split_and!; cbn; try done; lia.
  - eexists. split; [reflexivity|]. split_and!; cbn; try done; lia.
Qed.

Lemma send_spec ns u b i : sent u b i -> Forall (fun n => 0 <= n <= SIZE_MAX) ns ->
  exists pieces u' j, send ns u = inr (pieces, u') /\ sent u' b j /\ (i <= j)%nat /\ mjoin pieces = take (j - i) (drop i b) /\
    Z.of_nat (j - i) = Z.min (Z.of_nat (length b - i)) (foldr Z.add 0 ns).
Proof.
  intros Hu Hns. revert u i Hu. induction Hns as [|n ns Hn Hns IH]; intros u i Hu; cbn [send].
  - exists [], u, i. split_and!; try done; [by rewrite Nat.sub_diag|cbn; lia].
  - destruct (read_body_spec n u b i Hu Hn) as (u1 & -> & Hu1). set (k := Nat.min (length b - i) (Z.to_nat n)) in *.
    destruct (IH u1 (i + k)%nat Hu1) as (pieces & u' & j & -> & Hu' & Hj & Hm & Hlen). exists (take k (drop i b) :: pieces), u', j.
    split_and!; [done|done|lia| |].
    + change (mjoin (take k (drop i b) :: pieces)) with (take k (drop i b) ++ mjoin pieces). rewrite Hm.
      replace (j - i)%nat with (k + (j - (i + k)))%nat by lia. rewrite <- drop_drop. by rewrite <- (take_take_drop (drop i b)).
    + cbn [foldr]. assert (0 <= foldr Z.add 0 ns) by (clear -Hns; induction Hns; cbn; lia). unfold k in *. lia.
Qed.

(** However libcurl sizes its buffers, the body of a request is sent byte by
    byte in order and never read outside its memory: after buffers of [ns]
    bytes the first bytes of the body, as many as fit, have been passed on,
    and a further call returns 0, which ends the transfer, exactly when all of
    them have. *)
Theorem request_body_sent method url b headers forward value ct mr t ss rs ba user pass ns n :
  Z.of_nat (length b) <= SIZE_MAX -> Forall (fun n => 0 <= n <= SIZE_MAX) ns -> 0 < n <= SIZE_MAX ->
  let u := x_upload (new_HTTPRequestContext (HM := gmap bytes bytes) method url (Some b) headers forward value ct mr t ss rs ba user pass) in
  exists pieces u', send ns u = inr (pieces, u') /\
    mjoin pieces = take (Z.to_nat (foldr Z.add 0 ns)) b /\
    exists r piece u'', ReadRequestBody 1 n u' = inr ((r, piece), u'') /\ (r = 0 <-> mjoin pieces = b).
Proof.
  intros Hb Hns Hn u. assert (Hu : sent u b 0) by (split_and!; cbn; lia || done).
  destruct (send_spec ns u b 0 Hu Hns) as (pieces & u' & j & E & Hu' & _ & Hm & Hlen). rewrite drop_0, Nat.sub_0_r in *.
  assert (0 <= foldr Z.add 0 ns) by (clear -Hns; induction Hns; cbn; lia).
  exists pieces, u'. split_and!; [done| |].
  - rewrite Hm. destruct (decide (Z.of_nat (length b) <= foldr Z.add 0 ns)).
    + rewrite !take_ge by lia. done.
    + f_equal. lia.
  - destruct (read_body_spec n u' b j Hu') as (u'' & E' & _); [lia|]. eexists _, _, u''. split; [exact E'|].
    rewrite Hm. destruct Hu' as (_ & _ & _ & Hj & _). split; intros Hr.
    + apply take_ge. lia.
    + apply (f_equal length) in Hr. rewrite length_take in Hr. lia.
Qed.

(* ------------------------------------------------------------------ *)
(** ** Header lines *)

Lemma strncat_src_take n mem : Forall (fun c => c <> 0) (take n mem) -> (n <= length mem)%nat ->
  strncat_src (Z.of_nat n) mem = inr (take n mem).
Proof.
  revert n. induction mem as [|c mem IH]; intros [|n] Hc Hn; try done; [cbn in Hn; lia|].
  cbn [take] in Hc. apply Forall_cons in Hc as [Hc Hcs]. cbn [strncat_src take]. rewrite (proj2 (Z.eqb_neq _ _)) by lia.
  rewrite (proj2 (Z.eqb_neq _ _)) by done. replace (Z.of_nat (S n) - 1) with (Z.of_nat n) by lia.
  rewrite IH by (done || cbn in Hn; lia). done.
Qed.

Lemma split_header_at name value : chr ":" ∉ name -> split_header (name ++ lit ": " ++ value) = Some (name, value).
Proof.
  induction name as [|c name IH]; intros Hn; [done|]. apply not_elem_of_cons in Hn as [Hc Hn]. specialize (IH Hn).
  cbn [app split_header]. destruct (name ++ lit ": " ++ value) as [|d u] eqn:E; [by destruct name|].
  rewrite (proj2 (Z.eqb_neq c _)) by done. cbn [andb]. by rewrite IH.
Qed.

Section headers.
Context {HM : Type} `{HeaderMapLaws HM}.

(** A header line of libcurl, the rest of whose memory is [rest]. *)
Lemma receive_header name value eol rest (p : @HTTPResponse HM) :
  is_cstr name -> is_cstr value -> chr ":" ∉ name -> length eol = 2%nat ->
  let line := name ++ lit ": " ++ value ++ eol in
  Z.of_nat (length line) <= CURL_MAX_HTTP_HEADER ->
  ReceiveResponseHeader (line ++ rest) 1 (Z.of_nat (length line)) p =
    inr (Z.of_nat (length line), with_headers (hm_replace (tolower <$> name) value (p_headers p)) p).
Proof.
  intros Hn Hv Hc He line Hlen. unfold ReceiveResponseHeader, CURL_MAX_HTTP_HEADER in *. rewrite Z.mul_1_l.
  assert (Hline : (length line = length (name ++ lit ": " ++ value) + 2)%nat).
  { unfold line. rewrite !length_app, He. cbn [length lit]. lia. }
  rewrite (size_t_small (Z.of_nat (length line))) by (unfold SIZE_MAX; lia).
  rewrite (size_t_small (Z.of_nat (length line) - 2)) by (unfold SIZE_MAX; lia).
  replace (Z.of_nat (length line) - 2) with (Z.of_nat (length (name ++ lit ": " ++ value))) by lia.
  assert (Htake : take (length (name ++ lit ": " ++ value)) (line ++ rest) = name ++ lit ": " ++ value).
  { replace (line ++ rest) with ((name ++ lit ": " ++ value) ++ eol ++ rest) by (unfold line; by rewrite <- !app_assoc).
    apply take_app_length. }
  unfold strncat_header. rewrite strncat_src_take, Htake.
  - rewrite (proj2 (Z.ltb_lt _ _)) by (unfold CURL_MAX_HTTP_HEADER; lia). by rewrite split_header_at.
  - rewrite Htake. rewrite !Forall_app. split_and!.
    + eapply Forall_impl; [exact Hn|]. cbn. lia.
    + by repeat constructor.
    + eapply Forall_impl; [exact Hv|]. cbn. lia.
  - rewrite (length_app line rest). lia.
Qed.

(** A header line of a response reaches the plugin: after the callback, the
    value is found under the name in any mixture of upper and lower case, a
    later line of the same name replaces an earlier one, other names keep
    their values, and no byte outside the line is read. *)
Theorem response_header_found name value rest (p : @HTTPResponse HM) :
  is_cstr name -> is_cstr value -> chr ":" ∉ name ->
  let line := name ++ lit ": " ++ value ++ [13; 10] in
  Z.of_nat (length line) <= CURL_MAX_HTTP_HEADER ->
  exists p', ReceiveResponseHeader (line ++ rest) 1 (Z.of_nat (length line)) p = inr (Z.of_nat (length line), p') /\
    forall q, hm_find (tolower <$> q) (p_headers p') =
      if decide (tolower <$> q = tolower <$> name) then Some value else hm_find (tolower <$> q) (p_headers p).
Proof using H0.
  intros Hn Hv Hc line Hlen. eexists. split; [by apply receive_header|]. intros q. cbn [p_headers with_headers].
  by rewrite hm_find_replace.
Qed.

(** C35. A header line that ends with a line feed alone, as some servers send
    it, loses the last character of its value. *)
Theorem response_header_bare_lf name value c rest (p : @HTTPResponse HM) :
  is_cstr name -> is_cstr value -> chr ":" ∉ name ->
  let line := name ++ lit ": " ++ value ++ [c; 10] in
  Z.of_nat (length line) <= CURL_MAX_HTTP_HEADER ->
  exists p', ReceiveResponseHeader (line ++ rest) 1 (Z.of_nat (length line)) p = inr (Z.of_nat (length line), p') /\
    hm_find (tolower <$> name) (p_headers p') = Some value.
Proof using H0.
  intros Hn Hv Hc line Hlen. eexists. split; [by apply receive_header|]. cbn [p_headers with_headers].
  rewrite hm_find_replace. by rewrite decide_True.
Qed.
End headers.

Lemma response_header_bare_lf_witness :
  exists p', ReceiveResponseHeader ((lit "X-Id" ++ lit ": " ++ lit "4" ++ [chr "2"; 10]) ++ []) 1 9 (new_HTTPResponse (HM := gmap bytes bytes)) =
    inr (9, p') /\ hm_find (lit "x-id") (p_headers p') = Some (lit "4").
Proof.
  destruct (response_header_bare_lf (HM := gmap bytes bytes) (lit "X-Id") (lit "4") (chr "2") [] new_HTTPResponse) as (p' & E & Hq).
  - vm_compute. repeat (constructor || split || reflexivity).
  - vm_compute. repeat (constructor || split || reflexivity).
  - apply (bool_decide_unpack _). vm_compute. exact I.
  - vm_compute. discriminate.
  - exists p'. split; [exact E|exact Hq].
Defined.

(* ------------------------------------------------------------------ *)
(** ** Header lists *)

Section header_lists.
Context {HM : Type} `{HeaderMapLaws HM}.

Lemma append_headers_spec l ds F pairs st : owns st l ds F -> c_oom st = [] ->
  wp (append_headers l pairs) st (fun l' st' =>
    owns st' l' (ds ++ ((fun p => header_line p.1 p.2) <$> pairs)) F /\ c_oom st' = []).
Proof.
  revert l ds st. induction pairs as [|[n v] pairs IH]; intros l ds st Ho Eo; cbn [append_headers].
  - wp_steps. cbn. by rewrite app_nil_r.
  - rewrite wp_bind. eapply wp_mono; [by apply slist_append_spec|]. intros [q|] st1 [Hoom Hr]; [|by destruct Hr].
    eapply wp_mono; [by apply IH; [|auto]|]. intros l' st' [Ho' Eo']. split; [|done]. by rewrite <- app_assoc in Ho'.
Qed.

(** When memory lasts, the header list of a request has one line for each
    header of the map and no others, a name that was set twice once, each line
    at most 8191 bytes long; freeing the list frees all of it. *)
Theorem build_headers_correct (r : @HTTPRequest HM) st :
  (forall p, is_Some (c_lists st !! p) -> (p < c_fresh st)%positive) -> c_oom st = [] ->
  exists l st' lines, BuildHeaders r st = inr (l, st') /\ owns st' l lines (c_lists st) /\
    (forall line, line ∈ lines <-> exists n v, hm_find n (r_headers r) = Some v /\ line = header_line n v) /\
    length lines = length (hm_iter (r_headers r)) /\ Forall (fun line => Z.of_nat (length line) < HEADER_BUFFER) lines /\
    exists st'', curl_slist_free_all l st' = inr (tt, st'') /\ c_lists st'' = c_lists st.
Proof using H0.
  intros Hfr Eo. destruct (wp_inv _ _ _ (append_headers_spec None [] (c_lists st) (hm_iter (r_headers r)) st (owns_nothing st Hfr) Eo))
    as (l & st' & E & Ho & _). eexists l, st', _. split_and!; [exact E|exact Ho| | | |].
  - intros line. cbn [app]. rewrite list_elem_of_fmap. split.
    + intros ([n v] & -> & Hin). exists n, v. by rewrite hm_find_iter.
    + intros (n & v & Hf & ->). exists (n, v). by rewrite <- hm_find_iter.
  - cbn [app]. by rewrite length_fmap.
  - cbn [app]. apply Forall_fmap, Forall_true. intros [n v]. cbn. unfold header_line, snprintf, HEADER_BUFFER. rewrite length_take. lia.
  - destruct (slist_free_spec _ _ _ _ Ho) as (st'' & E'' & Hl & _). by exists st''.
Qed.
End header_lists.

(** When an append fails, the list built so far is lost: with an allocator
    that fails in the second append, a request with two headers is sent with
    none, and the cell of the first stays allocated for ever. *)
Theorem build_headers_leak :
  exists st' lines, BuildHeaders (new_HTTPRequest (HM := gmap bytes bytes) (lit "http://h/"))
      {| c_oom := [true; true; false]; c_lists := ∅; c_fresh := 1 |} = inr (None, st') /\
    c_lists st' = {[1%positive := {| sl_data := lines; sl_next := None |}]}.
Proof. eexists _, _. split; vm_compute; reflexivity. Qed.
