(* ===== verification/HttpNatives.v ===== *)
(** * The HTTP natives (src/http_natives.cpp) and the life of contexts

    What a plugin can do with HTTP: clients, requests and responses, over the
    classes of Http, the JSON library and the handle system; the completion of
    a request ([OnCompleted]) with the plugin's callback in its middle, and
    the destructors of the contexts.  SourceMod's forwards are addresses that
    are created and released. *)

From Stdlib Require Import SpecFloat.
From S2P Require Import Prelude Strbuffer Value Error Strconv Load Dump Natives Curl Http.

Section http_natives.
Context {HS : Type} `{HandleSystem HS} {HM : Type} `{HeaderMap HM}.

(* ------------------------------------------------------------------ *)
(** ** State *)

Record hstate := {
  h_json : nstate HS;                              (* values, handles, what was told to plugins *)
  h_curl : cstate;                                 (* header lists *)
  h_clients : gmap positive (@HTTPClient HM);
  h_requests : gmap positive (@HTTPRequest HM);
  h_contexts : gmap positive (@IHTTPContext HM);
  h_forwards : gset positive;                      (* forwards that were not released *)
  h_queue : list positive;                         (* [g_RequestQueue] *)
  h_sessions : gset positive;                      (* contexts with a session of libcurl *)
  h_files : gset positive;                         (* file contexts with an open file *)
  h_fresh : positive                               (* an address that was never used *)
}.
Abbreviation HN := (ST hstate).

(** A call of a native: the parameters and strings of the plugin ([env]), the
    result of [curl_easy_init], of [CreateForwardEx] (no forward, or whether
    [AddFunction] succeeded) and of [FormatString] (nothing on an exception). *)
Record henv := {
  he_env : env;
  curl_easy_init : bool;
  CreateForwardEx : option bool;
  FormatString : option bytes
}.

Definition set_h_json (n : nstate HS) (s : hstate) : hstate :=
  {| h_json := n; h_curl := h_curl s; h_clients := h_clients s; h_requests := h_requests s; h_contexts := h_contexts s;
     h_forwards := h_forwards s; h_queue := h_queue s; h_sessions := h_sessions s; h_files := h_files s; h_fresh := h_fresh s |}.
Definition set_h_curl (c : cstate) (s : hstate) : hstate :=
  {| h_json := h_json s; h_curl := c; h_clients := h_clients s; h_requests := h_requests s; h_contexts := h_contexts s;
     h_forwards := h_forwards s; h_queue := h_queue s; h_sessions := h_sessions s; h_files := h_files s; h_fresh := h_fresh s |}.
Definition set_h_clients (m : gmap positive (@HTTPClient HM)) (s : hstate) : hstate :=
  {| h_json := h_json s; h_curl := h_curl s; h_clients := m; h_requests := h_requests s; h_contexts := h_contexts s;
     h_forwards := h_forwards s; h_queue := h_queue s; h_sessions := h_sessions s; h_files := h_files s; h_fresh := h_fresh s |}.
Definition set_h_requests (m : gmap positive (@HTTPRequest HM)) (s : hstate) : hstate :=
  {| h_json := h_json s; h_curl := h_curl s; h_clients := h_clients s; h_requests := m; h_contexts := h_contexts s;
     h_forwards := h_forwards s; h_queue := h_queue s; h_sessions := h_sessions s; h_files := h_files s; h_fresh := h_fresh s |}.
Definition set_h_contexts (m : gmap positive (@IHTTPContext HM)) (s : hstate) : hstate :=
  {| h_json := h_json s; h_curl := h_curl s; h_clients := h_clients s; h_requests := h_requests s; h_contexts := m;
     h_forwards := h_forwards s; h_queue := h_queue s; h_sessions := h_sessions s; h_files := h_files s; h_fresh := h_fresh s |}.
Definition set_h_forwards (f : gset positive) (s : hstate) : hstate :=
  {| h_json := h_json s; h_curl := h_curl s; h_clients := h_clients s; h_requests := h_requests s; h_contexts := h_contexts s;
     h_forwards := f; h_queue := h_queue s; h_sessions := h_sessions s; h_files := h_files s; h_fresh := h_fresh s |}.
Definition set_h_queue (q : list positive) (s : hstate) : hstate :=
  {| h_json := h_json s; h_curl := h_curl s; h_clients := h_clients s; h_requests := h_requests s; h_contexts := h_contexts s;
     h_forwards := h_forwards s; h_queue := q; h_sessions := h_sessions s; h_files := h_files s; h_fresh := h_fresh s |}.
Definition set_h_sessions (f : gset positive) (s : hstate) : hstate :=
  {| h_json := h_json s; h_curl := h_curl s; h_clients := h_clients s; h_requests := h_requests s; h_contexts := h_contexts s;
     h_forwards := h_forwards s; h_queue := h_queue s; h_sessions := f; h_files := h_files s; h_fresh := h_fresh s |}.
Definition set_h_files (f : gset positive) (s : hstate) : hstate :=
  {| h_json := h_json s; h_curl := h_curl s; h_clients := h_clients s; h_requests := h_requests s; h_contexts := h_contexts s;
     h_forwards := h_forwards s; h_queue := h_queue s; h_sessions := h_sessions s; h_files := f; h_fresh := h_fresh s |}.
Definition in_natives {A} (m : ST (nstate HS) A) : HN A := zoom h_json set_h_json m.
Definition in_curl {A} (m : CM A) : HN A := zoom h_curl set_h_curl m.
Definition h_throw (e : native_error) : HN Z := in_natives (throw e).

(** an address for a new object *)
Definition new_address : HN positive :=
  let* a := gets h_fresh in
  modify (fun s => {| h_json := h_json s; h_curl := h_curl s; h_clients := h_clients s; h_requests := h_requests s;
                      h_contexts := h_contexts s; h_forwards := h_forwards s; h_queue := h_queue s; h_sessions := h_sessions s; h_files := h_files s; h_fresh := Pos.succ a |}) ;;;
  ret a.

(** [CreateHandleEx] of an object of the extension, and what follows it *)
Definition create_object (t : HandleType) (a : positive) (undo : HN unit) : HN Z :=
  let* hs := gets (fun s => n_handles (h_json s)) in
  let '((hndl, err), hs') := CreateHandleEx t (POther a) hs in
  in_natives (modify (set_n_handles hs')) ;;;
  if hndl =? BAD_HANDLE then undo ;;; let* _ := h_throw (NoHandle err) in ret BAD_HANDLE
  else ret (int32 hndl).

(** [ReadHandle] of such an object *)
Definition read_object (hndl : Z) (t : HandleType) (k : positive -> HN Z) : HN Z :=
  let* hs := gets (fun s => n_handles (h_json s)) in
  match ReadHandle (uint32 hndl) t hs with
  | inl err => h_throw (InvalidHandle (uint32 hndl) err)
  | inr (POther a) => k a
  | inr _ => fail UndefinedBehaviour
  end.

(** [delete] *)
Definition delete_client (a : positive) : HN unit :=
  let* m := gets h_clients in let* _ := require (m !! a) in modify (set_h_clients (delete a m)).
Definition delete_request (a : positive) : HN unit :=
  let* m := gets h_requests in let* _ := require (m !! a) in modify (set_h_requests (delete a m)).

(** The destructors of src/extension.cpp; a response belongs to its context. *)
Definition h_OnHandleDestroy (t : HandleType) (o : hobject) : HN unit :=
  match t, o with
  | htHTTPClient, POther a => delete_client a
  | htHTTPRequest, POther a => delete_request a
  | htHTTPResponse, _ => ret tt
  | htHTTPClient, _ | htHTTPRequest, _ => fail UndefinedBehaviour
  | _, _ => in_natives (OnHandleDestroy t o)
  end.
(** [handlesys->FreeHandle], by the extension or by a plugin *)
Definition h_FreeHandle (hndl : Z) : HN unit :=
  let* hs := gets (fun s => n_handles (h_json s)) in
  let (o, hs') := FreeHandle (uint32 hndl) hs in
  in_natives (modify (set_n_handles hs')) ;;;
  match o with Some (t, o) => h_OnHandleDestroy t o | None => ret tt end.

(** [forwards->CreateForwardEx] and [AddFunction]: a forward whose function
    could not be added is not released *)
Definition create_forward (e : henv) : HN (option positive) :=
  match CreateForwardEx e with
  | None => ret None
  | Some added =>
      let* f := new_address in
      let* fs := gets h_forwards in
      modify (set_h_forwards ({[f]} ∪ fs)) ;;;
      ret (if added then Some f else None)
  end.

(** [g_RipExt.AddRequestToQueue(new ...Context(...))] *)
Definition add_context (x : IHTTPContext) : HN unit :=
  let* a := new_address in
  let* m := gets h_contexts in
  let* q := gets h_queue in
  modify (fun s => set_h_queue (q ++ [a]) (set_h_contexts (<[a := x]> m) s)).

(** the body of the request: [json_dumps(data, 0)] *)
Definition dump_body (e : env) (data : json_ptr) : HN (option bytes) :=
  match data with
  | None => ret None
  | Some _ => in_natives (in_json (json_dumps (decimal_point e) data 0))
  end.

Section calls.
Variable e : henv.
Abbreviation param i := (params (he_env e) i).
Abbreviation string_param i := (LocalToString (he_env e) (params (he_env e) i)).

(* ------------------------------------------------------------------ *)
(** ** Clients *)

Definition CreateClient : HN Z :=
  let baseURL := string_param 1 in
  match baseURL with
  | [] => let* _ := h_throw EmptyArgument in ret BAD_HANDLE
  | _ =>
      let* a := new_address in
      let* m := gets h_clients in
      modify (set_h_clients (<[a := new_HTTPClient baseURL]> m)) ;;;
      create_object htHTTPClient a (delete_client a)
  end.

(** the client of the handle in the first parameter *)
Definition with_client (k : positive -> @HTTPClient HM -> HN Z) : HN Z :=
  read_object (param 1) htHTTPClient (fun a =>
    let* m := gets h_clients in
    let* c := require (m !! a) in
    k a c).
Definition get_client (f : @HTTPClient HM -> Z) : HN Z := with_client (fun _ c => ret (f c)).
Definition set_client (f : @HTTPClient HM -> @HTTPClient HM) : HN Z :=
  with_client (fun a c =>
    let* m := gets h_clients in
    modify (set_h_clients (<[a := f c]> m)) ;;;
    ret 1).

(** [HTTPClient::Request], [DownloadFile], [UploadFile] *)
Definition client_Request (method endpoint : bytes) (data : json_ptr) (value : Z) (c : @HTTPClient HM) : HN unit :=
  let* forward := create_forward e in
  match forward with
  | None => in_natives (tell (LogError NoForward))
  | Some f =>
      let* headers := in_curl (client_BuildHeaders (lit "application/json") (lit "application/json") c) in
      let* body := dump_body (he_env e) data in
      add_context (RequestContext (new_HTTPRequestContext method (client_BuildURL endpoint c) body headers f value (c_connectTimeout c)
        (if c_followLocation c then 5 else 0) (c_timeout c) (c_maxSendSpeed c) (c_maxRecvSpeed c) false [] []))
  end.
Definition client_File (isUpload : bool) (endpoint path : bytes) (value : Z) (c : @HTTPClient HM) : HN unit :=
  let* forward := create_forward e in
  match forward with
  | None => in_natives (tell (LogError NoForward))
  | Some f =>
      let* headers := in_curl (client_BuildHeaders (lit "*/*") (lit "application/octet-stream") c) in
      add_context (FileContext (new_HTTPFileContext isUpload (client_BuildURL endpoint c) path headers f value (c_connectTimeout c)
        (if c_followLocation c then 5 else 0) (c_timeout c) (c_maxSendSpeed c) (c_maxRecvSpeed c) false [] []))
  end.

(** [GetRequest] and [DeleteRequest] *)
Definition client_plain (method : bytes) : HN Z :=
  with_client (fun _ c => client_Request method (string_param 2) None (param 4) c ;;; ret 1).
(** [PostRequest], [PutRequest] and [PatchRequest] *)
Definition client_data (method : bytes) : HN Z :=
  with_client (fun _ c =>
    let* hs := gets (fun s => n_handles (h_json s)) in
    match ReadHandle (uint32 (param 3)) htJSON hs with
    | inl err => h_throw (InvalidHandle (uint32 (param 3)) err)
    | inr (PJSON data) => client_Request method (string_param 2) data (param 5) c ;;; ret 1
    | inr _ => fail UndefinedBehaviour
    end).

Definition SetClientHeader : HN Z := set_client (client_SetHeader (string_param 2) (string_param 3)).
Definition GetRequest : HN Z := client_plain (lit "GET").
Definition PostRequest : HN Z := client_data (lit "POST").
Definition PutRequest : HN Z := client_data (lit "PUT").
Definition PatchRequest : HN Z := client_data (lit "PATCH").
Definition DeleteRequest : HN Z := client_plain (lit "DELETE").
Definition DownloadFile : HN Z :=
  with_client (fun _ c => client_File false (string_param 2) (string_param 3) (param 5) c ;;; ret 1).
Definition UploadFile : HN Z :=
  with_client (fun _ c => client_File true (string_param 2) (string_param 3) (param 5) c ;;; ret 1).
Definition GetClientConnectTimeout : HN Z := get_client c_connectTimeout.
Definition SetClientConnectTimeout : HN Z := set_client (client_SetConnectTimeout (param 2)).
Definition GetClientFollowLocation : HN Z := get_client (fun c => bool_cell (c_followLocation c)).
Definition SetClientFollowLocation : HN Z := set_client (client_SetFollowLocation (param 2 =? 1)).
Definition GetClientTimeout : HN Z := get_client c_timeout.
Definition SetClientTimeout : HN Z := set_client (client_SetTimeout (param 2)).
Definition GetClientMaxSendSpeed : HN Z := get_client c_maxSendSpeed.
Definition SetClientMaxSendSpeed : HN Z := set_client (client_SetMaxSendSpeed (param 2)).
Definition GetClientMaxRecvSpeed : HN Z := get_client c_maxRecvSpeed.
Definition SetClientMaxRecvSpeed : HN Z := set_client (client_SetMaxRecvSpeed (param 2)).

(* ------------------------------------------------------------------ *)
(** ** Requests *)

Definition CreateRequest : HN Z :=
  let url := string_param 1 in
  match url with
  | [] => let* _ := h_throw EmptyArgument in ret BAD_HANDLE
  | _ =>
      let* a := new_address in
      let* m := gets h_requests in
      modify (set_h_requests (<[a := new_HTTPRequest url]> m)) ;;;
      create_object htHTTPRequest a (delete_request a)
  end.

(** [GetRequestFromHandle(pContext, params[1])] *)
Definition with_request (k : positive -> @HTTPRequest HM -> HN Z) : HN Z :=
  read_object (param 1) htHTTPRequest (fun a =>
    let* m := gets h_requests in
    let* r := require (m !! a) in
    k a r).
Definition get_request (f : @HTTPRequest HM -> Z) : HN Z := with_request (fun _ r => ret (f r)).
Definition put_request (a : positive) (r : @HTTPRequest HM) : HN unit :=
  let* m := gets h_requests in modify (set_h_requests (<[a := r]> m)).
Definition set_request (f : @HTTPRequest HM -> @HTTPRequest HM) : HN Z :=
  with_request (fun a r => put_request a (f r) ;;; ret 1).

Definition VALUE_BUFFER : Z := 8192.
(** a name that is not empty, and the formatted value *)
Definition named_value (k : bytes -> bytes -> HN Z) : HN Z :=
  match string_param 2 with
  | [] => h_throw EmptyArgument
  | name =>
      match FormatString e with
      | None => ret 0
      | Some text => k name (snprintf VALUE_BUFFER text)
      end
  end.

Definition AppendRequestFormParam : HN Z :=
  with_request (fun a r => named_value (fun name value =>
    let* r := in_curl (AppendFormParam (curl_easy_init e) name value r) in put_request a r ;;; ret 1)).
Definition AppendRequestQueryParam : HN Z :=
  with_request (fun a r => named_value (fun name value =>
    let* r := in_curl (AppendQueryParam (curl_easy_init e) name value r) in put_request a r ;;; ret 1)).
Definition SetRequestBasicAuth : HN Z := set_request (SetBasicAuth (string_param 2) (string_param 3)).
Definition SetRequestHeader : HN Z :=
  with_request (fun a r => named_value (fun name value => put_request a (SetHeader name value r) ;;; ret 1)).

(** the forward, then [perform] with it, then [FreeHandle(params[1])] *)
Definition performing (perform : positive -> HN unit) : HN Z :=
  let* forward := create_forward e in
  match forward with
  | None => h_throw NoForward
  | Some f => perform f ;;; h_FreeHandle (param 1) ;;; ret 1
  end.

(** [HTTPRequest::Perform] *)
Definition Perform (method : bytes) (data : json_ptr) (r : @HTTPRequest HM) (f : positive) (value : Z) : HN unit :=
  let* headers := in_curl (BuildHeaders r) in
  let* body := dump_body (he_env e) data in
  add_context (RequestContext (new_HTTPRequestContext method (BuildURL r) body headers f value
    (connectTimeout (r_settings r)) (maxRedirects (r_settings r)) (timeout (r_settings r)) (maxSendSpeed (r_settings r)) (maxRecvSpeed (r_settings r))
    (useBasicAuth (r_settings r)) (username (r_settings r)) (password (r_settings r)))).
(** [HTTPRequest::DownloadFile] and [UploadFile] *)
Definition perform_file (isUpload : bool) (path : bytes) (a : positive) (r : @HTTPRequest HM) (f : positive) (value : Z) : HN unit :=
  let r := SetHeader (lit "Content-Type") (lit "application/octet-stream") (SetHeader (lit "Accept") (lit "*/*") r) in
  put_request a r ;;;
  let* headers := in_curl (BuildHeaders r) in
  add_context (FileContext (new_HTTPFileContext isUpload (BuildURL r) path headers f value
    (connectTimeout (r_settings r)) (maxRedirects (r_settings r)) (timeout (r_settings r)) (maxSendSpeed (r_settings r)) (maxRecvSpeed (r_settings r))
    (useBasicAuth (r_settings r)) (username (r_settings r)) (password (r_settings r)))).
(** [HTTPRequest::PostForm] *)
Definition PostForm (a : positive) (r : @HTTPRequest HM) (f : positive) (value : Z) : HN unit :=
  let r := SetHeader (lit "Content-Type") (lit "application/x-www-form-urlencoded")
             (SetHeader (lit "Accept") (lit "application/json") r) in
  put_request a r ;;;
  let* headers := in_curl (BuildHeaders r) in
  add_context (FormContext (new_HTTPFormContext (BuildURL r) (r_formData r) headers f value
    (connectTimeout (r_settings r)) (maxRedirects (r_settings r)) (timeout (r_settings r)) (maxSendSpeed (r_settings r)) (maxRecvSpeed (r_settings r))
    (useBasicAuth (r_settings r)) (username (r_settings r)) (password (r_settings r)))).

(** [PerformGetRequest] and [PerformDeleteRequest] *)
Definition perform_plain (method : bytes) : HN Z :=
  with_request (fun _ r => performing (fun f => Perform method None r f (param 3))).
(** [PerformPostRequest], [PerformPutRequest] and [PerformPatchRequest] *)
Definition perform_data (method : bytes) : HN Z :=
  with_request (fun _ r =>
    let* data := in_natives (GetJSONFromHandle (param 2)) in
    match data with
    | None => ret 0
    | Some _ => performing (fun f => Perform method data r f (param 4))
    end).

Definition PerformGetRequest : HN Z := perform_plain (lit "GET").
Definition PerformPostRequest : HN Z := perform_data (lit "POST").
Definition PerformPutRequest : HN Z := perform_data (lit "PUT").
Definition PerformPatchRequest : HN Z := perform_data (lit "PATCH").
Definition PerformDeleteRequest : HN Z := perform_plain (lit "DELETE").
Definition PerformDownloadFile : HN Z :=
  with_request (fun a r => performing (fun f => perform_file false (string_param 2) a r f (param 4))).
Definition PerformUploadFile : HN Z :=
  with_request (fun a r => performing (fun f => perform_file true (string_param 2) a r f (param 4))).
Definition PerformPostForm : HN Z := with_request (fun a r => performing (fun f => PostForm a r f (param 3))).

Definition GetRequestConnectTimeout : HN Z := get_request (fun r => connectTimeout (r_settings r)).
Definition SetRequestConnectTimeout : HN Z := set_request (SetConnectTimeout (param 2)).
Definition GetRequestMaxRedirects : HN Z := get_request (fun r => maxRedirects (r_settings r)).
Definition SetRequestMaxRedirects : HN Z := set_request (SetMaxRedirects (param 2)).
Definition GetRequestMaxRecvSpeed : HN Z := get_request (fun r => maxRecvSpeed (r_settings r)).
Definition SetRequestMaxRecvSpeed : HN Z := set_request (SetMaxRecvSpeed (param 2)).
Definition GetRequestMaxSendSpeed : HN Z := get_request (fun r => maxSendSpeed (r_settings r)).
Definition SetRequestMaxSendSpeed : HN Z := set_request (SetMaxSendSpeed (param 2)).
Definition GetRequestTimeout : HN Z := get_request (fun r => timeout (r_settings r)).
Definition SetRequestTimeout : HN Z := set_request (SetTimeout (param 2)).

(* ------------------------------------------------------------------ *)
(** ** Responses *)

(** The response of a context; file transfers have none. *)
Definition response_of (x : @IHTTPContext HM) : option (@HTTPResponse HM) :=
  match x with RequestContext x => Some (x_response x) | FormContext m => Some (m_response m) | FileContext _ => None end.
Definition set_response (p : @HTTPResponse HM) (x : @IHTTPContext HM) : @IHTTPContext HM :=
  match x with
  | RequestContext x =>
      RequestContext {| x_method := x_method x; x_url := x_url x; x_upload := x_upload x; x_headers := x_headers x;
                        x_forward := x_forward x; x_value := x_value x; x_settings := x_settings x; x_response := p |}
  | FormContext m =>
      FormContext {| m_url := m_url m; m_formData := m_formData m; m_headers := m_headers m; m_forward := m_forward m;
                     m_value := m_value m; m_settings := m_settings m; m_response := p |}
  | FileContext f => FileContext f
  end.
Definition with_upload (u : upload) (x : @HTTPRequestContext HM) : @HTTPRequestContext HM :=
  {| x_method := x_method x; x_url := x_url x; x_upload := u; x_headers := x_headers x; x_forward := x_forward x;
     x_value := x_value x; x_settings := x_settings x; x_response := x_response x |}.
Definition get_response (a : positive) : HN (@HTTPResponse HM) :=
  let* m := gets h_contexts in
  let* x := require (m !! a) in
  require (response_of x).
Definition put_response (a : positive) (p : @HTTPResponse HM) : HN unit :=
  let* m := gets h_contexts in
  let* x := require (m !! a) in
  modify (set_h_contexts (<[a := set_response p x]> m)).
Definition with_response (k : positive -> @HTTPResponse HM -> HN Z) : HN Z :=
  read_object (param 1) htHTTPResponse (fun a => let* p := get_response a in k a p).

Definition with_data (d : json_ptr) (h : Z) (p : @HTTPResponse HM) : @HTTPResponse HM :=
  {| status := status p; data := d; hndlData := h; p_headers := p_headers p; p_body := p_body p; p_size := p_size p |}.
Definition with_status (z : Z) (p : @HTTPResponse HM) : @HTTPResponse HM :=
  {| status := z; data := data p; hndlData := hndlData p; p_headers := p_headers p; p_body := p_body p; p_size := p_size p |}.

(** the C string at [response->body] *)
Definition body_text (p : @HTTPResponse HM) : res (option bytes) :=
  match p_body p with
  | None => inr None
  | Some blk => match read_cstr blk with inr s => inr (Some s) | inl e => inl e end
  end.

(** the JSON of the body, and a handle for it *)
Definition decode_body (a : positive) (p : @HTTPResponse HM) : HN Z :=
  let* text := lift_res (body_text p) in
  let* (d, error) := in_natives (in_json (json_loads (decimal_point (he_env e)) text 0 (Some (error_block (he_env e))))) in
  put_response a (with_data d (hndlData p) p) ;;;
  match d with
  | None =>
      let err := default (error_block (he_env e)) error in
      let* _ := h_throw (InvalidJSON (e_line err) (e_column err) (e_text err)) in ret BAD_HANDLE
  | Some _ =>
      let* hs := gets (fun s => n_handles (h_json s)) in
      let '((hndl, err), hs') := CreateHandleEx htJSON (PJSON d) hs in
      in_natives (modify (set_n_handles hs')) ;;;
      put_response a (with_data d hndl p) ;;;
      if hndl =? BAD_HANDLE then
        in_natives (in_json (json_decref d)) ;;;
        let* _ := h_throw (NoHandle err) in ret BAD_HANDLE
      else ret (int32 hndl)
  end.
Definition GetResponseData : HN Z :=
  with_response (fun a p => if hndlData p =? BAD_HANDLE then decode_body a p else ret (int32 (hndlData p))).

Definition GetResponseStatus : HN Z := with_response (fun _ p => ret (int32 (status p))).
Definition GetResponseHeader : HN Z :=
  with_response (fun _ p =>
    match hm_find (tolower <$> string_param 2) (p_headers p) with
    | None => ret 0
    | Some value => in_natives (tell (StringToLocalUTF8 (param 3) (param 4) (until_nul value))) ;;; ret 1
    end).
End calls.

(** *** The table of natives *)

Definition http_natives : list (string * (henv -> HN Z)) := [
  ("HTTPClient.HTTPClient", CreateClient);
  ("HTTPClient.SetHeader", SetClientHeader);
  ("HTTPClient.Get", GetRequest);
  ("HTTPClient.Post", PostRequest);
  ("HTTPClient.Put", PutRequest);
  ("HTTPClient.Patch", PatchRequest);
  ("HTTPClient.Delete", DeleteRequest);
  ("HTTPClient.DownloadFile", DownloadFile);
  ("HTTPClient.UploadFile", UploadFile);
  ("HTTPClient.ConnectTimeout.get", GetClientConnectTimeout);
  ("HTTPClient.ConnectTimeout.set", SetClientConnectTimeout);
  ("HTTPClient.FollowLocation.get", GetClientFollowLocation);
  ("HTTPClient.FollowLocation.set", SetClientFollowLocation);
  ("HTTPClient.Timeout.get", GetClientTimeout);
  ("HTTPClient.Timeout.set", SetClientTimeout);
  ("HTTPClient.MaxSendSpeed.get", GetClientMaxSendSpeed);
  ("HTTPClient.MaxSendSpeed.set", SetClientMaxSendSpeed);
  ("HTTPClient.MaxRecvSpeed.get", GetClientMaxRecvSpeed);
  ("HTTPClient.MaxRecvSpeed.set", SetClientMaxRecvSpeed);
  ("HTTPRequest.HTTPRequest", CreateRequest);
  ("HTTPRequest.AppendFormParam", AppendRequestFormParam);
  ("HTTPRequest.AppendQueryParam", AppendRequestQueryParam);
  ("HTTPRequest.SetBasicAuth", SetRequestBasicAuth);
  ("HTTPRequest.SetHeader", SetRequestHeader);
  ("HTTPRequest.Get", PerformGetRequest);
  ("HTTPRequest.Post", PerformPostRequest);
  ("HTTPRequest.Put", PerformPutRequest);
  ("HTTPRequest.Patch", PerformPatchRequest);
  ("HTTPRequest.Delete", PerformDeleteRequest);
  ("HTTPRequest.DownloadFile", PerformDownloadFile);
  ("HTTPRequest.UploadFile", PerformUploadFile);
  ("HTTPRequest.PostForm", PerformPostForm);
  ("HTTPRequest.ConnectTimeout.get", GetRequestConnectTimeout);
  ("HTTPRequest.ConnectTimeout.set", SetRequestConnectTimeout);
  ("HTTPRequest.MaxRedirects.get", GetRequestMaxRedirects);
  ("HTTPRequest.MaxRedirects.set", SetRequestMaxRedirects);
  ("HTTPRequest.MaxRecvSpeed.get", GetRequestMaxRecvSpeed);
  ("HTTPRequest.MaxRecvSpeed.set", SetRequestMaxRecvSpeed);
  ("HTTPRequest.MaxSendSpeed.get", GetRequestMaxSendSpeed);
  ("HTTPRequest.MaxSendSpeed.set", SetRequestMaxSendSpeed);
  ("HTTPRequest.Timeout.get", GetRequestTimeout);
  ("HTTPRequest.Timeout.set", SetRequestTimeout);
  ("HTTPResponse.Data.get", GetResponseData);
  ("HTTPResponse.Status.get", GetResponseStatus);
  ("HTTPResponse.GetHeader", GetResponseHeader)
]%string.

(* ------------------------------------------------------------------ *)
(** ** The end of a request *)

Definition context_headers (x : @IHTTPContext HM) : option positive :=
  match x with RequestContext x => x_headers x | FileContext f => f_headers f | FormContext m => m_headers m end.
Definition context_forward (x : @IHTTPContext HM) : positive :=
  match x with RequestContext x => x_forward x | FileContext f => f_forward f | FormContext m => m_forward m end.

(** [curl_easy_init] in [InitCurl], and the error when it fails *)
Definition easy_init (a : positive) (session : bool) : HN bool :=
  if session then let* f := gets h_sessions in modify (set_h_sessions ({[a]} ∪ f)) ;;; ret true
  else in_natives (tell (LogError NoSession)) ;;; ret false.

(** [InitCurl] of the three contexts: [session] is the result of
    [curl_easy_init], [file] the size of the file, if it can be opened.  The
    options are the result, nothing when [InitCurl] returns false. *)
Definition InitCurl (caBundlePath user_agent : bytes) (a : positive) (session : bool) (file : option Z) : HN (option options) :=
  let* m := gets h_contexts in
  let* x := require (m !! a) in
  let* ok := easy_init a session in
  if ok then
    match x with
    | RequestContext x => ret (Some (request_InitCurl caBundlePath user_agent x))
    | FormContext m => ret (Some (form_InitCurl caBundlePath user_agent m))
    | FileContext f =>
        match file with
        | None => in_natives (tell (LogError (NoFile (f_path f)))) ;;; ret None
        | Some _ =>
            let* fs := gets h_files in
            modify (set_h_files ({[a]} ∪ fs)) ;;;
            ret (file_InitCurl caBundlePath user_agent file f)
        end
    end
  else ret None.

(** [fclose(file)], of a file that is open *)
Definition close_file (a : positive) : HN unit :=
  let* fs := gets h_files in
  if bool_decide (a ∈ fs) then modify (set_h_files (fs ∖ {[a]})) else fail UndefinedBehaviour.

(** [delete context]: the destructors of the three contexts; cleaning up a
    session that was not created does nothing *)
Definition delete_context (a : positive) : HN unit :=
  let* m := gets h_contexts in
  let* x := require (m !! a) in
  let* fs := gets h_forwards in
  (if bool_decide (context_forward x ∈ fs) then modify (set_h_forwards (fs ∖ {[context_forward x]})) else fail UndefinedBehaviour) ;;;
  modify (fun s => set_h_sessions (h_sessions s ∖ {[a]}) s) ;;;
  in_curl (curl_slist_free_all (context_headers x)) ;;;
  modify (set_h_contexts (delete a m)).

(** One round of the loop of [AsyncPerformRequests]: the first request of the
    queue is set up, or deleted.  The result says whether it was handed to
    libcurl. *)
Definition start_request (caBundlePath user_agent : bytes) (session : bool) (file : option Z) : HN (option positive) :=
  let* q := gets h_queue in
  match q with
  | [] => fail UndefinedBehaviour
  | a :: q =>
      modify (set_h_queue q) ;;;
      let* opts := InitCurl caBundlePath user_agent a session file in
      match opts with
      | None => delete_context a ;;; ret None
      | Some _ => ret (Some a)
      end
  end.

(** libcurl calls back with a chunk of the response's body, a header line and
    a buffer for the request's body *)
Definition on_body (a : positive) (chunk : bytes) : HN Z :=
  let* p := get_response a in
  let* (r, p) := in_curl (WriteResponseBody chunk 1 (Z.of_nat (length chunk)) p) in
  put_response a p ;;;
  ret r.
Definition on_header (a : positive) (buffer : bytes) (n : Z) : HN Z :=
  let* p := get_response a in
  let* (r, p) := lift_res (ReceiveResponseHeader buffer 1 n p) in
  put_response a p ;;;
  ret r.
Definition on_read (a : positive) (n : Z) : HN bytes :=
  let* m := gets h_contexts in
  let* x := require (m !! a) in
  match x with
  | RequestContext x =>
      let* (sent, u) := lift_res (ReadRequestBody 1 n (x_upload x)) in
      modify (set_h_contexts (<[a := RequestContext (with_upload u x)]> m)) ;;;
      ret sent.2
  | _ => fail UndefinedBehaviour
  end.

(** [OnCompleted] up to the callback of the plugin, which gets the handle of the
    response (a file transfer has none and calls back with its status);
    [functions] is [GetFunctionCount], [code] the status of the transfer.  The
    result says whether the callback is executed, and with which handle. *)
Definition OnCompleted_begin (a : positive) (functions code : Z) : HN (option (option Z)) :=
  let* m := gets h_contexts in
  let* x := require (m !! a) in
  match x with FileContext _ => close_file a | _ => ret tt end ;;;
  if functions =? 0 then ret None
  else
    match response_of x with
    | None => ret (Some None)
    | Some p =>
        put_response a (with_status code p) ;;;
        let* hs := gets (fun s => n_handles (h_json s)) in
        let '((hndl, err), hs') := CreateHandleEx htHTTPResponse (POther a) hs in
        in_natives (modify (set_n_handles hs')) ;;;
        if hndl =? BAD_HANDLE then in_natives (tell (LogError (NoHandle err))) ;;; ret None
        else ret (Some (Some hndl))
    end.

(** [OnCompleted] behind the callback *)
Definition OnCompleted_end (a : positive) (called : option (option Z)) : HN unit :=
  match called with
  | Some (Some hndlResponse) =>
      h_FreeHandle hndlResponse ;;;
      let* p := get_response a in
      h_FreeHandle (hndlData p)
  | _ => ret tt
  end.
End http_natives.
