(* ===== verification/HttpSafe.v ===== *)
(** * Plugins are safe with HTTP

    Sessions of a plugin that uses the JSON and the HTTP natives while requests
    complete: clients and requests live exactly as long as their handles, a
    response is reachable only during its callback, header lists, forwards and
    bodies are released once, and no freed memory is touched. *)

From stdpp Require Import gmultiset.
From Stdlib Require Import SpecFloat.
From S2P Require Import Prelude Strbuffer Value Refcount ValueSpec Client Error Strconv Load Dump Print Views Dumps Decode.
From S2P Require Import Natives Plugin Curl Http HttpFacts HttpNatives.

(* ------------------------------------------------------------------ *)
(** ** The handle system as a table *)

(** Handles that plugins do not clone: each stands for one object. *)
Class HandleTable (HS : Type) `{HandleSystem HS} : Type := {
  handles : HS -> gmap Z (HandleType * hobject);
  create_table t o hs h err hs' :
    CreateHandleEx t o hs = ((h, err), hs') ->
    if h =? BAD_HANDLE then handles hs' = handles hs
    else handles hs !! h = None /\ handles hs' = <[h := (t, o)]> (handles hs) /\ 0 < h < 2 ^ 32;
  read_table h t hs o : ReadHandle h t hs = inr o <-> handles hs !! h = Some (t, o);
  free_table h hs o hs' : FreeHandle h hs = (o, hs') -> o = handles hs !! h /\ handles hs' = delete h (handles hs);
  owned_table hs : owned hs = (map_to_list (handles hs)).*2
}.

#[export] Instance table_laws {HS} `{HandleTable HS} : HandleLaws HS.
Proof.
  split.
  - intros t o hs h err hs' E. apply create_table in E. rewrite !owned_table. destruct (h =? BAD_HANDLE); [by rewrite E|].
    destruct E as (Hh & -> & _). apply (fmap_Permutation snd _ ((h, (t, o)) :: map_to_list (handles hs))). by apply map_to_list_insert.
  - intros h t hs o E. apply read_table in E. rewrite owned_table. apply list_elem_of_fmap. exists (h, (t, o)).
    split; [done|]. by apply elem_of_map_to_list.
  - intros h hs o hs' E. apply free_table in E as [-> E]. rewrite !owned_table, E. destruct (handles hs !! h) as [x|] eqn:Eh.
    + symmetry. by apply (fmap_Permutation snd ((h, x) :: map_to_list (delete h (handles hs)))), map_to_list_delete.
    + by rewrite delete_id.
Qed.

Definition is_http (t : HandleType) : bool := match t with htJSON | htJSONObjectKeys => false | _ => true end.

Section http_part.
Context {HS : Type} `{HandleTable HS}.
Abbreviation N := (ST (nstate HS)).
Implicit Types s : nstate HS.

(** The handles of clients, requests and responses. *)
Definition http_part (s : nstate HS) : gmap Z (HandleType * hobject) :=
  filter (fun x => is_http x.2.1 = true) (handles (n_handles s)).

(** Computations that do not touch them. *)
Definition keeps {A} (m : N A) : Prop := forall s a s', m s = inr (a, s') -> http_part s' = http_part s.

Lemma keeps_ret {A} (a : A) : keeps (ret a).
Proof. by intros s b s' [= _ <-]. Qed.
Lemma keeps_fail {A} e : keeps (fail (A := A) e).
Proof. by intros s b s'. Qed.
Lemma keeps_bind {A B} (m : N A) (k : A -> N B) : keeps m -> (forall a, keeps (k a)) -> keeps (bind m k).
Proof.
  intros Hm Hk s b s' E. unfold bind in E. destruct (m s) as [|[a s1]] eqn:E1; [done|].
  rewrite (Hk _ _ _ _ E). by eapply Hm.
Qed.
Lemma keeps_gets {A} (f : nstate HS -> A) : keeps (gets f).
Proof. by intros s a s' [= _ <-]. Qed.
Lemma keeps_require {A} (o : option A) : keeps (require o).
Proof. intros s a s'. destruct o; [by intros [= _ <-]|done]. Qed.
Lemma keeps_in_json {A} (m : W A) : keeps (in_json m).
Proof. intros s a s'. unfold in_json, zoom. destruct (m (n_world s)) as [|[b w]]; [done|]. by intros [= _ <-]. Qed.
Lemma keeps_modify f : (forall s, n_handles (f s) = n_handles s) -> keeps (modify f).
Proof. intros Hf s a s' [= _ <-]. unfold http_part. by rewrite Hf. Qed.
Lemma keeps_tell ev : keeps (tell ev).
Proof. by apply keeps_modify. Qed.
Lemma keeps_throw e : keeps (throw e).
Proof. apply keeps_bind; [apply keeps_tell|intros; apply keeps_ret]. Qed.
Lemma keeps_create t o (undo finish : N unit) : is_http t = false -> keeps undo -> keeps finish -> keeps (create_handle t o undo finish).
Proof.
  intros Ht Hu Hf s a s' E. unfold create_handle, bind at 1, gets in E.
  destruct (CreateHandleEx t o (n_handles s)) as [[h err] hs] eqn:Ec. apply create_table in Ec.
  assert (Hs : http_part (set_n_handles hs s) = http_part s).
  { unfold http_part. cbn [n_handles set_n_handles]. destruct (h =? BAD_HANDLE); [by rewrite Ec|]. destruct Ec as (Hn & -> & _).
    apply map_filter_insert_not'; [cbn; by rewrite Ht|]. by rewrite Hn. }
  rewrite <- Hs. unfold bind at 1, modify in E. cbn [n_handles] in E. revert E. generalize (set_n_handles hs s). intros s1 E.
  enough (Hk : keeps (if h =? BAD_HANDLE then undo ;;; let* _ := throw (NoHandle err) in ret BAD_HANDLE else finish ;;; ret (int32 h)))
    by (by eapply Hk).
  destruct (h =? BAD_HANDLE); apply keeps_bind; [done| |done|intros; apply keeps_ret].
  intros _. apply keeps_bind; [apply keeps_throw|intros; apply keeps_ret].
Qed.
End http_part.

(** Goes through the code of a native. *)
Ltac keep :=
  intros;
  match goal with
  | |- keeps (let '(_, _) := ?x in _) => destruct x; keep
  | |- keeps (match ?x with _ => _ end) => destruct x; keep
  | |- keeps (bind _ _) => apply keeps_bind; keep
  | |- keeps (create_handle _ _ _ _) => apply keeps_create; [reflexivity|keep|keep]
  | |- keeps (modify _) => apply keeps_modify; reflexivity
  | |- keeps _ =>
      first [apply keeps_ret | apply keeps_fail | apply keeps_gets | apply keeps_require | apply keeps_in_json | apply keeps_tell
            | apply keeps_throw]
  end.

Section keep_natives.
Context {HS : Type} `{HandleTable HS}.
Abbreviation N := (ST (nstate HS)).

Lemma get_json_keeps h : keeps (GetJSONFromHandle h).
Proof. unfold GetJSONFromHandle. keep. Qed.
Lemma with_json_keeps h (k : json_ptr -> N Z) : (forall j, keeps (k j)) -> keeps (with_json h k).
Proof. intros Hk. unfold with_json. apply keeps_bind; [apply get_json_keeps|]. intros [l|]; [apply Hk|apply keeps_ret]. Qed.

Lemma json_native_keeps name f e : (name, f) ∈ json_natives -> keeps (f e).
Proof.
  intros Hin. unfold json_natives in Hin. repeat (apply elem_of_cons in Hin as [[= -> ->]|Hin]); [..|by apply elem_of_nil in Hin].
  all: unfold GetObjectSize, GetObjectValue, GetObjectBoolValue, GetObjectFloatValue, GetObjectIntValue, GetObjectInt64Value,
    GetObjectStringValue, IsObjectNullValue, IsObjectKeyValid, SetObjectValue, SetObjectBoolValue, SetObjectFloatValue,
    SetObjectIntValue, SetObjectInt64Value, SetObjectNullValue, SetObjectStringValue, RemoveFromObject, ClearObject,
    CreateObjectKeys, GetArraySize, GetArrayValue, GetArrayBoolValue, GetArrayFloatValue, GetArrayIntValue, GetArrayInt64Value,
    GetArrayStringValue, IsArrayNullValue, SetArrayValue, SetArrayBoolValue, SetArrayFloatValue, SetArrayIntValue,
    SetArrayInt64Value, SetArrayNullValue, SetArrayStringValue, PushArrayValue, PushArrayBoolValue, PushArrayFloatValue,
    PushArrayIntValue, PushArrayInt64Value, PushArrayNullValue, PushArrayStringValue, RemoveFromArray, ClearArray, ToString, ToFile,
    object_member, array_element, set_object, set_array, push_array.
  all: repeat (apply with_json_keeps; intros).
  all: unfold CreateObject, CreateArray, FromString, FromFile, ReadObjectKey, handle_of_text, value_handle, succeeded, bool_value,
    float_value, int_value, null_value, write_int64, write_string, new_keys, delete_keys, GetKey, Next.
  all: keep.
Qed.
End keep_natives.

(* ------------------------------------------------------------------ *)
(** ** Header lists of contexts *)

(** The list [l] is in the cells [ps]. *)
Definition list_at (m : gmap positive curl_slist) (l : option positive) (ps : list positive) : Prop :=
  NoDup ps /\ l = head ps /\ forall i p, ps !! i = Some p -> exists d, m !! p = Some {| sl_data := d; sl_next := ps !! S i |}.

Lemma owns_list_at s l ds F : owns s l ds F -> exists ps, list_at (c_lists s) l ps /\ forall p, p ∈ ps -> F !! p = None.
Proof.
  intros [ps Ho]. exists ps. pose proof Ho as (Hnd & _ & Hh & _ & HF & _). split; [|done]. split_and!; [done..|].
  intros i p Hi. destruct (owns_lookup _ _ _ _ _ _ _ Ho Hi) as (d & _ & E). by exists d.
Qed.

Lemma list_at_mono m m' l ps : list_at m l ps -> (forall p, p ∈ ps -> m' !! p = m !! p) -> list_at m' l ps.
Proof.
  intros (H1 & H2 & H3) Hm. split_and!; [done..|]. intros i p Hi. rewrite Hm by (by eapply list_elem_of_lookup_2). by apply H3.
Qed.

(** Cells outside the list are its frame. *)
Lemma list_at_owns s l ps :
  list_at (c_lists s) l ps -> (forall p, is_Some (c_lists s !! p) -> (p < c_fresh s)%positive) ->
  exists ds, owns s l ds (filter (fun x => x.1 ∉ ps) (c_lists s)).
Proof.
  intros (Hnd & Hh & Hc) Hfr. exists ((fun p => default [] (sl_data <$> c_lists s !! p)) <$> ps), ps.
  assert (Hlen : length ps = length ((fun p => default [] (sl_data <$> c_lists s !! p)) <$> ps)) by (by rewrite length_fmap).
  split_and!; try done.
  - apply map_eq. intros p. destruct (decide (p ∈ ps)) as [Hp|Hp].
    + apply list_elem_of_lookup in Hp as [i Hi]. destruct (Hc i p Hi) as [d Hd].
      destruct (cells_lookup ps _ i p Hnd Hlen Hi) as (d' & Hd' & E).
      rewrite (lookup_union_Some_l _ _ _ _ E), Hd. rewrite list_lookup_fmap, Hi in Hd'. cbn in Hd'. rewrite Hd in Hd'. cbn in Hd'.
      by injection Hd' as <-.
    + rewrite lookup_union_r by (by apply cells_none). symmetry. destruct (c_lists s !! p) as [c|] eqn:E.
      * by apply map_lookup_filter_Some.
      * apply map_lookup_filter_None. by left.
  - intros p Hp. apply map_lookup_filter_None. right. intros c _. cbn. by intros [].
Qed.

(** Building a list keeps every other list, whatever allocations fail. *)
Definition builds (s : cstate) (m : CM (option positive)) : Prop :=
  wp m s (fun l s' => (forall p, is_Some (c_lists s' !! p) -> (p < c_fresh s')%positive) /\
    (forall p c, c_lists s !! p = Some c -> c_lists s' !! p = Some c) /\
    exists ps, list_at (c_lists s') l ps /\ forall p, p ∈ ps -> c_lists s !! p = None).

Lemma append_safe s0 l ds F data s :
  owns s l ds F -> (forall p c, c_lists s0 !! p = Some c -> F !! p = Some c) ->
  wp (curl_slist_append l data) s (fun l' s' =>
    exists ds' F', owns s' l' ds' F' /\ forall p c, c_lists s0 !! p = Some c -> F' !! p = Some c).
Proof.
  intros Ho HF. eapply wp_mono; [by apply slist_append_spec|]. intros [q|] s' [_ Hr]; [by exists (ds ++ [data]), F|].
  destruct Hr as [Hr _]. exists [], (c_lists s'). split.
  - apply owns_nothing. destruct Hr as (ps & _ & _ & _ & _ & _ & Hfr). exact Hfr.
  - intros p c Hp. eapply owns_frame; [done|by apply HF].
Qed.
Lemma append_headers_safe s0 pairs : forall l ds F s,
  owns s l ds F -> (forall p c, c_lists s0 !! p = Some c -> F !! p = Some c) ->
  wp (append_headers l pairs) s (fun l' s' =>
    exists ds' F', owns s' l' ds' F' /\ forall p c, c_lists s0 !! p = Some c -> F' !! p = Some c).
Proof.
  induction pairs as [|[n v] pairs IH]; intros l ds F s Ho HF; cbn [append_headers]; [wp_steps; by exists ds, F|].
  rewrite wp_bind. eapply wp_mono; [by eapply append_safe|]. intros l' s' (ds' & F' & Ho' & HF'). by eapply IH.
Qed.
Lemma owned_builds s0 m :
  wp m s0 (fun l' s' => exists ds' F', owns s' l' ds' F' /\ forall p c, c_lists s0 !! p = Some c -> F' !! p = Some c) -> builds s0 m.
Proof.
  intros Hm. eapply wp_mono; [exact Hm|]. intros l s' (ds & F & Ho & HF). split_and!.
  - destruct Ho as (ps & _ & _ & _ & _ & _ & Hfr). exact Hfr.
  - intros p c Hp. eapply owns_frame; [done|by apply HF].
  - destruct (owns_list_at _ _ _ _ Ho) as (ps & Hl & Hd). exists ps. split; [done|]. intros p Hp.
    destruct (c_lists s0 !! p) as [c|] eqn:E; [|done]. apply HF in E. by rewrite (Hd p Hp) in E.
Qed.

Section builds.
Context {HM : Type} `{HeaderMap HM}.
Lemma build_headers_builds (r : @HTTPRequest HM) s :
  (forall p, is_Some (c_lists s !! p) -> (p < c_fresh s)%positive) -> builds s (BuildHeaders r).
Proof. intros Hfr. apply owned_builds. eapply append_headers_safe; [by apply owns_nothing|done]. Qed.
Lemma client_headers_builds accept content (c : @HTTPClient HM) s :
  (forall p, is_Some (c_lists s !! p) -> (p < c_fresh s)%positive) -> builds s (client_BuildHeaders accept content c).
Proof.
  intros Hfr. apply owned_builds. unfold client_BuildHeaders. rewrite wp_bind.
  eapply wp_mono; [eapply append_safe; [by apply owns_nothing|done]|]. intros l s' (ds' & F' & Ho & HF). rewrite wp_bind.
  eapply wp_mono; [by eapply append_safe|]. intros l1 s1 (ds1 & F1 & Ho1 & HF1). by eapply append_headers_safe.
Qed.
End builds.

(* ------------------------------------------------------------------ *)
(** ** The invariant *)

Section http_safe.
Context {HS : Type} `{HandleTable HS} {HM : Type} `{HeaderMap HM}.
Abbreviation hstate := (@hstate HS HM).
Abbreviation HN := (ST hstate).
Implicit Types s : hstate.

(** The header lists of the contexts are in cells of their own. *)
Definition lists_ok (m : gmap positive curl_slist) (xs : gmap positive (@IHTTPContext HM)) : Prop :=
  exists own : positive -> list positive,
    (forall a x, xs !! a = Some x -> list_at m (context_headers x) (own a)) /\
    (forall a b p, is_Some (xs !! a) -> is_Some (xs !! b) -> p ∈ own a -> p ∈ own b -> a = b).

(** Where the contexts are that have left the queue of requests: in transfers,
    or in the callback that is running, with the handle of its response. *)
Record stage := { transferring : list positive; current : option (positive * option (option Z)) }.
Definition in_callback (cur : stage) : list positive := match current cur with Some (a, _) => [a] | None => [] end.
Definition placed (cur : stage) (s : hstate) : list positive := h_queue s ++ transferring cur ++ in_callback cur.

(** What is left of a request's body is in its memory. *)
Definition upload_ok (u : upload) : Prop :=
  match u_body u with Some b => exists i, sent u b i | None => u_pos u = 0 /\ u_size u = 0 end.
(** A context as it is when it enters the queue, and later. *)
Definition context_ok (x : @IHTTPContext HM) : Prop :=
  (forall p, response_of x = Some p -> exists b, body_rep p b /\ Forall is_byte b) /\
  (forall r, x = RequestContext r -> upload_ok (x_upload r)).

Record http_ok (cur : stage) (s : hstate) : Prop := {
  ho_plugin : plugin_ok (h_json s);
  ho_types : forall h t o, http_part (h_json s) !! h = Some (t, o) -> exists a, o = POther a;
  ho_clients : forall a, is_Some (h_clients s !! a) <-> exists h, http_part (h_json s) !! h = Some (htHTTPClient, POther a);
  ho_client_once : forall a h h', http_part (h_json s) !! h = Some (htHTTPClient, POther a) ->
    http_part (h_json s) !! h' = Some (htHTTPClient, POther a) -> h = h';
  ho_requests : forall a, is_Some (h_requests s !! a) <-> exists h, http_part (h_json s) !! h = Some (htHTTPRequest, POther a);
  ho_request_once : forall a h h', http_part (h_json s) !! h = Some (htHTTPRequest, POther a) ->
    http_part (h_json s) !! h' = Some (htHTTPRequest, POther a) -> h = h';
  ho_response : forall h a, http_part (h_json s) !! h = Some (htHTTPResponse, POther a) -> current cur = Some (a, Some (Some h));
  ho_current : forall a h, current cur = Some (a, Some (Some h)) -> exists x, h_contexts s !! a = Some x /\ is_Some (response_of x);
  ho_forwards : forall a x, h_contexts s !! a = Some x -> context_forward x ∈ h_forwards s;
  ho_forward_once : forall a b x y, h_contexts s !! a = Some x -> h_contexts s !! b = Some y ->
    context_forward x = context_forward y -> a = b;
  ho_bodies : forall a x p, h_contexts s !! a = Some x -> response_of x = Some p -> exists b, body_rep p b /\ Forall is_byte b;
  ho_lists : lists_ok (c_lists (h_curl s)) (h_contexts s);
  ho_placed : NoDup (placed cur s);
  ho_contexts : forall a, is_Some (h_contexts s !! a) <-> a ∈ placed cur s;
  ho_sessions : forall a, a ∈ h_sessions s <-> a ∈ transferring cur ++ in_callback cur;
  ho_files : forall a, a ∈ h_files s <-> a ∈ transferring cur /\ exists f, h_contexts s !! a = Some (FileContext f);
  ho_uploads : forall a x, h_contexts s !! a = Some (RequestContext x) -> upload_ok (x_upload x);
  ho_callback : forall a h, current cur = Some (a, Some (Some h)) -> uint32 h = h;
  ho_cells : forall p, is_Some (c_lists (h_curl s) !! p) -> (p < c_fresh (h_curl s))%positive;
  ho_fresh : forall a, is_Some (h_clients s !! a) \/ is_Some (h_requests s !! a) \/ is_Some (h_contexts s !! a) \/ a ∈ h_forwards s ->
    (a < h_fresh s)%positive
}.

(** Computations that keep the invariant. *)
Definition hsafe {A} (cur : stage) (m : HN A) (s : hstate) : Prop := wp m s (fun _ s' => http_ok cur s').

(** Only JSON values, JSON handles and what is told to plugins changed. *)
Lemma http_ok_json cur s n : http_ok cur s -> plugin_ok n -> http_part n = http_part (h_json s) -> http_ok cur (set_h_json n s).
Proof. intros [] Hn Hp. split; cbn; rewrite ?Hp; done. Qed.

Lemma in_natives_wp {A} cur (m : ST (nstate HS) A) s (Q : A -> hstate -> Prop) :
  http_ok cur s -> safe m (h_json s) -> keeps m ->
  (forall a n, m (h_json s) = inr (a, n) -> http_ok cur (set_h_json n s) -> Q a (set_h_json n s)) -> wp (in_natives m) s Q.
Proof.
  intros Hs Hm Hk HQ. unfold in_natives. apply wp_zoom. unfold safe in Hm. destruct (wp_inv _ _ _ Hm) as (a & n & E & Hn).
  eapply wp_eq; [exact E|]. apply HQ; [done|]. apply http_ok_json; [done|done|]. by eapply Hk.
Qed.

Lemma ret_hsafe {A} cur (a : A) s : http_ok cur s -> hsafe cur (ret a) s.
Proof. intros Hs. unfold hsafe. by rewrite wp_ret. Qed.
Lemma in_natives_hsafe {A B} cur (m : ST (nstate HS) A) (k : A -> HN B) s :
  http_ok cur s -> safe m (h_json s) -> keeps m -> (forall a n, http_ok cur (set_h_json n s) -> hsafe cur (k a) (set_h_json n s)) ->
  hsafe cur (bind (in_natives m) k) s.
Proof. intros Hs Hm Hk HQ. unfold hsafe. rewrite wp_bind. eapply in_natives_wp; [done..|]. intros a n _ Hn. by apply HQ. Qed.
Lemma h_throw_hsafe cur e s : http_ok cur s -> hsafe cur (h_throw e) s.
Proof.
  intros Hs. eapply in_natives_wp; [done|apply throw_safe, Hs|apply keeps_throw|]. intros a n _ Hn. done.
Qed.
Lemma h_throw_then_hsafe {B} cur e (b : B) s : http_ok cur s -> hsafe cur (let* _ := h_throw e in ret b) s.
Proof.
  intros Hs. apply in_natives_hsafe; [done|apply throw_safe, Hs|apply keeps_throw|]. intros a n Hn. by apply ret_hsafe.
Qed.

(** Reading a handle of the extension's own objects. *)
Lemma read_object_hsafe cur hndl t (k : positive -> HN Z) s :
  http_ok cur s -> is_http t = true ->
  (forall a, http_part (h_json s) !! uint32 hndl = Some (t, POther a) -> hsafe cur (k a) s) -> hsafe cur (read_object hndl t k) s.
Proof.
  intros Hs Ht Hk. unfold hsafe, read_object. rewrite wp_bind. apply wp_gets.
  destruct (ReadHandle (uint32 hndl) t (n_handles (h_json s))) as [err|o] eqn:E; [by apply h_throw_hsafe|].
  apply read_table in E. assert (Hp : http_part (h_json s) !! uint32 hndl = Some (t, o)) by (by apply map_lookup_filter_Some).
  destruct (ho_types _ _ Hs _ _ _ Hp) as [a ->]. by apply Hk.
Qed.

(** [plugin_ok] does not depend on the handles of other objects. *)
Lemma plugin_ok_other (n : nstate HS) hs t o : is_http t = true ->
  plugin_ok n -> owned hs ≡ₚ (t, o) :: owned (n_handles n) -> plugin_ok (set_n_handles hs n).
Proof.
  intros Ht [P1 P2 P3 P4 P5] Hp. unfold handle_keys in *. split; cbn in *; unfold handle_keys.
  - rewrite (handle_roots_perm _ _ Hp). rewrite handle_roots_other; [done|]. by destruct t.
  - rewrite Hp. constructor; [by destruct t|done].
  - intros k. rewrite Hp. cbn. rewrite elem_of_app. intros [Hk|Hk]; [|by apply P3].
    destruct t; try discriminate Ht; by apply elem_of_nil in Hk.
  - rewrite Hp. cbn. by destruct t.
  - done.
Qed.

(** What [CreateHandleEx] does to the handles of the extension's objects. *)
Lemma create_part (n : nstate HS) t o h err hs : is_http t = true -> plugin_ok n ->
  CreateHandleEx t o (n_handles n) = ((h, err), hs) ->
  plugin_ok (set_n_handles hs n) /\
  (if h =? BAD_HANDLE then http_part (set_n_handles hs n) = http_part n
   else http_part n !! h = None /\ http_part (set_n_handles hs n) = <[h := (t, o)]> (http_part n) /\ uint32 h = h).
Proof.
  intros Ht Hn E. pose proof (create_owned _ _ _ _ _ _ E) as Ho. apply create_table in E.
  destruct (h =? BAD_HANDLE); [split; [by apply plugin_ok_perm|unfold http_part; cbn; by rewrite E]|].
  destruct E as (Hh & E & Hr). split; [by eapply plugin_ok_other|]. unfold http_part. cbn. split_and!.
  - apply map_lookup_filter_None. by left.
  - rewrite E. by apply map_filter_insert_True.
  - unfold uint32. apply Z.mod_small. lia.
Qed.

(** *** Objects come and go with their handles *)

Section handles.
Context (cur : stage) (s : hstate) (Hs : http_ok cur s).
Abbreviation part := (http_part (h_json s)).

(** A handle to nothing of the extension's own is closed. *)
Lemma ok_delete_other h n : plugin_ok n -> http_part n = delete h part ->
  (forall a, part !! h <> Some (htHTTPClient, POther a)) -> (forall a, part !! h <> Some (htHTTPRequest, POther a)) ->
  http_ok cur (set_h_json n s).
Proof using Hs.
  intros Hn Hp Hc Hr. destruct Hs. split; cbn; rewrite ?Hp; try done.
  - intros h' t o [_ Ho]%lookup_delete_Some. eauto.
  - intros a. rewrite ho_clients0. split; intros [h' Hh]; exists h'; [|by apply lookup_delete_Some in Hh as [_ ?]].
    apply lookup_delete_Some. split; [|done]. intros ->. by apply (Hc a).
  - intros a h1 h2 [_ E1]%lookup_delete_Some [_ E2]%lookup_delete_Some. eauto.
  - intros a. rewrite ho_requests0. split; intros [h' Hh]; exists h'; [|by apply lookup_delete_Some in Hh as [_ ?]].
    apply lookup_delete_Some. split; [|done]. intros ->. by apply (Hr a).
  - intros a h1 h2 [_ E1]%lookup_delete_Some [_ E2]%lookup_delete_Some. eauto.
  - intros h' a [_ E]%lookup_delete_Some. eauto.
Qed.

Lemma ok_delete_client h a n : part !! h = Some (htHTTPClient, POther a) -> plugin_ok n -> http_part n = delete h part ->
  http_ok cur (set_h_clients (delete a (h_clients s)) (set_h_json n s)).
Proof using Hs.
  intros Hh Hn Hp. destruct Hs. split; cbn; rewrite ?Hp; try done.
  - intros h' t o [_ Ho]%lookup_delete_Some. eauto.
  - intros b. rewrite lookup_delete_is_Some, ho_clients0. split.
    + intros [Hne [h' Hh']]. exists h'. apply lookup_delete_Some. split; [|done]. intros ->. congruence.
    + intros [h' [Hne Hh']%lookup_delete_Some]. split; [|by exists h']. intros ->. apply Hne. eauto.
  - intros b h1 h2 [_ E1]%lookup_delete_Some [_ E2]%lookup_delete_Some. eauto.
  - intros b. rewrite ho_requests0. split; intros [h' Hh']; exists h'; [|by apply lookup_delete_Some in Hh' as [_ ?]].
    apply lookup_delete_Some. split; [|done]. intros ->. congruence.
  - intros b h1 h2 [_ E1]%lookup_delete_Some [_ E2]%lookup_delete_Some. eauto.
  - intros h' b [_ E]%lookup_delete_Some. eauto.
  - intros b [Hb|Hb]; [apply lookup_delete_is_Some in Hb as [_ Hb]|]; auto.
Qed.

Lemma ok_delete_request h a n : part !! h = Some (htHTTPRequest, POther a) -> plugin_ok n -> http_part n = delete h part ->
  http_ok cur (set_h_requests (delete a (h_requests s)) (set_h_json n s)).
Proof using Hs.
  intros Hh Hn Hp. destruct Hs. split; cbn; rewrite ?Hp; try done.
  - intros h' t o [_ Ho]%lookup_delete_Some. eauto.
  - intros b. rewrite ho_clients0. split; intros [h' Hh']; exists h'; [|by apply lookup_delete_Some in Hh' as [_ ?]].
    apply lookup_delete_Some. split; [|done]. intros ->. congruence.
  - intros b h1 h2 [_ E1]%lookup_delete_Some [_ E2]%lookup_delete_Some. eauto.
  - intros b. rewrite lookup_delete_is_Some, ho_requests0. split.
    + intros [Hne [h' Hh']]. exists h'. apply lookup_delete_Some. split; [|done]. intros ->. congruence.
    + intros [h' [Hne Hh']%lookup_delete_Some]. split; [|by exists h']. intros ->. apply Hne. eauto.
  - intros b h1 h2 [_ E1]%lookup_delete_Some [_ E2]%lookup_delete_Some. eauto.
  - intros h' b [_ E]%lookup_delete_Some. eauto.
  - intros b [Hb|[Hb|Hb]]; [|apply lookup_delete_is_Some in Hb as [_ Hb]|]; auto.
Qed.

(** A new object gets its handle. *)
Lemma part_new h t a n : http_part n = <[h := (t, POther a)]> part -> part !! h = None ->
  forall h' x, http_part n !! h' = Some x <-> h' = h /\ x = (t, POther a) \/ part !! h' = Some x.
Proof using.
  intros -> Hh h' x. rewrite lookup_insert_Some. split; [naive_solver|]. intros [[-> ->]|Hx]; [by left|right].
  split; [|done]. intros ->. congruence.
Qed.
(** An address that was never used. *)
Lemma unused a t : (h_fresh s <= a)%positive -> t = htHTTPClient \/ t = htHTTPRequest ->
  forall h, part !! h <> Some (t, POther a).
Proof using Hs.
  intros Ha Ht h Hh. enough (a < h_fresh s)%positive by lia. apply (ho_fresh _ _ Hs).
  destruct Ht as [->| ->]; [left; apply (ho_clients _ _ Hs)|right; left; apply (ho_requests _ _ Hs)]; eauto.
Qed.

Lemma ok_new_client c h n fr : part !! h = None -> plugin_ok n -> http_part n = <[h := (htHTTPClient, POther (h_fresh s))]> part ->
  (h_fresh s < fr)%positive ->
  http_ok cur {| h_json := n; h_curl := h_curl s; h_clients := <[h_fresh s := c]> (h_clients s); h_requests := h_requests s;
                 h_contexts := h_contexts s; h_forwards := h_forwards s; h_queue := h_queue s; h_sessions := h_sessions s; h_files := h_files s; h_fresh := fr |}.
Proof using Hs.
  intros Hh Hn Hp Hfr. pose proof (part_new _ _ _ _ Hp Hh) as Hpart. clear Hp.
  pose proof (unused (h_fresh s) htHTTPClient ltac:(lia) (or_introl eq_refl)) as Hun. destruct Hs.
  split; cbn; try done; try (intros * Hx%Hpart; naive_solver).
  - intros b. rewrite lookup_insert_is_Some', ho_clients0. setoid_rewrite Hpart. naive_solver.
  - intros b. rewrite ho_requests0. setoid_rewrite Hpart. naive_solver.
  - intros b [Hb|Hb]; [apply lookup_insert_is_Some' in Hb as [<-|Hb]; [done|]|]; (etrans; [|exact Hfr]); auto.
Qed.
Lemma ok_new_request c h n fr : part !! h = None -> plugin_ok n -> http_part n = <[h := (htHTTPRequest, POther (h_fresh s))]> part ->
  (h_fresh s < fr)%positive ->
  http_ok cur {| h_json := n; h_curl := h_curl s; h_clients := h_clients s; h_requests := <[h_fresh s := c]> (h_requests s);
                 h_contexts := h_contexts s; h_forwards := h_forwards s; h_queue := h_queue s; h_sessions := h_sessions s; h_files := h_files s; h_fresh := fr |}.
Proof using Hs.
  intros Hh Hn Hp Hfr. pose proof (part_new _ _ _ _ Hp Hh) as Hpart. clear Hp.
  pose proof (unused (h_fresh s) htHTTPRequest ltac:(lia) (or_intror eq_refl)) as Hun. destruct Hs.
  split; cbn; try done; try (intros * Hx%Hpart; naive_solver).
  - intros b. rewrite ho_clients0. setoid_rewrite Hpart. naive_solver.
  - intros b. rewrite lookup_insert_is_Some', ho_requests0. setoid_rewrite Hpart. naive_solver.
  - intros b [Hb|[Hb|Hb]]; [|apply lookup_insert_is_Some' in Hb as [<-|Hb]; [done|]|]; (etrans; [|exact Hfr]); auto.
Qed.
(** Nothing but the counter of addresses and JSON values changed. *)
Lemma ok_counter n fr : plugin_ok n -> http_part n = part -> (h_fresh s <= fr)%positive ->
  http_ok cur {| h_json := n; h_curl := h_curl s; h_clients := h_clients s; h_requests := h_requests s;
                 h_contexts := h_contexts s; h_forwards := h_forwards s; h_queue := h_queue s; h_sessions := h_sessions s; h_files := h_files s; h_fresh := fr |}.
Proof using Hs.
  intros Hn Hp Hfr. destruct Hs. split; cbn; rewrite ?Hp; try done. intros a Ha. specialize (ho_fresh0 a Ha). lia.
Qed.
End handles.

(** Closing a handle, by the extension or by a plugin. *)
Lemma free_handle_spec cur h s : http_ok cur s ->
  wp (h_FreeHandle h) s (fun _ s' => http_ok cur s' /\ h_contexts s' = h_contexts s /\
    http_part (h_json s') = delete (uint32 h) (http_part (h_json s))).
Proof.
  intros Hs. pose proof (close_handle_safe h (h_json s) (ho_plugin _ _ Hs)) as Hclose. unfold safe, CloseHandle in Hclose.
  rewrite wp_bind, wp_gets in Hclose. unfold h_FreeHandle. rewrite wp_bind, wp_gets.
  destruct (FreeHandle (uint32 h) (n_handles (h_json s))) as [o hs] eqn:E. apply free_table in E as [-> Ehs].
  rewrite wp_bind, wp_modify in Hclose. rewrite wp_bind. unfold in_natives at 1. rewrite wp_zoom, wp_modify.
  set (n := set_n_handles hs (h_json s)) in *.
  assert (Hp : http_part n = delete (uint32 h) (http_part (h_json s))).
  { unfold http_part. cbn. rewrite Ehs. apply map_filter_delete. }
  destruct (handles (n_handles (h_json s)) !! uint32 h) as [[t o]|] eqn:Eh; cbv beta iota in Hclose |- *.
  2:{ rewrite wp_ret in Hclose. rewrite wp_ret. split_and!; [|done|done]. eapply ok_delete_other; [done|done|exact Hp|..].
      all: intros a Ha; apply map_lookup_filter_Some in Ha as [Ha _]; congruence. }
  destruct (is_http t) eqn:Ht.
  - assert (Hpart : http_part (h_json s) !! uint32 h = Some (t, o)) by (by apply map_lookup_filter_Some).
    destruct (ho_types _ _ Hs _ _ _ Hpart) as [a ->].
    destruct t; try discriminate Ht; cbn [OnHandleDestroy] in Hclose; rewrite wp_ret in Hclose; cbn [h_OnHandleDestroy].
    + destruct (proj2 (ho_clients _ _ Hs a) (ex_intro _ _ Hpart)) as [c Ec].
      unfold delete_client. wp_steps. cbn. eapply wp_require; [exact Ec|]. wp_steps. split_and!; [|done|done].
      by eapply ok_delete_client.
    + destruct (proj2 (ho_requests _ _ Hs a) (ex_intro _ _ Hpart)) as [c Ec].
      unfold delete_request. wp_steps. cbn. eapply wp_require; [exact Ec|]. wp_steps. split_and!; [|done|done].
      by eapply ok_delete_request.
    + rewrite wp_ret. split_and!; [|done|done]. eapply ok_delete_other; [done|done|exact Hp|..]; congruence.
  - assert (Hnone : http_part (h_json s) !! uint32 h = None).
    { apply map_lookup_filter_None. right. intros x Hx. rewrite Eh in Hx. injection Hx as <-. cbn. by rewrite Ht. }
    assert (Hk : keeps (OnHandleDestroy (HS := HS) t o)).
    { destruct t, o; cbn [OnHandleDestroy]; unfold delete_keys; keep. }
    assert (h_OnHandleDestroy (HS := HS) (HM := HM) t o = in_natives (OnHandleDestroy t o)) as -> by (by destruct t).
    unfold in_natives. rewrite wp_zoom. destruct (wp_inv _ _ _ Hclose) as (u & n' & E & Hn').
    eapply wp_eq; [exact E|]. cbn. specialize (Hk _ _ _ E). rewrite delete_id in Hp by done.
    split_and!; [|done|by rewrite delete_id, Hk].
    change (http_ok cur (set_h_json n' s)). apply http_ok_json; [done|done|by rewrite Hk].
Qed.
Lemma free_handle_hsafe cur h s : http_ok cur s -> hsafe cur (h_FreeHandle h) s.
Proof. intros Hs. eapply wp_mono; [by apply free_handle_spec|]. by intros ? s' [? _]. Qed.

(** *** Creating and changing objects *)

Lemma ok_update_client cur s a c c' : http_ok cur s -> h_clients s !! a = Some c ->
  http_ok cur (set_h_clients (<[a := c']> (h_clients s)) s).
Proof.
  intros [] Ha. assert (Hd : forall b, is_Some (<[a := c']> (h_clients s) !! b) <-> is_Some (h_clients s !! b)).
  { intros b. rewrite lookup_insert_is_Some'. split; [intros [<-|?]; [by exists c|done]|by right]. }
  split; cbn; try done; intros b; rewrite Hd; auto.
Qed.
Lemma ok_update_request cur s a r r' : http_ok cur s -> h_requests s !! a = Some r ->
  http_ok cur (set_h_requests (<[a := r']> (h_requests s)) s).
Proof.
  intros [] Ha. assert (Hd : forall b, is_Some (<[a := r']> (h_requests s) !! b) <-> is_Some (h_requests s !! b)).
  { intros b. rewrite lookup_insert_is_Some'. split; [intros [<-|?]; [by exists r|done]|by right]. }
  split; cbn; try done; intros b; rewrite Hd; auto.
Qed.
Lemma ok_allocs cur s c : http_ok cur s -> allocs (h_curl s) c -> http_ok cur (set_h_curl c s).
Proof. intros [] (Hl & Hf & _). split; cbn; rewrite ?Hl, ?Hf; done. Qed.

Lemma create_client_hsafe cur e s : http_ok cur s -> hsafe cur (CreateClient e) s.
Proof.
  intros Hs. unfold hsafe, CreateClient. destruct (LocalToString _ _) as [|b url]; [by apply h_throw_then_hsafe|].
  unfold new_address, create_object. wp_steps. cbn.
  destruct (CreateHandleEx htHTTPClient (POther (h_fresh s)) (n_handles (h_json s))) as [[h err] hs] eqn:E.
  apply create_part in E as [Hn Hp]; [|done|apply Hs]. unfold in_natives at 1. wp_steps. cbn.
  destruct (h =? BAD_HANDLE).
  - rewrite wp_bind. unfold delete_client. rewrite wp_bind, wp_gets, wp_bind. cbn [h_clients set_h_json set_h_clients].
    eapply wp_require; [apply lookup_insert_eq|]. rewrite wp_modify. apply h_throw_then_hsafe.
    unfold set_h_json, set_h_clients. cbn [h_json h_curl h_clients h_requests h_contexts h_forwards h_queue h_sessions h_files h_fresh].
    rewrite delete_insert_id; [eapply (ok_counter cur s Hs); [done|done|cbn; lia]|].
    apply eq_None_not_Some. intros Hc. pose proof (ho_fresh _ _ Hs (h_fresh s) (or_introl Hc)). lia.
  - wp_steps. destruct Hp as (Hh & Hp & _). eapply (ok_new_client cur s Hs); [done|done|done|cbn; lia].
Qed.
Lemma create_request_hsafe cur e s : http_ok cur s -> hsafe cur (CreateRequest e) s.
Proof.
  intros Hs. unfold hsafe, CreateRequest. destruct (LocalToString _ _) as [|b url]; [by apply h_throw_then_hsafe|].
  unfold new_address, create_object. wp_steps. cbn.
  destruct (CreateHandleEx htHTTPRequest (POther (h_fresh s)) (n_handles (h_json s))) as [[h err] hs] eqn:E.
  apply create_part in E as [Hn Hp]; [|done|apply Hs]. unfold in_natives at 1. wp_steps. cbn.
  destruct (h =? BAD_HANDLE).
  - rewrite wp_bind. unfold delete_request. rewrite wp_bind, wp_gets, wp_bind. cbn [h_requests set_h_json set_h_requests].
    eapply wp_require; [apply lookup_insert_eq|]. rewrite wp_modify. apply h_throw_then_hsafe.
    unfold set_h_json, set_h_requests. cbn [h_json h_curl h_clients h_requests h_contexts h_forwards h_queue h_sessions h_files h_fresh].
    rewrite delete_insert_id; [eapply (ok_counter cur s Hs); [done|done|cbn; lia]|].
    apply eq_None_not_Some. intros Hc. pose proof (ho_fresh _ _ Hs (h_fresh s) (or_intror (or_introl Hc))). lia.
  - wp_steps. destruct Hp as (Hh & Hp & _). eapply (ok_new_request cur s Hs); [done|done|done|cbn; lia].
Qed.

Lemma with_client_hsafe cur e (k : positive -> @HTTPClient HM -> HN Z) s : http_ok cur s ->
  (forall a c, h_clients s !! a = Some c -> hsafe cur (k a c) s) -> hsafe cur (with_client e k) s.
Proof.
  intros Hs Hk. apply read_object_hsafe; [done|done|]. intros a Ha.
  destruct (proj2 (ho_clients _ _ Hs a) (ex_intro _ _ Ha)) as [c Ec]. unfold hsafe. wp_steps. eapply wp_require; [exact Ec|]. by apply Hk.
Qed.
Lemma with_request_hsafe cur e (k : positive -> @HTTPRequest HM -> HN Z) s : http_ok cur s ->
  (forall a r, h_requests s !! a = Some r -> hsafe cur (k a r) s) -> hsafe cur (with_request e k) s.
Proof.
  intros Hs Hk. apply read_object_hsafe; [done|done|]. intros a Ha.
  destruct (proj2 (ho_requests _ _ Hs a) (ex_intro _ _ Ha)) as [c Ec]. unfold hsafe. wp_steps. eapply wp_require; [exact Ec|]. by apply Hk.
Qed.
Lemma get_client_hsafe cur e f s : http_ok cur s -> hsafe cur (get_client e f) s.
Proof. intros Hs. apply with_client_hsafe; [done|]. intros. by apply ret_hsafe. Qed.
Lemma set_client_hsafe cur e f s : http_ok cur s -> hsafe cur (set_client e f) s.
Proof. intros Hs. apply with_client_hsafe; [done|]. intros a c Ea. unfold hsafe. wp_steps. by eapply ok_update_client. Qed.
Lemma get_request_hsafe cur e f s : http_ok cur s -> hsafe cur (get_request e f) s.
Proof. intros Hs. apply with_request_hsafe; [done|]. intros. by apply ret_hsafe. Qed.
Lemma put_request_hsafe cur a r r' s : http_ok cur s -> h_requests s !! a = Some r -> hsafe cur (put_request a r' ;;; ret 1) s.
Proof. intros Hs Ha. unfold hsafe, put_request. wp_steps. by eapply ok_update_request. Qed.
Lemma set_request_hsafe cur e f s : http_ok cur s -> hsafe cur (set_request e f) s.
Proof. intros Hs. apply with_request_hsafe; [done|]. intros a r Ea. by eapply put_request_hsafe. Qed.

(** *** New contexts *)

(** A forward that belongs to no context yet, and a header list likewise. *)
Definition free_forward s (f : positive) : Prop :=
  f ∈ h_forwards s /\ forall a x, h_contexts s !! a = Some x -> context_forward x <> f.
Definition free_list s (l : option positive) : Prop :=
  exists own ps, list_at (c_lists (h_curl s)) l ps /\
    (forall a x, h_contexts s !! a = Some x -> list_at (c_lists (h_curl s)) (context_headers x) (own a)) /\
    (forall a b p, is_Some (h_contexts s !! a) -> is_Some (h_contexts s !! b) -> p ∈ own a -> p ∈ own b -> a = b) /\
    (forall a p, is_Some (h_contexts s !! a) -> p ∈ own a -> p ∉ ps).

Lemma create_forward_spec cur e s : http_ok cur s ->
  wp (create_forward e) s (fun r s' => http_ok cur s' /\ h_json s' = h_json s /\ h_requests s' = h_requests s /\
    match r with Some f => free_forward s' f | None => True end).
Proof.
  intros Hs. unfold create_forward. destruct (CreateForwardEx e) as [added|]; [|rewrite wp_ret; done].
  unfold new_address. wp_steps. cbn. split_and!; [|done|done|].
  - destruct Hs. split; cbn; try done.
    + intros a x Hx. apply elem_of_union. right. eauto.
    + intros a Ha. destruct (decide (a = h_fresh s)) as [->|Hne]; [lia|]. enough (a < h_fresh s)%positive by lia.
      apply ho_fresh0. destruct Ha as [?|[?|[?|Ha]]]; auto. apply elem_of_union in Ha as [Ha%elem_of_singleton|?]; [done|auto].
  - destruct added; [|done]. split; cbn; [set_solver|]. intros a x Hx E. pose proof (ho_forwards _ _ Hs a x Hx) as Hf.
    pose proof (ho_fresh _ _ Hs (context_forward x) ltac:(auto)) as Hlt. rewrite E in Hlt. lia.
Qed.

Lemma build_spec cur m s f : http_ok cur s -> builds (h_curl s) m -> free_forward s f ->
  wp (in_curl m) s (fun l s' => http_ok cur s' /\ h_json s' = h_json s /\ h_requests s' = h_requests s /\ free_forward s' f /\ free_list s' l).
Proof.
  intros Hs Hm Hf. unfold in_curl. rewrite wp_zoom. eapply wp_mono; [exact Hm|]. intros l c (Hfr & Hold & ps & Hl & Hd).
  destruct (ho_lists _ _ Hs) as (own & Hown & Hdis).
  assert (Hcell : forall a x p, h_contexts s !! a = Some x -> p ∈ own a -> exists cell, c_lists (h_curl s) !! p = Some cell).
  { intros a x p Hx Hp. apply list_elem_of_lookup in Hp as [i Hi]. destruct (Hown a x Hx) as (_ & _ & Hc).
    destruct (Hc i p Hi) as [d E]. eauto. }
  assert (Hown' : forall a x, h_contexts s !! a = Some x -> list_at (c_lists c) (context_headers x) (own a)).
  { intros a x Hx. eapply list_at_mono; [by apply Hown|]. intros p Hp. destruct (Hcell a x p Hx Hp) as [cell E].
    by rewrite E, (Hold _ _ E). }
  split_and!; [|done|done|done|].
  - destruct Hs. split; cbn; try done. by exists own.
  - exists own, ps. split_and!; cbn; [done..|]. intros a p [x Hx] Hp Hin. destruct (Hcell a x p Hx Hp) as [cell E].
    by rewrite (Hd p Hin) in E.
Qed.

(** A new context brings its list along. *)
Lemma lists_ok_insert m xs a x own ps : xs !! a = None -> list_at m (context_headers x) ps ->
  (forall b y, xs !! b = Some y -> list_at m (context_headers y) (own b)) ->
  (forall b b' p, is_Some (xs !! b) -> is_Some (xs !! b') -> p ∈ own b -> p ∈ own b' -> b = b') ->
  (forall b p, is_Some (xs !! b) -> p ∈ own b -> p ∉ ps) -> lists_ok m (<[a := x]> xs).
Proof.
  intros Ha Hl Hown Hdis Hfree. exists (fun b => if decide (b = a) then ps else own b). split.
  - intros b y [[<- <-]|[Hne Hy]]%lookup_insert_Some; [by rewrite decide_True|]. rewrite decide_False by done. by apply Hown.
  - intros b b' p. rewrite !lookup_insert_is_Some. intros Hb Hb'. repeat case_decide; subst; try done.
    + destruct Hb' as [?|[_ Hb']]; [done|]. intros Hp Hp'. by destruct (Hfree b' p Hb' Hp').
    + destruct Hb as [?|[_ Hb]]; [done|]. intros Hp Hp'. by destruct (Hfree b p Hb Hp).
    + destruct Hb as [?|[_ Hb]]; [done|]. destruct Hb' as [?|[_ Hb']]; [done|]. by apply Hdis.
Qed.

(** A new context with the forward and the list that were made for it. *)
Lemma add_context_spec cur x s :
  http_ok cur s -> free_forward s (context_forward x) -> free_list s (context_headers x) ->
  context_ok x -> wp (add_context x) s (fun _ s' => http_ok cur s').
Proof.
  intros Hs [Hf1 Hf2] (own & ps & Hl & Hown & Hdis & Hfree) [Hb Hu]. unfold add_context, new_address. wp_steps. cbn.
  set (a := h_fresh s).
  assert (Hnew : h_contexts s !! a = None).
  { apply eq_None_not_Some. intros Hx. pose proof (ho_fresh _ _ Hs a ltac:(auto)) as Hlt. unfold a in Hlt. lia. }
  assert (Hlook : forall b y, <[a := x]> (h_contexts s) !! b = Some y <-> b = a /\ y = x \/ h_contexts s !! b = Some y).
  { intros b y. rewrite lookup_insert_Some. split; [naive_solver|]. intros [[-> ->]|Hy]; [by left|right]. split; [|done].
    intros <-. congruence. }
  set (s' := set_h_queue _ _). assert (Hplace : placed cur s' ≡ₚ a :: placed cur s).
  { unfold placed. cbn. rewrite <- app_assoc. symmetry. apply Permutation_middle. }
  destruct Hs. split; cbn; try done.
  - intros b h Hc. destruct (ho_current0 b h Hc) as (y & Hy & Hr). exists y. split; [|done]. apply Hlook. auto.
  - intros b y [[-> ->]|Hy]%Hlook; eauto.
  - intros b b' y y' [[-> ->]|Hy]%Hlook [[-> ->]|Hy']%Hlook E; [done| | |eauto].
    + by destruct (Hf2 _ _ Hy').
    + by destruct (Hf2 _ _ Hy).
  - intros b y p [[-> ->]|Hy]%Hlook; eauto.
  - by eapply lists_ok_insert.
  - change (NoDup (placed cur s')). rewrite Hplace. constructor; [|done]. intros [y Hy]%ho_contexts0. congruence.
  - intros b. change (is_Some (<[a := x]> (h_contexts s) !! b) <-> b ∈ placed cur s'). rewrite Hplace, elem_of_cons, <- ho_contexts0, lookup_insert_is_Some'. naive_solver.
  - intros b. rewrite ho_files0. setoid_rewrite Hlook. split; [naive_solver|]. intros [HT [f [[-> _]|Hf]]]; [|naive_solver].
    enough (is_Some (h_contexts s !! a)) as [y Hy] by congruence. apply ho_contexts0. unfold placed. set_solver.
  - intros b r [[-> E]|Hy]%Hlook; eauto.
  - intros b Hb'. destruct (decide (b = a)) as [->|Hne]; [unfold a; lia|]. enough (b < h_fresh s)%positive by lia.
    apply ho_fresh0. destruct Hb' as [?|[?|[Hc|?]]]; auto. apply lookup_insert_is_Some in Hc as [->|[_ ?]]; [done|auto].
Qed.

(** *** Sending requests *)

(** A value that a handle of the plugin refers to. *)
Definition data_ok (e : henv) s (d : json_ptr) : Prop :=
  match d with
  | Some l => l ∈ handle_roots (owned (n_handles (h_json s))) /\ dump_fits (he_env e) (h_json s)
  | None => True
  end.

Lemma dump_body_spec cur e d s : http_ok cur s -> data_ok e s d ->
  wp (dump_body (he_env e) d) s (fun r s' => http_ok cur s' /\ (exists n, s' = set_h_json n s) /\
    forall t, r = Some t -> Z.of_nat (length t) <= SIZE_MAX).
Proof.
  intros Hs Hd. destruct d as [l|]; cbn [dump_body].
  2:{ rewrite wp_ret. split; [done|]. split; [exists (h_json s); by destruct s|done]. }
  destruct Hd as [Hl Hdu]. unfold in_natives, in_json. rewrite !wp_zoom.
  destruct (held_view _ _ _ (po_inv _ (ho_plugin _ _ Hs)) Hl (du_fits _ _ Hdu)) as [Htv [v Hv]].
  pose proof (du_size _ _ Hdu _ _ 0 Hv) as Hsize.
  destruct (json_dumps_spec _ 0 _ _ _ Htv Hv Hsize) as (r & o & E & _ & _ & Hlen). eapply wp_eq; [exact E|]. split.
  - apply http_ok_json; [done| |done]. apply plugin_ok_world; [apply (ho_plugin _ _ Hs)|]. apply inv_set_oom, (po_inv _ (ho_plugin _ _ Hs)).
  - split; [by eexists|]. intros t Ht. specialize (Hlen t Ht). unfold SIZE_MAX. lia.
Qed.

Lemma log_hsafe cur ev s : http_ok cur s -> hsafe cur (in_natives (tell ev)) s.
Proof.
  intros Hs. eapply in_natives_wp; [done| |apply keeps_tell|done]. unfold safe, tell. rewrite wp_modify. destruct (ho_plugin _ _ Hs). by split.
Qed.

Lemma new_response_ok p b : (new_HTTPResponse (HM := HM) = p) -> b = [] -> body_rep p b /\ Forall is_byte b.
Proof. intros <- ->. split; [by split|constructor]. Qed.

Lemma new_request_ok method url body headers f value ct mr to ss rs ba user pass :
  (forall t, body = Some t -> Z.of_nat (length t) <= SIZE_MAX) ->
  context_ok (RequestContext (new_HTTPRequestContext (HM := HM) method url body headers f value ct mr to ss rs ba user pass)).
Proof.
  intros Hb. split.
  - intros p [= <-]. exists []. by apply new_response_ok.
  - intros r [= <-]. unfold upload_ok. cbn. destruct body as [t|]; [|done]. exists 0%nat. specialize (Hb t eq_refl). split_and!; cbn; done || lia.
Qed.

Lemma client_request_hsafe cur e method endpoint d value c s :
  http_ok cur s -> data_ok e s d -> hsafe cur (client_Request e method endpoint d value c) s.
Proof.
  intros Hs Hd. unfold hsafe, client_Request. rewrite wp_bind. eapply wp_mono; [by apply create_forward_spec|].
  intros [f|] s1 (Hs1 & Ej & _ & Hf); [|by apply log_hsafe]. rewrite wp_bind.
  eapply wp_mono; [apply build_spec; [exact Hs1|apply client_headers_builds, (ho_cells _ _ Hs1)|exact Hf]|].
  intros l s2 (Hs2 & Ej2 & _ & Hf2 & Hl2). rewrite wp_bind.
  eapply wp_mono; [eapply dump_body_spec; [exact Hs2|]; unfold data_ok in *; rewrite Ej2, Ej; exact Hd|]. cbv beta. intros body s3 (Hs3 & [n ->] & Hb).
  apply add_context_spec; [done..|]. by apply new_request_ok.
Qed.
Lemma client_file_hsafe cur e up endpoint path value c s : http_ok cur s -> hsafe cur (client_File e up endpoint path value c) s.
Proof.
  intros Hs. unfold hsafe, client_File. rewrite wp_bind. eapply wp_mono; [by apply create_forward_spec|].
  intros [f|] s1 (Hs1 & Ej & _ & Hf); [|by apply log_hsafe]. rewrite wp_bind.
  eapply wp_mono; [apply build_spec; [exact Hs1|apply client_headers_builds, (ho_cells _ _ Hs1)|exact Hf]|].
  intros l s2 (Hs2 & Ej2 & _ & Hf2 & Hl2). by apply add_context_spec; [..|split].
Qed.
Lemma then_ret_hsafe {A} cur (m : HN A) (z : Z) s : hsafe cur m s -> hsafe cur (m ;;; ret z) s.
Proof. intros Hm. unfold hsafe. rewrite wp_bind. eapply wp_mono; [exact Hm|]. intros ? s' Hs'. by rewrite wp_ret. Qed.

Lemma client_plain_hsafe cur e method s : http_ok cur s -> hsafe cur (client_plain e method) s.
Proof. intros Hs. apply with_client_hsafe; [done|]. intros a c _. apply then_ret_hsafe. by apply client_request_hsafe. Qed.
Lemma client_data_hsafe cur e method s : http_ok cur s -> dump_fits (he_env e) (h_json s) -> hsafe cur (client_data e method) s.
Proof.
  intros Hs Htx. apply with_client_hsafe; [done|]. intros a c _. unfold hsafe. rewrite wp_bind, wp_gets.
  destruct (ReadHandle _ htJSON _) as [err|o] eqn:E; [by apply h_throw_hsafe|]. apply read_owned in E.
  pose proof (proj1 (Forall_forall _ _) (po_types _ (ho_plugin _ _ Hs)) _ E) as Ht. destruct o as [d| |]; try done.
  apply then_ret_hsafe, client_request_hsafe; [done|]. destruct d as [l|]; [|done]. split; [by apply elem_handle_roots|done].
Qed.

(** [performing]: the forward, the context, the end of the request's handle. *)
Lemma performing_hsafe cur e (perform : positive -> HN unit) s :
  http_ok cur s ->
  (forall f s1, http_ok cur s1 -> h_json s1 = h_json s -> h_requests s1 = h_requests s -> free_forward s1 f -> hsafe cur (perform f) s1) ->
  hsafe cur (performing e perform) s.
Proof.
  intros Hs Hp. unfold hsafe, performing. rewrite wp_bind. eapply wp_mono; [by apply create_forward_spec|].
  intros [f|] s1 (Hs1 & Ej & Er & Hf); [|by apply h_throw_hsafe]. rewrite wp_bind. eapply wp_mono; [by apply Hp|].
  intros ? s2 Hs2. by apply then_ret_hsafe, free_handle_hsafe.
Qed.
Lemma perform_hsafe cur e method d r f value s :
  http_ok cur s -> data_ok e s d -> free_forward s f -> hsafe cur (Perform e method d r f value) s.
Proof.
  intros Hs Hd Hf. unfold hsafe, Perform. rewrite wp_bind.
  eapply wp_mono; [apply build_spec; [exact Hs|apply build_headers_builds, (ho_cells _ _ Hs)|exact Hf]|].
  intros l s2 (Hs2 & Ej2 & _ & Hf2 & Hl2). rewrite wp_bind.
  eapply wp_mono; [eapply dump_body_spec; [exact Hs2|]; unfold data_ok in *; rewrite Ej2; exact Hd|]. cbv beta. intros body s3 (Hs3 & [n ->] & Hb).
  apply add_context_spec; [done..|]. by apply new_request_ok.
Qed.
(** Files and forms: the headers of the request are changed first. *)
Lemma perform_other_hsafe cur a r r0 (x : option positive -> @IHTTPContext HM) f s :
  http_ok cur s -> h_requests s !! a = Some r0 -> free_forward s f ->
  (forall l, context_forward (x l) = f /\ context_headers (x l) = l /\ context_ok (x l)) ->
  hsafe cur (put_request a r ;;; let* headers := in_curl (BuildHeaders r) in add_context (x headers)) s.
Proof.
  intros Hs Ha Hf Hx. unfold hsafe, put_request. wp_steps. set (s1 := set_h_requests _ s).
  assert (Hs1 : http_ok cur s1) by (by eapply ok_update_request).
  eapply wp_mono; [apply build_spec; [exact Hs1|apply build_headers_builds, (ho_cells _ _ Hs1)|exact Hf]|].
  intros l s2 (Hs2 & _ & _ & Hf2 & Hl2). destruct (Hx l) as (E1 & E2 & Hb). apply add_context_spec; [done|by rewrite E1|by rewrite E2|done].
Qed.

(** [GetJSONFromHandle] reads, or throws. *)
Lemma get_json_hsafe {B} cur h (k : json_ptr -> HN B) s :
  http_ok cur s -> (forall n, http_ok cur (set_h_json n s) -> hsafe cur (k None) (set_h_json n s)) ->
  (forall l, l ∈ handle_roots (owned (n_handles (h_json s))) -> hsafe cur (k (Some l)) s) ->
  hsafe cur (bind (in_natives (GetJSONFromHandle h)) k) s.
Proof.
  intros Hs Hnone Hsome. unfold hsafe. rewrite wp_bind. unfold GetJSONFromHandle, in_natives. rewrite wp_zoom, wp_bind, wp_gets.
  destruct (ReadHandle _ htJSON _) as [err|o] eqn:E.
  - rewrite wp_bind. destruct (wp_inv _ _ _ (throw_safe (InvalidHandle (uint32 h) err) _ (ho_plugin _ _ Hs))) as (u & n & En & Hn).
    eapply wp_eq; [exact En|]. rewrite wp_ret. apply Hnone. apply http_ok_json; [done|done|]. by eapply keeps_throw.
  - apply read_owned in E. pose proof (proj1 (Forall_forall _ _) (po_types _ (ho_plugin _ _ Hs)) _ E) as Ht.
    destruct o as [[l|]| |]; try done; rewrite wp_ret.
    + replace (set_h_json (h_json s) s) with s by (by destruct s). apply Hsome. by apply elem_handle_roots.
    + apply Hnone. replace (set_h_json (h_json s) s) with s by (by destruct s). done.
Qed.

Lemma perform_plain_hsafe cur e method s : http_ok cur s -> hsafe cur (perform_plain e method) s.
Proof.
  intros Hs. apply with_request_hsafe; [done|]. intros a r _. apply performing_hsafe; [done|]. intros. by apply perform_hsafe.
Qed.
Lemma perform_data_hsafe cur e method s : http_ok cur s -> dump_fits (he_env e) (h_json s) -> hsafe cur (perform_data e method) s.
Proof.
  intros Hs Htx. apply with_request_hsafe; [done|]. intros a r _.
  apply (get_json_hsafe cur (params (he_env e) 2)); [done|by intros; apply ret_hsafe|]. intros l Hl.
  apply performing_hsafe; [done|]. intros f s1 Hs1 Ej _ Hf. apply perform_hsafe; [done| |done]. unfold data_ok. by rewrite Ej.
Qed.
Lemma perform_file_hsafe cur e up path value s :
  http_ok cur s -> hsafe cur (with_request e (fun a r => performing e (fun f => perform_file up path a r f value))) s.
Proof.
  intros Hs. apply with_request_hsafe; [done|]. intros a r Ha. apply performing_hsafe; [done|]. intros f s1 Hs1 _ Er Hf.
  eapply (perform_other_hsafe cur a _ r (fun l => FileContext _)); [done|by rewrite Er|done|]. intros l. split_and!; [done..|]. by split.
Qed.
Lemma post_form_hsafe cur e s : http_ok cur s -> hsafe cur (PerformPostForm e) s.
Proof.
  intros Hs. apply with_request_hsafe; [done|]. intros a r Ha. apply performing_hsafe; [done|]. intros f s1 Hs1 _ Er Hf.
  eapply (perform_other_hsafe cur a _ r (fun l => FormContext _)); [done|by rewrite Er|done|]. intros l. split_and!; [done..|].
  split; [|done]. intros p [= <-]. exists []. by apply new_response_ok.
Qed.

(** What the theorems assume of a call: its cells and strings, and the text of
    the format functions. *)
Record http_call_fits (e : henv) s : Prop := {
  hc_fits : call_fits (he_env e) (h_json s);
  hc_format : forall t, FormatString e = Some t -> is_cstr t
}.

Lemma snprintf_cstr n t : is_cstr t -> is_cstr (snprintf n t).
Proof. intros Ht. by apply Forall_take. Qed.

Lemma named_value_hsafe cur e (k : bytes -> bytes -> HN Z) s : http_ok cur s -> http_call_fits e s ->
  (forall name value, is_cstr name -> is_cstr value -> hsafe cur (k name value) s) -> hsafe cur (named_value e k) s.
Proof.
  intros Hs He Hk. unfold named_value. destruct (ca_strings _ _ (hc_fits _ _ He) (params (he_env e) 2)) as [Hn _].
  destruct (LocalToString _ _) as [|b name]; [by apply h_throw_hsafe|]. destruct (FormatString e) as [t|] eqn:Ef; [|by apply ret_hsafe].
  apply Hk; [done|]. apply snprintf_cstr, (hc_format _ _ He), Ef.
Qed.
(** Appending a parameter only allocates. *)
Lemma append_hsafe cur (m : CM (@HTTPRequest HM)) a r s : http_ok cur s -> h_requests s !! a = Some r ->
  wp m (h_curl s) (fun _ c => allocs (h_curl s) c) -> hsafe cur (let* r' := in_curl m in put_request a r' ;;; ret 1) s.
Proof.
  intros Hs Ha Hm. unfold hsafe. rewrite wp_bind. unfold in_curl. rewrite wp_zoom. eapply wp_mono; [exact Hm|]. cbv beta. intros r' c Hc.
  eapply put_request_hsafe; [by apply ok_allocs|exact Ha].
Qed.
Lemma append_allocs curl name value c (k : option (bytes * bytes) -> CM (@HTTPRequest HM)) : is_cstr name -> is_cstr value ->
  (forall p c', wp (k p) c' (fun _ c'' => c'' = c')) -> wp (let* p := escape_param curl name value in k p) c (fun _ c' => allocs c c').
Proof.
  intros Hn Hv Hk. rewrite wp_bind. eapply wp_mono; [apply (escape_param_spec curl (name, value)); by split|]. intros p c1 [Hal _].
  eapply wp_mono; [apply Hk|]. cbv beta. by intros ? ? ->.
Qed.
Lemma append_form_hsafe cur e s : http_ok cur s -> http_call_fits e s -> hsafe cur (AppendRequestFormParam e) s.
Proof.
  intros Hs He. apply with_request_hsafe; [done|]. intros a r Ha. apply named_value_hsafe; [done|done|]. intros name value Hn Hv.
  eapply append_hsafe; [done|done|]. apply append_allocs; [done..|]. intros [[n v]|] c'; by rewrite wp_ret.
Qed.
Lemma append_query_hsafe cur e s : http_ok cur s -> http_call_fits e s -> hsafe cur (AppendRequestQueryParam e) s.
Proof.
  intros Hs He. apply with_request_hsafe; [done|]. intros a r Ha. apply named_value_hsafe; [done|done|]. intros name value Hn Hv.
  eapply append_hsafe; [done|done|]. apply append_allocs; [done..|]. intros [[n v]|] c'; by rewrite wp_ret.
Qed.
Lemma set_header_hsafe cur e s : http_ok cur s -> http_call_fits e s -> hsafe cur (SetRequestHeader e) s.
Proof.
  intros Hs He. apply with_request_hsafe; [done|]. intros a r Ha. apply named_value_hsafe; [done|done|]. intros name value Hn Hv.
  by eapply put_request_hsafe.
Qed.

(** *** Responses *)

Lemma set_response_context p (x : @IHTTPContext HM) q : response_of x = Some q ->
  response_of (set_response p x) = Some p /\ context_forward (set_response p x) = context_forward x /\
  context_headers (set_response p x) = context_headers x.
Proof. by destruct x. Qed.

(** A response changes; its context stays where it is. *)
Lemma ok_response cur s a x p q : http_ok cur s -> h_contexts s !! a = Some x -> response_of x = Some q ->
  (exists b, body_rep p b /\ Forall is_byte b) -> http_ok cur (set_h_contexts (<[a := set_response p x]> (h_contexts s)) s).
Proof.
  intros Hs Ha Hq Hb. destruct (set_response_context p x q Hq) as (Er & Ef & Eh).
  assert (Hlook : forall b y, <[a := set_response p x]> (h_contexts s) !! b = Some y ->
    exists z, h_contexts s !! b = Some z /\ context_forward y = context_forward z /\ context_headers y = context_headers z /\
      (b = a /\ y = set_response p x \/ y = z)).
  { intros b y [[<- <-]|[_ Hy]]%lookup_insert_Some; [exists x|exists y]; auto 10. }
  assert (Hd : forall b, is_Some (<[a := set_response p x]> (h_contexts s) !! b) <-> is_Some (h_contexts s !! b)).
  { intros b. rewrite lookup_insert_is_Some'. split; [intros [<-|?]; [by exists x|done]|by right]. }
  destruct Hs. split; cbn; try done.
  - intros b h Hc. destruct (ho_current0 b h Hc) as (y & Hy & Hr). destruct (decide (b = a)) as [->|Hne].
    + exists (set_response p x). rewrite lookup_insert_eq. rewrite Er. done.
    + exists y. by rewrite lookup_insert_ne.
  - intros b y Hy. destruct (Hlook b y Hy) as (z & Hz & -> & _ & _). eauto.
  - intros b b' y y' Hy Hy' E. destruct (Hlook b y Hy) as (z & Hz & Ez & _). destruct (Hlook b' y' Hy') as (z' & Hz' & Ez' & _).
    eapply ho_forward_once0; [done|done|congruence].
  - intros b y p' Hy Hp'. destruct (Hlook b y Hy) as (z & Hz & _ & _ & [[-> ->]| ->]); [|eauto]. rewrite Er in Hp'. by injection Hp' as <-.
  - destruct ho_lists0 as (own & Hown & Hdis). exists own. split.
    + intros b y Hy. destruct (Hlook b y Hy) as (z & Hz & _ & -> & _). by apply Hown.
    + intros b b' q'. rewrite !Hd. apply Hdis.
  - intros b. rewrite Hd. apply ho_contexts0.
  - intros b. rewrite ho_files0. assert (Hk : forall f, <[a := set_response p x]> (h_contexts s) !! b = Some (FileContext f) <->
      h_contexts s !! b = Some (FileContext f)).
    { intros f. destruct (decide (b = a)) as [->|Hne]; [|by rewrite lookup_insert_ne]. rewrite lookup_insert_eq, Ha. by destruct x. }
    by setoid_rewrite Hk.
  - intros b r Hy. destruct (Hlook b _ Hy) as (z & Hz & _ & _ & [[-> E]|E]); [|subst z; eauto]. rewrite Ha in Hz. injection Hz as <-.
    destruct x as [x'| |]; try discriminate E. injection E as ->. exact (ho_uploads0 a x' Ha).
  - intros b. rewrite Hd. apply ho_fresh0.
Qed.

Lemma with_response_hsafe cur e (k : positive -> @HTTPResponse HM -> HN Z) s : http_ok cur s ->
  (forall a x p, h_contexts s !! a = Some x -> response_of x = Some p -> hsafe cur (k a p) s) -> hsafe cur (with_response e k) s.
Proof.
  intros Hs Hk. apply read_object_hsafe; [done|done|]. intros a Ha. destruct (ho_current _ _ Hs a _ (ho_response _ _ Hs _ _ Ha)) as (x & Hx & [p Hp]).
  unfold hsafe, get_response. wp_steps. eapply wp_require; [exact Hx|]. eapply wp_require; [exact Hp|]. by eapply Hk.
Qed.
Lemma put_response_wp a x p q s (Q : unit -> hstate -> Prop) : h_contexts s !! a = Some x -> response_of x = Some q ->
  Q tt (set_h_contexts (<[a := set_response p x]> (h_contexts s)) s) -> wp (put_response a p) s Q.
Proof. intros Hx Hq HQ. unfold put_response. wp_steps. eapply wp_require; [exact Hx|]. by wp_steps. Qed.

(** The text of a response. *)
Lemma body_text_spec (p : @HTTPResponse HM) b : body_rep p b -> Forall is_byte b ->
  exists t, body_text p = inr t /\ forall c, t = Some c -> c = until_nul b /\ is_cstr c.
Proof.
  intros [_ Hb] Hby. unfold body_text. destruct (p_body p) as [blk|]; [|by exists None].
  destruct Hb as (_ & Ht & Hn). rewrite (read_cstr_until b blk) by done. eexists. split; [reflexivity|].
  intros c [= <-]. split; [done|]. by apply until_nul_is_cstr.
Qed.

Lemma set_response_twice p q (x : @IHTTPContext HM) : set_response p (set_response q x) = set_response p x.
Proof. by destruct x. Qed.

(** The states in which [GetResponseData] ends. *)
Lemma ok_data cur s a x p n q1 q2 : http_ok cur s -> h_contexts s !! a = Some x -> response_of x = Some p ->
  plugin_ok n -> http_part n = http_part (h_json s) -> (forall b, body_rep p b -> body_rep q2 b) ->
  http_ok cur (set_h_json n (set_h_contexts (<[a := set_response q2 (set_response q1 x)]> (<[a := set_response q1 x]> (h_contexts s))) s)).
Proof.
  intros Hs Hx Hp Hn Hpart Hq. rewrite insert_insert_eq, set_response_twice.
  apply http_ok_json; [|done|done]. eapply ok_response; [done..|]. destruct (ho_bodies _ _ Hs a x p Hx Hp) as (b & Hb & Hby).
  exists b. auto.
Qed.
End http_safe.
