(* ===== verification/HttpSessions.v ===== *)
(** * Sessions of plugins with HTTP

    Responses, the completion of requests and the end of contexts keep the
    invariant of HttpSafe; every native does; hence every session in which a
    plugin calls natives and closes handles while transfers proceed and
    complete is safe. *)

From stdpp Require Import gmultiset.
From Stdlib Require Import SpecFloat.
From S2P Require Import Prelude Strbuffer Value Refcount ValueSpec Client Error Strconv Load Dump Grammar Tree Print Views Dumps Decode.
From S2P Require Import Natives Plugin Sessions Curl Http HttpFacts HttpNatives HttpSafe.

Section http_sessions.
Context {HS : Type} `{HandleTable HS} {HM : Type} `{HeaderMap HM}.
Abbreviation hstate := (@hstate HS HM).
Abbreviation HN := (ST hstate).
Abbreviation held n := (handle_roots (owned (n_handles n))).
Implicit Types s : hstate.

(* ------------------------------------------------------------------ *)
(** ** Reading responses *)

(** A handle for a decoded value. *)
Lemma create_json_part (n : nstate HS) w d h err hs :
  plugin_ok n -> Inv w (held n ⊎ opt_mset d) ∅ -> CreateHandleEx htJSON (PJSON d) (n_handles n) = ((h, err), hs) ->
  let n' := set_n_handles hs (set_n_world w n) in
  http_part n' = http_part n /\
  if h =? BAD_HANDLE then owned hs ≡ₚ owned (n_handles n) else plugin_ok n'.
Proof.
  intros Hn Hw E n'. pose proof (create_owned _ _ _ _ _ _ E) as Hp. apply create_table in E. subst n'. unfold http_part. cbn.
  destruct (h =? BAD_HANDLE); [by rewrite E|]. destruct E as (Hh & -> & _). split.
  - apply map_filter_insert_not'; [done|]. by rewrite Hh.
  - destruct Hn as [P1 P2 P3 P4 P5]. unfold handle_keys in *. split; cbn in *; unfold handle_keys.
    + by rewrite (handle_roots_perm _ _ Hp), handle_roots_json.
    + rewrite Hp. by constructor.
    + intros k. rewrite Hp. apply P3.
    + by rewrite Hp.
    + done.
Qed.

(** Bodies that can be decoded. *)
Definition bodies_fit (s : hstate) : Prop :=
  forall a x p b, h_contexts s !! a = Some x -> response_of x = Some p -> body_rep p b -> Z.of_nat (length b) < 2 ^ 31.

(** What the body of a response stands for. *)
Definition body_tree (b : bytes) : option json := ref_parse 0 (until_nul b).

Lemma loads_body cur e s a x p b : http_ok cur s -> load_fits (he_env e) (h_json s) ->
  h_contexts s !! a = Some x -> response_of x = Some p -> body_rep p b -> Forall is_byte b -> Z.of_nat (length b) < 2 ^ 31 ->
  exists t, body_text p = inr t /\ forall error,
    wp (json_loads (decimal_point (he_env e)) t 0 (Some error)) (n_world (h_json s))
      (fun r w' => Decode.decoded (n_world (h_json s)) (held (h_json s)) (body_tree b) r.1 r.2 w').
Proof.
  intros Hs Htx Hx Hp Hb Hby Hlen. destruct (body_text_spec p b Hb Hby) as (t & Et & Ht). exists t. split; [done|]. intros error.
  pose proof (po_inv _ (ho_plugin _ _ Hs)) as Hinv. destruct t as [c|].
  - destruct (Ht c eq_refl) as [-> Hc]. pose proof (length_until_nul b).
    destruct (json_loads_spec (decimal_point (he_env e)) 0 (Some error) _ _ _ (ld_point _ _ Htx) Hinv (ld_oom _ _ Htx) Hc ltac:(lia))
      as (r & err & w' & E & Hd). by eapply wp_eq; [exact E|].
  - destruct Hb as [_ Hb]. unfold body_text in Et. destruct (p_body p) as [blk|]; [by destruct (read_cstr blk)|]. subst b.
    unfold json_loads. rewrite wp_ret. split; [done|]. cbn. done.
Qed.

(** How [GetResponseData] answers: with a handle to the tree of the body, or
    with an error that the plugin is told. *)
Definition answers (s : hstate) (o : option json) (r : Z) (s' : hstate) : Prop :=
  match o with
  | Some t =>
      (exists h l, r = int32 h /\ h <> BAD_HANDLE /\ handles (n_handles (h_json s')) !! h = Some (htJSON, PJSON (Some l)) /\
         tree (n_world (h_json s')) (w_next (n_world (h_json s))) l t /\ n_events (h_json s') = n_events (h_json s)) \/
      (r = BAD_HANDLE /\ exists err, n_events (h_json s') = n_events (h_json s) ++ [ThrowNativeError (NoHandle err)])
  | None =>
      r = BAD_HANDLE /\ exists line column text,
        n_events (h_json s') = n_events (h_json s) ++ [ThrowNativeError (InvalidJSON line column text)]
  end.

Lemma h_throw_then_spec cur er (b : Z) s : http_ok cur s ->
  wp (let* _ := h_throw er in ret b) s (fun r s' => r = b /\ http_ok cur s' /\
    n_events (h_json s') = n_events (h_json s) ++ [ThrowNativeError er]).
Proof.
  intros Hs. rewrite wp_bind. eapply in_natives_wp; [done|apply throw_safe, Hs|apply keeps_throw|]. intros a n E Hn. rewrite wp_ret.
  split_and!; [done|done|]. by injection E as _ <-.
Qed.

Lemma decode_body_spec cur e s a x p b : http_ok cur s -> load_fits (he_env e) (h_json s) ->
  h_contexts s !! a = Some x -> response_of x = Some p -> body_rep p b -> Forall is_byte b -> Z.of_nat (length b) < 2 ^ 31 ->
  wp (decode_body e a p) s (fun r s' => http_ok cur s' /\ answers s (body_tree b) r s').
Proof.
  intros Hs Htx Hx Hp Hb Hby Hlen. destruct (loads_body cur e s a x p b Hs Htx Hx Hp Hb Hby Hlen) as (t & Et & Hload).
  unfold decode_body. rewrite wp_bind. eapply wp_lift_res; [exact Et|].
  rewrite wp_bind. unfold in_natives at 1, in_json at 1. rewrite !wp_zoom. eapply wp_mono; [apply Hload|].
  intros [d err] w Hd. cbn [fst snd] in Hd. pose proof (decoded_inv _ _ _ _ _ _ Hd) as Hw. rewrite wp_bind.
  eapply put_response_wp; [exact Hx|exact Hp|]. set (n := set_n_world w (h_json s)). destruct d as [l|].
  2:{ eapply wp_mono; [apply (h_throw_then_spec cur); eapply (ok_response cur (set_h_json n s)); [|exact Hx|exact Hp|by exists b]|].
      - apply http_ok_json; [done| |done]. apply plugin_ok_world; [apply Hs|by apply none_roots].
      - intros r s' (-> & Hs' & Hev). split; [done|]. unfold answers. destruct Hd as [_ Hd]. destruct (body_tree b); [by destruct Hd as (? & ? & _)|].
        split; [done|]. eexists _, _, _. exact Hev. }
  destruct Hd as [_ Hd]. unfold answers. destruct (body_tree b) as [tr|]; [|by destruct Hd]. destruct Hd as (l' & [= <-] & _ & Htree).
  rewrite wp_bind, wp_gets. cbn [h_json set_h_json set_h_contexts n n_handles set_n_world].
  destruct (CreateHandleEx htJSON (PJSON (Some l)) (n_handles (h_json s))) as [[h er] hs] eqn:E.
  destruct (create_json_part _ w _ _ _ _ (ho_plugin _ _ Hs) Hw E) as [Hpart Hc]. apply create_table in E.
  rewrite wp_bind. unfold in_natives at 1. rewrite wp_zoom, wp_modify, wp_bind.
  eapply put_response_wp; [apply lookup_insert_eq|by apply (set_response_context _ _ _ Hp)|]. cbn [h_contexts h_json set_h_json set_h_contexts].
  destruct (Z.eqb_spec h BAD_HANDLE) as [_|Hne].
  - rewrite wp_bind. unfold in_natives at 1, in_json at 1. rewrite !wp_zoom. cbn [h_json set_h_json set_h_contexts n_world set_n_handles].
    eapply wp_mono; [by apply json_decref_opt_spec|]. intros ? w' [Hw' _].
    eapply wp_mono; [apply (h_throw_then_spec cur)|].
    + eapply (ok_data cur s a x p (set_n_handles hs (set_n_world w' (h_json s)))); [done|exact Hx|exact Hp| |exact Hpart|done].
      apply (plugin_ok_world (set_n_handles hs (h_json s))); [by apply plugin_ok_perm; [apply Hs|]|]. cbn. by rewrite (handle_roots_perm _ _ Hc).
    + intros r s' (-> & Hs' & Hev). split; [done|]. right. eauto.
  - rewrite wp_ret. split.
    + eapply (ok_data cur s a x p (set_n_handles hs (set_n_world w (h_json s)))); [done|exact Hx|exact Hp|done|exact Hpart|done].
    + left. exists h, l. destruct E as (_ & E & _). split_and!; [done|done| |done|done]. cbn. rewrite E. apply lookup_insert_eq.
Qed.

Lemma get_data_hsafe cur e s :
  http_ok cur s -> load_fits (he_env e) (h_json s) -> bodies_fit s -> hsafe cur (GetResponseData e) s.
Proof.
  intros Hs Htx Hfit. apply with_response_hsafe; [done|]. intros a x p Hx Hp.
  destruct (hndlData p =? BAD_HANDLE); [|by apply ret_hsafe]. destruct (ho_bodies _ _ Hs a x p Hx Hp) as (b & Hb & Hby).
  eapply wp_mono; [by eapply decode_body_spec, Hfit|]. by intros r s' [? _].
Qed.

Lemma get_status_hsafe cur e s : http_ok cur s -> hsafe cur (GetResponseStatus e) s.
Proof. intros Hs. apply with_response_hsafe; [done|]. intros. by apply ret_hsafe. Qed.
Lemma get_header_hsafe cur e s : http_ok cur s -> hsafe cur (GetResponseHeader e) s.
Proof.
  intros Hs. apply with_response_hsafe; [done|]. intros a x p Hx Hp. destruct (hm_find _ _); [|by apply ret_hsafe].
  by apply then_ret_hsafe, log_hsafe.
Qed.

(* ------------------------------------------------------------------ *)
(** ** Contexts end *)

Lemma nodup_rest (l k : list positive) a : NoDup l -> l ≡ₚ a :: k -> NoDup k /\ a ∉ k.
Proof using. intros Hl Hp. rewrite Hp in Hl. by apply NoDup_cons in Hl as [? ?]. Qed.

(** The lists of the other contexts survive the end of one. *)
Lemma lists_ok_delete (m : gmap positive curl_slist) (xs : gmap positive (@IHTTPContext HM)) a x own :
  xs !! a = Some x -> (forall b y, xs !! b = Some y -> list_at m (context_headers y) (own b)) ->
  (forall b b' p, is_Some (xs !! b) -> is_Some (xs !! b') -> p ∈ own b -> p ∈ own b' -> b = b') ->
  lists_ok (filter (fun c => c.1 ∉ own a) m) (delete a xs).
Proof.
  intros Hx Hown Hdis. exists own. split.
  - intros b y [Hne Hy]%lookup_delete_Some. eapply list_at_mono; [by apply Hown|]. intros p Hp.
    destruct (m !! p) as [c|] eqn:E; [|apply map_lookup_filter_None; by left]. apply map_lookup_filter_Some. split; [done|].
    cbn. intros Hpa. apply Hne. eapply Hdis; eauto.
  - intros b b' p [_ Hb]%lookup_delete_is_Some [_ Hb']%lookup_delete_is_Some. by apply Hdis.
Qed.

(** Deleting a context whose response, if it had one, has no handle any more
    and whose file is closed. *)
Lemma delete_context_spec cur cur' a s n q S : http_ok cur s -> plugin_ok n -> http_part n = http_part (h_json s) ->
  placed cur s ≡ₚ a :: q ++ transferring cur' ++ in_callback cur' ->
  (forall b, b ∈ S ∖ {[a]} <-> b ∈ transferring cur' ++ in_callback cur') ->
  (forall b, b ∈ h_files s <-> b ∈ transferring cur' /\ exists f, h_contexts s !! b = Some (FileContext f)) ->
  (forall h b, http_part (h_json s) !! h = Some (htHTTPResponse, POther b) -> current cur' = Some (b, Some (Some h))) ->
  current cur' = None \/ current cur' = current cur ->
  wp (delete_context a) (set_h_queue q (set_h_sessions S (set_h_json n s))) (fun _ s' => http_ok cur' s').
Proof.
  intros Hs Hn Hpart Hpl HSes HF Hresp Hcur. destruct (nodup_rest _ _ _ (ho_placed _ _ Hs) Hpl) as [Hnd Ha].
  destruct (proj2 (ho_contexts _ _ Hs a)) as [x Hx]; [rewrite Hpl; by left|].
  destruct (ho_lists _ _ Hs) as (own & Hown & Hdis).
  destruct (list_at_owns (h_curl s) (context_headers x) (own a) (Hown a x Hx) (ho_cells _ _ Hs)) as [ds Ho].
  destruct (slist_free_spec _ _ _ _ Ho) as (c & Ec & Hl & Hfr & _).
  unfold delete_context. rewrite wp_bind, wp_gets. cbn [h_contexts set_h_queue set_h_sessions set_h_json]. rewrite wp_bind.
  eapply wp_require; [exact Hx|]. rewrite wp_bind, wp_gets. cbn [h_forwards set_h_queue set_h_sessions set_h_json].
  rewrite bool_decide_true by (by eapply ho_forwards). rewrite wp_bind, wp_modify, wp_bind, wp_modify, wp_bind. unfold in_curl.
  rewrite wp_zoom. eapply wp_eq; [exact Ec|]. rewrite wp_modify.
  assert (Hother : forall b y, delete a (h_contexts s) !! b = Some y -> b <> a /\ h_contexts s !! b = Some y).
  { intros b y [? ?]%lookup_delete_Some. done. }
  assert (Hq : forall b, b ∈ q ++ transferring cur' ++ in_callback cur' -> b <> a) by (by intros b Hb ->).
  destruct Hs. split; cbn; rewrite ?Hpart; try done.
  - intros b h Hc. destruct Hcur as [E|E]; [congruence|]. rewrite E in Hc. destruct (ho_current b h Hc) as (y & Hy & Hr).
    exists y. split; [|done]. apply lookup_delete_Some. split; [|done]. intros <-. apply Ha. rewrite !elem_of_app. right. right.
    unfold in_callback. rewrite E, Hc. by left.
  - intros b y [Hne Hy]%Hother. apply elem_of_difference. split; [eauto|]. intros Ef%elem_of_singleton. apply Hne. eauto.
  - intros b b' y y' [_ Hy]%Hother [_ Hy']%Hother. eauto.
  - intros b y p [_ Hy]%Hother. eauto.
  - rewrite Hl. by eapply lists_ok_delete.
  - intros b. change (is_Some (delete a (h_contexts s) !! b) <-> b ∈ q ++ transferring cur' ++ in_callback cur').
    rewrite lookup_delete_is_Some, ho_contexts, Hpl, elem_of_cons. naive_solver.
  - intros b. rewrite HF. split; [|naive_solver]. intros [HT [f Hf]]. split; [done|]. exists f. apply lookup_delete_Some. split; [|done].
    intros <-. apply Ha. set_solver.
  - intros b y [_ Hy]%Hother. eauto.
  - intros b h Hc. destruct Hcur as [E|E]; [congruence|]. rewrite E in Hc. eauto.
  - intros p. rewrite Hl, Hfr. intros [d Hp]. apply map_lookup_filter_Some in Hp as [Hp _]. eauto.
  - intros b Hb. apply ho_fresh. destruct Hb as [?|[?|[Hb|Hb]]]; [auto..| |].
    + apply lookup_delete_is_Some in Hb as [_ ?]. auto.
    + apply elem_of_difference in Hb as [? _]. auto.
Qed.

(* ------------------------------------------------------------------ *)
(** ** Requests start *)

Definition with_transfer (a : positive) (cur : stage) : stage :=
  {| transferring := a :: transferring cur; current := current cur |}.

(** The first request of the queue becomes a transfer. *)
Lemma ok_start cur a q s F : http_ok cur s -> h_queue s = a :: q ->
  (forall b, b ∈ F <-> b ∈ h_files s \/ b = a /\ exists f, h_contexts s !! b = Some (FileContext f)) ->
  http_ok (with_transfer a cur) (set_h_files F (set_h_sessions ({[a]} ∪ h_sessions s) (set_h_queue q s))).
Proof.
  intros Hs Eq HF. assert (Hp : placed cur s ≡ₚ placed (with_transfer a cur) (set_h_queue q s)).
  { unfold placed. cbn. rewrite Eq. cbn. apply Permutation_middle. }
  destruct Hs. split; cbn; try done.
  - change (NoDup (placed (with_transfer a cur) (set_h_queue q s))). by rewrite <- Hp.
  - intros b. change (is_Some (h_contexts s !! b) <-> b ∈ placed (with_transfer a cur) (set_h_queue q s)). rewrite <- Hp. apply ho_contexts.
  - intros b. rewrite elem_of_union, elem_of_singleton, ho_sessions, elem_of_cons. done.
  - intros b. rewrite HF, ho_files, elem_of_cons. naive_solver.
Qed.

Lemma pop_session_id (s : hstate) q : set_h_queue q s = set_h_queue q (set_h_sessions (h_sessions s) (set_h_json (h_json s) s)).
Proof using. by destruct s. Qed.
Lemma files_id (s : hstate) : set_h_files (h_files s) s = s.
Proof using. by destruct s. Qed.

Lemma tell_plugin (n : nstate HS) ev : plugin_ok n -> wp (tell ev) n (fun _ n' => plugin_ok n' /\ http_part n' = http_part n).
Proof. intros []. unfold tell. rewrite wp_modify. split; [by split|done]. Qed.

(** [InitCurl] failed, with or without a session, and said so. *)
Lemma drop_spec cur a q s n S : http_ok cur s -> h_queue s = a :: q -> plugin_ok n -> http_part n = http_part (h_json s) ->
  S ∖ {[a]} = h_sessions s ->
  wp (delete_context a) (set_h_queue q (set_h_sessions S (set_h_json n s))) (fun _ s' => http_ok cur s').
Proof.
  intros Hs Eq Hn Hpart HSes. eapply (delete_context_spec cur cur); [done|done|done| | | | |by right].
  - unfold placed. by rewrite Eq.
  - intros b. rewrite HSes. apply (ho_sessions _ _ Hs).
  - apply (ho_files _ _ Hs).
  - apply (ho_response _ _ Hs).
Qed.

Lemma start_request_spec cur ca ua session file s : http_ok cur s -> h_queue s <> [] ->
  wp (start_request ca ua session file) s (fun r s' =>
    match r with Some a => http_ok (with_transfer a cur) s' | None => http_ok cur s' end).
Proof.
  intros Hs Hq. unfold start_request. rewrite wp_bind, wp_gets. destruct (h_queue s) as [|a q] eqn:Eq; [done|].
  rewrite wp_bind, wp_modify, wp_bind. unfold InitCurl. rewrite wp_bind, wp_gets, wp_bind. cbn [h_contexts set_h_queue].
  assert (Hin : a ∈ placed cur s) by (unfold placed; rewrite Eq; by left).
  destruct (proj2 (ho_contexts _ _ Hs a) Hin) as [x Hx]. eapply wp_require; [exact Hx|]. unfold easy_init. rewrite wp_bind.
  assert (Hnew : a ∉ h_sessions s).
  { rewrite (ho_sessions _ _ Hs). pose proof (ho_placed _ _ Hs) as Hnd. unfold placed in Hnd. rewrite Eq in Hnd. cbn in Hnd.
    apply NoDup_cons in Hnd as [Hnd _]. set_solver. }
  destruct session.
  - rewrite wp_bind, wp_gets, wp_bind, wp_modify, wp_ret. cbn [h_sessions set_h_queue].
    destruct x as [x|f|m].
    + rewrite wp_ret, wp_ret. rewrite <- (files_id (set_h_sessions _ _)). apply ok_start; [done|done|]. cbn. naive_solver.
    + destruct file as [size|].
      * rewrite wp_bind, wp_gets, wp_bind, wp_modify, wp_ret. cbn [file_InitCurl]. rewrite wp_ret. cbn [h_files set_h_sessions set_h_queue].
        apply ok_start; [done|done|]. intros b. rewrite elem_of_union, elem_of_singleton. naive_solver.
      * rewrite wp_bind. unfold in_natives. rewrite wp_zoom. eapply wp_mono; [apply tell_plugin, Hs|]. intros ? n [Hn Hpart].
        rewrite wp_ret, wp_bind. eapply wp_mono; [apply (drop_spec cur a q s n ({[a]} ∪ h_sessions s)); [done..|set_solver]|].
        intros ? s' Hs'. by rewrite wp_ret.
    + rewrite wp_ret, wp_ret. rewrite <- (files_id (set_h_sessions _ _)). apply ok_start; [done|done|]. cbn. naive_solver.
  - rewrite wp_bind. unfold in_natives. rewrite wp_zoom. eapply wp_mono; [apply tell_plugin, Hs|]. intros ? n [Hn Hpart].
    rewrite wp_ret, wp_ret, wp_bind.
    eapply wp_mono; [apply (drop_spec cur a q s n (h_sessions s)); [done..|set_solver]|]. intros ? s' Hs'. by rewrite wp_ret.
Qed.

(* ------------------------------------------------------------------ *)
(** ** Requests complete *)

Definition in_call (T : list positive) (a : positive) (called : option (option Z)) : stage :=
  {| transferring := T; current := Some (a, called) |}.

(** A transfer is over; the callback has no response yet. *)
Lemma ok_over cur T a called s F : http_ok cur s -> current cur = None -> transferring cur ≡ₚ a :: T -> called = None \/ called = Some None ->
  (forall b, b ∈ F <-> b ∈ h_files s /\ b <> a) -> http_ok (in_call T a called) (set_h_files F s).
Proof.
  intros Hs Hc HT Hcalled HF.
  assert (Hp : placed cur s ≡ₚ placed (in_call T a called) s).
  { unfold placed, in_callback. rewrite Hc, HT. cbn. by rewrite app_nil_r, (Permutation_cons_append T a). }
  assert (HaT : a ∉ T).
  { pose proof (ho_placed _ _ Hs) as Hnd. unfold placed in Hnd. apply NoDup_app in Hnd as (_ & _ & Hnd). apply NoDup_app in Hnd as [Hnd _].
    rewrite HT in Hnd. by apply NoDup_cons in Hnd as [? _]. }
  destruct Hs. split; cbn; try done.
  - intros h b Hh. apply ho_response in Hh. congruence.
  - intros b h E. destruct Hcalled; congruence.
  - change (NoDup (placed (in_call T a called) s)). by rewrite <- Hp.
  - intros b. change (is_Some (h_contexts s !! b) <-> b ∈ placed (in_call T a called) s). rewrite <- Hp. apply ho_contexts.
  - intros b. rewrite ho_sessions. unfold in_callback. rewrite Hc, HT. cbn. set_solver.
  - intros b. rewrite HF, ho_files, HT, elem_of_cons. split; [naive_solver|]. intros [Hb Hf]. split; [naive_solver|]. by intros ->.
  - intros b h E. destruct Hcalled; congruence.
Qed.

(** The response gets its handle. *)
Lemma ok_response_handle T a h n x p s : http_ok (in_call T a None) s -> h_contexts s !! a = Some x -> response_of x = Some p ->
  plugin_ok n -> http_part (h_json s) !! h = None -> uint32 h = h ->
  http_part n = <[h := (htHTTPResponse, POther a)]> (http_part (h_json s)) ->
  http_ok (in_call T a (Some (Some h))) (set_h_json n s).
Proof.
  intros Hs Hx Hp Hn Hh Hu Hpart. pose proof (part_new s h htHTTPResponse a n Hpart Hh) as Hnew. clear Hpart.
  assert (Hno : forall h' b, http_part (h_json s) !! h' <> Some (htHTTPResponse, POther b)).
  { intros h' b Hb. apply (ho_response _ _ Hs) in Hb. discriminate Hb. }
  destruct Hs. split; cbn; try done; try (intros * Hy%Hnew; naive_solver).
  - intros b. rewrite ho_clients. setoid_rewrite Hnew. naive_solver.
  - intros b. rewrite ho_requests. setoid_rewrite Hnew. naive_solver.
  - intros b h' [= <- <-]. exists x. by rewrite Hp.
  - intros b h' [= <- <-]. done.
Qed.

Lemma begin_spec cur T a functions code s : http_ok cur s -> current cur = None -> transferring cur ≡ₚ a :: T ->
  wp (OnCompleted_begin a functions code) s (fun called s' => http_ok (in_call T a called) s').
Proof.
  intros Hs Hc HT. unfold OnCompleted_begin. rewrite wp_bind, wp_gets, wp_bind.
  assert (Hin : a ∈ transferring cur) by (rewrite HT; by left).
  destruct (proj2 (ho_contexts _ _ Hs a)) as [x Hx]; [unfold placed; set_solver|]. eapply wp_require; [exact Hx|]. rewrite wp_bind.
  destruct (response_of x) as [p|] eqn:Hp.
  - assert (match x with FileContext _ => close_file a | _ => ret tt end = ret tt) as -> by (by destruct x). rewrite wp_ret.
    assert (Hfile : forall b, b ∈ h_files s <-> b ∈ h_files s /\ b <> a).
    { intros b. split; [|by intros [? _]]. intros Hb. split; [done|]. intros ->. apply (ho_files _ _ Hs) in Hb as [_ [f Hf]].
      rewrite Hx in Hf. injection Hf as ->. discriminate Hp. }
    destruct (functions =? 0).
    { rewrite wp_ret, <- (files_id s). eapply ok_over; eauto. }
    rewrite wp_bind. eapply put_response_wp; [done|done|]. set (s1 := set_h_contexts _ s).
    assert (Hs1 : http_ok (in_call T a None) s1).
    { rewrite <- (files_id s1). eapply ok_over; [|done|done|by left|done]. eapply ok_response; [done..|].
      destruct (ho_bodies _ _ Hs a x p Hx Hp) as (b & Hb & Hby). by exists b. }
    rewrite wp_bind, wp_gets. destruct (CreateHandleEx htHTTPResponse (POther a) (n_handles (h_json s1))) as [[h err] hs] eqn:E.
    apply create_part in E as [Hn Hpart]; [|done|apply Hs1]. rewrite wp_bind. unfold in_natives at 1. rewrite wp_zoom, wp_modify.
    destruct (h =? BAD_HANDLE).
    + rewrite wp_bind. eapply wp_mono; [apply (log_hsafe (in_call T a None)); by apply http_ok_json|]. intros ? s' Hs'. by rewrite wp_ret.
    + rewrite wp_ret. destruct Hpart as (Hh & Hpart & Hu). eapply ok_response_handle; [done| |by apply (set_response_context _ _ _ Hp)|done..].
      cbn. apply lookup_insert_eq.
  - destruct x as [x|f|m]; try discriminate Hp. unfold close_file. rewrite wp_bind, wp_gets.
    rewrite bool_decide_true by (apply (ho_files _ _ Hs); eauto). rewrite wp_modify.
    destruct (functions =? 0); rewrite wp_ret; (eapply ok_over; [done..|auto|]); intros b; by rewrite elem_of_difference, elem_of_singleton.
Qed.

(** No response has a handle once the callback is over. *)
Lemma end_spec T a called s : http_ok (in_call T a called) s ->
  wp (OnCompleted_end a called) s (fun _ s' => http_ok (in_call T a called) s' /\
    forall h b, http_part (h_json s') !! h <> Some (htHTTPResponse, POther b)).
Proof.
  intros Hs. destruct called as [[h|]|]; cbn [OnCompleted_end].
  2,3: rewrite wp_ret; split; [done|]; intros h b Hb; apply (ho_response _ _ Hs) in Hb; discriminate Hb.
  destruct (ho_current _ _ Hs a h eq_refl) as (x & Hx & [p Hp]). rewrite wp_bind. eapply wp_mono; [by apply free_handle_spec|].
  intros ? s1 (Hs1 & Ec1 & Ep1). rewrite (ho_callback _ _ Hs a h eq_refl) in Ep1. rewrite wp_bind. unfold get_response. rewrite wp_bind, wp_gets, wp_bind.
  rewrite <- Ec1 in Hx. eapply wp_require; [exact Hx|]. eapply wp_require; [exact Hp|]. eapply wp_mono; [by apply free_handle_spec|].
  intros ? s2 (Hs2 & _ & Ep2). split; [done|]. intros h' b Hb. rewrite Ep2, Ep1 in Hb. apply lookup_delete_Some in Hb as [_ Hb].
  apply lookup_delete_Some in Hb as [Hne Hb]. apply (ho_response _ _ Hs) in Hb. injection Hb as _ E. by apply Hne.
Qed.

Definition idle (T : list positive) : stage := {| transferring := T; current := None |}.
Lemma complete_spec T a called s : http_ok (in_call T a called) s ->
  wp (OnCompleted_end a called ;;; delete_context a) s (fun _ s' => http_ok (idle T) s').
Proof.
  intros Hs. rewrite wp_bind. eapply wp_mono; [by apply end_spec|]. intros ? s1 [Hs1 Hno].
  replace s1 with (set_h_queue (h_queue s1) (set_h_sessions (h_sessions s1) (set_h_json (h_json s1) s1))) at 1 by (by destruct s1).
  assert (Hp : placed (in_call T a called) s1 ≡ₚ a :: h_queue s1 ++ T ++ []).
  { unfold placed. cbn. rewrite app_nil_r, app_assoc, (Permutation_app_comm _ [a]). done. }
  destruct (nodup_rest _ _ _ (ho_placed _ _ Hs1) Hp) as [_ Ha].
  eapply (delete_context_spec (in_call T a called) (idle T)); [done|apply Hs1|done|done| | | |by left].
  - intros b. rewrite elem_of_difference, (ho_sessions _ _ Hs1). cbn. set_solver.
  - apply (ho_files _ _ Hs1).
  - intros h b Hb. by apply Hno in Hb.
Qed.

(* ------------------------------------------------------------------ *)
(** ** Transfers proceed *)

(** A context that receives a response. *)
Definition receives (s : hstate) (a : positive) (p : @HTTPResponse HM) : Prop :=
  exists x, h_contexts s !! a = Some x /\ response_of x = Some p.

Lemma get_response_wp s a x p (Q : @HTTPResponse HM -> hstate -> Prop) :
  h_contexts s !! a = Some x -> response_of x = Some p -> Q p s -> wp (get_response a) s Q.
Proof using.
  intros Hx Hp HQ. unfold get_response. rewrite wp_bind, wp_gets, wp_bind. eapply wp_require; [exact Hx|]. by eapply wp_require; [exact Hp|].
Qed.

Lemma on_body_hsafe cur a chunk p s : http_ok cur s -> receives s a p -> Forall is_byte chunk ->
  p_size p + Z.of_nat (length chunk) <= BODY_LIMIT -> hsafe cur (on_body a chunk) s.
Proof.
  intros Hs (x & Hx & Hp) Hby Hlim. destruct (ho_bodies _ _ Hs a x p Hx Hp) as (b & Hb & Hbb). unfold hsafe, on_body.
  rewrite wp_bind. eapply get_response_wp; [done|done|]. rewrite wp_bind. unfold in_curl. rewrite wp_zoom.
  eapply wp_mono; [apply write_body_spec; [exact Hb|destruct Hb as [<- _]; done]|]. intros [r p'] c (Hal & Hcases).
  rewrite wp_bind. eapply put_response_wp; [done|done|]. rewrite wp_ret. eapply (ok_response cur (set_h_curl c s)); [by apply ok_allocs|done|done|].
  destruct Hcases as [(_ & Hb' & _)|(_ & -> & _)]; [exists (b ++ chunk)|by exists b]. split; [done|]. by apply Forall_app.
Qed.

(** A header line of at least its line end is read within the buffer. *)
Lemma strncat_total n mem : (n <= length mem)%nat -> exists t, strncat_src (Z.of_nat n) mem = inr t /\ (length t <= n)%nat.
Proof using.
  revert n. induction mem as [|c mem IH]; intros [|n] Hn; cbn in Hn; try lia; [by exists []..|].
  cbn [strncat_src]. rewrite (proj2 (Z.eqb_neq _ _)) by lia. destruct (c =? 0); [exists []; cbn; split; [done|lia]|].
  replace (Z.of_nat (S n) - 1) with (Z.of_nat n) by lia. destruct (IH n) as (t & -> & Ht); [lia|]. exists (c :: t). cbn. split; [done|lia].
Qed.
Lemma receive_header_total (buffer : bytes) n (p : @HTTPResponse HM) : 2 <= n <= Z.of_nat (length buffer) -> n <= CURL_MAX_HTTP_HEADER ->
  exists p', ReceiveResponseHeader buffer 1 n p = inr (n, p') /\ p_body p' = p_body p /\ p_size p' = p_size p.
Proof using.
  intros Hn Hmax. unfold ReceiveResponseHeader, strncat_header, CURL_MAX_HTTP_HEADER in *. rewrite Z.mul_1_l.
  rewrite !(size_t_small n) by (unfold SIZE_MAX; lia). rewrite size_t_small by (unfold SIZE_MAX; lia).
  destruct (strncat_total (Z.to_nat (n - 2)) buffer) as (t & Et & Ht); [lia|]. rewrite Z2Nat.id in Et by lia. rewrite Et.
  rewrite (proj2 (Z.ltb_lt _ _)) by lia. destruct (split_header t) as [[name value]|]; eexists; done.
Qed.
Lemma on_header_hsafe cur a buffer n p s : http_ok cur s -> receives s a p -> 2 <= n <= Z.of_nat (length buffer) -> n <= CURL_MAX_HTTP_HEADER ->
  hsafe cur (on_header a buffer n) s.
Proof.
  intros Hs (x & Hx & Hp) Hn Hmax. unfold hsafe, on_header. rewrite wp_bind. eapply get_response_wp; [done|done|].
  destruct (receive_header_total buffer n p Hn Hmax) as (p' & E & Eb & Es). rewrite wp_bind. eapply wp_lift_res; [exact E|].
  rewrite wp_bind. eapply put_response_wp; [done|done|]. rewrite wp_ret. eapply ok_response; [done..|].
  destruct (ho_bodies _ _ Hs a x p Hx Hp) as (b & Hb & Hbb). exists b. split; [|done]. unfold body_rep. by rewrite Eb, Es.
Qed.

Lemma read_upload n u : upload_ok u -> 0 <= n <= SIZE_MAX ->
  exists r u', ReadRequestBody 1 n u = inr (r, u') /\ upload_ok u'.
Proof using.
  intros Hu Hn. unfold upload_ok in Hu. destruct (u_body u) as [b|] eqn:Eb.
  - destruct Hu as [i Hu]. destruct (read_body_spec n u b i Hu Hn) as (u' & E & Hu'). eexists _, u'. split; [exact E|].
    unfold upload_ok. pose proof Hu' as (-> & _). eauto.
  - destruct Hu as [E1 E2]. unfold ReadRequestBody. rewrite E1, E2, Z.mul_1_l, (size_t_small n) by done.
    change (size_t (0 - 0)) with 0.
    assert ((if 0 <? n then 0 else n) = 0) as -> by (destruct (Z.ltb_spec 0 n); lia).
    eexists _, _. split; [reflexivity|]. unfold upload_ok. cbn. by rewrite Eb.
Qed.

(** A context changes in what the invariant does not look at. *)
Lemma ok_upload cur s a x u : http_ok cur s -> h_contexts s !! a = Some (RequestContext x) -> upload_ok u ->
  http_ok cur (set_h_contexts (<[a := RequestContext (with_upload u x)]> (h_contexts s)) s).
Proof.
  intros Hs Ha Hu. set (y := RequestContext (with_upload u x)).
  assert (Hlook : forall b z, <[a := y]> (h_contexts s) !! b = Some z -> b = a /\ z = y \/ h_contexts s !! b = Some z).
  { intros b z [[<- <-]|[_ Hz]]%lookup_insert_Some; auto. }
  assert (Hd : forall b, is_Some (<[a := y]> (h_contexts s) !! b) <-> is_Some (h_contexts s !! b)).
  { intros b. rewrite lookup_insert_is_Some'. split; [intros [<-|?]; [by eexists|done]|by right]. }
  destruct Hs. split; cbn; try done.
  - intros b h Hc. destruct (ho_current b h Hc) as (z & Hz & Hr). destruct (decide (b = a)) as [->|Hne].
    + exists y. by rewrite lookup_insert_eq.
    + exists z. by rewrite lookup_insert_ne.
  - intros b z [[-> ->]|Hz]%Hlook; [exact (ho_forwards _ _ Ha)|eauto].
  - intros b b' z z' [[-> ->]|Hz]%Hlook [[-> ->]|Hz']%Hlook E; [done|exact (ho_forward_once _ _ _ _ Ha Hz' E)|exact (ho_forward_once _ _ _ _ Hz Ha E)|eauto].
  - intros b z p [[-> ->]|Hz]%Hlook; [exact (ho_bodies a _ p Ha)|eauto].
  - destruct ho_lists as (own & Hown & Hdis). exists own. split.
    + intros b z [[-> ->]|Hz]%Hlook; [exact (Hown a _ Ha)|eauto].
    + intros b b' p. rewrite !Hd. apply Hdis.
  - intros b. rewrite Hd. apply ho_contexts.
  - intros b. rewrite ho_files. assert (Hk : forall f, <[a := y]> (h_contexts s) !! b = Some (FileContext f) <-> h_contexts s !! b = Some (FileContext f)).
    { intros f. destruct (decide (b = a)) as [->|Hne]; [by rewrite lookup_insert_eq, Ha|by rewrite lookup_insert_ne]. }
    by setoid_rewrite Hk.
  - intros b z [[-> E]|Hz]%Hlook; [by injection E as ->|eauto].
  - intros b. rewrite Hd. apply ho_fresh.
Qed.
Lemma on_read_hsafe cur a n x s : http_ok cur s -> h_contexts s !! a = Some (RequestContext x) -> 0 <= n <= SIZE_MAX -> hsafe cur (on_read a n) s.
Proof.
  intros Hs Hx Hn. unfold hsafe, on_read. rewrite wp_bind, wp_gets, wp_bind. eapply wp_require; [exact Hx|].
  destruct (read_upload n _ (ho_uploads _ _ Hs a x Hx) Hn) as (r & u & E & Hu). rewrite wp_bind. eapply wp_lift_res; [exact E|].
  rewrite wp_bind, wp_modify, wp_ret. by apply ok_upload.
Qed.

(* ------------------------------------------------------------------ *)
(** ** Every native *)

Definition is_http_encoder (name : string) : bool :=
  existsb (String.eqb name)
    ["HTTPClient.Post"; "HTTPClient.Put"; "HTTPClient.Patch"; "HTTPRequest.Post"; "HTTPRequest.Put"; "HTTPRequest.Patch"]%string.

(** A call of an HTTP native a plugin may make in the state [s]. *)
Record http_native_ok (s : hstate) (name : string) (e : henv) : Prop := {
  hn_fits : http_call_fits e s;
  hn_dumps : is_http_encoder name = true -> dump_fits (he_env e) (h_json s);
  hn_bodies : name = "HTTPResponse.Data.get"%string -> load_fits (he_env e) (h_json s) /\ bodies_fit s
}.

Lemma http_native_safe cur s name f e :
  http_ok cur s -> (name, f) ∈ http_natives -> http_native_ok s name e -> hsafe cur (f e) s.
Proof.
  intros Hs Hin [Hfit Hdu Hb]. unfold http_natives in Hin.
  repeat (apply elem_of_cons in Hin as [[= -> ->]|Hin]); [..|by apply elem_of_nil in Hin].
  all: cbn [is_http_encoder existsb String.eqb Ascii.eqb Bool.eqb orb] in Hdu.
  - by apply create_client_hsafe.
  - by apply set_client_hsafe.
  - by apply client_plain_hsafe.
  - apply client_data_hsafe; [done|by apply Hdu].
  - apply client_data_hsafe; [done|by apply Hdu].
  - apply client_data_hsafe; [done|by apply Hdu].
  - by apply client_plain_hsafe.
  - apply with_client_hsafe; [done|]. intros. by apply then_ret_hsafe, client_file_hsafe.
  - apply with_client_hsafe; [done|]. intros. by apply then_ret_hsafe, client_file_hsafe.
  - by apply get_client_hsafe.
  - by apply set_client_hsafe.
  - by apply get_client_hsafe.
  - by apply set_client_hsafe.
  - by apply get_client_hsafe.
  - by apply set_client_hsafe.
  - by apply get_client_hsafe.
  - by apply set_client_hsafe.
  - by apply get_client_hsafe.
  - by apply set_client_hsafe.
  - by apply create_request_hsafe.
  - by apply append_form_hsafe.
  - by apply append_query_hsafe.
  - by apply set_request_hsafe.
  - by apply set_header_hsafe.
  - by apply perform_plain_hsafe.
  - apply perform_data_hsafe; [done|by apply Hdu].
  - apply perform_data_hsafe; [done|by apply Hdu].
  - apply perform_data_hsafe; [done|by apply Hdu].
  - by apply perform_plain_hsafe.
  - by apply perform_file_hsafe.
  - by apply perform_file_hsafe.
  - by apply post_form_hsafe.
  - by apply get_request_hsafe.
  - by apply set_request_hsafe.
  - by apply get_request_hsafe.
  - by apply set_request_hsafe.
  - by apply get_request_hsafe.
  - by apply set_request_hsafe.
  - by apply get_request_hsafe.
  - by apply set_request_hsafe.
  - by apply get_request_hsafe.
  - by apply set_request_hsafe.
  - apply get_data_hsafe; [done|by apply Hb|by apply Hb].
  - by apply get_status_hsafe.
  - by apply get_header_hsafe.
Qed.

(** The JSON natives and the rest of the state do not meet. *)
Lemma json_native_hsafe cur s name f e :
  http_ok cur s -> (name, f) ∈ json_natives -> native_ok (h_json s) name e ->
  hsafe cur (in_natives (f e)) s \/
  (name = "JSONObjectKeys.ReadKey"%string /\ stale_keys (h_json s) e /\ in_natives (f e) s = inl UndefinedBehaviour).
Proof.
  intros Hs Hin Hok. destruct (native_cases (h_json s) name f e) as [Hsafe|(-> & Hst & E)]; [apply Hs|done|done| |].
  - left. eapply in_natives_wp; [done|exact Hsafe|by eapply json_native_keeps|done].
  - right. split_and!; [done|done|]. unfold in_natives, zoom. by rewrite E.
Qed.

(* ------------------------------------------------------------------ *)
(** ** Sessions *)

(** What happens: calls of plugins, and what the two threads do with requests.
    Transfers change contexts that no native refers to, so that the moves of
    the two threads between their uses of the queues can be taken one by one. *)
Inductive hop : Type :=
| JsonNative (name : string) (f : env -> ST (nstate HS) Z) (e : env)
| HttpNative (name : string) (f : henv -> HN Z) (e : henv)
| Close (hndl : Z)
| Start (caBundlePath user_agent : bytes) (session : bool) (file : option Z)
| ReceiveBody (a : positive) (chunk : bytes)
| ReceiveHeader (a : positive) (buffer : bytes) (n : Z)
| SendBody (a : positive) (n : Z)
| BeginCallback (a : positive) (functions code : Z)
| EndCallback.

(** The transfers without that of [a]. *)
Definition without (a : positive) (T : list positive) : list positive := filter (fun b => b <> a) T.

(** When it can happen: natives can be called with the arguments that the
    library is made for, requests are started when there are some, libcurl
    calls back for transfers, one callback runs at a time. *)
Definition enabled (cur : stage) (s : hstate) (o : hop) : Prop :=
  match o with
  | JsonNative name f e => (name, f) ∈ json_natives /\ native_ok (h_json s) name e
  | HttpNative name f e => (name, f) ∈ http_natives /\ http_native_ok s name e
  | Close _ => True
  | Start _ _ _ _ => h_queue s <> []
  | ReceiveBody a chunk =>
      a ∈ transferring cur /\ exists p, receives s a p /\ Forall is_byte chunk /\ p_size p + Z.of_nat (length chunk) <= BODY_LIMIT
  | ReceiveHeader a buffer n =>
      a ∈ transferring cur /\ (exists p, receives s a p) /\ 2 <= n <= Z.of_nat (length buffer) /\ n <= CURL_MAX_HTTP_HEADER
  | SendBody a n => a ∈ transferring cur /\ (exists x, h_contexts s !! a = Some (RequestContext x)) /\ 0 <= n <= SIZE_MAX
  | BeginCallback a _ _ => a ∈ transferring cur /\ current cur = None
  | EndCallback => current cur <> None
  end.

(** What it does, and where the contexts are then. *)
Definition happen (cur : stage) (o : hop) : HN stage :=
  match o with
  | JsonNative _ f e => in_natives (f e) ;;; ret cur
  | HttpNative _ f e => f e ;;; ret cur
  | Close h => h_FreeHandle h ;;; ret cur
  | Start ca ua session file =>
      let* r := start_request ca ua session file in
      ret (match r with Some a => with_transfer a cur | None => cur end)
  | ReceiveBody a chunk => on_body a chunk ;;; ret cur
  | ReceiveHeader a buffer n => on_header a buffer n ;;; ret cur
  | SendBody a n => on_read a n ;;; ret cur
  | BeginCallback a functions code =>
      let* called := OnCompleted_begin a functions code in ret (in_call (without a (transferring cur)) a called)
  | EndCallback =>
      match current cur with
      | Some (a, called) => OnCompleted_end a called ;;; delete_context a ;;; ret (idle (transferring cur))
      | None => fail UndefinedBehaviour
      end
  end.

Definition h_init (oom : oracle) (entropy : Z) (coom : oracle) (hs : HS) : hstate := {|
  h_json := n_init oom entropy hs; h_curl := {| c_oom := coom; c_lists := ∅; c_fresh := 1 |};
  h_clients := ∅; h_requests := ∅; h_contexts := ∅; h_forwards := ∅; h_queue := []; h_sessions := ∅; h_files := ∅; h_fresh := 1 |}.

Inductive hsession (s0 : hstate) : stage -> hstate -> Prop :=
| hsession_start : hsession s0 (idle []) s0
| hsession_step cur s o cur' s' :
    hsession s0 cur s -> enabled cur s o -> happen cur o s = inr (cur', s') -> hsession s0 cur' s'.

Lemma without_perm a T : NoDup T -> a ∈ T -> T ≡ₚ a :: without a T.
Proof using.
  intros Hnd Ha. apply NoDup_Permutation; [done| |].
  - constructor; [|by apply NoDup_filter]. intros Hin. by apply list_elem_of_filter in Hin as [? _].
  - intros b. rewrite elem_of_cons. unfold without. rewrite list_elem_of_filter. destruct (decide (b = a)) as [->|]; naive_solver.
Qed.

Lemma then_stage {A} cur (m : HN A) s : hsafe cur m s -> wp (m ;;; ret cur) s (fun cur' s' => http_ok cur' s').
Proof. intros Hm. rewrite wp_bind. eapply wp_mono; [exact Hm|]. intros ? s' Hs'. by rewrite wp_ret. Qed.

(** The one call that fails: a key is read with a stale position. *)
Definition reads_stale_key (s : hstate) (o : hop) : Prop :=
  match o with JsonNative name _ e => name = "JSONObjectKeys.ReadKey"%string /\ stale_keys (h_json s) e | _ => False end.

Lemma happen_ok cur s o : http_ok cur s -> enabled cur s o ->
  wp (happen cur o) s (fun cur' s' => http_ok cur' s') \/ (reads_stale_key s o /\ happen cur o s = inl UndefinedBehaviour).
Proof.
  intros Hs Ho. destruct o as [name f e| | | | | | | |] eqn:Eo.
  1:{ destruct Ho as [Hin Hok]. destruct (json_native_hsafe cur s name f e Hs Hin Hok) as [Hsafe|(Hn & Hst & E)].
      - left. by apply then_stage.
      - right. split; [done|]. cbn [happen]. unfold bind. by rewrite E. }
  all: left; cbn [happen enabled] in *.
  - destruct Ho. apply then_stage. by eapply http_native_safe.
  - apply then_stage. by apply free_handle_hsafe.
  - rewrite wp_bind. eapply wp_mono; [by apply start_request_spec|]. intros [a|] s' Hs'; by rewrite wp_ret.
  - destruct Ho as (_ & p & Hp & Hby & Hlim). apply then_stage. by eapply on_body_hsafe.
  - destruct Ho as (_ & [p Hp] & Hn & Hmax). apply then_stage. by eapply on_header_hsafe.
  - destruct Ho as (_ & [x Hx] & Hn). apply then_stage. by eapply on_read_hsafe.
  - destruct Ho as [Ha Hc]. rewrite wp_bind. eapply wp_mono; [eapply (begin_spec cur (without a (transferring cur))); [done|done|]|].
    + apply without_perm; [|done]. pose proof (ho_placed _ _ Hs) as Hnd. unfold placed in Hnd.
      apply NoDup_app in Hnd as (_ & _ & Hnd). by apply NoDup_app in Hnd as [? _].
    + intros called s' Hs'. by rewrite wp_ret.
  - destruct cur as [T [[a called]|]]; [|done]. cbn [current transferring] in *. rewrite wp_bind.
    pose proof (complete_spec T a called s Hs) as Hend. rewrite wp_bind in Hend. eapply wp_mono; [exact Hend|].
    intros ? s1 Hd. rewrite wp_bind. eapply wp_mono; [exact Hd|]. intros ? s2 Hs2. by rewrite wp_ret.
Qed.

Lemma http_ok_init oom entropy coom hs : handles hs = ∅ -> http_ok (idle []) (h_init oom entropy coom hs).
Proof.
  intros Hhs. assert (Hp : http_part (n_init oom entropy hs) = ∅) by (unfold http_part; cbn; by rewrite Hhs, map_filter_empty).
  split; cbn; rewrite ?Hp; try done; try (intros *; rewrite lookup_empty; done).
  - apply plugin_ok_init. by rewrite owned_table, Hhs, map_to_list_empty.
  - intros a. rewrite lookup_empty. split; [by intros [? ?]|]. intros [h Hh]. by rewrite lookup_empty in Hh.
  - intros a. rewrite lookup_empty. split; [by intros [? ?]|]. intros [h Hh]. by rewrite lookup_empty in Hh.
  - exists (fun _ => []). split; [intros a x; by rewrite lookup_empty|]. intros a b p [x Hx]. by rewrite lookup_empty in Hx.
  - constructor.
  - intros a. rewrite lookup_empty. split; [by intros [? ?]|]. by intros ?%elem_of_nil.
  - intros a. split; [set_solver|]. by intros ?%elem_of_nil.
  - intros a. split; [set_solver|]. intros [?%elem_of_nil _]. done.
  - intros a. rewrite !lookup_empty. intros [[? ?]|[[? ?]|[[? ?]|?]]]; try done.
Qed.

Lemma hsession_ok s0 cur s : http_ok (idle []) s0 -> hsession s0 cur s -> http_ok cur s.
Proof.
  intros Hs0. induction 1 as [|cur s o cur' s' _ IH Ho E]; [done|].
  destruct (happen_ok cur s o IH Ho) as [Hw|[_ E']]; [|by rewrite E in E']. unfold wp in Hw. by rewrite E in Hw.
Qed.

(** C6. In every state that plugins, the game's frames and the event loop can
    bring about, with any pattern of allocation failures and refused handles,
    files and sessions, whatever is [enabled] next happens without touching
    freed memory, closing a file twice, freeing a header list or releasing a
    forward twice, and leads to a state in which clients and requests exist
    exactly as long as their handles, responses have a handle only while their
    callback runs, and every context is in exactly one place.  The one
    exception is [ReadKey] on keys whose object or pair is gone, which is
    undefined behaviour.  [enabled] asks that arguments have the sizes the
    library is made for, that a call which decodes has the memory for it, and
    that header lines have at least the two bytes of their end; plugins do not
    clone handles ([HandleTable]).  When no request is left, no session, file
    or response is. *)
Theorem http_plugin_safe oom entropy coom hs cur s :
  handles hs = ∅ -> hsession (h_init oom entropy coom hs) cur s ->
  (forall o, enabled cur s o ->
    (exists cur' s', happen cur o s = inr (cur', s') /\ http_ok cur' s') \/
    (reads_stale_key s o /\ happen cur o s = inl UndefinedBehaviour)) /\
  (placed cur s = [] -> h_contexts s = ∅ /\ h_sessions s = ∅ /\ h_files s = ∅ /\
    forall h a, http_part (h_json s) !! h <> Some (htHTTPResponse, POther a)).
Proof.
  intros Hhs Hs. apply hsession_ok in Hs; [|by apply http_ok_init]. split.
  - intros o Ho. destruct (happen_ok cur s o Hs Ho) as [Hw|Hst]; [left|by right].
    destruct (wp_inv _ _ _ Hw) as (cur' & s' & E & Hs'). by exists cur', s'.
  - intros Hp. unfold placed in Hp. apply app_eq_nil in Hp as [Hq Hp]. pose proof Hp as Hp'. apply app_eq_nil in Hp as [HT Hc]. split_and!.
    + apply map_eq. intros a. rewrite lookup_empty. apply eq_None_not_Some. rewrite (ho_contexts _ _ Hs). unfold placed.
      rewrite Hq, Hp'. by intros ?%elem_of_nil.
    + apply leibniz_equiv. intros a. rewrite (ho_sessions _ _ Hs), Hp'. split; [by intros ?%elem_of_nil|set_solver].
    + apply leibniz_equiv. intros a. rewrite (ho_files _ _ Hs), HT. split; [by intros [?%elem_of_nil _]|set_solver].
    + intros h a Hh. apply (ho_response _ _ Hs) in Hh. unfold in_callback in Hc. by rewrite Hh in Hc.
Qed.

(** A response determines its bytes. *)
Lemma body_rep_inj (p : @HTTPResponse HM) b b' : body_rep p b -> body_rep p b' -> b = b'.
Proof using.
  intros [E Hb] [E' Hb']. assert (El : length b = length b') by lia. destruct (p_body p) as [blk|]; [|by subst].
  destruct Hb as (_ & Hb & _), Hb' as (_ & Hb' & _). rewrite El, Hb' in Hb. by apply (inj (fmap Some)) in Hb.
Qed.

(** C7. A plugin reads what the server sent: when a callback asks for the data
    of its response for the first time, and memory does not run out, the native
    returns a handle to exactly the tree that the received text (up to its first
    NUL) stands for, however it arrived; if the
    text is not JSON, or no handle can be made, the plugin is told so, once,
    and gets no handle. *)
Theorem response_data_decoded oom entropy coom hs cur s e a x p b :
  handles hs = ∅ -> hsession (h_init oom entropy coom hs) cur s ->
  handles (n_handles (h_json s)) !! uint32 (params (he_env e) 1) = Some (htHTTPResponse, POther a) ->
  h_contexts s !! a = Some x -> response_of x = Some p -> hndlData p = BAD_HANDLE -> body_rep p b -> Z.of_nat (length b) < 2 ^ 31 ->
  load_fits (he_env e) (h_json s) ->
  exists r s', GetResponseData e s = inr (r, s') /\ answers s (body_tree b) r s'.
Proof.
  intros Hhs Hs Hh Hx Hp Hnone Hb Hlen Htx. apply hsession_ok in Hs; [|by apply http_ok_init].
  destruct (ho_bodies _ _ Hs a x p Hx Hp) as (b' & Hb' & Hby). rewrite (body_rep_inj p b' b Hb' Hb) in Hby.
  assert (Hw : wp (GetResponseData e) s (fun r s' => http_ok cur s' /\ answers s (body_tree b) r s')).
  { unfold GetResponseData, with_response, read_object. rewrite wp_bind, wp_gets. apply read_table in Hh. rewrite Hh, wp_bind.
    eapply get_response_wp; [exact Hx|exact Hp|]. rewrite Hnone. by eapply decode_body_spec. }
  destruct (wp_inv _ _ _ Hw) as (r & s' & E & _ & Ha). by exists r, s'.
Qed.
End http_sessions.

(* ------------------------------------------------------------------ *)
(** ** A request from its creation to its callback *)

(** Handles are the free slots of a table. *)
Definition slots : Type := gmap Z (HandleType * hobject).
Definition free_slots (hs : slots) : list Z := filter (fun h => hs !! h = None) (Z.of_nat <$> seq 1 (S (size hs))).
#[export] Instance slots_handle_system : HandleSystem slots := {
  CreateHandleEx t o hs :=
    match free_slots hs with
    | h :: _ => if h <? 2 ^ 32 then ((h, 0), <[h := (t, o)]> hs) else ((BAD_HANDLE, 4), hs)
    | [] => ((BAD_HANDLE, 4), hs)
    end;
  ReadHandle h t hs :=
    match hs !! h with
    | Some (t', o) => if decide (t' = t) then inr o else inl 2
    | None => inl 1
    end;
  FreeHandle h hs := (hs !! h, delete h hs);
  owned hs := (map_to_list hs).*2
}.
#[export] Instance slots_handle_table : HandleTable slots.
Proof.
  refine {| handles := fun hs : slots => hs |}.
  - intros t o hs h err hs' E. unfold CreateHandleEx, slots_handle_system in E. destruct (free_slots hs) as [|h' l] eqn:Ef; [by injection E as <- <- <-|].
    assert (Hin : h' ∈ free_slots hs) by (rewrite Ef; by left). apply list_elem_of_filter in Hin as [Hn Hin].
    apply list_elem_of_fmap in Hin as (i & -> & Hi). apply elem_of_seq in Hi.
    destruct (Z.ltb_spec (Z.of_nat i) (2 ^ 32)); injection E as <- <- <-; [|done].
    rewrite (proj2 (Z.eqb_neq _ _)) by (unfold BAD_HANDLE; lia). split_and!; [done|done|lia|done].
  - intros h t hs o. unfold ReadHandle, slots_handle_system, slots in *. destruct (hs !! h) as [[t' o']|] eqn:E; [|split; congruence].
    case_decide; split; congruence.
  - intros h hs o hs' [= <- <-]. done.
  - done.
Defined.

Abbreviation hs_state := (@hstate slots (gmap bytes bytes)).
Definition small_henv (ps : list Z) : henv :=
  {| he_env := simple_env ps (lit "http://h/"); curl_easy_init := true; CreateForwardEx := Some true; FormatString := Some [] |}.
(** A request is created, sent with GET, started, gets the first half of its
    body, and is completed. *)
Definition small_steps : list (@hop slots (gmap bytes bytes)) := [
  HttpNative "HTTPRequest.HTTPRequest" CreateRequest (small_henv [1]);
  HttpNative "HTTPRequest.Get" PerformGetRequest (small_henv [1; 0; 7]);
  Start [] [] true None;
  ReceiveBody 3 (lit "[1]");
  BeginCallback 3 1 200 ].
Fixpoint happen_all (os : list (@hop slots (gmap bytes bytes))) (cs : stage * hs_state) : stage * hs_state :=
  match os with
  | [] => cs
  | o :: os => match happen cs.1 o cs.2 with inr cs => happen_all os cs | inl _ => cs end
  end.
Definition at_step (k : nat) : stage * hs_state := happen_all (take k small_steps) (idle [], h_init [] 5 [] ∅).

Lemma small_call_fits (ps : list Z) (s : hs_state) :
  Forall (fun p => - 2 ^ 31 <= p < 2 ^ 31) ps -> bool_decide (map_Forall (fun _ n => body_roomy (n_body n)) (w_heap (n_world (h_json s)))) = true ->
  (Z.of_nat (size (refs (w_heap (n_world (h_json s))) ⊎ handle_roots (owned (n_handles (h_json s))))) <? 2 ^ 31) = true ->
  http_call_fits (small_henv ps) s.
Proof.
  intros Hps Hb Hsize. split.
  - apply simple_env_fits; [done|by repeat constructor|done|]. apply roomy_small; [by apply bool_decide_eq_true in Hb|by apply Z.ltb_lt].
  - intros t [= <-]. constructor.
Qed.

Lemma small_session : hsession (h_init [] 5 [] ∅) (at_step 5).1 (at_step 5).2.
Proof.
  assert (Hstep : forall k o, nth_error small_steps k = Some o -> enabled (at_step k).1 (at_step k).2 o ->
    happen (at_step k).1 o (at_step k).2 = inr (at_step (S k)) -> hsession (h_init [] 5 [] ∅) (at_step k).1 (at_step k).2 ->
    hsession (h_init [] 5 [] ∅) (at_step (S k)).1 (at_step (S k)).2).
  { intros k o _ Ho E Hs. eapply hsession_step; [exact Hs|exact Ho|]. rewrite E. by destruct (at_step (S k)). }
  apply (Hstep 4%nat (BeginCallback 3 1 200)); [done|split; [vm_compute; by left|done]|vm_compute; reflexivity|].
  apply (Hstep 3%nat (ReceiveBody 3 (lit "[1]"))); [done| |vm_compute; reflexivity|].
  { split; [vm_compute; by left|]. eexists. split; [eexists; split; vm_compute; reflexivity|]. split; [by repeat constructor|vm_compute; discriminate]. }
  apply (Hstep 2%nat (Start [] [] true None)); [done|vm_compute; discriminate|vm_compute; reflexivity|].
  apply (Hstep 1%nat (HttpNative "HTTPRequest.Get" PerformGetRequest (small_henv [1; 0; 7]))); [done| |vm_compute; reflexivity|].
  { split; [unfold http_natives; repeat (first [by left|right])|]. split; [|done|done].
    apply small_call_fits; [repeat constructor; lia|vm_compute; reflexivity|vm_compute; reflexivity]. }
  apply (Hstep 0%nat (HttpNative "HTTPRequest.HTTPRequest" CreateRequest (small_henv [1]))); [done| |vm_compute; reflexivity|constructor].
  split; [unfold http_natives; repeat (first [by left|right])|]. split; [|done|done].
  apply small_call_fits; [repeat constructor; lia|vm_compute; reflexivity|vm_compute; reflexivity].
Qed.

Lemma http_plugin_safe_witness : exists cur' s', happen (at_step 5).1 EndCallback (at_step 5).2 = inr (cur', s') /\ http_ok cur' s'.
Proof.
  destruct (http_plugin_safe [] 5 [] (∅ : slots) (at_step 5).1 (at_step 5).2) as [Hnext _].
  - reflexivity.
  - exact small_session.
  - destruct (Hnext EndCallback) as [Hsafe|[Hst _]]; [vm_compute; discriminate|exact Hsafe|destruct Hst].
Defined.

(** In the callback of the small session. *)
Lemma init_load_fits ps (s : nstate slots) : n_world s = world_init [] 5 -> load_fits (he_env (small_henv ps)) s.
Proof. intros Hw. by split; rewrite ?Hw. Qed.

Lemma response_data_decoded_witness :
  exists r s', GetResponseData (small_henv [1]) (at_step 5).2 = inr (r, s') /\ answers (at_step 5).2 (Some (JArray [JInteger 1])) r s'.
Proof.
  change (Some (JArray [JInteger 1])) with (body_tree (lit "[1]")).
  eapply (response_data_decoded [] 5 [] (∅ : slots) (at_step 5).1 (at_step 5).2 (small_henv [1]) 3 _ _ (lit "[1]")).
  - reflexivity.
  - exact small_session.
  - vm_compute. reflexivity.
  - vm_compute. reflexivity.
  - vm_compute. reflexivity.
  - vm_compute. reflexivity.
  - split; [reflexivity|]. split; [reflexivity|]. split; vm_compute; reflexivity.
  - reflexivity.
  - apply init_load_fits. vm_compute. reflexivity.
Defined.
