(* ===== verification/Keys.v ===== *)
(** * Keys that outlive their object

    A [JSONObjectKeys] (extension.h) keeps a pointer to its object and to one of
    the object's pairs, and takes no reference: what that means for [ReadKey] in
    every session of JSON natives, for handles that plugins do not clone. *)

From stdpp Require Import gmultiset.
From Stdlib Require Import SpecFloat.
From S2P Require Import Prelude Utf8 Strbuffer Dlist Hashtable Value Arrays Refcount ValueSpec Iterate Client Update.
From S2P Require Import Natives Plugin Sessions HttpSafe HttpSessions.

(** A release frees the value that nobody else refers to. *)
Lemma shrink_refs w w' roots m : Inv w roots ∅ -> shrink w w' ->
  (multiplicity m (refs (w_heap w')) <= multiplicity m (refs (w_heap w)))%nat.
Proof.
  intros Hinv Hsh. apply (refs_within (w_next w)).
  - intros k n' Hk _. destruct (sh_nodes _ _ Hsh k n' Hk) as (n & Hn & Hb & _). exists n. split_and!; [done|done|].
    destruct (decide (k ∈ statics)) as [Hs|Hs].
    + destruct (static_node _ _ _ _ Hinv Hs) as (n1 & Hn1 & Hrc & _). simplify_eq. by rewrite Hrc.
    + intros Hz. by apply (inv_count _ _ _ Hinv k n Hn Hs), elem_of_empty in Hz.
  - destruct (w_heap w' !! w_next w) as [n'|] eqn:E; [|done]. destruct (sh_nodes _ _ Hsh _ _ E) as (n & Hn & _).
    pose proof (inv_fresh _ _ _ Hinv (w_next w) ltac:(by rewrite Hn)). lia.
Qed.

Lemma decref_gone w roots l : Inv w (roots ⊎ {[+ l +]}) ∅ -> l ∉ statics -> multiplicity l (refs (w_heap w) ⊎ roots) = 0%nat ->
  wp (json_decref (Some l)) w (fun _ w' => Inv w' roots ∅ /\ w_heap w' !! l = None).
Proof.
  intros Hinv Hs Hone. eapply wp_mono; [by apply json_decref_spec|]. intros _ w' (Hinv' & Hsh & _). split; [done|].
  destruct (w_heap w' !! l) as [n|] eqn:E; [|done]. exfalso. destruct (inv_count _ _ _ Hinv' l n E Hs) as (Hc & _ & Hz).
  pose proof (shrink_refs w w' _ l Hinv Hsh) as Hle. rewrite multiplicity_disj_union in Hc, Hone.
  assert (E0 : refcount n = 0) by lia. by apply Hz, elem_of_empty in E0.
Qed.

Section keys.
Context {HS : Type} `{HandleTable HS}.

(** C40. A [JSONObjectKeys] holds no reference to its object.  In every session:
    when a plugin closes the handle of an object that nothing else refers to,
    the object is freed, and [ReadKey] on keys that stand at one of its pairs
    is undefined behaviour, although the handle of the keys is still open. *)
Theorem read_key_dangling oom entropy hs s e h k l n :
  owned hs = [] -> session (n_init oom entropy hs) s ->
  handles (n_handles s) !! uint32 h = Some (htJSON, PJSON (Some l)) -> l ∉ statics ->
  multiplicity l (refs (w_heap (n_world s)) ⊎ handle_roots (owned (n_handles s))) = 1%nat ->
  handles (n_handles s) !! uint32 (params e 1) = Some (htJSONObjectKeys, PKeys k) ->
  n_keys s !! k = Some {| k_object := Some l; k_iter := Some n |} ->
  exists s', CloseHandle h s = inr (tt, s') /\ plugin_ok s' /\ w_heap (n_world s') !! l = None /\
    handles (n_handles s') !! uint32 (params e 1) = Some (htJSONObjectKeys, PKeys k) /\
    ReadObjectKey e s' = inl UndefinedBehaviour.
Proof.
  intros Hhs Hs Hh Hl Hone Hk Hkeys. apply session_ok in Hs; [|by apply plugin_ok_init].
  destruct (wp_inv _ _ _ (close_handle_safe h s Hs)) as ([] & s' & E & Hs').
  cut (w_heap (n_world s') !! l = None /\ n_keys s' = n_keys s /\ handles (n_handles s') = delete (uint32 h) (handles (n_handles s))).
  { intros (Hgone & Hk' & Hh'). assert (Hopen : handles (n_handles s') !! uint32 (params e 1) = Some (htJSONObjectKeys, PKeys k)).
    { rewrite Hh'. rewrite lookup_delete_ne; [done|]. intros Eq. rewrite Eq in Hh. congruence. }
    exists s'. split_and!; try done. apply read_key_stale; [done|]. exists k, {| k_object := Some l; k_iter := Some n |}.
    split_and!; [by apply read_table|by rewrite Hk'|]. unfold keys_current. cbn.
    intros [?|(l' & items & i & m & El & _ & (ht & (nd & Hnd & _) & _) & _)]; [done|]. simplify_eq. }
  unfold CloseHandle, bind, gets, modify in E. destruct (FreeHandle (uint32 h) (n_handles s)) as [o hs'] eqn:Ef.
  pose proof (free_owned _ _ _ _ Ef) as Hperm. apply free_table in Ef as [-> Ehs]. rewrite Hh in Hperm, E. cbn -[json_decref] in E.
  assert (Hroots : handle_roots (owned (n_handles s)) = handle_roots (owned hs') ⊎ {[+ l +]}).
  { rewrite (handle_roots_perm _ _ Hperm). by rewrite handle_roots_json. }
  assert (Hinv : Inv (n_world s) (handle_roots (owned hs') ⊎ {[+ l +]}) ∅) by (rewrite <- Hroots; apply (po_inv _ Hs)).
  rewrite Hroots in Hone. assert (Hzero : multiplicity l (refs (w_heap (n_world s)) ⊎ handle_roots (owned hs')) = 0%nat).
  { rewrite !multiplicity_disj_union, multiplicity_singleton_eq in *. lia. }
  pose proof (decref_gone _ _ _ Hinv Hl Hzero) as Hd. unfold in_json, zoom, wp in *. cbn -[json_decref] in E.
  destruct (json_decref (Some l) (n_world s)) as [|[[] w']]; [done|]. injection E as <-. cbn. by destruct Hd.
Qed.
End keys.

(** An object with a member "a" behind the handle 1, and its keys behind 2. *)
Definition keys_start : nstate slots := n_init [] 5 ∅.
Definition native_after (f : ST (nstate slots) Z) (s : nstate slots) : nstate slots :=
  match f s with inr (_, s') => s' | inl _ => s end.
Definition keys_state1 : nstate slots := native_after CreateObject keys_start.
Definition keys_state2 : nstate slots := native_after (SetObjectNullValue (simple_env [1] (lit "a"))) keys_state1.
Definition keys_state : nstate slots := native_after (CreateObjectKeys (simple_env [1] [])) keys_state2.

Lemma native_after_session s0 s name f ps t :
  session s0 s -> (name, f) ∈ json_natives -> is_decoder name = false -> is_encoder name = false -> (exists r s', f (simple_env ps t) s = inr (r, s')) ->
  call_fits (simple_env ps t) s -> session s0 (native_after (f (simple_env ps t)) s).
Proof.
  intros Hs Hin Hd He (r & s' & E) Hfit. unfold native_after. rewrite E. eapply session_native; [exact Hs|exact Hin| |exact E].
  split; [done|congruence|congruence].
Qed.
Lemma slots_env_fits ps t (s : nstate slots) :
  Forall (fun p => - 2 ^ 31 <= p < 2 ^ 31) ps -> is_cstr t -> Z.of_nat (length t) < 2 ^ 31 ->
  bool_decide (map_Forall (fun _ n => body_roomy (n_body n)) (w_heap (n_world s))) = true ->
  (Z.of_nat (size (refs (w_heap (n_world s)) ⊎ handle_roots (owned (n_handles s)))) <? 2 ^ 31) = true -> call_fits (simple_env ps t) s.
Proof.
  intros Hps Ht Hlen Hb Hsize. apply simple_env_fits; [done|done|done|]. apply roomy_small; [by apply bool_decide_eq_true in Hb|by apply Z.ltb_lt].
Qed.

Lemma keys_session : session keys_start keys_state.
Proof.
  assert (H1 : session keys_start keys_state1).
  { apply (native_after_session _ _ "JSONObject.JSONObject" (fun _ => CreateObject) [] []); [constructor|by left|done|done|do 2 eexists; vm_compute; reflexivity|].
    apply slots_env_fits; [constructor|constructor|done|vm_compute; reflexivity|vm_compute; reflexivity]. }
  assert (H2 : session keys_start keys_state2).
  { apply (native_after_session _ _ "JSONObject.SetNull" SetObjectNullValue [1] (lit "a") H1);
      [unfold json_natives; repeat (first [by left|right])|done|done|do 2 eexists; vm_compute; reflexivity|].
    apply slots_env_fits; [repeat constructor; lia|by repeat constructor|done|vm_compute; reflexivity|vm_compute; reflexivity]. }
  apply (native_after_session _ _ "JSONObject.Keys" CreateObjectKeys [1] [] H2);
    [unfold json_natives; repeat (first [by left|right])|done|done|do 2 eexists; vm_compute; reflexivity|].
  apply slots_env_fits; [repeat constructor; lia|constructor|done|vm_compute; reflexivity|vm_compute; reflexivity].
Qed.

Lemma read_key_dangling_witness :
  exists s', CloseHandle 1 keys_state = inr (tt, s') /\ plugin_ok s' /\ w_heap (n_world s') !! 4%positive = None /\
    handles (n_handles s') !! uint32 2 = Some (htJSONObjectKeys, PKeys 1%positive) /\
    ReadObjectKey (simple_env [2] []) s' = inl UndefinedBehaviour.
Proof.
  apply (read_key_dangling [] 5 (∅ : slots) keys_state (simple_env [2] []) 1 1%positive 4%positive 1%positive).
  - reflexivity.
  - exact keys_session.
  - vm_compute. reflexivity.
  - intros Hin. unfold statics in Hin. rewrite !elem_of_union, !elem_of_singleton in Hin. destruct Hin as [[E|E]|E]; discriminate E.
  - vm_compute. reflexivity.
  - vm_compute. reflexivity.
  - vm_compute. reflexivity.
Defined.
