(* ===== verification/Transfer.v ===== *)
(** * From a request of a plugin to what libcurl is told

    [HTTPRequest::Perform] makes a context of a request; later [InitCurl] gives
    the context's members to libcurl with [curl_easy_setopt], whose results it
    does not look at.  Here both are put together: the transfer libcurl will
    make is the one that the request describes, up to the values that
    [curl_easy_setopt] rejects. *)

From S2P Require Import Prelude Strbuffer Value Arrays Refcount ValueSpec Iterate Client Error Strconv Load Dump Print Views Dumps.
From S2P Require Import Natives Plugin Sessions Curl Http Setopt HttpFacts HttpNatives HttpSafe HttpSessions Keys.

(* ------------------------------------------------------------------ *)
(** ** Options, when memory lasts *)

(** A string that [curl_easy_setopt] accepts. *)
Definition accepted (t : bytes) : Prop := is_cstr t /\ Z.of_nat (length t) <= CURL_MAX_INPUT_LENGTH.
(** Seconds that a timeout accepts, in milliseconds; 0, for none, otherwise. *)
Definition accepted_ms (z : Z) : Z := if (0 <=? z) && (z <=? INT_MAX_S) then z * 1000 else 0.
(** Redirects that [CURLOPT_MAXREDIRS] accepts; -1, for any number, otherwise. *)
Definition accepted_redirects (z : Z) : Z := if z <? -1 then -1 else z.

Lemma c_malloc_ok n st : c_oom st = [] -> c_malloc n st = inr (true, st).
Proof. destruct st as [o m f]. cbn. by intros ->. Qed.
Lemma setstropt_ok k t d st : c_oom st = [] -> accepted t ->
  Curl_setstropt k (Some t) d st = inr ((CURLE_OK, with_str k (Some t) (with_str k None d)), st).
Proof.
  intros Eo [_ Ht]. unfold Curl_setstropt, strdup, bind. rewrite c_malloc_ok by done. cbn -[Z.ltb].
  by rewrite (proj2 (Z.ltb_ge _ _)) by done.
Qed.

Section options.
Context (encodings : bytes) (st : cstate) (Eo : c_oom st = []).

Lemma set_step tag arg opts d c d' : Curl_vsetopt encodings tag arg d st = inr ((c, d'), st) ->
  set_options encodings ((tag, arg) :: opts) d st = set_options encodings opts d' st.
Proof. intros E. cbn [set_options]. unfold bind. by rewrite E. Qed.

(** A limit that is rejected leaves the old one. *)
Lemma set_timeout z d : timeout_ms d = 0 -> exists c, Curl_vsetopt encodings CURLOPT_TIMEOUT (VLong z) d st =
  inr ((c, with_limits (const (accepted_ms z)) id id id id d), st).
Proof.
  intros E. cbn -[INT_MAX_S Z.mul]. unfold accepted_ms. case_match; eexists; [done|]. destruct d. cbn in E. unfold with_limits, const, id. cbn. by rewrite E.
Qed.
Lemma set_connecttimeout z d : connecttimeout_ms d = 0 -> exists c, Curl_vsetopt encodings CURLOPT_CONNECTTIMEOUT (VLong z) d st =
  inr ((c, with_limits id (const (accepted_ms z)) id id id d), st).
Proof.
  intros E. cbn -[INT_MAX_S Z.mul]. unfold accepted_ms. case_match; eexists; [done|]. destruct d. cbn in E. unfold with_limits, const, id. cbn. by rewrite E.
Qed.
Lemma set_maxredirs z d : maxredirs d = -1 -> exists c, Curl_vsetopt encodings CURLOPT_MAXREDIRS (VLong z) d st =
  inr ((c, with_limits id id (const (accepted_redirects z)) id id d), st).
Proof.
  intros E. cbn -[Z.ltb]. unfold accepted_redirects. case_match; eexists; [|done]. destruct d. cbn in E. unfold with_limits, const, id. cbn. by rewrite E.
Qed.

(** The options every context sets last. *)
Definition limited (o : settings) (d : UserDefined) : UserDefined :=
  let d := if 0 <? maxRecvSpeed o
           then with_limits id id id id (const (maxRecvSpeed o)) d else d in
  let d := if 0 <? maxSendSpeed o
           then with_limits id id id (const (maxSendSpeed o)) id d else d in
  if useBasicAuth o
  then with_str STRING_PASSWORD (Some (password o)) (with_str STRING_PASSWORD None
         (with_str STRING_USERNAME (Some (username o)) (with_str STRING_USERNAME None d))) else d.
Lemma set_limits o d : accepted (username o) -> accepted (password o) -> set_options encodings (limit_options o) d st = inr (limited o d, st).
Proof using Eo.
  intros Hu Hp. unfold limit_options, limited.
  destruct (Z.ltb_spec 0 (maxRecvSpeed o)), (Z.ltb_spec 0 (maxSendSpeed o)), (useBasicAuth o); cbn [app];
    repeat first [erewrite set_step by (by apply setstropt_ok)
                 | erewrite set_step by (cbn -[Z.ltb]; rewrite (proj2 (Z.ltb_ge _ _)) by lia; reflexivity)]; reflexivity.
Qed.

Lemma set_encoding d : accepted encodings -> Curl_vsetopt encodings CURLOPT_ACCEPT_ENCODING (VString []) d st =
  inr ((CURLE_OK, with_str STRING_ENCODING (Some encodings) (with_str STRING_ENCODING None d)), st).
Proof using Eo.
  intros He. cbn [Curl_vsetopt]. unfold strdup, bind at 1 2. rewrite c_malloc_ok by done. by apply setstropt_ok.
Qed.
End options.

(** Executes the next call of [curl_easy_setopt]. *)
Ltac set_option :=
  lazymatch goal with
  | |- context [set_options ?enc ((?o, ?v) :: _) ?d ?st] =>
      let E := fresh "E" in
      lazymatch o with
      | CURLOPT_TIMEOUT => match v with VLong ?z => destruct (set_timeout enc st z d) as [? E]; [done|erewrite set_step by exact E; clear E] end
      | CURLOPT_CONNECTTIMEOUT =>
          match v with VLong ?z => destruct (set_connecttimeout enc st z d) as [? E]; [done|erewrite set_step by exact E; clear E] end
      | CURLOPT_MAXREDIRS => match v with VLong ?z => destruct (set_maxredirs enc st z d) as [? E]; [done|erewrite set_step by exact E; clear E] end
      | CURLOPT_POSTFIELDSIZE_LARGE =>
          erewrite set_step by (cbn -[Z.ltb]; rewrite (proj2 (Z.ltb_ge _ (-1))), (proj2 (Z.ltb_lt (-1) _)) by lia; reflexivity)
      | CURLOPT_INFILESIZE_LARGE => erewrite set_step by (cbn -[Z.ltb]; rewrite (proj2 (Z.ltb_ge _ (-1))) by lia; reflexivity)
      | CURLOPT_ACCEPT_ENCODING => erewrite set_step by (by apply set_encoding)
      | _ => lazymatch v with
             | VString ?t => erewrite set_step by (by apply (setstropt_ok _ t d st))
             | _ => erewrite set_step by reflexivity
             end
      end
  end.

Definition methods : list bytes := [lit "GET"; lit "POST"; lit "PUT"; lit "PATCH"; lit "DELETE"].
Definition has_body (method : bytes) : bool := negb (bytes_eqb method (lit "GET") || bytes_eqb method (lit "DELETE")).

(** What libcurl knows of a transfer. *)
Record told (u : UserDefined) (verb url : bytes) (size : Z) (lines : option positive) (o : settings) : Prop := {
  to_method : Curl_http_method u = verb;
  to_size : infilesize u = if has_body verb then size else 0;
  to_url : str u STRING_SET_URL = Some url;
  to_headers : headers u = lines;
  to_connect : connecttimeout_ms u = accepted_ms (connectTimeout o);
  to_timeout : timeout_ms u = accepted_ms (timeout o);
  to_redirects : maxredirs u = accepted_redirects (maxRedirects o);
  to_follow : http_follow_location u = true;
  to_recv : max_recv_speed u = Z.max 0 (maxRecvSpeed o);
  to_send : max_send_speed u = Z.max 0 (maxSendSpeed o);
  to_username : str u STRING_USERNAME = (if useBasicAuth o then Some (username o) else None);
  to_password : str u STRING_PASSWORD = (if useBasicAuth o then Some (password o) else None)
}.

(** The options behind the ones that depend on the method do not touch what
    the latter set. *)
Record same_request (d u : UserDefined) : Prop := {
  sr_method : Setopt.method u = Setopt.method d;
  sr_upload : Setopt.upload u = Setopt.upload d;
  sr_no_body : opt_no_body u = opt_no_body d;
  sr_postfields : postfields u = postfields d;
  sr_postfieldsize : postfieldsize u = postfieldsize d;
  sr_filesize : filesize u = filesize d;
  sr_custom : str u STRING_CUSTOMREQUEST = str d STRING_CUSTOMREQUEST
}.

Section request.
Context {HM : Type} `{HeaderMap HM} (encodings ca agent : bytes) (x : HTTPRequestContext (HM := HM)) (st : cstate).
Context (Eo : c_oom st = []) (He : accepted encodings) (Hca : accepted ca) (Hagent : accepted agent) (Hurl : accepted (x_url x)).
Context (Huser : accepted (username (x_settings x))) (Hpass : accepted (password (x_settings x))).

Lemma rest_options opts d :
  request_InitCurl ca agent x = method_options x ++ opts ->
  connecttimeout_ms d = 0 -> timeout_ms d = 0 -> maxredirs d = -1 -> max_recv_speed d = 0 -> max_send_speed d = 0 ->
  str d STRING_USERNAME = None -> str d STRING_PASSWORD = None ->
  exists u, set_options encodings opts d st = inr (u, st) /\ same_request d u /\
    (Curl_http_method u = x_method x -> infilesize u = (if has_body (x_method x) then u_size (x_upload x) else 0) ->
     told u (x_method x) (x_url x) (u_size (x_upload x)) (x_headers x) (x_settings x)).
Proof using All.
  intros E H1 H2 H3 H4 H5 H6 H7. unfold request_InitCurl in E. apply app_inv_head in E as <-. cbn [app].
  repeat set_option. rewrite (set_limits encodings st Eo _ _ Huser Hpass). eexists. split; [reflexivity|].
  unfold limited. destruct (Z.ltb_spec 0 (maxRecvSpeed (x_settings x))), (Z.ltb_spec 0 (maxSendSpeed (x_settings x))), (useBasicAuth (x_settings x)) eqn:Ea.
  all: split; [split; reflexivity|intros Hm Hs; split; [exact Hm|exact Hs|..]; rewrite ?Ea; cbn; try done; lia].
Qed.

Lemma request_options : x_method x ∈ methods -> 0 <= u_size (x_upload x) ->
  exists u, set_options encodings (request_InitCurl ca agent x) Curl_init_userdefined st = inr (u, st) /\
    told u (x_method x) (x_url x) (u_size (x_upload x)) (x_headers x) (x_settings x).
Proof using All.
  intros Hm Hsz. destruct (ex_intro (fun opts => request_InitCurl ca agent x = method_options x ++ opts) _ eq_refl) as [opts E].
  assert (Hacc : Forall accepted methods) by (repeat constructor; done).
  apply (proj1 (Forall_forall _ _) Hacc) in Hm as Hacc'. unfold methods in Hm. rewrite !elem_of_cons in Hm.
  pose proof (fun d => rest_options opts d E) as Hrest. rewrite E.
  destruct Hm as [Hm|[Hm|[Hm|[Hm|[Hm|[]%elem_of_nil]]]]]; unfold method_options; rewrite Hm in *;
    repeat match goal with
           | |- context [bytes_eqb (lit ?a) (lit ?b)] =>
               let v := eval vm_compute in (bytes_eqb (lit a) (lit b)) in change (bytes_eqb (lit a) (lit b)) with v
           end; cbv iota; cbn [app]; repeat set_option.
  all: match goal with |- context [set_options _ _ ?d] => destruct (Hrest d) as (u & Eu & Hsame & Htold); try reflexivity end.
  all: exists u; (split; [exact Eu|]); apply Htold; [unfold Curl_http_method|unfold infilesize]; destruct Hsame as [E1 E2 E3 E4 E5 E6 E7];
    rewrite ?E1, ?E2, ?E3, ?E4, ?E5, ?E6, ?E7; reflexivity.
Qed.
End request.

(* ------------------------------------------------------------------ *)
(** ** The request of a plugin *)

Section transfer.
Context {HS : Type} `{HandleTable HS} {HM : Type} `{HeaderMapLaws HM}.
Implicit Types s : hstate (HS := HS) (HM := HM).

(** The body of a request with the data [d]: the reference text of the value
    that the plugin holds, or none when there is no data or no text. *)
Definition carries (e : henv) s (d : json_ptr) (body : option bytes) : Prop :=
  match d with
  | None => body = None
  | Some l =>
      l ∈ handle_roots (owned (n_handles (h_json s))) /\ fits (n_world (h_json s)) /\
      exists v, sees (n_world (h_json s)) [] l v /\
        let (text, ok) := print_json (decimal_point (he_env e)) 0 v in
        Z.of_nat (length text) < 2 ^ 60 /\ body = if ok then Some (until_nul text) else None
  end.

Lemma dump_body_text e d s body : plugin_ok (h_json s) -> carries e s d body -> w_oom (n_world (h_json s)) = [] ->
  exists n, dump_body (he_env e) d s = inr (body, set_h_json n s).
Proof.
  intros Hs Hd Eo. destruct d as [l|]; cbn [dump_body carries] in *.
  2:{ exists (h_json s). rewrite Hd. by destruct s. }
  destruct Hd as (Hl & Hf & v & Hv & Ht). destruct (print_json _ 0 v) as [text ok] eqn:Ep. destruct Ht as [Hlen ->].
  destruct (held_view _ _ _ (po_inv _ Hs) Hl Hf) as [Htv _].
  destruct (json_dumps_spec (decimal_point (he_env e)) 0 _ l v Htv Hv) as (r & o & E & _ & Hr & _); [by rewrite Ep|].
  destruct (Hr Eo) as [_ ->]. rewrite Ep in E. unfold in_natives, in_json, zoom. rewrite E. by eexists.
Qed.

(** C33. What a plugin asks for is what libcurl is told.  When memory lasts,
    [HTTPRequest::Perform] puts one new context at the end of the queue, with
    the forward and value of the plugin, a header list with exactly the lines
    of the request's headers, and the reference text of the JSON value as body;
    and the [curl_easy_setopt] calls of its [InitCurl] leave libcurl with the
    request's method, for each of the five, the length of the body of a POST,
    PUT or PATCH, the request's URL with its query, that header list, its
    credentials if it has any, its positive speed limits, its timeouts in
    milliseconds and its redirects.  The exceptions are values that
    [curl_easy_setopt] rejects without anybody noticing: negative timeouts and
    those above INT_MAX/1000 seconds mean no timeout, redirects below -1 mean
    any number. *)
Theorem transfer_options cur s e verb d r f value body encodings ca agent :
  http_ok cur s -> carries e s d body -> verb ∈ methods ->
  c_oom (h_curl s) = [] -> w_oom (n_world (h_json s)) = [] ->
  Forall accepted [encodings; ca; agent; BuildURL r; username (r_settings r); password (r_settings r)] ->
  exists a x lines s', Perform e verb d r f value s = inr (tt, s') /\
    h_queue s' = h_queue s ++ [a] /\ h_contexts s !! a = None /\ h_contexts s' = <[a := RequestContext x]> (h_contexts s) /\
    x_forward x = f /\ x_value x = value /\ u_body (x_upload x) = body /\ u_pos (x_upload x) = 0 /\
    owns (h_curl s') (x_headers x) lines (c_lists (h_curl s)) /\
    (forall line, line ∈ lines <-> exists n v, hm_find n (r_headers r) = Some v /\ line = header_line n v) /\
    forall st, c_oom st = [] -> exists u,
      set_options encodings (request_InitCurl ca agent x) Curl_init_userdefined st = inr (u, st) /\
      told u verb (BuildURL r) (Z.of_nat (length (default [] body))) (x_headers x) (r_settings r).
Proof using H2.
  intros Hs Hd Hm Ec Ew Hacc. rewrite !Forall_cons in Hacc. destruct Hacc as (He & Hca & Hag & Hurl & Hu & Hp & _).
  assert (Hb : wp (BuildHeaders r) (h_curl s) (fun l c => owns c l ((fun p => header_line p.1 p.2) <$> hm_iter (r_headers r)) (c_lists (h_curl s)))).
  { eapply wp_mono; [apply (append_headers_spec None [] (c_lists (h_curl s)) (hm_iter (r_headers r)))|];
      [apply owns_nothing, (ho_cells _ _ Hs)|done|]. by intros l c [Ho _]. }
  destruct (wp_inv _ _ _ Hb) as (l & c & El & Ho).
  destruct (dump_body_text e d (set_h_curl c s) body (ho_plugin _ _ Hs) Hd Ew) as [n En].
  eexists (h_fresh s), _, _, _. split_and!.
  - unfold Perform, in_curl, bind at 1, zoom. rewrite El. unfold bind at 1. rewrite En. reflexivity.
  - reflexivity.
  - apply eq_None_not_Some. intros Hx. pose proof (ho_fresh _ _ Hs (h_fresh s) ltac:(auto)). lia.
  - reflexivity.
  - reflexivity.
  - reflexivity.
  - reflexivity.
  - reflexivity.
  - exact Ho.
  - intros line. rewrite list_elem_of_fmap. split.
    + intros ([k v] & -> & Hin). exists k, v. by rewrite hm_find_iter.
    + intros (k & v & Hf & ->). exists (k, v). by rewrite <- hm_find_iter.
  - intros st Est. match goal with |- context [request_InitCurl _ _ ?x] =>
      destruct (request_options encodings ca agent x st Est He Hca Hag Hurl Hu Hp Hm) as (u & Eu & Ht); [cbn; lia|] end.
    exists u. split; [exact Eu|]. destruct Ht. split; assumption.
Qed.
End transfer.

(** A plugin with the array [[null]] behind the handle 1, and a forward. *)
Definition transfer_env : henv :=
  {| he_env := simple_env [1] []; curl_easy_init := true; CreateForwardEx := Some true; FormatString := Some [] |}.
Definition transfer_json : nstate slots :=
  native_after (PushArrayNullValue (simple_env [1] [])) (native_after CreateArray (n_init [] 5 ∅)).
Definition transfer_state : hstate (HS := slots) (HM := gmap bytes bytes) :=
  set_h_json transfer_json (h_init [] 5 [] ∅).

Lemma transfer_plugin : plugin_ok transfer_json.
Proof.
  assert (H1 : session (n_init [] 5 ∅) (native_after CreateArray (n_init [] 5 (∅ : slots)))).
  { apply (native_after_session _ _ "JSONArray.JSONArray" (fun _ => CreateArray) [] []);
      [constructor|unfold json_natives; repeat (first [by left|right])|done|done|do 2 eexists; vm_compute; reflexivity|].
    apply slots_env_fits; [constructor|constructor|done|vm_compute; reflexivity|vm_compute; reflexivity]. }
  eapply (session_ok (n_init [] 5 ∅)); [by apply plugin_ok_init|].
  apply (native_after_session _ _ "JSONArray.PushNull" PushArrayNullValue [1] [] H1);
    [unfold json_natives; repeat (first [by left|right])|done|done|do 2 eexists; vm_compute; reflexivity|].
  apply slots_env_fits; [repeat constructor; lia|constructor|done|vm_compute; reflexivity|vm_compute; reflexivity].
Qed.
Lemma transfer_ok : http_ok (idle []) transfer_state.
Proof. apply http_ok_json; [by apply http_ok_init|exact transfer_plugin|vm_compute; reflexivity]. Qed.
Lemma transfer_sees : sees (n_world transfer_json) [] 4%positive (VArray [VLeaf Null_]).
Proof.
  eapply (sees_array _ _ _ [the_null]).
  - intros ?%elem_of_nil. done.
  - eexists. split; [eexists; split; vm_compute; reflexivity|]. split; vm_compute; done.
  - constructor; [|constructor]. apply sees_leaf; [|done]. eexists. split; vm_compute; reflexivity.
Qed.

Lemma transfer_options_witness :
  exists a x lines s', Perform transfer_env (lit "PATCH") (Some 4%positive) (SetTimeout 2147484 (new_HTTPRequest (lit "http://h/"))) 1%positive 7 transfer_state = inr (tt, s') /\
    h_queue s' = h_queue transfer_state ++ [a] /\ h_contexts transfer_state !! a = None /\
    h_contexts s' = <[a := RequestContext x]> (h_contexts transfer_state) /\
    x_forward x = 1%positive /\ x_value x = 7 /\ u_body (x_upload x) = Some (lit "[null]") /\ u_pos (x_upload x) = 0 /\
    owns (h_curl s') (x_headers x) lines (c_lists (h_curl transfer_state)) /\
    (forall line, line ∈ lines <-> exists n v, hm_find n (r_headers (SetTimeout 2147484 (new_HTTPRequest (HM := gmap bytes bytes) (lit "http://h/")))) = Some v /\ line = header_line n v) /\
    forall st, c_oom st = [] -> exists u,
      set_options (lit "deflate, gzip") (request_InitCurl (lit "ca") (lit "agent") x) Curl_init_userdefined st = inr (u, st) /\
      told u (lit "PATCH") (lit "http://h/") 6 (x_headers x) (r_settings (SetTimeout 2147484 (new_HTTPRequest (HM := gmap bytes bytes) (lit "http://h/")))).
Proof.
  apply (transfer_options (idle []) transfer_state transfer_env (lit "PATCH") (Some 4%positive) (SetTimeout 2147484 (new_HTTPRequest (lit "http://h/"))) 1%positive 7
    (Some (lit "[null]")) (lit "deflate, gzip") (lit "ca") (lit "agent")).
  - exact transfer_ok.
  - split; [vm_compute; by eapply bool_decide_unpack|]. split; [vm_compute; split; discriminate|]. eexists. split; [exact transfer_sees|]. vm_compute. by split.
  - unfold methods. repeat (first [by left|right]).
  - reflexivity.
  - reflexivity.
  - repeat constructor; done.
Defined.
